(* ===== verification/_CoqProject ===== *)
-Q . S2P
Prelude.v
JSString.v
JSNumber.v
NumRound.v
NumInt.v
JSON.v
Base64.v
Regex.v
StatusCodes.v
Access.v
ChannelModels.v
Playground.v
DashboardAuth.v
Pricing.v
GroupSquare.v
Governance.v
BillingExpr.v
RuleReading.v
RegexFirst.v
TierExpr.v
TierReading.v
PriceText.v
JSONText.v
ParamOverride.v
OverrideServer.v
ParamEditor.v
ChannelForm.v
ChannelUtils.v
ContentBackup.v
BackupForm.v
Currency.v
AccountForms.v
PriceTable.v
ChatLinks.v
TableUrl.v
Notifications.v
TieredEditor.v
RatioEditor.v
SettingsForm.v
OptionForms.v
UsageLogs.v
LogPrices.v
Wallet.v
SecureVerification.v
ModelDrawer.v
ChannelUpdates.v
PlanForm.v
Login.v
Registration.v
