(* ===== verification/Prelude.v ===== *)
(** * The beeapi web client, verified

    beeapi is a gateway for language models: a server in Go relays requests to
    upstream providers, meters and bills them, and a web client in TypeScript
    ([web/default/src]) is the dashboard in which users chat, look up prices
    and manage keys, and administrators run channels, prices and governance.
    This library is a shallow embedding of the decisions of that client: the
    session and its tokens, who may see which page, the chat state machine,
    and the parsers and maps behind the settings that steer the server.  File
    names below are relative to [web/default/src].

    ** Parts, files and definitions

    The base, used by everything:
    - [Prelude]: options, filters, [uniq] (an array made a [Set] and back),
      and [js_sort], the stable [Array.prototype.sort] with a comparison that
      returns a number.
    - [JSString]: strings as UTF-16 code units; [trim], [split], [indexOf], ...
    - [JSNumber]: doubles by the executable IEEE 754 specification [SpecFloat],
      with [Number(s)], [parseFloat], the shortest printing of [String(x)] and
      the 32-bit integers of the bit operators.
    - [NumRound]: how far a product and a quotient of doubles are from the
      real ones, and [Math.round] of what is near an integer; [NumInt]: that
      sums, differences and comparisons of small integers are exact.
    - [JSON]: objects as dictionaries in enumeration order, [JSON.parse] and
      [JSON.stringify]; [JSONText]: the indented text, and when it is read
      back.
    - [Regex]: regular expressions as the engine runs them, with [exec],
      [split] and [replace]; [RegexFirst]: a calculus for the first match.
    - [Base64]: [atob] and [btoa], and with them the options and answers of
      passkeys ([lib/passkey.ts], Module Passkey).

    The components; unless it says so, they depend on the base alone:
    - [StatusCodes] ([lib/http-status-code-rules.ts]): the lists of status
      codes in the retry and auto-disable settings.
    - [Access]: [AdminPerms] ([lib/admin-perms.ts], [lib/roles.ts]), [Sidebar]
      ([hooks/use-sidebar-config.ts]) and [NavModules] ([lib/nav-modules.ts]),
      which say who sees what.
    - [ChannelModels]: [ModelMapping], [StatusGuard] and [UpstreamMeta], the
      checks of the channel form ([features/channels/lib]).
    - [ChannelForm] ([advanced-custom.ts], [channel-form.ts]): what the form
      of a channel opens with and sends, against the columns of the server;
      [ChannelUtils] ([channel-utils.ts]): keys, stored texts, rows of tags.
    - [ParamOverride], [ParamEditor] and [OverrideServer]: the editor of
      parameter overrides ([param-override-editor-dialog.tsx]), its data, its
      state machine, and the reader of the server as its specification.
    - [Playground]: [Messages] ([lib/message-utils.ts],
      [lib/payload-builder.ts]), [Relay] and [Chat] ([use-stream-request.ts],
      [use-chat-handler.ts], [index.tsx]) of [features/playground].
    - [DashboardAuth]: [AuthStore] ([stores/auth-store.ts]); [Session], [Lease]
      and [Dedupe] ([lib/api.ts]).
    - [Pricing]: [JsonParser], [GroupRatio] and [ModelPricing] ([features/
      system-settings] and [features/models/lib/model-pricing.ts]).
    - [BillingExpr] and [RuleReading]: the rules that multiply a price by what
      a request holds ([features/pricing/lib/billing-expr.ts]), and that they
      are read back; [TierExpr] and [TierReading], on top of them: prices in
      tiers ([tier-expr.ts] and the reader of the pages); [PriceText]: the
      prices the editors print, and that they split as they were joined.
    - [TieredEditor] ([system-settings/models/tiered-pricing-editor.tsx]), on
      top of these: the editor of tiers, its state and its effects; and with
      it [RatioEditor] ([model-ratio-visual-editor.tsx],
      [model-ratio-dialog.tsx]): the dialog around it and the maps it writes.
    - [PriceTable]: the price pages ([price.ts], [dynamic-price.ts] and
      [filters.ts] of [features/pricing/lib]), on top of the expressions and of
      [Currency].
    - [GroupSquare]: [PriceChanges] ([features/price-changes/lib.ts]) and
      [Directory] ([features/group-square/lib/directory.ts]).
    - [Governance] ([features/system-settings/channel-governance/
      conflict-detection.ts]).
    - [ContentBackup] ([features/content-backup/status.ts]; its permissions
      are compared with those of [Access]) and [BackupForm] ([config-form.ts],
      [host-key-pin.ts]).
    - [Currency] ([lib/currency.ts], the amounts of [lib/format.ts]) and, with
      it, [AccountForms]: the forms of API keys, redemption codes and users.
    - [SettingsForm] ([system-settings/hooks/use-settings-form.ts] and the four
      sections that use it): the functions between nested values and keys with
      dots, and the form with its baseline; [OptionForms]
      ([use-system-options.ts], [use-option-batch-save.ts] and the six
      sections of [system-settings/channel-governance]): options read as
      settings, edited and saved one by one.
    - [ChatLinks] ([features/chat/lib/chat-links.ts]): links that hand a key
      to a chat application.
    - [TableUrl] ([hooks/use-table-url-state.ts]): the filters and the page of
      a table kept in the address.
    - [Notifications] ([stores/notification-store.ts],
      [hooks/use-notifications.ts]): what was read, the dialog of the bell and
      its opening by itself, and the mark of the group square.
    - [UsageLogs] ([features/usage-logs/lib/filter.ts], [chain-search.ts],
      [utils.ts]), with [TableUrl]: the filters of the logs from the bar
      through the address to the request; [LogPrices] ([lib/format.ts] and the
      details of a log), with the expressions and [Currency]: the tier a log
      was billed by.
    - [Wallet] ([features/wallet]): the configuration of top-ups, the page with
      its amount, method, prices and orders, and what each way of paying does
      with the answer of the server.
    - [ModelDrawer] ([features/models/components/drawers/
      model-mutate-drawer.tsx]), on top of the prices of [Pricing]: a model and
      its prices in one form.
    - [ChannelUpdates] ([hooks/use-channel-upstream-updates.ts] and its dialog,
      of [features/channels]), on top of [ChannelModels]: models that an
      upstream gained or lost, applied by the server.
    - [PlanForm] ([features/subscriptions/lib/plan-form.ts] and its drawer):
      subscription plans, with the handlers of the server that store them.
    - [SecureVerification] ([features/auth/secure-verification]), on top of
      the passkeys of [Base64]: actions that the server lets pass with a proof
      only, and the dialog that gets it.
    - [Login] ([features/auth], [routes/oauth], [lib/oauth.ts]), on top of
      [AuthStore]: signing in by a password, a second factor, WeChat or a
      passkey, the way back from a provider, and the handler of the server
      that checks the second factor.
    - [Registration] ([hooks/use-countdown.ts] and the pages of
      [features/auth] for registration and forgotten passwords), with the
      first checks of the server.

    ** State and steps

    Most of the code is functions on values and is translated as such, with
    the names of the source; a piece of a function that needed a name of its
    own (the body of a loop, a condition) says in its comment what it is.
    Sixteen parts have state:
    - [Chat]: the refs and the messages of one page; a step is one event of
      the connection or one action of the user, and [run] a list of them.
    - [Session]: one tab, its token, its user and the phase of every request;
      a step is the code from one [await] to the next.
    - [Editor] of [ParamEditor]: the dialog and the counter its ids come from;
      a step is one callback and the effect after it.
    - [Lease]: several tabs, the lease in localStorage and a clock; reads and
      writes without an [await] between them are one step.
    - [Table] of [TableUrl]: the address, the search field and the columns; a
      step is one callback, or an address that arrives from the router.
    - [TieredEditor]: the mode, the configuration, the text and the rules; a
      step is one callback and the renders after it, each a [commit], and
      [RatioEditor] hands its values to the dialog and takes back the last.
    - [SettingsForm]: the refs of the hook, the values of the form and the save
      under way; [GovernanceForm] of [OptionForms]: the options of the server,
      the form, the baseline and the requests of a save, each answered, refused
      or lost; a step is a callback, an answer, or values that arrive.
    - [Bell] of [Notifications]: the stored record, the answers of the queries
      and the dialog; a step is a callback or an answer, and the effect.
    - [Page] of [Wallet]: the form, the requests for prices and the orders
      under way; a step is a callback or an answer and the renderings after
      it; [Preview]: the prices of the cards, with the requests of the last
      rendering and those it replaced.
    - [ModelDrawer]: the form, the answers of its two queries and the save under
      way with what its closure holds; a step is a callback or an answer, and
      the effect that fills the form.
    - [Updates] of [ChannelUpdates]: the lists, the dialog with its selections,
      which outlive the channel, and the four callbacks, each behind its lock.
    - [Flow] of [SecureVerification]: the hook, its dialog and what it waits
      for; a step is a callback, a click or an answer.
    - [Login]: the page with its forms, the session, the token of the second
      factor and the requests under way; a step is a callback or an answer.
      Its [protocol] is what remains without pages and forms, and every step
      is one of the protocol or nothing to it ([step_protocol]).
    - [SignUp] of [Registration]: the form, the countdown with its interval
      and the requests; a step is a callback, an answer or a tick.

    Errors are values: [option] where the source returns [null] or [undefined],
    a sum or a [Result]-like type where it throws.

    ** What the theorems show

    - Safety of the machines: a request is settled at most once and is silent
      afterwards ([settled_once]); the end of a stream finishes the message
      ([stream_end_finishes]); however an answer is cut into pieces, it ends as
      the message the whole text gives ([streamed_answer_spec]); a tab has one
      refresh on the way, and no request is sent more than twice
      ([session_safe]); a refused session leaves no token behind
      ([terminal_error_ends_session], [store_clean]); two tabs never refresh
      together while their leases last ([lease_mutex]).
    - The dialog of parameter overrides: ids stay unique and one row selected
      ([dialog_ids_unique]), rows well typed ([dialog_rows_typed]), a dropped
      row lands where it should ([reorder_moves]).
    - The bell: opening it until nothing is chosen leaves nothing unread
      ([bell_cleared]), and it opens by itself once in a visit and never again
      for the same batches ([popup_once]).
    - The editor of tiers: its effects come to rest ([editor_settles]); a
      price it saved opens as it was ([saved_pricing_opens]) and what the user
      types is what the parent is told ([edits_reported]), except in the text
      mode, where the rules are lost ([raw_price_lost]); the dialog around it
      writes the entry of its models and nothing else ([model_save_spec]) and
      changes nothing when nothing was edited ([untouched_save]).
    - The settings: a form sends the fields that differ from what it was last
      given, and nothing after a save ([settings_form_spec]); a section whose
      options nobody else saves sends what differs from the server
      ([section_sends_what_differs]), and again what was not confirmed, and
      that alone ([refused_sent_again]).  Refused options that count as saved
      ([refused_setting_forgotten]) and a baseline that does not follow the
      server ([edit_back_never_sent]) are what the two hooks do not handle.
    - The wallet: one order at a time, for what is selected and not below its
      least amount ([orders_spec]); the price that is shown is the one of the
      amount and the method ([shown_price_spec]), as long as the answers come
      in order and every method has a least amount, and not otherwise
      ([stale_price_shown], [cleared_amount_misquoted]); replaced previews are
      never shown ([preview_spec]); the end of a payment leaves the page by
      one link or shows one failure ([checkout_spec]).
    - A save in the drawer of models sends what the form held at the click, the
      model first, and leaves in the options what the mutation of the prices
      computes ([drawer_save_spec], [mutate_spec]); a confirmed update of a
      channel does what the check marks say, against the function of the server
      ([confirmed_applied]), although the marks are not those of the channel
      that was opened ([opens_unchecked], [stale_selection_confirms]).
    - Verification: a proof is used once, for the action and the scope that
      it was asked for ([proofs_bound]), though after a cancellation as well
      ([cancelled_still_called]).
    - Signing in: whoever is signed in was named by an answer of the server,
      to a second factor or after a login that needs none
      ([signed_in_explained]); a backup code signs in however it is typed,
      against the handler of the server ([backup_code_signs_in]); the way back
      from a provider ends in one of four ways ([callback_outcome]).  After a
      code that was refused no other one is sent ([refused_code_ends_flow]),
      and the way back follows any link ([any_site_followed]).
    - Registration: a countdown has one interval and ends ([countdown_runs]); a
      code is sent again only after a refusal or a countdown, and what is
      registered is complete ([signup_spec]), though the check against robots
      can be missing ([robots_check_missing]).
    - Access: permissions are what the role and the stored list allow
      ([resolve_perms_spec], [perms_roundtrip], [backup_perms_spec]); the user
      layer of the sidebar only takes away ([sidebar_narrows]) and the guards
      of the routes agree with it ([route_guard_admits]).
    - What a form opens and saves without an edit is what the server holds:
      channels ([open_save_spec], [settings_json_spec], [setting_json_spec],
      [cleared_fields_spec]), parameter overrides ([override_open_save],
      [return_error_draft_spec], [sync_target_spec]), keys, codes and users
      ([key_open_save], [redemption_open_save], [user_open_save]), models
      ([untouched_model_save]), plans ([plan_open_save]), amounts of
      money through two roundings each way ([quota_roundtrip]).
    - Printers and readers: rules and tiers of prices ([rules_read_back],
      [price_splits], [tiers_read_back], [shown_tiers_spec]), whose loops end
      ([reading_loops_end]); the editors and the price pages together: the
      pages show the tiers and rules that were saved ([saved_price_shown]),
      a log the tier it was billed by ([log_shows_tier]) and no other
      ([unnamed_tier_unpriced]);
      fingerprints of host keys ([host_key_pin_spec]); bytes in base64url
      ([base64url_roundtrip]), and what a passkey is asked and answers
      ([creation_options_spec], [assertion_sent_spec]); the key and address in
      a chat link ([chat_link_spec]); filters and pages of tables in the
      address ([filters_survive_url], [page_survives_url], [range_reached]);
      accepted status code lists in canonical form, one per set of codes, and
      exactly the bad tokens refused (the theorems of [StatusCodes]); think
      tags ([think_tags_spec]); JSON, with or without indentation.
    - Maps of settings: saving a model price changes that model and no other,
      and is read back ([mutate_spec], [save_then_read]); removing a group
      removes it everywhere ([remove_group_spec]); the rows of the ratio table
      ([rows_spec]) and of the tags of channels ([aggregate_spec]).
    - The price table: the models that pass every filter, each as often as
      given ([filters_spec]); the rate of the cheapest group
      ([lowest_ratio_spec]).
    - Checks: missing models, risky redirects, conflicts of governance settings
      (with the degrade ladder of the server as their specification,
      [ladder_spec]), the fields a backup leaves unused
      ([inactive_fields_spec]), changes of group prices, search highlighting,
      the order of the backup queue, fingerprints of sessions.
    - Where the code does not do what it means to, a lemma or an example shows
      it: rules of a prune operation cannot be edited
      ([prune_rule_edits_lost]), cleared columns stay ([cleared_fields_spec]),
      labels with quotation marks are not read back ([not_read_back]), and
      others next to the definitions they are about.

    ** Numbers, bounds and fuel

    Ids, counts, times and status codes are integers ([Z]); prices, ratios and
    what JSON holds are doubles ([num]).  Recursion is structural wherever the
    code walks a list; the fuel of a loop is the length of the text it reads
    plus one, and its lemmas show that more changes nothing, as every turn
    moves forward ([reading_loops_end] for the loops around [exec]).  A callback of
    the editor of tiers is followed by five renders, after which another one
    changes nothing ([editor_settles]); one of the wallet by three
    ([page_settles]).
    [JSON_parse] has the length of its text as fuel.  A repetition in a
    regular expression and the loop around [exec] have the length of the text
    as fuel, which is enough ([star_fuel], [exec_all_fuel]).

    ** What is not modelled

    The server (Go), the classic client, rendering and styling, translated
    texts, network calls as such.  Packages enter as events in any order
    (axios, the event source) or not at all (React, zustand).  What the
    platform alone knows is a parameter of the definitions: lower case and
    letters of Unicode, comparison by locale, number formats, fresh ids, the
    clock.  The prototype chain of objects is left
    out.  Components that are listed but not modelled, or in part, are those
    that draw: the tables and charts of the dashboard, the forms of single
    settings pages, the token rows of the logs, the history of payments. *)
From stdpp Require Export base list gmap strings sorting.
From Stdlib Require Export ZArith NArith Lia.

(** ** Options and booleans *)

(** [a || b] of JavaScript on an optional string, list or number is written
    out where it is used; [opt_or] is the [??] operator. *)
Definition opt_or {A} (o : option A) (d : A) : A :=
  match o with Some a => a | None => d end.

(** Destruct every boolean connective of the context. *)
Ltac bool_hyps :=
  repeat match goal with
  | H : andb _ _ = true |- _ => apply andb_true_iff in H; destruct H
  | H : orb _ _ = false |- _ => apply orb_false_iff in H; destruct H
  | H : negb _ = true |- _ => apply negb_true_iff in H
  | H : negb _ = false |- _ => apply negb_false_iff in H
  | H : bool_decide _ = true |- _ => apply bool_decide_eq_true in H
  | H : bool_decide _ = false |- _ => apply bool_decide_eq_false in H
  end.

(** Split the goal along every [match] and [if] in it and close the trivial
    branches. *)
Ltac case_all := repeat (case_match; simplify_eq/=; try done).

(** One goal for each element of a list written out. *)
Ltac each_of H :=
  repeat (apply elem_of_cons in H as [->|H]; [|]); [..|by apply not_elem_of_nil in H].

(** ** Lists filtered by a boolean test *)

Section Filter.
Context {A : Type} (f : A → bool).

Lemma elem_of_bfilter x l : x ∈ List.filter f l ↔ x ∈ l ∧ f x = true.
Proof. by rewrite list_elem_of_In, filter_In, <- list_elem_of_In. Qed.

Lemma bfilter_all l : (∀ x, x ∈ l → f x = true) → List.filter f l = l.
Proof.
  induction l as [|x l IH]; intros H; simpl; [done|].
  rewrite H by set_solver. f_equal. apply IH. set_solver.
Qed.

Lemma bfilter_none l : (∀ x, x ∈ l → f x = false) → List.filter f l = [].
Proof.
  induction l as [|x l IH]; intros H; simpl; [done|].
  rewrite H by set_solver. apply IH. set_solver.
Qed.

Lemma NoDup_bfilter l : NoDup l → NoDup (List.filter f l).
Proof. intros H%NoDup_ListNoDup. apply NoDup_ListNoDup. by apply List.NoDup_filter. Qed.

Lemma bfilter_sublist l : List.filter f l `sublist_of` l.
Proof. induction l as [|x l IH]; simpl; [done|]. destruct (f x); by constructor. Qed.
End Filter.

Lemma elem_of_concat {A} (x : A) (ll : list (list A)) :
  x ∈ concat ll ↔ ∃ l, l ∈ ll ∧ x ∈ l.
Proof. induction ll as [|l ll IH]; simpl; [set_solver|]. rewrite elem_of_app, IH. set_solver. Qed.

(** An element is taken out of a list. *)
Lemma elem_of_delete {A} (l : list A) i x : x ∈ delete i l → x ∈ l.
Proof. revert i. induction l as [|y l IH]; intros [|i]; simpl; set_solver. Qed.

Lemma length_delete_le {A} (l : list A) i : length (delete i l) ≤ length l.
Proof. revert i. induction l as [|y l IH]; intros [|i]; simpl; [lia..|]. specialize (IH i). lia. Qed.

(** ** [Array.from(new Set(l))]: keep the first occurrence of each element *)

Section Uniq.
Context {A : Type} `{EqDecision A}.
Implicit Types (l : list A) (x y : A).

Fixpoint uniq_from (seen : list A) l : list A :=
  match l with
  | [] => []
  | x :: l' =>
      if decide (x ∈ seen) then uniq_from seen l'
      else x :: uniq_from (x :: seen) l'
  end.

Definition uniq l : list A := uniq_from [] l.

Lemma elem_of_uniq_from seen l x :
  x ∈ uniq_from seen l ↔ x ∈ l ∧ x ∉ seen.
Proof.
  revert seen. induction l as [|y l IH]; intros seen; simpl; [set_solver|].
  destruct (decide (y ∈ seen)); rewrite ?elem_of_cons, IH; [set_solver|].
  destruct (decide (x = y)); set_solver.
Qed.

Lemma NoDup_uniq_from seen l : NoDup (uniq_from seen l).
Proof.
  revert seen. induction l as [|y l IH]; intros seen; simpl; [constructor|].
  destruct (decide (y ∈ seen)); [done|].
  constructor; [|done]. rewrite elem_of_uniq_from. set_solver.
Qed.

Lemma elem_of_uniq l x : x ∈ uniq l ↔ x ∈ l.
Proof. unfold uniq. rewrite elem_of_uniq_from. set_solver. Qed.

Lemma NoDup_uniq l : NoDup (uniq l).
Proof. apply NoDup_uniq_from. Qed.

Lemma uniq_from_id seen l :
  NoDup l → (∀ x, x ∈ l → x ∉ seen) → uniq_from seen l = l.
Proof.
  intros Hnd. revert seen.
  induction Hnd as [|y l Hy _ IH]; intros seen Hs; simpl; [done|].
  rewrite decide_False by set_solver. f_equal. apply IH. set_solver.
Qed.

Lemma uniq_NoDup l : NoDup l → uniq l = l.
Proof. intros. apply uniq_from_id; set_solver. Qed.

Lemma uniq_idemp l : uniq (uniq l) = uniq l.
Proof. apply uniq_NoDup, NoDup_uniq. Qed.

Lemma uniq_from_filter (P : A → Prop) `{∀ x, Decision (P x)} seen l :
  uniq_from seen (filter P l) = filter P (uniq_from seen l).
Proof.
  revert seen. induction l as [|y l IH]; intros seen; simpl; [done|].
  rewrite filter_cons. destruct (decide (P y)) as [Hy|Hy]; simpl.
  - destruct (decide (y ∈ seen)); [by rewrite IH|].
    by rewrite filter_cons_True, IH.
  - rewrite IH. destruct (decide (y ∈ seen)); [done|].
    rewrite filter_cons_False by done.
    assert (Hex : ∀ l s1 s2, (∀ z, P z → z ∈ s1 ↔ z ∈ s2) →
      filter P (uniq_from s1 l) = filter P (uniq_from s2 l)).
    { clear. induction l as [|z l IH]; intros s1 s2 Hs; simpl; [done|].
      destruct (decide (P z)) as [Hz|Hz].
      - destruct (decide (z ∈ s1)), (decide (z ∈ s2));
          try (exfalso; rewrite Hs in *; by auto).
        + by apply IH.
        + rewrite !filter_cons_True by done. f_equal. apply IH. set_solver.
      - destruct (decide (z ∈ s1)), (decide (z ∈ s2));
          rewrite ?filter_cons_False by done; apply IH; set_solver. }
    apply Hex. intros z Hz. set_solver.
Qed.

Lemma uniq_from_app seen l1 l2 :
  uniq_from seen (l1 ++ l2) = uniq_from seen l1 ++ uniq_from (reverse l1 ++ seen) l2.
Proof.
  assert (∀ l s1 s2, (∀ z, z ∈ s1 ↔ z ∈ s2) → uniq_from s1 l = uniq_from s2 l) as Hext.
  { intros l. induction l as [|z l IH]; intros s1 s2 Hs; simpl; [done|].
    destruct (decide (z ∈ s1)), (decide (z ∈ s2)); try (exfalso; naive_solver); auto.
    f_equal. apply IH. set_solver. }
  revert seen. induction l1 as [|x l1 IH]; intros seen; simpl; [done|].
  destruct (decide (x ∈ seen)) as [Hx|Hx]; rewrite IH; simpl; f_equal; [|f_equal];
    apply Hext; intros z; rewrite ?reverse_cons; set_solver.
Qed.

Lemma uniq_from_nodup seen l :
  NoDup l → uniq_from seen l = List.filter (λ x, negb (bool_decide (x ∈ seen))) l.
Proof.
  intros Hl. revert seen. induction Hl as [|x l Hx _ IH]; intros seen; simpl; [done|].
  case_decide as Hd; [by rewrite bool_decide_eq_true_2|].
  rewrite bool_decide_eq_false_2 by done. simpl. f_equal. rewrite IH.
  apply filter_ext_in. intros y Hy%list_elem_of_In. f_equal.
  apply bool_decide_ext. set_solver.
Qed.

Lemma uniq_app_diff l1 l2 :
  NoDup l1 → NoDup l2 →
  uniq (l1 ++ l2) = l1 ++ List.filter (λ x, negb (bool_decide (x ∈ l1))) l2.
Proof.
  intros H1 H2. unfold uniq. rewrite uniq_from_app, (uniq_from_id []) by set_solver.
  f_equal. rewrite uniq_from_nodup by done.
  apply filter_ext. intros x. f_equal. apply bool_decide_ext. set_solver.
Qed.

Lemma length_uniq_le l : length (uniq l) ≤ length l.
Proof.
  apply submseteq_length, NoDup_submseteq; [apply NoDup_uniq|].
  intros x. by rewrite elem_of_uniq.
Qed.
End Uniq.

(** ** [Array.prototype.sort]: a stable sort by a comparison function *)

Section Sort.
Context {A : Type} (cmp : A → A → Z).

Fixpoint sort_insert (x : A) (l : list A) : list A :=
  match l with
  | [] => [x]
  | y :: l' => if (cmp x y <? 0)%Z then x :: y :: l' else y :: sort_insert x l'
  end.

Definition js_sort (l : list A) : list A :=
  foldl (λ acc x, sort_insert x acc) [] l.

Lemma js_sort_snoc l x : js_sort (l ++ [x]) = sort_insert x (js_sort l).
Proof. unfold js_sort. by rewrite foldl_app. Qed.

Lemma sort_insert_perm x l : sort_insert x l ≡ₚ x :: l.
Proof.
  induction l as [|y l IH]; simpl; [done|].
  destruct (cmp x y <? 0)%Z; [done|]. rewrite IH. apply Permutation_swap.
Qed.

Lemma js_sort_perm l : js_sort l ≡ₚ l.
Proof.
  induction l as [|x l IH] using rev_ind; [done|].
  rewrite js_sort_snoc, sort_insert_perm, IH.
  by rewrite Permutation_app_comm.
Qed.

Lemma elem_of_js_sort x l : x ∈ js_sort l ↔ x ∈ l.
Proof. by rewrite js_sort_perm. Qed.

Lemma length_js_sort l : length (js_sort l) = length l.
Proof. by rewrite js_sort_perm. Qed.

Lemma sort_insert_last x l :
  (∀ y, y ∈ l → (0 <= cmp x y)%Z) → sort_insert x l = l ++ [x].
Proof.
  induction l as [|y l IH]; intros Hx; simpl; [done|].
  destruct (Z.ltb_spec (cmp x y) 0) as [Hlt|].
  { specialize (Hx y (list_elem_of_here _ _)). lia. }
  rewrite IH; set_solver.
Qed.

(** What a comparison function must satisfy for the order to be defined. *)
Class CmpOrder : Prop := {
  cmp_total x y : (cmp x y < 0)%Z ∨ (cmp y x <= 0)%Z;
  cmp_trans x y z : (cmp x y <= 0)%Z → (cmp y z <= 0)%Z → (cmp x z <= 0)%Z;
}.

Definition cmp_le (x y : A) : Prop := (cmp x y <= 0)%Z.

Context `{!CmpOrder}.

Lemma sort_insert_sorted x l :
  StronglySorted cmp_le l → StronglySorted cmp_le (sort_insert x l).
Proof.
  induction 1 as [|y l Hl IH Hy]; simpl; [repeat constructor|].
  destruct (Z.ltb_spec (cmp x y) 0) as [Hlt|Hge].
  - constructor; [by constructor|]. constructor; [unfold cmp_le; lia|].
    eapply Forall_impl; [done|]. intros z Hz.
    eapply cmp_trans; [|done]. lia.
  - constructor; [done|]. rewrite sort_insert_perm. constructor; [|done].
    destruct (cmp_total x y); [lia|done].
Qed.

Lemma js_sort_sorted l : StronglySorted cmp_le (js_sort l).
Proof.
  induction l as [|x l IH] using rev_ind; [constructor|].
  rewrite js_sort_snoc. by apply sort_insert_sorted.
Qed.
End Sort.

Lemma forallb_Forall {A} (f : A → bool) l : forallb f l = true ↔ Forall (λ x, f x = true) l.
Proof. rewrite List.forallb_forall, Forall_forall. by setoid_rewrite list_elem_of_In. Qed.

Lemma StronglySorted_impl {A} (R1 R2 : A → A → Prop) (l : list A) :
  (∀ x y, R1 x y → R2 x y) → StronglySorted R1 l → StronglySorted R2 l.
Proof.
  intros HR. induction 1 as [|x l _ IH Hx]; constructor; [done|].
  eapply Forall_impl; eauto.
Qed.

(** An already sorted list is unchanged: the sort is stable. *)
Lemma js_sort_id {A} (cmp : A → A → Z) (l : list A) :
  StronglySorted (λ x y, (0 <= cmp y x)%Z) l → js_sort cmp l = l.
Proof.
  induction l as [|x l IH] using rev_ind; intros Hs; [done|].
  rewrite js_sort_snoc. apply StronglySorted_app in Hs as (Hall & Hs & _).
  rewrite (IH Hs). apply sort_insert_last. intros y Hy.
  apply (Hall y x); set_solver.
Qed.
