(* ===== verification/JSString.v ===== *)
(** * JavaScript strings

    A string is the sequence of its UTF-16 code units, as in ECMAScript: every
    index, [length] and [charCodeAt] of the source counts code units.  This
    file models the string operations the source uses ([trim], [split],
    [join], [slice], [indexOf], [startsWith], ...) and proves the lemmas about
    them that the components share. *)
From S2P Require Import Prelude.
From Stdlib Require Import Ascii.

Abbreviation jschar := N.
Abbreviation jsstr := (list N).

(** A literal of the source.  [js] takes the text as it is; in [jq] a
    backquote stands for the double quote, which no literal of this
    development contains. *)
Definition js (s : string) : jsstr :=
  map N_of_ascii (String.list_ascii_of_string s).

Definition DQ : jschar := 34%N.
Definition BSL : jschar := 92%N.

Definition jq (s : string) : jsstr :=
  map (λ c, if (c =? 96)%N then DQ else c) (js s).

(** ** White space and [trim] *)

(** WhiteSpace and LineTerminator of ECMAScript: what [trim] strips and what
    [\s] matches. *)
Definition is_ws (c : jschar) : bool :=
  ((9 <=? c) && (c <=? 13) || (c =? 32) || (c =? 160) || (c =? 5760)
   || ((8192 <=? c) && (c <=? 8202)) || (c =? 8232) || (c =? 8233)
   || (c =? 8239) || (c =? 8287) || (c =? 12288) || (c =? 65279))%N.

Definition is_digit (c : jschar) : bool := ((48 <=? c) && (c <=? 57))%N.
Definition is_upper (c : jschar) : bool := ((65 <=? c) && (c <=? 90))%N.
Definition is_lower (c : jschar) : bool := ((97 <=? c) && (c <=? 122))%N.

(** [\w] *)
Definition is_word (c : jschar) : bool :=
  is_digit c || is_upper c || is_lower c || (c =? 95)%N.

Fixpoint trim_start (s : jsstr) : jsstr :=
  match s with
  | c :: s' => if is_ws c then trim_start s' else s
  | [] => []
  end.

Definition trim_end (s : jsstr) : jsstr := reverse (trim_start (reverse s)).

Definition trim (s : jsstr) : jsstr := trim_end (trim_start s).

(** Every space removed: [s.replace(/\s/g, '')]. *)
Definition strip_ws (s : jsstr) : jsstr := List.filter (λ c, negb (is_ws c)) s.

(** ** Tests and searches *)

Fixpoint starts_with (p s : jsstr) : bool :=
  match p, s with
  | [], _ => true
  | a :: p', b :: s' => (a =? b)%N && starts_with p' s'
  | _ :: _, [] => false
  end.

Definition ends_with (p s : jsstr) : bool :=
  starts_with (reverse p) (reverse s).

(** [s.indexOf(p)], [None] for [-1]. *)
Fixpoint index_of (p s : jsstr) : option nat :=
  if starts_with p s then Some 0 else
  match s with
  | [] => None
  | _ :: s' => S <$> index_of p s'
  end.

(** [s.indexOf(p, from)] *)
Definition index_of_from (p s : jsstr) (from : nat) : option nat :=
  Nat.add from <$> index_of p (drop from s).

Definition includes (p s : jsstr) : bool :=
  match index_of p s with Some _ => true | None => false end.

(** [s.slice(i, j)] and [s.substring(i, j)] for [0 <= i <= j]. *)
Definition slice (i j : nat) (s : jsstr) : jsstr := take (j - i) (drop i s).

(** [s.slice(-k)] *)
Definition slice_last (k : nat) (s : jsstr) : jsstr :=
  drop (length s - k) s.

(** ** [split] by one character, [join] *)

Fixpoint split_on (sep : jschar) (s : jsstr) : list jsstr :=
  match s with
  | [] => [[]]
  | c :: s' =>
      if (c =? sep)%N then [] :: split_on sep s' else
      match split_on sep s' with
      | w :: ws => (c :: w) :: ws
      | [] => [[c]]
      end
  end.

Fixpoint join (sep : jsstr) (l : list jsstr) : jsstr :=
  match l with
  | [] => []
  | [w] => w
  | w :: l' => w ++ sep ++ join sep l'
  end.

(** [filter(Boolean)] on strings: the empty ones are dropped. *)
Definition nonempty (s : jsstr) : bool := match s with [] => false | _ => true end.
Definition filter_bool (l : list jsstr) : list jsstr := List.filter nonempty l.

(** [x || d] on a string: the empty string is falsy. *)
Definition str_or (s d : jsstr) : jsstr := match s with [] => d | _ => s end.

(** The decimal digits of a natural number, [String(n)] for [0 <= n]. *)
Fixpoint digits_fuel (fuel : nat) (n : N) (acc : jsstr) : jsstr :=
  match fuel with
  | O => acc
  | S f =>
      let acc' := (48 + n mod 10)%N :: acc in
      if (n <? 10)%N then acc' else digits_fuel f (n / 10)%N acc'
  end.

Definition string_of_N (n : N) : jsstr := digits_fuel (S (N.size_nat n)) n [].

Definition string_of_Z (z : Z) : jsstr :=
  if (z <? 0)%Z then 45%N :: string_of_N (Z.abs_N z) else string_of_N (Z.abs_N z).

(** [Number.parseInt(s, 10)] of a string of digits. *)
Definition digits_value (s : jsstr) : N :=
  foldl (λ v c, (10 * v + (c - 48))%N) 0%N s.

(** [s.padStart(n, c)] *)
Definition pad_start (n : nat) (c : jschar) (s : jsstr) : jsstr :=
  replicate (n - length s) c ++ s.

#[global] Arguments js : simpl never.
#[global] Arguments jq : simpl never.
#[global] Arguments DQ : simpl never.
#[global] Arguments BSL : simpl never.

(** Replace the literals of the goal by their code units. *)
Ltac js_lit :=
  repeat match goal with
  | |- context [js ?s] => let v := eval vm_compute in (js s) in change (js s) with v
  | |- context [jq ?s] => let v := eval vm_compute in (jq s) in change (jq s) with v
  end.

Ltac js_lit_in H :=
  repeat match type of H with
  | context [js ?s] => let v := eval vm_compute in (js s) in change (js s) with v in H
  | context [jq ?s] => let v := eval vm_compute in (jq s) in change (jq s) with v in H
  end.

(** The order of [<] on strings and of the default [sort()]: by code units. *)
Fixpoint str_compare (s t : jsstr) : Z :=
  match s, t with
  | [], [] => 0
  | [], _ :: _ => -1
  | _ :: _, [] => 1
  | a :: s', b :: t' =>
      if (a <? b)%N then -1 else if (b <? a)%N then 1 else str_compare s' t'
  end%Z.

(** ** Lemmas: [trim] *)

(** A string [trim] leaves alone: no white space at either end. *)
Definition trimmed (s : jsstr) : Prop := trim s = s.

#[global] Instance trimmed_dec s : Decision (trimmed s).
Proof. unfold trimmed. apply _. Defined.

Lemma trim_start_app_nws c s1 s2 :
  is_ws c = false → trim_start (s1 ++ c :: s2) = trim_start s1 ++ c :: s2 ∨
                    trim_start (s1 ++ c :: s2) = c :: s2.
Proof.
  intros Hc. induction s1 as [|a s1 IH]; simpl; [rewrite Hc; by left|].
  destruct (is_ws a); [done|by left].
Qed.

Lemma trim_start_nws s :
  match s with [] => True | c :: _ => is_ws c = false end → trim_start s = s.
Proof. destruct s as [|c s]; simpl; [done|]. by intros ->. Qed.

Lemma trim_start_suffix s : ∃ w, s = w ++ trim_start s ∧ Forall (λ c, is_ws c = true) w.
Proof.
  induction s as [|c s [w [Hw Hall]]]; simpl; [by exists []|].
  destruct (is_ws c) eqn:Hc; [|by exists []].
  exists (c :: w). split; [by rewrite Hw at 1|by constructor].
Qed.

Lemma trim_end_prefix s : ∃ w, s = trim_end s ++ w ∧ Forall (λ c, is_ws c = true) w.
Proof.
  unfold trim_end. destruct (trim_start_suffix (reverse s)) as [w [Hw Hall]].
  exists (reverse w). split; [|by rewrite Forall_reverse].
  apply (inj reverse). by rewrite reverse_app, !reverse_involutive.
Qed.

Lemma trim_decompose s : ∃ w1 w2, s = w1 ++ trim s ++ w2 ∧
  Forall (λ c, is_ws c = true) w1 ∧ Forall (λ c, is_ws c = true) w2.
Proof.
  destruct (trim_start_suffix s) as [w1 [H1 ?]].
  destruct (trim_end_prefix (trim_start s)) as [w2 [H2 ?]].
  exists w1, w2. split; [|done]. unfold trim. by rewrite <- H2.
Qed.

Lemma elem_of_trim c s : c ∈ trim s → c ∈ s.
Proof. destruct (trim_decompose s) as (w1 & w2 & H & _). rewrite H at 2. set_solver. Qed.

Definition head_nws (s : jsstr) : Prop :=
  match s with [] => True | c :: _ => is_ws c = false end.
Definition last_nws (s : jsstr) : Prop := head_nws (reverse s).

Lemma trim_start_head s : head_nws (trim_start s).
Proof. induction s as [|c s IH]; simpl; [done|]. by destruct (is_ws c) eqn:?. Qed.

Lemma trim_end_last s : last_nws (trim_end s).
Proof. unfold last_nws, trim_end. rewrite reverse_involutive. apply trim_start_head. Qed.

Lemma trim_end_head s : head_nws s → head_nws (trim_end s).
Proof.
  destruct (trim_end_prefix s) as [w [H _]]. intros Hs.
  destruct (trim_end s) as [|c t]; [done|]. rewrite H in Hs. done.
Qed.

Lemma trimmed_iff s : trimmed s ↔ head_nws s ∧ last_nws s.
Proof.
  unfold trimmed. split.
  - intros <-. split; [apply trim_end_head, trim_start_head|apply trim_end_last].
  - intros [Hh Hl]. unfold trim. rewrite (trim_start_nws s Hh).
    unfold trim_end. rewrite (trim_start_nws (reverse s) Hl).
    apply reverse_involutive.
Qed.

Lemma trim_trimmed s : trimmed (trim s).
Proof. apply trimmed_iff. split; [apply trim_end_head, trim_start_head|apply trim_end_last]. Qed.

Lemma trim_idemp s : trim (trim s) = trim s.
Proof. apply trim_trimmed. Qed.

Lemma trimmed_nil : trimmed [].
Proof. done. Qed.

Lemma last_nws_snoc s c : last_nws (s ++ [c]) ↔ is_ws c = false.
Proof. unfold last_nws. by rewrite reverse_snoc. Qed.

Lemma last_nws_app s1 s2 : s2 ≠ [] → last_nws (s1 ++ s2) ↔ last_nws s2.
Proof.
  intros Hs. destruct s2 as [|c s2 _] using rev_ind; [done|].
  by rewrite app_assoc, !last_nws_snoc.
Qed.

Lemma head_nws_app s1 s2 : s1 ≠ [] → head_nws (s1 ++ s2) ↔ head_nws s1.
Proof. by destruct s1. Qed.

(** A string that starts and ends with the trimmed, non-empty [s1] and [s3]. *)
Lemma trimmed_app s1 s2 s3 :
  s1 ≠ [] → s3 ≠ [] → head_nws s1 → last_nws s3 → trimmed (s1 ++ s2 ++ s3).
Proof.
  intros ? ? Hh Hl. apply trimmed_iff. split.
  - by apply head_nws_app.
  - rewrite app_assoc. by apply last_nws_app.
Qed.

Lemma trimmed_no_ws s : Forall (λ c, is_ws c = false) s → trimmed s.
Proof.
  intros Hs. apply trimmed_iff. split; [by destruct Hs|].
  unfold last_nws. apply Forall_reverse in Hs. by destruct Hs.
Qed.

Lemma trim_nil_iff s : trim s = [] ↔ Forall (λ c, is_ws c = true) s.
Proof.
  split.
  - intros H. destruct (trim_decompose s) as (w1 & w2 & Hs & H1 & H2).
    rewrite H in Hs. rewrite Hs. by apply Forall_app.
  - intros Hs. unfold trim.
    assert (trim_start s = []) as ->; [|done].
    induction Hs as [|c s Hc _ IH]; simpl; [done|]. by rewrite Hc.
Qed.

(** ** Lemmas: prefixes and searches *)

Lemma starts_with_spec p s : starts_with p s = true ↔ ∃ t, s = p ++ t.
Proof.
  revert s. induction p as [|a p IH]; intros s; simpl; [naive_solver|].
  destruct s as [|b s]; [naive_solver|].
  rewrite andb_true_iff, N.eqb_eq, IH. naive_solver.
Qed.

Lemma starts_with_app p t : starts_with p (p ++ t) = true.
Proof. apply starts_with_spec. eauto. Qed.

Lemma starts_with_refl p : starts_with p p = true.
Proof. rewrite <- (app_nil_r p) at 2. apply starts_with_app. Qed.

Lemma starts_with_length p s : starts_with p s = true → length p ≤ length s.
Proof. intros [t ->]%starts_with_spec. rewrite length_app. lia. Qed.

Lemma index_of_Some p s i :
  index_of p s = Some i →
  (∃ t, drop i s = p ++ t) ∧ i + length p ≤ length s ∧
  ∀ j, j < i → starts_with p (drop j s) = false.
Proof.
  revert i. induction s as [|c s IH]; intros i; simpl.
  - destruct (starts_with p []) eqn:Hp; [|done]. intros [= <-].
    apply starts_with_spec in Hp as [t Ht]. destruct p; [|done].
    simpl. split; [eauto|]. split; [lia|]. intros; lia.
  - destruct (starts_with p (c :: s)) eqn:Hp.
    + intros [= <-]. apply starts_with_spec in Hp as [t Ht].
      simpl. split; [eauto|]. apply (f_equal length) in Ht.
      rewrite length_app in Ht. simpl in *. split; [lia|intros; lia].
    + destruct (index_of p s) as [k|] eqn:Hk; [|done]. intros [= <-].
      destruct (IH k eq_refl) as (Ht & Hl & Hj). split; [done|].
      split; [simpl; lia|]. intros [|j] Hlt; [done|]. apply Hj. lia.
Qed.

Lemma index_of_None p s :
  index_of p s = None ↔ ∀ s1 s2, s ≠ s1 ++ p ++ s2.
Proof.
  split.
  - intros Hn s1. revert s Hn. induction s1 as [|a s1 IH]; intros s Hn s2 ->.
    + pose proof (starts_with_app p s2) as Hp. simpl in Hn.
      by destruct (p ++ s2); simpl in Hn; rewrite Hp in Hn.
    + simpl in Hn. destruct (starts_with p (a :: s1 ++ p ++ s2)); [done|].
      destruct (index_of p (s1 ++ p ++ s2)) eqn:E; [done|].
      by apply (IH _ E s2).
  - induction s as [|c s IH]; intros H; simpl.
    + destruct (starts_with p []) eqn:E; [|done].
      apply starts_with_spec in E as [t Ht]. by destruct (H [] t).
    + destruct (starts_with p (c :: s)) eqn:E.
      { apply starts_with_spec in E as [t Ht]. by destruct (H [] t). }
      rewrite IH; [done|]. intros s1 s2 ->. by destruct (H (c :: s1) s2).
Qed.

Lemma includes_spec p s : includes p s = true ↔ ∃ s1 s2, s = s1 ++ p ++ s2.
Proof.
  unfold includes. destruct (index_of p s) as [i|] eqn:E; split; try done.
  - intros _. apply index_of_Some in E as ([t Ht] & _ & _).
    exists (take i s), t. by rewrite <- Ht, take_drop.
  - intros (s1 & s2 & Hs). by destruct (proj1 (index_of_None p s) E s1 s2).
Qed.

Lemma index_of_eq p s i :
  starts_with p (drop i s) = true → i ≤ length s →
  (∀ j, j < i → starts_with p (drop j s) = false) → index_of p s = Some i.
Proof.
  intros Hi Hl Hj. destruct (index_of p s) as [k|] eqn:E.
  - apply index_of_Some in E as ([u Hu] & _ & Hk). f_equal.
    destruct (lt_eq_lt_dec k i) as [[?|?]|Hik]; [|done|].
    + specialize (Hj k ltac:(done)). rewrite Hu, starts_with_app in Hj. done.
    + rewrite (Hk i Hik) in Hi. done.
  - apply starts_with_spec in Hi as [u Hu].
    destruct (proj1 (index_of_None p s) E (take i s) u). by rewrite <- Hu, take_drop.
Qed.

(** No proper suffix of [p] is a prefix of it, so that two occurrences of [p]
    never overlap. *)
Definition borderless (p : jsstr) : bool :=
  forallb (λ k, negb (starts_with (drop k p) p)) (seq 1 (length p - 1)).

(** What precedes a tag that it does not contain is cut off exactly. *)
Lemma index_of_borderless p v rest :
  borderless p = true → includes p v = false → index_of p (v ++ p ++ rest) = Some (length v).
Proof.
  intros Hb Hv. apply index_of_eq.
  - rewrite drop_app_length. apply starts_with_app.
  - rewrite length_app. lia.
  - intros j Hj. destruct (starts_with p (drop j (v ++ p ++ rest))) eqn:E; [|done].
    exfalso. apply starts_with_spec in E as [u Hu].
    rewrite drop_app_le in Hu by lia. set (w := drop j v) in *.
    assert (length w = length v - j) as Hw by apply length_drop.
    destruct (decide (length p ≤ length w)) as [Hle|Hgt].
    + assert (w = p ++ drop (length p) w) as Hp.
      { rewrite <- (take_drop (length p) w) at 1. f_equal.
        apply (f_equal (take (length p))) in Hu.
        by rewrite take_app_le, take_app_length in Hu by lia. }
      assert (includes p v = true); [|congruence].
      apply includes_spec. exists (take j v), (drop (length p) w).
      rewrite <- Hp. subst w. by rewrite take_drop.
    + assert (drop (length w) p ++ u = p ++ rest) as Hd.
      { apply (f_equal (drop (length w))) in Hu.
        by rewrite drop_app_length, drop_app_le in Hu by lia. }
      unfold borderless in Hb. rewrite forallb_forall in Hb.
      specialize (Hb (length w)). rewrite in_seq in Hb.
      assert (starts_with (drop (length w) p) p = true) as Hs.
      { apply starts_with_spec. exists (drop (length p - length w) p).
        apply (f_equal (take (length p - length w))) in Hd.
        rewrite take_app_length', (take_app_le p) in Hd by (rewrite ?length_drop; lia).
        by rewrite Hd, take_drop. }
      rewrite Hs in Hb. enough (negb true = true) by done. apply Hb. lia.
Qed.

Lemma includes_false p s : includes p s = false ↔ index_of p s = None.
Proof. unfold includes. by destruct (index_of p s). Qed.

(** ** Lemmas: [split] and [join] *)

Lemma split_on_not_nil sep s : split_on sep s ≠ [].
Proof. destruct s as [|c s]; simpl; [done|]. by repeat case_match. Qed.

Lemma join_split sep s : join [sep] (split_on sep s) = s.
Proof.
  induction s as [|c s IH]; simpl; [done|].
  pose proof (split_on_not_nil sep s) as Hn.
  destruct (N.eqb_spec c sep) as [->|];
    destruct (split_on sep s) as [|w [|w' ws]]; simpl in *; by rewrite ?IH.
Qed.

Lemma split_on_app sep w s :
  sep ∉ w → split_on sep (w ++ sep :: s) = w :: split_on sep s.
Proof.
  induction w as [|a w IH]; intros Hw; simpl; [by rewrite N.eqb_refl|].
  destruct (N.eqb_spec a sep); [set_solver|]. rewrite IH; set_solver.
Qed.

Lemma split_on_none sep w : sep ∉ w → split_on sep w = [w].
Proof.
  induction w as [|a w IH]; intros Hw; simpl; [done|].
  destruct (N.eqb_spec a sep); [set_solver|]. rewrite IH; set_solver.
Qed.

Lemma split_join sep l :
  l ≠ [] → Forall (λ w, sep ∉ w) l → split_on sep (join [sep] l) = l.
Proof.
  intros Hne Hl. induction Hl as [|w l Hw Hl IH]; [done|].
  destruct l as [|w' l]; [by apply split_on_none|].
  change (join [sep] (w :: w' :: l)) with (w ++ sep :: join [sep] (w' :: l)).
  rewrite split_on_app by done. by rewrite IH.
Qed.

Lemma split_on_no_sep sep s : Forall (λ w, sep ∉ w) (split_on sep s).
Proof.
  induction s as [|c s IH]; simpl; [by repeat constructor; apply not_elem_of_nil|].
  destruct (N.eqb_spec c sep); [by constructor; [apply not_elem_of_nil|]|].
  destruct (split_on sep s); decompose_Forall; repeat constructor; set_solver.
Qed.

Lemma elem_of_filter_bool s l : s ∈ filter_bool l ↔ s ∈ l ∧ s ≠ [].
Proof.
  unfold filter_bool. rewrite !list_elem_of_In, filter_In.
  destruct s; naive_solver.
Qed.

Lemma filter_bool_id l : Forall (λ s, s ≠ []) l → filter_bool l = l.
Proof. induction 1 as [|[|c s] l Hs _ IH]; simpl; [done|done|]. by f_equal. Qed.

(** The list reader of the source, [s.split(c).map(trim).filter(Boolean)],
    and its behaviour on what [join] prints. *)
Definition split_trim (sep : jschar) (s : jsstr) : list jsstr :=
  filter_bool (map trim (split_on sep s)).

Lemma split_trim_join sep l :
  Forall (λ w, trimmed w ∧ w ≠ [] ∧ sep ∉ w) l →
  split_trim sep (join [sep] l) = l.
Proof.
  intros Hl. destruct l as [|w l]; [done|]. unfold split_trim.
  rewrite split_join; [|done|by eapply Forall_impl; [done|]; naive_solver].
  assert (map trim (w :: l) = w :: l) as ->.
  { rewrite <- (map_id (w :: l)) at 2. apply map_ext_in. intros a Ha.
    apply list_elem_of_In in Ha. rewrite Forall_forall in Hl. by apply Hl. }
  apply filter_bool_id. eapply Forall_impl; [done|]. naive_solver.
Qed.

Lemma elem_of_split_trim sep s w :
  w ∈ split_trim sep s → trimmed w ∧ w ≠ [] ∧ sep ∉ w.
Proof.
  unfold split_trim. rewrite elem_of_filter_bool.
  intros [(v & -> & Hv)%list_elem_of_fmap Hne]. split; [apply trim_trimmed|].
  split; [done|]. intros Hc%elem_of_trim. pose proof (split_on_no_sep sep s) as H.
  rewrite Forall_forall in H. by apply (H v).
Qed.

(** Reading what was printed from a read list gives the list back. *)
Lemma split_trim_roundtrip sep s :
  split_trim sep (join [sep] (split_trim sep s)) = split_trim sep s.
Proof.
  apply split_trim_join, Forall_forall. intros w. apply elem_of_split_trim.
Qed.

(** ** Lemmas: decimal digits *)

Lemma digits_fuel_value f n acc :
  (n < 10 ^ N.of_nat f)%N →
  digits_value (digits_fuel f n acc) =
  foldl (λ v c, (10 * v + (c - 48))%N) n acc.
Proof.
  revert n acc. induction f as [|f IH]; intros n acc Hn.
  { change (10 ^ N.of_nat 0)%N with 1%N in Hn. assert (n = 0%N) as -> by lia. done. }
  cbn [digits_fuel]. pose proof (N.div_mod n 10 ltac:(done)) as Hd.
  pose proof (N.mod_lt n 10 ltac:(done)) as Hm.
  destruct (N.ltb_spec n 10) as [Hlt|Hge].
  - unfold digits_value. cbn [foldl]. f_equal.
    rewrite (N.mod_small n 10 Hlt). lia.
  - rewrite IH.
    + cbn [foldl]. f_equal. rewrite (N.add_comm 48), N.add_sub. by symmetry.
    + rewrite Nat2N.inj_succ, N.pow_succ_r' in Hn.
      apply N.Div0.div_lt_upper_bound. lia.
Qed.

Lemma size_nat_bound n : (n < 2 ^ N.of_nat (S (N.size_nat n)))%N.
Proof.
  destruct n as [|p]; [done|].
  rewrite Nat2N.inj_succ, N.pow_succ_r'. simpl N.size_nat.
  pose proof (N.size_gt (N.pos p)) as H. cbn [N.size] in H.
  rewrite <- (positive_nat_N (Pos.size p)) in H.
  assert (Pos.to_nat (Pos.size p) = Pos.size_nat p) as Hs.
  { clear. induction p; simpl; rewrite ?Pos2Nat.inj_succ; lia. }
  rewrite Hs in H. lia.
Qed.

Lemma string_of_N_value n : digits_value (string_of_N n) = n.
Proof.
  unfold string_of_N. rewrite digits_fuel_value; [done|].
  apply N.lt_le_trans with (2 ^ N.of_nat (S (N.size_nat n)))%N; [apply size_nat_bound|].
  apply N.pow_le_mono_l. lia.
Qed.

Lemma digits_fuel_digits f n acc :
  Forall (λ c, is_digit c = true) acc →
  Forall (λ c, is_digit c = true) (digits_fuel f n acc).
Proof.
  revert n acc. induction f as [|f IH]; intros n acc Hacc; [done|].
  cbn [digits_fuel].
  assert (is_digit (48 + n mod 10) = true) as Hd.
  { pose proof (N.mod_lt n 10 ltac:(done)) as Hm. unfold is_digit.
    generalize dependent (n mod 10)%N. intros r Hr.
    apply andb_true_iff; split; apply N.leb_le; lia. }
  destruct (n <? 10)%N; [by constructor|]. apply IH. by constructor.
Qed.

Lemma string_of_N_digits n : Forall (λ c, is_digit c = true) (string_of_N n).
Proof. apply digits_fuel_digits. constructor. Qed.

Lemma digits_fuel_not_nil f n acc : acc ≠ [] → digits_fuel f n acc ≠ [].
Proof.
  revert n acc. induction f as [|f IH]; intros n acc Hacc; [done|].
  cbn [digits_fuel]. case_match; [done|]. by apply IH.
Qed.

Lemma string_of_N_not_nil n : string_of_N n ≠ [].
Proof.
  unfold string_of_N. cbn [digits_fuel]. case_match; [done|].
  by apply digits_fuel_not_nil.
Qed.

#[global] Instance string_of_N_inj : Inj (=) (=) string_of_N.
Proof. intros n m H. by rewrite <- (string_of_N_value n), H, string_of_N_value. Qed.

Lemma is_digit_not_ws c : is_digit c = true → is_ws c = false.
Proof.
  unfold is_digit, is_ws. rewrite andb_true_iff, !N.leb_le. intros [? ?].
  repeat (apply orb_false_iff; split);
    try apply andb_false_iff; rewrite ?N.eqb_neq, ?N.leb_gt; lia.
Qed.

Lemma is_word_not_ws c : is_word c = true → is_ws c = false.
Proof.
  unfold is_word, is_digit, is_upper, is_lower, is_ws.
  rewrite !orb_true_iff, !andb_true_iff, !N.leb_le, N.eqb_eq. intros Hc.
  repeat (apply orb_false_iff; split);
    try apply andb_false_iff; rewrite ?N.eqb_neq, ?N.leb_gt; lia.
Qed.

Lemma string_of_N_no_ws n : Forall (λ c, is_ws c = false) (string_of_N n).
Proof.
  eapply Forall_impl; [apply string_of_N_digits|]. intros c.
  apply is_digit_not_ws.
Qed.

Lemma strip_ws_id s : Forall (λ c, is_ws c = false) s → strip_ws s = s.
Proof.
  unfold strip_ws. induction 1 as [|c s Hc _ IH]; simpl; [done|].
  by rewrite Hc, IH.
Qed.

Lemma strip_ws_no_ws s : Forall (λ c, is_ws c = false) (strip_ws s).
Proof.
  apply Forall_forall. intros c. unfold strip_ws.
  rewrite list_elem_of_In, filter_In, negb_true_iff. naive_solver.
Qed.

(** The hints that discharge the side conditions on separators, digits and
    white space. *)
Create HintDb jsstr.
#[export] Hint Resolve trim_trimmed trimmed_nil trimmed_no_ws string_of_N_no_ws
  string_of_N_not_nil string_of_N_digits strip_ws_no_ws : jsstr.

(** ** Lemmas: the order of strings *)

Lemma str_compare_range s t :
  str_compare s t = (-1)%Z ∨ str_compare s t = 0%Z ∨ str_compare s t = 1%Z.
Proof.
  revert t. induction s as [|a s IH]; intros [|b t]; simpl; auto.
  repeat case_match; auto.
Qed.

Lemma str_compare_eq s t : str_compare s t = 0%Z ↔ s = t.
Proof.
  revert t. induction s as [|a s IH]; intros [|b t]; simpl; try done.
  destruct (N.ltb_spec a b), (N.ltb_spec b a); try (split; [done|intros [= -> ->]; lia]).
  rewrite IH. assert (a = b) as -> by lia. naive_solver.
Qed.

Lemma str_compare_antisym s t : str_compare t s = (- str_compare s t)%Z.
Proof.
  revert t. induction s as [|a s IH]; intros [|b t]; simpl; try done.
  destruct (N.ltb_spec a b), (N.ltb_spec b a); try done; lia.
Qed.

Lemma str_compare_trans s t u :
  (str_compare s t <= 0)%Z → (str_compare t u <= 0)%Z → (str_compare s u <= 0)%Z.
Proof.
  revert t u. induction s as [|a s IH]; intros [|b t] [|c u]; simpl; try (intros; lia).
  destruct (N.ltb_spec a b), (N.ltb_spec b a), (N.ltb_spec b c), (N.ltb_spec c b),
    (N.ltb_spec a c), (N.ltb_spec c a); try (intros; lia). apply IH.
Qed.

#[global] Instance str_compare_order : CmpOrder str_compare.
Proof.
  split; [|exact str_compare_trans]. intros s t.
  rewrite (str_compare_antisym t s). lia.
Qed.
