(* ===== verification/JSNumber.v ===== *)
(** * JavaScript numbers

    A [number] is an IEEE 754 binary64 value, computed with the executable
    specification [SpecFloat] of the standard library (precision 53, exponent
    bound 1024; one NaN, signed zeros).  The file adds what the source uses of
    ECMAScript: reading a decimal literal with correct rounding ([Number(s)],
    [parseFloat(s)]), printing the shortest digits that read back
    ([String(x)]), truthiness and the comparisons. *)
From S2P Require Import Prelude JSString.
From Stdlib Require Export SpecFloat.

Local Open Scope Z_scope.

Abbreviation num := spec_float.

#[global] Instance num_eq_dec : EqDecision num.
Proof. solve_decision. Defined.

Definition prec : Z := 53.
Definition emax : Z := 1024.

Definition num_of_Z (z : Z) : num := binary_normalize prec emax z 0 false.

Definition num_add : num → num → num := SFadd prec emax.
Definition num_sub : num → num → num := SFsub prec emax.
Definition num_mul : num → num → num := SFmul prec emax.
Definition num_div : num → num → num := SFdiv prec emax.

(** [===], [<] and [<=] *)
Definition num_eqb : num → num → bool := SFeqb.
Definition num_ltb : num → num → bool := SFltb.
Definition num_leb : num → num → bool := SFleb.

Definition num_is_nan (x : num) : bool := match x with S754_nan => true | _ => false end.
Definition num_is_finite (x : num) : bool :=
  match x with S754_zero _ | S754_finite _ _ _ => true | _ => false end.

(** [Boolean(x)]: every number but [0], [-0] and [NaN]. *)
Definition num_truthy (x : num) : bool :=
  match x with S754_zero _ | S754_nan => false | _ => true end.

Definition num_zero : num := S754_zero false.
Definition num_inf : num := S754_infinity false.

(** The integer a number is, if it is one: [Number.isInteger(x)]. *)
Definition num_integer (x : num) : option Z :=
  match x with
  | S754_zero _ => Some 0
  | S754_finite neg m e =>
      let sg z := if neg then - z else z in
      if 0 <=? e then Some (sg (Zpos m * 2 ^ e)) else
      let d := 2 ^ (- e) in
      if Zpos m mod d =? 0 then Some (sg (Zpos m / d)) else None
  | _ => None
  end.

(** [Math.abs(x)] and [-x] *)
Definition num_abs (x : num) : num := SFabs x.
Definition num_neg (x : num) : num := SFopp x.

(** [Math.round(x)]: the closest integer, halves upwards; exact, and with the
    sign of [x] when it is zero. *)
Definition num_round (x : num) : num :=
  match x with
  | S754_finite neg m e =>
      let sg z := if neg then - z else z in
      let d := 2 ^ (- e) in
      let z := if 0 <=? e then sg (Zpos m * 2 ^ e) else (2 * sg (Zpos m) + d) / (2 * d) in
      if z =? 0 then S754_zero neg else num_of_Z z
  | _ => x
  end.

(** ** Reading a decimal literal *)

(** The double closest to [(-1)^neg * m * 10^e].  A magnitude of 10^310 and
    more overflows and one below 10^-330 underflows, whatever its digits. *)
Definition num_of_dec (neg : bool) (m : N) (e : Z) : num :=
  match m with
  | N0 => S754_zero neg
  | Npos p =>
      let mag := Z.of_nat (length (string_of_N m)) + e in
      if 310 <? mag then S754_infinity neg else
      if mag <? -330 then S754_zero neg else
      if 0 <=? e then
        match binary_normalize prec emax (Zpos p * 10 ^ e) 0 false with
        | S754_finite _ q x => S754_finite neg q x
        | S754_infinity _ => S754_infinity neg
        | r => r
        end
      else
        let '(q, x, l) := SFdiv_core_binary prec emax (Zpos p) 0 (10 ^ (- e)) 0 in
        binary_round_aux prec emax neg q x l
  end.

(** The longest prefix of digits. *)
Fixpoint span_digits (s : jsstr) : jsstr * jsstr :=
  match s with
  | c :: s' =>
      if is_digit c then let '(d, r) := span_digits s' in (c :: d, r) else ([], s)
  | [] => ([], [])
  end.

Definition DOT : jschar := 46%N.

(** An exponent part, [e] or [E], a sign and digits; [None] when there is none. *)
Definition span_exponent (s : jsstr) : option (Z * jsstr) :=
  match s with
  | c :: s' =>
      if negb ((c =? 101)%N || (c =? 69)%N) then None else
      let '(neg, s'') := match s' with
        | d :: r => if (d =? 45)%N then (true, r) else
                    if (d =? 43)%N then (false, r) else (false, s')
        | [] => (false, []) end in
      let '(ds, rest) := span_digits s'' in
      if nonempty ds then
        let v := Z.of_N (digits_value ds) in Some ((if neg then - v else v), rest)
      else None
  | [] => None
  end.

(** The longest prefix that is a StrUnsignedDecimalLiteral (not [Infinity]),
    with its value and the rest of the string. *)
Definition span_decimal (neg : bool) (s : jsstr) : option (num * jsstr) :=
  let '(ip, r1) := span_digits s in
  let '(fp, r2) := match r1 with
    | c :: r => if (c =? DOT)%N then
                  let '(fp, r') := span_digits r in
                  if nonempty ip || nonempty fp then (fp, r') else ([], r1)
                else ([], r1)
    | [] => ([], []) end in
  if negb (nonempty ip || nonempty fp) then None else
  let m := digits_value (ip ++ fp) in
  let e0 := - Z.of_nat (length fp) in
  match span_exponent r2 with
  | Some (x, r3) => Some (num_of_dec neg m (e0 + x), r3)
  | None => Some (num_of_dec neg m e0, r2)
  end.

Definition span_sign (s : jsstr) : bool * jsstr :=
  match s with
  | c :: s' => if (c =? 45)%N then (true, s') else
               if (c =? 43)%N then (false, s') else (false, s)
  | [] => (false, [])
  end.

(** A signed decimal or [Infinity] prefix: [parseFloat]. *)
Definition span_number (s : jsstr) : option (num * jsstr) :=
  let '(neg, r) := span_sign s in
  if starts_with (js "Infinity") r then Some (S754_infinity neg, drop 8 r)
  else span_decimal neg r.

Definition parseFloat (s : jsstr) : num :=
  match span_number (trim_start s) with Some (x, _) => x | None => S754_nan end.

(** The value of [0x], [0o] and [0b] literals. *)
Definition radix_digit (c : jschar) : N :=
  if is_digit c then c - 48 else if is_lower c then c - 87 else
  if is_upper c then c - 55 else 99.

Definition radix_value (b : N) (s : jsstr) : num :=
  if nonempty s && forallb (λ c, (radix_digit c <? b)%N) s
  then num_of_Z (Z.of_N (foldl (λ v c, (b * v + radix_digit c)%N) 0%N s))
  else S754_nan.

(** [Number(s)] *)
Definition Number (s : jsstr) : num :=
  let t := trim s in
  match t with
  | [] => num_zero
  | 48%N :: c :: r =>
      if ((c =? 120) || (c =? 88))%N then radix_value 16 r else
      if ((c =? 111) || (c =? 79))%N then radix_value 8 r else
      if ((c =? 98) || (c =? 66))%N then radix_value 2 r else
      match span_number t with Some (x, []) => x | _ => S754_nan end
  | _ => match span_number t with Some (x, []) => x | _ => S754_nan end
  end.

(** ** Printing: the shortest digits that read back *)

(** [x = a / b] for the positive finite [x] with mantissa [m] and exponent [e]. *)
Definition ratio_of (m : positive) (e : Z) : Z * Z :=
  if 0 <=? e then (Zpos m * 2 ^ e, 1) else (Zpos m, 2 ^ (- e)).

(** The least [n] (from a lower bound) with [a / b < 10^n]. *)
Fixpoint magnitude (fuel : nat) (a b n : Z) : Z :=
  match fuel with
  | O => n
  | S f =>
      let below := if 0 <=? n then a <? b * 10 ^ n else a * 10 ^ (- n) <? b in
      if below then n else magnitude f a b (n + 1)
  end.

(** The digits of [x] with [k] significant digits, if they read back. *)
Definition try_digits (x : num) (a b n : Z) (k : Z) : option (N * Z) :=
  let sc := k - n in
  let '(p, q) := if 0 <=? sc then (a * 10 ^ sc, b) else (a, b * 10 ^ (- sc)) in
  let lo := p / q in
  let good d := bool_decide (num_of_dec false (Z.to_N d) (n - k) = x) in
  let lo_ok := good lo in
  let hi_ok := good (lo + 1) in
  if lo_ok && hi_ok then
    if 2 * (p - q * lo) <=? q then Some (Z.to_N lo, n) else Some (Z.to_N (lo + 1), n)
  else if lo_ok then Some (Z.to_N lo, n)
  else if hi_ok then
    if lo + 1 =? 10 ^ k then Some (1%N, n + 1) else Some (Z.to_N (lo + 1), n)
  else None.

Fixpoint shortest (fuel : nat) (x : num) (a b n k : Z) : option (N * Z) :=
  match fuel with
  | O => None
  | S f =>
      match try_digits x a b n k with
      | Some r => Some r
      | None => shortest f x a b n (k + 1)
      end
  end.

Definition zeros (n : Z) : jsstr := replicate (Z.to_nat n) 48%N.

(** Number::toString on the digits [s] and the position [n] of the point. *)
Definition layout (s : jsstr) (n : Z) : jsstr :=
  let k := Z.of_nat (length s) in
  if (k <=? n) && (n <=? 21) then s ++ zeros (n - k)
  else if (0 <? n) && (n <=? 21) then
    take (Z.to_nat n) s ++ [DOT] ++ drop (Z.to_nat n) s
  else if (-6 <? n) && (n <=? 0) then js "0." ++ zeros (- n) ++ s
  else
    let e := n - 1 in
    let es := (if e <? 0 then [45%N] else [43%N]) ++ string_of_Z (Z.abs e) in
    match s with
    | [d] => [d] ++ js "e" ++ es
    | d :: r => [d] ++ [DOT] ++ r ++ js "e" ++ es
    | [] => []
    end.

(** [String(x)].  Seventeen digits always suffice for a double; the last
    branch only gives the model a total function. *)
Definition num_to_string (x : num) : jsstr :=
  match x with
  | S754_nan => js "NaN"
  | S754_zero _ => js "0"
  | S754_infinity false => js "Infinity"
  | S754_infinity true => js "-Infinity"
  | S754_finite neg m e =>
      let '(a, b) := ratio_of m e in
      let n0 := ((Z.of_N (N.size (Npos m)) + e - 1) * 30103) / 100000 - 1 in
      let n := magnitude 8 a b n0 in
      let body := match shortest 17 (S754_finite false m e) a b n 1 with
        | Some (d, n') => layout (string_of_N d) n'
        | None => [] end in
      (if neg then [45%N] else []) ++ body
  end.

Example num_print_1 :
  map (λ s, num_to_string (Number (js s)))
    ["0.1"; "-2.50"; "1e21"; "123456789012345680000"; "1e-7"; "0.000001"; "5e-324";
     "1.7976931348623157e308"; "1e400"; " 12 "; ""; "0x1F"; "abc"; "9007199254740993"]
  = map js
    ["0.1"; "-2.5"; "1e+21"; "123456789012345680000"; "1e-7"; "0.000001"; "5e-324";
     "1.7976931348623157e+308"; "Infinity"; "12"; "0"; "31"; "NaN"; "9007199254740992"].
Proof. vm_compute. reflexivity. Qed.

(** ** Integers of 32 bits *)

(** [ToInt32] and [ToUint32] of an integer. *)
Definition ToUint32 (z : Z) : Z := z mod 2 ^ 32.
Definition ToInt32 (z : Z) : Z :=
  let u := ToUint32 z in if u <? 2 ^ 31 then u else u - 2 ^ 32.

Lemma ToUint32_ToInt32 z : ToUint32 (ToInt32 z) = ToUint32 z.
Proof.
  unfold ToInt32, ToUint32. destruct (_ <? _); [by rewrite Z.mod_mod by lia|].
  rewrite Zminus_mod, Z_mod_same_full, Z.sub_0_r, !Z.mod_mod by lia. done.
Qed.

Lemma ToUint32_small z : 0 <= z < 2 ^ 32 → ToUint32 z = z.
Proof. apply Z.mod_small. Qed.

Lemma ToInt32_bounds z : - 2 ^ 31 <= ToInt32 z < 2 ^ 31.
Proof.
  unfold ToInt32, ToUint32. pose proof (Z.mod_pos_bound z (2 ^ 32) ltac:(done)).
  destruct (Z.ltb_spec (z mod 2 ^ 32) (2 ^ 31)); lia.
Qed.

Lemma ToInt32_congr a b : ToUint32 a = ToUint32 b → ToInt32 a = ToInt32 b.
Proof. unfold ToInt32. by intros ->. Qed.

Lemma ToInt32_small z : - 2 ^ 31 <= z < 2 ^ 31 → ToInt32 z = z.
Proof.
  intros Hz. unfold ToInt32, ToUint32. destruct (Z.lt_ge_cases z 0).
  - replace (z mod 2 ^ 32) with (z + 2 ^ 32) by (symmetry; rewrite <- (Z.mod_unique z (2 ^ 32) (-1) (z + 2 ^ 32)); lia).
    destruct (Z.ltb_spec (z + 2 ^ 32) (2 ^ 31)); lia.
  - rewrite Z.mod_small by lia. destruct (Z.ltb_spec z (2 ^ 31)); lia.
Qed.

(** ** Equality *)

Lemma num_eqb_refl n : num_is_nan n = false → num_eqb n n = true.
Proof.
  destruct n as [[]|[]| |[] m e]; try done; intros _; unfold num_eqb, SFeqb; cbn [SFcompare];
    by rewrite Z.compare_refl, Pos.compare_cont_refl.
Qed.

(** Numbers that [===] takes for equal differ in the sign of a zero at most. *)
Lemma num_eqb_eq x y : num_eqb x y = true → x = y ∨ x = S754_zero true ∨ y = S754_zero true.
Proof.
  unfold num_eqb, SFeqb. destruct x as [[]|[]| |[] m e], y as [[]|[]| |[] m' e']; cbn [SFcompare]; intros H;
    try discriminate; auto; left; revert H.
  all: destruct (Z.compare_spec e e') as [->|?|?]; try done.
  all: rewrite Pos.compare_cont_spec; destruct (Pos.compare_spec m m') as [->|?|?]; done.
Qed.
