(* ===== verification/NumRound.v ===== *)
(** * Rounding errors of numbers

    [JSNumber] computes with the executable specification of IEEE 754 doubles.
    This file says how far a product and a quotient are from the exact value:
    by at most one part in 2^53, as long as the result is neither tiny nor
    huge.  Exact values are real numbers; a result of the specification is a
    mantissa and an exponent, and what was cut off is recorded by a location
    (nothing, less than, exactly or more than a half). *)
From S2P Require Import Prelude JSNumber.
From Stdlib Require Import Reals Lra.
Local Open Scope R_scope.

(** ** Powers of two *)

Definition bpow (e : Z) : R := powerRZ 2 e.

Lemma bpow_pos e : 0 < bpow e.
Proof. apply powerRZ_lt. lra. Qed.

Lemma bpow_add a b : bpow (a + b) = bpow a * bpow b.
Proof. apply powerRZ_add. lra. Qed.

Lemma bpow_0 : bpow 0 = 1.
Proof. done. Qed.

Lemma bpow_IZR e : (0 ≤ e)%Z → bpow e = IZR (2 ^ e).
Proof.
  intros He. destruct e as [|p|p]; [done| |lia]. unfold bpow, powerRZ.
  rewrite <- (positive_nat_Z p). rewrite <- pow_IZR. done.
Qed.

Lemma bpow_opp e : bpow e * bpow (- e) = 1.
Proof. rewrite <- bpow_add. by replace (e + - e)%Z with 0%Z by lia. Qed.

Lemma bpow_le a b : (a ≤ b)%Z → bpow a <= bpow b.
Proof.
  intros H. replace b with (a + (b - a))%Z by lia. rewrite bpow_add, (bpow_IZR (b - a)) by lia.
  rewrite <- (Rmult_1_r (bpow a)) at 1. apply Rmult_le_compat_l; [left; apply bpow_pos|].
  apply IZR_le. assert (0 < 2 ^ (b - a))%Z by (apply Z.pow_pos_nonneg; lia). lia.
Qed.

Lemma bpow_lt_inv a b : bpow a < bpow b → (a < b)%Z.
Proof. intros H. destruct (Z.lt_ge_cases a b) as [|Hge]; [done|]. apply bpow_le in Hge. lra. Qed.

Lemma bpow_1 : bpow 1 = 2.
Proof. unfold bpow. simpl. lra. Qed.

(** ** The number of digits *)

Lemma digits_bound p : (2 ^ (Zpos (digits2_pos p) - 1) <= Zpos p < 2 ^ Zpos (digits2_pos p))%Z.
Proof.
  induction p as [p IH|p IH|]; cbn [digits2_pos]; [| |done].
  all: rewrite Pos2Z.inj_succ, Z.pow_succ_r by lia;
    replace (Z.succ (Zpos (digits2_pos p)) - 1)%Z with (Z.succ (Zpos (digits2_pos p) - 1)) by lia;
    rewrite Z.pow_succ_r by lia; lia.
Qed.

Lemma digits_bpow p :
  bpow (Zpos (digits2_pos p) - 1) <= IZR (Zpos p) < bpow (Zpos (digits2_pos p)).
Proof.
  pose proof (digits_bound p) as [H1 H2]. rewrite !bpow_IZR by lia.
  split; [by apply IZR_le|by apply IZR_lt].
Qed.

Lemma digits_ge p n : (0 ≤ n)%Z → bpow n <= IZR (Zpos p) → (n < Zpos (digits2_pos p))%Z.
Proof. intros Hn H. pose proof (digits_bpow p). apply bpow_lt_inv. lra. Qed.

(** ** Locations *)

(** [x] lies where the location says, seen from the integer [m]. *)
Definition loc_ok (m : Z) (x : R) (l : location) : Prop :=
  match l with
  | loc_Exact => x = IZR m
  | loc_Inexact Lt => IZR m < x < IZR m + / 2
  | loc_Inexact Eq => x = IZR m + / 2
  | loc_Inexact Gt => IZR m + / 2 < x < IZR m + 1
  end.

Definition rec_ok (mrs : shr_record) (x : R) : Prop :=
  (0 ≤ shr_m mrs)%Z ∧ loc_ok (shr_m mrs) x (loc_of_shr_record mrs).

Lemma rec_of_loc m l x : (0 ≤ m)%Z → loc_ok m x l → rec_ok (shr_record_of_loc m l) x.
Proof. intros Hm H. by destruct l as [|[]]. Qed.

Lemma shr_1_ok mrs x : rec_ok mrs x → rec_ok (shr_1 mrs) (x / 2).
Proof.
  destruct mrs as [m r s]. intros [Hm H]. cbn [shr_m] in *. unfold rec_ok.
  destruct m as [|[p|p|]|p]; [| | | |lia]; destruct r, s; cbn in H |- *;
    rewrite ?(Pos2Z.inj_xI p), ?(Pos2Z.inj_xO p), ?plus_IZR, ?mult_IZR in H; (split; [lia|lra]).
Qed.

Lemma iter_shr_ok n mrs x : rec_ok mrs x → rec_ok (SpecFloat.iter_pos shr_1 n mrs) (x / bpow (Zpos n)).
Proof.
  revert mrs x. induction n as [n IH|n IH|]; intros mrs x H; cbn [SpecFloat.iter_pos].
  - apply shr_1_ok, IH, IH in H. rewrite Pos2Z.inj_xI.
    replace (2 * Zpos n + 1)%Z with (1 + (Zpos n + Zpos n))%Z by lia. rewrite !bpow_add, bpow_1.
    pose proof (bpow_pos (Zpos n)).
    replace (x / (2 * (bpow (Zpos n) * bpow (Zpos n)))) with (x / 2 / bpow (Zpos n) / bpow (Zpos n)) by (field; lra).
    done.
  - apply IH, IH in H. rewrite Pos2Z.inj_xO. replace (2 * Zpos n)%Z with (Zpos n + Zpos n)%Z by lia.
    rewrite bpow_add. pose proof (bpow_pos (Zpos n)).
    replace (x / (bpow (Zpos n) * bpow (Zpos n))) with (x / bpow (Zpos n) / bpow (Zpos n)) by (field; lra).
    done.
  - rewrite bpow_1. by apply shr_1_ok.
Qed.

(** Shifting right keeps the value. *)
Lemma shr_ok mrs e n x mrs' e' :
  rec_ok mrs x → shr mrs e n = (mrs', e') →
  e' = (e + Z.max 0 n)%Z ∧ ∃ x', rec_ok mrs' x' ∧ x' * bpow e' = x * bpow e.
Proof.
  intros H. destruct n as [|p|p]; cbn [shr]; intros [= <- <-].
  - split; [lia|]. by exists x.
  - split; [lia|]. exists (x / bpow (Zpos p)). split; [by apply iter_shr_ok|].
    pose proof (bpow_pos (Zpos p)). rewrite bpow_add. field. lra.
  - split; [lia|]. by exists x.
Qed.

Lemma rne_close m x l : loc_ok m x l → Rabs (IZR (round_nearest_even m l) - x) <= / 2.
Proof.
  intros H. destruct l as [|[]]; cbn in *; [subst x| |destruct H|destruct H];
    rewrite ?plus_IZR; try (apply Rabs_le; lra).
  destruct (Z.even m); rewrite ?plus_IZR; apply Rabs_le; lra.
Qed.

Lemma rne_bound m l : (m ≤ round_nearest_even m l ≤ m + 1)%Z.
Proof. destruct l as [|[]]; cbn; try lia. destruct (Z.even m); lia. Qed.

(** ** Rounding to a double *)

(** The part of the reals where a double is never subnormal or infinite. *)
Definition normal_range (v : R) : Prop := bpow (-1021) <= v < bpow 970.

(** A double as a real number; the values that are no positive doubles do not
    matter here. *)
Definition val (x : spec_float) : R :=
  match x with S754_finite false m e => IZR (Zpos m) * bpow e | _ => 0 end.

Lemma fexp_53 d : fexp prec emax d = Z.max (d - 53) (-1074).
Proof. done. Qed.

Lemma shr_fexp_ok p e l x mrs' e' :
  loc_ok (Zpos p) x l → shr_fexp prec emax (Zpos p) e l = (mrs', e') →
  e' = Z.max e (fexp prec emax (Zpos (digits2_pos p) + e)) ∧
  ∃ x', rec_ok mrs' x' ∧ x' * bpow e' = x * bpow e.
Proof.
  intros H. unfold shr_fexp. cbn [Zdigits2]. intros E.
  apply (shr_ok _ _ _ x) in E as [-> Hx]; [|by apply rec_of_loc].
  split; [lia|exact Hx].
Qed.

(** What is already short enough is left alone. *)
Lemma shr_fexp_id p e :
  (fexp prec emax (Zpos (digits2_pos p) + e) <= e)%Z →
  shr_fexp prec emax (Zpos p) e loc_Exact = (Build_shr_record (Zpos p) false false, e).
Proof.
  intros H. unfold shr_fexp. cbn [Zdigits2 shr_record_of_loc].
  assert (fexp prec emax (Zpos (digits2_pos p) + e) - e <= 0)%Z as Hn by lia.
  by destruct (fexp prec emax (Zpos (digits2_pos p) + e) - e)%Z.
Qed.

(** A mantissa of at most 53 bits, or 2^53 itself, is not changed in value. *)
Lemma shr_fexp_exact p e mrs e' :
  (-1074 <= e)%Z → (Zpos p <= 2 ^ 53)%Z → shr_fexp prec emax (Zpos p) e loc_Exact = (mrs, e') →
  ∃ m, shr_m mrs = Zpos m ∧ IZR (Zpos m) * bpow e' = IZR (Zpos p) * bpow e ∧ (e' <= e + 1)%Z.
Proof.
  intros He Hp E. destruct (Z.eq_dec (Zpos p) (2 ^ 53)) as [Ep|Ep].
  - assert (p = Pos.pow 2 53) as -> by (apply Pos2Z.inj; by rewrite Ep). unfold shr_fexp in E. cbn [Zdigits2] in E. rewrite fexp_53 in E.
    replace (Z.max (Zpos (digits2_pos (Pos.pow 2 53)) + e - 53) (-1074) - e)%Z with 1%Z in E
      by (change (Zpos (digits2_pos (Pos.pow 2 53))) with 54%Z; lia).
    injection E as <- <-. exists (Pos.pow 2 52). split; [done|]. split; [|lia].
    rewrite bpow_add, bpow_1. change (Pos.pow 2 53) with (2 * Pos.pow 2 52)%positive.
    rewrite Pos2Z.inj_mul, mult_IZR. lra.
  - rewrite shr_fexp_id in E.
    + injection E as <- <-. exists p. split; [done|]. split; [done|lia].
    + rewrite fexp_53. pose proof (digits_bound p) as [H _].
      assert (Zpos (digits2_pos p) - 1 < 53)%Z; [|lia].
      apply (Z.pow_lt_mono_r_iff 2); lia.
Qed.

(** A number that is short enough is not rounded. *)
Lemma round_aux_exact s p e :
  (fexp prec emax (Zpos (digits2_pos p) + e) <= e)%Z → (e <= 971)%Z →
  binary_round_aux prec emax s (Zpos p) e loc_Exact = S754_finite s p e.
Proof.
  intros H He. unfold binary_round_aux. rewrite shr_fexp_id by done. cbn [shr_m loc_of_shr_record round_nearest_even].
  rewrite shr_fexp_id by done. cbn [shr_m]. by rewrite (proj2 (Z.leb_le e (emax - prec)) He).
Qed.

(** From a located mantissa of 53 bits to the double. *)
Lemma round_aux_finish s mrs e x :
  rec_ok mrs x → (-1074 <= e <= 970)%Z → 1 <= x < bpow 53 →
  ∃ m e', (let '(mrs'', e'') := shr_fexp prec emax (round_nearest_even (shr_m mrs) (loc_of_shr_record mrs)) e loc_Exact in
      match shr_m mrs'' with
      | Z0 => S754_zero s
      | Zpos m => if (e'' <=? emax - prec)%Z then S754_finite s m e'' else S754_infinity s
      | _ => S754_nan
      end) = S754_finite s m e' ∧
    Rabs (IZR (Zpos m) * bpow e' - x * bpow e) <= / 2 * bpow e.
Proof.
  intros [Hm Hl] He [Hx1 Hx2]. pose proof (rne_close _ _ _ Hl) as Hc.
  pose proof (rne_bound (shr_m mrs) (loc_of_shr_record mrs)) as Hb.
  assert (IZR (shr_m mrs) <= x) as Hmx.
  { destruct (loc_of_shr_record mrs) as [|[]]; cbn in Hl; [subst x| |destruct Hl|destruct Hl]; lra. }
  set (r := round_nearest_even _ _) in *. assert (0 < r)%Z as Hr.
  { apply lt_IZR. pose proof (Rle_abs (x - IZR r)) as Ha. rewrite Rabs_minus_sym in Ha. lra. }
  assert (shr_m mrs < 2 ^ 53)%Z as Hm53.
  { apply lt_IZR. rewrite <- bpow_IZR by lia. lra. }
  destruct r as [|q|q] eqn:Er; [lia| |lia].
  destruct (shr_fexp prec emax (Zpos q) e loc_Exact) as [mrs2 e2] eqn:E2.
  apply shr_fexp_exact in E2 as (m & -> & Hv & He2); [|lia|lia].
  rewrite (proj2 (Z.leb_le e2 (emax - prec))) by (unfold emax, prec; lia).
  exists m, e2. split; [done|]. rewrite Hv.
  replace (IZR (Zpos q) * bpow e - x * bpow e) with ((IZR (Zpos q) - x) * bpow e) by lra.
  pose proof (bpow_pos e). rewrite Rabs_mult, (Rabs_pos_eq (bpow e)) by lra.
  apply Rmult_le_compat_r; lra.
Qed.

(** The result of rounding a located positive number. *)
Lemma round_aux_rel s p e l x :
  loc_ok (Zpos p) x l → normal_range (x * bpow e) → (53 <= Zpos (digits2_pos p))%Z →
  ∃ m e', binary_round_aux prec emax s (Zpos p) e l = S754_finite s m e' ∧
    Rabs (IZR (Zpos m) * bpow e' - x * bpow e) <= x * bpow e * bpow (-53).
Proof.
  intros Hl [Hlo Hhi] Hd. set (d := Zpos (digits2_pos p)) in *.
  assert (IZR (Zpos p) <= x < IZR (Zpos p) + 1) as Hx.
  { destruct l as [|[]]; cbn in Hl; [subst x| |destruct Hl|destruct Hl]; lra. }
  pose proof (digits_bpow p) as [Hp1 Hp2]. fold d in Hp1, Hp2. pose proof (bpow_pos e) as He.
  assert (x < bpow d) as Hxd.
  { rewrite bpow_IZR in Hp2 |- * by lia. apply lt_IZR in Hp2.
    assert (IZR (Zpos p) + 1 <= IZR (2 ^ d)) as H1 by (rewrite <- plus_IZR; apply IZR_le; lia). lra. }
  assert (-1021 < d + e)%Z as H1.
  { apply bpow_lt_inv. rewrite bpow_add. apply Rle_lt_trans with (x * bpow e); [done|].
    by apply Rmult_lt_compat_r. }
  assert (bpow (d - 1 + e) <= x * bpow e) as Hlow.
  { rewrite bpow_add. apply Rmult_le_compat_r; lra. }
  assert (d - 1 + e < 970)%Z as H2 by (apply bpow_lt_inv; lra).
  unfold binary_round_aux. destruct (shr_fexp prec emax (Zpos p) e l) as [mrs e'] eqn:E1.
  pose proof (shr_fexp_ok p e l x mrs e' Hl E1) as [He' (x' & Hr & Hv)]. fold d in He'.
  rewrite fexp_53 in He'. assert (e' = d + e - 53)%Z as -> by lia.
  assert (bpow (d - 1 + e) = bpow 52 * bpow (d + e - 53)) as Hs1
    by (rewrite <- bpow_add; f_equal; lia).
  assert (bpow d * bpow e = bpow 53 * bpow (d + e - 53)) as Hs2
    by (rewrite <- !bpow_add; f_equal; lia).
  pose proof (bpow_pos (d + e - 53)) as Hp. assert (1 <= bpow 52) as H52 by (rewrite <- bpow_0; apply bpow_le; lia).
  destruct (round_aux_finish s mrs (d + e - 53) x' Hr) as (m & e2 & -> & Herr); [lia|split|].
  - apply Rmult_le_reg_r with (bpow (d + e - 53)); [done|]. rewrite Hv. nra.
  - apply Rmult_lt_reg_r with (bpow (d + e - 53)); [done|]. rewrite Hv, <- Hs2. by apply Rmult_lt_compat_r.
  - exists m, e2. split; [done|]. rewrite <- Hv at 1. eapply Rle_trans; [exact Herr|].
    assert (bpow 52 * bpow (-53) = / 2) as Hh.
    { rewrite <- bpow_add. change (52 + -53)%Z with (-(1))%Z. pose proof (bpow_opp 1) as Ho. rewrite bpow_1 in Ho. lra. }
    pose proof (bpow_pos (-53)). rewrite <- Hh. rewrite Hs1 in Hlow. nra.
Qed.

Lemma val_exponent m e k : val (S754_finite false m e) < bpow k → (e < k)%Z.
Proof.
  intros H. apply bpow_lt_inv. cbn [val] in H. pose proof (bpow_pos e).
  assert (1 <= IZR (Zpos m)) by (apply IZR_le; lia). nra.
Qed.

(** Short or not, the rounded result is close. *)
Lemma round_aux_close p e l x :
  loc_ok (Zpos p) x l → normal_range (x * bpow e) → (l = loc_Exact ∨ (53 <= Zpos (digits2_pos p))%Z) →
  ∃ m e', binary_round_aux prec emax false (Zpos p) e l = S754_finite false m e' ∧
    Rabs (val (S754_finite false m e') - x * bpow e) <= x * bpow e * bpow (-53).
Proof.
  intros Hl Hv Hd. destruct (Z.le_gt_cases 53 (Zpos (digits2_pos p))) as [Hge|Hlt].
  { by apply (round_aux_rel false). }
  destruct Hd as [->|Hd]; [|lia]. cbn in Hl. subst x. pose proof (digits_bpow p) as [Hp1 Hp2].
  pose proof (bpow_pos e) as He. destruct Hv as [Hlo Hhi].
  assert (e < 970)%Z by by apply (val_exponent p).
  assert (-1021 < Zpos (digits2_pos p) + e)%Z.
  { apply bpow_lt_inv. rewrite bpow_add. eapply Rle_lt_trans; [exact Hlo|]. by apply Rmult_lt_compat_r. }
  exists p, e. split; [apply round_aux_exact; [rewrite fexp_53|]; lia|]. cbn [val].
  replace (_ - _) with 0 by lra. rewrite Rabs_R0. pose proof (bpow_pos (-53)). pose proof (bpow_pos (-1021)). nra.
Qed.

(** ** Products and quotients *)

Definition positive_num (x : spec_float) : Prop := ∃ m e, x = S754_finite false m e.

Lemma val_pos x : positive_num x → 0 < val x.
Proof. intros (m & e & ->). cbn [val]. apply Rmult_lt_0_compat; [apply IZR_lt; lia|apply bpow_pos]. Qed.

Lemma mul_close x y :
  positive_num x → positive_num y → normal_range (val x * val y) →
  positive_num (num_mul x y) ∧ Rabs (val (num_mul x y) - val x * val y) <= val x * val y * bpow (-53).
Proof.
  intros (mx & ex & ->) (my & ey & ->) Hv. unfold num_mul. cbn [SFmul xorb].
  assert (IZR (Zpos (mx * my)) * bpow (ex + ey) = val (S754_finite false mx ex) * val (S754_finite false my ey)) as E.
  { cbn [val]. rewrite Pos2Z.inj_mul, mult_IZR, bpow_add. lra. }
  rewrite <- E in Hv |- *.
  destruct (round_aux_close (mx * my) (ex + ey) loc_Exact (IZR (Zpos (mx * my)))) as (m & e & -> & H);
    [done|done|by left|]. split; [by eexists _, _|done].
Qed.

Lemma new_location_eq n r :
  new_location n r =
  if (r =? 0)%Z then loc_Exact else
  loc_Inexact (if Z.even n then (2 * r ?= n)%Z
               else match (2 * r + 1 ?= n)%Z with Gt => Gt | _ => Lt end).
Proof.
  unfold new_location. change (IntDef.Z.even n) with (Z.even n). destruct (Z.even n); reflexivity.
Qed.

Lemma new_location_ok n q r x :
  (0 < n)%Z → (0 <= r < n)%Z → (x - IZR q) * IZR n = IZR r → loc_ok q x (new_location n r).
Proof.
  intros Hn Hr Hf. assert (0 < IZR n) as Hn' by (apply IZR_lt; lia).
  remember (x - IZR q) as f eqn:Ef. assert (x = IZR q + f) as -> by lra. clear Ef.
  assert (IZR r < IZR n) as H1 by (apply IZR_lt; lia). assert (f < 1) as Hf1 by nra.
  destruct (Z.eq_dec r 0) as [->|Hr0].
  { assert (f = 0) as -> by (apply (Rmult_eq_reg_r (IZR n)); lra). unfold new_location, new_location_even, new_location_odd. cbn [Z.eqb].
    destruct (Z.even n); cbn; lra. }
  assert (0 < IZR r) as H0 by (apply IZR_lt; lia). assert (0 < f) as Hf0 by nra.
  assert ((2 * r < n)%Z → f < / 2) as Hlt.
  { intros H%IZR_lt. rewrite mult_IZR in H. nra. }
  assert ((n < 2 * r)%Z → / 2 < f) as Hgt.
  { intros H%IZR_lt. rewrite mult_IZR in H. nra. }
  rewrite new_location_eq, (proj2 (Z.eqb_neq r 0) Hr0).
  destruct (Z.even n) eqn:Ee; cbn [loc_ok].
  - destruct (Z.compare_spec (2 * r) n) as [E|E|E].
    + assert (2 * IZR r = IZR n) by (rewrite <- mult_IZR; by f_equal).
      assert (f = / 2) by (apply (Rmult_eq_reg_r (IZR n)); lra). lra.
    + specialize (Hlt E). lra.
    + specialize (Hgt E). lra.
  - assert (2 * r ≠ n)%Z as Ho. { intros <-. by rewrite Z.even_mul in Ee. }
    destruct (Z.compare_spec (2 * r + 1) n) as [E|E|E].
    + assert (2 * r < n)%Z as H by lia. specialize (Hlt H). lra.
    + assert (2 * r < n)%Z as H by lia. specialize (Hlt H). lra.
    + assert (n < 2 * r)%Z as H by lia. specialize (Hgt H). lra.
Qed.

(** The quotient before rounding, in ordinary integers. *)
Lemma div_core_eq mx ex my ey e' s :
  e' = Z.min (fexp prec emax (Zpos (digits2_pos mx) + ex - (Zpos (digits2_pos my) + ey))) (ex - ey) →
  s = (ex - ey - e')%Z →
  SFdiv_core_binary prec emax (Zpos mx) ex (Zpos my) ey =
  (Zpos mx * 2 ^ s / Zpos my, e', new_location (Zpos my) (Zpos mx * 2 ^ s mod Zpos my))%Z.
Proof.
  intros He Hs. assert (0 <= s)%Z as Hs0 by lia. unfold SFdiv_core_binary. cbn [Zdigits2].
  change (IntDef.Z.min (fexp prec emax (IntDef.Z.sub (IntDef.Z.add (Zpos (digits2_pos mx)) ex)
    (IntDef.Z.add (Zpos (digits2_pos my)) ey))) (IntDef.Z.sub ex ey)) with
    (Z.min (fexp prec emax (Zpos (digits2_pos mx) + ex - (Zpos (digits2_pos my) + ey))) (ex - ey)).
  rewrite <- He. change (IntDef.Z.sub (IntDef.Z.sub ex ey) e') with (ex - ey - e')%Z. rewrite <- Hs.
  assert (match s with Zpos _ => IntDef.Z.shiftl (Zpos mx) s | Z0 => Zpos mx | Zneg _ => Z0 end = Zpos mx * 2 ^ s)%Z as ->.
  { destruct s as [|p|p]; [by rewrite Z.mul_1_r| |lia]. change (IntDef.Z.shiftl (Zpos mx) (Zpos p)) with (Z.shiftl (Zpos mx) (Zpos p)).
    by rewrite Z.shiftl_mul_pow2 by lia. }
  change (IntDef.Z.div_eucl (Zpos mx * 2 ^ s) (Zpos my)) with (Z.div_eucl (Zpos mx * 2 ^ s) (Zpos my)).
  unfold Z.div, Z.modulo. by destruct (Z.div_eucl (Zpos mx * 2 ^ s) (Zpos my)).
Qed.

(** It has at least 53 bits. *)
Lemma div_core_digits mx ex my ey e' s :
  let v := val (S754_finite false mx ex) / val (S754_finite false my ey) in
  e' = Z.min (fexp prec emax (Zpos (digits2_pos mx) + ex - (Zpos (digits2_pos my) + ey))) (ex - ey) →
  s = (ex - ey - e')%Z → normal_range v →
  v * IZR (Zpos my) = IZR (Zpos mx * 2 ^ s) * bpow e' ∧ (2 ^ 52 <= Zpos mx * 2 ^ s / Zpos my)%Z.
Proof.
  intros v He Hs [Hlo _]. set (dx := Zpos (digits2_pos mx)) in *. set (dy := Zpos (digits2_pos my)) in *.
  pose proof (digits_bpow mx) as [Hx1 Hx2]. pose proof (digits_bpow my) as [Hy1 Hy2]. fold dx in Hx1, Hx2. fold dy in Hy1, Hy2.
  pose proof (bpow_pos ex) as Hex. pose proof (bpow_pos ey) as Hey. pose proof (bpow_pos e') as He0.
  assert (0 < IZR (Zpos mx)) as Hmx by (apply IZR_lt; lia). assert (0 < IZR (Zpos my)) as Hmy by (apply IZR_lt; lia).
  assert (v * IZR (Zpos my) * bpow ey = IZR (Zpos mx) * bpow ex) as Hv by (unfold v; cbn [val]; field; lra).
  assert (v * IZR (Zpos my) = IZR (Zpos mx * 2 ^ s) * bpow e') as Hve.
  { apply (Rmult_eq_reg_r (bpow ey)); [|lra]. rewrite Hv, mult_IZR, <- bpow_IZR by lia.
    replace ex with (s + e' + ey)%Z by lia. rewrite !bpow_add. lra. }
  split; [done|]. rewrite fexp_53 in He.
  assert (-1021 < dx + ex - (dy - 1 + ey))%Z as Ht.
  { apply bpow_lt_inv. eapply Rle_lt_trans; [exact Hlo|].
    apply (Rmult_lt_reg_r (bpow (dy - 1 + ey))); [apply bpow_pos|]. rewrite <- bpow_add.
    replace (dx + ex - (dy - 1 + ey) + (dy - 1 + ey))%Z with (dx + ex)%Z by lia. rewrite !bpow_add.
    assert (0 < v) by (pose proof (bpow_pos (-1021)); lra). rewrite <- Rmult_assoc.
    apply Rle_lt_trans with (v * IZR (Zpos my) * bpow ey); [|rewrite Hv; by apply Rmult_lt_compat_r].
    apply Rmult_le_compat_r; [lra|]. apply Rmult_le_compat_l; lra. }
  apply Z.div_le_lower_bound; [lia|]. apply le_IZR. rewrite mult_IZR, <- (bpow_IZR 52) by lia.
  apply (Rmult_le_reg_r (bpow e')); [done|]. rewrite <- Hve.
  assert (bpow 52 * bpow e' <= v) as Hb.
  { rewrite <- bpow_add. apply Rle_trans with (bpow (dx - 1 + ex - (dy + ey))); [apply bpow_le; lia|].
    apply (Rmult_le_reg_r (bpow (dy + ey))); [apply bpow_pos|]. rewrite <- bpow_add.
    replace (dx - 1 + ex - (dy + ey) + (dy + ey))%Z with (dx - 1 + ex)%Z by lia. rewrite !bpow_add.
    apply Rle_trans with (v * IZR (Zpos my) * bpow ey); [rewrite Hv; apply Rmult_le_compat_r; lra|].
    rewrite <- Rmult_assoc. apply Rmult_le_compat_r; [lra|].
    assert (0 < v) by (pose proof (bpow_pos (-1021)); lra). apply Rmult_le_compat_l; lra. }
  rewrite Rmult_assoc, (Rmult_comm (IZR (Zpos my))). apply Rmult_le_compat_r; lra.
Qed.

Lemma div_close x y :
  positive_num x → positive_num y → normal_range (val x / val y) →
  positive_num (num_div x y) ∧ Rabs (val (num_div x y) - val x / val y) <= val x / val y * bpow (-53).
Proof.
  intros (mx & ex & ->) (my & ey & ->) Hv. unfold num_div. cbn [SFdiv xorb].
  set (e' := Z.min (fexp prec emax (Zpos (digits2_pos mx) + ex - (Zpos (digits2_pos my) + ey))) (ex - ey)).
  set (s := (ex - ey - e')%Z). rewrite (div_core_eq mx ex my ey e' s eq_refl eq_refl).
  destruct (div_core_digits mx ex my ey e' s eq_refl eq_refl Hv) as [Hve Hq].
  set (a := (Zpos mx * 2 ^ s)%Z) in *. set (v := val _ / val _) in *.
  pose proof (bpow_pos e') as He0. assert (0 < IZR (Zpos my)) as Hmy by (apply IZR_lt; lia).
  destruct (a / Zpos my)%Z as [|q|q] eqn:Eq; [lia| |lia].
  destruct (round_aux_close q e' (new_location (Zpos my) (a mod Zpos my)) (v / bpow e')) as (m & e & -> & H).
  - apply new_location_ok; [lia|apply Z.mod_pos_bound; lia|].
    pose proof (Z.div_mod a (Zpos my) ltac:(lia)) as Hd. rewrite Eq in Hd.
    apply (f_equal IZR) in Hd. rewrite plus_IZR, mult_IZR in Hd.
    assert (v / bpow e' * IZR (Zpos my) = IZR a) as E; [|lra].
    apply (Rmult_eq_reg_r (bpow e')); [|lra]. rewrite <- Hve. field. lra.
  - replace (v / bpow e' * bpow e') with v by (field; lra). done.
  - right. assert (52 < Zpos (digits2_pos q))%Z; [|lia]. apply digits_ge; [lia|].
    rewrite bpow_IZR by lia. by apply IZR_le.
  - split; [by eexists _, _|]. replace (v / bpow e' * bpow e') with v in H by (field; lra). exact H.
Qed.

(** ** Integers as doubles *)

Lemma iter_xO p k :
  Zpos (Pos.iter xO p k) = (Zpos p * 2 ^ Zpos k)%Z ∧
  Zpos (digits2_pos (Pos.iter xO p k)) = (Zpos (digits2_pos p) + Zpos k)%Z.
Proof.
  induction k as [|k [IH1 IH2]] using Pos.peano_ind.
  - cbn [Pos.iter digits2_pos]. split; lia.
  - rewrite Pos.iter_succ. cbn [digits2_pos]. split.
    + rewrite Pos2Z.inj_xO, IH1, Pos2Z.inj_succ, Z.pow_succ_r by lia. lia.
    + rewrite !Pos2Z.inj_succ, IH2. lia.
Qed.

Lemma digits_le p : (Zpos p < 2 ^ 53)%Z → (Zpos (digits2_pos p) <= 53)%Z.
Proof.
  intros Hp. pose proof (digits_bound p) as [H _].
  assert (Zpos (digits2_pos p) - 1 < 53)%Z; [|lia]. apply (Z.pow_lt_mono_r_iff 2); lia.
Qed.

Lemma num_of_pos p : (Zpos p < 2 ^ 53)%Z →
  ∃ m e, num_of_Z (Zpos p) = S754_finite false m e ∧ IZR (Zpos m) * bpow e = IZR (Zpos p) ∧ (-53 <= e <= 0)%Z.
Proof.
  intros Hp%digits_le. set (d := Zpos (digits2_pos p)) in *. assert (1 <= d)%Z by (unfold d; lia).
  change (num_of_Z (Zpos p)) with (binary_round prec emax false p 0). unfold binary_round.
  change (fexp prec emax (IntDef.Z.add (Zpos (digits2_pos p)) 0)) with (Z.max (d + 0 - 53) (-1074)).
  replace (Z.max (d + 0 - 53) (-1074)) with (d - 53)%Z by lia. unfold shl_align.
  change (IntDef.Z.sub (d - 53) 0) with (d - 53 - 0)%Z. rewrite Z.sub_0_r.
  destruct (d - 53)%Z as [|k|k] eqn:Ek; [|lia|].
  - exists p, 0%Z. rewrite round_aux_exact; [|rewrite fexp_53; fold d; lia|lia].
    split; [done|]. split; [rewrite bpow_0; lra|lia].
  - destruct (iter_xO p k) as [H1 H2]. exists (Pos.iter xO p k), (Zneg k). fold d in H2.
    rewrite round_aux_exact; [|rewrite fexp_53, H2; lia|lia]. split; [done|]. split; [|lia].
    rewrite H1, mult_IZR, <- bpow_IZR by lia. rewrite Rmult_assoc, <- bpow_add.
    replace (Zpos k + Zneg k)%Z with 0%Z by lia. rewrite bpow_0. lra.
Qed.

(** What is within a half of an integer is rounded to it. *)
Lemma round_near x n :
  positive_num x → (0 < n)%Z → Rabs (val x - IZR n) < / 2 → num_round x = num_of_Z n.
Proof.
  intros (m & e & ->) Hn H. cbn [val] in H. apply Rabs_def2 in H as [H1 H2]. unfold num_round.
  assert ((if (0 <=? e)%Z then (Zpos m * 2 ^ e)%Z else ((2 * Zpos m + 2 ^ (- e)) / (2 * 2 ^ (- e)))%Z) = n) as ->;
    [|by rewrite (proj2 (Z.eqb_neq n 0)) by lia].
  destruct (Z.leb_spec 0 e) as [He|He].
  - rewrite bpow_IZR, <- mult_IZR in H1, H2 by done.
    assert (Zpos m * 2 ^ e < n + 1)%Z by (apply lt_IZR; rewrite plus_IZR; lra).
    assert (n - 1 < Zpos m * 2 ^ e)%Z by (apply lt_IZR; rewrite minus_IZR; lra). lia.
  - set (d := (2 ^ (- e))%Z). assert (0 < d)%Z as Hd by (apply Z.pow_pos_nonneg; lia).
    assert (bpow e * IZR d = 1) as Hb by (unfold d; rewrite <- bpow_IZR by lia; apply bpow_opp).
    assert (0 < IZR d) as Hd' by (apply IZR_lt; lia).
    assert (IZR (Zpos m) = IZR (Zpos m) * bpow e * IZR d) as Em by (rewrite Rmult_assoc, Hb; lra).
    set (v := IZR (Zpos m) * bpow e) in *.
    assert (2 * IZR n * IZR d <= 2 * IZR (Zpos m) + IZR d) as Hlo by (rewrite Em; nra).
    assert (2 * IZR (Zpos m) + IZR d < 2 * IZR n * IZR d + 2 * IZR d) as Hhi by (rewrite Em; nra).
    rewrite <- !mult_IZR, <- !plus_IZR in Hlo, Hhi. rewrite <- mult_IZR, <- !plus_IZR in Hhi.
    apply le_IZR in Hlo. apply lt_IZR in Hhi.
    symmetry. apply (Z.div_unique _ _ _ (2 * Zpos m + d - 2 * n * d)); lia.
Qed.

(** ** Several operations in a row *)

Definition ulp : R := bpow (-53).

(** [x] is [v], up to [k] roundings. *)
Definition near (k : nat) (x : spec_float) (v : R) : Prop :=
  positive_num x ∧ v * (1 - ulp) ^ k <= val x <= v * (1 + ulp) ^ k.

Lemma ulp_small : 0 < ulp < / 1024.
Proof.
  split; [apply bpow_pos|]. unfold ulp. replace (/ 1024) with (bpow (-10)).
  - apply Rlt_le_trans with (2 * bpow (-53)); [pose proof (bpow_pos (-53)); lra|].
    rewrite <- bpow_1, <- bpow_add. apply bpow_le. lia.
  - unfold bpow. simpl. lra.
Qed.

Lemma ulp_powers k : (k <= 8)%nat → / 2 <= (1 - ulp) ^ k ∧ (1 + ulp) ^ k <= 2.
Proof.
  intros Hk. pose proof ulp_small as [H1 H2]. split.
  - assert ((1 - / 1024) ^ k <= (1 - ulp) ^ k) as H by (apply pow_incr; lra).
    do 9 (destruct k as [|k]; [simpl in *; lra|]). lia.
  - assert ((1 + ulp) ^ k <= (1 + / 1024) ^ k) as H by (apply pow_incr; lra).
    do 9 (destruct k as [|k]; [simpl in *; lra|]). lia.
Qed.

Lemma near_exact x : positive_num x → near 0 x (val x).
Proof. intros H. split; [done|]. simpl. lra. Qed.

(** Exact values far from the ends of the range. *)
Definition moderate (v : R) : Prop := bpow (-1000) <= v <= bpow 900.

Lemma moderate_range v w k :
  moderate v → (k <= 8)%nat → v * (1 - ulp) ^ k <= w <= v * (1 + ulp) ^ k → normal_range w.
Proof.
  intros [Hv1 Hv2] Hk [Hw1 Hw2]. pose proof (ulp_powers k Hk) as [Hp1 Hp2]. pose proof (bpow_pos (-1000)).
  split.
  - apply Rle_trans with (bpow (-1001)); [apply bpow_le; lia|]. replace (bpow (-1001)) with (bpow (-1000) * / 2); [nra|].
    replace (-1000)%Z with (-1001 + 1)%Z by lia. rewrite bpow_add, bpow_1. lra.
  - apply Rle_lt_trans with (bpow 901); [|apply Rlt_le_trans with (bpow 902)].
    + replace (bpow 901) with (bpow 900 * 2); [nra|]. replace 901%Z with (900 + 1)%Z by lia. by rewrite bpow_add, bpow_1.
    + replace 902%Z with (901 + 1)%Z by lia. rewrite bpow_add, bpow_1. pose proof (bpow_pos 901). lra.
    + apply bpow_le. lia.
Qed.

(** One more rounding of a value that is near. *)
Lemma near_step k z v w :
  positive_num z → 0 < v → v * (1 - ulp) ^ k <= w <= v * (1 + ulp) ^ k →
  Rabs (val z - w) <= w * ulp → near (S k) z v.
Proof.
  intros Hz Hv [Hw1 Hw2] He. split; [done|]. pose proof ulp_small as [H1 H2]. pose proof (Rle_abs (val z - w)) as Ha.
  pose proof (Rle_abs (w - val z)) as Hb. rewrite (Rabs_minus_sym w) in Hb.
  assert (0 < v * (1 - ulp) ^ k) as Hp by (apply Rmult_lt_0_compat; [done|apply pow_lt; lra]). simpl. split; nra.
Qed.

Lemma near_mul k x y v : near k x v → positive_num y → (k <= 7)%nat → moderate (v * val y) → 0 < v →
  near (S k) (num_mul x y) (v * val y).
Proof.
  intros [Hx Hv] Hy Hk Hm H0. pose proof (val_pos y Hy) as Hy0.
  assert (v * val y * (1 - ulp) ^ k <= val x * val y <= v * val y * (1 + ulp) ^ k) as Hw by (split; nra).
  destruct (mul_close x y Hx Hy) as [Hp He]; [apply (moderate_range (v * val y) _ k); [done|lia|done]|].
  by apply (near_step k _ _ (val x * val y)); [|apply Rmult_lt_0_compat| |].
Qed.

Lemma near_div k x y v : near k x v → positive_num y → (k <= 7)%nat → moderate (v / val y) → 0 < v →
  near (S k) (num_div x y) (v / val y).
Proof.
  intros [Hx Hv] Hy Hk Hm H0. pose proof (val_pos y Hy) as Hy0. pose proof (Rinv_0_lt_compat _ Hy0) as Hi.
  assert (v / val y * (1 - ulp) ^ k <= val x / val y <= v / val y * (1 + ulp) ^ k) as Hw by (unfold Rdiv; split; nra).
  destruct (div_close x y Hx Hy) as [Hp He]; [apply (moderate_range (v / val y) _ k); [done|lia|done]|].
  by apply (near_step k _ _ (val x / val y)); [|apply Rdiv_lt_0_compat| |].
Qed.
