(* ===== verification/NumInt.v ===== *)
(** * Integers among the numbers

    Sums and differences of integers below 2^53 are exact: what the code does
    with counts, pages and times is the arithmetic of [Z].  The mantissa of an
    integer is shifted to 53 bits by [num_of_Z], and to a common exponent by
    a sum; neither loses a bit. *)
From S2P Require Import Prelude JSNumber NumRound.
From Stdlib Require Import SpecFloat.
Local Open Scope Z_scope.

(** ** Shifted mantissas *)

Definition shl (p : positive) (n : nat) : positive := Nat.iter n xO p.

Lemma shl_shl p a b : shl (shl p a) b = shl p (a + b).
Proof. unfold shl. rewrite (Nat.add_comm a b). symmetry. apply Nat.iter_add. Qed.

Lemma pos_iter_shl p k : Pos.iter xO p k = shl p (Pos.to_nat k).
Proof. apply Pos2Nat.inj_iter. Qed.

Lemma shl_value p n : Zpos (shl p n) = Zpos p * 2 ^ Z.of_nat n.
Proof.
  induction n as [|n IH]; [cbn; lia|]. change (shl p (S n)) with (xO (shl p n)).
  rewrite Pos2Z.inj_xO, IH, Nat2Z.inj_succ, Z.pow_succ_r by lia. lia.
Qed.

Lemma shl_digits p n : Zpos (digits2_pos (shl p n)) = Zpos (digits2_pos p) + Z.of_nat n.
Proof.
  induction n as [|n IH]; [cbn; lia|]. change (shl p (S n)) with (xO (shl p n)). cbn [digits2_pos].
  rewrite Pos2Z.inj_succ, IH. lia.
Qed.

Lemma iter_pos_nat {A} (f : A → A) n x : SpecFloat.iter_pos f n x = Nat.iter (Pos.to_nat n) f x.
Proof.
  revert x. induction n as [n IH|n IH|]; intros x; cbn [SpecFloat.iter_pos]; [| |done].
  - rewrite !IH, Pos2Nat.inj_xI, Nat.iter_succ_r, <- Nat.iter_add. f_equal. lia.
  - rewrite !IH, Pos2Nat.inj_xO, <- Nat.iter_add. f_equal. lia.
Qed.

(** Shifting back what was shifted loses nothing. *)
Lemma shr_shl p k m :
  Nat.iter k shr_1 (Build_shr_record (Zpos (shl p (k + m))) false false) = Build_shr_record (Zpos (shl p m)) false false.
Proof.
  revert p. induction k as [|k IH]; intros p; [done|]. rewrite Nat.iter_succ_r. apply IH.
Qed.

(** ** Rounding is exact *)

Definition width (p : positive) : nat := Pos.to_nat (digits2_pos p).

Lemma width_Z p : Z.of_nat (width p) = Zpos (digits2_pos p).
Proof. apply positive_nat_Z. Qed.

Lemma width_53 p : Zpos p < 2 ^ 53 → (1 <= width p <= 53)%nat.
Proof. intros H%digits_le. pose proof (width_Z p). lia. Qed.

(** The double with the value of [p] shifted by its exponent. *)
Definition of_pos (s : bool) (p : positive) : num := S754_finite s (shl p (53 - width p)) (Z.of_nat (width p) - 53).

Lemma shr_fexp_shl p j :
  (width p <= 53)%nat → (53 - width p <= j)%nat → (j <= 1000)%nat →
  shr_fexp prec emax (Zpos (shl p j)) (- Z.of_nat j) loc_Exact =
  (Build_shr_record (Zpos (shl p (53 - width p))) false false, Z.of_nat (width p) - 53).
Proof.
  intros Hp Hj Hm. unfold shr_fexp. cbn [Zdigits2 shr_record_of_loc]. rewrite fexp_53, shl_digits, <- width_Z.
  replace (Z.max (Z.of_nat (width p) + Z.of_nat j + - Z.of_nat j - 53) (-1074)) with (Z.of_nat (width p) - 53) by lia.
  destruct (Z.of_nat (width p) - 53 - - Z.of_nat j) as [|k|k] eqn:Ek; cbn [shr]; [| |lia].
  - replace (53 - width p)%nat with j by lia. f_equal. lia.
  - rewrite iter_pos_nat. replace j with (Pos.to_nat k + (53 - width p))%nat at 1 by lia. rewrite shr_shl. f_equal. lia.
Qed.

Lemma round_shl s p j :
  Zpos p < 2 ^ 53 → (j <= 1000)%nat → binary_round prec emax s (shl p j) (- Z.of_nat j) = of_pos s p.
Proof.
  intros Hp%width_53 Hj. unfold binary_round. rewrite fexp_53, shl_digits, <- width_Z.
  replace (Z.max (Z.of_nat (width p) + Z.of_nat j + - Z.of_nat j - 53) (-1074)) with (Z.of_nat (width p) - 53) by lia.
  assert (∀ j', (53 - width p <= j')%nat → (j' <= 1000)%nat →
    binary_round_aux prec emax s (Zpos (shl p j')) (- Z.of_nat j') loc_Exact = of_pos s p) as Ha.
  { intros j' H1 H2. unfold binary_round_aux. rewrite shr_fexp_shl by lia. cbn [shr_m loc_of_shr_record round_nearest_even].
    replace (Z.of_nat (width p) - 53) with (- Z.of_nat (53 - width p)) by lia. rewrite shr_fexp_shl by lia. cbn [shr_m].
    assert ((Z.of_nat (width p) - 53 <=? emax - prec) = true) as -> by (apply Z.leb_le; unfold emax, prec; lia). done. }
  unfold shl_align. destruct (Z.of_nat (width p) - 53 - - Z.of_nat j) as [|k|k] eqn:Ek.
  - apply Ha; lia.
  - apply Ha; lia.
  - rewrite pos_iter_shl, shl_shl. replace (Z.of_nat (width p) - 53) with (- Z.of_nat (j + Pos.to_nat k)) by lia.
    apply Ha; lia.
Qed.

(** ** Integers *)

Definition small (z : Z) : Prop := - 2 ^ 53 < z < 2 ^ 53.

Lemma num_of_Z_eq z :
  small z → num_of_Z z = match z with Z0 => num_zero | Zpos p => of_pos false p | Zneg p => of_pos true p end.
Proof.
  intros Hz. unfold num_of_Z, binary_normalize. destruct z as [|p|p]; [done|..]; apply (round_shl _ p 0); unfold small in Hz; lia.
Qed.

(** A shifted integer is rounded to the integer. *)
Lemma normalize_shift z j :
  small z → (j <= 1000)%nat → binary_normalize prec emax (z * 2 ^ Z.of_nat j) (- Z.of_nat j) false = num_of_Z z.
Proof.
  intros Hz Hj. rewrite num_of_Z_eq by done. assert (0 < 2 ^ Z.of_nat j) by (apply Z.pow_pos_nonneg; lia).
  unfold small in Hz. destruct z as [|p|p]; [done|..].
  - rewrite <- shl_value. cbn [binary_normalize]. apply round_shl; lia.
  - change (Zneg p * 2 ^ Z.of_nat j) with (- Zpos p * 2 ^ Z.of_nat j). rewrite Z.mul_opp_l, <- shl_value.
    cbn [binary_normalize Z.opp]. apply round_shl; lia.
Qed.

(** The mantissa of an integer at a smaller exponent. *)
Lemma align_value s p j :
  Zpos p < 2 ^ 53 → (53 - width p <= j)%nat →
  cond_Zopp s (Zpos (fst (shl_align (shl p (53 - width p)) (Z.of_nat (width p) - 53) (- Z.of_nat j)))) =
  cond_Zopp s (Zpos p) * 2 ^ Z.of_nat j.
Proof.
  intros Hp%width_53 Hj.
  assert (fst (shl_align (shl p (53 - width p)) (Z.of_nat (width p) - 53) (- Z.of_nat j)) = shl p j) as ->.
  { unfold shl_align. destruct (- Z.of_nat j - (Z.of_nat (width p) - 53)) as [|k|k] eqn:Ek; cbn [fst]; [|lia|].
    - f_equal. lia.
    - rewrite pos_iter_shl, shl_shl. f_equal. lia. }
  destruct s; cbn [cond_Zopp]; rewrite shl_value; lia.
Qed.

Definition signed (s : bool) (p : positive) : Z := cond_Zopp s (Zpos p).

Lemma add_finite sx px sy py :
  Zpos px < 2 ^ 53 → Zpos py < 2 ^ 53 → small (signed sx px + signed sy py) →
  num_add (of_pos sx px) (of_pos sy py) = num_of_Z (signed sx px + signed sy py).
Proof.
  intros Hx Hy Hs. pose proof (width_53 px Hx). pose proof (width_53 py Hy).
  set (j := Nat.max (53 - width px) (53 - width py)).
  unfold num_add, of_pos. cbn [SFadd].
  replace (Z.min (Z.of_nat (width px) - 53) (Z.of_nat (width py) - 53)) with (- Z.of_nat j) by lia.
  rewrite !align_value by lia. rewrite <- Z.mul_add_distr_r. apply normalize_shift; [done|lia].
Qed.

Lemma sub_finite sx px sy py :
  Zpos px < 2 ^ 53 → Zpos py < 2 ^ 53 → small (signed sx px - signed sy py) →
  num_sub (of_pos sx px) (of_pos sy py) = num_of_Z (signed sx px - signed sy py).
Proof.
  intros Hx Hy Hs. pose proof (width_53 px Hx). pose proof (width_53 py Hy).
  set (j := Nat.max (53 - width px) (53 - width py)).
  unfold num_sub, of_pos. cbn [SFsub].
  replace (Z.min (Z.of_nat (width px) - 53) (Z.of_nat (width py) - 53)) with (- Z.of_nat j) by lia.
  rewrite !align_value by lia. rewrite <- Z.mul_sub_distr_r. apply normalize_shift; [done|lia].
Qed.

Lemma num_of_Z_signed z :
  small z → z ≠ 0 → ∃ s p, num_of_Z z = of_pos s p ∧ z = signed s p ∧ Zpos p < 2 ^ 53.
Proof.
  intros Hz Hz0. rewrite num_of_Z_eq by done. unfold small in Hz.
  destruct z as [|p|p]; [done|exists false, p|exists true, p]; split_and!; done || lia.
Qed.

(** A sum and a difference of integers. *)
Lemma num_add_int a b : small a → small b → small (a + b) → num_add (num_of_Z a) (num_of_Z b) = num_of_Z (a + b).
Proof.
  intros Ha Hb Hs. destruct (decide (a = 0)) as [->|Ha0]; [|destruct (decide (b = 0)) as [->|Hb0]].
  - rewrite Z.add_0_l, (num_of_Z_eq b) by done. by destruct b.
  - rewrite Z.add_0_r, (num_of_Z_eq a) by done. by destruct a.
  - destruct (num_of_Z_signed a Ha Ha0) as (sx & px & -> & -> & Hx), (num_of_Z_signed b Hb Hb0) as (sy & py & -> & -> & Hy).
    by apply add_finite.
Qed.

Lemma num_sub_int a b : small a → small b → small (a - b) → num_sub (num_of_Z a) (num_of_Z b) = num_of_Z (a - b).
Proof.
  intros Ha Hb Hs. destruct (decide (a = 0)) as [->|Ha0]; [|destruct (decide (b = 0)) as [->|Hb0]].
  - rewrite Z.sub_0_l, (num_of_Z_eq b), (num_of_Z_eq (- b)) by (done || unfold small in *; lia). by destruct b.
  - rewrite Z.sub_0_r, (num_of_Z_eq a) by done. by destruct a.
  - destruct (num_of_Z_signed a Ha Ha0) as (sx & px & -> & -> & Hx), (num_of_Z_signed b Hb Hb0) as (sy & py & -> & -> & Hy).
    by apply sub_finite.
Qed.

(** ** Comparison *)

Lemma width_mono p q : Zpos p <= Zpos q → (width p <= width q)%nat.
Proof.
  intros H. pose proof (digits_bound p) as [Hp _]. pose proof (digits_bound q) as [_ Hq].
  assert (Zpos (digits2_pos p) - 1 < Zpos (digits2_pos q)) by (apply (Z.pow_lt_mono_r_iff 2); lia).
  rewrite <- !width_Z in *. lia.
Qed.

Lemma compare_pos p q :
  Zpos p < 2 ^ 53 → Zpos q < 2 ^ 53 →
  match Z.of_nat (width p) - 53 ?= Z.of_nat (width q) - 53 with
  | Eq => Pos.compare_cont Eq (shl p (53 - width p)) (shl q (53 - width q))
  | c => c
  end = (Zpos p ?= Zpos q).
Proof.
  intros Hp%width_53 Hq%width_53. destruct (Z.compare_spec (Z.of_nat (width p) - 53) (Z.of_nat (width q) - 53)) as [E|E|E].
  - change (Pos.compare_cont Eq) with Pos.compare. change ((?a ?= ?b)%positive) with (Zpos a ?= Zpos b).
    rewrite !shl_value. replace (width q) with (width p) by lia.
    symmetry. apply Zmult_compare_compat_r. apply Z.lt_gt, Z.pow_pos_nonneg; lia.
  - symmetry. apply Z.compare_lt_iff. destruct (Z.lt_ge_cases (Zpos p) (Zpos q)) as [|H%width_mono]; lia.
  - symmetry. apply Z.compare_gt_iff. destruct (Z.lt_ge_cases (Zpos q) (Zpos p)) as [|H%width_mono]; lia.
Qed.

Lemma num_compare_int a b : small a → small b → SFcompare (num_of_Z a) (num_of_Z b) = Some (a ?= b).
Proof.
  intros Ha Hb. rewrite (num_of_Z_eq a), (num_of_Z_eq b) by done. unfold small in *.
  destruct a as [|p|p], b as [|q|q]; try done; cbn [SFcompare of_pos num_zero].
  - unfold of_pos. cbn [SFcompare]. rewrite <- (compare_pos p q) by lia. by destruct (_ ?= _).
  - unfold of_pos. cbn [SFcompare]. change (Zneg p ?= Zneg q) with (CompOpp (Zpos p ?= Zpos q)).
    rewrite <- (compare_pos p q) by lia. by destruct (_ ?= _).
Qed.

Lemma num_ltb_int a b : small a → small b → num_ltb (num_of_Z a) (num_of_Z b) = (a <? b).
Proof. intros Ha Hb. unfold num_ltb, SFltb. rewrite num_compare_int by done. by unfold Z.ltb; destruct (a ?= b). Qed.

Lemma num_leb_int a b : small a → small b → num_leb (num_of_Z a) (num_of_Z b) = (a <=? b).
Proof. intros Ha Hb. unfold num_leb, SFleb. rewrite num_compare_int by done. by unfold Z.leb; destruct (a ?= b). Qed.

Lemma num_eqb_int a b : small a → small b → num_eqb (num_of_Z a) (num_of_Z b) = (a =? b).
Proof.
  intros Ha Hb. unfold num_eqb, SFeqb. rewrite num_compare_int by done. rewrite Z.eqb_compare. by destruct (a ?= b).
Qed.

(** An integer is finite, and is the integer that it is. *)
Lemma num_integer_int z : small z → num_integer (num_of_Z z) = Some z.
Proof.
  intros Hz. destruct (decide (z = 0)) as [->|Hne]; [done|].
  destruct (num_of_Z_signed z Hz Hne) as (s & p & -> & -> & Hp%width_53). unfold of_pos, num_integer.
  destruct (Z.leb_spec 0 (Z.of_nat (width p) - 53)) as [H|H].
  - replace (Z.of_nat (width p) - 53) with 0 by lia. replace (53 - width p)%nat with O by lia. cbn [shl]. 
    f_equal. unfold signed. destruct s; cbn; lia.
  - replace (- (Z.of_nat (width p) - 53)) with (Z.of_nat (53 - width p)) by lia.
    rewrite shl_value. rewrite Z.mod_mul, Z.div_mul by lia. by destruct s.
Qed.

Lemma num_finite_int z : small z → num_is_finite (num_of_Z z) = true.
Proof.
  intros Hz. destruct (decide (z = 0)) as [->|Hne]; [done|]. by destruct (num_of_Z_signed z Hz Hne) as (? & ? & -> & _).
Qed.
