(* ===== verification/JSON.v ===== *)
(** * Objects used as dictionaries, and JSON

    - [obj V] is a plain object with values in [V], as the list of its own
      properties in their enumeration order: array-index keys ascending, then
      the other keys in the order they were added.  The prototype chain is
      not modelled: a key named like a member of [Object.prototype] is read
      as absent here.
    - [json] is a value [JSON.parse] returns; [JSON_parse] and
      [JSON_stringify] follow ECMA-404 and the quoting of well-formed
      [JSON.stringify].  [JSON_roundtrip] reads back what was printed. *)
From S2P Require Import Prelude JSString JSNumber.

(** ** Plain objects *)

Abbreviation obj V := (list (jsstr * V)%type).

(** The value of a canonical array index, [None] for any other key. *)
Definition key_index (k : jsstr) : option N :=
  match k with
  | [] => None
  | c :: r =>
      if forallb is_digit k && (negb (c =? 48)%N || bool_decide (r = [])) then
        let v := digits_value k in
        if (v <? 4294967295)%N then Some v else None
      else None
  end.

(** A new key [k] is enumerated before the existing key [k']. *)
Definition key_before (k k' : jsstr) : bool :=
  match key_index k, key_index k' with
  | Some a, Some b => (a <? b)%N
  | Some _, None => true
  | None, _ => false
  end.

Section Obj.
Context {V : Type}.
Implicit Types (o : obj V) (k : jsstr).

Fixpoint obj_get k o : option V :=
  match o with
  | [] => None
  | (k', v) :: o' => if decide (k = k') then Some v else obj_get k o'
  end.

Fixpoint obj_replace k (v : V) o : obj V :=
  match o with
  | [] => []
  | (k', v') :: o' =>
      if decide (k = k') then (k, v) :: o' else (k', v') :: obj_replace k v o'
  end.

Fixpoint obj_insert k (v : V) o : obj V :=
  match o with
  | [] => [(k, v)]
  | (k', v') :: o' =>
      if key_before k k' then (k, v) :: o else (k', v') :: obj_insert k v o'
  end.

(** [delete o[k]] *)
Fixpoint obj_delete k o : obj V :=
  match o with
  | [] => []
  | (k', v') :: o' =>
      if decide (k = k') then obj_delete k o' else (k', v') :: obj_delete k o'
  end.

Definition obj_keys o : list jsstr := map fst o.
Definition obj_values o : list V := map snd o.
Definition obj_has k o : bool := match obj_get k o with Some _ => true | None => false end.

(** [o[k] = v]: an existing property keeps its place. *)
Definition obj_set k (v : V) o : obj V :=
  if obj_has k o then obj_replace k v o else obj_insert k v o.

(** [{ ...o, ...p }] *)
Definition obj_assign o (p : obj V) : obj V :=
  foldl (λ acc kv, obj_set kv.1 kv.2 acc) o p.

Lemma obj_get_replace k k' v o :
  obj_get k (obj_replace k' v o) =
  if decide (k = k') then (if obj_has k o then Some v else None) else obj_get k o.
Proof.
  unfold obj_has. induction o as [|[k'' v''] o IH]; simpl; [by case_decide|].
  repeat (case_decide; simplify_eq/=); try done; by rewrite ?IH, ?decide_True, ?decide_False.
Qed.

Lemma obj_get_insert k k' v o :
  obj_has k' o = false →
  obj_get k (obj_insert k' v o) = if decide (k = k') then Some v else obj_get k o.
Proof.
  unfold obj_has. induction o as [|[k'' v''] o IH]; simpl; [done|]. intros Hk.
  destruct (decide (k' = k'')); [done|].
  destruct (key_before k' k''); simpl; [done|].
  rewrite IH by done. repeat (case_decide; simplify_eq); done.
Qed.

Lemma obj_get_set k k' v o :
  obj_get k (obj_set k' v o) = if decide (k = k') then Some v else obj_get k o.
Proof.
  unfold obj_set. destruct (obj_has k' o) eqn:Hk.
  - rewrite obj_get_replace. case_decide; [|done]. subst. by rewrite Hk.
  - by apply obj_get_insert.
Qed.

Lemma obj_get_set_eq k v o : obj_get k (obj_set k v o) = Some v.
Proof. rewrite obj_get_set. by rewrite decide_True. Qed.

Lemma obj_get_set_ne k k' v o : k ≠ k' → obj_get k (obj_set k' v o) = obj_get k o.
Proof. intros. rewrite obj_get_set. by rewrite decide_False. Qed.

Lemma obj_get_delete k k' o :
  obj_get k (obj_delete k' o) = if decide (k = k') then None else obj_get k o.
Proof.
  induction o as [|[k'' v''] o IH]; simpl; [by case_decide|].
  repeat case_decide; simplify_eq/=; rewrite ?IH;
    repeat (case_decide; simplify_eq); done.
Qed.

Lemma obj_get_delete_eq k o : obj_get k (obj_delete k o) = None.
Proof. rewrite obj_get_delete. by rewrite decide_True. Qed.

Lemma obj_get_delete_ne k k' o : k ≠ k' → obj_get k (obj_delete k' o) = obj_get k o.
Proof. intros. rewrite obj_get_delete. by rewrite decide_False. Qed.

Lemma obj_get_None k o : obj_get k o = None ↔ k ∉ obj_keys o.
Proof.
  unfold obj_keys. induction o as [|[k' v] o IH]; simpl; [set_solver|].
  case_decide; [set_solver|]. rewrite IH. set_solver.
Qed.

Lemma obj_get_Some_mem k v o : obj_get k o = Some v → (k, v) ∈ o.
Proof.
  induction o as [|[k' v'] o IH]; simpl; [done|].
  case_decide; [intros [= ->]; subst; by left|right; auto].
Qed.

Lemma obj_get_mem k v o : NoDup (obj_keys o) → (k, v) ∈ o → obj_get k o = Some v.
Proof.
  unfold obj_keys. induction o as [|[k' v'] o IH]; simpl; [set_solver|].
  intros [Hk Hnd]%NoDup_cons [?|Hin]%elem_of_cons; simplify_eq.
  - by rewrite decide_True.
  - rewrite decide_False; [by apply IH|]. intros ->. apply Hk.
    apply list_elem_of_fmap. by exists (k', v).
Qed.

Lemma obj_get_app k o p :
  obj_get k (o ++ p) = match obj_get k o with Some v => Some v | None => obj_get k p end.
Proof. induction o as [|[k' v] o IH]; simpl; [done|]. by destruct (decide (k = k')). Qed.

Lemma obj_has_false k o : obj_has k o = false ↔ k ∉ obj_keys o.
Proof.
  unfold obj_has. rewrite <- obj_get_None. destruct (obj_get k o); naive_solver.
Qed.

Lemma obj_has_true k o : obj_has k o = true ↔ k ∈ obj_keys o.
Proof.
  pose proof (obj_has_false k o). destruct (obj_has k o); [|naive_solver].
  destruct (decide (k ∈ obj_keys o)); naive_solver.
Qed.

Lemma obj_keys_replace k v o : obj_keys (obj_replace k v o) = obj_keys o.
Proof.
  unfold obj_keys. induction o as [|[k' v'] o IH]; simpl; [done|].
  case_decide; simplify_eq/=; by rewrite ?IH.
Qed.

Lemma obj_keys_insert k v o : obj_keys (obj_insert k v o) ≡ₚ k :: obj_keys o.
Proof.
  unfold obj_keys. induction o as [|[k' v'] o IH]; simpl; [done|].
  case_match; simpl; [done|]. rewrite IH. apply Permutation_swap.
Qed.

Lemma elem_of_keys_set x k v o : x ∈ obj_keys (obj_set k v o) ↔ x = k ∨ x ∈ obj_keys o.
Proof.
  unfold obj_set. destruct (obj_has k o) eqn:Hk.
  - rewrite obj_keys_replace. apply obj_has_true in Hk. naive_solver.
  - rewrite obj_keys_insert. set_solver.
Qed.

Lemma NoDup_keys_set k v o : NoDup (obj_keys o) → NoDup (obj_keys (obj_set k v o)).
Proof.
  intros Ho. unfold obj_set. destruct (obj_has k o) eqn:Hk.
  - by rewrite obj_keys_replace.
  - rewrite obj_keys_insert. constructor; [by apply obj_has_false|done].
Qed.

Lemma obj_keys_delete k o : obj_keys (obj_delete k o) = filter (λ x, x ≠ k) (obj_keys o).
Proof.
  unfold obj_keys. induction o as [|[k' v'] o IH]; simpl; [done|].
  destruct (decide (k = k')) as [->|Hne].
  - rewrite filter_cons_False by naive_solver. done.
  - rewrite filter_cons_True by naive_solver. simpl. by f_equal.
Qed.

Lemma NoDup_keys_delete k o : NoDup (obj_keys o) → NoDup (obj_keys (obj_delete k o)).
Proof. intros. rewrite obj_keys_delete. by apply NoDup_filter. Qed.

(** A key that is absent is added last, unless it is an array index. *)
Lemma NoDup_keys_assign o p : NoDup (obj_keys o) → NoDup (obj_keys (obj_assign o p)).
Proof.
  unfold obj_assign. revert o.
  induction p as [|[k v] p IH]; intros o Ho; simpl; [done|]. by apply IH, NoDup_keys_set.
Qed.

Lemma obj_get_assign k o p :
  NoDup (obj_keys p) →
  obj_get k (obj_assign o p) = match obj_get k p with Some v => Some v | None => obj_get k o end.
Proof.
  unfold obj_assign. revert o. induction p as [|[k' v] p IH]; intros o Hp; simpl; [done|].
  apply NoDup_cons in Hp as [Hk Hp]. simpl in Hk. rewrite (IH _ Hp), obj_get_set.
  destruct (decide (k = k')) as [->|]; [|done].
  by apply obj_get_None in Hk as ->.
Qed.

Lemma elem_of_keys_assign x o p :
  x ∈ obj_keys (obj_assign o p) ↔ x ∈ obj_keys o ∨ x ∈ obj_keys p.
Proof.
  unfold obj_assign. revert o. induction p as [|[k v] p IH]; intros o; simpl; [set_solver|].
  rewrite IH, elem_of_keys_set. set_solver.
Qed.

Lemma obj_set_snoc k v o :
  k ∉ obj_keys o → key_index k = None → obj_set k v o = o ++ [(k, v)].
Proof.
  intros Hk Hi. unfold obj_set. rewrite (proj2 (obj_has_false k o) Hk). clear Hk.
  induction o as [|[k' v'] o IH]; simpl; [done|].
  unfold key_before. by rewrite Hi, IH.
Qed.
End Obj.

(** ** JSON values *)

Inductive json :=
  | JNull
  | JBool (b : bool)
  | JNum (n : num)
  | JStr (s : jsstr)
  | JArr (l : list json)
  | JObj (o : list (jsstr * json)).

(** Induction that goes through the lists. *)
Fixpoint json_ind' (P : json → Prop)
    (Hnull : P JNull) (Hbool : ∀ b, P (JBool b)) (Hnum : ∀ n, P (JNum n))
    (Hstr : ∀ s, P (JStr s))
    (Harr : ∀ l, Forall P l → P (JArr l))
    (Hobj : ∀ o, Forall (λ kv, P kv.2) o → P (JObj o)) (v : json) : P v :=
  let rec := json_ind' P Hnull Hbool Hnum Hstr Harr Hobj in
  match v with
  | JNull => Hnull
  | JBool b => Hbool b
  | JNum n => Hnum n
  | JStr s => Hstr s
  | JArr l => Harr l ((fix go l := match l return Forall P l with
      | [] => Forall_nil_2 _
      | x :: l => Forall_cons_2 _ _ _ (rec x) (go l) end) l)
  | JObj o => Hobj o ((fix go o := match o return Forall (λ kv, P kv.2) o with
      | [] => Forall_nil_2 _
      | kv :: o => Forall_cons_2 _ _ _ (rec kv.2) (go o) end) o)
  end.

Fixpoint json_eqb (v w : json) : bool :=
  match v, w with
  | JNull, JNull => true
  | JBool a, JBool b => Bool.eqb a b
  | JNum a, JNum b => bool_decide (a = b)
  | JStr a, JStr b => bool_decide (a = b)
  | JArr a, JArr b =>
      (fix go a b := match a, b with
        | [], [] => true
        | x :: a, y :: b => json_eqb x y && go a b
        | _, _ => false end) a b
  | JObj a, JObj b =>
      (fix go a b := match a, b with
        | [], [] => true
        | (k, x) :: a, (k', y) :: b => bool_decide (k = k') && json_eqb x y && go a b
        | _, _ => false end) a b
  | _, _ => false
  end.

Lemma json_eqb_spec v w : json_eqb v w = true ↔ v = w.
Proof.
  revert w. induction v as [|b|n|s|l IH|o IH] using json_ind'; intros w; destruct w; simpl;
    try (split; intros; (done || discriminate));
    rewrite ?bool_decide_eq_true, ?Bool.eqb_true_iff;
    try (split; [by intros ->|by intros [= ->]]).
  - match goal with |- context [JArr ?x = JArr ?y] => rename y into l' end.
    transitivity (l = l'); [|split; [by intros ->|by intros [= ->]]]. revert l'.
    induction IH as [|x l Hx _ IH]; intros [|y l']; try done.
    rewrite andb_true_iff, Hx, IH. split; [by intros [-> ->]|by intros [= -> ->]].
  - match goal with |- context [JObj ?x = JObj ?y] => rename y into o' end.
    transitivity (o = o'); [|split; [by intros ->|by intros [= ->]]]. revert o'.
    induction IH as [|[k x] o Hx _ IH]; intros [|[k' y] o']; try done.
    rewrite !andb_true_iff, Hx, IH, bool_decide_eq_true. simpl.
    split; [by intros [[-> ->] ->]|by intros [= -> -> ->]].
Qed.

#[global] Instance json_eq_dec : EqDecision json.
Proof.
  intros v w. destruct (json_eqb v w) eqn:E; [left|right].
  - by apply json_eqb_spec.
  - intros H%json_eqb_spec. congruence.
Defined.

(** [Boolean(v)] on a JSON value. *)
Definition json_truthy (v : json) : bool :=
  match v with
  | JNull => false
  | JBool b => b
  | JNum n => num_truthy n
  | JStr s => nonempty s
  | JArr _ | JObj _ => true
  end.

(** [parsed && typeof parsed === 'object' && !Array.isArray(parsed)] *)
Definition as_plain_object (v : json) : option (obj json) :=
  match v with JObj o => Some o | _ => None end.

Definition as_string (v : json) : option jsstr :=
  match v with JStr s => Some s | _ => None end.

(** The own enumerable properties of a value, as in [{ ...v }] and
    [Object.entries(v)]: a string and an array have one per index. *)
Definition indexed {A} (l : list A) : obj A :=
  imap (λ i x, (string_of_N (N.of_nat i), x)) l.

Definition spread (v : json) : obj json :=
  match v with
  | JObj o => o
  | JArr l => indexed l
  | JStr s => indexed (map (λ c, JStr [c]) s)
  | _ => []
  end.

(** [v.k] on a value that is neither [null] nor [undefined], for a [k] that is
    no index, no [length] and nothing of a prototype; [None] is [undefined]. *)
Definition json_prop (v : json) (k : jsstr) : option json :=
  match v with JObj o => obj_get k o | _ => None end.

(** [String(v)]; an element [null] of an array prints as nothing. *)
Fixpoint json_to_string (v : json) : jsstr :=
  match v with
  | JNull => js "null"
  | JBool b => if b then js "true" else js "false"
  | JNum n => num_to_string n
  | JStr s => s
  | JArr l => join (js ",") (map (λ x, match x with JNull => [] | _ => json_to_string x end) l)
  | JObj _ => js "[object Object]"
  end.

(** [Number(v)]: an array goes through its string. *)
Definition json_to_number (v : json) : num :=
  match v with
  | JNull => num_zero
  | JBool b => if b then num_of_Z 1 else num_zero
  | JNum n => n
  | JStr s => Number s
  | JArr _ => Number (json_to_string v)
  | JObj _ => S754_nan
  end.

(** [x || d] on numbers: [0], [-0] and [NaN] are falsy. *)
Definition num_or (x d : num) : num := if num_truthy x then x else d.

(** ** Printing *)

Definition hex_digit (n : N) : jschar := if (n <? 10)%N then (48 + n)%N else (87 + n)%N.

Definition escape_u (c : jschar) : jsstr :=
  [BSL; 117%N; hex_digit (c / 4096); hex_digit ((c / 256) mod 16);
   hex_digit ((c / 16) mod 16); hex_digit (c mod 16)].

Definition is_high_surrogate (c : jschar) : bool := ((55296 <=? c) && (c <=? 56319))%N.
Definition is_low_surrogate (c : jschar) : bool := ((56320 <=? c) && (c <=? 57343))%N.

(** The escape of one code unit that is not half of a surrogate pair. *)
Definition quote_char (c : jschar) : jsstr :=
  if (c =? 8)%N then [BSL; 98%N] else
  if (c =? 9)%N then [BSL; 116%N] else
  if (c =? 10)%N then [BSL; 110%N] else
  if (c =? 12)%N then [BSL; 102%N] else
  if (c =? 13)%N then [BSL; 114%N] else
  if (c =? DQ)%N then [BSL; DQ] else
  if (c =? BSL)%N then [BSL; BSL] else
  if (c <? 32)%N || is_high_surrogate c || is_low_surrogate c then escape_u c
  else [c].

Fixpoint quote_chars (s : jsstr) : jsstr :=
  match s with
  | [] => []
  | c :: s' =>
      if is_high_surrogate c then
        match s' with
        | d :: s'' => if is_low_surrogate d then c :: d :: quote_chars s''
                      else quote_char c ++ quote_chars s'
        | [] => quote_char c
        end
      else quote_char c ++ quote_chars s'
  end.

(** [JSON.stringify] of a string. *)
Definition quote (s : jsstr) : jsstr := DQ :: quote_chars s ++ [DQ].

Definition stringify_num (n : num) : jsstr :=
  if num_is_finite n then num_to_string n else js "null".

Fixpoint JSON_stringify (v : json) : jsstr :=
  match v with
  | JNull => js "null"
  | JBool true => js "true"
  | JBool false => js "false"
  | JNum n => stringify_num n
  | JStr s => quote s
  | JArr l => js "[" ++ join (js ",") (map JSON_stringify l) ++ js "]"
  | JObj o =>
      js "{" ++ join (js ",")
        (map (λ kv, quote kv.1 ++ js ":" ++ JSON_stringify kv.2) o) ++ js "}"
  end.

(** ** Parsing *)

Definition is_json_ws (c : jschar) : bool :=
  ((c =? 9) || (c =? 10) || (c =? 13) || (c =? 32))%N.

Fixpoint skip_json_ws (s : jsstr) : jsstr :=
  match s with
  | c :: s' => if is_json_ws c then skip_json_ws s' else s
  | [] => []
  end.

Definition hex_value (c : jschar) : option N :=
  if is_digit c then Some (c - 48)%N else
  if ((97 <=? c) && (c <=? 102))%N then Some (c - 87)%N else
  if ((65 <=? c) && (c <=? 70))%N then Some (c - 55)%N else None.

Definition unescape (c : jschar) : option jschar :=
  if (c =? DQ)%N then Some DQ else if (c =? BSL)%N then Some BSL else
  if (c =? 47)%N then Some 47%N else if (c =? 98)%N then Some 8%N else
  if (c =? 102)%N then Some 12%N else if (c =? 110)%N then Some 10%N else
  if (c =? 114)%N then Some 13%N else if (c =? 116)%N then Some 9%N else None.

(** The rest of a string literal, after its opening quote. *)
Fixpoint parse_str (s : jsstr) : option (jsstr * jsstr) :=
  match s with
  | [] => None
  | c :: s1 =>
      if (c =? DQ)%N then Some ([], s1) else
      if (c =? BSL)%N then
        match s1 with
        | [] => None
        | e :: s2 =>
            if (e =? 117)%N then
              match s2 with
              | h1 :: h2 :: h3 :: h4 :: s3 =>
                  match hex_value h1, hex_value h2, hex_value h3, hex_value h4, parse_str s3 with
                  | Some a, Some b, Some d, Some f, Some (t, r) =>
                      Some ((4096 * a + 256 * b + 16 * d + f)%N :: t, r)
                  | _, _, _, _, _ => None
                  end
              | _ => None
              end
            else
              match unescape e, parse_str s2 with
              | Some u, Some (t, r) => Some (u :: t, r)
              | _, _ => None
              end
        end
      else if (c <? 32)%N then None
      else match parse_str s1 with Some (t, r) => Some (c :: t, r) | None => None end
  end.

(** The characters a number literal is made of.  A number in a JSON text is
    followed by white space, a comma, a closing bracket or the end, none of
    which is one of them, so the literal is the longest run of them. *)
Definition is_num_char (c : jschar) : bool :=
  is_digit c || ((c =? 43) || (c =? 45) || (c =? 46) || (c =? 69) || (c =? 101))%N.

Fixpoint span_num (s : jsstr) : jsstr * jsstr :=
  match s with
  | c :: s' => if is_num_char c then let '(t, r) := span_num s' in (c :: t, r) else ([], s)
  | [] => ([], [])
  end.

(** The JSON grammar of numbers, [-? (0 | [1-9] digits) (. digits)? exp?]. *)
Definition json_number (t : jsstr) : option num :=
  let '(neg, s) := match t with
    | c :: r => if (c =? 45)%N then (true, r) else (false, t) | [] => (false, []) end in
  let '(ip, r1) := span_digits s in
  let int_ok := match ip with
    | [] => false | [_] => true | c :: _ => negb (c =? 48)%N end in
  if negb int_ok then None else
  let frac := match r1 with
    | c :: r => if (c =? DOT)%N then
                  let '(fp, r2) := span_digits r in
                  if nonempty fp then Some (fp, r2) else None
                else Some ([], r1)
    | [] => Some ([], []) end in
  match frac with
  | None => None
  | Some (fp, r2) =>
      let m := digits_value (ip ++ fp) in
      let e0 := (- Z.of_nat (length fp))%Z in
      match r2 with
      | [] => Some (num_of_dec neg m e0)
      | _ => match span_exponent r2 with
             | Some (x, []) => Some (num_of_dec neg m (e0 + x)%Z)
             | _ => None
             end
      end
  end.

(** The next character that is not white space, if it is [c]. *)
Definition expect (c : jschar) (s : jsstr) : option jsstr :=
  match skip_json_ws s with
  | d :: r => if (d =? c)%N then Some r else None
  | [] => None
  end.

(** [fuel] bounds the nesting and the length of the lists; [JSON_parse]
    starts with enough for any text of its length. *)
Fixpoint parse_value (fuel : nat) (s : jsstr) : option (json * jsstr) :=
  match fuel with
  | O => None
  | S f =>
      match skip_json_ws s with
      | [] => None
      | c :: r =>
          if (c =? 123)%N then
            match expect 125 r with
            | Some r' => Some (JObj [], r')
            | None => match parse_members f [] r with
                      | Some (o, r') => Some (JObj o, r') | None => None end
            end
          else if (c =? 91)%N then
            match expect 93 r with
            | Some r' => Some (JArr [], r')
            | None => match parse_elems f r with
                      | Some (l, r') => Some (JArr l, r') | None => None end
            end
          else if (c =? DQ)%N then
            match parse_str r with Some (t, r') => Some (JStr t, r') | None => None end
          else if starts_with (js "true") (c :: r) then Some (JBool true, drop 3 r)
          else if starts_with (js "false") (c :: r) then Some (JBool false, drop 4 r)
          else if starts_with (js "null") (c :: r) then Some (JNull, drop 3 r)
          else
            let '(t, r') := span_num (c :: r) in
            match json_number t with Some n => Some (JNum n, r') | None => None end
      end
  end
with parse_elems (fuel : nat) (s : jsstr) : option (list json * jsstr) :=
  match fuel with
  | O => None
  | S f =>
      match parse_value f s with
      | None => None
      | Some (v, r) =>
          match expect 44 r with
          | Some r' => match parse_elems f r' with
                       | Some (l, r'') => Some (v :: l, r'') | None => None end
          | None => match expect 93 r with Some r' => Some ([v], r') | None => None end
          end
      end
  end
with parse_members (fuel : nat) (acc : list (jsstr * json)) (s : jsstr)
    : option (list (jsstr * json) * jsstr) :=
  match fuel with
  | O => None
  | S f =>
      match expect DQ s with
      | None => None
      | Some r =>
          match parse_str r with
          | None => None
          | Some (k, r1) =>
              match expect 58 r1 with
              | None => None
              | Some r2 =>
                  match parse_value f r2 with
                  | None => None
                  | Some (v, r3) =>
                      let acc' := obj_set k v acc in
                      match expect 44 r3 with
                      | Some r4 => parse_members f acc' r4
                      | None => match expect 125 r3 with
                                | Some r4 => Some (acc', r4) | None => None end
                      end
                  end
              end
          end
      end
  end.

(** [JSON.parse(s)]; [None] is the [SyntaxError]. *)
Definition JSON_parse (s : jsstr) : option json :=
  match parse_value (2 * length s + 2) s with
  | Some (v, r) => match skip_json_ws r with [] => Some v | _ => None end
  | None => None
  end.

Example json_parse_1 :
  JSON_parse (jq " { `b` : [1, -2.5e1, true], `a\u0041\n`:null, `2`: {}, `b`: `x` } ")
  = Some (JObj [(js "2", JObj []); (js "b", JStr (js "x")); (js "aA" ++ [10%N], JNull)]).
Proof. vm_compute. reflexivity. Qed.

Example json_parse_2 :
  map JSON_parse [js "01"; js "[1,]"; js "{"; js "1 2"; js "-"; jq "`a"; js ""] =
  replicate 7 None.
Proof. vm_compute. reflexivity. Qed.

(** ** What the parser returns *)

(** No object of the value has two properties of one name. *)
Inductive json_nodup : json → Prop :=
  | nodup_null : json_nodup JNull
  | nodup_bool b : json_nodup (JBool b)
  | nodup_num n : json_nodup (JNum n)
  | nodup_str s : json_nodup (JStr s)
  | nodup_arr l : Forall json_nodup l → json_nodup (JArr l)
  | nodup_obj o : NoDup (obj_keys o) → Forall (λ kv, json_nodup kv.2) o → json_nodup (JObj o).

Lemma Forall_set {V} (P : jsstr * V → Prop) k (v : V) o :
  P (k, v) → Forall P o → Forall P (obj_set k v o).
Proof.
  intros Hv Ho. unfold obj_set. destruct (obj_has k o).
  - induction Ho as [|[k' w] o Hw Ho IH]; simpl in *; [constructor|].
    destruct (decide (k = k')) as [->|]; by constructor.
  - induction Ho as [|[k' w] o Hw Ho IH]; simpl in *; [by repeat constructor|].
    repeat case_match; repeat constructor; done.
Qed.

Lemma Forall_obj_set {V} (P : V → Prop) k v o :
  P v → Forall (λ kv, P kv.2) o → Forall (λ kv, P kv.2) (obj_set k v o).
Proof. intros Hv. by apply (Forall_set (λ kv, P kv.2)). Qed.

Lemma parse_nodup f :
  (∀ s v r, parse_value f s = Some (v, r) → json_nodup v) ∧
  (∀ s l r, parse_elems f s = Some (l, r) → Forall json_nodup l) ∧
  (∀ acc s o r, parse_members f acc s = Some (o, r) →
     NoDup (obj_keys acc) → Forall (λ kv, json_nodup kv.2) acc →
     NoDup (obj_keys o) ∧ Forall (λ kv, json_nodup kv.2) o).
Proof.
  induction f as [|f (IHv & IHe & IHm)]; [by split_and!|].
  split_and!.
  - intros s v r H. cbn [parse_value] in H.
    repeat case_match; simplify_eq; try (constructor; constructor).
    + destruct (IHm [] _ _ _ ltac:(eassumption)); [constructor..|]. by constructor.
    + constructor. eauto.
  - intros s l r H. cbn [parse_elems] in H.
    repeat case_match; simplify_eq; repeat constructor; eauto.
  - intros acc s o r H Ha Hf. cbn [parse_members] in H.
    repeat case_match; simplify_eq.
    + eapply IHm; [eassumption|by apply NoDup_keys_set|]. apply Forall_obj_set; eauto.
    + split; [by apply NoDup_keys_set|]. apply Forall_obj_set; eauto.
Qed.

Lemma JSON_parse_nodup s v : JSON_parse s = Some v → json_nodup v.
Proof.
  unfold JSON_parse. intros H. repeat case_match; simplify_eq.
  by eapply (proj1 (parse_nodup _)).
Qed.

Lemma JSON_parse_NoDup s o : JSON_parse s = Some (JObj o) → NoDup (obj_keys o).
Proof. intros H%JSON_parse_nodup. by inversion H. Qed.

Lemma json_nodup_get o k v : json_nodup (JObj o) → obj_get k o = Some v → json_nodup v.
Proof.
  intros H Hg. inversion H as [| | | | |? _ Ho]. apply obj_get_Some_mem in Hg.
  rewrite Forall_forall in Ho. by apply (Ho (k, v)).
Qed.

Lemma indexed_keys {A} (l : list A) k :
  k ∈ obj_keys (indexed l) → ∃ n, k = string_of_N n.
Proof.
  unfold obj_keys, indexed. intros ([i x] & -> & Hin)%list_elem_of_fmap.
  apply list_elem_of_lookup in Hin as [j Hj]. rewrite list_lookup_imap in Hj.
  destruct (l !! j); simplify_eq/=. eauto.
Qed.

Lemma NoDup_indexed {A} (l : list A) : NoDup (obj_keys (indexed l)).
Proof.
  unfold obj_keys, indexed. rewrite fmap_imap. apply NoDup_alt. intros i j k Hi Hj.
  rewrite list_lookup_imap in Hi, Hj. destruct (l !! i), (l !! j); by simplify_eq/=.
Qed.

Lemma spread_NoDup v : json_nodup v → NoDup (obj_keys (spread v)).
Proof. destruct 1; simpl; auto using NoDup_indexed; constructor. Qed.

(** A property that is no index comes from an object. *)
Lemma spread_get v k :
  (∀ n, k ≠ string_of_N n) → obj_get k (spread v) = json_prop v k.
Proof.
  intros Hk. assert (∀ (l : list json), obj_get k (indexed l) = None) as Hi.
  { intros l. apply obj_get_None. intros [n Hn]%indexed_keys. by eapply Hk. }
  destruct v; simpl; auto.
Qed.

(** A key that does not start with a digit is no index. *)
Lemma not_index c k n : is_digit c = false → c :: k ≠ string_of_N n.
Proof.
  intros Hc E. pose proof (string_of_N_digits n) as H. rewrite <- E in H.
  inversion H; congruence.
Qed.

(** ** Reading back what was printed *)

(** UTF-16 code units. *)
Definition is_utf16 (s : jsstr) : Prop := Forall (λ c, (c < 65536)%N) s.

Lemma hex_value_digit n : (n < 16)%N → hex_value (hex_digit n) = Some n.
Proof.
  intros Hn. destruct n as [|p]; [done|].
  do 4 (try destruct p as [p|p|]); try done; exfalso; lia.
Qed.

Lemma hex4_value c :
  (4096 * (c / 4096) + 256 * ((c / 256) mod 16) + 16 * ((c / 16) mod 16) + c mod 16)%N = c.
Proof.
  pose proof (N.div_mod' c 16) as H1.
  pose proof (N.div_mod' (c / 16) 16) as H2.
  pose proof (N.div_mod' (c / 256) 16) as H3.
  rewrite N.Div0.div_div in H2, H3. change (16 * 16)%N with 256%N in H2.
  change (256 * 16)%N with 4096%N in H3.
  generalize dependent (c / 4096)%N. generalize dependent ((c / 256) mod 16)%N.
  generalize dependent ((c / 16) mod 16)%N. generalize dependent (c mod 16)%N.
  generalize dependent (c / 256)%N. generalize dependent (c / 16)%N. intros. lia.
Qed.

Lemma parse_str_escape_u c t s r :
  (c < 65536)%N → parse_str t = Some (s, r) →
  parse_str (escape_u c ++ t) = Some (c :: s, r).
Proof.
  intros Hc Ht. unfold escape_u. simpl. rewrite !hex_value_digit, Ht, hex4_value; try done.
  - by apply N.mod_lt.
  - by apply N.mod_lt.
  - by apply N.mod_lt.
  - apply N.Div0.div_lt_upper_bound. lia.
Qed.

Lemma parse_str_plain c t s r :
  (c =? DQ)%N = false → (c =? BSL)%N = false → (c <? 32)%N = false →
  parse_str t = Some (s, r) → parse_str (c :: t) = Some (c :: s, r).
Proof. intros H1 H2 H3 Ht. simpl. by rewrite H1, H2, H3, Ht. Qed.

Lemma parse_str_quote_char c t s r :
  (c < 65536)%N → parse_str t = Some (s, r) →
  parse_str (quote_char c ++ t) = Some (c :: s, r).
Proof.
  intros Hc Ht. unfold quote_char.
  repeat match goal with
  | |- context [if (c =? ?k)%N then _ else _] =>
      destruct (N.eqb_spec c k); [subst c; simpl; by rewrite Ht|]
  end.
  destruct ((c <? 32)%N || is_high_surrogate c || is_low_surrogate c) eqn:E.
  - by apply parse_str_escape_u.
  - bool_hyps. apply parse_str_plain; try done; by apply N.eqb_neq.
Qed.

Lemma surrogate_plain c :
  is_high_surrogate c || is_low_surrogate c = true →
  (c =? DQ)%N = false ∧ (c =? BSL)%N = false ∧ (c <? 32)%N = false.
Proof.
  unfold is_high_surrogate, is_low_surrogate, DQ, BSL.
  rewrite orb_true_iff, !andb_true_iff, !N.leb_le, !N.eqb_neq, N.ltb_ge. lia.
Qed.

Lemma parse_str_quote_chars s r :
  is_utf16 s → parse_str (quote_chars s ++ DQ :: r) = Some (s, r).
Proof.
  remember (length s) as n eqn:Hn. revert s Hn.
  induction n as [n IH] using (well_founded_induction lt_wf). intros s -> Hs.
  destruct s as [|c s]; [done|]. apply Forall_cons in Hs as [Hc Hs]. simpl.
  assert (parse_str (quote_char c ++ quote_chars s ++ DQ :: r) = Some (c :: s, r)) as Hone.
  { apply parse_str_quote_char; [done|]. apply (IH (length s)); simpl; auto with lia. }
  destruct (is_high_surrogate c) eqn:Hh; [|by rewrite <- app_assoc].
  destruct s as [|d s]; [done|].
  destruct (is_low_surrogate d) eqn:Hl; [|by rewrite <- app_assoc].
  apply Forall_cons in Hs as [Hd Hs].
  destruct (surrogate_plain c) as (?&?&?); [by rewrite Hh|].
  destruct (surrogate_plain d) as (?&?&?); [by rewrite Hl, orb_true_r|].
  cbn [app]. do 2 (apply parse_str_plain; [done..|]).
  apply (IH (length s)); simpl; auto with lia.
Qed.

(** Reading a quoted string gives it back. *)
Lemma parse_quote s r : is_utf16 s → parse_str (drop 1 (quote s ++ r)) = Some (s, r).
Proof.
  intros Hs. unfold quote. simpl. rewrite <- app_assoc. by apply parse_str_quote_chars.
Qed.

(** The values whose text is read back: strings of UTF-16 code units, keys in
    enumeration order and without duplicates, and numbers whose printed text
    is a JSON number for them ([NaN] and the infinities print as [null]). *)
Inductive json_wf : json → Prop :=
  | wf_null : json_wf JNull
  | wf_bool b : json_wf (JBool b)
  | wf_num n : forallb is_num_char (stringify_num n) = true →
      json_number (stringify_num n) = Some n → json_wf (JNum n)
  | wf_str s : is_utf16 s → json_wf (JStr s)
  | wf_arr l : Forall json_wf l → json_wf (JArr l)
  | wf_obj o : foldl (λ acc kv, obj_set kv.1 kv.2 acc) [] o = o →
      Forall (λ kv, is_utf16 kv.1 ∧ json_wf kv.2) o → json_wf (JObj o).

Definition num_delim (r : jsstr) : Prop :=
  match r with [] => True | c :: _ => is_num_char c = false end.

Lemma is_num_char_cases c :
  is_num_char c = true →
  (c = 43 ∨ c = 45 ∨ c = 46 ∨ c = 69 ∨ c = 101 ∨ (48 <= c /\ c <= 57))%N.
Proof.
  unfold is_num_char, is_digit.
  rewrite !orb_true_iff, andb_true_iff, !N.leb_le, !N.eqb_eq. lia.
Qed.

Lemma span_num_app t r :
  forallb is_num_char t = true → num_delim r → span_num (t ++ r) = (t, r).
Proof.
  intros Ht Hr. induction t as [|c t IH]; simpl in *.
  - destruct r as [|c r]; simpl in *; [done|]. by rewrite Hr.
  - apply andb_true_iff in Ht as [-> Ht]. by rewrite IH.
Qed.

(** The first character of a printed value. *)
Lemma stringify_head v :
  json_wf v → ∃ c t, JSON_stringify v = c :: t ∧
    is_json_ws c = false ∧ c ≠ 93%N ∧ c ≠ 125%N.
Proof.
  intros Hv. destruct Hv as [|b|n Hn Hj|s Hs|l Hl|o Ho Hall].
  - eexists _, _. by split.
  - destruct b; eexists _, _; by split.
  - cbn [JSON_stringify]. destruct (stringify_num n) as [|c t]; [done|]. exists c, t.
    split; [done|]. apply andb_true_iff in Hn as [Hc%is_num_char_cases _].
    unfold is_json_ws. rewrite !orb_false_iff, !N.eqb_neq. lia.
  - eexists _, _. by split.
  - eexists _, _. by split.
  - eexists _, _. by split.
Qed.

Lemma skip_json_ws_id c t : is_json_ws c = false → skip_json_ws (c :: t) = c :: t.
Proof. intros H. simpl. by rewrite H. Qed.

Lemma expect_eq c r : is_json_ws c = false → expect c (c :: r) = Some r.
Proof. intros H. unfold expect. by rewrite skip_json_ws_id, N.eqb_refl. Qed.

Lemma expect_ne c d r : is_json_ws d = false → d ≠ c → expect c (d :: r) = None.
Proof.
  intros H Hne. unfold expect. rewrite skip_json_ws_id by done.
  by destruct (N.eqb_spec d c).
Qed.

Lemma parse_value_num f n r :
  forallb is_num_char (stringify_num n) = true →
  json_number (stringify_num n) = Some n → num_delim r →
  parse_value (S f) (stringify_num n ++ r) = Some (JNum n, r).
Proof.
  intros Hn Hj Hr. pose proof (span_num_app _ r Hn Hr) as Hs.
  destruct (stringify_num n) as [|c t] eqn:E; [done|]. cbn [app] in *.
  simpl in Hn. apply andb_true_iff in Hn as [Hc%is_num_char_cases _].
  assert (is_json_ws c = false) as Hw.
  { unfold is_json_ws. rewrite !orb_false_iff, !N.eqb_neq. lia. }
  cbn [parse_value]. rewrite skip_json_ws_id by done.
  rewrite (proj2 (N.eqb_neq c 123)), (proj2 (N.eqb_neq c 91)),
    (proj2 (N.eqb_neq c DQ)) by (unfold DQ; lia).
  assert (∀ d p, (d = 116 ∨ d = 102 ∨ d = 110)%N →
    starts_with (d :: p) (c :: t ++ r) = false) as Hlit.
  { intros d p Hd. simpl. rewrite (proj2 (N.eqb_neq d c)); [done|lia]. }
  js_lit. rewrite !Hlit by lia. by rewrite Hs, Hj.
Qed.

Definition member (kv : jsstr * json) : jsstr :=
  quote kv.1 ++ js ":" ++ JSON_stringify kv.2.

Definition reads_back (v : json) : Prop :=
  ∀ f r, 2 * length (JSON_stringify v) ≤ f → num_delim r →
         parse_value f (JSON_stringify v ++ r) = Some (v, r).

Lemma join_cons sep w w' l : join sep (w :: w' :: l) = w ++ sep ++ join sep (w' :: l).
Proof. done. Qed.

Lemma parse_elems_spec l f r :
  l ≠ [] → Forall reads_back l →
  2 * length (join (js ",") (map JSON_stringify l)) < f →
  parse_elems f (join (js ",") (map JSON_stringify l) ++ 93%N :: r) = Some (l, r).
Proof.
  intros Hl Hall. revert f. induction Hall as [|v l Hv Hall IH]; intros f Hf; [done|].
  destruct f as [|f]; [lia|]. destruct l as [|w l].
  - simpl in *. rewrite Hv by (done || lia). by rewrite expect_ne, expect_eq.
  - change (map JSON_stringify (v :: w :: l)) with
      (JSON_stringify v :: JSON_stringify w :: map JSON_stringify l) in *.
    rewrite join_cons in *. rewrite !length_app in Hf. simpl in Hf.
    rewrite <- !app_assoc. change (js "," ++ ?x) with (44%N :: x).
    cbn [parse_elems]. rewrite Hv by (done || lia).
    rewrite expect_eq by done. by rewrite IH by (done || (simpl; lia)).
Qed.

Lemma length_quote s : 2 ≤ length (quote s).
Proof. unfold quote. simpl. rewrite length_app. simpl. lia. Qed.

Lemma parse_members_spec o acc f r :
  o ≠ [] → Forall (λ kv, is_utf16 kv.1 ∧ reads_back kv.2) o →
  2 * length (join (js ",") (map member o)) < f →
  parse_members f acc (join (js ",") (map member o) ++ 125%N :: r) =
  Some (foldl (λ acc kv, obj_set kv.1 kv.2 acc) acc o, r).
Proof.
  intros Ho Hall. revert acc f.
  induction Hall as [|[k v] o [Hk Hv] Hall IH]; intros acc f Hf; [done|]. simpl in Hk, Hv.
  destruct f as [|f]; [lia|].
  assert (∀ x r', 2 * length (member (k, v)) < S f → num_delim r' →
    x = member (k, v) ++ r' →
    parse_members (S f) acc x =
    match expect 44 r' with
    | Some r4 => parse_members f (obj_set k v acc) r4
    | None => match expect 125 r' with
              | Some r4 => Some (obj_set k v acc, r4) | None => None end
    end) as Hstep.
  { intros x r' Hlen Hr' ->. unfold member in *. simpl fst in *. simpl snd in *.
    rewrite !length_app in Hlen. pose proof (length_quote k). simpl length in Hlen.
    rewrite <- !app_assoc. change (js ":" ++ ?y) with (58%N :: y).
    cbn [parse_members]. unfold quote. cbn [app]. rewrite expect_eq by done.
    rewrite <- app_assoc. cbn [app]. rewrite parse_str_quote_chars by done.
    rewrite expect_eq by done. rewrite Hv by (done || lia). done. }
  destruct o as [|kv o].
  - simpl map in *. simpl join in *. rewrite (Hstep _ (125%N :: r)) by done.
    by rewrite expect_ne, expect_eq.
  - change (map member ((k, v) :: kv :: o)) with
      (member (k, v) :: member kv :: map member o) in *.
    rewrite join_cons in *. rewrite !length_app in Hf.
    change (length (js ",")) with 1 in Hf.
    rewrite (Hstep _ (44%N :: join (js ",") (member kv :: map member o) ++ 125%N :: r));
      [|lia|done|by rewrite <- !app_assoc].
    rewrite expect_eq by done.
    by rewrite IH by (done || (change (member kv :: map member o) with (map member (kv :: o)) in *; lia)).
Qed.

Lemma stringify_arr l :
  JSON_stringify (JArr l) = 91%N :: join (js ",") (map JSON_stringify l) ++ [93%N].
Proof. done. Qed.

Lemma stringify_obj o :
  JSON_stringify (JObj o) = 123%N :: join (js ",") (map member o) ++ [125%N].
Proof. done. Qed.

Lemma json_wf_reads_back v : json_wf v → reads_back v.
Proof.
  induction v as [|b|n|s|l IH|o IH] using json_ind'; intros Hv f r Hf Hr;
    (destruct f as [|f]; [exfalso; destruct (stringify_head _ Hv) as (?&?&E&_);
       rewrite E in Hf; simpl in Hf; lia|]); inversion Hv; subst.
  - done.
  - by destruct b.
  - by apply parse_value_num.
  - cbn [JSON_stringify parse_value]. unfold quote. cbn [app].
    rewrite skip_json_ws_id by done. simpl. rewrite <- app_assoc. cbn [app].
    by rewrite parse_str_quote_chars.
  - rewrite stringify_arr in *. cbn [length] in Hf. rewrite length_app in Hf.
    cbn [length] in Hf. cbn [app]. rewrite <- app_assoc. cbn [app parse_value].
    rewrite skip_json_ws_id by done. cbn [N.eqb Pos.eqb].
    destruct l as [|v l]; [done|].
    match goal with H : Forall json_wf _ |- _ => rename H into Hall end.
    destruct (stringify_head v) as (c & t & Hc & Hw & Hne & _); [by inversion Hall|].
    assert (Forall reads_back (v :: l)) as Hrb.
    { rewrite Forall_forall in *. auto. }
    pose proof (parse_elems_spec (v :: l) f r ltac:(done) Hrb ltac:(lia)) as Hp.
    assert (∃ t', join (js ",") (map JSON_stringify (v :: l)) ++ 93%N :: r = c :: t')
      as [t' Ht'].
    { destruct l; cbn [map join]; rewrite Hc; eauto. }
    rewrite Ht' in *. rewrite expect_ne by done. by rewrite Hp.
  - rewrite stringify_obj in *. cbn [length] in Hf. rewrite length_app in Hf.
    cbn [length] in Hf. cbn [app]. rewrite <- app_assoc. cbn [app parse_value].
    rewrite skip_json_ws_id by done. cbn [N.eqb Pos.eqb].
    destruct o as [|kv o]; [done|].
    match goal with H : Forall (λ _, _ ∧ json_wf _) _ |- _ => rename H into Hall end.
    assert (Forall (λ kv, is_utf16 kv.1 ∧ reads_back kv.2) (kv :: o)) as Hrb.
    { rewrite Forall_forall in *. intros x Hx. destruct (Hall x Hx). auto. }
    pose proof (parse_members_spec (kv :: o) [] f r ltac:(done) Hrb ltac:(lia)) as Hp.
    assert (∃ t', join (js ",") (map member (kv :: o)) ++ 125%N :: r = DQ :: t')
      as [t' Ht'].
    { destruct o; cbn [map join]; unfold member, quote; eauto. }
    rewrite Ht' in *. rewrite expect_ne by done. rewrite Hp. by congruence.
Qed.

(** [JSON.parse(JSON.stringify(v))] is [v]. *)
Lemma JSON_roundtrip v : json_wf v → JSON_parse (JSON_stringify v) = Some v.
Proof.
  intros Hv. unfold JSON_parse. rewrite <- (app_nil_r (JSON_stringify v)) at 2.
  by rewrite (json_wf_reads_back v Hv) by (done || lia).
Qed.
