(* ===== verification/Base64.v ===== *)
(** * Bytes as text

    Base64 as the browser reads and writes it ([atob], [btoa]), the form for
    URLs that [lib/passkey.ts] puts on top of it, and what that file makes of
    the options of a server and of the answer of an authenticator.  A buffer
    is the list of its bytes. *)
From S2P Require Import Prelude JSString JSNumber JSON.
From Stdlib Require Import ZifyNat ZifyN.
Local Open Scope N_scope.

Module Base64.

(** ** [btoa] and [atob] *)

Definition b64_char (n : N) : jschar :=
  if n <? 26 then 65 + n else if n <? 52 then 71 + n else if n <? 62 then n - 4 else
  if n =? 62 then 43 else 47.

Definition b64_value (c : jschar) : option N :=
  if is_upper c then Some (c - 65) else if is_lower c then Some (c - 71) else
  if is_digit c then Some (c + 4) else if c =? 43 then Some 62 else if c =? 47 then Some 63 else None.

(** Three bytes are four groups of six bits; what is left over is filled with
    zeros and padded. *)
Fixpoint encode (bytes : list N) : jsstr :=
  match bytes with
  | a :: b :: c :: rest =>
      let n := a * 65536 + b * 256 + c in
      b64_char (n / 262144) :: b64_char (n / 4096 mod 64) :: b64_char (n / 64 mod 64) :: b64_char (n mod 64) :: encode rest
  | [a; b] =>
      let n := a * 65536 + b * 256 in
      [b64_char (n / 262144); b64_char (n / 4096 mod 64); b64_char (n / 64 mod 64); 61]
  | [a] =>
      let n := a * 65536 in
      [b64_char (n / 262144); b64_char (n / 4096 mod 64); 61; 61]
  | [] => []
  end.

(** Four groups are three bytes; of three groups the last two bits are
    discarded, of two groups the last four. *)
Fixpoint decode (groups : list N) : list N :=
  match groups with
  | a :: b :: c :: d :: rest =>
      let n := a * 262144 + b * 4096 + c * 64 + d in
      n / 65536 :: n / 256 mod 256 :: n mod 256 :: decode rest
  | [a; b; c] =>
      let n := a * 262144 + b * 4096 + c * 64 in [n / 65536; n / 256 mod 256]
  | [a; b] => [(a * 262144 + b * 4096) / 65536]
  | _ => []
  end.

(** [btoa(s)]; [None] when it throws on a character above 255. *)
Definition btoa (s : jsstr) : option jsstr :=
  if forallb (λ c, c <? 256) s then Some (encode s) else None.

Definition ascii_ws (c : jschar) : bool := bool_decide (c ∈ [9; 10; 12; 13; 32]).

(** One or two padding characters at the end go, when the length allows it. *)
Definition unpad (s : jsstr) : jsstr :=
  if (length s mod 4 =? 0)%nat then
    match reverse s with
    | 61 :: 61 :: r => reverse r
    | 61 :: r => reverse r
    | _ => s
    end
  else s.

(** [atob(s)]; [None] when it throws. *)
Definition atob (s : jsstr) : option jsstr :=
  let data := unpad (List.filter (λ c, negb (ascii_ws c)) s) in
  if (length data mod 4 =? 1)%nat then None else decode <$> mapM b64_value data.

(** ** The form for URLs *)

(** [s.replace(/x/g, y)] of two characters *)
Definition replace_char (x y : jschar) (s : jsstr) : jsstr := map (λ c, if c =? x then y else c) s.

(** [s.replace(/=+$/g, '')] *)
Fixpoint drop_eq (s : jsstr) : jsstr :=
  match s with c :: s' => if c =? 61 then drop_eq s' else s | [] => [] end.
Definition strip_eq (s : jsstr) : jsstr := reverse (drop_eq (reverse s)).

(** [''] and [undefined] are an empty buffer; [None] is an exception. *)
Definition base64UrlToArrayBuffer (value : option jsstr) : option (list N) :=
  match value with
  | None | Some [] => Some []
  | Some value =>
      let padding := repeat 61 ((4 - length value mod 4) mod 4)%nat in
      let base64 := replace_char 95 47 (replace_char 45 43 (value ++ padding)) in
      atob base64
  end.

(** The bytes are below 256, so that the encoder never throws. *)
Definition arrayBufferToBase64Url (buffer : option (list N)) : option jsstr :=
  match buffer with
  | None => Some []
  | Some bytes => (λ s, strip_eq (replace_char 47 95 (replace_char 43 45 s))) <$> btoa bytes
  end.

Example base64_samples :
  map (λ s, arrayBufferToBase64Url (Some (js s))) ["Man"; "Ma"; "M"; "sure.?>"; ""]%string =
  [Some (js "TWFu"); Some (js "TWE"); Some (js "TQ"); Some (js "c3VyZS4_Pg"); Some []] ∧
  map (λ s, base64UrlToArrayBuffer (Some (js s))) ["TWFu"; "TWE"; "TQ=="; "c3VyZS4_Pg"; "T"; "T!"; "T W F u"]%string =
  [Some (js "Man"); Some (js "Ma"); Some (js "M"); Some (js "sure.?>"); None; None; None].
Proof. by vm_compute. Qed.

(** ** The round trip *)

Ltac Zify.zify_post_hook ::= Z.to_euclidean_division_equations.

(** A fact about the numbers below [k], checked for each of them. *)
Lemma below (P : N → bool) (k : nat) :
  forallb P (map N.of_nat (seq 0 k)) = true → ∀ n, n < N.of_nat k → P n = true.
Proof.
  intros H n Hn. rewrite forallb_forall in H. apply H, list_elem_of_In, list_elem_of_fmap.
  exists (N.to_nat n). split; [lia|]. apply elem_of_seq. lia.
Qed.

Definition url_char (n : N) : jschar :=
  let c := b64_char n in let c := if c =? 43 then 45 else c in if c =? 47 then 95 else c.

Lemma b64_chars n : n < 64 →
  b64_value (b64_char n) = Some n ∧ ascii_ws (b64_char n) = false ∧ b64_char n ≠ 61 ∧ url_char n ≠ 61 ∧
  (let c := if url_char n =? 45 then 43 else url_char n in if c =? 95 then 47 else c) = b64_char n.
Proof.
  intros Hn. repeat rewrite <- (bool_decide_eq_true (_ ∧ _)).
  apply (bool_decide_eq_true_1 _). revert n Hn. refine (below (λ n, bool_decide _) 64 _). by vm_compute.
Qed.

(** The groups of the bytes and the number of padding characters. *)
Fixpoint groups (bytes : list N) : list N :=
  match bytes with
  | a :: b :: c :: rest =>
      let n := a * 65536 + b * 256 + c in n / 262144 :: n / 4096 mod 64 :: n / 64 mod 64 :: n mod 64 :: groups rest
  | [a; b] => let n := a * 65536 + b * 256 in [n / 262144; n / 4096 mod 64; n / 64 mod 64]
  | [a] => let n := a * 65536 in [n / 262144; n / 4096 mod 64]
  | [] => []
  end.
Fixpoint pads (bytes : list N) : nat :=
  match bytes with _ :: _ :: _ :: rest => pads rest | [_; _] => 1 | [_] => 2 | [] => 0 end.

Definition is_bytes (l : list N) : Prop := Forall (λ b, b < 256) l.

(** Three bytes at a time. *)
Lemma bytes_ind (P : list N → Prop) :
  P [] → (∀ a, a < 256 → P [a]) → (∀ a b, a < 256 → b < 256 → P [a; b]) →
  (∀ a b c l, a < 256 → b < 256 → c < 256 → P l → P (a :: b :: c :: l)) → ∀ l, is_bytes l → P l.
Proof.
  intros H0 H1 H2 H3. fix IH 1. intros [|a [|b [|c l]]] Hl; [done|..].
  - apply H1. by apply Forall_cons in Hl as [? _].
  - apply Forall_cons in Hl as [? Hl]. apply Forall_cons in Hl as [? _]. by apply H2.
  - apply Forall_cons in Hl as [? Hl]. apply Forall_cons in Hl as [? Hl]. apply Forall_cons in Hl as [? Hl].
    apply H3; [done..|]. by apply IH.
Qed.

Lemma encode_groups l : encode l = map b64_char (groups l) ++ repeat 61 (pads l).
Proof.
  assert (∀ n l, (length l <= n)%nat → encode l = map b64_char (groups l) ++ repeat 61 (pads l)) as H; [|by eapply H].
  clear l. intros n. induction n as [|n IH]; intros [|a [|b [|c l]]] Hl; try done; simpl in Hl; [lia|].
  cbn [encode groups pads map app]. do 4 f_equal. apply IH. lia.
Qed.

(** Four groups make up the number they were taken from. *)
Lemma four_groups n : n < 16777216 →
  n / 262144 < 64 ∧ n / 262144 * 262144 + n / 4096 mod 64 * 4096 + n / 64 mod 64 * 64 + n mod 64 = n.
Proof. intros H. split; lia. Qed.

Lemma three_bytes a b c : a < 256 → b < 256 → c < 256 →
  let n := a * 65536 + b * 256 + c in n < 16777216 ∧ n / 65536 = a ∧ n / 256 mod 256 = b ∧ n mod 256 = c.
Proof. intros Ha Hb Hc. split_and!; lia. Qed.

Lemma groups_spec l : is_bytes l →
  Forall (λ n, n < 64) (groups l) ∧ decode (groups l) = l ∧
  ((length (groups l) + pads l) mod 4 = 0 ∧ pads l < 3)%nat.
Proof.
  revert l. apply bytes_ind.
  - by repeat constructor.
  - intros a Ha. split_and!; [|cbn [groups decode]; f_equal|done|simpl]; repeat constructor; lia.
  - intros a b Ha Hb. split_and!; [repeat constructor; lia|cbn [groups decode]; repeat f_equal; lia|done|simpl; lia].
  - intros a b c l Ha Hb Hc (H1 & H2 & H3 & H4). cbn [groups decode pads length].
    destruct (three_bytes a b c Ha Hb Hc) as (Hn & E1 & E2 & E3).
    destruct (four_groups _ Hn) as [Hq En]. split_and!.
    + repeat (constructor; [first [exact Hq|by apply N.mod_lt]|]). done.
    + rewrite En, E1, E2, E3, H2. done.
    + clear -H3. lia.
    + done.
Qed.

Lemma map_url gs : Forall (λ n, n < 64) gs →
  replace_char 47 95 (replace_char 43 45 (map b64_char gs)) = map url_char gs ∧
  replace_char 95 47 (replace_char 45 43 (map url_char gs)) = map b64_char gs.
Proof.
  intros Hg. unfold replace_char. rewrite !map_map. split; apply map_ext_in; intros n Hn%list_elem_of_In; [done|].
  eapply Forall_forall in Hg; [|exact Hn]. destruct (b64_chars n Hg) as (_ & _ & _ & _ & E); exact E.
Qed.

Lemma drop_eq_repeat k s : drop_eq (repeat 61 k ++ s) = drop_eq s.
Proof. by induction k. Qed.

Lemma repeat_reverse {A} (x : A) k : reverse (repeat x k) = repeat x k.
Proof.
  induction k as [|k IH]; [done|]. cbn [repeat]. rewrite reverse_cons, IH. clear.
  induction k as [|k IH]; [done|]. cbn [repeat app]. by rewrite IH.
Qed.

Definition no_eq (s : jsstr) : Prop := Forall (λ c, c ≠ 61) s.

Lemma strip_padding s k : no_eq s → strip_eq (s ++ repeat 61 k) = s.
Proof.
  intros Hs. unfold strip_eq. rewrite reverse_app, repeat_reverse, drop_eq_repeat.
  assert (drop_eq (reverse s) = reverse s) as ->; [|apply reverse_involutive].
  destruct s as [|c s _] using rev_ind; [done|]. rewrite reverse_snoc. apply Forall_app in Hs as [_ Hc].
  apply Forall_cons in Hc as [Hc _]. cbn [drop_eq]. by rewrite (proj2 (N.eqb_neq c 61)).
Qed.

Lemma unpad_padding s k : no_eq s → (k < 3)%nat → ((length s + k) mod 4 = 0)%nat → unpad (s ++ repeat 61 k) = s.
Proof.
  intros Hs Hk Hl. unfold unpad. rewrite length_app, repeat_length, Hl. cbn [Nat.eqb].
  rewrite reverse_app, repeat_reverse.
  assert (∀ c r, reverse s = c :: r → c ≠ 61) as Hc.
  { intros c r E. eapply Forall_forall in Hs; [exact Hs|]. apply elem_of_reverse. rewrite E. by left. }
  destruct k as [|[|[|]]]; [..|lia]; cbn [repeat app]; rewrite ?app_nil_r.
  - destruct (reverse s) as [|c r] eqn:E; [done|]. pose proof (Hc c r eq_refl).
    repeat (case_match; try done).
  - destruct (reverse s) as [|c r] eqn:E.
    + by rewrite <- (reverse_involutive s), E.
    + pose proof (Hc c r eq_refl). rewrite <- (reverse_involutive s), E. repeat (case_match; try done).
  - by rewrite reverse_involutive.
Qed.

Lemma mapM_values gs : Forall (λ n, n < 64) gs → mapM b64_value (map b64_char gs) = Some gs.
Proof.
  intros Hg. apply mapM_Some. induction Hg as [|n gs Hn _ IH]; constructor; [|done]. by destruct (b64_chars n Hn) as (-> & _).
Qed.

Lemma char_facts gs : Forall (λ n, n < 64) gs → no_eq (map b64_char gs) ∧ no_eq (map url_char gs).
Proof.
  intros Hg. split; apply Forall_map; (eapply Forall_impl; [exact Hg|]); intros n Hn; by destruct (b64_chars n Hn) as (_ & _ & ? & ? & _).
Qed.

Lemma btoa_bytes l : is_bytes l → btoa l = Some (encode l).
Proof.
  intros Hl. unfold btoa. assert (forallb (λ c, c <? 256) l = true) as ->; [|done].
  apply forallb_forall. intros c Hc%list_elem_of_In. eapply Forall_forall in Hl; [|exact Hc]. by apply N.ltb_lt.
Qed.

(** What [atob] gives is bytes. *)
Lemma decode_bytes l : Forall (λ n, n < 64) l → is_bytes (decode l).
Proof.
  unfold is_bytes. revert l. fix IH 1. intros [|a [|b [|c [|d l]]]] Hl; cbn [decode];
    repeat match goal with H : Forall _ (_ :: _) |- _ => apply Forall_cons in H as [? ?] end;
    try (repeat constructor; lia).
  do 3 (constructor; [clear IH; lia|]). by apply IH.
Qed.

Lemma b64_value_bound c n : b64_value c = Some n → n < 64.
Proof.
  unfold b64_value, is_upper, is_lower, is_digit. intros H.
  repeat case_match; simplify_eq; bool_hyps; rewrite ?N.leb_le in *; lia.
Qed.

Lemma atob_bytes s l : atob s = Some l → is_bytes l.
Proof.
  unfold atob. destruct (_ =? 1)%nat; [done|]. intros (gs & Hg & ->)%fmap_Some. apply decode_bytes.
  apply mapM_Some in Hg. induction Hg as [|c n s' gs Hc _ IH]; constructor; [by eapply b64_value_bound|done].
Qed.

(** What the form for URLs is: the characters of the groups. *)
Lemma to_url l : is_bytes l → arrayBufferToBase64Url (Some l) = Some (map url_char (groups l)).
Proof.
  intros Hl. destruct (groups_spec l Hl) as (Hg & _). destruct (map_url _ Hg) as [E _].
  unfold arrayBufferToBase64Url. rewrite btoa_bytes by done.
  cbn [fmap option_fmap option_map]. f_equal. rewrite encode_groups. unfold replace_char in *.
  rewrite !map_app, E, !map_repeat. by apply strip_padding, char_facts.
Qed.

Lemma atob_padded gs k : Forall (λ n, n < 64) gs → (k < 3)%nat → ((length gs + k) mod 4 = 0)%nat →
  atob (map b64_char gs ++ repeat 61 k) = Some (decode gs).
Proof.
  intros Hg Hk Hl. unfold atob.
  assert (List.filter (λ c, negb (ascii_ws c)) (map b64_char gs ++ repeat 61 k) = map b64_char gs ++ repeat 61 k) as ->.
  { apply bfilter_all. intros c [Hc|Hc]%elem_of_app.
    - apply list_elem_of_fmap in Hc as (n & -> & Hn). eapply Forall_forall in Hg; [|exact Hn].
      by destruct (b64_chars n Hg) as (_ & -> & _).
    - apply list_elem_of_In, repeat_spec in Hc. by subst. }
  rewrite unpad_padding; [|by apply char_facts|done|by rewrite length_map].
  rewrite length_map. assert ((length gs mod 4 =? 1)%nat = false) as -> by (apply Nat.eqb_neq; lia).
  by rewrite mapM_values.
Qed.

(** [atob] gives back what [btoa] was given. *)
Lemma atob_encode l : is_bytes l → atob (encode l) = Some l.
Proof.
  intros Hl. destruct (groups_spec l Hl) as (Hg & Hd & Hm & Hp). rewrite encode_groups.
  by rewrite (atob_padded _ _ Hg Hp Hm), Hd.
Qed.

Lemma encode_ascii l : is_bytes l → Forall (λ c, c < 128) (encode l).
Proof.
  intros Hl. destruct (groups_spec l Hl) as (Hg & _). rewrite encode_groups. apply Forall_app. split.
  - apply Forall_map. eapply Forall_impl; [exact Hg|]. intros n Hn. apply N.ltb_lt. revert n Hn.
    refine (below (λ n, b64_char n <? 128) 64 _). by vm_compute.
  - apply Forall_forall. intros c Hc%list_elem_of_In%repeat_spec. by subst.
Qed.

Lemma from_url gs k : Forall (λ n, n < 64) gs → (k < 3)%nat → ((length gs + k) mod 4 = 0)%nat →
  base64UrlToArrayBuffer (Some (map url_char gs)) = Some (decode gs).
Proof.
  intros Hg Hk Hl. destruct gs as [|n gs]; [done|]. set (l := n :: gs) in *.
  unfold base64UrlToArrayBuffer. destruct (map_url _ Hg) as [_ E].
  change (match map url_char l with [] => _ | _ => ?x end) with x. cbv zeta. rewrite length_map.
  assert (((4 - length l mod 4) mod 4)%nat = k) as -> by lia.
  unfold replace_char in *. rewrite !map_app, E, !map_repeat. by apply atob_padded.
Qed.

(** The bytes of a credential survive the trip to the server and back:
    whatever they are, their text for URLs is never refused and reads back as
    the same bytes, so that two buffers never share a text. *)
Theorem base64url_roundtrip l :
  is_bytes l →
  ∃ s, arrayBufferToBase64Url (Some l) = Some s ∧ base64UrlToArrayBuffer (Some s) = Some l ∧
       Forall (λ c, is_word c || (c =? 45) = true) s.
Proof.
  intros Hl. exists (map url_char (groups l)). destruct (groups_spec l Hl) as (Hg & Hd & Hm & Hp).
  split_and!; [by apply to_url|rewrite <- Hd at 2; by eapply from_url|].
  apply Forall_map. eapply Forall_impl; [exact Hg|]. apply (below (λ n, is_word (url_char n) || (url_char n =? 45)) 64).
  by vm_compute.
Qed.

Lemma base64url_roundtrip_witness :
  is_bytes [255; 0; 62; 63] ∧
  ∃ s, arrayBufferToBase64Url (Some [255; 0; 62; 63]) = Some s ∧ base64UrlToArrayBuffer (Some s) = Some [255; 0; 62; 63].
Proof.
  assert (is_bytes [255; 0; 62; 63]) as H by (by repeat constructor).
  destruct (base64url_roundtrip _ H) as (s & H1 & H2 & _). split; [done|]. by exists s.
Defined.

End Base64.

Module Passkey.
Import Base64.

(** ** Options of the server *)

(** An object of the browser: what is passed on as it came, and buffers. *)
Inductive cred :=
  | CJson (v : json)
  | CBuffer (b : list N)
  | CObj (o : list (jsstr * cred))
  | CArr (l : list cred).

(** [base64UrlToArrayBuffer] of a property of any type: a text has its length,
    an array the number of its elements, other values none, so that nothing
    is padded. *)
Definition decode_text (text : jsstr) (padded : nat) : option (list N) :=
  atob (replace_char 95 47 (replace_char 45 43 (text ++ repeat 61 padded))).
Definition padding (n : nat) : nat := ((4 - n mod 4) mod 4)%nat.
Definition buffer_of (value : option json) : option (list N) :=
  match value with
  | None => Some []
  | Some v =>
      if negb (json_truthy v) then Some [] else
      match v with
      | JStr s => base64UrlToArrayBuffer (Some s)
      | JArr l => decode_text (json_to_string v) (padding (length l))
      | _ => decode_text (json_to_string v) 0
      end
  end.

(** [a ?? b], where [undefined] and [null] are no value *)
Definition or_else (a b : option json) : option json :=
  match a with None | Some JNull => b | _ => a end.

Definition payload_prop (payload : option json) (k : string) : option json :=
  v ← payload; json_prop v (js k).

Definition options_of (payload : option json) : option json :=
  let o := or_else (payload_prop payload "publicKey") (or_else (payload_prop payload "PublicKey")
    (or_else (payload_prop payload "response") (payload_prop payload "Response"))) in
  match o with Some v => if json_truthy v then Some v else None | None => None end.

(** [{ ...v }] of a property that may be missing *)
Definition cred_spread (v : option json) : obj cred :=
  map (λ kv, (kv.1, CJson kv.2)) (match v with Some v => spread v | None => [] end).

(** [{ ...item, id: base64UrlToArrayBuffer(item.id) }]; reading a property of
    [null] throws. *)
Definition with_id (item : json) : option cred :=
  match item with
  | JNull => None
  | _ => b ← buffer_of (json_prop item (js "id")); Some (CObj (obj_set (js "id") (CBuffer b) (cred_spread (Some item))))
  end.

Definition with_ids (list_ : option json) (k : string) (publicKey : obj cred) : option (obj cred) :=
  match list_ with
  | Some (JArr items) => l ← mapM with_id items; Some (obj_set (js k) (CArr l) publicKey)
  | _ => Some publicKey
  end.

(** [None] is an exception. *)
Definition prepareCredentialCreationOptions (payload : option json) : option (obj cred) :=
  options ← options_of payload;
  challenge ← buffer_of (json_prop options (js "challenge"));
  let user := json_prop options (js "user") in
  id ← buffer_of (u ← user; json_prop u (js "id"));
  let publicKey := obj_set (js "challenge") (CBuffer challenge) (cred_spread (Some options)) in
  let publicKey := obj_set (js "user") (CObj (obj_set (js "id") (CBuffer id) (cred_spread user))) publicKey in
  publicKey ← with_ids (json_prop options (js "excludeCredentials")) "excludeCredentials" publicKey;
  Some (if bool_decide (json_prop options (js "attestationFormats") = Some (JArr []))
        then obj_delete (js "attestationFormats") publicKey else publicKey).

Definition prepareCredentialRequestOptions (payload : option json) : option (obj cred) :=
  options ← options_of payload;
  challenge ← buffer_of (json_prop options (js "challenge"));
  let publicKey := obj_set (js "challenge") (CBuffer challenge) (cred_spread (Some options)) in
  with_ids (json_prop options (js "allowCredentials")) "allowCredentials" publicKey.

(** ** Answers of the authenticator *)

Record Attestation := mkAttestation {
  attestationObject : list N;
  at_clientDataJSON : list N;
  getTransports : option (list jsstr);
}.
Record Assertion := mkAssertion {
  authenticatorData : list N;
  as_clientDataJSON : list N;
  signature : list N;
  userHandle : option (list N);
}.
(** A credential with the answer of one of the two kinds. *)
Record Credential (R : Type) := mkCredential {
  c_id : jsstr;
  rawId : list N;
  c_type : jsstr;
  authenticatorAttachment : option jsstr;
  response : R;
  getClientExtensionResults : option json;
}.
Arguments mkCredential {R}.
Arguments c_id {R}.
Arguments rawId {R}.
Arguments c_type {R}.
Arguments authenticatorAttachment {R}.
Arguments response {R}.
Arguments getClientExtensionResults {R}.

Definition text_or_null (s : option jsstr) : json := match s with Some s => JStr s | None => JNull end.
Definition json_buffer (b : list N) : option json := JStr <$> arrayBufferToBase64Url (Some b).

(** What is sent has the properties [id], [rawId], [type],
    [authenticatorAttachment], [response] and [clientExtensionResults]; the
    last two are made here. *)
Definition result_of {R} (c : Credential R) (answer : option json) : option json :=
  raw ← json_buffer (rawId c);
  answer ← answer;
  Some (JObj [(js "id", JStr (c_id c)); (js "rawId", raw); (js "type", JStr (c_type c));
    (js "authenticatorAttachment", text_or_null (authenticatorAttachment c));
    (js "response", answer);
    (js "clientExtensionResults", opt_or (getClientExtensionResults c) (JObj []))]).

(** A member that is [undefined] is not sent. *)
Definition buildRegistrationResult (credential : option (Credential Attestation)) : option json :=
  match credential with
  | None => Some JNull
  | Some c =>
      let r := response c in
      result_of c (att ← json_buffer (attestationObject r); data ← json_buffer (at_clientDataJSON r);
        Some (JObj ([(js "attestationObject", att); (js "clientDataJSON", data)] ++
          match getTransports r with Some l => [(js "transports", JArr (map JStr l))] | None => [] end)))
  end.

Definition buildAssertionResult (credential : option (Credential Assertion)) : option json :=
  match credential with
  | None => Some JNull
  | Some c =>
      let r := response c in
      result_of c (auth ← json_buffer (authenticatorData r); data ← json_buffer (as_clientDataJSON r);
        sig ← json_buffer (signature r);
        user ← match userHandle r with Some b => json_buffer b | None => Some JNull end;
        Some (JObj [(js "authenticatorData", auth); (js "clientDataJSON", data); (js "signature", sig); (js "userHandle", user)]))
  end.

(** ** What the browser can do *)

Inductive Settled := Resolved (b : bool) | Rejected.

(** [PublicKeyCredential] with its two functions, where they are there. *)
Record Support := mkSupport {
  isConditionalMediationAvailable : option Settled;
  isUserVerifyingPlatformAuthenticatorAvailable : option Settled;
}.

Definition isPasskeySupported (window : option (option Support)) : bool :=
  match window with
  | None | Some None => false
  | Some (Some s) =>
      match isConditionalMediationAvailable s with
      | Some (Resolved true) => true
      | _ =>
          match isUserVerifyingPlatformAuthenticatorAvailable s with
          | Some (Resolved b) => b
          | Some Rejected => false
          | None => true
          end
      end
  end.

(** ** The bytes of the ceremonies *)

(** The property [k] of what is sent, read as a buffer. *)
Definition sent (v : json) (k : string) : option (list N) := buffer_of (json_prop v (js k)).

Lemma sent_buffer b v : is_bytes b → json_buffer b = Some v → buffer_of (Some v) = Some b.
Proof.
  intros Hb Hv. unfold json_buffer in Hv. rewrite to_url in Hv by done. injection Hv as <-.
  destruct (groups_spec b Hb) as (Hg & Hd & Hm & Hp). unfold buffer_of.
  destruct (map url_char (groups b)) as [|c s] eqn:E.
  - cbn. destruct (groups b) as [|g gs] eqn:Eg; [|done]. by rewrite <- Hd.
  - cbn [json_truthy nonempty negb]. rewrite <- E. rewrite (from_url _ _ Hg Hp Hm). by rewrite Hd.
Qed.

Lemma json_buffer_total b : is_bytes b → ∃ v, json_buffer b = Some v.
Proof. intros Hb. unfold json_buffer. rewrite to_url by done. by eexists. Qed.

(** The text of some bytes, as the server writes it. *)
Definition b64url_of (b : list N) (v : option json) : Prop :=
  is_bytes b ∧ ∃ s, arrayBufferToBase64Url (Some b) = Some s ∧ v = Some (JStr s).

Lemma b64url_buffer b v : b64url_of b v → buffer_of v = Some b.
Proof.
  intros (Hb & s & Hs & ->). apply sent_buffer; [done|]. unfold json_buffer. by rewrite Hs.
Qed.

Lemma cred_spread_get k o : obj_get k (cred_spread (Some (JObj o))) = CJson <$> obj_get k o.
Proof.
  unfold cred_spread. cbn [spread]. induction o as [|[k' v] o IH]; [done|]. cbn [map obj_get fst snd].
  by destruct (decide (k = k')).
Qed.

(** The credentials of a list, with the bytes of their ids. *)
Definition listed_as (bs : list (list N)) (items : list json) : Prop :=
  Forall2 (λ b item, ∃ o, item = JObj o ∧ b64url_of b (obj_get (js "id") o)) bs items.
Definition id_of (c : cred) : option (list N) :=
  match c with CObj o => match obj_get (js "id") o with Some (CBuffer b) => Some b | _ => None end | _ => None end.

Lemma with_ids_spec bs items k p :
  listed_as bs items →
  ∃ l, with_ids (Some (JArr items)) k p = Some (obj_set (js k) (CArr l) p) ∧ map id_of l = map Some bs.
Proof.
  intros H. assert (∃ l, mapM with_id items = Some l ∧ map id_of l = map Some bs) as (l & Hl & Hb).
  { induction H as [|b item bs items (o & -> & Ht) _ (l & IH1 & IH2)]; [by exists []|].
    eexists (_ :: l). cbn [mapM]. change (with_id (JObj o)) with
      (b ← buffer_of (obj_get (js "id") o); Some (CObj (obj_set (js "id") (CBuffer b) (cred_spread (Some (JObj o)))))).
    rewrite (b64url_buffer _ _ Ht). cbn [mbind option_bind]. rewrite IH1. cbn [mbind option_bind]. split; [done|].
    cbn [map id_of]. by rewrite obj_get_set_eq, IH2. }
  exists l. unfold with_ids. rewrite Hl. by split.
Qed.

(** The options of a registration as the browser gets them: the bytes behind
    the texts of the server, and everything else as it came. *)
Lemma creation_options_spec o u challenge user ids items :
  b64url_of challenge (obj_get (js "challenge") o) →
  obj_get (js "user") o = Some (JObj u) → b64url_of user (obj_get (js "id") u) →
  obj_get (js "excludeCredentials") o = Some (JArr items) → listed_as ids items →
  ∃ p, prepareCredentialCreationOptions (Some (JObj [(js "publicKey", JObj o)])) = Some p ∧
  obj_get (js "challenge") p = Some (CBuffer challenge) ∧
  (∃ u', obj_get (js "user") p = Some (CObj u') ∧ obj_get (js "id") u' = Some (CBuffer user) ∧
     ∀ k, k ≠ js "id" → obj_get k u' = CJson <$> obj_get k u) ∧
  (∃ l, obj_get (js "excludeCredentials") p = Some (CArr l) ∧ map id_of l = map Some ids) ∧
  (∀ k, k ∉ map js ["challenge"; "user"; "excludeCredentials"; "attestationFormats"]%string →
     obj_get k p = CJson <$> obj_get k o).
Proof.
  intros Hc Hu Hi Hx Hl. unfold prepareCredentialCreationOptions.
  change (options_of (Some (JObj [(js "publicKey", JObj o)]))) with (Some (JObj o)). cbn [mbind option_bind json_prop].
  rewrite (b64url_buffer _ _ Hc). cbn [mbind option_bind]. rewrite Hu. cbn [json_prop mbind option_bind].
  rewrite (b64url_buffer _ _ Hi). cbn [mbind option_bind]. rewrite Hx.
  match goal with |- context [with_ids _ _ ?q] => destruct (with_ids_spec ids items "excludeCredentials" q Hl) as (l & E & Hb) end.
  rewrite E. cbn [mbind option_bind]. eexists; split; [reflexivity|].
  match goal with |- context [bool_decide ?P] => generalize (bool_decide P) end. intros b.
  assert (∀ k q, k ≠ js "attestationFormats" →
    obj_get k (if b then obj_delete (js "attestationFormats") q else q : obj cred) = obj_get k q) as Hdel
    by (intros k q Hk; destruct b; [by apply obj_get_delete_ne|done]).
  split_and!.
  - by rewrite Hdel, 2!obj_get_set_ne, obj_get_set_eq by done.
  - eexists. rewrite Hdel, obj_get_set_ne, obj_get_set_eq by done. split; [reflexivity|].
    rewrite obj_get_set_eq. split; [done|]. intros k Hk. by rewrite obj_get_set_ne, cred_spread_get.
  - exists l. by rewrite Hdel, obj_get_set_eq.
  - intros k Hk. cbn [map] in Hk. rewrite !not_elem_of_cons in Hk. destruct Hk as (? & ? & ? & ? & _).
    by rewrite Hdel, 3!obj_get_set_ne, cred_spread_get by done.
Qed.

(** What is sent of an assertion holds the bytes that the authenticator
    gave: each of its buffers reads back as it was, the missing user handle
    as [null], and nothing is refused. *)
Theorem assertion_sent_spec (c : Credential Assertion) :
  let r := response c in
  is_bytes (rawId c) → is_bytes (authenticatorData r) → is_bytes (as_clientDataJSON r) → is_bytes (signature r) →
  (∀ b, userHandle r = Some b → is_bytes b) →
  ∃ v answer, buildAssertionResult (Some c) = Some v ∧ sent v "rawId" = Some (rawId c) ∧
    json_prop v (js "id") = Some (JStr (c_id c)) ∧ json_prop v (js "response") = Some answer ∧
    sent answer "authenticatorData" = Some (authenticatorData r) ∧
    sent answer "clientDataJSON" = Some (as_clientDataJSON r) ∧
    sent answer "signature" = Some (signature r) ∧
    match userHandle r with
    | Some b => sent answer "userHandle" = Some b
    | None => json_prop answer (js "userHandle") = Some JNull
    end.
Proof.
  intros r H1 H2 H3 H4 H5. unfold buildAssertionResult, result_of. fold r.
  destruct (json_buffer_total _ H1) as [v1 E1], (json_buffer_total _ H2) as [v2 E2],
    (json_buffer_total _ H3) as [v3 E3], (json_buffer_total _ H4) as [v4 E4].
  assert (∃ v5, match userHandle r with Some b => json_buffer b | None => Some JNull end = Some v5 ∧
    match userHandle r with Some b => buffer_of (Some v5) = Some b | None => v5 = JNull end) as (v5 & E5 & H5').
  { destruct (userHandle r) as [b|]; [|by exists JNull]. pose proof (H5 b eq_refl) as Hb.
    destruct (json_buffer_total b Hb) as [v E]. exists v. split; [done|by apply sent_buffer]. }
  rewrite E1, E2, E3, E4, E5. cbn [mbind option_bind]. eexists _, _. split; [reflexivity|].
  split_and!; [by apply sent_buffer|done|reflexivity|by apply sent_buffer..|].
  destruct (userHandle r); [exact H5'|by rewrite H5'].
Qed.

Definition sample_assertion : Credential Assertion :=
  mkCredential (js "abc") [1; 2; 250] (js "public-key") None (mkAssertion [0; 255] [123] [9; 9; 9; 9] None) None.

Lemma assertion_sent_spec_witness :
  is_bytes [1; 2; 250] ∧ ∃ v, buildAssertionResult (Some sample_assertion) = Some v ∧ sent v "rawId" = Some [1; 2; 250].
Proof.
  assert (is_bytes [1; 2; 250]) as H by (by repeat constructor). split; [done|].
  destruct (assertion_sent_spec sample_assertion H) as (v & a & Hv & Hr & _); [by repeat constructor..|discriminate|].
  by exists v.
Defined.

(** A text that is no base64, and options that are missing, are refused. *)
Example refused_options :
  prepareCredentialRequestOptions (Some (JObj [(js "publicKey", JObj [(js "challenge", JStr (js "a.b"))])])) = None ∧
  prepareCredentialRequestOptions (Some (JObj [(js "data", JObj [])])) = None ∧
  prepareCredentialRequestOptions None = None ∧
  (obj_get (js "challenge") <$> prepareCredentialRequestOptions (Some (JObj [(js "Response", JObj [(js "challenge", JStr (js "AP8"))])]))) =
  Some (Some (CBuffer [0; 255])).
Proof. by vm_compute. Qed.

End Passkey.
