(* ===== verification/Regex.v ===== *)
(** * Regular expressions

    The subset of ECMAScript regular expressions the source uses, matched by
    backtracking as ECMA-262 does: [matches] lists the ways a pattern can match
    from a state, in the order in which the engine tries them, so that the
    first one that lets the rest of the pattern match is the result.  Greedy
    quantifiers only; no quantifier of the source repeats a group whose text is
    read, so captures need not be reset.  The lemmas turn a match into an equation on strings. *)
From S2P Require Import Prelude JSString.

Inductive regex :=
  | REps
  | RChar (p : jschar → bool)
  | RSeq (r1 r2 : regex)
  | RAlt (r1 r2 : regex)
  | RStar (r : regex)
  | RCap (n : nat) (r : regex)   (* the group number n *)
  | RBack (n : nat)              (* \n *)
  | RStart                       (* ^ *)
  | REnd                         (* $, without the flag m *)
  | RWord                        (* \b *)
  | RNot (r : regex).            (* (?!r) *)

Declare Scope re_scope.
Delimit Scope re_scope with re.
Bind Scope re_scope with regex.
Infix "·" := RSeq (at level 51, right associativity) : re_scope.
Local Open Scope re_scope.

Fixpoint lit (s : jsstr) : regex :=
  match s with [] => REps | c :: s => RChar (λ x, (x =? c)%N) · lit s end.
Definition RPlus (r : regex) : regex := r · RStar r.
Definition ROpt (r : regex) : regex := RAlt r REps.
(** The alternatives, tried from left to right. *)
Fixpoint ralts (l : list jsstr) : regex :=
  match l with
  | [] => RChar (λ _, false)
  | [s] => lit s
  | s :: l => RAlt (lit s) (ralts l)
  end.

(** Classes: [\s], [\d], a dot without the flag s, a negated character. *)
Definition ws_star : regex := RStar (RChar is_ws).
Definition any_char (_ : jschar) : bool := true.
Definition dot_char (c : jschar) : bool :=
  negb ((c =? 10) || (c =? 13) || (c =? 8232) || (c =? 8233))%N.
Definition not_char (d c : jschar) : bool := negb (c =? d)%N.

(** The text behind the current place (last character first), the text ahead
    and the groups captured so far. *)
Record St := mkSt { pre : jsstr; rest : jsstr; caps : gmap nat jsstr }.

Definition advance (w : jsstr) (st : St) : St :=
  mkSt (reverse w ++ pre st) (drop (length w) (rest st)) (caps st).

Definition is_boundary (st : St) : bool :=
  let word s := match s with c :: _ => is_word c | [] => false end in
  xorb (word (pre st)) (word (rest st)).

(** The repetition: one more turn if it moves forward, else the end; [fuel]
    is the length of the text ahead. *)
Fixpoint star (f : St → list St) (fuel : nat) (st : St) : list St :=
  match fuel with
  | O => [st]
  | S fuel =>
      concat (map (λ st', if length (rest st') <? length (rest st) then star f fuel st' else [])
        (f st)) ++ [st]
  end.

Fixpoint matches (r : regex) (st : St) : list St :=
  match r with
  | REps => [st]
  | RChar p => match rest st with c :: _ => if p c then [advance [c] st] else [] | [] => [] end
  | RSeq r1 r2 => concat (map (matches r2) (matches r1 st))
  | RAlt r1 r2 => matches r1 st ++ matches r2 st
  | RStar r => star (matches r) (length (rest st)) st
  | RCap n r =>
      map (λ st', mkSt (pre st') (rest st')
             (<[n := take (length (rest st) - length (rest st')) (rest st)]> (caps st')))
        (matches r st)
  | RBack n =>
      match caps st !! n with
      | None => [st]
      | Some w => if starts_with w (rest st) then [advance w st] else []
      end
  | RStart => match pre st with [] => [st] | _ => [] end
  | REnd => match rest st with [] => [st] | _ => [] end
  | RWord => if is_boundary st then [st] else []
  | RNot r => match matches r st with [] => [st] | _ => [] end
  end.

(** [exec] from a place on: the text before the match and the match. *)
Fixpoint exec_from (r : regex) (pre rest : jsstr) : option (jsstr * St) :=
  match matches r (mkSt pre rest ∅) with
  | st :: _ => Some (pre, st)
  | [] => match rest with [] => None | c :: rest => exec_from r (c :: pre) rest end
  end.

(** [s.match(r)] and [r.test(s)] without the flag g. *)
Definition re_match (r : regex) (s : jsstr) : option (gmap nat jsstr) :=
  caps ∘ snd <$> exec_from r [] s.
Definition re_test (r : regex) (s : jsstr) : bool :=
  match re_match r s with Some _ => true | None => false end.

(** The loop over [exec] with the flag g, for patterns that never match the
    empty text; [fuel] bounds the number of matches. *)
Fixpoint exec_all (fuel : nat) (r : regex) (pre_ rest_ : jsstr) : list (jsstr * St) :=
  match fuel with
  | O => []
  | S fuel =>
      match exec_from r pre_ rest_ with
      | None => []
      | Some (before, st) => (before, st) :: exec_all fuel r (pre st) (rest st)
      end
  end.
Definition re_all (r : regex) (s : jsstr) : list (gmap nat jsstr) :=
  map (caps ∘ snd) (exec_all (S (length s)) r [] s).

(** [s.split(r)]: the texts between the matches; [from] is what lies before
    the current piece. *)
Fixpoint pieces (s : jsstr) (from : nat) (ms : list (jsstr * St)) : list jsstr :=
  match ms with
  | [] => [drop from s]
  | (before, st) :: ms => slice from (length before) s :: pieces s (length (pre st)) ms
  end.
Definition re_split (r : regex) (s : jsstr) : list jsstr :=
  pieces s 0 (exec_all (S (length s)) r [] s).

(** Group [n], the empty text where it did not take part. *)
Definition group (n : nat) (m : gmap nat jsstr) : jsstr := opt_or (m !! n) [].

(** ** Matches as equations *)

Lemma advance_nil st : advance [] st = st.
Proof. by destruct st. Qed.

Lemma advance_app w1 w2 st : advance w2 (advance w1 st) = advance (w1 ++ w2) st.
Proof. unfold advance. simpl. by rewrite drop_drop, length_app, reverse_app, app_assoc. Qed.

Lemma advance_cons c w st : advance w (advance [c] st) = advance (c :: w) st.
Proof. apply (advance_app [c] w). Qed.

Lemma rest_advance w t st : rest st = w ++ t → rest (advance w st) = t.
Proof. intros E. unfold advance. simpl. by rewrite E, drop_app_length. Qed.

Lemma elem_of_seq r1 r2 st st' :
  st' ∈ matches (r1 · r2) st ↔ ∃ st1, st1 ∈ matches r1 st ∧ st' ∈ matches r2 st1.
Proof.
  cbn [matches]. rewrite elem_of_concat. split.
  - intros (l & (st1 & -> & H1)%list_elem_of_fmap & H2). eauto.
  - intros (st1 & H1 & H2). eexists. split; [apply list_elem_of_fmap; eauto|done].
Qed.

Lemma elem_of_alt r1 r2 st st' :
  st' ∈ matches (RAlt r1 r2) st ↔ st' ∈ matches r1 st ∨ st' ∈ matches r2 st.
Proof. cbn [matches]. apply elem_of_app. Qed.

Lemma elem_of_char p st st' :
  st' ∈ matches (RChar p) st ↔ ∃ c t, rest st = c :: t ∧ p c = true ∧ st' = advance [c] st.
Proof.
  cbn [matches]. destruct (rest st) as [|c t].
  { split; [by intros ?%not_elem_of_nil|naive_solver]. }
  destruct (p c) eqn:Ep.
  - rewrite list_elem_of_singleton. split; [intros ->; by eexists _, _|].
    by intros (? & ? & [= <- <-] & _ & ->).
  - split; [by intros ?%not_elem_of_nil|]. intros (? & ? & [= <- <-] & Hp & _). congruence.
Qed.

Lemma elem_of_eps st st' : st' ∈ matches REps st ↔ st' = st.
Proof. cbn [matches]. apply list_elem_of_singleton. Qed.

Lemma elem_of_start st st' : st' ∈ matches RStart st ↔ pre st = [] ∧ st' = st.
Proof.
  cbn [matches]. destruct (pre st); [rewrite list_elem_of_singleton; naive_solver|].
  split; [by intros ?%not_elem_of_nil|by intros []].
Qed.

Lemma elem_of_end st st' : st' ∈ matches REnd st ↔ rest st = [] ∧ st' = st.
Proof.
  cbn [matches]. destruct (rest st); [rewrite list_elem_of_singleton; naive_solver|].
  split; [by intros ?%not_elem_of_nil|by intros []].
Qed.

Lemma elem_of_not r st st' : st' ∈ matches (RNot r) st ↔ (∀ x, x ∉ matches r st) ∧ st' = st.
Proof.
  cbn [matches]. destruct (matches r st) as [|y l].
  - rewrite list_elem_of_singleton. split; [|by intros [_ ->]]. intros ->. split; [|done].
    intros x. apply not_elem_of_nil.
  - split; [by intros ?%not_elem_of_nil|]. intros [Hn _]. destruct (Hn y). by apply elem_of_cons; left.
Qed.

Lemma elem_of_lit w st st' :
  st' ∈ matches (lit w) st ↔ ∃ t, rest st = w ++ t ∧ st' = advance w st.
Proof.
  revert st. induction w as [|c w IH]; intros st; cbn [lit].
  { rewrite elem_of_eps, advance_nil. naive_solver. }
  rewrite elem_of_seq. setoid_rewrite elem_of_char. setoid_rewrite IH. split.
  - intros (st1 & (x & t & E & Hx%N.eqb_eq & ->) & t' & E' & ->). subst x.
    rewrite (rest_advance [c] t) in E' by done. subst t. exists t'. rewrite advance_cons. done.
  - intros (t & E & ->). exists (advance [c] st). split.
    + exists c, (w ++ t). rewrite N.eqb_refl. done.
    + exists t. rewrite (rest_advance [c] (w ++ t)), advance_cons by done. done.
Qed.

Lemma elem_of_ralts l st st' :
  st' ∈ matches (ralts l) st ↔ ∃ w, w ∈ l ∧ st' ∈ matches (lit w) st.
Proof.
  induction l as [|s [|s' l] IH].
  - cbn [ralts]. rewrite elem_of_char. split; [naive_solver|]. intros (w & Hw%not_elem_of_nil & _). done.
  - cbn [ralts]. setoid_rewrite list_elem_of_singleton. naive_solver.
  - change (ralts (s :: s' :: l)) with (RAlt (lit s) (ralts (s' :: l))).
    rewrite elem_of_alt, IH. setoid_rewrite (elem_of_cons (s' :: l)). naive_solver.
Qed.

(** A repeated class stops anywhere in the run of its characters. *)
Lemma elem_of_star_class p st st' :
  st' ∈ matches (RStar (RChar p)) st ↔
  ∃ w t, rest st = w ++ t ∧ Forall (λ c, p c = true) w ∧ st' = advance w st.
Proof.
  cbn [matches]. remember (length (rest st)) as n eqn:En. assert (length (rest st) ≤ n) as Hn by lia.
  clear En. revert st Hn. induction n as [|n IH]; intros st Hn; cbn [star].
  { destruct (rest st) as [|c t] eqn:E; [|simpl in Hn; lia]. rewrite list_elem_of_singleton. split.
    - intros ->. exists [], []. rewrite advance_nil. split_and!; [done|constructor|done].
    - intros (w & t & Ew & _ & ->). symmetry in Ew. apply app_eq_nil in Ew as [-> _]. apply advance_nil. }
  rewrite elem_of_app, list_elem_of_singleton, elem_of_concat. split.
  - intros [(l & (st1 & -> & H1)%list_elem_of_fmap & H2)| ->].
    + change (match rest st with c :: _ => if p c then [advance [c] st] else [] | [] => [] end)
        with (matches (RChar p) st) in H1.
      apply elem_of_char in H1 as (c & t & E & Hc & ->).
      destruct (_ <? _) eqn:El; [|by apply not_elem_of_nil in H2].
      apply IH in H2 as (w & t' & Ew & Hw & ->).
      * rewrite (rest_advance [c] t) in Ew by done. exists (c :: w), t'. rewrite E, Ew.
        split_and!; [done|by constructor|by rewrite advance_cons].
      * apply Nat.ltb_lt in El. lia.
    + exists [], (rest st). rewrite advance_nil. split_and!; [done|constructor|done].
  - intros (w & t & E & Hw & ->). destruct w as [|c w]; [right; apply advance_nil|left].
    apply Forall_cons in Hw as [Hc Hw].
    eexists. split; [apply list_elem_of_fmap; exists (advance [c] st); split; [reflexivity|]|].
    + rewrite E. simpl. rewrite Hc. by apply list_elem_of_singleton.
    + assert (rest (advance [c] st) = w ++ t) as Er by (by apply rest_advance).
      rewrite Er, E. rewrite (proj2 (Nat.ltb_lt _ _)) by (simpl; rewrite !length_app; lia).
      apply IH; [rewrite Er; rewrite E in Hn; simpl in Hn; lia|].
      exists w, t. rewrite Er, advance_cons. done.
Qed.

(** A match takes a prefix of the text ahead. *)
Lemma matches_consume r st st' :
  st' ∈ matches r st → ∃ w, rest st = w ++ rest st' ∧ pre st' = reverse w ++ pre st.
Proof.
  revert st st'. induction r as [|p|r1 IH1 r2 IH2|r1 IH1 r2 IH2|r IH|n r IH|n| | | |r IH];
    intros st st' H.
  - apply elem_of_eps in H as ->. by exists [].
  - apply elem_of_char in H as (c & t & E & _ & ->). exists [c]. by rewrite (rest_advance [c] t).
  - apply elem_of_seq in H as (st1 & (w1 & E1 & P1)%IH1 & (w2 & E2 & P2)%IH2).
    exists (w1 ++ w2). rewrite E1, E2, P2, P1, reverse_app, <- !app_assoc. done.
  - apply elem_of_alt in H as [H|H]; eauto.
  - cbn [matches] in H. revert st H.
    enough (∀ n st, st' ∈ star (matches r) n st →
      ∃ w, rest st = w ++ rest st' ∧ pre st' = reverse w ++ pre st) as Hn by (intros st; apply Hn).
    induction n as [|n IHn]; intros st; cbn [star].
    { intros ->%list_elem_of_singleton. by exists []. }
    rewrite elem_of_app, list_elem_of_singleton, elem_of_concat.
    intros [(l & (st1 & -> & (w1 & E1 & P1)%IH)%list_elem_of_fmap & H2)| ->]; [|by exists []].
    destruct (_ <? _); [|by apply not_elem_of_nil in H2].
    apply IHn in H2 as (w2 & E2 & P2). exists (w1 ++ w2).
    rewrite E1, E2, P2, P1, reverse_app, <- !app_assoc. done.
  - cbn [matches] in H. apply list_elem_of_fmap in H as (st1 & -> & H1). by apply IH in H1.
  - cbn [matches] in H. destruct (caps st !! n) as [w|]; [|apply list_elem_of_singleton in H as ->; by exists []].
    destruct (starts_with w (rest st)) eqn:E; [|by apply not_elem_of_nil in H].
    apply list_elem_of_singleton in H as ->. apply starts_with_spec in E as [t E].
    exists w. by rewrite (rest_advance w t).
  - apply elem_of_start in H as [_ ->]. by exists [].
  - apply elem_of_end in H as [_ ->]. by exists [].
  - cbn [matches] in H. destruct (is_boundary st); [|by apply not_elem_of_nil in H].
    apply list_elem_of_singleton in H as ->. by exists [].
  - apply elem_of_not in H as [_ ->]. by exists [].
Qed.

(** The characters a pattern can take. *)
Fixpoint alphabet (P : jschar → Prop) (r : regex) : Prop :=
  match r with
  | RChar p => ∀ c, p c = true → P c
  | RSeq r1 r2 | RAlt r1 r2 => alphabet P r1 ∧ alphabet P r2
  | RStar r | RCap _ r => alphabet P r
  | RBack _ => False
  | REps | RStart | REnd | RWord | RNot _ => True
  end.

Lemma alphabet_lit P w : Forall P w → alphabet P (lit w).
Proof. induction 1; simpl; [done|]. split; [by intros ? ->%N.eqb_eq|done]. Qed.

Lemma alphabet_ralts P l : Forall (Forall P) l → alphabet P (ralts l).
Proof.
  induction 1 as [|w [|w' l] Hw Hl IH]; [done|by apply alphabet_lit|].
  split; [by apply alphabet_lit|exact IH].
Qed.

Lemma matches_alphabet P r st st' :
  alphabet P r → st' ∈ matches r st → ∃ w, rest st = w ++ rest st' ∧ Forall P w.
Proof.
  revert st st'. induction r as [|p|r1 IH1 r2 IH2|r1 IH1 r2 IH2|r IH|n r IH|n| | | |r IH];
    intros st st' HP H.
  - apply elem_of_eps in H as ->. by exists [].
  - apply elem_of_char in H as (c & t & E & Hc & ->). exists [c].
    rewrite (rest_advance [c] t) by done. split; [done|]. constructor; [by apply HP|done].
  - destruct HP as [HP1 HP2].
    apply elem_of_seq in H as (st1 & (w1 & E1 & F1)%IH1 & (w2 & E2 & F2)%IH2); [|done..].
    exists (w1 ++ w2). rewrite E1, E2, <- !app_assoc. split; [done|]. by apply Forall_app.
  - destruct HP as [HP1 HP2]. apply elem_of_alt in H as [H|H]; eauto.
  - cbn [matches] in H. revert st H.
    enough (∀ n st, st' ∈ star (matches r) n st → ∃ w, rest st = w ++ rest st' ∧ Forall P w) as Hn
      by (intros st; apply Hn).
    induction n as [|n IHn]; intros st; cbn [star].
    { intros ->%list_elem_of_singleton. by exists []. }
    rewrite elem_of_app, list_elem_of_singleton, elem_of_concat.
    intros [(l & (st1 & -> & H1)%list_elem_of_fmap & H2)| ->]; [|by exists []].
    apply IH in H1 as (w1 & E1 & F1); [|done].
    destruct (_ <? _); [|by apply not_elem_of_nil in H2].
    apply IHn in H2 as (w2 & E2 & F2). exists (w1 ++ w2).
    rewrite E1, E2, <- !app_assoc. split; [done|]. by apply Forall_app.
  - cbn [matches] in H. apply list_elem_of_fmap in H as (st1 & -> & H1). by apply IH in H1.
  - destruct HP.
  - apply elem_of_start in H as [_ ->]. by exists [].
  - apply elem_of_end in H as [_ ->]. by exists [].
  - cbn [matches] in H. destruct (is_boundary st); [|by apply not_elem_of_nil in H].
    apply list_elem_of_singleton in H as ->. by exists [].
  - apply elem_of_not in H as [_ ->]. by exists [].
Qed.

Lemma elem_of_cap n r p s m x :
  x ∈ matches (RCap n r) (mkSt p s m) ↔
  ∃ p' t m' w, mkSt p' t m' ∈ matches r (mkSt p s m) ∧ s = w ++ t ∧ x = mkSt p' t (<[n := w]> m').
Proof.
  cbn [matches]. rewrite list_elem_of_fmap. split.
  - intros ([p' t m'] & -> & H). destruct (matches_consume _ _ _ H) as (w & E & _). simpl in *.
    exists p', t, m', w. split_and!; [done|done|]. subst s. do 2 f_equal.
    rewrite length_app. replace (length w + length t - length t) with (length w) by lia.
    by rewrite take_app_length.
  - intros (p' & t & m' & w & H & -> & ->). exists (mkSt p' t m'). split; [|done]. simpl. do 2 f_equal.
    rewrite length_app. replace (length w + length t - length t) with (length w) by lia.
    by rewrite take_app_length.
Qed.

Lemma elem_of_back n w p s m x :
  m !! n = Some w →
  x ∈ matches (RBack n) (mkSt p s m) ↔ ∃ t, s = w ++ t ∧ x = mkSt (reverse w ++ p) t m.
Proof.
  intros Hm. cbn [matches caps rest]. rewrite Hm. destruct (starts_with w s) eqn:E.
  - rewrite list_elem_of_singleton. apply starts_with_spec in E as [t ->]. split.
    + intros ->. exists t. unfold advance. cbn [pre rest caps]. by rewrite drop_app_length.
    + intros (t' & E & ->). apply app_inv_head in E as <-. unfold advance. cbn [pre rest caps].
      by rewrite drop_app_length.
  - split; [by intros ?%not_elem_of_nil|]. intros (t & -> & _). by rewrite starts_with_app in E.
Qed.

(** The same for states written out. *)
Lemma in_lit w p s m x :
  x ∈ matches (lit w) (mkSt p s m) ↔ ∃ t, s = w ++ t ∧ x = mkSt (reverse w ++ p) t m.
Proof.
  rewrite elem_of_lit. cbn [rest]. split; intros (t & -> & ->); exists t; unfold advance;
    cbn [pre rest caps]; by rewrite drop_app_length.
Qed.

Lemma in_ralts l p s m x :
  x ∈ matches (ralts l) (mkSt p s m) ↔
  ∃ w t, w ∈ l ∧ s = w ++ t ∧ x = mkSt (reverse w ++ p) t m.
Proof. rewrite elem_of_ralts. setoid_rewrite in_lit. naive_solver. Qed.

Lemma in_star q p s m x :
  x ∈ matches (RStar (RChar q)) (mkSt p s m) ↔
  ∃ w t, s = w ++ t ∧ Forall (λ c, q c = true) w ∧ x = mkSt (reverse w ++ p) t m.
Proof.
  rewrite elem_of_star_class. cbn [rest].
  split; intros (w & t & -> & Hw & ->); exists w, t; unfold advance; cbn [pre rest caps];
    by rewrite drop_app_length.
Qed.

Lemma in_plus q p s m x :
  x ∈ matches (RPlus (RChar q)) (mkSt p s m) ↔
  ∃ w t, s = w ++ t ∧ w ≠ [] ∧ Forall (λ c, q c = true) w ∧ x = mkSt (reverse w ++ p) t m.
Proof.
  unfold RPlus. rewrite elem_of_seq. split.
  - intros ([p1 s1 m1] & (c & t & E & Hc & Ex)%elem_of_char & Hx). unfold advance in Ex. simpl in *.
    subst s. simpl in Ex. rewrite drop_0 in Ex. injection Ex as -> -> ->.
    apply in_star in Hx as (w & t' & -> & Hw & ->). exists (c :: w), t'.
    split_and!; [done|done|by constructor|]. by rewrite reverse_cons, <- app_assoc.
  - intros ([|c w] & t & -> & Hne & Hw & ->); [done|]. apply Forall_cons in Hw as [Hc Hw].
    exists (mkSt (reverse [c] ++ p) (w ++ t) m). split.
    + apply elem_of_char. exists c, (w ++ t). split_and!; [done|done|].
      unfold advance. cbn [pre rest caps length app drop]. by rewrite drop_0.
    + apply in_star. exists w, t. by rewrite reverse_cons, <- app_assoc.
Qed.

Lemma in_cap_plus n q p s m x :
  x ∈ matches (RCap n (RPlus (RChar q))) (mkSt p s m) ↔
  ∃ w t, s = w ++ t ∧ w ≠ [] ∧ Forall (λ c, q c = true) w ∧
    x = mkSt (reverse w ++ p) t (<[n := w]> m).
Proof.
  rewrite elem_of_cap. setoid_rewrite in_plus. split.
  - intros (p' & t & m' & w & (w' & t' & E & Hne & Hw & [= -> -> ->]) & -> & ->).
    apply app_inv_tail in E as ->. eauto 10.
  - intros (w & t & -> & Hne & Hw & ->). eexists _, _, _, w. split; [|done]. by exists w, t.
Qed.

Lemma in_cap_star n q p s m x :
  x ∈ matches (RCap n (RStar (RChar q))) (mkSt p s m) ↔
  ∃ w t, s = w ++ t ∧ Forall (λ c, q c = true) w ∧
    x = mkSt (reverse w ++ p) t (<[n := w]> m).
Proof.
  rewrite elem_of_cap. setoid_rewrite in_star. split.
  - intros (p' & t & m' & w & (w' & t' & E & Hw & [= -> -> ->]) & -> & ->).
    apply app_inv_tail in E as ->. eauto 10.
  - intros (w & t & -> & Hw & ->). eexists _, _, _, w. split; [|done]. by exists w, t.
Qed.

Lemma in_cap_ralts n l p s m x :
  x ∈ matches (RCap n (ralts l)) (mkSt p s m) ↔
  ∃ w t, w ∈ l ∧ s = w ++ t ∧ x = mkSt (reverse w ++ p) t (<[n := w]> m).
Proof.
  rewrite elem_of_cap. setoid_rewrite in_ralts. split.
  - intros (p' & t & m' & w & (w' & t' & Hw & E & [= -> -> ->]) & -> & ->).
    apply app_inv_tail in E as ->. eauto 10.
  - intros (w & t & Hw & -> & ->). eexists _, _, _, w. split; [|done]. by exists w, t.
Qed.

Lemma in_end p s m x : x ∈ matches REnd (mkSt p s m) ↔ s = [] ∧ x = mkSt p [] m.
Proof. rewrite elem_of_end. cbn [rest]. naive_solver. Qed.

(** More fuel than characters ahead changes nothing. *)
Lemma star_fuel r n n' st :
  length (rest st) ≤ n → n ≤ n' → star (matches r) n' st = star (matches r) n st.
Proof.
  revert n' st. induction n as [|n IH]; intros n' st Hn Hn'.
  { destruct n' as [|n']; [done|]. cbn [star]. symmetry. rewrite <- (app_nil_l [st]) at 1. f_equal.
    symmetry. induction (matches r st) as [|x l IHl]; [done|]. cbn [map concat]. rewrite IHl.
    destruct (_ <? _) eqn:E; [|done]. apply Nat.ltb_lt in E. lia. }
  destruct n' as [|n']; [lia|]. cbn [star]. f_equal. f_equal. apply map_ext. intros x.
  destruct (_ <? _) eqn:E; [|done]. apply Nat.ltb_lt in E. apply IH; lia.
Qed.

Lemma in_star_end r st : st ∈ matches (RStar r) st.
Proof. cbn [matches]. destruct (length (rest st)); cbn [star]; set_solver. Qed.

Lemma in_star_step r st st1 st2 :
  st1 ∈ matches r st → length (rest st1) < length (rest st) →
  st2 ∈ matches (RStar r) st1 → st2 ∈ matches (RStar r) st.
Proof.
  intros H1 Hl H2. cbn [matches] in *. destruct (length (rest st)) as [|n] eqn:En; [lia|].
  cbn [star]. apply elem_of_app. left. apply elem_of_concat. eexists. split.
  - apply list_elem_of_fmap. exists st1. split; [reflexivity|done].
  - rewrite En, (proj2 (Nat.ltb_lt _ _)) by done. by rewrite (star_fuel r (length (rest st1))) by lia.
Qed.

(** ** Anchored patterns *)

Lemma exec_from_anchored r p s : p ≠ [] → exec_from (RStart · r) p s = None.
Proof.
  revert p. induction s as [|c s IH]; intros p Hp; cbn [exec_from matches pre];
    destruct p; try done. cbn [map concat]. by apply IH.
Qed.

Lemma matches_start r s : matches (RStart · r) (mkSt [] s ∅) = matches r (mkSt [] s ∅).
Proof. cbn [matches pre map concat]. apply app_nil_r. Qed.

Lemma re_match_Some r s m :
  (∃ x, x ∈ matches r (mkSt [] s ∅)) → (∀ x, x ∈ matches r (mkSt [] s ∅) → caps x = m) →
  re_match (RStart · r) s = Some m.
Proof.
  intros [x Hx] Hu. unfold re_match. destruct s; cbn [exec_from]; rewrite matches_start.
  all: destruct (matches r _) as [|y l]; [by apply not_elem_of_nil in Hx|].
  all: simpl; rewrite (Hu y); [done|]; by apply elem_of_cons; left.
Qed.

Lemma re_match_None r s :
  (∀ x, x ∉ matches r (mkSt [] s ∅)) → re_match (RStart · r) s = None.
Proof.
  intros Hn. unfold re_match.
  assert (matches (RStart · r) (mkSt [] s ∅) = []) as E.
  { rewrite matches_start. destruct (matches r _) as [|y l]; [done|].
    destruct (Hn y). by apply elem_of_cons; left. }
  destruct s as [|c s]; cbn [exec_from]; rewrite E; [done|]. by rewrite exec_from_anchored.
Qed.

Lemma exec_from_Some r p s b st :
  exec_from (RStart · r) p s = Some (b, st) → p = [] ∧ st ∈ matches r (mkSt p s ∅).
Proof.
  destruct p as [|c p]; [|by rewrite exec_from_anchored].
  destruct s as [|c s]; cbn [exec_from]; rewrite matches_start;
    destruct (matches r _) as [|y l]; intros H; simplify_eq; try done.
  - split; [done|by apply elem_of_cons; left].
  - by rewrite exec_from_anchored in H.
  - split; [done|by apply elem_of_cons; left].
Qed.

Lemma re_match_inv r s m :
  re_match (RStart · r) s = Some m → ∃ x, x ∈ matches r (mkSt [] s ∅) ∧ caps x = m.
Proof.
  unfold re_match. destruct (exec_from (RStart · r) [] s) as [[b st]|] eqn:E; [|done].
  intros [= <-]. apply exec_from_Some in E as [_ E]. eauto.
Qed.

(** A pattern each alternative of which begins with an anchor. *)
Lemma re_test_anchored r s :
  (∀ p t, p ≠ [] → matches r (mkSt p t ∅) = []) →
  re_test r s = true ↔ ∃ x, x ∈ matches r (mkSt [] s ∅).
Proof.
  intros Ha. assert (∀ t p, p ≠ [] → exec_from r p t = None) as Hn.
  { intros t. induction t as [|c t IH]; intros p Hp; cbn [exec_from]; rewrite Ha by done; [done|].
    by apply IH. }
  unfold re_test, re_match. destruct s as [|c s]; cbn [exec_from];
    destruct (matches r _) as [|y l]; rewrite ?Hn by done; simpl.
  1, 3: split; [done|by intros [x ?%not_elem_of_nil]].
  all: split; [intros _; exists y; by left|done].
Qed.

(** A text that matches a pattern up to its end. *)
Lemma re_match_alphabet P r s m :
  re_match (RStart · r) s = Some m →
  (∀ x, x ∈ matches r (mkSt [] s ∅) → rest x = []) → alphabet P r → Forall P s.
Proof.
  intros (x & Hx & _)%re_match_inv Hend HP. specialize (Hend _ Hx).
  apply (matches_alphabet P) in Hx as (w & E & F); [|done]. simpl in E.
  by rewrite E, Hend, app_nil_r.
Qed.

(** The longest run of a class is determined by what follows it. *)
Lemma cut_class (q : jschar → bool) w1 w2 c1 c2 t1 t2 :
  Forall (λ c, q c = true) w1 → Forall (λ c, q c = true) w2 → q c1 = false → q c2 = false →
  w1 ++ c1 :: t1 = w2 ++ c2 :: t2 → w1 = w2 ∧ c1 = c2 ∧ t1 = t2.
Proof.
  intros H1. revert w2. induction H1 as [|c w1 Hc H1 IH]; intros w2 H2 Hc1 Hc2 E.
  - destruct H2 as [|d w2 Hd H2]; simpl in E; [by injection E as -> ->|].
    injection E as -> _. congruence.
  - destruct H2 as [|d w2 Hd H2]; simpl in E; [injection E as -> _; congruence|].
    injection E as -> E. by destruct (IH w2 H2 Hc1 Hc2 E) as (-> & -> & ->).
Qed.

Lemma cut_class_end (q : jschar → bool) w1 w2 c t :
  Forall (λ c, q c = true) w1 → q c = false → w1 ≠ w2 ++ c :: t.
Proof. intros H1 Hc ->. apply Forall_app in H1 as [_ H1]. inversion H1. congruence. Qed.

Lemma in_char q p s m x :
  x ∈ matches (RChar q) (mkSt p s m) ↔ ∃ c t, s = c :: t ∧ q c = true ∧ x = mkSt (c :: p) t m.
Proof.
  rewrite elem_of_char. cbn [rest]. split; intros (c & t & -> & Hc & ->); exists c, t;
    unfold advance; cbn [pre rest caps length drop app reverse]; by rewrite drop_0.
Qed.

(** ** Texts that match *)

(** The pattern matches a prefix of the text, wherever it stands. *)
Definition can (r : regex) (s : jsstr) (m : gmap nat jsstr) : Prop :=
  ∀ p, ∃ x, x ∈ matches r (mkSt p s m).

Lemma can_end m : can REnd [] m.
Proof. intros p. eexists. by apply in_end. Qed.

Lemma can_seq r1 r s t m m' :
  (∀ p, ∃ p', mkSt p' t m' ∈ matches r1 (mkSt p s m)) → can r t m' → can (r1 · r) s m.
Proof.
  intros H1 H2 p. destruct (H1 p) as [p' Hp]. destruct (H2 p') as [x Hx]. exists x.
  apply elem_of_seq. eauto.
Qed.

Lemma can_lit w r t m : can r t m → can (lit w · r) (w ++ t) m.
Proof. apply can_seq. intros p. eexists. apply in_lit. eauto. Qed.

Lemma can_cap_plus n q r w t m :
  w ≠ [] → Forall (λ c, q c = true) w → can r t (<[n := w]> m) →
  can (RCap n (RPlus (RChar q)) · r) (w ++ t) m.
Proof. intros ??. apply can_seq. intros p. eexists. apply in_cap_plus. eauto 10. Qed.

Lemma can_cap_ralts n l r w t m :
  w ∈ l → can r t (<[n := w]> m) → can (RCap n (ralts l) · r) (w ++ t) m.
Proof. intros ?. apply can_seq. intros p. eexists. apply in_cap_ralts. eauto 10. Qed.

Lemma can_back n r w t m : m !! n = Some w → can r t m → can (RBack n · r) (w ++ t) m.
Proof. intros ?. apply can_seq. intros p. eexists. apply (elem_of_back n w); eauto. Qed.

Lemma can_cap n r1 r w t m :
  (∀ p, ∃ p', mkSt p' t m ∈ matches r1 (mkSt p (w ++ t) m)) → can r t (<[n := w]> m) →
  can (RCap n r1 · r) (w ++ t) m.
Proof.
  intros H1. apply can_seq. intros p. destruct (H1 p) as [p' Hp]. exists p'.
  apply elem_of_cap. eauto 10.
Qed.

(** Inverts every match among the hypotheses. *)
Ltac re_inv :=
  repeat match goal with
  | H : _ ∈ matches (_ · _) _ |- _ =>
      let x := fresh "x" in apply elem_of_seq in H as (x & ? & H)
  | H : _ ∈ matches (RCap _ (RPlus (RChar _))) (mkSt _ _ _) |- _ =>
      apply in_cap_plus in H as (? & ? & ? & ? & ? & H)
  | H : _ ∈ matches (RCap _ (RStar (RChar _))) (mkSt _ _ _) |- _ =>
      apply in_cap_star in H as (? & ? & ? & ? & H)
  | H : _ ∈ matches (RCap _ (ralts _)) (mkSt _ _ _) |- _ =>
      apply in_cap_ralts in H as (? & ? & ? & ? & H)
  | H : _ ∈ matches (RPlus (RChar _)) (mkSt _ _ _) |- _ =>
      apply in_plus in H as (? & ? & ? & ? & ? & H)
  | H : _ ∈ matches (RStar (RChar _)) (mkSt _ _ _) |- _ =>
      apply in_star in H as (? & ? & ? & ? & H)
  | H : _ ∈ matches (lit _) (mkSt _ _ _) |- _ => apply in_lit in H as (? & ? & H)
  | H : _ ∈ matches (ralts _) (mkSt _ _ _) |- _ => apply in_ralts in H as (? & ? & ? & ? & H)
  | H : _ ∈ matches (RChar _) (mkSt _ _ _) |- _ => apply in_char in H as (? & ? & ? & ? & H)
  | H : _ ∈ matches (RBack _) (mkSt _ _ _) |- _ =>
      eapply elem_of_back in H; [destruct H as (? & ? & H)|by simplify_map_eq]
  | H : _ ∈ matches (ROpt _) _ |- _ => unfold ROpt in H; apply elem_of_alt in H as [H|H]
  | H : _ ∈ matches (RAlt _ _) _ |- _ => apply elem_of_alt in H as [H|H]
  | H : _ ∈ matches REps _ |- _ => apply elem_of_eps in H
  | H : _ ∈ matches REnd (mkSt _ _ _) |- _ => apply in_end in H as [? H]
  | H : ?x = mkSt _ _ _ |- _ => is_var x; subst x
  end.
