(* ===== verification/StatusCodes.v ===== *)
(** * HTTP status code rules

    Models [web/default/src/lib/http-status-code-rules.ts]: the parser of the
    comma separated lists of codes and ranges that the retry and auto-disable
    settings use.  Codes are the [number]s of the source, kept in [Z]: every
    value the parser lets through lies in [100, 599]. *)
From S2P Require Import Prelude JSString.

Local Open Scope Z_scope.

Record StatusCodeRange := mkRange { start : Z; end_ : Z }.

#[global] Instance StatusCodeRange_eq_dec : EqDecision StatusCodeRange.
Proof. solve_decision. Defined.

Record ParsedHttpStatusCodeRules := mkParsed {
  ok : bool;
  ranges : list StatusCodeRange;
  tokens : list jsstr;
  normalized : jsstr;
  invalidTokens : list jsstr;
}.

(** [/^\d+$/.test(s)] *)
Definition isNumber (s : jsstr) : bool := nonempty s && forallb is_digit s.

(** [Number.parseInt(s, 10)] on a string [isNumber] accepts.  A literal too
    long for a double is far above 599 here as well as in the source, where
    it becomes a large double or [Infinity]. *)
Definition parseInt (s : jsstr) : Z := Z.of_N (digits_value s).

Definition isValidCode (code : Z) : bool := (100 <=? code) && (code <=? 599).

Definition COMMA : jschar := 44%N.
Definition DASH : jschar := 45%N.

Definition parseToken (token : jsstr) : option StatusCodeRange :=
  let cleaned := strip_ws (trim token) in
  if negb (nonempty cleaned) then None else
  if includes [DASH] cleaned then
    match split_on DASH cleaned with
    | a :: b :: _ =>
        if negb (isNumber a) || negb (isNumber b) then None else
        let start := parseInt a in
        let end_ := parseInt b in
        if negb (isValidCode start) || negb (isValidCode end_) || (end_ <? start)
        then None else Some (mkRange start end_)
    | _ => None
    end
  else
    if negb (isNumber cleaned) then None else
    let code := parseInt cleaned in
    if negb (isValidCode code) then None else Some (mkRange code code).

Definition compareRange (a b : StatusCodeRange) : Z :=
  if negb (start a =? start b) then start a - start b else end_ a - end_ b.

(** One step of the [reduce]: [merged] is kept last element first, so that
    [merged[merged.length - 1]] is its head. *)
Definition mergeStep (merged : list StatusCodeRange) (current : StatusCodeRange)
    : list StatusCodeRange :=
  match merged with
  | [] => [current]
  | last :: rest =>
      if end_ last + 1 <? start current then current :: merged
      else mkRange (start last) (Z.max (end_ last) (end_ current)) :: rest
  end.

Definition mergeRanges (rs : list StatusCodeRange) : list StatusCodeRange :=
  reverse (foldl mergeStep [] (js_sort compareRange rs)).

Definition tokenOf (r : StatusCodeRange) : jsstr :=
  if start r =? end_ r then string_of_Z (start r)
  else string_of_Z (start r) ++ [DASH] ++ string_of_Z (end_ r).

(** [raw.replace(/[，]/g, ',')]: the full-width comma is U+FF0C. *)
Definition sanitize (raw : jsstr) : jsstr :=
  map (λ c, if (c =? 65292)%N then COMMA else c) raw.

(** The two lists the loop over the segments builds. *)
Fixpoint classify (segments : list jsstr) : list StatusCodeRange * list jsstr :=
  match segments with
  | [] => ([], [])
  | s :: l =>
      let '(rs, bad) := classify l in
      match parseToken s with
      | None => (rs, s :: bad)
      | Some r => (r :: rs, bad)
      end
  end.

(** The argument is [unknown] in the source; [None] is [null] or [undefined]
    and [Some s] the result of its [toString()]. *)
Definition parseHttpStatusCodeRules (input : option jsstr)
    : ParsedHttpStatusCodeRules :=
  let raw := trim (opt_or input []) in
  if negb (nonempty raw) then mkParsed true [] [] [] [] else
  let segments := split_trim COMMA (sanitize raw) in
  let '(rs, invalid) := classify segments in
  match invalid with
  | _ :: _ => mkParsed false [] [] raw invalid
  | [] =>
      let merged := mergeRanges rs in
      let toks := map tokenOf merged in
      mkParsed true merged toks (join [COMMA] toks) []
  end.

(** ** Coverage and the canonical form *)

Definition covers (r : StatusCodeRange) (code : Z) : Prop := start r <= code <= end_ r.
Definition covered (rs : list StatusCodeRange) (code : Z) : Prop :=
  ∃ r, r ∈ rs ∧ covers r code.

(** A range as the parser builds it. *)
Definition valid_range (r : StatusCodeRange) : Prop :=
  100 <= start r ∧ start r <= end_ r ∧ end_ r <= 599.

(** Every range lies strictly after the one before it, with a code between
    the two that neither covers. *)
Definition separated (a b : StatusCodeRange) : Prop := end_ a + 1 < start b.

Definition canonical (rs : list StatusCodeRange) : Prop :=
  StronglySorted separated rs ∧ Forall valid_range rs.

#[global] Instance compareRange_order : CmpOrder compareRange.
Proof.
  split; unfold compareRange; [intros x y|intros x y z];
    repeat case_match; bool_hyps; rewrite ?Z.eqb_eq, ?Z.eqb_neq in *; lia.
Qed.

(** ** Reading a token *)

Lemma isValidCode_true c : isValidCode c = true ↔ 100 <= c <= 599.
Proof. unfold isValidCode. rewrite andb_true_iff, !Z.leb_le. lia. Qed.

Lemma parseToken_valid t r : parseToken t = Some r → valid_range r.
Proof.
  unfold parseToken, valid_range. intros H. repeat case_match; simplify_eq/=;
    bool_hyps; rewrite ?isValidCode_true, ?Z.ltb_ge in *; lia.
Qed.

Lemma isNumber_string_of_N n : isNumber (string_of_N n) = true.
Proof.
  unfold isNumber. apply andb_true_iff. split.
  - pose proof (string_of_N_not_nil n). by destruct (string_of_N n).
  - apply forallb_forall. intros c Hc%list_elem_of_In.
    pose proof (string_of_N_digits n) as H. rewrite Forall_forall in H. auto.
Qed.

Lemma string_of_Z_nonneg z : 0 <= z → string_of_Z z = string_of_N (Z.to_N z).
Proof. intros. unfold string_of_Z. destruct (Z.ltb_spec z 0); [lia|]. f_equal. lia. Qed.

Lemma parseInt_string_of_Z z : 0 <= z → parseInt (string_of_Z z) = z.
Proof.
  intros. rewrite string_of_Z_nonneg by done. unfold parseInt.
  rewrite string_of_N_value. lia.
Qed.

Lemma digit_not_mem (d : jschar) s :
  is_digit d = false → Forall (λ c, is_digit c = true) s → d ∉ s.
Proof. intros Hd Hs Hin. rewrite Forall_forall in Hs. specialize (Hs _ Hin). congruence. Qed.

Lemma dash_not_digit n : DASH ∉ string_of_N n.
Proof. apply digit_not_mem; [done|apply string_of_N_digits]. Qed.

(** The characters of a printed range: digits, and one dash at most. *)
Lemma tokenOf_chars r : valid_range r →
  Forall (λ c, is_digit c = true ∨ c = DASH) (tokenOf r) ∧ tokenOf r ≠ [].
Proof.
  intros [? [? ?]]. unfold tokenOf. rewrite !string_of_Z_nonneg by lia.
  assert (∀ n, Forall (λ c, is_digit c = true ∨ c = DASH) (string_of_N n)) as Hd.
  { intros n. eapply Forall_impl; [apply string_of_N_digits|]. tauto. }
  case_match; [auto using string_of_N_not_nil|]. split.
  - rewrite !Forall_app. split_and!; auto.
  - pose proof (string_of_N_not_nil (Z.to_N (start r))).
    by destruct (string_of_N (Z.to_N (start r))).
Qed.

Lemma tokenOf_no_ws r : valid_range r → Forall (λ c, is_ws c = false) (tokenOf r).
Proof.
  intros Hr. eapply Forall_impl; [apply (tokenOf_chars r Hr)|].
  intros c [Hc| ->]; [by apply is_digit_not_ws|done].
Qed.

Lemma tokenOf_not_mem d r :
  is_digit d = false → d ≠ DASH → valid_range r → d ∉ tokenOf r.
Proof.
  intros Hd Hne Hr Hin. destruct (tokenOf_chars r Hr) as [H _].
  rewrite Forall_forall in H. destruct (H _ Hin); congruence.
Qed.

Lemma includes_single c s : includes [c] s = true ↔ c ∈ s.
Proof.
  rewrite includes_spec. split.
  - intros (s1 & s2 & ->). set_solver.
  - intros (s1 & s2 & ->)%list_elem_of_split. by exists s1, s2.
Qed.

(** A printed range is read back as itself. *)
Lemma parseToken_tokenOf r : valid_range r → parseToken (tokenOf r) = Some r.
Proof.
  intros Hr. unfold parseToken. pose proof (tokenOf_no_ws r Hr) as Hws.
  rewrite (trimmed_no_ws _ Hws), (strip_ws_id _ Hws).
  destruct (tokenOf_chars r Hr) as [_ Hne].
  destruct (nonempty (tokenOf r)) eqn:Hn; [|by destruct (tokenOf r)]. simpl. clear Hn Hne Hws.
  destruct Hr as (H1 & H2 & H3). unfold tokenOf.
  destruct (Z.eqb_spec (start r) (end_ r)) as [He|Hne].
  - rewrite string_of_Z_nonneg by lia.
    destruct (includes [DASH] _) eqn:Hi.
    { apply includes_single in Hi. by apply dash_not_digit in Hi. }
    rewrite isNumber_string_of_N. simpl.
    rewrite <- string_of_Z_nonneg, parseInt_string_of_Z by lia.
    rewrite (proj2 (isValidCode_true _)) by lia. simpl.
    rewrite He at 2. by destruct r.
  - rewrite (proj2 (includes_single _ _)) by set_solver.
    rewrite !string_of_Z_nonneg by lia. change ([DASH] ++ ?s) with (DASH :: s).
    rewrite split_on_app by apply dash_not_digit.
    rewrite (split_on_none DASH) by apply dash_not_digit.
    rewrite !isNumber_string_of_N. simpl.
    rewrite <- !string_of_Z_nonneg, !parseInt_string_of_Z by lia.
    rewrite !(proj2 (isValidCode_true _)) by lia. simpl.
    destruct (Z.ltb_spec (end_ r) (start r)); [lia|]. by destruct r.
Qed.

Lemma classify_spec segs :
  (classify segs).1 = omap parseToken segs ∧
  (classify segs).2 = filter (λ s, parseToken s = None) segs.
Proof.
  induction segs as [|s l [IH1 IH2]]; [done|].
  simpl. destruct (classify l) as [rs bad]. simpl in *. rewrite filter_cons.
  destruct (parseToken s) eqn:E; simpl; by subst.
Qed.

Lemma classify_tokens rs :
  Forall valid_range rs → classify (map tokenOf rs) = (rs, []).
Proof.
  induction 1 as [|r rs Hr _ IH]; simpl; [done|].
  by rewrite IH, parseToken_tokenOf.
Qed.

(** ** Merging *)

Lemma covered_cons r rs c : covered (r :: rs) c ↔ covers r c ∨ covered rs c.
Proof. unfold covered. set_solver. Qed.

Lemma covered_perm rs rs' c : rs ≡ₚ rs' → covered rs c ↔ covered rs' c.
Proof. intros H. unfold covered. by setoid_rewrite H. Qed.

(** The accumulator of the [reduce], last range first. *)
Definition merged_ok (m : list StatusCodeRange) : Prop :=
  StronglySorted (flip separated) m ∧ Forall valid_range m.

Lemma mergeStep_ok m r lo :
  merged_ok m → valid_range r → lo <= start r →
  (∀ x, x ∈ m → start x <= lo) →
  merged_ok (mergeStep m r) ∧
  (∀ x, x ∈ mergeStep m r → start x <= start r) ∧
  (∀ c, covered (mergeStep m r) c ↔ covered m c ∨ covers r c).
Proof.
  intros [Hs Hv] Hr Hlo Hm. destruct m as [|l m]; simpl.
  { split; [split; auto using SSorted_cons, SSorted_nil|]. split.
    - intros x Hx%list_elem_of_singleton. subst. lia.
    - intros c. rewrite covered_cons. tauto. }
  apply StronglySorted_cons in Hs as [Hl Hs]. apply Forall_cons in Hv as [Hvl Hv].
  pose proof (Hm l (list_elem_of_here _ _)) as Hll.
  rewrite Forall_forall in Hl. unfold valid_range, covers, flip, separated in *.
  destruct (Z.ltb_spec (end_ l + 1) (start r)) as [Hlt|Hge]; (split; [|split]).
  - split; [|by constructor; [|constructor]]. constructor; [by constructor; [|apply Forall_forall]|].
    constructor; [unfold flip, separated; lia|]. apply Forall_forall. intros x Hx.
    specialize (Hl _ Hx). unfold flip, separated. lia.
  - intros x Hx. apply elem_of_cons in Hx as [->|Hx]; [lia|]. specialize (Hm _ Hx). lia.
  - intros c. rewrite covered_cons. unfold covers. tauto.
  - split; [constructor; [done|]|constructor; [unfold valid_range; simpl; lia|done]].
    apply Forall_forall. intros x Hx. apply (Hl x Hx).
  - intros x Hx. apply elem_of_cons in Hx as [->|Hx]; simpl; [lia|].
    specialize (Hm x ltac:(set_solver)). lia.
  - intros c. rewrite !covered_cons. unfold covers. simpl.
    destruct (Z.max_spec (end_ l) (end_ r)) as [[? ->]|[? ->]]; intuition lia.
Qed.

Lemma foldl_mergeStep_ok rs m lo :
  StronglySorted (λ a b, start a <= start b) rs → Forall valid_range rs →
  (∀ x, x ∈ rs → lo <= start x) → (∀ x, x ∈ m → start x <= lo) → merged_ok m →
  merged_ok (foldl mergeStep m rs) ∧
  ∀ c, covered (foldl mergeStep m rs) c ↔ covered m c ∨ covered rs c.
Proof.
  intros Hs. revert m lo. induction Hs as [|r rs _ IH Hr]; intros m lo Hv Hlo Hm Hok.
  { split; [done|]. intros c. unfold covered. set_solver. }
  apply Forall_cons in Hv as [Hvr Hv]. rewrite Forall_forall in Hr.
  destruct (mergeStep_ok m r lo) as (Hok' & Hle & Hcov); auto; [set_solver|].
  destruct (IH (mergeStep m r) (start r)) as [Hok'' Hcov']; auto.
  split; [done|]. intros c. simpl. rewrite Hcov', Hcov, covered_cons. tauto.
Qed.

Lemma merged_ok_reverse m : merged_ok m → canonical (reverse m).
Proof.
  intros [Hs Hv]. split; [|by apply Forall_reverse]. clear Hv.
  induction Hs as [|x m Hs IH Hx]; [constructor|].
  rewrite reverse_cons. apply StronglySorted_app_2; [|done|by repeat constructor].
  intros a b Ha Hb. apply list_elem_of_singleton in Hb as ->.
  rewrite elem_of_reverse in Ha. rewrite Forall_forall in Hx. by apply Hx.
Qed.

Lemma mergeRanges_spec rs :
  Forall valid_range rs →
  canonical (mergeRanges rs) ∧ ∀ c, covered (mergeRanges rs) c ↔ covered rs c.
Proof.
  intros Hv. unfold mergeRanges.
  destruct (foldl_mergeStep_ok (js_sort compareRange rs) [] 0) as [Hok Hcov].
  - eapply StronglySorted_impl; [|apply (js_sort_sorted compareRange)].
    intros x y. unfold cmp_le, compareRange. case_match; bool_hyps;
      rewrite ?Z.eqb_eq, ?Z.eqb_neq in *; lia.
  - by rewrite js_sort_perm.
  - intros x Hx. rewrite elem_of_js_sort in Hx. rewrite Forall_forall in Hv.
    destruct (Hv _ Hx). lia.
  - set_solver.
  - by repeat constructor.
  - split; [by apply merged_ok_reverse|]. intros c.
    rewrite (covered_perm _ _ c (reverse_Permutation _)), Hcov.
    rewrite (covered_perm _ _ c (js_sort_perm _ _)). unfold covered. set_solver.
Qed.

(** Two canonical lists that cover the same codes are equal. *)
Lemma canonical_unique a b :
  canonical a → canonical b → (∀ c, covered a c ↔ covered b c) → a = b.
Proof.
  intros [Ha Hva]. revert b Hva.
  induction Ha as [|r a Ha IH Hr]; intros b Hva [Hb Hvb] Hab.
  - destruct b as [|s b]; [done|]. apply Forall_cons in Hvb as [[? [? ?]] _].
    destruct (proj2 (Hab (start s))) as (x & Hx & _); [|set_solver].
    apply covered_cons. left. unfold covers. lia.
  - apply Forall_cons in Hva as [Hvr Hva].
    destruct Hb as [|s b Hb Hs].
    { destruct (proj1 (Hab (start r))) as (x & Hx & _); [|set_solver].
      apply covered_cons. left. unfold covers, valid_range in *. lia. }
    apply Forall_cons in Hvb as [Hvs Hvb].
    rewrite Forall_forall in Hr, Hs, Hva, Hvb.
    (* the codes after the heads *)
    assert (∀ c, covered a c → end_ r + 1 < c) as Hca.
    { intros c (x & Hx & Hc). specialize (Hr _ Hx). unfold separated, covers in *. lia. }
    assert (∀ c, covered b c → end_ s + 1 < c) as Hcb.
    { intros c (x & Hx & Hc). specialize (Hs _ Hx). unfold separated, covers in *. lia. }
    setoid_rewrite covered_cons in Hab. unfold covers, valid_range in *.
    assert (start r = start s).
    { destruct (Hab (start r)) as [H1 _], (Hab (start s)) as [_ H2].
      destruct H1 as [?|?%Hcb], H2 as [?|?%Hca]; lia. }
    assert (end_ r = end_ s).
    { destruct (Hab (end_ s + 1)) as [H1 _], (Hab (end_ r + 1)) as [_ H2].
      destruct (Z.lt_trichotomy (end_ r) (end_ s)) as [?|[?|?]]; [|done|].
      - destruct H2 as [?|?%Hca]; lia.
      - destruct H1 as [?|?%Hcb]; lia. }
    f_equal; [destruct r, s; simpl in *; congruence|].
    apply IH; [by apply Forall_forall|by split; [|apply Forall_forall]|].
    intros c. split; intros Hc.
    + destruct (proj1 (Hab c) (or_intror Hc)) as [?|?]; [|done].
      specialize (Hca _ Hc). lia.
    + destruct (proj2 (Hab c) (or_intror Hc)) as [?|?]; [|done].
      specialize (Hcb _ Hc). lia.
Qed.

Lemma mergeRanges_canonical rs : canonical rs → mergeRanges rs = rs.
Proof.
  intros H. apply canonical_unique; [|done|]; by apply mergeRanges_spec, H.
Qed.

(** ** Properties of the parser *)

Lemma parse_nonempty input :
  nonempty (trim (opt_or input [])) = true →
  parseHttpStatusCodeRules input =
  let raw := trim (opt_or input []) in
  let segs := split_trim COMMA (sanitize raw) in
  match filter (λ s, parseToken s = None) segs with
  | [] =>
      let merged := mergeRanges (omap parseToken segs) in
      mkParsed true merged (map tokenOf merged)
        (join [COMMA] (map tokenOf merged)) []
  | bad => mkParsed false [] [] raw bad
  end.
Proof.
  intros Hne. unfold parseHttpStatusCodeRules. rewrite Hne. simpl.
  destruct (classify_spec (split_trim COMMA (sanitize (trim (opt_or input []))))) as [H1 H2].
  destruct (classify _) as [rs bad]. simpl in *. rewrite <- H1, <- H2. by destruct bad.
Qed.

Lemma omap_parseToken_valid segs : Forall valid_range (omap parseToken segs).
Proof.
  apply Forall_forall. intros r (s & _ & Hs)%list_elem_of_omap.
  by eapply parseToken_valid.
Qed.

Lemma parse_ranges_canonical input :
  canonical (ranges (parseHttpStatusCodeRules input)).
Proof.
  destruct (nonempty (trim (opt_or input []))) eqn:Hne.
  - rewrite parse_nonempty by done. simpl. case_match; simpl; [|by repeat constructor].
    apply mergeRanges_spec, omap_parseToken_valid.
  - unfold parseHttpStatusCodeRules. rewrite Hne. by repeat constructor.
Qed.

Lemma normalized_roundtrip_canonical rs :
  canonical rs →
  parseHttpStatusCodeRules (Some (join [COMMA] (map tokenOf rs))) =
  mkParsed true rs (map tokenOf rs) (join [COMMA] (map tokenOf rs)) [].
Proof.
  intros Hc. pose proof (proj2 Hc) as Hv.
  set (toks := map tokenOf rs).
  assert (Forall (λ w, trimmed w ∧ w ≠ [] ∧ COMMA ∉ w) toks) as Htoks.
  { subst toks. apply Forall_fmap. eapply Forall_impl; [done|]. intros r Hr. simpl.
    split; [by apply trimmed_no_ws, tokenOf_no_ws|].
    split; [by apply tokenOf_chars|by apply tokenOf_not_mem]. }
  assert (Forall (λ c, is_ws c = false ∧ c ≠ 65292%N) (join [COMMA] toks)) as Hj.
  { subst toks. clear Hc Htoks. induction Hv as [|r rs Hr Hv IH]; [constructor|].
    assert (Forall (λ c, is_ws c = false ∧ c ≠ 65292%N) (tokenOf r)) as Ht.
    { eapply Forall_impl; [apply (tokenOf_chars r Hr)|]. intros c [Hd| ->]; [|done].
      split; [by apply is_digit_not_ws|]. by intros ->. }
    destruct rs as [|r' rs]; [done|].
    change (join _ _) with (tokenOf r ++ [COMMA] ++ join [COMMA] (map tokenOf (r' :: rs))).
    rewrite !Forall_app. split_and!; [done|by repeat constructor|done]. }
  assert (trim (join [COMMA] toks) = join [COMMA] toks) as Htrim.
  { apply trimmed_no_ws. eapply Forall_impl; [done|]. naive_solver. }
  destruct (nonempty (join [COMMA] toks)) eqn:Hne; last first.
  { destruct rs as [|r rs]; [done|]. exfalso.
    apply Forall_cons in Hv as [Hr _]. destruct (tokenOf_chars r Hr) as [_ Hn].
    subst toks. destruct rs; simpl in Hne; by destruct (tokenOf r). }
  unfold parseHttpStatusCodeRules. simpl opt_or. rewrite Htrim, Hne. simpl negb.
  assert (sanitize (join [COMMA] toks) = join [COMMA] toks) as ->.
  { unfold sanitize. rewrite <- (map_id (join [COMMA] toks)) at 2.
    apply map_ext_in. intros c Hin%list_elem_of_In. rewrite Forall_forall in Hj.
    destruct (N.eqb_spec c 65292) as [->|]; [|done]. by destruct (Hj _ Hin). }
  rewrite split_trim_join by done. unfold toks. rewrite classify_tokens by done.
  by rewrite mergeRanges_canonical.
Qed.

(** When the parser accepts, its ranges are in canonical form (in
    ascending order, disjoint, never adjacent, inside [100, 599]) and they
    cover a code exactly when one of the comma separated segments of the
    input does. *)
Theorem rules_ok_spec input :
  ok (parseHttpStatusCodeRules input) = true →
  canonical (ranges (parseHttpStatusCodeRules input)) ∧
  ∀ code, covered (ranges (parseHttpStatusCodeRules input)) code ↔
    ∃ s r, s ∈ split_trim COMMA (sanitize (trim (opt_or input []))) ∧
           parseToken s = Some r ∧ covers r code.
Proof.
  intros Hok. split; [apply parse_ranges_canonical|]. intros code.
  destruct (nonempty (trim (opt_or input []))) eqn:Hne.
  - rewrite parse_nonempty in * by done. simpl in *. case_match; [|done]. simpl.
    rewrite (proj2 (mergeRanges_spec _ (omap_parseToken_valid _))).
    unfold covered. setoid_rewrite list_elem_of_omap. naive_solver.
  - unfold parseHttpStatusCodeRules. rewrite Hne.
    destruct (trim (opt_or input [])); [|done]. simpl. unfold covered. set_solver.
Qed.

Theorem rules_ok_spec_witness :
  covered (ranges (parseHttpStatusCodeRules (Some (js "429, 500-503,502-505")))) 504.
Proof.
  apply (rules_ok_spec (Some (js "429, 500-503,502-505")));
    [vm_compute; reflexivity|].
  exists (js "502-505"), (mkRange 502 505).
  split; [|split; [vm_compute; reflexivity|split; simpl; lia]].
  set (l := split_trim _ _). vm_compute in l. subst l. vm_compute. set_solver.
Defined.

(** The normalised text of an accepted input is a fixed point: parsing
    it again gives back the same ranges, tokens and text. *)
Theorem rules_normalized_roundtrip input :
  ok (parseHttpStatusCodeRules input) = true →
  parseHttpStatusCodeRules (Some (normalized (parseHttpStatusCodeRules input))) =
  parseHttpStatusCodeRules input.
Proof.
  intros Hok. pose proof (parse_ranges_canonical input) as Hc.
  destruct (nonempty (trim (opt_or input []))) eqn:Hne.
  - rewrite (parse_nonempty input Hne) in *. simpl in *. case_match; [|done]. simpl in *.
    by apply normalized_roundtrip_canonical.
  - unfold parseHttpStatusCodeRules at 2 3. by rewrite Hne.
Qed.

Theorem rules_normalized_roundtrip_witness :
  parseHttpStatusCodeRules (Some (js "401,500-505")) =
  parseHttpStatusCodeRules (Some (js " 502-505, 500-503 ,401,")).
Proof.
  exact (rules_normalized_roundtrip (Some (js " 502-505, 500-503 ,401,"))
           (eq_refl true)).
Defined.

(** Two accepted inputs that cover the same codes have the same
    normalised text: the text is a canonical form of the set of codes. *)
Theorem rules_normal_form_unique i1 i2 :
  ok (parseHttpStatusCodeRules i1) = true →
  ok (parseHttpStatusCodeRules i2) = true →
  (∀ code, covered (ranges (parseHttpStatusCodeRules i1)) code ↔
           covered (ranges (parseHttpStatusCodeRules i2)) code) →
  normalized (parseHttpStatusCodeRules i1) = normalized (parseHttpStatusCodeRules i2).
Proof.
  intros H1 H2 Hcov.
  assert (∀ i, ok (parseHttpStatusCodeRules i) = true →
    normalized (parseHttpStatusCodeRules i) =
    join [COMMA] (map tokenOf (ranges (parseHttpStatusCodeRules i)))) as Hn.
  { intros i Hok. destruct (nonempty (trim (opt_or i []))) eqn:Hne.
    - rewrite parse_nonempty in * by done. simpl in *. by case_match.
    - unfold parseHttpStatusCodeRules. by rewrite Hne. }
  rewrite !Hn by done. do 2 f_equal.
  apply canonical_unique; [apply parse_ranges_canonical..|done].
Qed.

Theorem rules_normal_form_unique_witness :
  normalized (parseHttpStatusCodeRules (Some (js "500-503,504"))) =
  normalized (parseHttpStatusCodeRules (Some (js "502-504,500-501"))).
Proof.
  apply (rules_normal_form_unique (Some (js "500-503,504")) (Some (js "502-504,500-501")));
    [vm_compute; reflexivity..|].
  intros code. vm_compute ranges. tauto.
Defined.

(** The parser refuses an input exactly when one of its segments is not
    a code or a range of codes; it then returns no range at all, the trimmed
    input unchanged, and the list of those segments in their order. *)
Theorem rules_error_spec input :
  let raw := trim (opt_or input []) in
  let bad := filter (λ s, parseToken s = None) (split_trim COMMA (sanitize raw)) in
  (ok (parseHttpStatusCodeRules input) = false ↔ bad ≠ []) ∧
  (bad ≠ [] → parseHttpStatusCodeRules input = mkParsed false [] [] raw bad).
Proof.
  intros raw bad. destruct (nonempty raw) eqn:Hne.
  - subst bad. rewrite (parse_nonempty input Hne). fold raw. cbv zeta.
    destruct (filter _ _) as [|b l]; simpl; naive_solver.
  - unfold parseHttpStatusCodeRules. subst raw. rewrite Hne. simpl.
    subst bad. destruct (trim (opt_or input [])); [|done]. naive_solver.
Qed.

(** The segments after the second of a dashed token are ignored. *)
Example parseToken_three_parts : parseToken (js "100-200-300") = Some (mkRange 100 200).
Proof. vm_compute. reflexivity. Qed.
