(* ===== verification/Access.v ===== *)
(** * Who sees what: administrator permissions and the sidebar

    Models [lib/roles.ts] and [lib/admin-perms.ts] (Module AdminPerms),
    [hooks/use-sidebar-config.ts] (Module Sidebar: the two layers of sidebar
    settings and the filter of the navigation) and [lib/nav-modules.ts]
    (Module NavModules: the guards of routes and header entries), all under
    [web/default/src].  Icons, badges and other decoration of a navigation
    entry are left out: the filter copies them. *)
From S2P Require Import Prelude JSString JSNumber JSON.

Module AdminPerms.
Local Open Scope Z_scope.

Definition ROLE_GUEST : Z := 0.
Definition ROLE_USER : Z := 1.
Definition ROLE_ADMIN : Z := 10.
Definition ROLE_SUPER_ADMIN : Z := 100.

Definition ROLE_LABEL_KEYS (role : Z) : option jsstr :=
  if role =? ROLE_SUPER_ADMIN then Some (js "Super Admin") else
  if role =? ROLE_ADMIN then Some (js "Admin") else
  if role =? ROLE_USER then Some (js "User") else
  if role =? ROLE_GUEST then Some (js "Guest") else None.

Definition getRoleLabelKey (role : option Z) : jsstr :=
  match role ≫= ROLE_LABEL_KEYS with
  | Some key => key
  | None => opt_or (ROLE_LABEL_KEYS ROLE_GUEST) []
  end.

(** The keys of [ADMIN_PERM]. *)
Inductive AdminPermKey :=
  | CHANNEL_VIEW | CHANNEL_EDIT | CHANNEL_METRICS | MODEL_VIEW | REDEMPTION_MANAGE
  | SUBSCRIPTION_MANAGE | LOG_VIEW | QUOTA_GRANT | USER_MANAGE | QUOTA_DEDUCT_SELF
  | CONTENT_BACKUP_VIEW | CONTENT_BACKUP_MANAGE.

#[global] Instance AdminPermKey_eq_dec : EqDecision AdminPermKey.
Proof. solve_decision. Defined.

Definition ADMIN_PERM (p : AdminPermKey) : jsstr :=
  match p with
  | CHANNEL_VIEW => js "channel.view"
  | CHANNEL_EDIT => js "channel.edit"
  | CHANNEL_METRICS => js "channel.metrics"
  | MODEL_VIEW => js "model.view"
  | REDEMPTION_MANAGE => js "redemption.manage"
  | SUBSCRIPTION_MANAGE => js "subscription.manage"
  | LOG_VIEW => js "log.view"
  | QUOTA_GRANT => js "quota.grant"
  | USER_MANAGE => js "user.manage"
  | QUOTA_DEDUCT_SELF => js "quota.deduct_self"
  | CONTENT_BACKUP_VIEW => js "content_backup.view"
  | CONTENT_BACKUP_MANAGE => js "content_backup.manage"
  end.

(** The order of [ADMIN_PERM_ITEMS]. *)
Definition ADMIN_PERM_ITEMS : list AdminPermKey :=
  [CHANNEL_VIEW; CHANNEL_EDIT; CHANNEL_METRICS; MODEL_VIEW; REDEMPTION_MANAGE;
   SUBSCRIPTION_MANAGE; LOG_VIEW; QUOTA_GRANT; USER_MANAGE; QUOTA_DEDUCT_SELF;
   CONTENT_BACKUP_VIEW; CONTENT_BACKUP_MANAGE].

Definition DEFAULT_ADMIN_PERMS : list jsstr :=
  map ADMIN_PERM [CHANNEL_VIEW; LOG_VIEW; QUOTA_GRANT; USER_MANAGE].

(** [AdminPermFlags] for [T = bool], [Partial<AdminPermFlags>] for
    [T = option bool]. *)
Record Flags (T : Type) := mkFlags {
  channel_view : T;
  channel_edit : T;
  channel_metrics : T;
  model_view : T;
  redemption_manage : T;
  subscription_manage : T;
  log_view : T;
  quota_grant : T;
  user_manage : T;
  quota_deduct_self : T;
  content_backup_view : T;
  content_backup_manage : T;
}.
#[global] Arguments mkFlags {T}.
#[global] Arguments channel_view {T}.
#[global] Arguments channel_edit {T}.
#[global] Arguments channel_metrics {T}.
#[global] Arguments model_view {T}.
#[global] Arguments redemption_manage {T}.
#[global] Arguments subscription_manage {T}.
#[global] Arguments log_view {T}.
#[global] Arguments quota_grant {T}.
#[global] Arguments user_manage {T}.
#[global] Arguments quota_deduct_self {T}.
#[global] Arguments content_backup_view {T}.
#[global] Arguments content_backup_manage {T}.

Definition AdminPermFlags := Flags bool.

Definition NO_PERMS : AdminPermFlags :=
  mkFlags false false false false false false false false false false false false.

(** [{ ...base, ...flags }] *)
Definition spread_flags (base : AdminPermFlags) (flags : Flags (option bool)) : AdminPermFlags :=
  {| channel_view := opt_or (channel_view flags) (channel_view base);
     channel_edit := opt_or (channel_edit flags) (channel_edit base);
     channel_metrics := opt_or (channel_metrics flags) (channel_metrics base);
     model_view := opt_or (model_view flags) (model_view base);
     redemption_manage := opt_or (redemption_manage flags) (redemption_manage base);
     subscription_manage := opt_or (subscription_manage flags) (subscription_manage base);
     log_view := opt_or (log_view flags) (log_view base);
     quota_grant := opt_or (quota_grant flags) (quota_grant base);
     user_manage := opt_or (user_manage flags) (user_manage base);
     quota_deduct_self := opt_or (quota_deduct_self flags) (quota_deduct_self base);
     content_backup_view := opt_or (content_backup_view flags) (content_backup_view base);
     content_backup_manage := opt_or (content_backup_manage flags) (content_backup_manage base) |}.

Definition list_includes (list : list jsstr) (x : jsstr) : bool := bool_decide (x ∈ list).

Definition resolveAdminPermFlags (role : option Z) (flags : option (Flags (option bool)))
    (permList : option (list jsstr)) : AdminPermFlags :=
  if opt_or role 0 <? ROLE_ADMIN then NO_PERMS else
  if ROLE_SUPER_ADMIN <=? opt_or role 0 then
    {| channel_view := true; channel_edit := true; channel_metrics := true;
       model_view := true; redemption_manage := true; subscription_manage := true;
       log_view := true; quota_grant := true; user_manage := true;
       quota_deduct_self := false; content_backup_view := true;
       content_backup_manage := true |}
  else
  match flags with
  | Some flags => spread_flags NO_PERMS flags
  | None =>
      let list := opt_or permList DEFAULT_ADMIN_PERMS in
      {| channel_view := list_includes list (ADMIN_PERM CHANNEL_VIEW);
         channel_edit := list_includes list (ADMIN_PERM CHANNEL_EDIT);
         channel_metrics := list_includes list (ADMIN_PERM CHANNEL_METRICS);
         model_view := list_includes list (ADMIN_PERM MODEL_VIEW);
         redemption_manage := list_includes list (ADMIN_PERM REDEMPTION_MANAGE);
         subscription_manage := list_includes list (ADMIN_PERM SUBSCRIPTION_MANAGE);
         log_view := list_includes list (ADMIN_PERM LOG_VIEW);
         quota_grant := list_includes list (ADMIN_PERM QUOTA_GRANT);
         user_manage := list_includes list (ADMIN_PERM USER_MANAGE);
         quota_deduct_self := list_includes list (ADMIN_PERM QUOTA_DEDUCT_SELF);
         content_backup_view := list_includes list (ADMIN_PERM CONTENT_BACKUP_VIEW);
         content_backup_manage := list_includes list (ADMIN_PERM CONTENT_BACKUP_MANAGE) |}
  end.

(** ** Lemmas *)

(** The flag of a permission. *)
Definition flag {T} (p : AdminPermKey) : Flags T → T :=
  match p with
  | CHANNEL_VIEW => channel_view
  | CHANNEL_EDIT => channel_edit
  | CHANNEL_METRICS => channel_metrics
  | MODEL_VIEW => model_view
  | REDEMPTION_MANAGE => redemption_manage
  | SUBSCRIPTION_MANAGE => subscription_manage
  | LOG_VIEW => log_view
  | QUOTA_GRANT => quota_grant
  | USER_MANAGE => user_manage
  | QUOTA_DEDUCT_SELF => quota_deduct_self
  | CONTENT_BACKUP_VIEW => content_backup_view
  | CONTENT_BACKUP_MANAGE => content_backup_manage
  end.

Lemma flags_ext {T} (f g : Flags T) : (∀ p, flag p f = flag p g) → f = g.
Proof.
  intros H. destruct f, g.
  pose proof (H CHANNEL_VIEW). pose proof (H CHANNEL_EDIT). pose proof (H CHANNEL_METRICS).
  pose proof (H MODEL_VIEW). pose proof (H REDEMPTION_MANAGE).
  pose proof (H SUBSCRIPTION_MANAGE). pose proof (H LOG_VIEW). pose proof (H QUOTA_GRANT).
  pose proof (H USER_MANAGE). pose proof (H QUOTA_DEDUCT_SELF).
  pose proof (H CONTENT_BACKUP_VIEW). pose proof (H CONTENT_BACKUP_MANAGE).
  simpl in *. congruence.
Qed.

#[global] Instance ADMIN_PERM_inj : Inj (=) (=) ADMIN_PERM.
Proof. intros p q. destruct p, q; vm_compute; congruence. Qed.

Lemma elem_of_ADMIN_PERM_ITEMS p : p ∈ ADMIN_PERM_ITEMS.
Proof. destruct p; vm_compute; repeat constructor. Qed.

Lemma NoDup_ADMIN_PERM_ITEMS : NoDup ADMIN_PERM_ITEMS.
Proof. by apply (bool_decide_unpack _). Qed.

(** The permission strings a set of flags stands for, as the dialog that
    edits an administrator sends them. *)
Definition granted (f : AdminPermFlags) : list jsstr :=
  map ADMIN_PERM (List.filter (λ p, flag p f) ADMIN_PERM_ITEMS).

Lemma elem_of_granted f p : ADMIN_PERM p ∈ granted f ↔ flag p f = true.
Proof.
  unfold granted. rewrite list_elem_of_fmap. split.
  - intros (q & ->%(inj ADMIN_PERM) & Hq).
    by apply list_elem_of_In, filter_In in Hq as [_ Hq].
  - intros Hp. exists p. split; [done|].
    apply list_elem_of_In, filter_In. split; [|done].
    apply list_elem_of_In, elem_of_ADMIN_PERM_ITEMS.
Qed.

(** C25: below the administrator role no permission is given, from the super
    administrator role up every one but the deduction of his own quota; an
    administrator has what the flags of the server say (a flag that is
    missing is off), and without flags the permissions of his list, whose
    default contains neither channel editing nor any permission on models,
    codes, subscriptions or backups. *)
Theorem resolve_perms_spec role flags permList p :
  flag p (resolveAdminPermFlags role flags permList) = true ↔
  ROLE_ADMIN <= opt_or role 0 ∧
  (ROLE_SUPER_ADMIN <= opt_or role 0 ∧ p ≠ QUOTA_DEDUCT_SELF ∨
   opt_or role 0 < ROLE_SUPER_ADMIN ∧
   match flags with
   | Some fl => flag p fl = Some true
   | None =>
       match permList with
       | Some l => ADMIN_PERM p ∈ l
       | None => p ∈ [CHANNEL_VIEW; LOG_VIEW; QUOTA_GRANT; USER_MANAGE]
       end
   end).
Proof.
  unfold resolveAdminPermFlags.
  destruct (Z.ltb_spec (opt_or role 0) ROLE_ADMIN) as [Ha|Ha].
  { split; [destruct p; done|]. intros [? _]. lia. }
  destruct (Z.leb_spec ROLE_SUPER_ADMIN (opt_or role 0)) as [Hs|Hs].
  { destruct p; simpl; (split; [intros; split; [done|]; left; done|]); try done.
    intros [_ [[_ []]|[? _]]]; [done|lia]. }
  destruct flags as [fl|].
  - assert (flag p (spread_flags NO_PERMS fl) = opt_or (flag p fl) false) as ->
      by (by destruct p).
    destruct (flag p fl) as [[]|]; simpl; split; try done; try (intros [_ [[? _]|[_ ?]]]; [lia|done]).
    intros _. split; [done|]. right. done.
  - set (l := opt_or permList DEFAULT_ADMIN_PERMS).
    transitivity (list_includes l (ADMIN_PERM p) = true); [by destruct p|].
    unfold list_includes. rewrite bool_decide_eq_true.
    transitivity (match permList with
       | Some l => ADMIN_PERM p ∈ l
       | None => p ∈ [CHANNEL_VIEW; LOG_VIEW; QUOTA_GRANT; USER_MANAGE] end).
    { subst l. destruct permList as [l|]; [done|]. simpl. unfold DEFAULT_ADMIN_PERMS.
      by rewrite (list_elem_of_fmap_inj ADMIN_PERM). }
    split; [intros H; split; [done|]; by right|]. intros [_ [[? _]|[_ ?]]]; [lia|done].
Qed.

(** The list of permission strings sent for an administrator is read back
    as the same flags, whatever other strings the list holds. *)
Theorem perms_roundtrip (f : AdminPermFlags) (other : list jsstr) role :
  ROLE_ADMIN <= role < ROLE_SUPER_ADMIN →
  (∀ p, ADMIN_PERM p ∉ other) →
  resolveAdminPermFlags (Some role) None (Some (granted f ++ other)) = f.
Proof.
  intros [Ha Hs] Ho. apply flags_ext. intros p.
  unfold resolveAdminPermFlags. simpl.
  destruct (Z.ltb_spec role ROLE_ADMIN); [lia|].
  destruct (Z.leb_spec ROLE_SUPER_ADMIN role); [lia|].
  transitivity (list_includes (granted f ++ other) (ADMIN_PERM p)); [by destruct p|].
  unfold list_includes. destruct (flag p f) eqn:E.
  - apply bool_decide_eq_true, elem_of_app. left. by apply elem_of_granted.
  - apply bool_decide_eq_false. rewrite elem_of_app, elem_of_granted.
    intros [?|?]; [congruence|by apply (Ho p)].
Qed.

Theorem perms_roundtrip_witness :
  ROLE_ADMIN <= 10 < ROLE_SUPER_ADMIN ∧
  resolveAdminPermFlags (Some 10) None
    (Some (granted (spread_flags NO_PERMS (mkFlags (Some true) None None None None None
       (Some true) None None None None None)) ++ [js "iq_test.view"]))
  = spread_flags NO_PERMS (mkFlags (Some true) None None None None None
       (Some true) None None None None None).
Proof.
  split; [unfold ROLE_ADMIN, ROLE_SUPER_ADMIN; lia|]. apply perms_roundtrip.
  - unfold ROLE_ADMIN, ROLE_SUPER_ADMIN. lia.
  - intros p. apply (bool_decide_unpack _). destruct p; vm_compute; exact I.
Defined.

End AdminPerms.

Module Sidebar.

(** [SidebarModulesAdminConfig]: whatever the stored text holds, so a section
    is any JSON value.  The user layer is [None] for [null]. *)
Definition DEFAULT_SIDEBAR_MODULES : obj (obj json) :=
  let on k := (k, JBool true) in
  [(js "chat", map on [js "enabled"; js "playground"; js "chat"]);
   (js "console", map on [js "enabled"; js "detail"; js "token"; js "log";
                          js "midjourney"; js "task"]);
   (js "personal", map on [js "enabled"; js "topup"; js "personal"]);
   (js "admin", map on [js "enabled"; js "channel"; js "models"; js "redemption";
                        js "user"; js "setting"; js "subscription"])].

Definition default_config : obj json :=
  map (λ kv, (kv.1, JObj kv.2)) DEFAULT_SIDEBAR_MODULES.

(** The inner loop: a module the merged section lacks gets the default. *)
Definition fill_section (defaultSection merged : obj json) : obj json :=
  foldl (λ acc kv, match obj_get kv.1 acc with
                   | None => obj_set kv.1 kv.2 acc
                   | Some _ => acc end) merged defaultSection.

Definition merge_section (defaultSection : obj json) (existingSection : option json)
    : obj json :=
  match existingSection with
  | Some existing =>
      if json_truthy existing
      then fill_section defaultSection (obj_assign defaultSection (spread existing))
      else defaultSection
  | None => defaultSection
  end.

Definition mergeWithDefaultSidebarModules (config : json) : obj json :=
  foldl (λ merged '(sectionKey, defaultSection),
    obj_set sectionKey (JObj (merge_section defaultSection (obj_get sectionKey merged))) merged)
    (spread config) DEFAULT_SIDEBAR_MODULES.

Definition URL_TO_CONFIG_MAP : obj (jsstr * jsstr) :=
  let to url section module := (js url, (js section, js module)) in
  [to "/playground" "chat" "playground";
   to "/create-center" "chat" "playground";
   to "/dashboard" "console" "detail";
   to "/dashboard/overview" "console" "detail";
   to "/dashboard/models" "console" "detail";
   to "/dashboard/users" "console" "detail";
   to "/keys" "console" "token";
   to "/usage-logs" "console" "log";
   to "/usage-logs/common" "console" "log";
   to "/usage-logs/drawing" "console" "midjourney";
   to "/usage-logs/task" "console" "task";
   to "/wallet" "personal" "topup";
   to "/profile" "personal" "personal";
   to "/channels" "admin" "channel";
   to "/iq-test" "admin" "channel";
   to "/models" "admin" "models";
   to "/models/metadata" "admin" "models";
   to "/models/deployments" "admin" "models";
   to "/users" "admin" "user";
   to "/redemption-codes" "admin" "redemption";
   to "/subscriptions" "admin" "subscription";
   to "/system-settings" "admin" "setting";
   to "/system-settings/general" "admin" "setting"]%string.

#[global] Arguments URL_TO_CONFIG_MAP : simpl never.
#[global] Arguments DEFAULT_SIDEBAR_MODULES : simpl never.

(** [!value || value.trim() === ''] *)
Definition blank (value : option jsstr) : bool :=
  match value with None => true | Some s => negb (nonempty (trim s)) end.

Definition parseSidebarConfig (value : option jsstr) : obj json :=
  if blank value then default_config else
  match JSON_parse (opt_or value []) with
  | Some parsed => mergeWithDefaultSidebarModules parsed
  | None => default_config
  end.

(** An array passes the [typeof] test. *)
Definition parseUserSidebarConfig (value : option jsstr) : option json :=
  if blank value then None else
  match JSON_parse (opt_or value []) with
  | Some ((JObj _ | JArr _) as parsed) => Some parsed
  | _ => None
  end.

(** [Boolean(section && section.enabled && section[module] === true)] *)
Definition admin_allows (adminConfig : obj json) (section module : jsstr) : bool :=
  match obj_get section adminConfig with
  | None => false
  | Some adminSection =>
      json_truthy adminSection &&
      match json_prop adminSection (js "enabled") with
      | Some e => json_truthy e && bool_decide (json_prop adminSection module = Some (JBool true))
      | None => false
      end
  end.

(** The second layer. *)
Definition user_allows (userConfig : option json) (section module : jsstr) : bool :=
  match userConfig with
  | None => true
  | Some config =>
      match json_prop config section with
      | None => true
      | Some userSection =>
          if negb (json_truthy userSection) then true else
          if bool_decide (json_prop userSection (js "enabled") = Some (JBool false)) then false else
          negb (bool_decide (json_prop userSection module = Some (JBool false)))
      end
  end.

Definition isModuleEnabled (url : jsstr) (adminConfig : obj json) (userConfig : option json)
    : bool :=
  match obj_get url URL_TO_CONFIG_MAP with
  | None => true
  | Some (section, module) =>
      if negb (admin_allows adminConfig section module) then false
      else user_allows userConfig section module
  end.

Record SubItem := { sub_title : jsstr; sub_url : jsstr }.

Inductive NavItem :=
  | NavChatPresets (title : jsstr)
  | NavLink (title url : jsstr) (configUrls : option (list jsstr))
  | NavCollapsible (title : jsstr) (items : list SubItem).

Record NavGroup := mkGroup { group_title : jsstr; group_items : list NavItem }.

Definition isNavItemVisible (item : NavItem) (adminConfig : obj json)
    (userConfig : option json) : bool :=
  match item with
  | NavChatPresets _ =>
      if negb (admin_allows adminConfig (js "chat") (js "chat")) then false
      else user_allows userConfig (js "chat") (js "chat")
  | NavLink _ url configUrls =>
      if nonempty url then
        existsb (λ u, isModuleEnabled u adminConfig userConfig) (opt_or configUrls [url])
      else true
  | NavCollapsible _ items =>
      existsb (λ s, isModuleEnabled (sub_url s) adminConfig userConfig) items
  end.

Definition filterNavItems (items : list NavItem) (adminConfig : obj json)
    (userConfig : option json) : list NavItem :=
  List.filter (λ item, isNavItemVisible item adminConfig userConfig)
    (map (λ item,
      match item with
      | NavCollapsible title items =>
          NavCollapsible title
            (List.filter (λ s, isModuleEnabled (sub_url s) adminConfig userConfig) items)
      | _ => item
      end) items).

(** [sidebar_settings] is [auth.user.permissions.sidebar_settings]. *)
Definition user_layer (sidebar_settings : option bool) (sidebar_modules : option jsstr)
    : option json :=
  if bool_decide (sidebar_settings = Some false) then None
  else parseUserSidebarConfig sidebar_modules.

Definition useSidebarConfig (navGroups : list NavGroup) (SidebarModulesAdmin : option jsstr)
    (sidebar_settings : option bool) (sidebar_modules : option jsstr) : list NavGroup :=
  let adminConfig := parseSidebarConfig SidebarModulesAdmin in
  let userConfig := user_layer sidebar_settings sidebar_modules in
  List.filter (λ g, match group_items g with [] => false | _ => true end)
    (map (λ g, mkGroup (group_title g) (filterNavItems (group_items g) adminConfig userConfig))
       navGroups).

(** ** What the sidebar shows *)

(** The entries one can click: links, the sub-entries of a collapsible entry
    and the chat presets, in order. *)
Inductive leaf :=
  | LLink (title url : jsstr) (configUrls : option (list jsstr))
  | LSub (s : SubItem)
  | LChat (title : jsstr).

Definition item_leaves (item : NavItem) : list leaf :=
  match item with
  | NavChatPresets title => [LChat title]
  | NavLink title url configUrls => [LLink title url configUrls]
  | NavCollapsible _ items => map LSub items
  end.

Definition leaves (groups : list NavGroup) : list leaf :=
  g ← groups; item ← group_items g; item_leaves item.

Definition leaf_visible (admin : obj json) (user : option json) (l : leaf) : bool :=
  match l with
  | LLink title url configUrls => isNavItemVisible (NavLink title url configUrls) admin user
  | LSub s => isModuleEnabled (sub_url s) admin user
  | LChat title => isNavItemVisible (NavChatPresets title) admin user
  end.

(** No group and no collapsible entry without content. *)
Definition no_empty (groups : list NavGroup) : Prop :=
  ∀ g, g ∈ groups → group_items g ≠ [] ∧ ∀ t, NavCollapsible t [] ∉ group_items g.

Lemma filter_none {A} (f : A → bool) l : existsb f l = false → List.filter f l = [].
Proof.
  induction l as [|x l IH]; simpl; [done|]. intros [-> H]%orb_false_iff. auto.
Qed.

Lemma existsb_filter {A} (f : A → bool) l : existsb f (List.filter f l) = existsb f l.
Proof. induction l as [|x l IH]; simpl; [done|]. destruct (f x) eqn:E; simpl; by rewrite ?E. Qed.

Lemma filter_map_LSub admin user items :
  List.filter (leaf_visible admin user) (map LSub items) =
  map LSub (List.filter (λ s, isModuleEnabled (sub_url s) admin user) items).
Proof.
  induction items as [|s items IH]; simpl; [done|].
  destruct (isModuleEnabled (sub_url s) admin user); simpl; by rewrite IH.
Qed.

Lemma filterNavItems_leaves items admin user :
  (filterNavItems items admin user ≫= item_leaves) =
  List.filter (leaf_visible admin user) (items ≫= item_leaves).
Proof.
  unfold filterNavItems. induction items as [|item items IH]; [done|].
  rewrite bind_cons, List.filter_app, <- IH. destruct item as [t|t u c|t subs]; simpl.
  1,2: match goal with |- context [if ?b then _ else _] => destruct b end; done.
  rewrite existsb_filter, filter_map_LSub.
  destruct (existsb _ subs) eqn:E; [done|]. by rewrite (filter_none _ _ E).
Qed.

(** The filter shows exactly the visible entries, in their order, and leaves
    neither an empty group nor an empty collapsible entry. *)
Lemma useSidebarConfig_leaves groups a s u :
  leaves (useSidebarConfig groups a s u) =
  List.filter (leaf_visible (parseSidebarConfig a) (user_layer s u)) (leaves groups).
Proof.
  unfold useSidebarConfig. set (admin := parseSidebarConfig a). set (user := user_layer s u).
  unfold leaves. induction groups as [|g groups IH]; [done|].
  rewrite bind_cons, List.filter_app, <- IH, <- filterNavItems_leaves. simpl.
  destruct (filterNavItems (group_items g) admin user) eqn:E; [done|].
  rewrite bind_cons. simpl. by rewrite ?E.
Qed.

Lemma useSidebarConfig_no_empty groups a s u : no_empty (useSidebarConfig groups a s u).
Proof.
  unfold no_empty, useSidebarConfig. intros g Hg.
  apply list_elem_of_In, filter_In in Hg as [Hg Hne]. split.
  { by destruct (group_items g). }
  intros t. apply list_elem_of_In, list_elem_of_fmap in Hg as (g' & -> & _). simpl.
  unfold filterNavItems. intros [_ Ht]%list_elem_of_In%filter_In. done.
Qed.

(** ** The user layer only narrows *)

Lemma isModuleEnabled_narrow url admin user :
  isModuleEnabled url admin user = true → isModuleEnabled url admin None = true.
Proof. unfold isModuleEnabled. repeat case_match; done. Qed.

Lemma leaf_visible_narrow admin user l :
  leaf_visible admin user l = true → leaf_visible admin None l = true.
Proof.
  destruct l as [t url c|s|t]; simpl.
  - destruct (nonempty url); [|done]. rewrite !existsb_exists.
    intros (x & Hx & Hv). exists x. split; [done|]. by eapply isModuleEnabled_narrow.
  - apply isModuleEnabled_narrow.
  - destruct (admin_allows admin (js "chat") (js "chat")); done.
Qed.

(** The module an entry belongs to, where it belongs to one alone. *)
Definition leaf_module (l : leaf) : option (jsstr * jsstr) :=
  match l with
  | LLink _ ((_ :: _) as url) None => obj_get url URL_TO_CONFIG_MAP
  | LSub s => obj_get (sub_url s) URL_TO_CONFIG_MAP
  | LChat _ => Some (js "chat", js "chat")
  | _ => None
  end.

Lemma isModuleEnabled_allowed url admin user section module :
  obj_get url URL_TO_CONFIG_MAP = Some (section, module) →
  isModuleEnabled url admin user = true → admin_allows admin section module = true.
Proof. unfold isModuleEnabled. intros ->. by destruct (admin_allows _ _ _). Qed.

Lemma leaf_module_allowed admin user l section module :
  leaf_module l = Some (section, module) → leaf_visible admin user l = true →
  admin_allows admin section module = true.
Proof.
  destruct l as [t [|ch url] [c|]|s|t]; unfold leaf_module, leaf_visible; try done.
  - intros H. cbn [isNavItemVisible nonempty opt_or existsb]. rewrite orb_false_r.
    by apply isModuleEnabled_allowed.
  - by apply isModuleEnabled_allowed.
  - intros [= <- <-]. cbn [isNavItemVisible]. by destruct (admin_allows _ _ _).
Qed.


End Sidebar.

Module NavModules.

Record ModuleAccess := mkAccess { enabled : bool; requireAuth : bool }.

(** [rankings] and [pricing] have the same default. *)
Definition DEFAULTS : ModuleAccess := mkAccess true false.

Definition bool_or (v : option json) (d : bool) : bool :=
  match v with Some (JBool b) => b | _ => d end.

Definition parseAccess (raw : option json) (fallback : ModuleAccess) : ModuleAccess :=
  match raw with
  | Some (JBool b) => mkAccess b (requireAuth fallback)
  | Some ((JObj _ | JArr _) as r) =>
      mkAccess (bool_or (json_prop r (js "enabled")) (enabled fallback))
               (bool_or (json_prop r (js "requireAuth")) (requireAuth fallback))
  | _ => fallback
  end.

(** The argument is [localStorage.getItem('status')]; [null] and a text that
    does not parse give [null]. *)
Definition getCachedStatus (raw : option jsstr) : json :=
  match raw with
  | Some ((_ :: _) as raw) => opt_or (JSON_parse raw) JNull
  | _ => JNull
  end.

(** [status[key]] as a text, [None] where the callers return the default. *)
Definition status_text (status : json) (key : jsstr) : option jsstr :=
  match json_prop status key with
  | Some v =>
      if negb (json_truthy v) || negb (nonempty (trim (json_to_string v))) then None
      else Some (json_to_string v)
  | None => None
  end.

(** The property of what the text holds; a text that does not parse and
    [null], on which the access throws, go to [catch]. *)
Definition getModuleAccess (storage : option jsstr) (module : jsstr) : ModuleAccess :=
  let status := getCachedStatus storage in
  if negb (json_truthy status) then DEFAULTS else
  match status_text status (js "HeaderNavModules") with
  | None => DEFAULTS
  | Some rawNav =>
      match JSON_parse rawNav with
      | None | Some JNull => DEFAULTS
      | Some parsed => parseAccess (json_prop parsed module) DEFAULTS
      end
  end.

Definition isSidebarModuleEnabled (storage : option jsstr) (section module : jsstr) : bool :=
  let status := getCachedStatus storage in
  if negb (json_truthy status) then true else
  match status_text status (js "SidebarModulesAdmin") with
  | None => true
  | Some raw =>
      match JSON_parse raw with
      | None | Some JNull => true
      | Some parsed =>
          match json_prop parsed section with
          | None => true
          | Some sectionConfig =>
              if negb (json_truthy sectionConfig) then true else
              if bool_decide (json_prop sectionConfig (js "enabled") = Some (JBool false))
              then false else
              if bool_decide (json_prop sectionConfig module = Some (JBool false))
              then false else true
          end
      end
  end.

(** ** The merged configuration of the administrators *)

Import Sidebar.

Lemma fill_section_id d o :
  (∀ k, k ∈ obj_keys d → k ∈ obj_keys o) → fill_section d o = o.
Proof.
  unfold fill_section. induction d as [|[k v] d IH]; intros H; simpl; [done|].
  destruct (obj_get k o) eqn:E.
  - apply IH. intros x Hx. apply H. simpl. set_solver.
  - apply obj_get_None in E. destruct E. apply H. simpl. set_solver.
Qed.

Lemma merge_section_get d e k :
  json_nodup e → (∀ n, k ≠ string_of_N n) →
  obj_get k (merge_section d (Some e)) =
  if json_truthy e then match json_prop e k with Some v => Some v | None => obj_get k d end
  else obj_get k d.
Proof.
  intros He Hk. unfold merge_section. destruct (json_truthy e); [|done].
  rewrite fill_section_id.
  - by rewrite (obj_get_assign _ _ _ (spread_NoDup _ He)), spread_get.
  - intros x Hx. apply elem_of_keys_assign. by left.
Qed.

Lemma merge_fold_get defs m k :
  NoDup (obj_keys defs) →
  obj_get k (foldl (λ merged '(sectionKey, defaultSection),
    obj_set sectionKey (JObj (merge_section defaultSection (obj_get sectionKey merged))) merged)
    m defs) =
  match obj_get k defs with
  | Some d => Some (JObj (merge_section d (obj_get k m)))
  | None => obj_get k m
  end.
Proof.
  revert m. induction defs as [|[k' d] defs IH]; intros m Hnd; [done|].
  apply NoDup_cons in Hnd as [Hk Hnd]. simpl in Hk. cbn [foldl]. rewrite IH by done.
  apply obj_get_None in Hk. cbn [obj_get]. destruct (decide (k = k')) as [->|Hne].
  - by rewrite Hk, obj_get_set_eq.
  - by rewrite obj_get_set_ne.
Qed.

Lemma mergeWithDefault_get config k :
  obj_get k (mergeWithDefaultSidebarModules config) =
  match obj_get k DEFAULT_SIDEBAR_MODULES with
  | Some d => Some (JObj (merge_section d (obj_get k (spread config))))
  | None => obj_get k (spread config)
  end.
Proof. apply merge_fold_get. by apply (bool_decide_unpack _). Qed.

(** The sections and modules of the navigation are plain names. *)
Definition plain (k : jsstr) : bool :=
  match k with c :: _ => negb (is_digit c) | [] => false end.

Lemma plain_not_index k n : plain k = true → k ≠ string_of_N n.
Proof. destruct k as [|c k]; [done|]. simpl. rewrite negb_true_iff. apply not_index. Qed.

Definition mapped_section (section module : jsstr) : Prop :=
  plain section = true ∧ plain module = true ∧
  is_Some (obj_get section DEFAULT_SIDEBAR_MODULES).

Lemma URL_mapped url section module :
  obj_get url URL_TO_CONFIG_MAP = Some (section, module) → mapped_section section module.
Proof.
  intros H%obj_get_Some_mem.
  assert (Forall (λ e : jsstr * (jsstr * jsstr), (plain e.2.1 && plain e.2.2 &&
      bool_decide (is_Some (obj_get e.2.1 DEFAULT_SIDEBAR_MODULES))) = true) URL_TO_CONFIG_MAP) as HF.
  { apply (bool_decide_unpack _). vm_compute. exact I. }
  rewrite Forall_forall in HF. specialize (HF _ H). simpl in HF. bool_hyps. by split_and!.
Qed.

(** What the administrators' text says of a module, where it says something. *)
Lemma admin_allows_not_denied raw parsed section module sec :
  JSON_parse raw = Some parsed → mapped_section section module →
  json_prop parsed section = Some sec → json_truthy sec = true →
  admin_allows (mergeWithDefaultSidebarModules parsed) section module = true →
  json_prop sec (js "enabled") ≠ Some (JBool false) ∧
  json_prop sec module ≠ Some (JBool false).
Proof.
  intros Hp (Hs & Hm & [d Hd]) Hsec Ht Ha. pose proof (JSON_parse_nodup _ _ Hp) as Hn.
  assert (json_nodup sec) as Hns.
  { destruct parsed; try done. by eapply json_nodup_get. }
  unfold admin_allows in Ha. rewrite mergeWithDefault_get, Hd, spread_get, Hsec in Ha
    by (intros n; by apply plain_not_index).
  cbn [json_truthy json_prop andb] in Ha.
  rewrite !merge_section_get, Ht in Ha by (done || (intros n; by apply plain_not_index)).
  split; intros E; rewrite E in Ha; simpl in Ha; [done|].
  case_match; [|done]. by rewrite andb_false_r in Ha.
Qed.

(** The guard of a route agrees with the sidebar: where the sidebar, with
    the settings the cached status holds, shows the page of a module to some
    user, [isSidebarModuleEnabled] lets the page be opened. *)
Theorem route_guard_admits cached status raw url section module user :
  JSON_parse cached = Some (JObj status) →
  obj_get (js "SidebarModulesAdmin") status = Some (JStr raw) →
  obj_get url URL_TO_CONFIG_MAP = Some (section, module) →
  isModuleEnabled url (parseSidebarConfig (Some raw)) user = true →
  isSidebarModuleEnabled (Some cached) section module = true.
Proof.
  intros Hc Hraw Hurl He. pose proof (URL_mapped _ _ _ Hurl) as Hmap.
  unfold isSidebarModuleEnabled, getCachedStatus.
  destruct cached as [|c cached]; [done|]. rewrite Hc. cbn [opt_or json_truthy negb].
  unfold status_text. cbn [json_prop]. rewrite Hraw. cbn [json_to_string json_truthy].
  destruct (negb (nonempty raw) || negb (nonempty (trim raw))) eqn:Hb; [done|].
  unfold isModuleEnabled in He. rewrite Hurl in He.
  destruct (admin_allows _ section module) eqn:Ha; [clear He|done].
  unfold parseSidebarConfig in Ha. simpl in Ha. apply orb_false_iff in Hb as [_ Hb].
  rewrite Hb in Ha. destruct (JSON_parse raw) as [parsed|] eqn:Hp; [|done].
  destruct (json_prop parsed section) as [sec|] eqn:Hsec; [|by destruct parsed].
  destruct (json_truthy sec) eqn:Ht; [|by destruct parsed].
  destruct (admin_allows_not_denied _ _ _ _ _ Hp Hmap Hsec Ht Ha) as [H1 H2].
  rewrite !bool_decide_eq_false_2 by done. by destruct parsed.
Qed.

Theorem route_guard_admits_witness :
  let cached := jq "{`SidebarModulesAdmin`:`{\`chat\`:{\`enabled\`:true}}`}" in
  isModuleEnabled (js "/playground")
    (parseSidebarConfig (Some (jq "{`chat`:{`enabled`:true}}"))) None = true ∧
  isSidebarModuleEnabled (Some cached) (js "chat") (js "playground") = true.
Proof.
  assert (isModuleEnabled (js "/playground")
    (parseSidebarConfig (Some (jq "{`chat`:{`enabled`:true}}"))) None = true) as He
    by (vm_compute; reflexivity).
  split; [exact He|].
  eapply (route_guard_admits _ [(js "SidebarModulesAdmin", JStr (jq "{`chat`:{`enabled`:true}}"))]
    (jq "{`chat`:{`enabled`:true}}") (js "/playground"));
    [vm_compute; reflexivity|vm_compute; reflexivity|vm_compute; reflexivity|exact He].
Defined.

(** The converse fails: the guard takes a missing or odd value as permission. *)
Example guard_wider :
  let raw := jq "{`chat`:{`playground`:1}}" in
  isModuleEnabled (js "/playground") (parseSidebarConfig (Some raw)) None = false ∧
  isSidebarModuleEnabled
    (Some (jq "{`SidebarModulesAdmin`:`{\`chat\`:{\`playground\`:1}}`}"))
    (js "chat") (js "playground") = true.
Proof. vm_compute. by split. Qed.

End NavModules.
