(* ===== verification/ChannelModels.v ===== *)
(** * Channel model lists, model mappings and status code mappings

    Models three files of [web/default/src/features/channels/lib]:
    [model-mapping-validation.ts] (Module ModelMapping),
    [status-code-risk-guard.ts] (Module StatusGuard) and
    [upstream-update-utils.ts] with [parseModelRemovalMeta] of
    [channel-utils.ts] (Module UpstreamMeta).  The texts of the form are JSON
    objects; a [Set] turned back into an array is [uniq]. *)
From S2P Require Import Prelude JSString JSNumber JSON.

Definition COMMA : jschar := 44%N.

Module ModelMapping.

Definition parseModelsString (modelsStr : jsstr) : list jsstr :=
  match modelsStr with
  | [] => []
  | _ => filter_bool (map trim (split_on COMMA modelsStr))
  end.

Definition formatModelsArray (models : list jsstr) : jsstr := join [COMMA] (uniq models).

(** The [typeof] test of the source always holds on a string. *)
Definition normalizeModelName (model : jsstr) : jsstr := trim model.

Definition extractMappingSourceModels (modelMapping : jsstr) : list jsstr :=
  let trimmed := trim modelMapping in
  match trimmed with
  | [] => []
  | _ =>
      match JSON_parse trimmed with
      | Some (JObj parsed) => uniq (filter_bool (map trim (obj_keys parsed)))
      | _ => []
      end
  end.

Definition extractRedirectModels (modelMapping : jsstr) : list jsstr :=
  let trimmed := trim modelMapping in
  match trimmed with
  | [] => []
  | _ =>
      match JSON_parse trimmed with
      | Some (JObj parsed) =>
          let values := map (λ value, match value with JStr s => trim s | _ => [] end)
                            (obj_values parsed) in
          uniq (filter_bool values)
      | _ => []
      end
  end.

(** The loop compares the two arrays index by index. *)
Fixpoint models_differ (a b : list jsstr) : bool :=
  match a, b with
  | x :: a', y :: b' => negb (bool_decide (x = y)) || models_differ a' b'
  | _, _ => false
  end.

Definition hasModelConfigChanged (currentModels : list jsstr) (currentModelMapping : jsstr)
    (initialModels : list jsstr) (initialModelMapping : jsstr) : bool :=
  if (length initialModels =? 0) && negb (nonempty initialModelMapping) then true else
  if negb (length currentModels =? length initialModels) then true else
  if models_differ currentModels initialModels then true else
  negb (bool_decide (trim currentModelMapping = trim initialModelMapping)).

Definition findMissingModelsInMapping (modelMapping : jsstr) (currentModels : list jsstr)
    : list jsstr :=
  if negb (nonempty modelMapping) || negb (nonempty (trim modelMapping)) then [] else
  match JSON_parse modelMapping with
  | Some (JObj parsedMapping) =>
      let modelSet := map normalizeModelName currentModels in
      let missingModels :=
        List.filter (λ key, nonempty key && negb (bool_decide (key ∈ modelSet)))
          (map normalizeModelName (obj_keys parsedMapping)) in
      uniq missingModels
  | _ => []
  end.

(** [{ valid, error }]: [None] is [{ valid: true }], [Some e] carries the error. *)
Definition validateModelMappingJson (modelMapping : jsstr) : option jsstr :=
  if negb (nonempty modelMapping) || negb (nonempty (trim modelMapping)) then None else
  match JSON_parse modelMapping with
  | Some (JObj _) => None
  | Some _ => Some (js "Model mapping must be a valid JSON object")
  | None => Some (js "Model mapping must be valid JSON format")
  end.

Definition findExposedTargetModels (modelMapping : jsstr) (currentModels : list jsstr)
    : list jsstr :=
  let redirectModels := extractRedirectModels modelMapping in
  match redirectModels with
  | [] => []
  | _ =>
      let modelSet := map normalizeModelName currentModels in
      List.filter (λ model, bool_decide (normalizeModelName model ∈ modelSet)) redirectModels
  end.

Record Categories := {
  normalizedCurrentModels : list jsstr;
  normalizedRedirectModels : list jsstr;
  classificationSet : list jsstr;
  redirectOnlySet : list jsstr;
}.

(** The four sets, in insertion order. *)
Definition categorizeModelsWithRedirect (currentModels redirectModels : list jsstr)
    : Categories :=
  let cur := uniq (filter_bool (map normalizeModelName currentModels)) in
  let red := uniq (filter_bool (map normalizeModelName redirectModels)) in
  {| normalizedCurrentModels := cur;
     normalizedRedirectModels := red;
     classificationSet := uniq (cur ++ red);
     redirectOnlySet := uniq (List.filter (λ m, negb (bool_decide (m ∈ cur))) red) |}.

(** ** Lemmas *)

Lemma elem_of_clean_names x l :
  x ∈ uniq (filter_bool (map trim l)) ↔ x ≠ [] ∧ ∃ y, y ∈ l ∧ x = trim y.
Proof.
  rewrite elem_of_uniq, elem_of_filter_bool. rewrite list_elem_of_fmap. naive_solver.
Qed.

Lemma elem_of_missing x m l :
  x ∈ findMissingModelsInMapping m l ↔
  ∃ o, JSON_parse m = Some (JObj o) ∧ trim m ≠ [] ∧ x ≠ [] ∧
       (∃ k, k ∈ obj_keys o ∧ x = trim k) ∧ x ∉ map trim l.
Proof.
  unfold findMissingModelsInMapping.
  destruct (nonempty m) eqn:Hm; simpl; last first.
  { destruct m; [|done]. split; [set_solver|]. by intros (?&_&[]&_). }
  destruct (nonempty (trim m)) eqn:Ht; simpl; last first.
  { destruct (trim m); [|done]. split; [set_solver|]. by intros (?&_&[]&_). }
  assert (trim m ≠ []) as Hne by (by intros E; rewrite E in Ht).
  destruct (JSON_parse m) as [[| | | | |o]|]; try (split; [set_solver|naive_solver]).
  rewrite elem_of_uniq, list_elem_of_In, filter_In, <- list_elem_of_In, list_elem_of_fmap.
  rewrite andb_true_iff, negb_true_iff, bool_decide_eq_false. unfold normalizeModelName.
  destruct x; naive_solver.
Qed.

Lemma models_differ_false a b : length a = length b → models_differ a b = false ↔ a = b.
Proof.
  revert b. induction a as [|x a IH]; intros [|y b]; simpl; try done.
  intros [= Hl]. rewrite orb_false_iff, negb_false_iff, bool_decide_eq_true, IH by done.
  naive_solver.
Qed.

(** The models reported missing are exactly the non-empty, trimmed keys
    of a mapping that parses to an object which the model list does not name,
    each reported once; adding them to the list leaves nothing missing. *)
Theorem missing_models_spec m l :
  NoDup (findMissingModelsInMapping m l) ∧
  (∀ x, x ∈ findMissingModelsInMapping m l ↔
    ∃ o, JSON_parse m = Some (JObj o) ∧ trim m ≠ [] ∧ x ≠ [] ∧
         (∃ k, k ∈ obj_keys o ∧ x = trim k) ∧ x ∉ map trim l) ∧
  findMissingModelsInMapping m (l ++ findMissingModelsInMapping m l) = [].
Proof.
  split; [|split; [intros; apply elem_of_missing|]].
  - unfold findMissingModelsInMapping. repeat case_match; try constructor. apply NoDup_uniq.
  - apply elem_of_nil_inv. intros x (o & Ho & Hm & Hx & (k & Hk & ->) & Hn)%elem_of_missing.
    apply Hn. rewrite map_app, elem_of_app. right. apply list_elem_of_fmap.
    exists (trim k). split; [by rewrite trim_idemp|]. apply elem_of_missing.
    exists o. split_and!; eauto. intros Hin. apply Hn. rewrite map_app. set_solver.
Qed.

(** The classification of the models is the current models followed by
    the redirect targets that are not among them, without repetition: the
    redirect-only set is the difference and the two parts are disjoint. *)
Theorem categorize_partition cur red :
  let c := categorizeModelsWithRedirect cur red in
  classificationSet c = normalizedCurrentModels c ++ redirectOnlySet c ∧
  NoDup (classificationSet c) ∧
  (∀ m, m ∈ redirectOnlySet c ↔
     m ∈ normalizedRedirectModels c ∧ m ∉ normalizedCurrentModels c) ∧
  (∀ m, m ∈ normalizedCurrentModels c ↔ m ≠ [] ∧ ∃ y, y ∈ cur ∧ m = trim y).
Proof.
  intros c. subst c. simpl.
  set (a := uniq (filter_bool (map normalizeModelName cur))).
  set (b := uniq (filter_bool (map normalizeModelName red))).
  assert (NoDup a) as Ha by apply NoDup_uniq. assert (NoDup b) as Hb by apply NoDup_uniq.
  assert (NoDup (List.filter (λ m, negb (bool_decide (m ∈ a))) b)) as Hf.
  { apply NoDup_ListNoDup, List.NoDup_filter. by apply NoDup_ListNoDup. }
  assert (∀ m, m ∈ List.filter (λ m, negb (bool_decide (m ∈ a))) b ↔ m ∈ b ∧ m ∉ a) as He.
  { intros m. rewrite list_elem_of_In, filter_In, <- list_elem_of_In.
    by rewrite negb_true_iff, bool_decide_eq_false. }
  rewrite (uniq_NoDup _ Hf). split; [|split; [apply NoDup_uniq|split; [done|]]].
  - apply uniq_app_diff; done.
  - intros m. apply elem_of_clean_names.
Qed.

(** No redirect target is exposed once the exposed ones are dropped from
    the model list, and a target is reported exactly when it is the trimmed
    string value of a mapping entry and some entry of the list trims to it. *)
Theorem exposed_targets_spec m l :
  (∀ x, x ∈ findExposedTargetModels m l ↔ x ∈ extractRedirectModels m ∧ x ∈ map trim l) ∧
  findExposedTargetModels m
    (filter (λ y, trim y ∉ findExposedTargetModels m l) l) = [].
Proof.
  assert (∀ x, x ∈ extractRedirectModels m → trim x = x) as Htrim.
  { unfold extractRedirectModels. intros x. repeat case_match; try set_solver.
    rewrite elem_of_uniq, elem_of_filter_bool. intros [(v & -> & _)%list_elem_of_fmap _].
    destruct v; try done. apply trim_idemp. }
  assert (∀ l x, x ∈ findExposedTargetModels m l ↔
            x ∈ extractRedirectModels m ∧ x ∈ map trim l) as Hspec.
  { intros l' x. unfold findExposedTargetModels.
    destruct (extractRedirectModels m) as [|r rs] eqn:E; [set_solver|]. rewrite <- E in *.
    rewrite list_elem_of_In, filter_In, <- list_elem_of_In, bool_decide_eq_true.
    unfold normalizeModelName.
    split; [intros [Hx Hi]|intros [Hx Hi]]; (split; [done|]); by rewrite Htrim in *. }
  split; [apply Hspec|]. apply elem_of_nil_inv. intros x [Hx Hin]%Hspec.
  apply list_elem_of_fmap in Hin as (y & -> & [Hn Hy]%list_elem_of_filter).
  apply Hn, Hspec. split; [done|]. apply list_elem_of_fmap. eauto.
Qed.

(** An edited channel counts as unchanged exactly when it had a
    configuration before, its models are the same in the same order, and its
    mapping is the same text up to surrounding white space. *)
Theorem config_unchanged_spec cm cmap im imap :
  hasModelConfigChanged cm cmap im imap = false ↔
  (im ≠ [] ∨ imap ≠ []) ∧ cm = im ∧ trim cmap = trim imap.
Proof.
  unfold hasModelConfigChanged.
  destruct ((length im =? 0) && negb (nonempty imap)) eqn:E0.
  { apply andb_true_iff in E0 as [E1 E2]. apply Nat.eqb_eq in E1.
    destruct im, imap; try done. naive_solver. }
  assert (im ≠ [] ∨ imap ≠ []) as Hne.
  { destruct im; [|by left]. destruct imap; [done|by right]. }
  destruct (Nat.eqb_spec (length cm) (length im)) as [Hl|Hl]; simpl; last first.
  { split; [done|]. intros (_ & -> & _). done. }
  destruct (models_differ cm im) eqn:Ed.
  - split; [done|]. intros (_ & <- & _).
    rewrite (proj2 (models_differ_false cm cm eq_refl) eq_refl) in Ed. done.
  - apply models_differ_false in Ed; [|done]. rewrite negb_false_iff, bool_decide_eq_true.
    naive_solver.
Qed.

End ModelMapping.

Module StatusGuard.

Definition NON_REDIRECTABLE_STATUS_CODES : list Z := [504; 524]%Z.

(** [/^[1-5]\d{2}$/] *)
Definition is_code_text (s : jsstr) : bool :=
  match s with
  | [a; b; c] => (49 <=? a)%N && (a <=? 53)%N && is_digit b && is_digit c
  | _ => false
  end.

Definition parseStatusCodeKey (rawKey : jsstr) : option Z :=
  let normalized := trim rawKey in
  if negb (is_code_text normalized) then None else Some (Z.of_N (digits_value normalized)).

Definition parseStatusCodeMappingTarget (rawValue : json) : option Z :=
  match rawValue with
  | JNum n =>
      match num_integer n with
      | Some z => if (100 <=? z)%Z && (z <=? 599)%Z then Some z else None
      | None => None
      end
  | JStr s =>
      let normalized := trim s in
      if negb (is_code_text normalized) then None else
      let code := Z.of_N (digits_value normalized) in
      if (100 <=? code)%Z && (code <=? 599)%Z then Some code else None
  | _ => None
  end.

(** The entries of a mapping text, [None] where the function returns early. *)
Definition mapping_entries (statusCodeMappingStr : jsstr) : option (obj json) :=
  if negb (nonempty (trim statusCodeMappingStr)) then None else
  match JSON_parse statusCodeMappingStr with
  | Some (JObj parsed) => Some parsed
  | _ => None
  end.

Definition ARROW : jsstr := js " " ++ [8594%N] ++ js " ".

Definition collectInvalidStatusCodeEntries (statusCodeMappingStr : jsstr) : list jsstr :=
  match mapping_entries statusCodeMappingStr with
  | None => []
  | Some parsed =>
      omap (λ '(rawKey, rawValue),
        match parseStatusCodeKey rawKey, parseStatusCodeMappingTarget rawValue with
        | Some _, Some _ => None
        | _, _ => Some (rawKey ++ ARROW ++ json_to_string rawValue)
        end) parsed
  end.

Definition redirect_text (fromCode toCode : Z) : jsstr :=
  string_of_Z fromCode ++ js " -> " ++ string_of_Z toCode.

(** One turn of the loop over the entries. *)
Definition risky_entry (e : jsstr * json) : option jsstr :=
  match parseStatusCodeKey e.1, parseStatusCodeMappingTarget e.2 with
  | Some fromCode, Some toCode =>
      if negb (bool_decide (fromCode ∈ NON_REDIRECTABLE_STATUS_CODES)) then None else
      if (fromCode =? toCode)%Z then None else Some (redirect_text fromCode toCode)
  | _, _ => None
  end.

Definition collectDisallowedStatusCodeRedirects (statusCodeMappingStr : jsstr) : list jsstr :=
  match mapping_entries statusCodeMappingStr with
  | None => []
  | Some parsed => js_sort str_compare (uniq (omap risky_entry parsed))
  end.

Definition collectNewDisallowedStatusCodeRedirects (originalStr currentStr : jsstr)
    : list jsstr :=
  let currentRisky := collectDisallowedStatusCodeRedirects currentStr in
  match currentRisky with
  | [] => []
  | _ =>
      let originalRiskySet := collectDisallowedStatusCodeRedirects originalStr in
      List.filter (λ mapping, negb (bool_decide (mapping ∈ originalRiskySet))) currentRisky
  end.

(** ** Lemmas *)

(** A redirect the mapping asks for: an entry whose key and value read as the
    codes [f] and [t]. *)
Definition redirects (s : jsstr) (f t : Z) : Prop :=
  ∃ o k v, mapping_entries s = Some o ∧ (k, v) ∈ o ∧
    parseStatusCodeKey k = Some f ∧ parseStatusCodeMappingTarget v = Some t.

Lemma string_of_Z_inj_nonneg a b :
  (0 <= a)%Z → (0 <= b)%Z → string_of_Z a = string_of_Z b → a = b.
Proof.
  intros Ha Hb. unfold string_of_Z.
  destruct (Z.ltb_spec a 0), (Z.ltb_spec b 0); try lia. intros E%(inj string_of_N). lia.
Qed.

Lemma target_range v t : parseStatusCodeMappingTarget v = Some t → (100 <= t <= 599)%Z.
Proof.
  unfold parseStatusCodeMappingTarget. intros H. repeat case_match; simplify_eq/=;
    bool_hyps; rewrite ?Z.leb_le in *; lia.
Qed.

(** The printed redirect determines the two codes. *)
Lemma redirect_text_inj f t f' t' :
  f ∈ NON_REDIRECTABLE_STATUS_CODES → f' ∈ NON_REDIRECTABLE_STATUS_CODES →
  (100 <= t)%Z → (100 <= t')%Z →
  redirect_text f t = redirect_text f' t' → f = f' ∧ t = t'.
Proof.
  unfold NON_REDIRECTABLE_STATUS_CODES, redirect_text. intros Hf Hf' Ht Ht' E.
  rewrite !elem_of_cons, elem_of_nil in Hf, Hf'.
  destruct Hf as [->|[->|[]]], Hf' as [->|[->|[]]];
    repeat match type of E with
    | context [string_of_Z (Zpos ?p)] =>
        let v := eval vm_compute in (string_of_Z (Zpos p)) in
        change (string_of_Z (Zpos p)) with v in E end;
    js_lit_in E; simpl in E; simplify_eq; split; try done;
    apply string_of_Z_inj_nonneg; lia || done.
Qed.

Lemma elem_of_disallowed s x :
  x ∈ collectDisallowedStatusCodeRedirects s ↔
  ∃ f t, x = redirect_text f t ∧ redirects s f t ∧
         f ∈ NON_REDIRECTABLE_STATUS_CODES ∧ f ≠ t.
Proof.
  unfold collectDisallowedStatusCodeRedirects, redirects.
  destruct (mapping_entries s) as [o|]; [|split; [set_solver|naive_solver]].
  rewrite elem_of_js_sort, elem_of_uniq, list_elem_of_omap. split.
  - intros ([k v] & Hkv & He). unfold risky_entry in He. simpl in He.
    destruct (parseStatusCodeKey k) as [f|] eqn:Ek; [|done].
    destruct (parseStatusCodeMappingTarget v) as [t|] eqn:Ev; [|done].
    case_bool_decide as Hf; [|done]. simpl in He.
    destruct (Z.eqb_spec f t); [done|]. simplify_eq. eauto 15.
  - intros (f & t & -> & (o' & k & v & [= <-] & Hkv & Ek & Ev) & Hf & Hne).
    exists (k, v). split; [done|]. unfold risky_entry. simpl. rewrite Ek, Ev.
    rewrite bool_decide_eq_true_2 by done. simpl. by rewrite (proj2 (Z.eqb_neq f t)).
Qed.

(** The redirects reported as disallowed are, in increasing order and once
    each, the texts [f -> t] of the entries whose key reads as 504 or 524
    and whose value reads as a different code; the text names the two codes. *)
Theorem disallowed_redirects_spec s :
  NoDup (collectDisallowedStatusCodeRedirects s) ∧
  StronglySorted (λ a b, (str_compare a b < 0)%Z) (collectDisallowedStatusCodeRedirects s) ∧
  ∀ f t, f ∈ NON_REDIRECTABLE_STATUS_CODES → (100 <= t)%Z →
    redirect_text f t ∈ collectDisallowedStatusCodeRedirects s ↔ redirects s f t ∧ f ≠ t.
Proof.
  assert (NoDup (collectDisallowedStatusCodeRedirects s)) as Hnd.
  { unfold collectDisallowedStatusCodeRedirects. case_match; [|constructor].
    rewrite js_sort_perm. apply NoDup_uniq. }
  split; [done|]. split.
  - assert (StronglySorted (cmp_le str_compare) (collectDisallowedStatusCodeRedirects s)) as Hs.
    { unfold collectDisallowedStatusCodeRedirects. case_match; [|constructor].
      apply js_sort_sorted, _. }
    induction Hs as [|x l Hs IH Hx]; [constructor|].
    apply NoDup_cons in Hnd as [Hn Hnd]. constructor; [auto|].
    rewrite Forall_forall in Hx |- *. intros y Hy. specialize (Hx y Hy). unfold cmp_le in Hx.
    destruct (decide (str_compare x y = 0)%Z) as [E%str_compare_eq|]; [|lia].
    subst. done.
  - intros f t Hf Ht. rewrite elem_of_disallowed. split; [|naive_solver].
    intros (f' & t' & E & Hr & Hf' & Hne).
    assert (100 <= t')%Z as Ht'.
    { destruct Hr as (o & k & v & _ & _ & _ & Hv). apply target_range in Hv. lia. }
    destruct (redirect_text_inj _ _ _ _ Hf Hf' Ht Ht' E) as [-> ->]. done.
Qed.

(** The guard of an edit: the risky redirects of the new text that the old
    text did not have. *)
Lemma elem_of_new_disallowed o c x :
  x ∈ collectNewDisallowedStatusCodeRedirects o c ↔
  x ∈ collectDisallowedStatusCodeRedirects c ∧ x ∉ collectDisallowedStatusCodeRedirects o.
Proof.
  unfold collectNewDisallowedStatusCodeRedirects.
  destruct (collectDisallowedStatusCodeRedirects c) as [|y l] eqn:E; [set_solver|].
  rewrite <- E, list_elem_of_In, filter_In, <- list_elem_of_In.
  by rewrite negb_true_iff, bool_decide_eq_false.
Qed.

Lemma new_disallowed_self s : collectNewDisallowedStatusCodeRedirects s s = [].
Proof. apply elem_of_nil_inv. intros x. rewrite elem_of_new_disallowed. naive_solver. Qed.

Example guard_example :
  collectDisallowedStatusCodeRedirects (jq "{`524`: 500, `504`: `200`, `404`: 1}")
  = [js "504 -> 200"; js "524 -> 500"].
Proof. vm_compute. reflexivity. Qed.

End StatusGuard.

Module UpstreamMeta.

(** [String(model || '').trim()] *)
Definition model_name (model : json) : jsstr :=
  trim (if json_truthy model then json_to_string model else []).

(** [models] is whatever the settings hold: a truthy value that is no array
    has no [map] and the call throws ([None]). *)
Definition normalizeModelList (models : json) : option (list jsstr) :=
  if negb (json_truthy models) then Some [] else
  match models with
  | JArr l => Some (uniq (filter_bool (map model_name l)))
  | _ => None
  end.

(** What both readers do first: an object as it is, a text through
    [JSON.parse].  An array that the text holds passes the [typeof] test and
    has none of the properties. *)
Definition parsed_settings (settings : json) : option (obj json) :=
  match settings with
  | JObj o => Some o
  | JStr s => match JSON_parse s with
              | Some (JObj o) => Some o
              | Some (JArr _) => Some []
              | _ => None
              end
  | _ => None
  end.

(** A property that may be [undefined], with [|| []]. *)
Definition list_property (k : jsstr) (o : obj json) : json :=
  match obj_get k o with
  | Some v => if json_truthy v then v else JArr []
  | None => JArr []
  end.

Record UpstreamUpdateMeta := {
  enabled : bool;
  pendingAddModels : list jsstr;
  pendingRemoveModels : list jsstr;
}.

Definition parseUpstreamUpdateMeta (settings : json) : option UpstreamUpdateMeta :=
  match parsed_settings settings with
  | None => Some {| enabled := false; pendingAddModels := []; pendingRemoveModels := [] |}
  | Some parsed =>
      add ← normalizeModelList
        (list_property (js "upstream_model_update_last_detected_models") parsed);
      rem ← normalizeModelList
        (list_property (js "upstream_model_update_last_removed_models") parsed);
      Some {| enabled := bool_decide (obj_get (js "upstream_model_update_check_enabled") parsed
                                      = Some (JBool true));
              pendingAddModels := add; pendingRemoveModels := rem |}
  end.

Record ModelRemovalMeta := {
  removedModels : list jsstr;
  reasons : obj jsstr;
  recheckAt : num;
}.

Definition removal_reasons (rawReasons : option json) : obj jsstr :=
  match rawReasons with
  | Some (JObj o) =>
      foldl (λ acc '(model, reason),
        match reason with
        | JStr ((_ :: _) as r) => obj_set model r acc
        | _ => acc
        end) [] o
  | _ => []
  end.

Definition parseModelRemovalMeta (settings : json) : option ModelRemovalMeta :=
  match parsed_settings settings with
  | None => Some {| removedModels := []; reasons := []; recheckAt := num_zero |}
  | Some parsed =>
      removed ← normalizeModelList (list_property (js "model_missing_removed_models") parsed);
      Some {| removedModels := removed;
              reasons := removal_reasons (obj_get (js "model_removal_reasons") parsed);
              recheckAt := num_or (match obj_get (js "model_missing_recheck_at") parsed with
                                   | Some v => json_to_number v
                                   | None => S754_nan
                                   end) num_zero |}
  end.

(** ** Lemmas *)

(** Model names as the readers return them. *)
Definition clean_names (l : list jsstr) : Prop :=
  NoDup l ∧ Forall (λ m, trimmed m ∧ m ≠ []) l.

Lemma normalizeModelList_clean v l : normalizeModelList v = Some l → clean_names l.
Proof.
  unfold normalizeModelList. destruct (json_truthy v); simpl.
  2: { intros [= <-]. split; constructor. }
  destruct v; try done. intros [= <-]. split; [apply NoDup_uniq|].
  apply Forall_forall. intros m. rewrite elem_of_uniq, elem_of_filter_bool.
  intros [(x & -> & _)%list_elem_of_fmap Hne]. split; [apply trim_trimmed|done].
Qed.

(** Normalising a normalised list changes nothing. *)
Lemma normalizeModelList_names l : clean_names l → normalizeModelList (JArr (map JStr l)) = Some l.
Proof.
  intros [Hnd Hl]. unfold normalizeModelList. simpl. f_equal.
  rewrite map_map. assert (map (λ x, model_name (JStr x)) l = l) as ->.
  { rewrite <- (map_id l) at 2. apply map_ext_in. intros m Hm%list_elem_of_In.
    rewrite Forall_forall in Hl. destruct (Hl m Hm) as [Ht Hne]. destruct m; done. }
  rewrite filter_bool_id; [by apply uniq_NoDup|].
  eapply Forall_impl; [done|]. naive_solver.
Qed.

Lemma normalizeModelList_idemp v l :
  normalizeModelList v = Some l → normalizeModelList (JArr (map JStr l)) = Some l.
Proof. intros ?%normalizeModelList_clean. by apply normalizeModelList_names. Qed.

Lemma obj_get_removal_reasons_fold o acc k :
  NoDup (obj_keys o) →
  obj_get k (foldl (λ acc '(model, reason),
        match reason with
        | JStr ((_ :: _) as r) => obj_set model r acc
        | _ => acc
        end) acc o) =
  match obj_get k o with
  | Some (JStr (c :: r)) => Some (c :: r)
  | _ => obj_get k acc
  end.
Proof.
  revert acc. induction o as [|[k' v] o IH]; intros acc Hnd; simpl; [done|].
  apply NoDup_cons in Hnd as [Hk Hnd]. rewrite IH by done.
  destruct (decide (k = k')) as [->|Hne].
  - simpl in Hk. apply obj_get_None in Hk. rewrite Hk.
    destruct v as [| | |[|c r]| |]; simpl; try done. apply obj_get_set_eq.
  - assert (∀ r, obj_get k (obj_set k' r acc) = obj_get k acc) as Hs.
    { intros r. by apply obj_get_set_ne. }
    destruct v as [| | |[|c r]| |]; simpl; try done. by rewrite Hs.
Qed.

(** Reading the removal state of a channel fails only where the list of
    removed models is a truthy value that is no array; otherwise the models
    are trimmed, not empty and pairwise different, and the reason of a model
    is its entry of the settings when that is a non-empty string. *)
Theorem removal_meta_spec o :
  let removed := obj_get (js "model_missing_removed_models") o in
  match parseModelRemovalMeta (JObj o) with
  | None => ∃ v, removed = Some v ∧ json_truthy v = true ∧ ∀ l, v ≠ JArr l
  | Some meta =>
      clean_names (removedModels meta) ∧
      ∀ r, obj_get (js "model_removal_reasons") o = Some (JObj r) → NoDup (obj_keys r) →
        ∀ model text, obj_get model (reasons meta) = Some text ↔
          obj_get model r = Some (JStr text) ∧ text ≠ []
  end.
Proof.
  intros removed. unfold parseModelRemovalMeta. simpl.
  set (lp := list_property (js "model_missing_removed_models") o).
  destruct (normalizeModelList lp) as [l|] eqn:E; simpl.
  - split; [by eapply normalizeModelList_clean|]. intros r -> Hr model text. simpl.
    rewrite obj_get_removal_reasons_fold by done. simpl.
    destruct (obj_get model r) as [[| | |[|c t]| |]|]; naive_solver.
  - subst lp removed. unfold list_property in E.
    destruct (obj_get _ o) as [v|]; [|done].
    exists v. destruct (json_truthy v) eqn:Ht; [|done]. split; [done|]. split; [done|].
    intros l ->. by unfold normalizeModelList in E.
Qed.

(** Settings whose list of removed models is a string make the reader throw. *)
Example removal_meta_throws :
  parseModelRemovalMeta (JStr (jq "{`model_missing_removed_models`:`gpt-4`}")) = None.
Proof. vm_compute. reflexivity. Qed.

End UpstreamMeta.
