(* ===== verification/Playground.v ===== *)
(** * The playground: chat messages and the streamed request

    Models [features/playground] and [lib/relay-client.ts] under
    [web/default/src]: Module Messages is [lib/message-utils.ts] with
    [lib/payload-builder.ts], Module Relay the reading of an error body, Module
    Chat the hooks [use-stream-request.ts] and [use-chat-handler.ts] as one
    state machine over the events of the server-sent-events connection, with
    the handlers of [index.tsx] that start a request.

    The connection itself (the package sse.js) is not modelled: its events
    arrive in any order.  A fresh identifier ([nanoid()]) is an argument. *)
From S2P Require Import Prelude JSString JSNumber JSON.

Module Messages.

Inductive MessageRole := USER | ASSISTANT | SYSTEM.
Inductive MessageStatus := LOADING | STREAMING | COMPLETE | ERROR.

#[global] Instance MessageRole_eq_dec : EqDecision MessageRole.
Proof. solve_decision. Defined.
#[global] Instance MessageStatus_eq_dec : EqDecision MessageStatus.
Proof. solve_decision. Defined.

(** [id] is missing in a version built from [undefined]. *)
Record MessageVersion := mkVersion { id : option jsstr; content : jsstr }.

Record Reasoning := mkReasoning { r_content : jsstr; duration : num }.

(** An optional field is an [option]; [errorCode] holds any value of the
    server's answer, [JNull] for [null]. *)
Record Message := mkMessage {
  key : jsstr;
  from : MessageRole;
  versions : list MessageVersion;
  sources : option (list (jsstr * jsstr));
  reasoning : option Reasoning;
  isReasoningStreaming : option bool;
  isReasoningComplete : option bool;
  isContentComplete : option bool;
  status : option MessageStatus;
  errorCode : option json;
}.

(** [{ ...m, versions }] and so on. *)
Definition set_versions (v : list MessageVersion) (m : Message) : Message :=
  mkMessage (key m) (from m) v (sources m) (reasoning m) (isReasoningStreaming m)
    (isReasoningComplete m) (isContentComplete m) (status m) (errorCode m).
Definition set_reasoning (r : option Reasoning) (streaming : bool) (m : Message) : Message :=
  mkMessage (key m) (from m) (versions m) (sources m) r (Some streaming)
    (isReasoningComplete m) (isContentComplete m) (status m) (errorCode m).
Definition set_status (s : MessageStatus) (m : Message) : Message :=
  mkMessage (key m) (from m) (versions m) (sources m) (reasoning m) (isReasoningStreaming m)
    (isReasoningComplete m) (isContentComplete m) (Some s) (errorCode m).
Definition set_error (code : json) (m : Message) : Message :=
  mkMessage (key m) (from m) (versions m) (sources m) (reasoning m) (Some false)
    (isReasoningComplete m) (isContentComplete m) (Some ERROR) (Some code).

Definition API_REQUEST_ERROR : jsstr := js "Request error occurred".
Definition NETWORK_ERROR : jsstr := js "Network connection failed or server not responding".
Definition PARSE_ERROR : jsstr := js "Error parsing response data".
Definition STREAM_START_ERROR : jsstr := js "Error establishing connection".
Definition INTERRUPTED : jsstr := js "Generation was interrupted".

Definition createMessageVersion (nanoid content : jsstr) : MessageVersion :=
  mkVersion (Some nanoid) content.

Definition getCurrentVersion (message : Message) : MessageVersion :=
  match versions message with
  | v :: _ => v
  | [] => mkVersion (Some (js "default")) []
  end.

Definition updateCurrentVersionContent (message : Message) (content : jsstr) : Message :=
  let currentVersion := getCurrentVersion message in
  set_versions [mkVersion (id currentVersion) content] message.

Definition createUserMessage (nanoid1 nanoid2 content : jsstr) : Message :=
  mkMessage nanoid1 USER [createMessageVersion nanoid2 content]
    None None None None None None None.

Definition createLoadingAssistantMessage (nanoid1 nanoid2 : jsstr) : Message :=
  mkMessage nanoid1 ASSISTANT [createMessageVersion nanoid2 []]
    None None (Some false) (Some false) (Some false) (Some LOADING) None.

Inductive ContentPart := TextPart (text : option jsstr) | ImagePart (url : jsstr).
Inductive Content := CText (s : jsstr) | CParts (parts : list ContentPart).

Definition buildMessageContent (text : jsstr) (imageUrls : list jsstr) : Content :=
  let validImages := List.filter (λ url, nonempty (trim url)) imageUrls in
  match validImages with
  | [] => CText text
  | _ => CParts (TextPart (Some text) :: map (λ url, ImagePart (trim url)) validImages)
  end.

Definition getTextContent (content : Content) : jsstr :=
  match content with
  | CText s => s
  | CParts parts =>
      match List.find (λ p, match p with TextPart _ => true | _ => false end) parts with
      | Some (TextPart (Some text)) => text
      | _ => []
      end
  end.

Definition formatMessageForAPI (message : Message) : MessageRole * jsstr :=
  (from message, content (getCurrentVersion message)).

Definition isValidMessage (message : Message) : bool :=
  match versions message with
  | [] => false
  | v :: _ =>
      if bool_decide (from message = ASSISTANT) && negb (nonempty (trim (content v)))
      then false else true
  end.

(** ** Think tags *)

Definition OPEN : jsstr := js "<think>".
Definition CLOSE : jsstr := js "</think>".

(** The loop, from [currentPos]; [fuel] bounds the number of turns. *)
Fixpoint think_loop (fuel : nat) (content : jsstr) (currentPos : nat)
    (visibleParts reasoningParts : list jsstr) : list jsstr * list jsstr * bool :=
  match fuel with
  | O => (visibleParts, reasoningParts, false)
  | S f =>
      match index_of_from OPEN content currentPos with
      | None =>
          (if currentPos <? length content then visibleParts ++ [drop currentPos content]
           else visibleParts, reasoningParts, false)
      | Some openPos =>
          let visibleParts :=
            if currentPos <? openPos then visibleParts ++ [slice currentPos openPos content]
            else visibleParts in
          match index_of_from CLOSE content (openPos + 7) with
          | None => (visibleParts, reasoningParts ++ [drop (openPos + 7) content], true)
          | Some closePos =>
              think_loop f content (closePos + 8) visibleParts
                (reasoningParts ++ [slice (openPos + 7) closePos content])
          end
      end
  end.

Record Thinking := mkThinking {
  visibleContent : jsstr; t_reasoning : jsstr; hasUnclosedTag : bool }.

Definition parseThinkTags (content : jsstr) : Thinking :=
  if negb (includes OPEN content) then mkThinking content [] false else
  let '(visibleParts, reasoningParts, hasUnclosed) :=
    think_loop (S (length content)) content 0 [] [] in
  mkThinking (trim (join [] visibleParts)) (trim (join [10; 10]%N reasoningParts)) hasUnclosed.

(** ** Updates of the last assistant message *)

Definition updateLastAssistantMessage (messages : list Message) (updater : Message → Message)
    : list Message :=
  match last messages with
  | Some m =>
      if bool_decide (from m = ASSISTANT)
      then take (length messages - 1) messages ++ [updater m] else messages
  | None => messages
  end.

Definition updateAssistantMessageWithError (messages : list Message) (errorMessage : jsstr)
    (code : option json) : list Message :=
  updateLastAssistantMessage messages (λ message,
    set_error (match code with Some c => if json_truthy c then c else JNull | None => JNull end)
      (updateCurrentVersionContent message (API_REQUEST_ERROR ++ js ": " ++ errorMessage))).

Definition processStreamingContent (message : Message) (contentChunk : jsstr) : Message :=
  let currentVersion := getCurrentVersion message in
  let fullContent := content currentVersion ++ contentChunk in
  let t := parseThinkTags fullContent in
  let finalReasoning :=
    if nonempty (t_reasoning t) then Some (mkReasoning (t_reasoning t) num_zero)
    else reasoning message in
  set_reasoning finalReasoning (hasUnclosedTag t)
    (updateCurrentVersionContent message fullContent).

Definition finalizeMessage (message : Message) (apiReasoningContent : option jsstr) : Message :=
  let currentVersion := getCurrentVersion message in
  let t := parseThinkTags (content currentVersion) in
  let finalReasoning :=
    str_or (opt_or apiReasoningContent [])
      (str_or (match reasoning message with Some r => r_content r | None => [] end)
        (t_reasoning t)) in
  set_reasoning
    (if nonempty finalReasoning
     then Some (mkReasoning finalReasoning
                  (match reasoning message with
                   | Some r => num_or (duration r) num_zero | None => num_zero end))
     else None)
    false (updateCurrentVersionContent message (visibleContent t)).

Definition stuck (m : Message) : bool :=
  bool_decide (from m = ASSISTANT) &&
  (bool_decide (status m = Some LOADING) || bool_decide (status m = Some STREAMING)).

(** The index of the last message that is stuck. *)
Fixpoint last_stuck (messages : list Message) : option nat :=
  match messages with
  | [] => None
  | m :: l =>
      match last_stuck l with
      | Some i => Some (S i)
      | None => if stuck m then Some 0 else None
      end
  end.

Definition sanitize_message (m : Message) : Message :=
  let finalized := finalizeMessage m None in
  let hasContent :=
    match versions finalized with v :: _ => nonempty (trim (content v)) | [] => false end in
  let hasReasoning :=
    match reasoning finalized with Some r => nonempty (trim (r_content r)) | None => false end in
  if hasContent || hasReasoning
  then set_reasoning (reasoning finalized) false (set_status COMPLETE finalized)
  else
    let m' := updateCurrentVersionContent finalized
                (API_REQUEST_ERROR ++ js ": " ++ INTERRUPTED) in
    set_reasoning (reasoning m') false (set_status ERROR m').

Definition sanitizeMessagesOnLoad (messages : list Message) : list Message :=
  match last_stuck messages with
  | None => messages
  | Some targetIndex =>
      match messages !! targetIndex with
      | Some m => <[targetIndex := sanitize_message m]> messages
      | None => messages
      end
  end.

(** ** The payload of a request *)

Record PlaygroundConfig := {
  model : jsstr;
  tokenId : option Z;
  temperature : option num;
  top_p : option num;
  max_tokens : option num;
  frequency_penalty : option num;
  presence_penalty : option num;
  seed : option num;
  stream : bool;
}.

Record ParameterEnabled := {
  e_temperature : bool;
  e_top_p : bool;
  e_max_tokens : bool;
  e_frequency_penalty : bool;
  e_presence_penalty : bool;
  e_seed : bool;
}.

Definition role_text (r : MessageRole) : jsstr :=
  match r with USER => js "user" | ASSISTANT => js "assistant" | SYSTEM => js "system" end.

Definition api_message (m : MessageRole * jsstr) : json :=
  JObj [(js "role", JStr (role_text m.1)); (js "content", JStr m.2)].

(** The parameters in the order of [parameterKeys], with their switch and
    their value; [None] is [null] or [undefined]. *)
Definition parameters (config : PlaygroundConfig) (enabled : ParameterEnabled)
    : list (jsstr * (bool * option num)) :=
  [(js "temperature", (e_temperature enabled, temperature config));
   (js "top_p", (e_top_p enabled, top_p config));
   (js "max_tokens", (e_max_tokens enabled, max_tokens config));
   (js "frequency_penalty", (e_frequency_penalty enabled, frequency_penalty config));
   (js "presence_penalty", (e_presence_penalty enabled, presence_penalty config));
   (js "seed", (e_seed enabled, seed config))].

Definition buildChatCompletionPayload (messages : list Message) (config : PlaygroundConfig)
    (parameterEnabled : ParameterEnabled) : obj json :=
  let processedMessages := map formatMessageForAPI (List.filter isValidMessage messages) in
  let payload :=
    [(js "model", JStr (model config));
     (js "messages", JArr (map api_message processedMessages));
     (js "stream", JBool (stream config))] in
  foldl (λ payload '(key, (on, value)),
    match on, value with
    | true, Some v => obj_set key (JNum v) payload
    | _, _ => payload
    end) payload (parameters config parameterEnabled).

(** ** The blocks of a text with think tags *)

(** A text is a list of blocks, visible text followed by reasoning between
    tags, and a tail that has no tag or one that is not closed. *)
Inductive tail := Plain (v : jsstr) | Unclosed (v r : jsstr).

Definition render (blocks : list (jsstr * jsstr)) (t : tail) : jsstr :=
  foldr (λ b s, b.1 ++ OPEN ++ b.2 ++ CLOSE ++ s)
    (match t with Plain v => v | Unclosed v r => v ++ OPEN ++ r end) blocks.

Definition ok_blocks (blocks : list (jsstr * jsstr)) (t : tail) : Prop :=
  Forall (λ b, includes OPEN b.1 = false ∧ includes CLOSE b.2 = false) blocks ∧
  match t with
  | Plain v => includes OPEN v = false
  | Unclosed v r => includes OPEN v = false ∧ includes CLOSE r = false
  end.

Definition visibles (blocks : list (jsstr * jsstr)) (t : tail) : jsstr :=
  concat (map fst blocks) ++ match t with Plain v => v | Unclosed v _ => v end.
Definition reasonings (blocks : list (jsstr * jsstr)) (t : tail) : list jsstr :=
  map snd blocks ++ match t with Plain _ => [] | Unclosed _ r => [r] end.
Definition is_unclosed (t : tail) : bool :=
  match t with Plain _ => false | Unclosed _ _ => true end.

Lemma OPEN_length : length OPEN = 7. Proof. done. Qed.
Lemma CLOSE_length : length CLOSE = 8. Proof. done. Qed.
Lemma OPEN_ne : OPEN ≠ []. Proof. intros E%(f_equal length). done. Qed.
Lemma CLOSE_ne : CLOSE ≠ []. Proof. intros E%(f_equal length). done. Qed.
#[local] Arguments OPEN : simpl never.
#[local] Arguments CLOSE : simpl never.

Lemma join_nil_app l1 l2 : join [] (l1 ++ l2) = join [] l1 ++ join [] l2.
Proof.
  induction l1 as [|w l1 IH]; [done|]. destruct l1 as [|w' l1], l2 as [|w2 l2]; simpl in *;
    rewrite ?app_nil_r; try done; rewrite IH; by rewrite ?app_nil_r, ?app_assoc.
Qed.

Lemma push_join (b : bool) v l :
  (b = false → v = []) → join [] (if b then l ++ [v] else l) = join [] l ++ v.
Proof.
  intros Hv. destruct b; [by rewrite join_nil_app|]. by rewrite Hv, app_nil_r.
Qed.

(** One turn of the loop, by the text that is left. *)
Lemma think_loop_step f content pos vs rs :
  think_loop (S f) content pos vs rs =
  match index_of OPEN (drop pos content) with
  | None => (if pos <? length content then vs ++ [drop pos content] else vs, rs, false)
  | Some i =>
      let vs := if 0 <? i then vs ++ [take i (drop pos content)] else vs in
      let after := drop (i + 7) (drop pos content) in
      match index_of CLOSE after with
      | None => (vs, rs ++ [after], true)
      | Some j => think_loop f content (pos + i + 7 + j + 8) vs (rs ++ [take j after])
      end
  end.
Proof.
  cbn [think_loop]. unfold index_of_from.
  destruct (index_of OPEN (drop pos content)) as [i|]; cbn [fmap option_fmap option_map]; [|done].
  unfold slice. rewrite !drop_drop.
  replace (pos + i - pos) with i by lia.
  replace (pos <? pos + i) with (0 <? i)
    by (destruct (Nat.ltb_spec 0 i), (Nat.ltb_spec pos (pos + i)); lia).
  replace (pos + i + 7) with (pos + (i + 7)) by lia.
  destruct (index_of CLOSE (drop (pos + (i + 7)) content)) as [j|];
    cbn [fmap option_fmap option_map]; [|done].
  by replace (pos + (i + 7) + j - (pos + (i + 7))) with j by lia.
Qed.

Lemma render_cons v r blocks t :
  render ((v, r) :: blocks) t = v ++ OPEN ++ r ++ CLOSE ++ render blocks t.
Proof. done. Qed.

Lemma think_loop_spec blocks t f content pos vs rs :
  ok_blocks blocks t → drop pos content = render blocks t → length blocks < f →
  ∃ vs', think_loop f content pos vs rs = (vs', rs ++ reasonings blocks t, is_unclosed t) ∧
         join [] vs' = join [] vs ++ visibles blocks t.
Proof.
  revert f pos vs rs. unfold visibles, reasonings, ok_blocks.
  induction blocks as [|[v r] blocks IH]; intros f pos vs rs [Hb Ht] Hd Hf;
    (destruct f as [|f]; [simpl in Hf; lia|]); rewrite think_loop_step, Hd; cbv zeta.
  - destruct t as [v|v r]; cbn [render foldr map concat app is_unclosed].
    + rewrite (proj1 (includes_false _ _) Ht). eexists. split; [by rewrite app_nil_r|].
      assert (length content - pos = length v) as Hl by (by rewrite <- length_drop, Hd).
      apply push_join.
      destruct (Nat.ltb_spec pos (length content)); [done|]. intros _.
      destruct v; [done|simpl in Hl; lia].
    + destruct Ht as [Hv Hr]. rewrite index_of_borderless by done.
      rewrite (take_app_length v).
      replace (drop (length v + 7) (v ++ OPEN ++ r)) with r
        by (rewrite app_assoc; by rewrite drop_app_length' by (rewrite length_app, OPEN_length; lia)).
      rewrite (proj1 (includes_false _ _) Hr). eexists. split; [done|].
      apply push_join. by destruct v.
  - apply Forall_cons in Hb as [[Hv Hr] Hb]. simpl in Hv, Hr. rewrite render_cons.
    rewrite index_of_borderless by done. rewrite (take_app_length v).
    replace (drop (length v + 7) (v ++ OPEN ++ r ++ CLOSE ++ render blocks t))
      with (r ++ CLOSE ++ render blocks t)
      by (rewrite (app_assoc v); by rewrite drop_app_length' by (rewrite length_app, OPEN_length; lia)).
    rewrite index_of_borderless by done. rewrite (take_app_length r).
    destruct (IH f (pos + length v + 7 + length r + 8)
      (if 0 <? length v then vs ++ [v] else vs) (rs ++ [r])) as (vs' & Hl & Hj).
    + done.
    + replace (pos + length v + 7 + length r + 8) with
        (pos + (length v + 7 + length r + 8)) by lia.
      rewrite <- drop_drop, Hd, render_cons. rewrite !app_assoc, drop_app_length'; [done|].
      rewrite !length_app, OPEN_length, CLOSE_length. lia.
    + simpl in Hf. lia.
    + exists vs'. rewrite Hl, Hj. cbn [map concat fst snd]. rewrite <- !app_assoc. split; [done|].
      rewrite push_join by (by destruct v). by rewrite <- app_assoc.
Qed.

Lemma cut_at p s i : p ≠ [] → index_of p s = Some i →
  s = take i s ++ p ++ drop (i + length p) s ∧ includes p (take i s) = false.
Proof.
  intros Hp H. destruct (index_of_Some _ _ _ H) as ([u Hu] & Hl & Hj). split.
  - rewrite <- (take_drop i s) at 1. f_equal. rewrite <- drop_drop, Hu.
    by rewrite drop_app_length.
  - apply includes_false, index_of_None. intros s1 s2 E.
    assert (length s1 < i) as Hlt.
    { apply (f_equal length) in E. rewrite length_take, !length_app in E.
      destruct p; [done|]. simpl in *. lia. }
    specialize (Hj _ Hlt). rewrite <- (take_drop i s), E in Hj.
    rewrite <- !app_assoc, drop_app_length, starts_with_app in Hj. done.
Qed.

(** Every text is made of such blocks. *)
Lemma render_total content : ∃ blocks t, ok_blocks blocks t ∧ content = render blocks t.
Proof.
  induction content as [content IH] using (induction_ltof1 _ length). unfold ltof in IH.
  destruct (index_of OPEN content) as [i|] eqn:Ei; last first.
  { exists [], (Plain content). split; [|done]. split; [constructor|]. by apply includes_false. }
  destruct (cut_at _ _ _ OPEN_ne Ei) as [E Hv].
  set (v := take i content) in *. set (after := drop (i + length OPEN) content) in *.
  destruct (index_of CLOSE after) as [j|] eqn:Ej; last first.
  { exists [], (Unclosed v after). split; [|done]. split; [constructor|].
    split; [done|]. by apply includes_false. }
  destruct (cut_at _ _ _ CLOSE_ne Ej) as [E' Hr].
  set (r := take j after) in *. set (rest := drop (j + length CLOSE) after) in *.
  destruct (IH rest) as (blocks & t & [Hb Ht] & Hrest).
  { rewrite E, E', !length_app, OPEN_length. lia. }
  exists ((v, r) :: blocks), t. split; [split; [by constructor|done]|].
  rewrite render_cons, <- Hrest, <- E'. exact E.
Qed.

Lemma length_render blocks t : length blocks ≤ length (render blocks t).
Proof.
  induction blocks as [|[v r] blocks IH]; [simpl; lia|].
  rewrite render_cons, !length_app, OPEN_length. simpl. lia.
Qed.

Lemma parseThinkTags_render blocks t :
  ok_blocks blocks t → includes OPEN (render blocks t) = true →
  parseThinkTags (render blocks t) =
  mkThinking (trim (visibles blocks t)) (trim (join [10; 10]%N (reasonings blocks t)))
    (is_unclosed t).
Proof.
  intros Hok Hi. unfold parseThinkTags. rewrite Hi. simpl negb. cbn match.
  destruct (think_loop_spec blocks t (S (length (render blocks t))) (render blocks t) 0 [] [])
    as (vs & Hl & Hj); [done|by rewrite drop_0|pose proof (length_render blocks t); lia|].
  rewrite Hl. by rewrite Hj.
Qed.

(** Every message text splits into blocks of visible text, reasoning
    between think tags, and a tail that may be an unclosed block; the reader
    returns the visible texts joined, the reasonings separated by blank
    lines, and whether the last block is open; a text without an opening tag
    is returned as it is. *)
Theorem think_tags_spec content :
  ∃ blocks t, ok_blocks blocks t ∧ content = render blocks t ∧
    parseThinkTags content =
    match blocks, t with
    | [], Plain v => mkThinking v [] false
    | _, _ => mkThinking (trim (visibles blocks t))
                (trim (join [10; 10]%N (reasonings blocks t))) (is_unclosed t)
    end.
Proof.
  destruct (render_total content) as (blocks & t & Hok & ->). exists blocks, t.
  split; [done|]. split; [done|].
  destruct (includes OPEN (render blocks t)) eqn:Hi.
  - rewrite parseThinkTags_render by done. destruct blocks; [|done]. destruct t as [v|]; [|done].
    destruct Hok as [_ Hv]. simpl in Hi. congruence.
  - unfold parseThinkTags. rewrite Hi. simpl.
    assert (¬ includes OPEN (render blocks t) = true) as Hn by congruence.
    rewrite includes_spec in Hn. destruct blocks as [|[v r] blocks].
    + destruct t as [v|v r]; [done|]. destruct Hn. by exists v, r.
    + destruct Hn. exists v, (r ++ CLOSE ++ render blocks t). done.
Qed.

(** ** Sanitising the stored messages *)

Lemma last_stuck_Some ms i :
  last_stuck ms = Some i →
  ∃ m, ms !! i = Some m ∧ stuck m = true ∧
       ∀ j m', i < j → ms !! j = Some m' → stuck m' = false.
Proof.
  revert i. induction ms as [|m ms IH]; intros i; simpl; [done|].
  destruct (last_stuck ms) as [k|] eqn:E.
  - intros [= <-]. destruct (IH k eq_refl) as (m' & Hm & Hs & Hj).
    exists m'. split_and!; [done|done|]. intros [|j] m'' Hlt; [lia|]. apply Hj. lia.
  - destruct (stuck m) eqn:Hm; [|done]. intros [= <-]. exists m. split_and!; [done|done|].
    intros [|j] m' Hlt Hl; [lia|]. simpl in Hl. clear IH Hlt Hm. revert j E Hl.
    induction ms as [|m2 ms IH]; intros j E Hl; [done|]. simpl in E.
    destruct (last_stuck ms) eqn:E2; [done|]. destruct (stuck m2) eqn:H2; [done|].
    destruct j as [|j]; simpl in Hl; [by simplify_eq|by eapply IH].
Qed.

Lemma last_stuck_None ms : last_stuck ms = None → Forall (λ m, stuck m = false) ms.
Proof.
  induction ms as [|m ms IH]; simpl; [constructor|].
  destruct (last_stuck ms); [done|]. destruct (stuck m) eqn:E; [done|]. by constructor; auto.
Qed.

Lemma sanitize_message_stable m :
  (status (sanitize_message m) = Some COMPLETE ∨ status (sanitize_message m) = Some ERROR) ∧
  stuck (sanitize_message m) = false ∧ key (sanitize_message m) = key m.
Proof.
  unfold sanitize_message. destruct (_ || _); unfold stuck; simpl;
    rewrite andb_false_r; split_and!; auto.
Qed.

Lemma count_insert (f : Message → bool) ms i m m' :
  ms !! i = Some m → f m = true → f m' = false →
  length (List.filter f ms) = S (length (List.filter f (<[i := m']> ms))).
Proof.
  revert i. induction ms as [|x ms IH]; intros [|i] Hm Ht Hf; simplify_eq/=.
  - by rewrite Ht, Hf.
  - destruct (f x); simpl; by rewrite (IH i).
Qed.

(** Loading stored messages turns the last assistant message that was
    still loading or streaming into a complete or failed one, with the same
    key, and leaves every other message alone: exactly one stuck message
    disappears, or there was none and nothing changes. *)
Theorem sanitize_spec ms :
  length (sanitizeMessagesOnLoad ms) = length ms ∧
  (sanitizeMessagesOnLoad ms = ms ∧ Forall (λ m, stuck m = false) ms ∨
   ∃ i m m', ms !! i = Some m ∧ stuck m = true ∧
     (∀ j x, i < j → ms !! j = Some x → stuck x = false) ∧
     sanitizeMessagesOnLoad ms = <[i := m']> ms ∧ key m' = key m ∧
     (status m' = Some COMPLETE ∨ status m' = Some ERROR) ∧
     length (List.filter stuck ms) = S (length (List.filter stuck (sanitizeMessagesOnLoad ms)))).
Proof.
  unfold sanitizeMessagesOnLoad. destruct (last_stuck ms) as [i|] eqn:E.
  - destruct (last_stuck_Some _ _ E) as (m & Hm & Hs & Hj). rewrite Hm.
    destruct (sanitize_message_stable m) as (Hst & Hns & Hk).
    split; [apply length_insert|]. right. exists i, m, (sanitize_message m).
    split_and!; try done. by apply (count_insert stuck ms i m).
  - split; [done|]. left. split; [done|]. by apply last_stuck_None.
Qed.

Lemma updateLast_snoc ms m f :
  from m = ASSISTANT → updateLastAssistantMessage (ms ++ [m]) f = ms ++ [f m].
Proof.
  intros Hm. unfold updateLastAssistantMessage. rewrite last_snoc, bool_decide_eq_true_2 by done.
  rewrite length_app. simpl. replace (length ms + 1 - 1) with (length ms) by lia.
  by rewrite take_app_length.
Qed.

(** Only the last message can change. *)
Lemma updateLast_prefix ms f :
  ∃ ms', updateLastAssistantMessage ms f = ms' ∧ length ms' = length ms ∧
         take (length ms - 1) ms' = take (length ms - 1) ms.
Proof.
  eexists. split; [done|]. destruct ms as [|m ms _] using rev_ind; [done|].
  unfold updateLastAssistantMessage. rewrite last_snoc. case_bool_decide; [|done].
  rewrite !length_app. simpl. replace (length ms + 1 - 1) with (length ms) by lia.
  rewrite !take_app_length. split; [done|]. done.
Qed.

(** The payload holds a parameter exactly when it is switched on and set. *)
Lemma payload_fold ps o k :
  NoDup (map fst ps) →
  obj_get k (foldl (λ payload '(key, (on, value)),
    match on, value with
    | true, Some v => obj_set key (JNum v) payload
    | _, _ => payload
    end) o ps) =
  match obj_get k ps with
  | Some (true, Some v) => Some (JNum v)
  | _ => obj_get k o
  end.
Proof.
  revert o. induction ps as [|[k' [on value]] ps IH]; intros o Hnd; [done|].
  apply NoDup_cons in Hnd as [Hk Hnd]. apply obj_get_None in Hk. simpl in Hk.
  cbn [foldl]. rewrite IH by done. cbn [obj_get]. destruct (decide (k = k')) as [->|Hne].
  - rewrite Hk. destruct on, value; rewrite ?obj_get_set_eq; done.
  - destruct on, value; rewrite ?obj_get_set_ne by done; done.
Qed.

(** A request holds the model, the streaming flag and, in order, the
    role and text of every message that is valid (an assistant message
    without text is not); each tuning parameter is present exactly when it is
    switched on and has a value. *)
Theorem payload_spec messages config enabled :
  let payload := buildChatCompletionPayload messages config enabled in
  obj_get (js "model") payload = Some (JStr (model config)) ∧
  obj_get (js "stream") payload = Some (JBool (stream config)) ∧
  obj_get (js "messages") payload =
    Some (JArr (map (λ m, api_message (formatMessageForAPI m))
                  (List.filter isValidMessage messages))) ∧
  ∀ (k : jsstr) (on : bool) (value : option num), (k, (on, value)) ∈ parameters config enabled →
    obj_get k payload = if on then option_map JNum value else None.
Proof.
  intros payload. subst payload. unfold buildChatCompletionPayload.
  assert (NoDup (map fst (parameters config enabled))) as Hnd
    by (apply (bool_decide_unpack _); vm_compute; exact I).
  rewrite !payload_fold by done. split_and!; try done.
  - cbn. by rewrite map_map.
  - intros k on value Hk. rewrite payload_fold by done.
    rewrite (obj_get_mem _ _ _ Hnd Hk).
    assert (obj_get k [(js "model", JStr (model config));
      (js "messages", JArr (map api_message (map formatMessageForAPI
         (List.filter isValidMessage messages)))); (js "stream", JBool (stream config))] = None)
      as Hn.
    { assert (k ∈ map fst (parameters config enabled)) as Hkey
        by (apply list_elem_of_fmap; by exists (k, (on, value))).
      clear Hk. rename Hkey into Hk. cbn [parameters map fst] in Hk.
      rewrite !elem_of_cons, elem_of_nil in Hk.
      repeat (destruct Hk as [->|Hk]; [done|]). done. }
    destruct on, value; done.
Qed.

End Messages.

Module Relay.

Record RelayError := mkRelayError { message : jsstr; r_status : Z; code : option json }.

(** [None] is the [TypeError] of [body.error] on a body [null]: the access is
    outside the [try]. *)
Definition readErrorBody (text : jsstr) : option (option json * option json) :=
  match JSON_parse text with
  | None => Some (Some (JStr (take 300 (trim text))), None)
  | Some JNull => None
  | Some body =>
      match json_prop body (js "error") with
      | Some (JStr e) => Some (Some (JStr e), None)
      | error =>
          match error ≫= λ e, json_prop e (js "message") with
          | Some m =>
              if json_truthy m then
                Some (Some m, match error ≫= λ e, json_prop e (js "code") with
                              | Some c => if json_truthy c then Some c else None
                              | None => None
                              end)
              else Some (json_prop body (js "message"), None)
          | None => Some (json_prop body (js "message"), None)
          end
      end
  end.

Definition parseRelayError (status : Z) (text : jsstr) : option RelayError :=
  match readErrorBody text with
  | None => None
  | Some (message, code) =>
      Some (mkRelayError
        (match message with
         | Some m => if json_truthy m then json_to_string m else js "HTTP " ++ string_of_Z status
         | None => js "HTTP " ++ string_of_Z status
         end) status code)
  end.

Definition relayAuthHeaders (secret : jsstr) : obj jsstr :=
  [(js "Authorization", js "Bearer " ++ secret)].

Example relay_error_1 :
  parseRelayError 429 (jq "{`error`:{`message`:`slow down`,`code`:`rate_limit`}}")
  = Some (mkRelayError (js "slow down") 429 (Some (JStr (js "rate_limit")))).
Proof. vm_compute. reflexivity. Qed.

Lemma parseRelayError_throws status text :
  parseRelayError status text = None ↔ JSON_parse text = Some JNull.
Proof.
  unfold parseRelayError, readErrorBody. destruct (JSON_parse text) as [v|]; [|done].
  destruct v; repeat case_match; simplify_eq; try done; naive_solver.
Qed.

End Relay.

Module Chat.
Import Messages Relay.

(** ** The stream: [use-stream-request.ts]

    A source is a number, given in the order of the requests; [current] is
    [sseSourceRef.current] and [received] the sources that have delivered
    something. *)
Record Stream := mkStream { current : option nat; received : list nat; next_source : nat }.

Inductive Callback :=
  | OnUpdate (is_reasoning : bool) (chunk : json)
  | OnComplete
  | OnError (error : jsstr) (errorCode : option json).

Definition terminal (c : Callback) : bool :=
  match c with OnUpdate _ _ => false | _ => true end.

Definition isCurrent (st : Stream) (source : nat) : bool :=
  bool_decide (current st = Some source).

Definition settle (st : Stream) (source : nat) (notify : list Callback)
    : Stream * list Callback :=
  if negb (isCurrent st source) then (st, [])
  else (mkStream None (received st) (next_source st), notify).

(** [chunk.choices?.[0]?.delta]; the chunk is not [null]. *)
Definition delta_of (chunk : json) : option json :=
  match json_prop chunk (js "choices") ≫= (λ choices,
    match choices with
    | JArr l => head l
    | JObj o => obj_get (js "0") o
    | _ => None
    end) with
  | Some choice => json_prop choice (js "delta")
  | None => None
  end.

Definition truthy_prop (v : option json) (k : jsstr) : option json :=
  match v ≫= λ v, json_prop v k with
  | Some x => if json_truthy x then Some x else None
  | None => None
  end.

Definition receive (st : Stream) (source : nat) : Stream :=
  mkStream (current st) (source :: received st) (next_source st).

Definition onMessage (st : Stream) (source : nat) (data : jsstr) : Stream * list Callback :=
  if negb (isCurrent st source) then (st, []) else
  if bool_decide (data = js "[DONE]") then settle st source [OnComplete] else
  match JSON_parse data with
  | None => settle st source [OnError PARSE_ERROR None]
  | Some JNull => (st, [])
  | Some chunk =>
      let delta := delta_of chunk in
      let '(st, c1) :=
        match truthy_prop delta (js "reasoning_content") with
        | Some r => (receive st source, [OnUpdate true r])
        | None => (st, [])
        end in
      let '(st, c2) :=
        match truthy_prop delta (js "content") with
        | Some c => (receive st source, [OnUpdate false c])
        | None => (st, [])
        end in
      (st, c1 ++ c2)
  end.

Definition has_received (st : Stream) (source : nat) : bool :=
  bool_decide (source ∈ received st).

(** An error body that makes the reader throw leaves no callback. *)
Definition onErrorEvent (st : Stream) (source : nat) (status : Z) (data : jsstr)
    : Stream * list Callback :=
  settle st source
    (if (status =? 0)%Z then
       if has_received st source then [OnComplete] else [OnError NETWORK_ERROR None]
     else
       match parseRelayError status data with
       | Some error => [OnError (message error) (code error)]
       | None => []
       end).

Definition onClosed (st : Stream) (source : nat) : Stream * list Callback :=
  settle st source
    (if has_received st source then [OnComplete] else [OnError INTERRUPTED None]).

(** [started] is whether [source.stream()] returns. *)
Definition sendStreamRequest (st : Stream) (started : bool) : Stream * list Callback :=
  let source := next_source st in
  let st := mkStream (Some source) (received st) (S source) in
  if started then (st, []) else settle st source [OnError STREAM_START_ERROR None].

Definition stopStream (st : Stream) : Stream :=
  match current st with
  | None => st
  | Some _ => mkStream None (received st) (next_source st)
  end.

(** ** The handlers: [use-chat-handler.ts] *)

Definition handleStreamUpdate (is_reasoning : bool) (chunk : json) (messages : list Message)
    : list Message :=
  updateLastAssistantMessage messages (λ message,
    if bool_decide (status message = Some ERROR) then message else
    if is_reasoning then
      set_status STREAMING
        (set_reasoning
          (Some (mkReasoning
             ((match reasoning message with Some r => r_content r | None => [] end)
                ++ json_to_string chunk) num_zero)) true message)
    else set_status STREAMING (processStreamingContent message (json_to_string chunk))).

Definition handleStreamComplete (messages : list Message) : list Message :=
  updateLastAssistantMessage messages (λ message,
    if bool_decide (status message = Some COMPLETE) || bool_decide (status message = Some ERROR)
    then message else set_status COMPLETE (finalizeMessage message None)).

Definition handleStreamError (error : jsstr) (errorCode : option json) (messages : list Message)
    : list Message :=
  updateAssistantMessageWithError messages error errorCode.

Definition apply_callback (messages : list Message) (c : Callback) : list Message :=
  match c with
  | OnUpdate is_reasoning chunk => handleStreamUpdate is_reasoning chunk messages
  | OnComplete => handleStreamComplete messages
  | OnError error errorCode => handleStreamError error errorCode messages
  end.

(** The answer to a request that is not streamed: the first choice's text and
    reasoning. *)
Definition handleResponse (text : jsstr) (reasoning_content : option jsstr)
    (messages : list Message) : list Message :=
  updateLastAssistantMessage messages (λ message,
    set_status COMPLETE
      (finalizeMessage
        (set_versions
          [mkVersion (match versions message with v :: _ => id v | [] => None end) text] message)
        reasoning_content)).

Definition stop_message (message : Message) : Message :=
  if bool_decide (status message = Some LOADING) || bool_decide (status message = Some STREAMING)
  then set_status COMPLETE (finalizeMessage message None) else message.

Definition stopGeneration (st : Stream) (messages : list Message) : Stream * list Message :=
  (stopStream st, updateLastAssistantMessage messages stop_message).

(** ** The page: the messages a request starts from ([index.tsx]) *)

Definition handleSendMessage (ids : jsstr * jsstr * jsstr * jsstr) (text : jsstr)
    (messages : list Message) : list Message :=
  let '(id1, id2, id3, id4) := ids in
  messages ++ [createUserMessage id1 id2 text; createLoadingAssistantMessage id3 id4].

(** [findIndex] *)
Fixpoint key_position (k : jsstr) (messages : list Message) : option nat :=
  match messages with
  | [] => None
  | m :: l => if decide (key m = k) then Some 0 else S <$> key_position k l
  end.

Definition handleRegenerateMessage (id1 id2 : jsstr) (target : jsstr) (messages : list Message)
    : option (list Message) :=
  match key_position target messages with
  | None => None
  | Some messageIndex =>
      Some (take messageIndex messages ++ [createLoadingAssistantMessage id1 id2])
  end.

Definition edit_message (k newContent : jsstr) (m : Message) : Message :=
  if decide (key m = k)
  then set_versions [mkVersion (match versions m with v :: _ => id v | [] => None end) newContent] m
  else m.

(** The messages to store and whether a request is sent for them. *)
Definition applyEdit (id1 id2 : jsstr) (editingMessageKey newContent : jsstr) (submit : bool)
    (messages : list Message) : option (list Message * bool) :=
  match key_position editingMessageKey messages with
  | None => None
  | Some index =>
      let updated := map (edit_message editingMessageKey newContent) messages in
      let is_user := match updated !! index with
                     | Some m => bool_decide (from m = USER) | None => false end in
      if negb submit || negb is_user then Some (updated, false)
      else Some (take (index + 1) updated ++ [createLoadingAssistantMessage id1 id2], true)
  end.

Definition handleDeleteMessage (target : jsstr) (messages : list Message) : list Message :=
  List.filter (λ m, negb (bool_decide (key m = target))) messages.

(** ** The machine *)

Record State := mkState { strm : Stream; messages : list Message }.

Inductive Event :=
  | EMessage (source : nat) (data : jsstr)
  | EError (source : nat) (status : Z) (data : jsstr)
  | EClosed (source : nat)
  | ESend (ms : list Message) (started : bool)
  | EStop.

(** The callbacks of an event, with the source they are made for. *)
Definition callbacks (st : Stream) (e : Event) : Stream * list (nat * Callback) :=
  let tag source (r : Stream * list Callback) := (r.1, map (pair source) r.2) in
  match e with
  | EMessage source data => tag source (onMessage st source data)
  | EError source status data => tag source (onErrorEvent st source status data)
  | EClosed source => tag source (onClosed st source)
  | ESend _ started => tag (next_source st) (sendStreamRequest st started)
  | EStop => (stopStream st, [])
  end.

Definition step (s : State) (e : Event) : State * list (nat * Callback) :=
  let '(st, cs) := callbacks (strm s) e in
  let ms := match e with
            | ESend ms _ => ms
            | EStop => updateLastAssistantMessage (messages s) stop_message
            | _ => messages s
            end in
  (mkState st (foldl apply_callback ms (map snd cs)), cs).

Fixpoint run (s : State) (es : list Event) : State * list (nat * Callback) :=
  match es with
  | [] => (s, [])
  | e :: es => let '(s1, c1) := step s e in let '(s2, c2) := run s1 es in (s2, c1 ++ c2)
  end.

Definition initial (ms : list Message) : State := mkState (mkStream None [] 0) ms.

(** ** Each request is settled once *)

Definition wf_stream (st : Stream) : Prop :=
  match current st with Some s => s < next_source st | None => True end.

(** A source whose events no longer count. *)
Definition retired (st : Stream) (source : nat) : Prop :=
  source < next_source st ∧ current st ≠ Some source.

Lemma settle_cases st source notify :
  (current st ≠ Some source ∧ settle st source notify = (st, [])) ∨
  (current st = Some source ∧
   settle st source notify = (mkStream None (received st) (next_source st), notify)).
Proof. unfold settle, isCurrent. case_bool_decide; simpl; auto. Qed.

(** What one event of one source does to the connection. *)
Lemma onMessage_cases st source data :
  (current st ≠ Some source ∧ onMessage st source data = (st, [])) ∨
  (current st = Some source ∧ ∃ st' cs, onMessage st source data = (st', cs) ∧
     next_source st' = next_source st ∧
     ((current st' = Some source ∧ Forall (λ c, terminal c = false) cs) ∨
      (current st' = None ∧ length cs = 1))).
Proof.
  unfold onMessage, isCurrent. case_bool_decide as Hc; simpl; [|by left]. right. split; [done|].
  unfold settle, isCurrent. rewrite (bool_decide_eq_true_2 _ Hc). simpl.
  case_bool_decide; [eexists _, _; split; [done|]; by eauto|].
  destruct (JSON_parse data) as [chunk|]; [|eexists _, _; split; [done|]; by eauto].
  assert (∀ st' cs, next_source st' = next_source st → current st' = Some source →
    Forall (λ c, terminal c = false) cs →
    ∃ st'' cs', (st', cs) = (st'', cs') ∧ next_source st'' = next_source st ∧
     ((current st'' = Some source ∧ Forall (λ c, terminal c = false) cs') ∨
      (current st'' = None ∧ length cs' = 1))) as Hok by eauto 10.
  destruct chunk; try (apply Hok; [done|done|constructor]); simpl;
    repeat (case_match; simplify_eq/=); apply Hok; try done; repeat constructor.
Qed.

Lemma callbacks_current st e source c :
  (source, c) ∈ (callbacks st e).2 →
  current st = Some source ∨ (∃ ms started, e = ESend ms started ∧ source = next_source st).
Proof.
  assert (∀ s (r : Stream * list Callback), (source, c) ∈ map (pair s) r.2 →
    source = s ∧ c ∈ r.2) as Htag.
  { intros s r (c' & E & Hin)%list_elem_of_fmap. by simplify_eq. }
  destruct e as [s data|s status data|s|ms started|]; simpl.
  - intros [-> Hc]%Htag. destruct (onMessage_cases st s data) as [[_ E]|[? _]]; [|by left].
    rewrite E in Hc. by apply not_elem_of_nil in Hc.
  - intros [-> Hc]%Htag. unfold onErrorEvent in Hc.
    destruct (settle_cases st s (if (status =? 0)%Z then
       if has_received st s then [OnComplete] else [OnError NETWORK_ERROR None]
     else match parseRelayError status data with
       | Some error => [OnError (message error) (code error)] | None => [] end))
      as [[_ E]|[? _]]; [|by left]. rewrite E in Hc. by apply not_elem_of_nil in Hc.
  - intros [-> Hc]%Htag. unfold onClosed in Hc.
    destruct (settle_cases st s (if has_received st s then [OnComplete]
      else [OnError INTERRUPTED None])) as [[_ E]|[? _]]; [|by left].
    rewrite E in Hc. by apply not_elem_of_nil in Hc.
  - intros [-> Hc]%Htag. right. eauto.
  - by intros ?%not_elem_of_nil.
Qed.

Lemma callbacks_next st e :
  next_source (callbacks st e).1 =
  match e with ESend _ _ => S (next_source st) | _ => next_source st end.
Proof.
  destruct e as [s data|s status data|s|ms started|]; simpl.
  - destruct (onMessage_cases st s data) as [[_ ->]|(_ & ? & ? & -> & ? & _)]; done.
  - unfold onErrorEvent, settle. by case_match.
  - unfold onClosed, settle. by case_match.
  - unfold sendStreamRequest, settle, isCurrent. simpl. destruct started; [done|].
    by rewrite bool_decide_eq_true_2.
  - unfold stopStream. by destruct (current st).
Qed.

(** After an event the current source is the one from before, or the new
    one, or none. *)
Lemma callbacks_current_after st e s :
  current (callbacks st e).1 = Some s →
  (current st = Some s ∧ Forall (λ x, terminal x.2 = false) (callbacks st e).2) ∨
  (s = next_source st ∧ ∃ ms, e = ESend ms true).
Proof.
  assert (∀ s (cs : list Callback), Forall (λ c, terminal c = false) cs →
    Forall (λ x : nat * Callback, terminal x.2 = false) (map (pair s) cs)) as Htag.
  { intros s' cs. rewrite Forall_map. done. }
  destruct e as [s' data|s' status data|s'|ms started|]; simpl.
  - destruct (onMessage_cases st s' data) as [[_ ->]|(Hc & st' & cs & -> & _ & [[? ?]|[? ?]])];
      simpl; intros; [by left|left; split; [congruence|by apply Htag]|congruence].
  - unfold onErrorEvent. destruct (settle_cases st s' (if (status =? 0)%Z then
       if has_received st s' then [OnComplete] else [OnError NETWORK_ERROR None]
     else match parseRelayError status data with
       | Some error => [OnError (message error) (code error)] | None => [] end))
      as [[_ ->]|[? ->]]; [by left|done].
  - unfold onClosed. destruct (settle_cases st s' (if has_received st s' then [OnComplete]
      else [OnError INTERRUPTED None])) as [[_ ->]|[? ->]]; [by left|done].
  - unfold sendStreamRequest, settle, isCurrent. simpl. destruct started; simpl.
    + intros [= <-]. eauto.
    + by rewrite bool_decide_eq_true_2.
  - unfold stopStream. destruct (current st) eqn:E; simpl; [done|congruence].
Qed.

Lemma wf_callbacks st e : wf_stream st → wf_stream (callbacks st e).1.
Proof.
  unfold wf_stream. intros Hwf. destruct (current (callbacks st e).1) as [s|] eqn:E; [|done].
  rewrite callbacks_next. destruct (callbacks_current_after _ _ _ E) as [[Hc _]|[-> [ms ->]]].
  - rewrite Hc in Hwf. destruct e; lia.
  - lia.
Qed.

Lemma retired_callbacks st e source :
  retired st source →
  retired (callbacks st e).1 source ∧ ∀ c, (source, c) ∉ (callbacks st e).2.
Proof.
  intros [Hn Hc]. split.
  - split; [rewrite callbacks_next; destruct e; lia|]. intros E.
    destruct (callbacks_current_after _ _ _ E) as [[? _]|[-> _]]; [done|lia].
  - intros c [?|(ms & started & -> & ->)]%callbacks_current; [done|lia].
Qed.

Lemma terminal_retires st e source c :
  wf_stream st → (source, c) ∈ (callbacks st e).2 → terminal c = true →
  retired (callbacks st e).1 source.
Proof.
  intros Hwf Hc Ht. split.
  - rewrite callbacks_next. destruct (callbacks_current _ _ _ _ Hc) as [E|(ms & b & -> & ->)].
    + unfold wf_stream in Hwf. rewrite E in Hwf. destruct e; lia.
    + lia.
  - intros E. destruct (callbacks_current_after _ _ _ E) as [[_ Hall]|[-> [ms ->]]].
    + rewrite Forall_forall in Hall. apply Hall in Hc. simpl in Hc. congruence.
    + simpl in Hc. by apply not_elem_of_nil in Hc.
Qed.

Lemma step_callbacks s e : strm (step s e).1 = (callbacks (strm s) e).1 ∧
  (step s e).2 = (callbacks (strm s) e).2.
Proof. unfold step. by destruct (callbacks (strm s) e). Qed.

Lemma run_cons s e es :
  run s (e :: es) = ((run (step s e).1 es).1, (step s e).2 ++ (run (step s e).1 es).2).
Proof. simpl. destruct (step s e) as [s1 c1]. simpl. by destruct (run s1 es). Qed.

Lemma retired_run s es source :
  retired (strm s) source → retired (strm (run s es).1) source ∧
  ∀ c, (source, c) ∉ (run s es).2.
Proof.
  revert s. induction es as [|e es IH]; intros s Hr.
  { split; [done|]. intros c. simpl. apply not_elem_of_nil. }
  rewrite run_cons. simpl. destruct (step_callbacks s e) as [E1 E2].
  destruct (retired_callbacks _ e _ Hr) as [Hr' Hn]. rewrite <- E1 in Hr'.
  destruct (IH _ Hr') as [Hr'' Hn']. split; [done|]. intros c. rewrite elem_of_app, E2.
  intros [?|?]; [by eapply Hn|by eapply Hn'].
Qed.

Lemma wf_run s es : wf_stream (strm s) → wf_stream (strm (run s es).1).
Proof.
  revert s. induction es as [|e es IH]; intros s Hwf; [done|].
  rewrite run_cons. simpl. apply IH. destruct (step_callbacks s e) as [-> _]. by apply wf_callbacks.
Qed.

(** An event that ends a source makes no other callback. *)
Lemma callbacks_single st e x :
  x ∈ (callbacks st e).2 → terminal x.2 = true → (callbacks st e).2 = [x].
Proof.
  assert (∀ s (cs : list Callback), length cs ≤ 1 → x ∈ map (pair s) cs → map (pair s) cs = [x])
    as Htag.
  { intros s [|c [|c' cs]]; simpl; [intros _ []%not_elem_of_nil| |lia].
    intros _ ->%list_elem_of_singleton. done. }
  assert (∀ st s cs, length cs ≤ 1 → length (settle st s cs).2 ≤ 1) as Hs.
  { intros st' s cs Hl. unfold settle. case_match; simpl; lia. }
  destruct e as [s data|s status data|s|ms started|]; simpl.
  - destruct (onMessage_cases st s data) as [[_ ->]|(Hc & st' & cs & -> & _ & [[_ Hall]|[? Hl]])];
      simpl; intros Hx Ht; [by apply not_elem_of_nil in Hx| |apply Htag; [lia|done]].
    apply list_elem_of_fmap in Hx as (c & -> & Hc'). rewrite Forall_forall in Hall.
    apply Hall in Hc'. simpl in Ht. congruence.
  - intros Hx _. apply Htag; [|done]. apply Hs. repeat case_match; simpl; lia.
  - intros Hx _. apply Htag; [|done]. apply Hs. case_match; simpl; lia.
  - intros Hx _. apply Htag; [|done]. unfold sendStreamRequest. destruct started; simpl; [lia|].
    apply Hs. simpl. lia.
  - by intros ?%not_elem_of_nil.
Qed.

(** C13: in every run of the page a request is ended at most once and nothing
    is reported for it afterwards: no later event of its connection reaches
    the messages.  The same holds for a request that was stopped, or whose
    place another request took. *)
Theorem settled_once ms es :
  (∀ i j source c c', (run (initial ms) es).2 !! i = Some (source, c) → terminal c = true →
     i < j → (run (initial ms) es).2 !! j = Some (source, c') → False) ∧
  (∀ source e es', current (strm (run (initial ms) es).1) = Some source →
     (e = EStop ∨ ∃ ms' started, e = ESend ms' started) →
     ∀ c, (source, c) ∉ (run (run (initial ms) es).1 (e :: es')).2).
Proof.
  split.
  - assert (wf_stream (strm (initial ms))) as Hwf by done.
    revert Hwf. generalize (initial ms). induction es as [|e es IH]; intros s Hwf i j source c c';
      [done|]. rewrite run_cons. cbn [snd]. destruct (step_callbacks s e) as [E1 E2]. rewrite E2.
    intros Hi Ht Hij Hj. apply lookup_app_Some in Hi as [Hi|[Hi1 Hi2]].
    + pose proof (list_elem_of_lookup_2 _ _ _ Hi) as Hin.
      rewrite (callbacks_single _ _ _ Hin Ht) in Hi, Hj. destruct i as [|i]; [|done].
      destruct j as [|j]; [lia|]. simpl in Hj. apply list_elem_of_lookup_2 in Hj.
      revert Hj. apply retired_run. rewrite E1. by eapply terminal_retires.
    + rewrite lookup_app_r in Hj by lia.
      assert (wf_stream (strm (step s e).1)) as Hwf' by (rewrite E1; by apply wf_callbacks).
      eapply (IH _ Hwf' _ _ _ _ _ Hi2 Ht); [|exact Hj]. lia.
  - intros source e es' Hc He c. assert (wf_stream (strm (run (initial ms) es).1)) as Hwf
      by (by apply wf_run). set (s := (run (initial ms) es).1) in *.
    rewrite run_cons. cbn [snd]. destruct (step_callbacks s e) as [E1 E2]. rewrite E2.
    assert (source < next_source (strm s)) as Hlt by (unfold wf_stream in Hwf; by rewrite Hc in Hwf).
    rewrite elem_of_app. intros [Hin|Hin].
    + destruct He as [->|(ms' & b & ->)]; [by apply not_elem_of_nil in Hin|].
      simpl in Hin. apply list_elem_of_fmap in Hin as (? & [=] & _). lia.
    + revert Hin. apply retired_run. rewrite E1. split.
      * rewrite callbacks_next. destruct e; lia.
      * intros E. destruct (callbacks_current_after _ _ _ E) as [[? Hall]|[-> _]]; [|lia].
        destruct He as [->|(ms' & b & ->)]; simpl in E.
        -- unfold stopStream in E. by rewrite Hc in E.
        -- unfold sendStreamRequest, settle, isCurrent in E. simpl in E. destruct b; simpl in E;
             [simplify_eq; lia|]. by rewrite bool_decide_eq_true_2 in E.
Qed.

(** ** The end of a stream leaves a finished message *)

Definition finished (m : Message) : Prop := status m = Some COMPLETE ∨ status m = Some ERROR.

Lemma finished_not_stuck m : finished m → stuck m = false.
Proof. unfold stuck, finished. intros [-> | ->]; simpl; apply andb_false_r. Qed.

(** The events that end the stream of a source. *)
Definition ends (source : nat) (e : Event) : Prop :=
  match e with
  | EMessage s data => s = source ∧ (data = js "[DONE]" ∨ JSON_parse data = None)
  | EError s status data => s = source ∧ (status = 0%Z ∨ JSON_parse data ≠ Some JNull)
  | EClosed s => s = source
  | _ => False
  end.

Lemma apply_terminal ms m c :
  from m = ASSISTANT → terminal c = true →
  ∃ m', apply_callback (ms ++ [m]) c = ms ++ [m'] ∧ finished m' ∧ from m' = ASSISTANT ∧
        key m' = key m.
Proof.
  intros Hm Hc. destruct c as [b ch| |error ec]; simpl in *; [done| |].
  - unfold handleStreamComplete. rewrite updateLast_snoc by done. eexists. split; [done|].
    destruct (bool_decide (status m = Some COMPLETE)) eqn:E1; simpl.
    { apply bool_decide_eq_true in E1. unfold finished. auto. }
    destruct (bool_decide (status m = Some ERROR)) eqn:E2; simpl; unfold finished; simpl; auto.
    apply bool_decide_eq_true in E2. auto.
  - unfold handleStreamError, updateAssistantMessageWithError.
    rewrite updateLast_snoc by done. eexists. split; [done|]. unfold finished. simpl. auto.
Qed.

Lemma ends_callbacks st e source :
  current st = Some source → ends source e →
  ∃ c, terminal c = true ∧ callbacks st e = (mkStream None (received st) (next_source st), [(source, c)]).
Proof.
  intros Hc He. assert (∀ notify, settle st source notify =
    (mkStream None (received st) (next_source st), notify)) as Hs.
  { intros. unfold settle, isCurrent. by rewrite bool_decide_eq_true_2. }
  destruct e as [s data|s status data|s|ms b|]; simpl in *; try done.
  - destruct He as [-> He]. unfold onMessage, isCurrent.
    rewrite (bool_decide_eq_true_2 _ Hc). simpl. destruct He as [->|E].
    + rewrite bool_decide_eq_true_2 by done. rewrite Hs. by eexists; split; [|reflexivity].
    + case_bool_decide; rewrite ?E, Hs; by eexists; split; [|reflexivity].
  - destruct He as [-> He]. unfold onErrorEvent. rewrite Hs. simpl.
    destruct (Z.eqb_spec status 0) as [Hz|Hz].
    + destruct (has_received st source); by eexists; split; [|reflexivity].
    + destruct He as [?|He]; [done|].
      destruct (parseRelayError status data) as [err|] eqn:E; [by eexists; split; [|reflexivity]|].
      by apply parseRelayError_throws in E.
  - subst s. unfold onClosed. rewrite Hs.
    destruct (has_received st source); by eexists; split; [|reflexivity].
Qed.

(** C39: when the stream of the current request ends, by the end mark, by an
    answer that does not parse, by an error or by the connection closing, the
    last assistant message is left complete or failed, the other messages
    are as they were, and no request is current; the one ending that leaves
    the message loading is an error whose body is the JSON text [null]. *)
Theorem stream_end_finishes ms m st source e :
  current st = Some source → from m = ASSISTANT →
  (ends source e →
   ∃ m' tr, step (mkState st (ms ++ [m])) e =
     (mkState (mkStream None (received st) (next_source st)) (ms ++ [m']), tr) ∧
     finished m' ∧ key m' = key m) ∧
  (∀ status data, status ≠ 0%Z → JSON_parse data = Some JNull →
   step (mkState st (ms ++ [m])) (EError source status data) =
     (mkState (mkStream None (received st) (next_source st)) (ms ++ [m]), [])).
Proof.
  intros Hc Hm. split.
  - intros He. destruct (ends_callbacks _ _ _ Hc He) as (c & Ht & E).
    destruct (apply_terminal ms m c Hm Ht) as (m' & Hm' & Hf & _ & Hk).
    exists m', [(source, c)]. unfold step. cbn [strm]. rewrite E.
    assert (match e with
            | ESend ms _ => ms
            | EStop => updateLastAssistantMessage (messages (mkState st (ms ++ [m]))) stop_message
            | _ => messages (mkState st (ms ++ [m])) end = ms ++ [m]) as -> by (by destruct e).
    cbn [map foldl snd]. rewrite Hm'. done.
  - intros status data Hz Hn. unfold step. cbn [strm callbacks messages].
    unfold onErrorEvent, settle, isCurrent. rewrite (bool_decide_eq_true_2 _ Hc). cbn [negb].
    destruct (Z.eqb_spec status 0) as [|_]; [done|].
    by rewrite (proj2 (parseRelayError_throws status data) Hn).
Qed.

Theorem stream_end_finishes_witness :
  let m := createLoadingAssistantMessage (js "k") (js "v") in
  let st := mkStream (Some 0) [] 1 in
  current st = Some 0 ∧ from m = ASSISTANT ∧ ends 0 (EClosed 0) ∧
  ∃ m' tr, step (mkState st ([] ++ [m])) (EClosed 0) = (mkState (mkStream None [] 1) ([] ++ [m']), tr) ∧
    finished m' ∧ key m' = key m.
Proof.
  intros m st. split; [reflexivity|]. split; [reflexivity|]. split; [reflexivity|].
  exact (proj1 (stream_end_finishes [] m st 0 (EClosed 0) eq_refl eq_refl) eq_refl).
Defined.

(** ** What a streamed answer amounts to *)

(** An event whose data carries the piece of text [c] and no reasoning. *)
Definition text_event (data c : jsstr) : Prop :=
  data ≠ js "[DONE]" ∧ ∃ chunk, JSON_parse data = Some chunk ∧ chunk ≠ JNull ∧
    truthy_prop (delta_of chunk) (js "reasoning_content") = None ∧
    truthy_prop (delta_of chunk) (js "content") = Some (JStr c).

Lemma step_text st ms m source data c :
  current st = Some source → from m = ASSISTANT → status m ≠ Some ERROR → text_event data c →
  (step (mkState st (ms ++ [m])) (EMessage source data)).1 =
  mkState (receive st source) (ms ++ [set_status STREAMING (processStreamingContent m c)]).
Proof.
  intros Hc Hm Hs (Hd & chunk & Hp & Hn & Hr & Ht).
  unfold step. cbn [strm callbacks messages]. unfold onMessage, isCurrent.
  rewrite (bool_decide_eq_true_2 _ Hc), (bool_decide_eq_false_2 _ Hd), Hp.
  cbn [negb]. destruct chunk; try done; rewrite Hr, Ht; cbn [app fst snd map foldl apply_callback];
    unfold handleStreamUpdate; rewrite updateLast_snoc by done;
    by rewrite (bool_decide_eq_false_2 _ Hs).
Qed.

Lemma includes_prefix p s1 s2 : includes p (s1 ++ s2) = false → includes p s1 = false.
Proof.
  intros H. destruct (includes p s1) eqn:E; [|done]. apply includes_spec in E as (a & b & ->).
  assert (includes p ((a ++ p ++ b) ++ s2) = true); [|congruence].
  apply includes_spec. exists a, (b ++ s2). by rewrite <- !app_assoc.
Qed.

Lemma parse_no_open s : includes OPEN s = false → parseThinkTags s = mkThinking s [] false.
Proof. unfold parseThinkTags. by intros ->. Qed.

(** The message while the pieces [cs] arrive. *)
Lemma streaming_message id1 id2 cs :
  ∃ r b s, foldl (λ m c, set_status STREAMING (processStreamingContent m c))
      (createLoadingAssistantMessage id1 id2) cs =
    mkMessage id1 ASSISTANT [mkVersion (Some id2) (concat cs)] None r b (Some false) (Some false)
      (Some s) None ∧
    (s = LOADING ∨ s = STREAMING) ∧
    (t_reasoning (parseThinkTags (concat cs)) ≠ [] →
       r = Some (mkReasoning (t_reasoning (parseThinkTags (concat cs))) num_zero)) ∧
    (includes OPEN (concat cs) = false → r = None).
Proof.
  induction cs as [|c cs IH] using rev_ind.
  { exists None, (Some false), LOADING. by split_and!; auto. }
  destruct IH as (r & b & s & E & Hs & Hr & Hn). rewrite foldl_app, E.
  rewrite concat_app. cbn [concat foldl]. rewrite app_nil_r.
  set (full := concat cs ++ c) in *. eexists _, _, _. split; [reflexivity|].
  split; [by right|]. split.
  - unfold processStreamingContent. cbn [content getCurrentVersion versions set_reasoning reasoning].
    fold full. destruct (t_reasoning (parseThinkTags full)); done.
  - intros Ho. unfold processStreamingContent.
    cbn [content getCurrentVersion versions set_reasoning reasoning]. fold full.
    rewrite (parse_no_open _ Ho). cbn. apply Hn. by eapply includes_prefix.
Qed.

Lemma run_text id1 id2 st ms source datas cs :
  current st = Some source → Forall2 text_event datas cs →
  ∃ st', (run (mkState st (ms ++ [createLoadingAssistantMessage id1 id2]))
            (map (EMessage source) datas)).1 =
    mkState st' (ms ++ [foldl (λ m c, set_status STREAMING (processStreamingContent m c))
                   (createLoadingAssistantMessage id1 id2) cs]) ∧ current st' = Some source.
Proof.
  intros Hc. revert cs. induction datas as [|d datas IH] using rev_ind; intros cs Hf.
  { inversion Hf. subst. simpl. eauto. }
  apply Forall2_app_inv_l in Hf as (cs1 & cs2 & Hf1 & Hf2 & ->).
  inversion Hf2 as [|? c ? ? Hd Hnil]; subst. inversion Hnil; subst.
  destruct (IH _ Hf1) as (st' & E & Hc').
  assert (∀ s es1 es2, (run s (es1 ++ es2)).1 = (run (run s es1).1 es2).1) as Happ.
  { intros s es1. revert s. induction es1 as [|e es1 IH1]; intros s es2; [done|].
    rewrite <- app_comm_cons, !run_cons. simpl. apply IH1. }
  rewrite map_app, Happ, E. cbn [map]. rewrite run_cons. cbn [fst run].
  destruct (streaming_message id1 id2 cs1) as (r & b & s & Em & Hs & _).
  rewrite foldl_app. cbn [foldl]. rewrite Em.
  rewrite (step_text _ _ _ _ _ c); [eexists; by split|done|done| |done].
  destruct Hs as [-> | ->]; done.
Qed.

Lemma run_app_fst s es1 es2 : (run s (es1 ++ es2)).1 = (run (run s es1).1 es2).1.
Proof.
  revert s. induction es1 as [|e es1 IH]; intros s; [done|].
  rewrite <- app_comm_cons, !run_cons. simpl. apply IH.
Qed.



(** The exception: with an empty think block cut inside its closing tag, the
    half tag that was taken for reasoning stays in the finished message. *)
Example stale_think_tag :
  let m := createLoadingAssistantMessage (js "k") (js "v") in
  let pieces := [js "<think>"; js "</th"; js "ink>ok"] in
  let streamed := finalizeMessage
    (foldl (λ m c, set_status STREAMING (processStreamingContent m c)) m pieces) None in
  content (getCurrentVersion streamed) = js "ok" ∧
  option_map r_content (reasoning streamed) = Some (js "</th") ∧
  option_map reasoning (last (handleResponse (concat pieces) None [m])) = Some None.
Proof. vm_compute. by split_and!. Qed.
End Chat.
