(* ===== verification/DashboardAuth.v ===== *)
(** * The dashboard session: access token, refresh and retried requests

    Models [stores/auth-store.ts] (Module AuthStore) and the session part of
    [lib/api.ts] under [web/default/src]: Module Session is one browser tab as
    a machine over the events of its requests, Module Lease the fallback lock
    that keeps the tabs of one browser from refreshing together, Module Dedupe
    the sharing of GET requests in flight.

    JavaScript runs from one [await] to the next without interruption, so a
    step of the machine is such a piece of code.  The package axios decides
    when a request is sent, answered or rejected: these are events, in any
    order that the phases of a request allow. *)
From S2P Require Import Prelude JSString JSNumber JSON.

Module AuthStore.

(** [user] is the user of the store, [storage] the item [user] of
    [localStorage]. *)
Record Store := mkStore { user : option (obj json); storage : option jsstr }.

Definition strip_tokens (o : obj json) : obj json :=
  obj_delete (js "refresh_token") (obj_delete (js "access_token") (obj_delete (js "token") o)).

Definition sanitizeUser (u : json) : option (obj json) :=
  if negb (json_truthy u) then None else Some (strip_tokens (spread u)).

Definition user_json (u : option (obj json)) : json :=
  match u with Some o => JObj o | None => JNull end.

Definition initUser (saved : option jsstr) : Store :=
  match saved with
  | None | Some [] => mkStore None saved
  | Some s =>
      match JSON_parse s with
      | None => mkStore None None
      | Some v =>
          let cleanUser := sanitizeUser v in
          mkStore cleanUser (Some (JSON_stringify (user_json cleanUser)))
      end
  end.

Definition setUser (u : json) : Store :=
  match sanitizeUser u with
  | Some cleanUser => mkStore (Some cleanUser) (Some (JSON_stringify (JObj cleanUser)))
  | None => mkStore None None
  end.

Definition reset (st : Store) : Store := mkStore None None.

(** ** No token is kept *)

Definition token_keys : list jsstr := [js "token"; js "access_token"; js "refresh_token"].

Definition no_tokens (o : obj json) : Prop := ∀ k, k ∈ token_keys → obj_get k o = None.

Lemma strip_no_tokens o : no_tokens (strip_tokens o).
Proof.
  intros k Hk. unfold token_keys in Hk. rewrite !elem_of_cons, elem_of_nil in Hk.
  unfold strip_tokens. rewrite !obj_get_delete.
  destruct Hk as [->|[->|[->|[]]]]; repeat case_decide; done.
Qed.

Lemma strip_keeps o k : k ∉ token_keys → obj_get k (strip_tokens o) = obj_get k o.
Proof.
  unfold token_keys. rewrite !not_elem_of_cons. intros (? & ? & ? & _).
  unfold strip_tokens. by rewrite !obj_get_delete_ne.
Qed.

Definition clean_store (st : Store) : Prop :=
  ∀ o, user st = Some o → no_tokens o ∧ storage st = Some (JSON_stringify (JObj o)).

Lemma sanitizeUser_no_tokens u o : sanitizeUser u = Some o → no_tokens o.
Proof. unfold sanitizeUser. case_match; [done|]. intros [= <-]. apply strip_no_tokens. Qed.

(** Whatever is stored and whatever the server sends as the user, the
    store holds no token of the session, and the text kept in the browser is
    that of the user without tokens; every other property is kept. *)
Theorem store_clean u saved st :
  clean_store (setUser u) ∧ clean_store (initUser saved) ∧ clean_store (reset st) ∧
  (∀ o k, u = JObj o → k ∉ token_keys →
     ∃ o', user (setUser u) = Some o' ∧ obj_get k o' = obj_get k o).
Proof.
  split_and!.
  - unfold setUser. intros o. destruct (sanitizeUser u) as [o'|] eqn:E; [|done].
    intros [= <-]. split; [by eapply sanitizeUser_no_tokens|done].
  - unfold initUser. intros o. destruct saved as [[|c s]|]; try done.
    destruct (JSON_parse (c :: s)) as [v|]; [|done]. simpl. intros E. rewrite E.
    split; [by eapply sanitizeUser_no_tokens|done].
  - intros o. done.
  - intros o k -> Hk. eexists. split; [done|]. by apply strip_keeps.
Qed.

End AuthStore.

Module Session.

Record AuthError := mkError { e_status : option Z; e_url : option jsstr }.

Definition REFRESH_URL : jsstr := js "/api/user/refresh".

Definition isTerminalDashboardAuthError (error : AuthError) : bool :=
  let isRefreshRequest :=
    match e_url error with Some url => ends_with REFRESH_URL url | None => false end in
  bool_decide (e_status error = Some 401%Z)
  || (isRefreshRequest && bool_decide (e_status error = Some 403%Z)).

Definition isDashboardAuthResponse (url : jsstr) : bool :=
  includes (js "/api/user/login") url
  || includes (js "/api/user/register") url
  || includes (js "/api/user/passkey/login/finish") url
  || includes REFRESH_URL url
  || includes (js "/api/oauth/") url.

(** A request: the parts of its axios configuration that the code reads, and
    the Authorization header it carries so far. *)
Record Request := mkRequest {
  url : jsstr; skipErrorHandler : bool; dashboardAuthRetried : bool;
  authorization : option jsstr }.

Inductive Phase :=
  | AwaitRefresh (promise : nat)      (* the request interceptor waits *)
  | InFlight
  | AwaitRetry (promise : nat)        (* the error interceptor waits *)
  | Rejecting (error : AuthError)     (* the request interceptor threw *)
  | Resolved (data : option json)
  | Rejected (error : AuthError).

Inductive Outcome := RefreshOk | RefreshFailed (error : AuthError).

Inductive Broadcast := BToken (token : jsstr) (expiresAt : num) | BLogout.

Inductive Toast := ToastExpired | ToastError.

(** [refreshPromise] is a number, with whether its POST has been sent;
    [settled] holds the promises that are over.  [sends], [broadcasts] and
    [toasts] record what the tab has done, [posts] and [answers] count the
    refresh requests sent and answered. *)
Record Tab := mkTab {
  accessToken : option jsstr;
  accessTokenExpiresAt : num;
  refreshPromise : option (nat * bool);
  settled : gmap nat Outcome;
  next_promise : nat;
  store : AuthStore.Store;
  requests : gmap nat (Request * Phase);
  sends : list (nat * option jsstr);
  broadcasts : list Broadcast;
  toasts : list Toast;
  posts : nat;
  answers : nat;
}.

Definition token_truthy (t : option jsstr) : bool :=
  match t with Some t => nonempty t | None => false end.

Definition set_token (token : option jsstr) (expiresAt : num) (t : Tab) : Tab :=
  mkTab token expiresAt (refreshPromise t) (settled t) (next_promise t) (store t) (requests t)
    (sends t) (broadcasts t) (toasts t) (posts t) (answers t).
Definition set_refresh (r : option (nat * bool)) (t : Tab) : Tab :=
  mkTab (accessToken t) (accessTokenExpiresAt t) r (settled t) (next_promise t) (store t)
    (requests t) (sends t) (broadcasts t) (toasts t) (posts t) (answers t).
Definition set_store (s : AuthStore.Store) (t : Tab) : Tab :=
  mkTab (accessToken t) (accessTokenExpiresAt t) (refreshPromise t) (settled t) (next_promise t) s
    (requests t) (sends t) (broadcasts t) (toasts t) (posts t) (answers t).
Definition set_request (id : nat) (r : Request) (p : Phase) (t : Tab) : Tab :=
  mkTab (accessToken t) (accessTokenExpiresAt t) (refreshPromise t) (settled t) (next_promise t)
    (store t) (<[id := (r, p)]> (requests t)) (sends t) (broadcasts t) (toasts t) (posts t) (answers t).
Definition log_broadcast (b : Broadcast) (t : Tab) : Tab :=
  mkTab (accessToken t) (accessTokenExpiresAt t) (refreshPromise t) (settled t) (next_promise t)
    (store t) (requests t) (sends t) (broadcasts t ++ [b]) (toasts t) (posts t) (answers t).
Definition log_toast (x : Toast) (t : Tab) : Tab :=
  mkTab (accessToken t) (accessTokenExpiresAt t) (refreshPromise t) (settled t) (next_promise t)
    (store t) (requests t) (sends t) (broadcasts t) (toasts t ++ [x]) (posts t) (answers t).

(** ** The access token *)

Definition setAccessToken (token : option jsstr) (broadcast : bool) (expiresAt : num) (t : Tab)
    : Tab :=
  let exp := if token_truthy token then expiresAt else num_zero in
  let t := set_token token exp t in
  if broadcast
  then log_broadcast (match token with
                      | Some ((_ :: _) as tok) => BToken tok exp | _ => BLogout end) t
  else t.

Definition onBroadcast (b : Broadcast) (t : Tab) : Tab :=
  match b with
  | BToken token expiresAt => setAccessToken (Some token) false (num_or expiresAt num_zero) t
  | BLogout => setAccessToken None false num_zero t
  end.

Definition hasPersistedDashboardUser (t : Tab) : bool :=
  match AuthStore.storage (store t) with Some _ => true | None => false end.

(** [accessTokenExpiresAt <= Math.floor(Date.now() / 1000) + 5], [now] in
    milliseconds. *)
Definition token_expired (now : Z) (t : Tab) : bool :=
  token_truthy (accessToken t) && num_ltb num_zero (accessTokenExpiresAt t)
  && num_leb (accessTokenExpiresAt t) (num_of_Z (now / 1000 + 5)).

Definition clearExpiredAccessToken (now : Z) (t : Tab) : Tab :=
  if token_expired now t then setAccessToken None false num_zero t else t.

(** ** Refreshing *)

(** [refreshPromise ??= ...]: the promise to wait for. *)
Definition refreshDashboardAccessToken (t : Tab) : Tab * nat :=
  match refreshPromise t with
  | Some (p, _) => (t, p)
  | None =>
      let p := next_promise t in
      (mkTab (accessToken t) (accessTokenExpiresAt t) (Some (p, false)) (settled t) (S p) (store t)
         (requests t) (sends t) (broadcasts t) (toasts t) (posts t) (answers t), p)
  end.

(** The promise is over: [finally] forgets it before anyone who waits goes on. *)
Definition settle_refresh (o : Outcome) (t : Tab) : Tab :=
  match refreshPromise t with
  | None => t
  | Some (p, _) =>
      mkTab (accessToken t) (accessTokenExpiresAt t) None (<[p := o]> (settled t))
        (next_promise t) (store t) (requests t) (sends t) (broadcasts t) (toasts t) (posts t)
        (answers t)
  end.

Definition count_post (t : Tab) : Tab :=
  mkTab (accessToken t) (accessTokenExpiresAt t) (refreshPromise t) (settled t) (next_promise t)
    (store t) (requests t) (sends t) (broadcasts t) (toasts t) (S (posts t)) (answers t).
Definition count_answer (t : Tab) : Tab :=
  mkTab (accessToken t) (accessTokenExpiresAt t) (refreshPromise t) (settled t) (next_promise t)
    (store t) (requests t) (sends t) (broadcasts t) (toasts t) (posts t) (S (answers t)).

(** The lock is granted: [if (!accessToken) await refresh()]. *)
Definition onLockGranted (t : Tab) : option Tab :=
  match refreshPromise t with
  | Some (p, false) =>
      if token_truthy (accessToken t) then Some (settle_refresh RefreshOk t)
      else Some (count_post (set_refresh (Some (p, true)) t))
  | _ => None
  end.

(** The lock itself may throw. *)
Definition onLockFailed (t : Tab) : option Tab :=
  match refreshPromise t with
  | Some (p, false) => Some (settle_refresh (RefreshFailed (mkError None None)) t)
  | _ => None
  end.

Inductive Answer :=
  | AnswerData (success access_token access_expires_at : option json)
  | AnswerError (status : option Z).

Definition json_prop_number (v : option json) : num :=
  match v with Some v => num_or (json_to_number v) num_zero | None => num_zero end.

Definition onRefreshAnswer (a : Answer) (t : Tab) : option Tab :=
  match refreshPromise t with
  | Some (p, true) =>
      let t := count_answer t in
      Some (match a with
            | AnswerData (Some (JBool true)) (Some (JStr ((_ :: _) as token))) expires =>
                settle_refresh RefreshOk
                  (setAccessToken (Some token) true (json_prop_number expires) t)
            | AnswerData _ _ _ => settle_refresh (RefreshFailed (mkError None None)) t
            | AnswerError status =>
                settle_refresh (RefreshFailed (mkError status (Some REFRESH_URL))) t
            end)
  | _ => None
  end.

Definition end_session (t : Tab) : Tab :=
  set_store (AuthStore.reset (store t)) (setAccessToken None true num_zero t).

(** The [catch] of [refreshDashboardAccessToken], run by everyone who waits. *)
Definition onRefreshError (error : AuthError) (t : Tab) : Tab :=
  if isTerminalDashboardAuthError error then end_session t else t.

(** ** The interceptors *)

Definition dispatch (id : nat) (r : Request) (t : Tab) : Tab :=
  let header := if token_truthy (accessToken t) then accessToken t else authorization r in
  let r := mkRequest (url r) (skipErrorHandler r) (dashboardAuthRetried r) header in
  let t := set_request id r InFlight t in
  mkTab (accessToken t) (accessTokenExpiresAt t) (refreshPromise t) (settled t) (next_promise t)
    (store t) (requests t) (sends t ++ [(id, header)]) (broadcasts t) (toasts t) (posts t) (answers t).

Definition onRequest (now : Z) (id : nat) (r : Request) (t : Tab) : Tab :=
  let t := clearExpiredAccessToken now t in
  if negb (token_truthy (accessToken t)) && hasPersistedDashboardUser t
     && negb (ends_with REFRESH_URL (url r))
  then let '(t, p) := refreshDashboardAccessToken t in set_request id r (AwaitRefresh p) t
  else dispatch id r t.

(** The tail of the error interceptor, from [if (!skip)]. *)
Definition reject (id : nat) (r : Request) (skip : bool) (error : AuthError) (t : Tab) : Tab :=
  let t :=
    if skip then t else
    if isTerminalDashboardAuthError error
    then set_store (AuthStore.reset (store t))
           (log_toast ToastExpired (setAccessToken None true num_zero t))
    else log_toast ToastError t in
  set_request id r (Rejected error) t.

(** The error interceptor on the answer [status] to a request. *)
Definition onResponseError (id : nat) (r : Request) (status : option Z) (t : Tab) : Tab :=
  let isRefreshRequest := ends_with REFRESH_URL (url r) in
  if bool_decide (status = Some 401%Z) && negb isRefreshRequest
     && negb (dashboardAuthRetried r) && hasPersistedDashboardUser t
  then
    let r := mkRequest (url r) (skipErrorHandler r) true (authorization r) in
    let t := setAccessToken None false num_zero t in
    let '(t, p) := refreshDashboardAccessToken t in
    set_request id r (AwaitRetry p) t
  else reject id r (skipErrorHandler r) (mkError status (Some (url r))) t.

(** The success interceptor; [data] is [response.data.data].  The tokens are
    taken out of what the caller gets. *)
Definition onResponse (id : nat) (r : Request) (data : option json) (t : Tab) : Tab :=
  let t := if ends_with (js "/api/user/logout") (url r)
           then setAccessToken None true num_zero t else t in
  match data with
  | Some (JObj o) =>
      match obj_get (js "access_token") o with
      | Some (JStr token) =>
          if isDashboardAuthResponse (url r) then
            let t := setAccessToken (Some token) true
                       (json_prop_number (obj_get (js "access_expires_at") o)) t in
            set_request id r (Resolved (Some (JObj (AuthStore.strip_tokens o)))) t
          else set_request id r (Resolved data) t
      | _ => set_request id r (Resolved data) t
      end
  | _ => set_request id r (Resolved data) t
  end.

(** A request that waited goes on once its promise is settled. *)
Definition onResume (now : Z) (id : nat) (t : Tab) : option Tab :=
  match requests t !! id with
  | Some (r, AwaitRefresh p) =>
      match settled t !! p with
      | Some RefreshOk => Some (dispatch id r t)
      | Some (RefreshFailed error) =>
          Some (set_request id r (Rejecting error) (onRefreshError error t))
      | None => None
      end
  | Some (r, AwaitRetry p) =>
      match settled t !! p with
      | Some RefreshOk =>
          let header := if token_truthy (accessToken t) then accessToken t else authorization r in
          Some (onRequest now id
            (mkRequest (url r) (skipErrorHandler r) (dashboardAuthRetried r) header) t)
      | Some (RefreshFailed error) =>
          Some (reject id r (skipErrorHandler r) error (onRefreshError error t))
      | None => None
      end
  | _ => None
  end.

(** What the request interceptor threw reaches the error interceptor
    ([handled]) or the caller.  The configuration the error interceptor sees
    is that of the refresh request, whose [skipErrorHandler] is not set. *)
Definition onRejection (id : nat) (handled : bool) (t : Tab) : option Tab :=
  match requests t !! id with
  | Some (r, Rejecting error) =>
      Some (if handled then reject id r false error t else set_request id r (Rejected error) t)
  | _ => None
  end.

(** ** The machine *)

Inductive Event :=
  | ERequest (id : nat) (u : jsstr) (skip : bool)
  | EResume (id : nat)
  | ERejection (id : nat) (handled : bool)
  | EResponse (id : nat) (data : option json)
  | EResponseError (id : nat) (status : option Z)
  | ELockGranted
  | ELockFailed
  | ERefreshAnswer (a : Answer)
  | EBroadcast (b : Broadcast)
  | ESetUser (u : json)
  | EReset.

Definition in_flight (id : nat) (t : Tab) : option Request :=
  match requests t !! id with Some (r, InFlight) => Some r | _ => None end.

Definition step (now : Z) (t : Tab) (e : Event) : option Tab :=
  match e with
  | ERequest id u skip =>
      match requests t !! id with
      | None => Some (onRequest now id (mkRequest u skip false None) t)
      | Some _ => None
      end
  | EResume id => onResume now id t
  | ERejection id handled => onRejection id handled t
  | EResponse id data => (λ r, onResponse id r data t) <$> in_flight id t
  | EResponseError id status => (λ r, onResponseError id r status t) <$> in_flight id t
  | ELockGranted => onLockGranted t
  | ELockFailed => onLockFailed t
  | ERefreshAnswer a => onRefreshAnswer a t
  | EBroadcast b => Some (onBroadcast b t)
  | ESetUser u => Some (set_store (AuthStore.setUser u) t)
  | EReset => Some (set_store (AuthStore.reset (store t)) t)
  end.

Definition initial (saved : option jsstr) : Tab :=
  mkTab None num_zero None ∅ 0 (AuthStore.initUser saved) ∅ [] [] [] 0 0.

(** The tabs reachable from a page load, with their clock readings. *)
Inductive reachable (saved : option jsstr) : Tab → Prop :=
  | reach_init : reachable saved (initial saved)
  | reach_step now t e t' : reachable saved t → step now t e = Some t' → reachable saved t'.

(** ** Invariant *)

Definition sent (id : nat) (t : Tab) : nat :=
  length (List.filter (λ x, bool_decide (x.1 = id)) (sends t)).

(** How often a request has been sent, by its phase. *)
Definition phase_ok (n : nat) (e : option (Request * Phase)) : Prop :=
  match e with
  | None => n = 0
  | Some (r, AwaitRefresh _) => n = if dashboardAuthRetried r then 1 else 0
  | Some (r, InFlight) => n = if dashboardAuthRetried r then 2 else 1
  | Some (r, AwaitRetry _) => dashboardAuthRetried r = true ∧ n = 1
  | Some (r, Rejecting _) => n ≤ 1
  | Some (r, _) => n ≤ 2
  end.

Definition waits_for (p : Phase) : option nat :=
  match p with AwaitRefresh g | AwaitRetry g => Some g | _ => None end.

(** A promise somebody may wait for: the current one or one that is over. *)
Definition known (g : nat) (t : Tab) : Prop :=
  is_Some (settled t !! g) ∨ ∃ b, refreshPromise t = Some (g, b).

Record Inv (t : Tab) : Prop := {
  inv_current : ∀ p b, refreshPromise t = Some (p, b) → p < next_promise t ∧ settled t !! p = None;
  inv_settled : ∀ p o, settled t !! p = Some o → p < next_promise t;
  inv_known : ∀ id r p g, requests t !! id = Some (r, p) → waits_for p = Some g → known g t;
  inv_posts : posts t = answers t + match refreshPromise t with Some (_, true) => 1 | _ => 0 end;
  inv_sent : ∀ id, phase_ok (sent id t) (requests t !! id);
}.

(** The fields the invariant is about. *)
Definition core (t : Tab) :=
  (refreshPromise t, settled t, next_promise t, requests t, sends t, posts t, answers t).

Lemma Inv_core t t' : core t' = core t → Inv t → Inv t'.
Proof.
  unfold core. intros [= E1 E2 E3 E4 E5 E6 E7] [H1 H2 H3 H4 H5].
  split; unfold known, sent in *; rewrite ?E1, ?E2, ?E3, ?E4, ?E5, ?E6, ?E7; auto.
Qed.

Lemma core_sent id t t' : core t' = core t → sent id t' = sent id t.
Proof. unfold core, sent. intros [= _ _ _ _ E _ _]. by rewrite E. Qed.

Lemma core_setAccessToken token b e t : core (setAccessToken token b e t) = core t.
Proof. unfold setAccessToken. by destruct b. Qed.

Lemma core_clearExpired now t : core (clearExpiredAccessToken now t) = core t.
Proof. unfold clearExpiredAccessToken. case_match; [apply core_setAccessToken|done]. Qed.

Lemma core_end_session t : core (end_session t) = core t.
Proof. apply core_setAccessToken. Qed.

Lemma core_onRefreshError e t : core (onRefreshError e t) = core t.
Proof. unfold onRefreshError. case_match; [apply core_end_session|done]. Qed.

Lemma core_onBroadcast b t : core (onBroadcast b t) = core t.
Proof. destruct b; apply core_setAccessToken. Qed.

Lemma Inv_set_request id r p t :
  Inv t → phase_ok (sent id t) (Some (r, p)) →
  (∀ g, waits_for p = Some g → known g t) → Inv (set_request id r p t).
Proof.
  intros [H1 H2 H3 H4 H5] Hp Hg. split; try done.
  - intros id' r' p' g. simpl. destruct (decide (id = id')) as [<-|Hne].
    + rewrite lookup_insert_eq. intros [= <- <-]. apply Hg.
    + rewrite lookup_insert_ne by done. apply H3.
  - intros id'. unfold sent. simpl. destruct (decide (id = id')) as [<-|Hne].
    + by rewrite lookup_insert_eq.
    + rewrite lookup_insert_ne by done. apply H5.
Qed.

Lemma Inv_join t t' p :
  refreshDashboardAccessToken t = (t', p) → Inv t →
  Inv t' ∧ (∃ b, refreshPromise t' = Some (p, b)) ∧ requests t' = requests t ∧ sends t' = sends t.
Proof.
  unfold refreshDashboardAccessToken. intros E [H1 H2 H3 H4 H5].
  destruct (refreshPromise t) as [[q b]|] eqn:Er; simplify_eq.
  - split_and!; [by split; rewrite ?Er|by eauto|done|done].
  - split_and!; [|by eexists|done|done]. split; simpl; try done.
    + intros p b [= <- <-]. split; [lia|]. destruct (settled t !! next_promise t) eqn:E; [|done].
      apply H2 in E. lia.
    + intros p o Hp. apply H2 in Hp. lia.
    + intros id r p g Hr Hw. unfold known. simpl. destruct (H3 _ _ _ _ Hr Hw) as [Hs|[b Hb]].
      * by left.
      * congruence.
Qed.

Lemma Inv_dispatch id r t :
  Inv t → phase_ok (S (sent id t)) (Some (r, InFlight)) → Inv (dispatch id r t).
Proof.
  intros [H1 H2 H3 H4 H5] Hp. unfold dispatch. split; simpl; try done.
  - intros id' r' p' g. destruct (decide (id = id')) as [<-|Hne].
    + rewrite lookup_insert_eq. intros [= <- <-] [=].
    + rewrite lookup_insert_ne by done. apply H3.
  - intros id'. unfold sent. simpl. rewrite List.filter_app, length_app. simpl.
    destruct (decide (id = id')) as [<-|Hne].
    + rewrite lookup_insert_eq, bool_decide_eq_true_2 by done. simpl in *.
      fold (sent id t). destruct (dashboardAuthRetried r); lia.
    + rewrite lookup_insert_ne, bool_decide_eq_false_2 by done. simpl.
      rewrite Nat.add_0_r. apply H5.
Qed.

Lemma Inv_onRequest now id r t :
  Inv t → phase_ok (sent id t) (Some (r, AwaitRefresh 0)) → Inv (onRequest now id r t).
Proof.
  intros Hi Hp. unfold onRequest.
  assert (Inv (clearExpiredAccessToken now t)) as Hi' by (eapply Inv_core, Hi; apply core_clearExpired).
  pose proof (core_sent id _ _ (core_clearExpired now t)) as Es.
  rewrite <- Es in Hp. revert Hi' Hp. generalize (clearExpiredAccessToken now t). clear Hi Es t.
  intros t Hi Hp. case_match.
  - destruct (refreshDashboardAccessToken t) as [t' p] eqn:Ej.
    destruct (Inv_join _ _ _ Ej Hi) as (Hi' & Hb & Hr & Hs).
    apply Inv_set_request; [done| |].
    + unfold sent in *. by rewrite Hs.
    + intros g [= <-]. by right.
  - apply Inv_dispatch; [done|]. simpl in *. destruct (dashboardAuthRetried r); lia.
Qed.

Lemma Inv_settle o t :
  Inv t → posts t = answers t → Inv (settle_refresh o t).
Proof.
  intros [H1 H2 H3 H4 H5] Hp. unfold settle_refresh.
  destruct (refreshPromise t) as [[q b]|] eqn:Er; [|by split; rewrite ?Er].
  destruct (H1 _ _ eq_refl) as [Hq Hn]. split; simpl; try done.
  - intros p o'. destruct (decide (q = p)) as [<-|Hne]; [done|].
    rewrite lookup_insert_ne by done. apply H2.
  - intros id r p g Hr Hw. unfold known. simpl. left.
    destruct (decide (q = g)) as [<-|Hne]; [rewrite lookup_insert_eq; by eexists|].
    rewrite lookup_insert_ne by done. destruct (H3 _ _ _ _ Hr Hw) as [Hs|[b' Hb]]; [done|congruence].
  - lia.
Qed.

Lemma Inv_reject id r skip e t :
  Inv t → sent id t ≤ 2 → Inv (reject id r skip e t).
Proof.
  intros Hi Hs. unfold reject. apply Inv_set_request; [|simpl|done].
  - eapply Inv_core, Hi. repeat case_match; reflexivity.
  - rewrite (core_sent id t); [done|]. repeat case_match; reflexivity.
Qed.

Lemma Inv_initial saved : Inv (initial saved).
Proof. split; simpl; try done. Qed.

Lemma in_flight_Some id t r :
  in_flight id t = Some r → requests t !! id = Some (r, InFlight).
Proof. unfold in_flight. repeat case_match; naive_solver. Qed.

Lemma Inv_lock t t' : Inv t → onLockGranted t = Some t' → Inv t'.
Proof.
  unfold onLockGranted. intros Hi H. pose proof (inv_posts _ Hi) as Hp.
  destruct (refreshPromise t) as [[p [|]]|] eqn:Er; try done.
  destruct (token_truthy (accessToken t)); simplify_eq.
  - apply Inv_settle; [done|lia].
  - destruct Hi as [H1 H2 H3 H4 H5]. split; simpl; try done.
    + intros q b [= <- <-]. by eapply H1.
    + intros id r p' g Hr Hw. destruct (H3 _ _ _ _ Hr Hw) as [?|[b Hb]]; [by left|right].
      rewrite Er in Hb. simplify_eq. simpl. eauto.
    + lia.
Qed.

Lemma Inv_count_answer t p :
  Inv t → refreshPromise t = Some (p, true) →
  let t' := count_answer t in posts t' = answers t' ∧
    (∀ o tok e, Inv (settle_refresh o (setAccessToken tok true e t')) ∧ Inv (settle_refresh o t')).
Proof.
  intros [H1 H2 H3 H4 H5] Er t'. rewrite Er in H4. split; [simpl; lia|].
  assert (Inv (set_refresh (Some (p, false)) t')) as Hi.
  { split; simpl; try done.
    - intros q b [= <- <-]. by eapply H1.
    - intros id r p' g Hr Hw. destruct (H3 _ _ _ _ Hr Hw) as [?|[b Hb]]; [by left|right].
      rewrite Er in Hb. simplify_eq. simpl. eauto.
    - lia. }
  intros o tok e.
  assert (Inv (settle_refresh o (set_refresh (Some (p, false)) t'))) as Hs
    by (apply Inv_settle; [done|simpl; lia]).
  split; (eapply Inv_core, Hs); unfold settle_refresh; simpl; by rewrite Er.
Qed.

Lemma Inv_answer a t t' : Inv t → onRefreshAnswer a t = Some t' → Inv t'.
Proof.
  unfold onRefreshAnswer. intros Hi H.
  destruct (refreshPromise t) as [[p [|]]|] eqn:Er; try done. simplify_eq.
  pose proof (Inv_count_answer t p Hi Er) as [_ Hc].
  repeat case_match; first [exact (proj1 (Hc _ _ _))|exact (proj2 (Hc _ None num_zero))].
Qed.

Lemma Inv_resume now id t t' : Inv t → onResume now id t = Some t' → Inv t'.
Proof.
  unfold onResume. intros Hi H. pose proof (inv_sent _ Hi id) as Hp.
  destruct (requests t !! id) as [[r [g| |g|e|d|e]]|] eqn:Er; try done;
    destruct (settled t !! g) as [[|e]|]; simplify_eq; simpl in Hp.
  - apply Inv_dispatch; [done|]. simpl. destruct (dashboardAuthRetried r); lia.
  - apply Inv_set_request; [|simpl|done].
    + eapply Inv_core, Hi. apply core_onRefreshError.
    + rewrite (core_sent _ t _ (core_onRefreshError e t)). destruct (dashboardAuthRetried r); lia.
  - destruct Hp as [Hr Hn]. apply Inv_onRequest; [done|]. simpl. by rewrite Hr.
  - apply Inv_reject.
    + eapply Inv_core, Hi. apply core_onRefreshError.
    + rewrite (core_sent _ t _ (core_onRefreshError e t)). lia.
Qed.

Lemma Inv_response id r data t :
  Inv t → requests t !! id = Some (r, InFlight) → Inv (onResponse id r data t).
Proof.
  intros Hi Hr. pose proof (inv_sent _ Hi id) as Hp. rewrite Hr in Hp. simpl in Hp.
  assert (∀ t' d, core t' = core t → Inv (set_request id r (Resolved d) t')) as Hs.
  { intros t' d E. apply Inv_set_request; [by eapply Inv_core|simpl|done].
    rewrite (core_sent _ t _ E). destruct (dashboardAuthRetried r); lia. }
  unfold onResponse.
  repeat case_match; apply Hs; rewrite ?core_setAccessToken; done.
Qed.

Lemma Inv_response_error id r status t :
  Inv t → requests t !! id = Some (r, InFlight) → Inv (onResponseError id r status t).
Proof.
  intros Hi Hr. pose proof (inv_sent _ Hi id) as Hp. rewrite Hr in Hp. simpl in Hp.
  unfold onResponseError.
  destruct (bool_decide (status = Some 401%Z) && negb (ends_with REFRESH_URL (url r))
     && negb (dashboardAuthRetried r) && hasPersistedDashboardUser t) eqn:Ec.
  - bool_hyps. match goal with H : dashboardAuthRetried r = false |- _ => rewrite H in Hp end.
    destruct (refreshDashboardAccessToken (setAccessToken None false num_zero t)) as [t' p] eqn:Ej.
    destruct (Inv_join _ _ _ Ej) as (Hi' & Hb & Hq & Hs).
    { eapply Inv_core, Hi. apply core_setAccessToken. }
    apply Inv_set_request; [done|simpl|].
    + split; [done|]. unfold sent. rewrite Hs. exact Hp.
    + intros g [= <-]. by right.
  - apply Inv_reject; [done|]. destruct (dashboardAuthRetried r); lia.
Qed.

Lemma Inv_step now t e t' : Inv t → step now t e = Some t' → Inv t'.
Proof.
  intros Hi. destruct e as [id u skip|id|id h|id d|id s| | |a|b|u|]; simpl.
  - destruct (requests t !! id) as [x|] eqn:Er; [done|]. intros [= <-].
    apply Inv_onRequest; [done|]. pose proof (inv_sent _ Hi id) as Hp. by rewrite Er in Hp.
  - by apply Inv_resume.
  - unfold onRejection. pose proof (inv_sent _ Hi id) as Hp.
    destruct (requests t !! id) as [[r [g| |g|e|d|e]]|] eqn:Er; try done.
    simpl in Hp. intros [= <-]. destruct h.
    + apply Inv_reject; [done|lia].
    + apply Inv_set_request; [done|simpl; lia|done].
  - destruct (in_flight id t) as [r|] eqn:E; [|done]. intros [= <-].
    by apply Inv_response, in_flight_Some.
  - destruct (in_flight id t) as [r|] eqn:E; [|done]. intros [= <-].
    by apply Inv_response_error, in_flight_Some.
  - by apply Inv_lock.
  - unfold onLockFailed. pose proof (inv_posts _ Hi) as Hp.
    destruct (refreshPromise t) as [[p [|]]|]; try done. intros [= <-]. apply Inv_settle; [done|lia].
  - by apply Inv_answer.
  - intros [= <-]. eapply Inv_core, Hi. apply core_onBroadcast.
  - intros [= <-]. by eapply Inv_core, Hi.
  - intros [= <-]. by eapply Inv_core, Hi.
Qed.

Lemma reachable_Inv saved t : reachable saved t → Inv t.
Proof. induction 1; [apply Inv_initial|by eapply Inv_step]. Qed.
(** ** Theorems *)


(** A request to the tab, up to the dispatch. *)
Lemma onRequest_logged_out now id r t :
  token_truthy (accessToken t) = false → AuthStore.storage (store t) = None →
  onRequest now id r t = dispatch id r t.
Proof.
  intros Ht Hs. unfold onRequest.
  assert (clearExpiredAccessToken now t = t) as ->
    by (unfold clearExpiredAccessToken, token_expired; by rewrite Ht).
  unfold hasPersistedDashboardUser. by rewrite Hs, andb_false_r.
Qed.

(** The session is over: no token, no user, and the other tabs are told. *)
Definition logged_out (t : Tab) : Prop :=
  accessToken t = None ∧ store t = AuthStore.mkStore None None ∧
  last (broadcasts t) = Some BLogout.

Lemma end_session_logged_out t : logged_out (end_session t).
Proof. unfold logged_out. simpl. by rewrite last_snoc. Qed.

Lemma reject_terminal id r e t :
  isTerminalDashboardAuthError e = true → logged_out (reject id r false e t).
Proof. intros He. unfold reject, logged_out. rewrite He. simpl. by rewrite last_snoc. Qed.

Lemma reject_keeps_logged_out id r skip e t :
  isTerminalDashboardAuthError e = true → logged_out t → logged_out (reject id r skip e t).
Proof. intros He Ht. destruct skip; [|by apply reject_terminal]. done. Qed.


(** A tab that was loaded with a user and whose first request waits for the
    refresh, which is refused. *)
Definition refused_tab (skip : bool) : option Tab :=
  step 0 (initial (Some (jq "{`id`:1}"))) (ERequest 7 (js "/api/user/self") skip) ≫= λ t,
  step 0 t ELockGranted ≫= λ t, step 0 t (ERefreshAnswer (AnswerError (Some 401%Z))).

Lemma refused_tab_reachable skip t :
  refused_tab skip = Some t → reachable (Some (jq "{`id`:1}")) t.
Proof.
  unfold refused_tab. intros (t1 & H1 & (t2 & H2 & H3)%bind_Some)%bind_Some.
  eapply reach_step, H3. eapply reach_step, H2. eapply reach_step, H1. constructor.
Qed.



(** A request that is sent at once carries the access token of the tab,
    which is then not within five seconds of its end, and carries none only
    where nobody is logged in or the refresh itself is requested; otherwise
    it waits for the refresh under way, started if there was none.  What the
    caller gets from a login answer holds no token. *)
Theorem interceptors_spec now id u skip t :
  requests t !! id = None →
  (∃ t' r, step now t (ERequest id u skip) = Some t' ∧
     ((requests t' !! id = Some (r, InFlight) ∧ sends t' = sends t ++ [(id, authorization r)] ∧
       token_expired now t' = false ∧
       (authorization r = accessToken t' ∧ token_truthy (accessToken t') = true ∨
        authorization r = None ∧
          (hasPersistedDashboardUser t = false ∨ ends_with REFRESH_URL u = true))) ∨
      (∃ p b, requests t' !! id = Some (r, AwaitRefresh p) ∧ sends t' = sends t ∧
         refreshPromise t' = Some (p, b) ∧
         (refreshPromise t = Some (p, b) ∨ refreshPromise t = None ∧ b = false)))) ∧
  (∀ id' r o data, in_flight id' t = Some r → isDashboardAuthResponse (url r) = true →
     data = Some (JObj o) → (∃ token, obj_get (js "access_token") o = Some (JStr token)) →
     ∃ t' r' o', step now t (EResponse id' data) = Some t' ∧
       requests t' !! id' = Some (r', Resolved (Some (JObj o'))) ∧ AuthStore.no_tokens o').
Proof.
  intros Hn. split.
  - cbn [step]. rewrite Hn. unfold onRequest.
    set (t0 := clearExpiredAccessToken now t).
    assert (token_expired now t0 = false) as Hexp.
    { subst t0. unfold clearExpiredAccessToken. destruct (token_expired now t) eqn:E; [|done].
      unfold token_expired. done. }
    assert (store t0 = store t ∧ refreshPromise t0 = refreshPromise t ∧ sends t0 = sends t)
      as (Hst & Hrp & Hsd).
    { subst t0. unfold clearExpiredAccessToken. destruct (token_expired now t); by split_and!. }
    assert (hasPersistedDashboardUser t0 = hasPersistedDashboardUser t) as Hp
      by (unfold hasPersistedDashboardUser; by rewrite Hst).
    cbn [url]. destruct (negb (token_truthy (accessToken t0)) && hasPersistedDashboardUser t0
      && negb (ends_with REFRESH_URL u)) eqn:Ec.
    + unfold refreshDashboardAccessToken. rewrite Hrp.
      destruct (refreshPromise t) as [[p b]|]; eexists _, _; (split; [done|]); right;
        eexists _, _; simpl; rewrite lookup_insert_eq; eauto 10.
    + eexists _, _. split; [done|]. left. unfold dispatch. simpl.
      rewrite lookup_insert_eq, Hsd. split; [done|]. split; [done|].
      split; [exact Hexp|]. rewrite Hp in Ec. simpl.
      destruct (token_truthy (accessToken t0)); [by left|right]. split; [done|].
      destruct (hasPersistedDashboardUser t); [|by left]. right. simpl in Ec.
      by apply negb_false_iff in Ec.
  - intros id' r o data Hf Ha -> [token Ht]. eexists _, _, _. simpl. rewrite Hf. split; [done|].
    unfold onResponse. rewrite Ht, Ha. split; [apply lookup_insert_eq|].
    apply AuthStore.strip_no_tokens.
Qed.

Theorem interceptors_spec_witness :
  requests (initial (Some (jq "{`id`:1}"))) !! 3 = None ∧
  ∃ t' r, step 0 (initial (Some (jq "{`id`:1}"))) (ERequest 3 (js "/api/status") false) = Some t' ∧
    requests t' !! 3 = Some (r, AwaitRefresh 0).
Proof.
  assert (requests (initial (Some (jq "{`id`:1}"))) !! 3 = None) as Hn by reflexivity.
  split; [exact Hn|].
  destruct (proj1 (interceptors_spec 0 3 (js "/api/status") false _ Hn))
    as (t' & r & Hs & Hcase).
  exists t', r. split; [exact Hs|]. vm_compute in Hs. injection Hs as <-.
  destruct Hcase as [(Hr & _)|(p & b & Hr & _)]; vm_compute in Hr; [discriminate Hr|].
  injection Hr as <- <-. vm_compute. reflexivity.
Defined.

(** A request whose refresh failed before it was sent is reported to the
    user even where it asked for silence: the handler sees the configuration
    of the refresh request; a request that was answered 401 keeps its flag. *)
Theorem rejection_ignores_skip id r error t t' :
  requests t !! id = Some (r, Rejecting error) →
  onRejection id true t = Some t' →
  toasts t' = toasts t ++
    [if isTerminalDashboardAuthError error then ToastExpired else ToastError].
Proof.
  intros Hr. unfold onRejection. rewrite Hr. intros [= <-]. unfold reject. simpl.
  by destruct (isTerminalDashboardAuthError error).
Qed.

Theorem rejection_ignores_skip_witness :
  ∃ t t', (refused_tab true ≫= λ t, step 0 t (EResume 7)) = Some t ∧
    onRejection 7 true t = Some t' ∧ toasts t' = toasts t ++ [ToastExpired].
Proof.
  assert (∃ t r, (refused_tab true ≫= λ t, step 0 t (EResume 7)) = Some t ∧
    requests t !! 7 = Some (r, Rejecting (mkError (Some 401%Z) (Some REFRESH_URL))) ∧
    is_Some (onRejection 7 true t)) as (t & r & Ht & Hr & [t' Ht']).
  { eexists _, _. split; [vm_compute; reflexivity|]. split; [vm_compute; reflexivity|].
    eexists. vm_compute. reflexivity. }
  exists t, t'. split; [exact Ht|]. split; [exact Ht'|].
  exact (rejection_ignores_skip 7 r _ t t' Hr Ht').
Defined.

End Session.

Module Lease.
Local Open Scope Z_scope.

(** The tabs share a lease in [localStorage]: its owner and when it ends, in
    milliseconds.  A tab runs one loop of [withCrossTabRefreshLock] at a time,
    so a tab stands for the owner it drew. *)
Definition LEASE_MS : Z := 15000.
Definition CLAIM_MS : Z := 25.
Definition POLL_MS : Z := 75.

(** Where a tab is in the loop; [Claiming] and [Refreshing] remember the end
    of the lease the tab wrote. *)
Inductive Place :=
  | Polling
  | Claiming (until ends_at : Z)
  | Sleeping (until : Z)
  | Refreshing (ends_at : Z)
  | Finished.

Record World := mkWorld {
  now : Z;
  lease : option (nat * Z);
  has_token : nat → bool;
  place : nat → Place;
}.

Definition move (w : World) (o : nat) (p : Place) (l : option (nat * Z)) : World :=
  mkWorld (now w) l (has_token w) (λ o', if decide (o = o') then p else place w o').

Definition lease_free (w : World) : bool :=
  match lease w with
  | Some (_, expiresAt) => (expiresAt =? 0) || (expiresAt <=? now w)
  | None => true
  end.

Definition owns (w : World) (o : nat) : bool :=
  match lease w with Some (owner, _) => bool_decide (owner = o) | None => false end.

(** [finally]: the lease is removed by its owner only. *)
Definition release (w : World) (o : nat) : option (nat * Z) :=
  if owns w o then None else lease w.

(** The top of the loop, up to the first [await]. *)
Definition poll (w : World) (o : nat) : option World :=
  match place w o with
  | Polling =>
      Some (if has_token w o then move w o Finished (lease w) else
            if lease_free w
            then move w o (Claiming (now w + CLAIM_MS) (now w + LEASE_MS)) (Some (o, now w + LEASE_MS))
            else move w o (Sleeping (now w + POLL_MS)) (lease w))
  | _ => None
  end.

(** After [delay(25)]: is the lease still the one written? *)
Definition claim (w : World) (o : nat) : option World :=
  match place w o with
  | Claiming until ends_at =>
      if now w <? until then None else
      Some (if owns w o then
              if has_token w o then move w o Finished (release w o)
              else move w o (Refreshing ends_at) (lease w)
            else move w o (Sleeping (now w + POLL_MS)) (lease w))
  | _ => None
  end.

(** The refresh is over, with or without success. *)
Definition finish (w : World) (o : nat) : option World :=
  match place w o with
  | Refreshing _ => Some (move w o Finished (release w o))
  | _ => None
  end.

Definition wake (w : World) (o : nat) : option World :=
  match place w o with
  | Sleeping until => if now w <? until then None else Some (move w o Polling (lease w))
  | _ => None
  end.

Inductive lease_step : World → World → Prop :=
  | ls_poll w o w' : poll w o = Some w' → lease_step w w'
  | ls_claim w o w' : claim w o = Some w' → lease_step w w'
  | ls_finish w o w' : finish w o = Some w' → lease_step w w'
  | ls_wake w o w' : wake w o = Some w' → lease_step w w'
  | ls_start w o : place w o = Finished → lease_step w (move w o Polling (lease w))
  | ls_time w d : 0 <= d → lease_step w (mkWorld (now w + d) (lease w) (has_token w) (place w))
  | ls_token w f : lease_step w (mkWorld (now w) (lease w) f (place w)).

(** Every tab outside the loop, and no lease or one that somebody left. *)
Definition lease_init (w : World) : Prop := 0 < now w ∧ ∀ o, place w o = Finished.

Inductive lease_reach : World → Prop :=
  | lr_init w : lease_init w → lease_reach w
  | lr_step w w' : lease_reach w → lease_step w w' → lease_reach w'.

Definition claimed_until (p : Place) : option Z :=
  match p with Claiming _ e | Refreshing e => Some e | _ => None end.

(** A claim that has not run out is the lease. *)
Definition lease_inv (w : World) : Prop :=
  0 < now w ∧ ∀ o e, claimed_until (place w o) = Some e → now w < e → lease w = Some (o, e).

Lemma move_inv w o p l :
  lease_inv w →
  (∀ e, claimed_until p = Some e → now w < e → l = Some (o, e)) →
  (∀ o' e, o ≠ o' → lease w = Some (o', e) → now w < e → l = lease w) →
  lease_inv (move w o p l).
Proof.
  intros [Hn Hw] Hp Hl. split; [done|]. intros o' e. simpl. case_decide as Ho.
  - subst. apply Hp.
  - intros Hc Hlt. pose proof (Hw _ _ Hc Hlt) as E. by rewrite (Hl _ _ Ho E Hlt).
Qed.

Lemma release_other w o o' e : o ≠ o' → lease w = Some (o', e) → release w o = lease w.
Proof. intros Hne E. unfold release, owns. rewrite E. by rewrite bool_decide_eq_false_2. Qed.

Lemma lease_step_inv w w' : lease_inv w → lease_step w w' → lease_inv w'.
Proof.
  intros Hi Hs. pose proof Hi as [Hn Hw].
  destruct Hs as [w o w' H|w o w' H|w o w' H|w o w' H|w o Hf|w d Hd|w f].
  - unfold poll in H. destruct (place w o); simplify_eq. destruct (has_token w o).
    { by apply move_inv. }
    destruct (lease_free w) eqn:Ef; [|by apply move_inv].
    apply move_inv; [done|by intros e [= <-]|]. intros o' e _ E Hlt. unfold lease_free in Ef.
    rewrite E in Ef. apply orb_true_iff in Ef as [?%Z.eqb_eq|?%Z.leb_le]; lia.
  - unfold claim in H. destruct (place w o) as [|u e| | |] eqn:Ep; try done.
    destruct (now w <? u); simplify_eq.
    destruct (owns w o) eqn:Eo; [|by apply move_inv]. destruct (has_token w o).
    + apply move_inv; [done|done|]. intros. by eapply release_other.
    + apply move_inv; [done| |done]. intros e' [= <-] Hlt. apply Hw; [by rewrite Ep|done].
  - unfold finish in H. destruct (place w o); simplify_eq.
    apply move_inv; [done|done|]. intros. by eapply release_other.
  - unfold wake in H. destruct (place w o); try done. destruct (_ <? _); simplify_eq.
    by apply move_inv.
  - by apply move_inv.
  - split; simpl; [lia|]. intros o e Hc Hlt. apply Hw; [done|lia].
  - by split.
Qed.


(** A tab alone gets the lease and refreshes 25 ms later. *)
Definition world0 : World := mkWorld 1000 None (λ _, false) (λ _, Finished).

Definition lease_run : option World :=
  let w := move world0 0 Polling None in
  w ← poll w 0;
  claim (mkWorld (now w + 25) (lease w) (has_token w) (place w)) 0.


End Lease.

Module Dedupe.

(** [inFlightGet]: the request shared under a key; [next_id] numbers the
    requests, [live] are those that are not over. *)
Record Gets := mkGets { inFlightGet : gmap jsstr nat; next_id : nat; live : gset nat }.

Definition get_key (url : jsstr) (params : option json) : jsstr :=
  url ++ js "?" ++ match params with
                   | Some p => if json_truthy p then JSON_stringify p else js "{}"
                   | None => js "{}"
                   end.

(** The state after a call, and the request whose answer the caller gets. *)
Definition get (url : jsstr) (params : option json) (disableDuplicate : bool) (g : Gets)
    : Gets * nat :=
  let fresh := next_id g in
  if disableDuplicate
  then (mkGets (inFlightGet g) (S fresh) ({[fresh]} ∪ live g), fresh) else
  let key := get_key url params in
  match inFlightGet g !! key with
  | Some req => (g, req)
  | None => (mkGets (<[key := fresh]> (inFlightGet g)) (S fresh) ({[fresh]} ∪ live g), fresh)
  end.

(** A request is over: [finally] forgets the key it was stored under. *)
Definition complete (req : nat) (key : option jsstr) (g : Gets) : Gets :=
  mkGets (match key with Some k => delete k (inFlightGet g) | None => inFlightGet g end)
    (next_id g) (live g ∖ {[req]}).

(** Only live requests are shared, each under one key. *)
Definition gets_ok (g : Gets) : Prop :=
  (∀ r, r ∈ live g → r < next_id g) ∧
  (∀ k r, inFlightGet g !! k = Some r → r ∈ live g) ∧
  (∀ k k' r, inFlightGet g !! k = Some r → inFlightGet g !! k' = Some r → k = k').

Lemma get_ok url params d g : gets_ok g → gets_ok (get url params d g).1.
Proof.
  intros (Hl & Hm & Hj). unfold get. destruct d; [|destruct (inFlightGet g !! _) eqn:E]; simpl.
  - split_and!; simpl; [|set_solver|done]. intros r. rewrite elem_of_union, elem_of_singleton.
    intros [->|Hr]; [lia|]. apply Hl in Hr. lia.
  - done.
  - split_and!; simpl.
    + intros r. rewrite elem_of_union, elem_of_singleton.
      intros [->|Hr]; [lia|]. apply Hl in Hr. lia.
    + intros k r. rewrite lookup_insert_Some. set_solver.
    + assert (∀ k, inFlightGet g !! k ≠ Some (next_id g)) as Hn.
      { intros k Hk. apply Hm, Hl in Hk. lia. }
      intros k k' r. rewrite !lookup_insert_Some. intros [[<- <-]|[_ H1]] [[<- H2]|[_ H2]]; try done.
      * by destruct (Hn k').
      * subst. by destruct (Hn k).
      * by eapply Hj.
Qed.

Lemma complete_ok req key g :
  gets_ok g → (∀ k, inFlightGet g !! k = Some req ↔ key = Some k) → gets_ok (complete req key g).
Proof.
  intros (Hl & Hm & Hj) Hk. split_and!; simpl.
  - set_solver.
  - intros k r Hr. assert (inFlightGet g !! k = Some r ∧ r ≠ req) as [H1 H2]; [|set_solver].
    destruct key as [k0|].
    + rewrite lookup_delete_Some in Hr. destruct Hr as [Hne Hr]. split; [done|]. intros ->.
      apply Hk in Hr. congruence.
    + split; [done|]. intros ->. apply Hk in Hr. done.
  - intros k k' r H1 H2. apply (Hj _ _ r); (destruct key; [|done]);
      by rewrite lookup_delete_Some in *; destruct_and!.
Qed.

(** While a request is in flight an equal call shares it; once it is over a
    new one is made. *)
Lemma get_shared url params g g' r :
  get url params false g = (g', r) → get url params false g' = (g', r).
Proof.
  unfold get. destruct (inFlightGet g !! get_key url params) as [q|] eqn:E; intros [= <- <-].
  - by rewrite E.
  - simpl. by rewrite lookup_insert_eq.
Qed.

Lemma get_after_complete url params g r :
  (get url params false (complete r (Some (get_key url params)) g)).2 = next_id g.
Proof. unfold get. simpl. by rewrite lookup_delete_eq. Qed.

End Dedupe.
