(* ===== verification/Pricing.v ===== *)
(** * Ratio maps of groups and prices of models

    Models, under [web/default/src/features], the pure maps behind two
    settings pages: [system-settings/utils/json-parser.ts] (Module JsonParser),
    [system-settings/models/group-ratio-maps.ts] (Module GroupRatio) and
    [models/lib/model-pricing.ts] (Module ModelPricing).  A map read from a
    JSON text is any JSON value, as the cast of the source does not check it;
    a spread of it is the object of its own properties. *)
From S2P Require Import Prelude JSString JSNumber JSON.

Module JsonParser.

Definition blank (value : option jsstr) : bool :=
  match value with None => true | Some s => negb (nonempty (trim s)) end.

(** [fallback ?? null]; the logging of an error is left out. *)
Definition safeJsonParse (value : option jsstr) (fallback : option json) : json :=
  let default := match fallback with Some f => f | None => JNull end in
  if blank value then default else
  match JSON_parse (trim (opt_or value [])) with
  | Some v => v
  | None => default
  end.

Definition safeJsonParseWithValidation (value : option jsstr) (fallback : json)
    (validator : json → bool) : json :=
  let parsed := safeJsonParse value (Some fallback) in
  if negb (validator parsed) then fallback else parsed.

(** [None] is [success: false]; the message is that of the engine. *)
Definition tryJsonParse (value : option jsstr) : option json :=
  if blank value then None else JSON_parse (trim (opt_or value [])).

Definition getLineAndColumn (text : jsstr) (position : nat) : nat * nat :=
  let lines := split_on 10%N (take position text) in
  (length lines, length (List.last lines []) + 1).

Lemma safe_validated value fallback validator :
  validator fallback = true → validator (safeJsonParseWithValidation value fallback validator) = true.
Proof.
  intros Hf. unfold safeJsonParseWithValidation.
  destruct (validator (safeJsonParse value (Some fallback))) eqn:E; [|done]. done.
Qed.

Lemma safe_try value fallback :
  safeJsonParse value (Some fallback) =
  match tryJsonParse value with Some v => v | None => fallback end.
Proof. unfold safeJsonParse, tryJsonParse. by destruct (blank value). Qed.

End JsonParser.

Module GroupRatio.

Record UsableGroup := mkUsable { description : json; user_selectable : bool }.

(** [v?.description ?? ''] and [v?.user_selectable !== false] *)
Definition usable_of (v : json) : UsableGroup :=
  match v with
  | JStr s => mkUsable (JStr s) true
  | _ =>
      mkUsable (match json_prop v (js "description") with
                | Some JNull | None => JStr []
                | Some d => d
                end)
        (negb (bool_decide (json_prop v (js "user_selectable") = Some (JBool false))))
  end.

Definition normalizeUsableGroups (raw : json) : obj UsableGroup :=
  match raw with
  | JObj _ | JArr _ => foldl (λ out '(k, v), obj_set k (usable_of v) out) [] (spread raw)
  | _ => []
  end.

(** The index a [Map] filled in order ends with: that of the last occurrence. *)
Fixpoint last_index (x : jsstr) (l : list jsstr) : option nat :=
  match l with
  | [] => None
  | y :: l' => match last_index x l' with
               | Some i => Some (S i)
               | None => if decide (x = y) then Some 0 else None
               end
  end.

Definition all_rows (groupRatio : obj json) (groupGroupRatio : json)
    (usableGroups : obj UsableGroup) : list jsstr :=
  uniq (obj_keys groupRatio ++ obj_keys usableGroups ++
        concat (map (λ col, obj_keys (spread col)) (obj_values (spread groupGroupRatio)))).

(** The comparison by the place in the custom order, absent last, then by the
    natural place. *)
Definition compare_rows (rowOrder all : list jsstr) (a b : jsstr) : Z :=
  let place x := match last_index x all with Some i => Z.of_nat i | None => 0%Z end in
  let natural := (place a - place b)%Z in
  match last_index a rowOrder, last_index b rowOrder with
  | Some i, Some j => if (i =? j)%nat then natural else (Z.of_nat i - Z.of_nat j)%Z
  | Some _, None => (-1)%Z
  | None, Some _ => 1%Z
  | None, None => natural
  end.

Definition collectProductRows (groupRatio : obj json) (groupGroupRatio : json)
    (usableGroups : obj UsableGroup) (rowOrder : list jsstr) : list jsstr :=
  let all := all_rows groupRatio groupGroupRatio usableGroups in
  match rowOrder with
  | [] => all
  | _ => js_sort (compare_rows rowOrder all) all
  end.

Record Groups := mkGroups {
  groupRatio : obj json;
  groupGroupRatio : obj json;
  usableGroups : obj UsableGroup;
  autoGroups : list jsstr;
  topupGroupRatio : obj json;
  specialUsable : obj json;
}.

(** [k.replace(/^(\+:|-:)/, '')] *)
Definition bare_name (k : jsstr) : jsstr :=
  match k with
  | c :: 58%N :: rest => if (c =? 43)%N || (c =? 45)%N then rest else k
  | _ => k
  end.

Definition removeProductGroup (row : jsstr) (input : Groups) : Groups :=
  {| groupRatio := obj_delete row (groupRatio input);
     groupGroupRatio :=
       foldl (λ out '(ug, col), obj_set ug (JObj (obj_delete row (spread col))) out) []
         (groupGroupRatio input);
     usableGroups := obj_delete row (usableGroups input);
     autoGroups := List.filter (λ g, negb (bool_decide (g = row))) (autoGroups input);
     topupGroupRatio := obj_delete row (topupGroupRatio input);
     specialUsable :=
       foldl (λ out '(ug, inner),
         if decide (ug = row) then out else
         obj_set ug
           (JObj (foldl (λ nextInner '(k, v),
                    if decide (bare_name k = row) then nextInner else obj_set k v nextInner)
                    [] (spread inner))) out) []
         (specialUsable input) |}.

(** ** Objects built entry by entry *)

(** The object that a loop over the entries builds with a function of the
    entries that may skip some. *)
Lemma fold_step_get {A B} (step : obj B → jsstr * A → obj B) (f : jsstr → A → option B)
    (acc : obj B) (o : obj A) k :
  (∀ out k v, step out (k, v) = match f k v with Some w => obj_set k w out | None => out end) →
  NoDup (obj_keys o) →
  obj_get k (foldl step acc o) =
  match obj_get k o with
  | Some v => match f k v with Some w => Some w | None => obj_get k acc end
  | None => obj_get k acc
  end.
Proof.
  intros Hf. revert acc. induction o as [|[k' v] o IH]; intros acc Hnd; [done|].
  apply NoDup_cons in Hnd as [Hk Hnd]. apply obj_get_None in Hk. simpl in Hk.
  cbn [foldl]. rewrite IH, Hf by done. cbn [obj_get]. destruct (decide (k = k')) as [->|Hne].
  - rewrite Hk. destruct (f k' v); [by rewrite obj_get_set_eq|done].
  - destruct (f k' v); [by rewrite obj_get_set_ne|done].
Qed.

(** ** The rows *)

Lemma last_index_None x l : last_index x l = None ↔ x ∉ l.
Proof.
  induction l as [|y l IH]; simpl; [split; [intros; apply not_elem_of_nil|done]|].
  rewrite not_elem_of_cons. destruct (last_index x l) as [i|].
  - split; [done|]. intros [_ H]. by apply IH in H.
  - pose proof (proj1 IH eq_refl). case_decide; naive_solver.
Qed.

Lemma last_index_lookup x l i : last_index x l = Some i → l !! i = Some x.
Proof.
  revert i. induction l as [|y l IH]; intros i; simpl; [done|].
  destruct (last_index x l); [intros [= <-]; by apply IH|]. case_decide; naive_solver.
Qed.

Lemma last_index_NoDup x l i : NoDup l → l !! i = Some x → last_index x l = Some i.
Proof.
  intros Hnd Hi. destruct (last_index x l) as [j|] eqn:E.
  - apply last_index_lookup in E. f_equal. by eapply NoDup_lookup.
  - apply last_index_None in E. by apply list_elem_of_lookup_2 in Hi.
Qed.

#[global] Instance compare_rows_order o a : CmpOrder (compare_rows o a).
Proof.
  split; unfold compare_rows; [intros x y|intros x y z];
    generalize (match last_index x a with Some i => Z.of_nat i | None => 0%Z end)
               (match last_index y a with Some i => Z.of_nat i | None => 0%Z end).
  - intros px py. destruct (last_index x o) as [i|], (last_index y o) as [j|];
      try (destruct (Nat.eqb_spec i j), (Nat.eqb_spec j i)); lia.
  - intros px py. generalize (match last_index z a with Some i => Z.of_nat i | None => 0%Z end).
    intros pz. destruct (last_index x o) as [i|], (last_index y o) as [j|], (last_index z o) as [k|];
      try destruct (Nat.eqb_spec i j); try destruct (Nat.eqb_spec j k);
      try destruct (Nat.eqb_spec i k); lia.
Qed.

Lemma NoDup_all_rows g gg u : NoDup (all_rows g gg u).
Proof. apply NoDup_uniq. Qed.

Lemma StronglySorted_filter_In {A} (R : A → A → Prop) f l :
  StronglySorted R l → StronglySorted R (List.filter f l).
Proof.
  induction 1 as [|x l Hl IH Hx]; simpl; [constructor|]. destruct (f x); [|done].
  constructor; [done|]. rewrite Forall_forall in Hx |- *. intros y [Hy _]%elem_of_bfilter. auto.
Qed.

Lemma sorted_by_index (l : list jsstr) (P : jsstr → jsstr → Prop) :
  (∀ i j x y, l !! i = Some x → l !! j = Some y → i < j → P x y) → StronglySorted P l.
Proof.
  induction l as [|x l IH]; intros H; [constructor|]. constructor.
  - apply IH. intros i j a b Hi Hj Hlt. apply (H (S i) (S j)); [done..|lia].
  - apply Forall_forall. intros y [j Hj]%list_elem_of_lookup. apply (H 0 (S j)); [done..|lia].
Qed.

Lemma elem_of_all_rows g gg u x :
  x ∈ all_rows g gg u ↔ x ∈ obj_keys g ∨ x ∈ obj_keys u ∨
    ∃ col, col ∈ obj_values (spread gg) ∧ x ∈ obj_keys (spread col).
Proof.
  unfold all_rows. rewrite elem_of_uniq, !elem_of_app, elem_of_concat. split.
  - intros [?|[?|(l & (col & -> & Hc)%list_elem_of_fmap & Hx)]]; eauto.
  - intros [?|[?|(col & Hc & Hx)]]; [by left|by right; left|]. right. right.
    eexists. split; [|exact Hx]. apply list_elem_of_fmap. eauto.
Qed.

Section Order.
Context (rowOrder all : list jsstr) (Ho : NoDup rowOrder) (Ha : NoDup all).

(** The rows of the order that exist, then the others. *)
Definition ordered_rows : list jsstr :=
  List.filter (λ x, bool_decide (x ∈ all)) rowOrder ++
  List.filter (λ x, negb (bool_decide (x ∈ rowOrder))) all.

Lemma ordered_rows_perm : ordered_rows ≡ₚ all.
Proof.
  apply NoDup_Permutation; [|done|].
  - apply NoDup_app. split_and!; [by apply NoDup_bfilter| |by apply NoDup_bfilter].
    intros x [Hx _]%elem_of_bfilter. rewrite elem_of_bfilter, negb_true_iff, bool_decide_eq_false.
    by intros [_ ?].
  - intros x. unfold ordered_rows.
    rewrite elem_of_app, !elem_of_bfilter, negb_true_iff, bool_decide_eq_true, bool_decide_eq_false.
    destruct (decide (x ∈ rowOrder)); naive_solver.
Qed.

(** The rows outside of the order are compared by their natural place. *)
Lemma others_sorted :
  StronglySorted (cmp_le (compare_rows rowOrder all))
    (List.filter (λ x, negb (bool_decide (x ∈ rowOrder))) all).
Proof.
  set (B := List.filter _ all).
  assert (StronglySorted (λ x y, x ∉ rowOrder → y ∉ rowOrder →
    cmp_le (compare_rows rowOrder all) x y) B) as Hb.
  { apply StronglySorted_filter_In, sorted_by_index. intros i j x y Hi Hj Hlt Hx Hy.
    apply last_index_None in Hx, Hy. unfold cmp_le, compare_rows. rewrite Hx, Hy.
    rewrite (last_index_NoDup _ _ _ Ha Hi), (last_index_NoDup _ _ _ Ha Hj). lia. }
  assert (∀ x, x ∈ B → x ∉ rowOrder) as Hno.
  { intros x. subst B. rewrite elem_of_bfilter, negb_true_iff, bool_decide_eq_false. by intros []. }
  clearbody B. clear -Hb Hno. induction Hb as [|x l Hl IH Hx]; [constructor|].
  constructor; [apply IH; set_solver|]. rewrite Forall_forall in Hx |- *.
  intros y Hy. apply Hx; set_solver.
Qed.

Lemma ordered_rows_sorted : StronglySorted (cmp_le (compare_rows rowOrder all)) ordered_rows.
Proof.
  apply StronglySorted_app. split_and!; [| |apply others_sorted].
  - intros x y. rewrite !elem_of_bfilter, negb_true_iff, bool_decide_eq_false.
    intros [Hx _] [_ Hy]. unfold cmp_le, compare_rows. apply last_index_None in Hy. rewrite Hy.
    destruct (last_index x rowOrder) eqn:E; [done|]. by apply last_index_None in E.
  - apply StronglySorted_filter_In, sorted_by_index. intros i j x y Hi Hj Hlt.
    unfold cmp_le, compare_rows.
    rewrite (last_index_NoDup _ _ _ Ho Hi), (last_index_NoDup _ _ _ Ho Hj).
    destruct (Nat.eqb_spec i j); lia.
Qed.

(** No two rows are equal for the comparison. *)
Lemma compare_rows_strict x y :
  x ∈ all → y ∈ all →
  cmp_le (compare_rows rowOrder all) x y → cmp_le (compare_rows rowOrder all) y x → x = y.
Proof.
  intros [i Hi]%list_elem_of_lookup [j Hj]%list_elem_of_lookup H1 H2.
  unfold cmp_le, compare_rows in H1, H2.
  rewrite (last_index_NoDup _ _ _ Ha Hi), (last_index_NoDup _ _ _ Ha Hj) in H1, H2.
  destruct (last_index x rowOrder) as [k|] eqn:Ek, (last_index y rowOrder) as [k'|] eqn:Ek'; try lia.
  - destruct (Nat.eqb_spec k k') as [->|]; [|destruct (Nat.eqb_spec k' k); lia].
    apply last_index_lookup in Ek, Ek'. congruence.
  - assert (i = j) as -> by lia. congruence.
Qed.

End Order.

Lemma sort_rows rowOrder all :
  rowOrder ≠ [] → NoDup rowOrder → NoDup all →
  js_sort (compare_rows rowOrder all) all = ordered_rows rowOrder all.
Proof.
  intros Hne Ho Ha. eapply (StronglySorted_unique_strong (cmp_le (compare_rows rowOrder all))).
  - intros x y. rewrite elem_of_js_sort. intros Hx Hy. apply compare_rows_strict; [done..|].
    by rewrite <- (ordered_rows_perm rowOrder all).
  - apply js_sort_sorted, _.
  - by apply ordered_rows_sorted.
  - by rewrite js_sort_perm, ordered_rows_perm.
Qed.

(** With an order chosen by the user (no row twice in it) the rows of the
    table are the rows of that order that exist, then the others in their
    natural order; every group of the three maps is a row, once. *)
Theorem rows_spec g gg u rowOrder :
  NoDup rowOrder →
  let all := all_rows g gg u in
  collectProductRows g gg u rowOrder =
    List.filter (λ x, bool_decide (x ∈ all)) rowOrder ++
    List.filter (λ x, negb (bool_decide (x ∈ rowOrder))) all ∧
  NoDup (collectProductRows g gg u rowOrder) ∧
  ∀ x, x ∈ collectProductRows g gg u rowOrder ↔
    x ∈ obj_keys g ∨ x ∈ obj_keys u ∨
    ∃ col, col ∈ obj_values (spread gg) ∧ x ∈ obj_keys (spread col).
Proof.
  intros Ho all. pose proof (NoDup_all_rows g gg u) as Ha. fold all in Ha.
  assert (collectProductRows g gg u rowOrder = ordered_rows rowOrder all) as Ec.
  { destruct rowOrder as [|r rows] eqn:Er; [|rewrite <- Er in *; rewrite <- sort_rows by (by subst); by subst].
    symmetry. apply bfilter_all. intros x _. by rewrite bool_decide_eq_false_2 by apply not_elem_of_nil. }
  pose proof (ordered_rows_perm rowOrder all Ho Ha) as Hp.
  rewrite Ec. split_and!; [done|by rewrite Hp|]. intros x. rewrite Hp. apply elem_of_all_rows.
Qed.

Theorem rows_spec_witness :
  NoDup [js "b"; js "z"] ∧
  collectProductRows [(js "a", JNull)] (JObj [(js "t", JObj [(js "b", JNull)])]) []
    [js "b"; js "z"] = [js "b"; js "a"].
Proof.
  assert (NoDup [js "b"; js "z"]) as H by (apply (bool_decide_unpack _); vm_compute; exact I).
  split; [exact H|].
  rewrite (proj1 (rows_spec [(js "a", JNull)] (JObj [(js "t", JObj [(js "b", JNull)])]) [] _ H)).
  vm_compute. reflexivity.
Defined.

(** ** Removing a product group *)

(** What is left of the special usable groups of one user group. *)
Definition clean_inner (row : jsstr) (inner : json) : obj json :=
  foldl (λ nextInner '(k, v), if decide (bare_name k = row) then nextInner else obj_set k v nextInner)
    [] (spread inner).

Lemma clean_inner_get row inner k :
  json_nodup inner →
  obj_get k (clean_inner row inner) =
  if decide (bare_name k = row) then None else obj_get k (spread inner).
Proof.
  intros Hn. unfold clean_inner.
  rewrite (fold_step_get _ (λ k v, if decide (bare_name k = row) then None else Some v));
    [|intros; by case_decide|by apply spread_NoDup].
  destruct (obj_get k (spread inner)); by case_decide.
Qed.

(** Removing a group takes it out of the ratios, the usable groups, the
    automatic groups and the recharge ratios, out of every user tier, whose
    columns all stay, and out of the special groups, where an entry may name
    it with a sign; nothing else changes. *)
Theorem remove_group_spec row input :
  json_nodup (JObj (groupGroupRatio input)) → json_nodup (JObj (specialUsable input)) →
  let out := removeProductGroup row input in
  (∀ g, obj_get g (groupRatio out) = if decide (g = row) then None else obj_get g (groupRatio input)) ∧
  (∀ g, obj_get g (usableGroups out) =
        if decide (g = row) then None else obj_get g (usableGroups input)) ∧
  (∀ g, obj_get g (topupGroupRatio out) =
        if decide (g = row) then None else obj_get g (topupGroupRatio input)) ∧
  (∀ g, g ∈ autoGroups out ↔ g ∈ autoGroups input ∧ g ≠ row) ∧
  (∀ ug, obj_get ug (groupGroupRatio out) =
     option_map (λ col, JObj (obj_delete row (spread col))) (obj_get ug (groupGroupRatio input))) ∧
  (∀ ug inner, obj_get ug (specialUsable out) = Some inner ↔
     ug ≠ row ∧ ∃ inner0, obj_get ug (specialUsable input) = Some inner0 ∧
       inner = JObj (clean_inner row inner0)) ∧
  (∀ ug inner k, obj_get ug (specialUsable input) = Some inner →
     obj_get k (clean_inner row inner) =
     if decide (bare_name k = row) then None else obj_get k (spread inner)).
Proof.
  intros Hg Hs out. inversion Hg as [| | | | |? Hgn _]; subst. inversion Hs as [| | | | |? Hsn _]; subst.
  assert (∀ ug, obj_get ug (specialUsable out) =
    match obj_get ug (specialUsable input) with
    | Some v => if decide (ug = row) then None else Some (JObj (clean_inner row v))
    | None => None end) as Hsp.
  { intros ug. subst out. cbn [removeProductGroup specialUsable].
    rewrite (fold_step_get _ (λ ug v, if decide (ug = row) then None
        else Some (JObj (clean_inner row v)))); [|intros; by case_decide|done].
    destruct (obj_get ug (specialUsable input)); try case_decide; done. }
  split_and!; try (intros g; apply obj_get_delete).
  - intros g. simpl. rewrite elem_of_bfilter, negb_true_iff, bool_decide_eq_false. done.
  - intros ug. simpl.
    rewrite (fold_step_get _ (λ _ col, Some (JObj (obj_delete row (spread col))))) by done.
    by destruct (obj_get ug (groupGroupRatio input)).
  - intros ug inner. rewrite Hsp.
    destruct (obj_get ug (specialUsable input)) as [v|].
    + case_decide as Hd; split; [done|by intros []| |by intros (_ & ? & [= <-] & ->)].
      intros [= <-]. eauto.
    + split; [done|]. by intros (_ & ? & [=] & _).
  - intros ug inner k Hi. apply clean_inner_get. by eapply json_nodup_get.
Qed.
Theorem remove_group_spec_witness :
  let input := mkGroups [] [(js "vip", JObj [(js "a", JNull); (js "b", JNull)])] [] [js "a"] []
                 [(js "vip", JObj [(js "+:a", JNull); (js "c", JNull)])] in
  json_nodup (JObj (groupGroupRatio input)) ∧ json_nodup (JObj (specialUsable input)) ∧
  obj_get (js "vip") (groupGroupRatio (removeProductGroup (js "a") input))
    = Some (JObj [(js "b", JNull)]).
Proof.
  intros input.
  assert (∀ k v k1 k2, k1 ≠ k2 → json_nodup (JObj [(k, JObj [(k1, v); (k2, JNull)])]) ∨ v ≠ JNull) as Hn.
  { intros k v k1 k2 Hne. destruct (decide (v = JNull)) as [->|]; [left|by right].
    constructor; [apply NoDup_singleton|]. repeat constructor; simpl; try done;
      rewrite ?elem_of_cons, ?elem_of_nil; naive_solver. }
  assert (json_nodup (JObj (groupGroupRatio input))) as H1.
  { destruct (Hn (js "vip") JNull (js "a") (js "b")) as [H|H]; [discriminate|exact H|done]. }
  assert (json_nodup (JObj (specialUsable input))) as H2.
  { destruct (Hn (js "vip") JNull (js "+:a") (js "c")) as [H|H]; [discriminate|exact H|done]. }
  split; [exact H1|]. split; [exact H2|].
  destruct (remove_group_spec (js "a") input H1 H2) as (_ & _ & _ & _ & Hg & _).
  rewrite Hg. vm_compute. reflexivity.
Defined.

End GroupRatio.

Module ModelPricing.
Import JsonParser.

Inductive PricingMode := PerToken | PerRequest.

#[global] Instance PricingMode_eq_dec : EqDecision PricingMode.
Proof. solve_decision. Defined.

(** A missing field is the empty string: the code tests both alike. *)
Record PricingFields := mkFields {
  price : jsstr;
  ratio : jsstr;
  cacheRatio : jsstr;
  completionRatio : jsstr;
  imageRatio : jsstr;
  audioRatio : jsstr;
  audioCompletionRatio : jsstr;
}.

Record PricingConfig := mkConfig {
  mode : PricingMode;
  fields : PricingFields;
  promptPrice : jsstr;
  completionPrice : jsstr;
  advancedOpen : bool;
  managedExternally : bool;
}.

Inductive ModelPricingOptionKey :=
  | ModelPrice | ModelRatio | CacheRatio | CreateCacheRatio | CompletionRatio | ImageRatio
  | AudioRatio | AudioCompletionRatio | BillingMode | BillingExpr.

#[global] Instance ModelPricingOptionKey_eq_dec : EqDecision ModelPricingOptionKey.
Proof. solve_decision. Defined.

Definition MODEL_PRICING_OPTION_KEYS : list ModelPricingOptionKey :=
  [ModelPrice; ModelRatio; CacheRatio; CreateCacheRatio; CompletionRatio; ImageRatio;
   AudioRatio; AudioCompletionRatio; BillingMode; BillingExpr].

Definition EDITABLE_PRICING_OPTION_KEYS : list ModelPricingOptionKey :=
  [ModelPrice; ModelRatio; CacheRatio; CompletionRatio; ImageRatio; AudioRatio;
   AudioCompletionRatio].

Definition PRESERVED_PRICING_OPTION_KEYS : list ModelPricingOptionKey :=
  [CreateCacheRatio; BillingMode; BillingExpr].

(** The settings hold a text for each key. *)
Definition ModelPricingSettings := ModelPricingOptionKey → jsstr.
Definition ModelPricingMaps := ModelPricingOptionKey → json.

Record ModelPricingMutation := mkMutation {
  isEditing : bool;
  oldModelName : jsstr;
  finalModelName : jsstr;
  loadedPricingName : jsstr;
  pricingMode : PricingMode;
  m_fields : PricingFields;
}.

Definition emptyPricingFields : PricingFields := mkFields [] [] [] [] [] [] [].

(** [parseNumberMap] and [parseStringMap] differ in the cast only. *)
Definition parseNumberMap (rawMap : jsstr) : json := safeJsonParse (Some rawMap) (Some (JObj [])).

Definition parseModelPricingMaps (settings : ModelPricingSettings) : ModelPricingMaps :=
  λ key, parseNumberMap (settings key).

(** [===] on what the maps hold; two objects are different objects. *)
Definition strict_eq (a b : json) : bool :=
  match a, b with
  | JNull, JNull => true
  | JBool x, JBool y => Bool.eqb x y
  | JNum x, JNum y => num_eqb x y
  | JStr x, JStr y => bool_decide (x = y)
  | _, _ => false
  end.

Definition modelPricingMapEquals (left right : obj json) : bool :=
  let leftKeys := obj_keys left in
  if negb (length leftKeys =? length (obj_keys right)) then false else
  forallb (λ key,
    obj_has key right &&
    match obj_get key left, obj_get key right with
    | Some x, Some y => strict_eq x y
    | _, _ => false
    end) leftKeys.

(** [map[modelName]]: the outer [None] is the [TypeError] on [null]. *)
Definition map_get (m : json) (modelName : jsstr) : option (option json) :=
  match m with JNull => None | _ => Some (json_prop m modelName) end.

(** [v !== undefined && v !== null] *)
Definition present (v : option json) : bool :=
  match v with None | Some JNull => false | _ => true end.

(** [v?.toString() || ''] *)
Definition text_of (v : option json) : jsstr :=
  match v with None | Some JNull => [] | Some v => json_to_string v end.

Definition number_of (v : option json) : num :=
  match v with Some v => json_to_number v | None => S754_nan end.

Definition emptyConfig : PricingConfig := mkConfig PerToken emptyPricingFields [] [] false false.

Definition readPricingMaps (maps : ModelPricingMaps) (modelName : jsstr) : option PricingConfig :=
  v_price ← map_get (maps ModelPrice) modelName;
  v_ratio ← map_get (maps ModelRatio) modelName;
  v_cache ← map_get (maps CacheRatio) modelName;
  v_completion ← map_get (maps CompletionRatio) modelName;
  v_image ← map_get (maps ImageRatio) modelName;
  v_audio ← map_get (maps AudioRatio) modelName;
  v_audioCompletion ← map_get (maps AudioCompletionRatio) modelName;
  v_mode ← map_get (maps BillingMode) modelName;
  let managed := bool_decide (v_mode = Some (JStr (js "tiered_expr"))) in
  let tokenPrice := num_mul (number_of v_ratio) (num_of_Z 2) in
  let prompt := if present v_ratio then num_to_string tokenPrice else [] in
  let completion :=
    if present v_ratio && present v_completion
    then num_to_string (num_mul tokenPrice (number_of v_completion)) else [] in
  let fields := mkFields (text_of v_price) (text_of v_ratio) (text_of v_cache)
                  (text_of v_completion) (text_of v_image) (text_of v_audio)
                  (text_of v_audioCompletion) in
  let advanced := existsb present [v_cache; v_image; v_audio; v_audioCompletion] in
  Some (
    if managed then
      mkConfig (if present v_price then PerRequest else PerToken) fields prompt completion
        advanced true
    else if present v_price then
      mkConfig PerRequest (mkFields (text_of v_price) [] [] [] [] [] []) [] [] false false
    else mkConfig PerToken fields prompt completion advanced false).

Definition readPricingConfig (settings : option ModelPricingSettings) (modelName : jsstr)
    : option PricingConfig :=
  match settings, modelName with
  | None, _ | _, [] => Some emptyConfig
  | Some settings, _ => readPricingMaps (parseModelPricingMaps settings) modelName
  end.

(** ** Writing *)

Definition Maps := ModelPricingOptionKey → obj json.

Definition cloneModelPricingMaps (maps : ModelPricingMaps) : Maps := λ key, spread (maps key).

Definition update (key : ModelPricingOptionKey) (f : obj json → obj json) (maps : Maps) : Maps :=
  λ k, if decide (k = key) then f (maps k) else maps k.

Definition movePricingEntry (oldName finalName : jsstr) (map : obj json) : obj json :=
  match obj_get oldName map with
  | None => map
  | Some value => obj_set finalName value (obj_delete oldName map)
  end.

Definition hasPricingConfig (pricingMode : PricingMode) (fields : PricingFields) : bool :=
  match pricingMode with
  | PerRequest => nonempty (price fields)
  | PerToken =>
      nonempty (ratio fields) || nonempty (cacheRatio fields) || nonempty (completionRatio fields)
      || nonempty (imageRatio fields) || nonempty (audioRatio fields)
      || nonempty (audioCompletionRatio fields)
  end.

Definition setNumberIfPresent (modelName value : jsstr) (map : obj json) : obj json :=
  match value with [] => map | _ => obj_set modelName (JNum (parseFloat value)) map end.

Definition for_keys (keys : list ModelPricingOptionKey) (f : obj json → obj json) (maps : Maps)
    : Maps :=
  foldl (λ maps key, update key f maps) maps keys.

(** The writes at the end, by the mode. *)
Definition write_fields (final : jsstr) (pricingMode : PricingMode) (fields : PricingFields)
    (maps : Maps) : Maps :=
  match pricingMode with
  | PerRequest => update ModelPrice (setNumberIfPresent final (price fields)) maps
  | PerToken =>
      update AudioCompletionRatio (setNumberIfPresent final (audioCompletionRatio fields))
      (update AudioRatio (setNumberIfPresent final (audioRatio fields))
      (update ImageRatio (setNumberIfPresent final (imageRatio fields))
      (update CompletionRatio (setNumberIfPresent final (completionRatio fields))
      (update CacheRatio (setNumberIfPresent final (cacheRatio fields))
      (update ModelRatio (setNumberIfPresent final (ratio fields)) maps)))))
  end.

Definition mutateModelPricingMaps (currentMaps : ModelPricingMaps) (mutation : ModelPricingMutation)
    : Maps :=
  let maps := cloneModelPricingMaps currentMaps in
  let old := oldModelName mutation in
  let final := finalModelName mutation in
  let loaded := loadedPricingName mutation in
  let fields := m_fields mutation in
  let isRename := isEditing mutation && nonempty old && negb (bool_decide (old = final)) in
  let loadedTiered :=
    nonempty loaded && bool_decide (obj_get loaded (maps BillingMode) = Some (JStr (js "tiered_expr"))) in
  if isRename && loadedTiered
  then for_keys MODEL_PRICING_OPTION_KEYS (movePricingEntry old final) maps else
  let maps :=
    if isRename
    then for_keys PRESERVED_PRICING_OPTION_KEYS (movePricingEntry old final)
           (for_keys EDITABLE_PRICING_OPTION_KEYS (obj_delete old) maps)
    else maps in
  if loadedTiered then maps else
  let shouldWritePricing := hasPricingConfig (pricingMode mutation) fields in
  let maps :=
    if shouldWritePricing || bool_decide (final = loaded)
    then for_keys EDITABLE_PRICING_OPTION_KEYS (obj_delete final) maps else maps in
  if negb shouldWritePricing then maps else write_fields final (pricingMode mutation) fields maps.

(** ** Lemmas *)

Lemma for_keys_get keys f maps k :
  NoDup keys → for_keys keys f maps k = if decide (k ∈ keys) then f (maps k) else maps k.
Proof.
  intros Hnd. revert maps. unfold for_keys. induction Hnd as [|key keys Hk Hnd IH]; intros maps.
  { cbn [foldl]. rewrite decide_False; [done|]. apply not_elem_of_nil. }
  cbn [foldl]. rewrite IH. unfold update. destruct (decide (k = key)) as [->|Hne].
  - rewrite (decide_False (P := key ∈ keys)) by done.
    by rewrite (decide_True (P := key ∈ key :: keys)) by (by apply elem_of_cons; left).
  - destruct (decide (k ∈ keys)) as [Hin|Hin].
    + by rewrite decide_True by (by apply elem_of_cons; right).
    + rewrite decide_False; [done|]. by intros [?|?]%elem_of_cons.
Qed.

Lemma movePricingEntry_get old final map n :
  old ≠ final →
  obj_get n (movePricingEntry old final map) =
  if decide (n = final) then
    match obj_get old map with Some v => Some v | None => obj_get final map end
  else if decide (n = old) then None else obj_get n map.
Proof.
  intros Hne. unfold movePricingEntry. destruct (obj_get old map) as [v|] eqn:E.
  - rewrite obj_get_set. case_decide; [done|]. apply obj_get_delete.
  - case_decide; [by subst|]. case_decide; by subst.
Qed.

Lemma setNumberIfPresent_get final value map n :
  obj_get n (setNumberIfPresent final value map) =
  if decide (n = final) then if nonempty value then Some (JNum (parseFloat value)) else obj_get n map
  else obj_get n map.
Proof. unfold setNumberIfPresent. destruct value; [by case_decide|]. apply obj_get_set. Qed.

Definition editable (k : ModelPricingOptionKey) : bool :=
  bool_decide (k ∈ EDITABLE_PRICING_OPTION_KEYS).

Lemma preserved_iff k : k ∈ PRESERVED_PRICING_OPTION_KEYS ↔ editable k = false.
Proof.
  destruct k; split; intros H; try reflexivity; try (by vm_compute in H);
    try (by apply (bool_decide_unpack _); vm_compute);
    exfalso; revert H; apply (bool_decide_unpack _); vm_compute; exact I.
Qed.

(** The text of the form that belongs to a key. *)
Definition field_of (mode : PricingMode) (fields : PricingFields) (k : ModelPricingOptionKey)
    : jsstr :=
  match mode, k with
  | PerRequest, ModelPrice => price fields
  | PerToken, ModelRatio => ratio fields
  | PerToken, CacheRatio => cacheRatio fields
  | PerToken, CompletionRatio => completionRatio fields
  | PerToken, ImageRatio => imageRatio fields
  | PerToken, AudioRatio => audioRatio fields
  | PerToken, AudioCompletionRatio => audioCompletionRatio fields
  | _, _ => []
  end.

Lemma write_fields_get final mode fields maps k n :
  obj_get n (write_fields final mode fields maps k) =
  if decide (n = final) then
    if nonempty (field_of mode fields k) then Some (JNum (parseFloat (field_of mode fields k)))
    else obj_get n (maps k)
  else obj_get n (maps k).
Proof.
  unfold write_fields, update. destruct mode, k; cbn [field_of];
    repeat (rewrite decide_False by discriminate);
    rewrite ?decide_True by done; rewrite ?setNumberIfPresent_get;
    repeat (rewrite decide_False by discriminate); try done; by case_decide.
Qed.

Lemma field_of_preserved mode fields k : editable k = false → field_of mode fields k = [].
Proof. destruct mode, k; intros H; try done; vm_compute in H; discriminate H. Qed.

Definition renames (mu : ModelPricingMutation) : bool :=
  isEditing mu && nonempty (oldModelName mu)
  && negb (bool_decide (oldModelName mu = finalModelName mu)).

Definition tiered (maps : ModelPricingMaps) (mu : ModelPricingMutation) : bool :=
  nonempty (loadedPricingName mu) &&
  bool_decide (obj_get (loadedPricingName mu) (spread (maps BillingMode))
               = Some (JStr (js "tiered_expr"))).

(** What a save leaves for a key and a model, read off the maps before it. *)
Definition saved_value (maps : ModelPricingMaps) (mu : ModelPricingMutation)
    (k : ModelPricingOptionKey) (n : jsstr) : option json :=
  let before n := obj_get n (spread (maps k)) in
  let final := finalModelName mu in
  let moved :=
    if negb (renames mu) then before n else
    if editable k && negb (tiered maps mu) then
      if decide (n = oldModelName mu) then None else before n
    else
      if decide (n = final)
      then match before (oldModelName mu) with Some v => Some v | None => before final end
      else if decide (n = oldModelName mu) then None else before n in
  if tiered maps mu || negb (editable k) then moved else
  if decide (n = final) then
    if hasPricingConfig (pricingMode mu) (m_fields mu) then
      (let text := field_of (pricingMode mu) (m_fields mu) k in
       if nonempty text then Some (JNum (parseFloat text)) else None)
    else if bool_decide (final = loadedPricingName mu) then None else moved
  else moved.

Lemma all_keys_in key : key ∈ MODEL_PRICING_OPTION_KEYS.
Proof. destruct key; apply (bool_decide_unpack _); vm_compute; exact I. Qed.

Lemma option_keys_NoDup :
  NoDup MODEL_PRICING_OPTION_KEYS ∧ NoDup EDITABLE_PRICING_OPTION_KEYS ∧
  NoDup PRESERVED_PRICING_OPTION_KEYS.
Proof. split_and!; apply (bool_decide_unpack _); vm_compute; exact I. Qed.

(** The maps after the entries of the old name were taken away. *)
Definition renamed_maps (maps : ModelPricingMaps) (mu : ModelPricingMutation) : Maps :=
  if renames mu
  then for_keys PRESERVED_PRICING_OPTION_KEYS (movePricingEntry (oldModelName mu) (finalModelName mu))
         (for_keys EDITABLE_PRICING_OPTION_KEYS (obj_delete (oldModelName mu))
           (cloneModelPricingMaps maps))
  else cloneModelPricingMaps maps.

Lemma renames_ne mu : renames mu = true → oldModelName mu ≠ finalModelName mu.
Proof. unfold renames. intros H. by bool_hyps. Qed.

Lemma renamed_maps_get maps mu k n :
  obj_get n (renamed_maps maps mu k) =
  if negb (renames mu) then obj_get n (spread (maps k)) else
  if editable k then if decide (n = oldModelName mu) then None else obj_get n (spread (maps k)) else
  if decide (n = finalModelName mu)
  then match obj_get (oldModelName mu) (spread (maps k)) with
       | Some v => Some v | None => obj_get (finalModelName mu) (spread (maps k)) end
  else if decide (n = oldModelName mu) then None else obj_get n (spread (maps k)).
Proof.
  destruct option_keys_NoDup as (_ & N2 & N3).
  unfold renamed_maps. pose proof (renames_ne mu) as Hne. destruct (renames mu); [|done]. cbn [negb].
  rewrite !for_keys_get by done. destruct (editable k) eqn:Ee.
  - rewrite (decide_False (P := k ∈ PRESERVED_PRICING_OPTION_KEYS))
      by (rewrite preserved_iff; congruence).
    unfold editable in Ee. apply bool_decide_eq_true in Ee. rewrite decide_True by done.
    apply obj_get_delete.
  - rewrite (decide_True (P := k ∈ PRESERVED_PRICING_OPTION_KEYS)) by (by apply preserved_iff).
    unfold editable in Ee. apply bool_decide_eq_false in Ee. rewrite decide_False by done.
    by apply movePricingEntry_get, Hne.
Qed.

(** The edited entries of the final name are cleared before they are written. *)
Lemma cleared_get (b : bool) final m k n :
  obj_get n ((if b then for_keys EDITABLE_PRICING_OPTION_KEYS (obj_delete final) m else m) k) =
  if decide (n = final) then if b && editable k then None else obj_get n (m k) else obj_get n (m k).
Proof.
  destruct b; cbn [andb]; [|by case_decide]. rewrite for_keys_get by apply option_keys_NoDup.
  unfold editable. case_decide.
  - rewrite bool_decide_eq_true_2 by done. apply obj_get_delete.
  - rewrite bool_decide_eq_false_2 by done. by case_decide.
Qed.

Lemma mutated_entry maps mu k n :
  obj_get n (mutateModelPricingMaps maps mu k) = saved_value maps mu k n.
Proof.
  unfold mutateModelPricingMaps, saved_value. fold (renames mu).
  change (cloneModelPricingMaps maps BillingMode) with (spread (maps BillingMode)).
  fold (tiered maps mu). fold (renamed_maps maps mu).
  destruct (tiered maps mu) eqn:Et; cbn [orb negb].
  { rewrite andb_true_r, andb_false_r. pose proof (renames_ne mu) as Hne.
    unfold renamed_maps. destruct (renames mu); cbn [negb andb]; [|done].
    rewrite for_keys_get by apply option_keys_NoDup. rewrite decide_True by apply all_keys_in.
    by apply movePricingEntry_get, Hne. }
  rewrite andb_false_r, andb_true_r.
  set (has := hasPricingConfig (pricingMode mu) (m_fields mu)).
  set (b := has || bool_decide (finalModelName mu = loadedPricingName mu)).
  set (m2 := if b then _ else renamed_maps maps mu).
  transitivity (if has then
      if decide (n = finalModelName mu) then
        if nonempty (field_of (pricingMode mu) (m_fields mu) k)
        then Some (JNum (parseFloat (field_of (pricingMode mu) (m_fields mu) k)))
        else obj_get n (m2 k)
      else obj_get n (m2 k)
    else obj_get n (m2 k)).
  { destruct has; cbn [negb]; [|done]. apply write_fields_get. }
  subst m2. rewrite cleared_get, renamed_maps_get. destruct (editable k) eqn:Ee; cbn [negb].
  - rewrite andb_true_r. subst b. destruct (decide (n = finalModelName mu)) as [->|];
      destruct has; cbn [orb]; try done.
  - rewrite andb_false_r. rewrite (field_of_preserved _ _ _ Ee). cbn [nonempty].
    destruct has, (decide (n = finalModelName mu)); done.
Qed.

(** Saving a model moves, keeps, replaces or clears exactly what it
    should: a model that is neither the old nor the final name keeps all its
    entries; after a rename nothing is left under the old name; the prices a
    tiered expression manages, and the keys the form does not edit, follow
    the model; and the edited keys of the final name hold the numbers of the
    filled fields of the chosen mode and no other, or nothing where the form
    was emptied, unless it was never loaded for that name. *)
Theorem mutate_spec maps mu :
  let before k n := obj_get n (spread (maps k)) in
  let after k n := obj_get n (mutateModelPricingMaps maps mu k) in
  let old := oldModelName mu in let final := finalModelName mu in
  (∀ k n, n ≠ final → (renames mu = true → n ≠ old) → after k n = before k n) ∧
  (∀ k, renames mu = true → after k old = None) ∧
  (∀ k, tiered maps mu || negb (editable k) = true →
     after k final = if renames mu
                     then match before k old with Some v => Some v | None => before k final end
                     else before k final) ∧
  (∀ k, tiered maps mu || negb (editable k) = false →
     after k final =
     if hasPricingConfig (pricingMode mu) (m_fields mu) then
       match field_of (pricingMode mu) (m_fields mu) k with
       | [] => None | text => Some (JNum (parseFloat text)) end
     else if decide (final = loadedPricingName mu) then None else before k final).
Proof.
  intros before after old final. subst before after. cbv beta. pose proof (renames_ne mu) as Hne.
  fold old final in Hne.
  split_and!; intros k; [intros n Hn Ho|intros Hr; specialize (Hne Hr)|intros H|intros H];
    rewrite mutated_entry; unfold saved_value; cbv zeta; fold old final;
    try (rewrite H, !(decide_True (P := final = final)) by done).
  - rewrite !(decide_False (P := n = final)) by done.
    destruct (renames mu); cbn [negb]; [rewrite !(decide_False (P := n = old)) by auto|];
      by repeat case_match.
  - rewrite Hr. cbn [negb]. rewrite !(decide_False (P := old = final)) by done.
    rewrite !(decide_True (P := old = old)) by done. by repeat case_match.
  - destruct (renames mu); [|done]. by destruct (tiered maps mu), (editable k).
  - destruct (hasPricingConfig _ _); [by destruct (field_of _ _ k)|].
    case_bool_decide; [by rewrite decide_True|rewrite (decide_False (P := final = loadedPricingName mu)) by done].
    destruct (renames mu); [|done]. cbn [negb].
    destruct (tiered maps mu), (editable k); try done. cbn [andb negb].
    rewrite decide_False; [done|]. intros E. by apply Hne.
Qed.

(** The number a field is saved as, printed again. *)
Definition normalized (s : jsstr) : jsstr :=
  match s with [] => [] | _ => num_to_string (parseFloat s) end.

Lemma saved_final maps mu k :
  hasPricingConfig (pricingMode mu) (m_fields mu) = true → tiered maps mu = false →
  editable k = true →
  obj_get (finalModelName mu) (mutateModelPricingMaps maps mu k) =
  (let text := field_of (pricingMode mu) (m_fields mu) k in
   if nonempty text then Some (JNum (parseFloat text)) else None).
Proof.
  intros Hc Ht He. rewrite mutated_entry. unfold saved_value. rewrite Ht, He, Hc.
  cbn [orb negb]. by rewrite decide_True.
Qed.

(** What is saved is what the form shows when it is opened again: the
    mode, and each filled field of that mode as its number is printed, the
    others empty (unless a tiered expression manages the model). *)
Theorem save_then_read maps mu :
  hasPricingConfig (pricingMode mu) (m_fields mu) = true → tiered maps mu = false →
  obj_get (finalModelName mu) (mutateModelPricingMaps maps mu BillingMode)
    ≠ Some (JStr (js "tiered_expr")) →
  ∃ c, readPricingMaps (λ k, JObj (mutateModelPricingMaps maps mu k)) (finalModelName mu) = Some c ∧
    mode c = pricingMode mu ∧ managedExternally c = false ∧
    fields c =
      let f := m_fields mu in
      match pricingMode mu with
      | PerRequest => mkFields (normalized (price f)) [] [] [] [] [] []
      | PerToken =>
          mkFields [] (normalized (ratio f)) (normalized (cacheRatio f))
            (normalized (completionRatio f)) (normalized (imageRatio f))
            (normalized (audioRatio f)) (normalized (audioCompletionRatio f))
      end.
Proof.
  intros Hc Ht Hb.
  assert (∀ k, editable k = true → obj_get (finalModelName mu) (mutateModelPricingMaps maps mu k) =
    (let text := field_of (pricingMode mu) (m_fields mu) k in
     if nonempty text then Some (JNum (parseFloat text)) else None)) as Hs
    by (intros; by apply saved_final).
  unfold readPricingMaps. cbn [map_get json_prop mbind option_bind].
  rewrite (bool_decide_eq_false_2 _ Hb).
  rewrite (Hs ModelPrice), (Hs ModelRatio), (Hs CacheRatio), (Hs CompletionRatio), (Hs ImageRatio),
    (Hs AudioRatio), (Hs AudioCompletionRatio) by reflexivity.
  destruct (pricingMode mu); cbn [field_of] in *; cbv zeta; cbn [nonempty present].
  - eexists. split; [done|]. split; [done|]. split; [done|]. cbn [fields].
    f_equal; by match goal with |- context [nonempty ?s] => destruct s end.
  - cbn [hasPricingConfig] in Hc. rewrite Hc. eexists. split; [done|].
    split; [done|]. split; [done|]. cbn [fields]. f_equal.
    by destruct (price (m_fields mu)).
Qed.

Theorem save_then_read_witness :
  let mu := mkMutation false [] (js "m") [] PerRequest (mkFields (js "0.50") [] [] [] [] [] []) in
  ∃ c, readPricingMaps (λ k, JObj (mutateModelPricingMaps (λ _, JObj []) mu k)) (js "m") = Some c ∧
    mode c = PerRequest ∧ price (fields c) = js "0.5".
Proof.
  intros mu.
  destruct (save_then_read (λ _, JObj []) mu eq_refl eq_refl) as (c & Hc & Hm & _ & Hf).
  { vm_compute. discriminate. }
  exists c. split; [exact Hc|]. split; [exact Hm|]. rewrite Hf. vm_compute. reflexivity.
Defined.

(** Two maps that compare equal hold equal values under the same names. *)
Lemma equals_sound left right :
  NoDup (obj_keys left) → NoDup (obj_keys right) → modelPricingMapEquals left right = true →
  ∀ k, match obj_get k left, obj_get k right with
       | Some x, Some y => strict_eq x y = true
       | None, None => True
       | _, _ => False
       end.
Proof.
  unfold modelPricingMapEquals. intros Hl Hr H.
  destruct (Nat.eqb_spec (length (obj_keys left)) (length (obj_keys right))) as [E|]; [|done].
  cbn [negb] in H. rewrite forallb_forall in H.
  assert (∀ k, k ∈ obj_keys left → k ∈ obj_keys right ∧
    ∃ x y, obj_get k left = Some x ∧ obj_get k right = Some y ∧ strict_eq x y = true) as Hk.
  { intros k Hin%list_elem_of_In%H. apply andb_true_iff in Hin as [Hh Hm].
    apply obj_has_true in Hh. split; [done|].
    destruct (obj_get k left) as [x|]; [|done]. destruct (obj_get k right) as [y|]; [|done].
    by exists x, y. }
  assert (obj_keys left ≡ₚ obj_keys right) as Hp.
  { apply submseteq_length_Permutation; [|lia]. apply NoDup_submseteq; [done|].
    intros k Hin. by apply Hk. }
  intros k. destruct (decide (k ∈ obj_keys left)) as [Hin|Hin].
  - destruct (Hk k Hin) as [_ (x & y & -> & -> & Hs)]. done.
  - assert (k ∉ obj_keys right) as Hin' by (by rewrite <- Hp).
    apply obj_get_None in Hin, Hin'. by rewrite Hin, Hin'.
Qed.

End ModelPricing.
