(* ===== verification/GroupSquare.v ===== *)
(** * The group square and the published price changes

    Models, under [web/default/src/features], [price-changes/lib.ts] (Module
    PriceChanges: which change of a published batch counts for a model or a
    group) and [group-square/lib/directory.ts] (Module Directory: availability
    of a group, its latest change, search, highlighting and sorting).

    Times are seconds and counts are integers ([Z]); ratios and percentages are
    doubles.  Lower case, the letters and digits of Unicode and the comparison
    of names by locale are parameters of Module Directory. *)
From S2P Require Import Prelude JSString JSNumber JSON.
Local Open Scope Z_scope.

Module PriceChanges.

Inductive Direction := Up | Down | Added | Removed.
Inductive Scope := ScopeGroup | ScopeModel.

#[global] Instance Direction_eq_dec : EqDecision Direction.
Proof. solve_decision. Defined.
#[global] Instance Scope_eq_dec : EqDecision Scope.
Proof. solve_decision. Defined.

Record DisplayEntry := mkDisplay { old_usd : num; new_usd : num; unit : jsstr }.

Record PriceChangeItem := mkItem {
  scope : Scope;
  group_name : jsstr;
  model_name : jsstr;
  price_type : jsstr;
  old_value : num;
  new_value : num;
  direction : Direction;
  affected_groups : list jsstr;
  display : obj DisplayEntry;
}.

(** The note and the summary of a batch are only shown. *)
Record PriceChangeBatch := mkBatch {
  id : Z; published_at : Z; items : list PriceChangeItem }.

Record PriceChangesData := mkData {
  enabled : bool; badge_days : Z; batches : list PriceChangeBatch }.

Definition PRICE_TYPE_PRIORITY : list jsstr :=
  [js "model_price"; js "model_ratio"; js "completion_ratio"; js "cache_ratio";
   js "create_cache_ratio"].

Definition priceTypeRank (priceType : jsstr) : Z :=
  match list_find (λ x, x = priceType) PRICE_TYPE_PRIORITY with
  | Some (idx, _) => Z.of_nat idx
  | None => 5
  end.

(** [now] in milliseconds. *)
Definition badgeWindowStart (badgeDays now : Z) : Z :=
  let days := if 0 <? badgeDays then badgeDays else 7 in
  now / 1000 - days * 86400.

(** The batches of the window, newest first. *)
Definition window_batches (data : PriceChangesData) (now : Z) : list PriceChangeBatch :=
  let windowStart := badgeWindowStart (badge_days data) now in
  js_sort (λ a b, published_at b - published_at a)
    (List.filter (λ b, windowStart <=? published_at b) (batches data)).

Record ModelPriceChange := mkModelChange {
  batchId : Z; publishedAt : Z; m_direction : Direction; m_items : list PriceChangeItem }.

(** [byModel.set(name, [...list, item])]: groups in the order of their first
    item. *)
Fixpoint push_item (k : jsstr) (i : PriceChangeItem) (m : list (jsstr * list PriceChangeItem))
    : list (jsstr * list PriceChangeItem) :=
  match m with
  | [] => [(k, [i])]
  | (k', l) :: m' => if decide (k = k') then (k', l ++ [i]) :: m' else (k', l) :: push_item k i m'
  end.

Definition moves (item : PriceChangeItem) : bool :=
  bool_decide (direction item = Up) || bool_decide (direction item = Down).

Definition items_by_model (l : list PriceChangeItem) : list (jsstr * list PriceChangeItem) :=
  foldl (λ m item,
    if negb (bool_decide (scope item = ScopeModel)) || negb (nonempty (model_name item)) then m else
    if negb (moves item) then m else push_item (model_name item) item m) [] l.

(** A [Map] in insertion order; the first entry of a key is kept. *)
Definition map_has {A} (k : jsstr) (m : list (jsstr * A)) : bool :=
  bool_decide (k ∈ map fst m).

Definition add_model (batch : PriceChangeBatch) (m : list (jsstr * ModelPriceChange))
    (e : jsstr * list PriceChangeItem) : list (jsstr * ModelPriceChange) :=
  let '(modelName, items) := e in
  if map_has modelName m then m else
  let sorted := js_sort (λ a b, priceTypeRank (price_type a) - priceTypeRank (price_type b)) items in
  m ++ [(modelName, mkModelChange (id batch) (published_at batch)
           (match sorted with i :: _ => direction i | [] => Up end) sorted)].

Definition buildModelChangeMap (data : option PriceChangesData) (now : Z)
    : list (jsstr * ModelPriceChange) :=
  match data with
  | None => []
  | Some data =>
      if negb (enabled data) then [] else
      foldl (λ m batch, foldl (add_model batch) m (items_by_model (items batch)))
        [] (window_batches data now)
  end.

Record RecentGroupChange := mkRecent { r_batchId : Z; r_publishedAt : Z; r_item : PriceChangeItem }.

Definition recent_key (item : PriceChangeItem) : jsstr :=
  group_name item ++ js ":" ++ price_type item.

Definition add_recent (group : jsstr) (batch : PriceChangeBatch)
    (acc : list jsstr * list RecentGroupChange) (item : PriceChangeItem)
    : list jsstr * list RecentGroupChange :=
  let '(seen, result) := acc in
  if negb (bool_decide (scope item = ScopeGroup)) || negb (nonempty (group_name item)) then acc else
  if nonempty group && negb (bool_decide (group = js "all"))
     && negb (bool_decide (group_name item = group)) then acc else
  if bool_decide (recent_key item ∈ seen) then acc else
  (recent_key item :: seen, result ++ [mkRecent (id batch) (published_at batch) item]).

Definition findRecentGroupChanges (data : option PriceChangesData) (group : jsstr) (now : Z)
    : list RecentGroupChange :=
  match data with
  | None => []
  | Some data =>
      if negb (enabled data) then [] else
      (foldl (λ acc batch, foldl (add_recent group batch) acc (items batch))
        ([], []) (window_batches data now)).2
  end.

Definition resolveDisplayEntry (item : PriceChangeItem) (preferredGroup : option jsstr)
    : option (jsstr * DisplayEntry) :=
  let first :=
    match display item with
    | ((_ :: _) as g, e) :: _ => Some (g, e)
    | _ => None
    end in
  match preferredGroup with
  | Some ((_ :: _) as g) =>
      match obj_get g (display item) with Some e => Some (g, e) | None => first end
  | _ => first
  end.

Definition parseGroupGroupRatioName (groupName : jsstr) : option (jsstr * jsstr) :=
  match index_of (js "->") groupName with
  | Some (S i) => Some (take (S i) groupName, drop (S i + 2) groupName)
  | _ => None
  end.

(** ** Lemmas *)

#[global] Instance newest_first_order : CmpOrder (λ a b, published_at b - published_at a).
Proof. split; intros; lia. Qed.

Lemma elem_of_window data now b :
  b ∈ window_batches data now ↔
  b ∈ batches data ∧ badgeWindowStart (badge_days data) now <= published_at b.
Proof. unfold window_batches. by rewrite elem_of_js_sort, elem_of_bfilter, Z.leb_le. Qed.

Lemma window_sorted data now :
  StronglySorted (λ a b, published_at b <= published_at a) (window_batches data now).
Proof.
  eapply StronglySorted_impl; [|apply js_sort_sorted, _].
  intros a b H. unfold cmp_le in H. lia.
Qed.

(** The composite name of an exclusive ratio is read back. *)
Lemma parse_group_group user target :
  user ≠ [] → includes (js "->") user = false →
  parseGroupGroupRatioName (user ++ js "->" ++ target) = Some (user, target).
Proof.
  intros Hne Hi. unfold parseGroupGroupRatioName.
  rewrite index_of_borderless by done.
  destruct user as [|c user]; [done|]. cbn [length]. f_equal. f_equal.
  - change (S (length user)) with (length (c :: user)). apply take_app_length.
  - rewrite app_assoc, drop_app_length'; [done|]. rewrite length_app. simpl. lia.
Qed.

End PriceChanges.

Module Directory.
Import PriceChanges.

Definition HOUR_SEC : Z := 3600.

(** ** Availability *)

Inductive AvailabilityStatus := Available | Idle | NoSupply | Unknown.

#[global] Instance AvailabilityStatus_eq_dec : EqDecision AvailabilityStatus.
Proof. solve_decision. Defined.

Record GroupAvailability := mkAvail { status : AvailabilityStatus; latestPct : option num }.

Definition UNKNOWN_AVAILABILITY : GroupAvailability := mkAvail Unknown None.

Record GroupUptimeBucket := mkBucket {
  ts : Z; request_count : Z; success_count : Z; success_rate : num }.

(** One turn of the loop over the buckets. *)
Definition classify_step (currentHour : Z) (acc : bool * option num) (b : GroupUptimeBucket)
    : bool * option num :=
  if (request_count b =? 0) || (ts b <? currentHour - HOUR_SEC) then acc
  else (true, if ts b =? currentHour then Some (success_rate b) else acc.2).

Definition classifyAvailability (buckets : option (list GroupUptimeBucket)) (nowSec : Z)
    : GroupAvailability :=
  let l := match buckets with Some l => l | None => [] end in
  if negb (length l =? 0)%nat && forallb (λ b, request_count b =? 0) l
  then mkAvail NoSupply None else
  let currentHour := nowSec - Z.rem nowSec HOUR_SEC in
  let '(recent, latestPct) := foldl (classify_step currentHour) (false, None) l in
  mkAvail (if recent then Available else Idle) latestPct.

(** ** The change of a group *)

Inductive GroupChangeKind := KAdded | KUp | KDown | KDedicated | KRemoved.

#[global] Instance GroupChangeKind_eq_dec : EqDecision GroupChangeKind.
Proof. solve_decision. Defined.

Record GroupChange := mkChange { kind : GroupChangeKind; c_from : num; c_to : num; at_ : Z }.

Definition sameRatio (a b : num) : bool :=
  num_leb (num_abs (num_sub a b)) (num_of_dec false 1 (-9)).

Definition kind_of_direction (d : Direction) : GroupChangeKind :=
  match d with Up => KUp | Down => KDown | Added => KAdded | Removed => KRemoved end.

(** The group an item is about, [None] where the loop goes on. *)
Definition target_of (item : PriceChangeItem) : option jsstr :=
  if negb (bool_decide (scope item = ScopeGroup)) then None else
  match (if bool_decide (price_type item = js "group_group_ratio")
         then snd <$> parseGroupGroupRatioName (group_name item)
         else Some (group_name item)) with
  | Some ((_ :: _) as target) => Some target
  | _ => None
  end.

(** The change an item stands for, given the ratio the user sees now. *)
Definition change_of (item : PriceChangeItem) (ratio : num) (at_ : Z) : option GroupChange :=
  let dedicated := bool_decide (price_type item = js "group_group_ratio") in
  if bool_decide (direction item = Removed) then
    if negb dedicated || sameRatio (old_value item) ratio then None else
    Some (mkChange (if num_ltb (old_value item) ratio then KUp else KDown)
            (old_value item) ratio at_)
  else if bool_decide (direction item = Added) && negb dedicated then
    Some (mkChange KAdded num_zero (new_value item) at_)
  else if negb (sameRatio (new_value item) ratio) then None else
    Some (mkChange
      (if bool_decide (direction item = Added) then KDedicated else kind_of_direction (direction item))
      (old_value item) (new_value item) at_).

(** [currentRatios] is a [Map]: the ratio of a name. *)
Definition change_step (currentRatios : list (jsstr * num)) (batch : PriceChangeBatch)
    (m : list (jsstr * GroupChange)) (item : PriceChangeItem) : list (jsstr * GroupChange) :=
  match target_of item with
  | None => m
  | Some target =>
      if map_has target m then m else
      match obj_get target currentRatios with
      | None => m
      | Some ratio =>
          match change_of item ratio (published_at batch) with
          | None => m
          | Some c => m ++ [(target, c)]
          end
      end
  end.

Definition buildGroupChangeMap (data : option PriceChangesData) (currentRatios : list (jsstr * num))
    (nowMs : Z) : list (jsstr * GroupChange) :=
  match data with
  | None => []
  | Some data =>
      if negb (enabled data) then [] else
      foldl (λ m batch, foldl (change_step currentRatios batch) m (items batch))
        [] (window_batches data nowMs)
  end.

(** ** What the map holds *)

(** The change an item of a batch offers for a group. *)
Definition offer (currentRatios : list (jsstr * num)) (batch : PriceChangeBatch)
    (item : PriceChangeItem) : option (jsstr * GroupChange) :=
  target ← target_of item;
  ratio ← obj_get target currentRatios;
  c ← change_of item ratio (published_at batch);
  Some (target, c).

Lemma change_step_get ratios batch m item t :
  obj_get t (change_step ratios batch m item) =
  match obj_get t m with
  | Some c => Some c
  | None => match offer ratios batch item with
            | Some (t', c) => if decide (t = t') then Some c else None
            | None => None
            end
  end.
Proof.
  unfold change_step, offer. destruct (target_of item) as [target|]; simpl; [|by destruct (obj_get t m)].
  unfold map_has. case_bool_decide as Hin.
  - destruct (obj_get t m) eqn:E; [done|]. destruct (obj_get target ratios); simpl; [|done].
    destruct (change_of item _ _); simpl; [|done]. case_decide; [|done]. subst.
    by apply obj_get_None in E.
  - destruct (obj_get target ratios); simpl; [|by destruct (obj_get t m)].
    destruct (change_of item _ _) as [c|]; simpl; [|by destruct (obj_get t m)].
    rewrite obj_get_app. by destruct (obj_get t m).
Qed.

Definition offers (ratios : list (jsstr * num)) (bs : list PriceChangeBatch)
    : list (jsstr * GroupChange) :=
  concat (map (λ b, omap (offer ratios b) (items b)) bs).

(** The map is the first offer for each group, newest batch first. *)
Lemma build_offers ratios bs m t :
  obj_get t (foldl (λ m batch, foldl (change_step ratios batch) m (items batch)) m bs) =
  match obj_get t m with Some c => Some c | None => obj_get t (offers ratios bs) end.
Proof.
  revert m. induction bs as [|b bs IH]; intros m; [simpl; by destruct (obj_get t m)|].
  cbn [foldl]. rewrite IH. unfold offers. cbn [map concat]. rewrite obj_get_app. clear IH.
  revert m. induction (items b) as [|item l IH]; intros m; simpl; [by destruct (obj_get t m)|].
  rewrite IH, change_step_get. destruct (obj_get t m) as [c|]; [done|].
  destruct (offer ratios b item) as [[t' c]|]; [|done].
  cbn [obj_get]. by case_decide.
Qed.

Lemma elem_of_offers ratios bs t c :
  (t, c) ∈ offers ratios bs ↔ ∃ b i, b ∈ bs ∧ i ∈ items b ∧ offer ratios b i = Some (t, c).
Proof.
  unfold offers. rewrite elem_of_concat. split.
  - intros (l & (b & -> & Hb)%list_elem_of_fmap & (i & Hi & Ho)%list_elem_of_omap). eauto.
  - intros (b & i & Hb & Hi & Ho). eexists. split; [apply list_elem_of_fmap; by exists b|].
    apply list_elem_of_omap. eauto.
Qed.

Lemma change_of_at item ratio a c : change_of item ratio a = Some c → at_ c = a.
Proof. unfold change_of. intros H. by repeat case_match; simplify_eq. Qed.

Lemma offer_at ratios b i t c : offer ratios b i = Some (t, c) → at_ c = published_at b.
Proof.
  unfold offer. destruct (target_of i); simpl; [|done]. destruct (obj_get _ ratios); simpl; [|done].
  destruct (change_of i _ _) eqn:E; simpl; [|done]. intros [= _ <-]. by eapply change_of_at.
Qed.

Lemma change_of_current item ratio a c :
  change_of item ratio a = Some c →
  kind c ≠ KRemoved ∧ (kind c = KAdded ∨ c_to c = ratio ∨ sameRatio (c_to c) ratio = true).
Proof.
  unfold change_of. intros H. repeat case_match; simplify_eq/=; bool_hyps; split; auto; try done;
    destruct (direction item); simpl in *; done.
Qed.

Lemma offers_first ratios bs t c :
  StronglySorted (λ a b, published_at b <= published_at a) bs →
  obj_get t (offers ratios bs) = Some c →
  ∀ b i c', b ∈ bs → i ∈ items b → offer ratios b i = Some (t, c') → published_at b <= at_ c.
Proof.
  intros Hs. induction Hs as [|b0 bs Hs IH Hb0]; [done|].
  unfold offers. cbn [map concat]. rewrite obj_get_app. intros Hg b i c' Hb Hi Ho.
  rewrite Forall_forall in Hb0.
  destruct (obj_get t (omap (offer ratios b0) (items b0))) as [c0|] eqn:E.
  - simplify_eq. apply obj_get_Some_mem, list_elem_of_omap in E as (i0 & _ & E%offer_at).
    rewrite E. apply elem_of_cons in Hb as [->|Hb]; [lia|]. by apply Hb0.
  - apply elem_of_cons in Hb as [->|Hb]; [|by eapply (IH Hg)].
    apply obj_get_None in E. destruct E. apply list_elem_of_fmap. exists (t, c'). split; [done|].
    apply list_elem_of_omap. eauto.
Qed.

(** The change shown for a group is one that a batch of the display
    window offers for it, no batch of the window that offers one is newer,
    and it ends at the ratio the user sees now unless the group is new; a
    group without a change is one for which no batch of the window offers
    any. *)
Theorem change_map_spec data ratios now t :
  enabled data = true →
  let within b := b ∈ batches data ∧ badgeWindowStart (badge_days data) now <= published_at b in
  match obj_get t (buildGroupChangeMap (Some data) ratios now) with
  | Some c =>
      (∃ b i, within b ∧ i ∈ items b ∧ offer ratios b i = Some (t, c) ∧ at_ c = published_at b) ∧
      (∀ b i c', within b → i ∈ items b → offer ratios b i = Some (t, c') → published_at b <= at_ c) ∧
      kind c ≠ KRemoved ∧
      (kind c = KAdded ∨ ∃ ratio, obj_get t ratios = Some ratio ∧
         (c_to c = ratio ∨ sameRatio (c_to c) ratio = true))
  | None => ∀ b i c', within b → i ∈ items b → offer ratios b i ≠ Some (t, c')
  end.
Proof.
  intros He within. unfold buildGroupChangeMap. rewrite He. cbn [negb].
  rewrite build_offers. cbn [obj_get].
  assert (∀ b, within b ↔ b ∈ window_batches data now) as Hw
    by (intros b; subst within; simpl; by rewrite elem_of_window).
  destruct (obj_get t (offers ratios (window_batches data now))) as [c|] eqn:E.
  - pose proof E as Hm. apply obj_get_Some_mem, elem_of_offers in Hm as (b & i & Hb & Hi & Ho).
    split_and!.
    + exists b, i. rewrite Hw. split_and!; [done..|]. by eapply offer_at.
    + intros b' i' c' Hb' Hi' Ho'. apply Hw in Hb'.
      by apply (offers_first _ _ _ _ (window_sorted data now) E b' i' c').
    + unfold offer in Ho. destruct (target_of i) as [t'|]; simpl in Ho; [|done].
      destruct (obj_get t' ratios) as [r|]; simpl in Ho; [|done].
      destruct (change_of i r _) as [c0|] eqn:Ec; simpl in Ho; [|done]. simplify_eq.
      by apply change_of_current in Ec as [? _].
    + unfold offer in Ho. destruct (target_of i) as [t'|]; simpl in Ho; [|done].
      destruct (obj_get t' ratios) as [r|] eqn:Er; simpl in Ho; [|done].
      destruct (change_of i r _) as [c0|] eqn:Ec; simpl in Ho; [|done]. simplify_eq.
      apply change_of_current in Ec as [_ [?|?]]; [by left|right]. eauto.
  - intros b i c' Hb Hi Ho. apply Hw in Hb.
    assert ((t, c') ∈ offers ratios (window_batches data now)) as Hin
      by (apply elem_of_offers; eauto).
    apply obj_get_None in E. destruct E. apply list_elem_of_fmap. by exists (t, c').
Qed.

Theorem change_map_spec_witness :
  let item := mkItem ScopeGroup (js "vip") [] (js "group_ratio") (num_of_Z 2) (num_of_Z 1) Down [] [] in
  let data := mkData true 7 [mkBatch 1 100 [item]] in
  enabled data = true ∧
  ∃ c, obj_get (js "vip") (buildGroupChangeMap (Some data) [(js "vip", num_of_Z 1)] 100000) = Some c ∧
    kind c = KDown ∧ kind c ≠ KRemoved.
Proof.
  intros item data. split; [reflexivity|].
  pose proof (change_map_spec data [(js "vip", num_of_Z 1)] 100000 (js "vip") eq_refl) as H.
  destruct (obj_get (js "vip") (buildGroupChangeMap (Some data) [(js "vip", num_of_Z 1)] 100000))
    as [c|] eqn:E; [|vm_compute in E; discriminate E].
  exists c. split; [reflexivity|]. split; [vm_compute in E; injection E as <-; reflexivity|].
  exact (proj1 (proj2 (proj2 H))).
Defined.

(** ** Availability *)

Lemma classify_fold h l acc :
  (foldl (classify_step h) acc l).1 =
  (acc.1 || existsb (λ b, negb (request_count b =? 0) && (h - HOUR_SEC <=? ts b)) l).
Proof.
  revert acc. induction l as [|b l IH]; intros acc; simpl; [by rewrite orb_false_r|].
  rewrite IH. unfold classify_step.
  rewrite Z.ltb_antisym. destruct (request_count b =? 0); simpl; [done|].
  destruct (h - HOUR_SEC <=? ts b); simpl; [|done]. by rewrite orb_true_r.
Qed.

(** A group is available exactly when a bucket of this hour or the one before
    has a request, and without supply exactly when its buckets are there and
    all empty. *)
Lemma availability_spec buckets nowSec :
  0 <= nowSec →
  let l := match buckets with Some l => l | None => [] end in
  let h := nowSec - Z.rem nowSec HOUR_SEC in
  (status (classifyAvailability buckets nowSec) = Available ↔
     ∃ b, b ∈ l ∧ request_count b ≠ 0 ∧ h - HOUR_SEC <= ts b) ∧
  (status (classifyAvailability buckets nowSec) = NoSupply ↔
     l ≠ [] ∧ ∀ b, b ∈ l → request_count b = 0) ∧
  status (classifyAvailability buckets nowSec) ≠ Unknown.
Proof.
  intros _ l h. unfold classifyAvailability. fold l. fold h.
  destruct (negb (length l =? 0)%nat && forallb (λ b, request_count b =? 0) l) eqn:Ez.
  - apply andb_true_iff in Ez as [El Ea]. rewrite forallb_forall in Ea.
    assert (∀ b, b ∈ l → request_count b = 0) as Hz
      by (intros b Hb; apply Z.eqb_eq, Ea; by apply list_elem_of_In).
    simpl. split_and!; [|split; [intros _; split; [by destruct l|done]|done]|done].
    split; [done|]. intros (b & Hb & Hne & _). by apply Hz in Hb.
  - pose proof (classify_fold h l (false, None)) as Hf. simpl in Hf.
    destruct (foldl (classify_step h) (false, None) l) as [recent pct]. simpl in *. subst recent.
    split_and!.
    + destruct (existsb _ l) eqn:Ee; simpl; split; try done.
      * intros _. apply existsb_exists in Ee as (b & Hb%list_elem_of_In & Hc). bool_hyps.
        exists b. rewrite Z.eqb_neq, Z.leb_le in *. done.
      * intros (b & Hb & Hne & Hts). apply not_true_iff_false in Ee. destruct Ee.
        apply existsb_exists. exists b. split; [by apply list_elem_of_In|].
        rewrite andb_true_iff, negb_true_iff, Z.eqb_neq, Z.leb_le. done.
    + split; [by destruct (existsb _ l)|]. intros [Hne Hz]. exfalso.
      apply not_true_iff_false in Ez. apply Ez. apply andb_true_iff. split; [by destruct l|].
      apply forallb_forall. intros b Hb. apply Z.eqb_eq, Hz. by apply list_elem_of_In.
    + by destruct (existsb _ l).
Qed.

(** ** The states of the groups *)

Record GroupInfo := mkInfo { i_ratio : json; i_desc : option jsstr }.

Record GroupState := mkState {
  name : jsstr; desc : jsstr; g_ratio : num; availability : GroupAvailability;
  change : option GroupChange }.

Section Directory.
Variable toLowerCase : jsstr → jsstr.
Variables is_letter is_number : N → bool.   (* \p{L} and \p{N}, by code point *)
Variable localeCompare : jsstr → jsstr → Z. (* with { numeric: true } *)

(** The code points of a string, as a regular expression with the flag [u]
    sees them: a surrogate pair is one. *)
Fixpoint code_points (s : jsstr) : list N :=
  match s with
  | [] => []
  | c :: s' =>
      match s' with
      | d :: s'' =>
          if is_high_surrogate c && is_low_surrogate d
          then (65536 + (c - 55296) * 1024 + (d - 56320))%N :: code_points s''
          else c :: code_points s'
      | [] => [c]
      end
  end.

Definition of_code_point (c : N) : jsstr :=
  if (c <? 65536)%N then [c]
  else [(55296 + (c - 65536) / 1024)%N; (56320 + (c - 65536) mod 1024)%N].

(** [replace(/\p{N}\uFE0F?\u20E3/gu, '')] *)
Fixpoint strip_keycaps (l : list N) : list N :=
  match l with
  | [] => []
  | c :: l1 =>
      match l1 with
      | a :: l2 =>
          if is_number c && (a =? 8419)%N then strip_keycaps l2 else
          match l2 with
          | b :: l3 =>
              if is_number c && (a =? 65039)%N && (b =? 8419)%N then strip_keycaps l3
              else c :: strip_keycaps l1
          | [] => c :: strip_keycaps l1
          end
      | [] => [c]
      end
  end.

Definition alnum (c : N) : bool := is_letter c || is_number c.

Fixpoint drop_symbols (l : list N) : list N :=
  match l with
  | c :: l' => if alnum c then l else drop_symbols l'
  | [] => []
  end.

Definition bare_group (name : jsstr) : jsstr :=
  let l := drop_symbols (strip_keycaps (code_points name)) in
  concat (map of_code_point (reverse (drop_symbols (reverse l)))).

Definition isRoutingGroup (name : jsstr) : bool :=
  let bare := toLowerCase (bare_group name) in
  bool_decide (bare = js "default") || bool_decide (bare = js "auto").

Definition buildGroupStates (groups : obj GroupInfo) (uptime : option (obj (list GroupUptimeBucket)))
    (priceChanges : option PriceChangesData) (nowMs : Z) : list GroupState :=
  let nowSec := nowMs / 1000 in
  let list :=
    map (λ '(name, info),
      mkState name (opt_or (i_desc info) []) (json_to_number (i_ratio info))
        (match uptime with
         | Some uptime => classifyAvailability (obj_get name uptime) nowSec
         | None => UNKNOWN_AVAILABILITY
         end) None)
      (List.filter (λ e, negb (isRoutingGroup e.1)) groups) in
  let changes := buildGroupChangeMap priceChanges (map (λ g, (name g, g_ratio g)) list) nowMs in
  map (λ g, mkState (name g) (desc g) (g_ratio g) (availability g) (obj_get (name g) changes)) list.

Definition countAvailable (states : list GroupState) : nat :=
  length (List.filter (λ g, bool_decide (status (availability g) = Available)) states).

Definition latestChangeAt (states : list GroupState) : Z :=
  foldl (λ m g, Z.max m (match change g with Some c => at_ c | None => 0 end)) 0 states.

(** ** Search *)

(** [split(/\s+/)], then [filter(Boolean)]: the words of the text. *)
Fixpoint words (s : jsstr) : list jsstr :=
  match s with
  | [] => [[]]
  | c :: s' =>
      if is_ws c then [] :: words s' else
      match words s' with
      | w :: ws => (c :: w) :: ws
      | [] => [[c]]
      end
  end.

Definition searchTokens (query : jsstr) : list jsstr :=
  filter_bool (words (toLowerCase (trim query))).

Definition matchesSearch (name desc : jsstr) (tokens : list jsstr) : bool :=
  let haystack := toLowerCase (name ++ [10%N] ++ desc) in
  forallb (λ token, includes token haystack) tokens.

Record TextSegment := mkSeg { text : jsstr; hit : bool }.

(** The loop over the occurrences of a token, [fuel] bounding its turns. *)
Fixpoint occurrences (fuel : nat) (lower token : jsstr) (from : nat) : list (nat * nat) :=
  match fuel with
  | O => []
  | S f =>
      match index_of_from token lower from with
      | None => []
      | Some at_ => (at_, at_ + length token)%nat :: occurrences f lower token (at_ + length token)
      end
  end.

(** [merged]: [last] is the range the loop may still extend. *)
Fixpoint merge_ranges (last : nat * nat) (ranges : list (nat * nat)) : list (nat * nat) :=
  match ranges with
  | [] => [last]
  | r :: rest =>
      if (r.1 <=? last.2)%nat then merge_ranges (last.1, Nat.max last.2 r.2) rest
      else last :: merge_ranges r rest
  end.

Fixpoint cut_segments (text : jsstr) (cursor : nat) (merged : list (nat * nat)) : list TextSegment :=
  match merged with
  | [] => if (cursor <? length text)%nat then [mkSeg (drop cursor text) false] else []
  | (start, end_) :: rest =>
      (if (cursor <? start)%nat then [mkSeg (slice cursor start text) false] else []) ++
      mkSeg (slice start end_ text) true :: cut_segments text end_ rest
  end.

Definition compare_start (a b : nat * nat) : Z := Z.of_nat a.1 - Z.of_nat b.1.

Definition token_ranges (text : jsstr) (tokens : list jsstr) : list (nat * nat) :=
  let lower := toLowerCase text in
  if (length lower =? length text)%nat
  then concat (map (λ token, occurrences (S (length lower)) lower token 0) tokens)
  else [].

Definition highlightSegments (text : jsstr) (tokens : list jsstr) : list TextSegment :=
  match js_sort compare_start (token_ranges text tokens) with
  | [] => [mkSeg text false]
  | first :: rest => cut_segments text 0 (merge_ranges first rest)
  end.

(** ** Sorting *)

Inductive GroupSortKey := ByDefault | ByAvailability | RatioAsc | RatioDesc.

Record SortableGroup := mkSortable {
  s_name : jsstr; s_ratio : num; platformRank : Z; s_availability : GroupAvailability }.

Definition STATUS_RANK (s : AvailabilityStatus) : Z :=
  match s with Available | Unknown => 0 | Idle => 1 | NoSupply => 2 end.

Definition compareRatio (a b : SortableGroup) (dir : num) : Z :=
  let k g := if num_is_finite (s_ratio g) then num_mul (s_ratio g) dir else num_inf in
  if num_eqb (k a) (k b) then 0 else if num_ltb (k a) (k b) then -1 else 1.

Definition compareName (a b : SortableGroup) : Z := localeCompare (s_name a) (s_name b).

(** The sign of [x - y], 0 for [NaN]. *)
Definition num_diff_sign (x y : num) : Z :=
  let d := num_sub x y in
  if num_ltb d num_zero then -1 else if num_ltb num_zero d then 1 else 0.

(** [a || b] on the results of comparisons. *)
Definition then_by (a b : Z) : Z := if a =? 0 then b else a.

Definition minus_one : num := num_of_Z (-1).

Definition sortGroups (groups : list SortableGroup) (key : GroupSortKey) : list SortableGroup :=
  let pct g := opt_or (latestPct (s_availability g)) minus_one in
  match key with
  | ByAvailability =>
      js_sort (λ a b,
        then_by (STATUS_RANK (status (s_availability a)) - STATUS_RANK (status (s_availability b)))
          (then_by (num_diff_sign (pct b) (pct a))
            (then_by (compareRatio a b (num_of_Z 1)) (compareName a b)))) groups
  | RatioAsc => js_sort (λ a b, then_by (compareRatio a b (num_of_Z 1)) (compareName a b)) groups
  | RatioDesc => js_sort (λ a b, then_by (compareRatio a b minus_one) (compareName a b)) groups
  | ByDefault =>
      js_sort (λ a b, then_by (platformRank a - platformRank b)
        (then_by (compareRatio a b (num_of_Z 1)) (compareName a b))) groups
  end.

(** ** Highlighting *)

Definition covers (i : nat) (r : nat * nat) : bool := (r.1 <=? i)%nat && (i <? r.2)%nat.

(** Whether the character at [i] is in a hit. *)
Fixpoint hit_at (i : nat) (segs : list TextSegment) : bool :=
  match segs with
  | [] => false
  | s :: segs => if (i <? length (text s))%nat then hit s else hit_at (i - length (text s)) segs
  end.

Definition ok_range (n : nat) (r : nat * nat) : Prop := (r.1 < r.2)%nat ∧ (r.2 <= n)%nat.

(** Ranges in order, with a gap between one and the next. *)
Fixpoint apart (from : nat) (l : list (nat * nat)) : Prop :=
  match l with
  | [] => True
  | r :: l => (from <= r.1)%nat ∧ (r.1 < r.2)%nat ∧ apart r.2 l
  end.

Lemma apart_weaken from from' l : (from' <= from)%nat → apart from l → apart from' l.
Proof. destruct l as [|r l]; simpl; [done|]. intros ? (? & ? & ?). split_and!; [lia|done..]. Qed.

Lemma merge_ranges_spec n last ranges :
  ok_range n last → Forall (ok_range n) ranges →
  StronglySorted (λ a b, a.1 <= b.1)%nat (last :: ranges) →
  Forall (ok_range n) (merge_ranges last ranges) ∧
  apart last.1 (merge_ranges last ranges) ∧
  ∀ i, existsb (covers i) (merge_ranges last ranges) = existsb (covers i) (last :: ranges).
Proof.
  revert last. induction ranges as [|r rest IH]; intros last Hl Hr Hs.
  { simpl. split_and!; [by constructor|lia|apply Hl|done|done]. }
  apply Forall_cons in Hr as [Hr Hrest]. unfold ok_range in *.
  inversion Hs as [|? ? Hs' Hle]; subst. apply Forall_cons in Hle as [Hle Hle'].
  inversion Hs' as [|? ? Hs'' Hle'']; subst. cbn [merge_ranges].
  destruct (Nat.leb_spec r.1 last.2) as [Hm|Hm].
  - destruct (IH (last.1, Nat.max last.2 r.2)) as (H1 & H2 & H3); simpl; [lia|done| |].
    { by constructor. }
    split_and!; [done|done|]. intros i. rewrite H3. cbn [existsb].
    rewrite orb_assoc. f_equal. unfold covers. cbn [fst snd].
    destruct (Nat.leb_spec last.1 i), (Nat.ltb_spec i (Nat.max last.2 r.2)), (Nat.ltb_spec i last.2),
      (Nat.leb_spec r.1 i), (Nat.ltb_spec i r.2); simpl; try done; lia.
  - destruct (IH r) as (H1 & H2 & H3); [done|done|done|].
    split_and!.
    + by constructor.
    + simpl. split_and!; [lia|lia|]. eapply apart_weaken; [|exact H2]. lia.
    + intros i. cbn [existsb]. by rewrite H3.
Qed.

Lemma existsb_perm {A} (f : A → bool) l l' : l ≡ₚ l' → existsb f l = existsb f l'.
Proof.
  induction 1 as [|x l l' _ IH|x y l|l1 l2 l3 _ IH1 _ IH2]; simpl; [done|by rewrite IH| |congruence].
  by rewrite !orb_assoc, (orb_comm (f y)).
Qed.

Lemma hit_at_cons i s segs :
  hit_at i (s :: segs) =
  if (i <? length (text s))%nat then hit s else hit_at (i - length (text s)) segs.
Proof. done. Qed.

Lemma cut_segments_spec txt cursor merged :
  Forall (ok_range (length txt)) merged → apart cursor merged → (cursor <= length txt)%nat →
  concat (map text (cut_segments txt cursor merged)) = drop cursor txt ∧
  ∀ i, hit_at i (cut_segments txt cursor merged) = existsb (covers (cursor + i)) merged.
Proof.
  revert cursor. induction merged as [|[s e] merged IH]; intros cursor Hok Ha Hc.
  { simpl. destruct (Nat.ltb_spec cursor (length txt)); simpl.
    - rewrite app_nil_r. split; [done|]. intros i. by destruct (_ <? _)%nat.
    - rewrite drop_ge by lia. done. }
  apply Forall_cons in Hok as [[Hse He] Hok]. simpl in Ha, Hse, He. destruct Ha as (Hcs & _ & Ha).
  destruct (IH e Hok Ha He) as [IH1 IH2]. cbn [cut_segments]. rewrite map_app, concat_app.
  assert (drop cursor txt = slice cursor s txt ++ slice s e txt ++ drop e txt) as Hd.
  { unfold slice. rewrite <- (take_drop (s - cursor) (drop cursor txt)) at 1. f_equal.
    rewrite drop_drop. replace (cursor + (s - cursor))%nat with s by lia.
    rewrite <- (take_drop (e - s) (drop s txt)) at 1. f_equal. rewrite drop_drop. f_equal. lia. }
  assert (length (slice s e txt) = e - s)%nat as Hl1
    by (unfold slice; rewrite length_take, length_drop; lia).
  assert (length (slice cursor s txt) = s - cursor)%nat as Hl2
    by (unfold slice; rewrite length_take, length_drop; lia).
  assert (∀ i, hit_at i (mkSeg (slice s e txt) true :: cut_segments txt e merged) =
    existsb (covers (s + i)) ((s, e) :: merged)) as Hh.
  { intros i. cbn [hit_at text hit existsb]. rewrite Hl1, IH2. unfold covers at 2. cbn [fst snd].
    destruct (Nat.ltb_spec i (e - s)), (Nat.leb_spec s (s + i)), (Nat.ltb_spec (s + i) e);
      simpl; try done; try lia. do 2 f_equal. lia. }
  split.
  - rewrite Hd. cbn [map concat text]. rewrite IH1. f_equal.
    destruct (Nat.ltb_spec cursor s); simpl; [apply app_nil_r|].
    unfold slice. by replace (s - cursor)%nat with 0%nat by lia.
  - intros i. destruct (Nat.ltb_spec cursor s) as [Hlt|Hge]; cbn [app].
    + rewrite hit_at_cons. cbn [text hit]. rewrite Hl2. destruct (Nat.ltb_spec i (s - cursor)).
      * symmetry. apply not_true_iff_false. rewrite existsb_exists.
        intros (r & Hin & Hcov). unfold covers in Hcov. bool_hyps.
        rewrite Nat.leb_le in *. simpl in Hin. destruct Hin as [<-|Hin]; [simpl in *; lia|].
        assert (∀ from l, apart from l → ∀ r, In r l → (from <= r.1)%nat) as Hap.
        { intros from l. revert from. induction l as [|r' l IHl]; intros from Hl r0; [done|].
          simpl in Hl. destruct Hl as (? & ? & Hl). intros [<-|Hin']; [done|].
          specialize (IHl _ Hl _ Hin'). lia. }
        specialize (Hap _ _ Ha _ Hin). lia.
      * rewrite Hh. f_equal. f_equal. lia.
    + rewrite Hh. f_equal. f_equal. lia.
Qed.

Lemma occurrences_ok fuel lower token from r :
  token ≠ [] → r ∈ occurrences fuel lower token from → ok_range (length lower) r ∧
  slice r.1 r.2 lower = token.
Proof.
  intros Hne. revert from. induction fuel as [|f IH]; intros from; simpl;
    [by intros ?%not_elem_of_nil|].
  unfold index_of_from. destruct (index_of token (drop from lower)) as [i|] eqn:E; simpl;
    [|by intros ?%not_elem_of_nil].
  intros [->|Hr]%elem_of_cons; [|by eapply IH].
  apply index_of_Some in E as ([u Hu] & Hl & _). rewrite length_drop in Hl.
  assert (0 < length token)%nat by (destruct token; [done|simpl; lia]).
  unfold ok_range. cbn [fst snd]. split; [lia|]. unfold slice.
  replace (from + i + length token - (from + i))%nat with (length token) by lia.
  rewrite <- drop_drop, Hu. apply take_app_length.
Qed.

(** Enough turns: every occurrence past [from] that the loop reaches is found,
    so that the last call of [indexOf] is the one that fails. *)
Lemma occurrences_end fuel lower token from :
  token ≠ [] → (length lower - from < fuel)%nat →
  occurrences fuel lower token from = occurrences (S fuel) lower token from.
Proof.
  intros Hne. revert from. induction fuel as [|f IH]; intros from Hf; [lia|].
  cbn [occurrences]. unfold index_of_from.
  destruct (index_of token (drop from lower)) as [i|] eqn:E; simpl; [|done].
  apply index_of_Some in E as (_ & Hl & _). rewrite length_drop in Hl.
  assert (0 < length token)%nat by (destruct token; [done|simpl; lia]).
  f_equal. rewrite IH by lia. cbn [occurrences]. unfold index_of_from. done.
Qed.

#[local] Instance compare_start_order : CmpOrder compare_start.
Proof. split; unfold compare_start; intros; lia. Qed.

(** The highlighted pieces put together are the text, whatever the lower
    case of the platform does, and a character is in a hit exactly when it
    lies in an occurrence of a search word found from left to right without
    overlap; each such occurrence really is the word. *)
Theorem highlight_spec txt tokens :
  Forall (λ t, t ≠ []) tokens →
  concat (map text (highlightSegments txt tokens)) = txt ∧
  (∀ i, hit_at i (highlightSegments txt tokens) =
        existsb (covers i) (token_ranges txt tokens)) ∧
  (∀ r, r ∈ token_ranges txt tokens →
     ok_range (length txt) r ∧ slice r.1 r.2 (toLowerCase txt) ∈ tokens).
Proof.
  intros Ht. assert (∀ r, r ∈ token_ranges txt tokens →
     ok_range (length txt) r ∧ slice r.1 r.2 (toLowerCase txt) ∈ tokens) as Hr.
  { unfold token_ranges. intros r. destruct (Nat.eqb_spec (length (toLowerCase txt)) (length txt))
      as [El|]; [|by intros ?%not_elem_of_nil].
    rewrite elem_of_concat. intros (l & (tok & -> & Htok)%list_elem_of_fmap & Hin).
    rewrite Forall_forall in Ht. destruct (occurrences_ok _ _ _ _ _ (Ht _ Htok) Hin) as [Hok Hs].
    rewrite El in Hok. split; [done|]. by rewrite Hs. }
  split; [|split; [|done]]; unfold highlightSegments;
    set (ranges := js_sort compare_start (token_ranges txt tokens)).
  all: assert (Forall (ok_range (length txt)) ranges) as Hok
    by (apply Forall_forall; intros r Hin; apply Hr; by apply elem_of_js_sort in Hin).
  all: assert (StronglySorted (λ a b, a.1 <= b.1)%nat ranges) as Hs
    by (eapply StronglySorted_impl; [|apply js_sort_sorted, _];
        intros a b H; unfold cmp_le, compare_start in H; lia).
  all: assert (∀ i, existsb (covers i) ranges = existsb (covers i) (token_ranges txt tokens)) as He
    by (intros i; apply existsb_perm, js_sort_perm).
  - destruct ranges as [|first rest]; [apply app_nil_r|].
    apply Forall_cons in Hok as [Hf Hrest].
    destruct (merge_ranges_spec _ first rest Hf Hrest Hs) as (H1 & H2 & _).
    destruct (cut_segments_spec txt 0 (merge_ranges first rest)) as [Hc _]; [done| |lia|exact Hc].
    eapply apart_weaken; [|exact H2]. lia.
  - intros i. rewrite <- He. destruct ranges as [|first rest].
    { simpl. by destruct (i <? length txt)%nat. }
    apply Forall_cons in Hok as [Hf Hrest].
    destruct (merge_ranges_spec _ first rest Hf Hrest Hs) as (H1 & H2 & H3).
    rewrite <- H3.
    destruct (cut_segments_spec txt 0 (merge_ranges first rest)) as [_ Hc]; [done| |lia|apply Hc].
    eapply apart_weaken; [|exact H2]. lia.
Qed.

End Directory.

(** ASCII lower case, to try the definitions on. *)
Definition ascii_lower (s : jsstr) : jsstr :=
  map (λ c, if is_upper c then (c + 32)%N else c) s.

Theorem highlight_spec_witness :
  Forall (λ t, t ≠ []) [js "aa"; js "ab"] ∧
  concat (map text (highlightSegments ascii_lower (js "xAAab") [js "aa"; js "ab"])) = js "xAAab".
Proof.
  assert (Forall (λ t, t ≠ []) [js "aa"; js "ab"]) as H
    by (repeat constructor; vm_compute; discriminate).
  split; [exact H|]. exact (proj1 (highlight_spec ascii_lower (js "xAAab") _ H)).
Defined.

End Directory.
