(* ===== verification/Governance.v ===== *)
(** * Conflicts between the settings of channel governance

    Models [features/system-settings/channel-governance/conflict-detection.ts]
    under [web/default/src].  The title and the detail of a conflict are fixed
    by its id and left out; [toLowerCase] is a parameter. *)
From S2P Require Import Prelude JSString.
Local Open Scope Z_scope.

Inductive ConflictId :=
  | DisableSwitchBypassed | DisableSwitchBypassedUnreachable | DegradationFrozen
  | LadderUnreachable | RateLimitDoubleDisposition | NoRecoveryPath.

Inductive ConflictLevel := LError | LWarning.

#[global] Instance ConflictId_eq_dec : EqDecision ConflictId.
Proof. solve_decision. Defined.

(** [values] are the numbers the detail shows, by name. *)
Record GovernanceConflict := mkConflict {
  conflict_id : ConflictId; level : ConflictLevel; values : list (jsstr * Z) }.

Record GovernanceConflictInput := mkInput {
  autoTestEnabled : bool;
  automaticDisableChannelEnabled : bool;
  automaticEnableChannelEnabled : bool;
  healthEnabled : bool;
  disableThreshold : Z;
  baseDegradeThreshold : Z;
  levelStepThreshold : Z;
  maxDegradeLevel : Z;
  count429AsError : bool;
  recoveryStrategy : jsstr;
  modelRateLimitRemovalEnabled : bool;
}.

Definition streakForDeepestLevel (input : GovernanceConflictInput) : Z :=
  if maxDegradeLevel input <=? 1 then baseDegradeThreshold input
  else baseDegradeThreshold input + levelStepThreshold input * (maxDegradeLevel input - 1).

(** [conflicts.push] under a condition. *)
Definition push_if (b : bool) (c : GovernanceConflict) : list GovernanceConflict :=
  if b then [c] else [].

Definition detectGovernanceConflicts (input : GovernanceConflictInput) : list GovernanceConflict :=
  let deepest := streakForDeepestLevel input in
  let threshold := disableThreshold input in
  let reachable := threshold <=? deepest * 3 in
  let probeRecovery := autoTestEnabled input && automaticEnableChannelEnabled input in
  let activeRecovery := healthEnabled input && bool_decide (recoveryStrategy input = js "probe") in
  push_if (negb (automaticDisableChannelEnabled input) && healthEnabled input && (0 <? threshold))
    (if reachable
     then mkConflict DisableSwitchBypassed LError [(js "threshold", threshold)]
     else mkConflict DisableSwitchBypassedUnreachable LWarning
            [(js "threshold", threshold); (js "deepest", deepest)]) ++
  push_if (negb (healthEnabled input)) (mkConflict DegradationFrozen LWarning []) ++
  push_if (healthEnabled input && (0 <? threshold) && (threshold <=? deepest))
    (mkConflict LadderUnreachable LWarning
       [(js "threshold", threshold); (js "deepest", deepest)]) ++
  push_if (modelRateLimitRemovalEnabled input && healthEnabled input && count429AsError input)
    (mkConflict RateLimitDoubleDisposition LWarning []) ++
  push_if (negb probeRecovery && negb activeRecovery) (mkConflict NoRecoveryPath LError []).

Definition parseKeywordLines (raw : jsstr) : list jsstr :=
  filter_bool (map trim (split_on 10%N raw)).

Section Keywords.
Variable toLowerCase : jsstr → jsstr.

(** The loop over the keywords, with the set of those seen. *)
Fixpoint overlap_loop (disableSet seen : list jsstr) (keywords : list jsstr) : list jsstr :=
  match keywords with
  | [] => []
  | keyword :: rest =>
      let normalized := toLowerCase keyword in
      if negb (bool_decide (normalized ∈ disableSet)) || bool_decide (normalized ∈ seen)
      then overlap_loop disableSet seen rest
      else keyword :: overlap_loop disableSet (normalized :: seen) rest
  end.

Definition findOverlappingKeywords (forbiddenKeywords disableKeywords : jsstr) : list jsstr :=
  overlap_loop (map toLowerCase (parseKeywordLines disableKeywords)) []
    (parseKeywordLines forbiddenKeywords).

(** ** What is reported *)

(** The plain reading of the five rules. *)
Definition has_conflict (input : GovernanceConflictInput) (c : ConflictId) : Prop :=
  let deepest := streakForDeepestLevel input in
  let t := disableThreshold input in
  match c with
  | DisableSwitchBypassed =>
      automaticDisableChannelEnabled input = false ∧ healthEnabled input = true ∧
      0 < t <= 3 * deepest
  | DisableSwitchBypassedUnreachable =>
      automaticDisableChannelEnabled input = false ∧ healthEnabled input = true ∧
      0 < t ∧ 3 * deepest < t
  | DegradationFrozen => healthEnabled input = false
  | LadderUnreachable => healthEnabled input = true ∧ 0 < t <= deepest
  | RateLimitDoubleDisposition =>
      modelRateLimitRemovalEnabled input = true ∧ healthEnabled input = true ∧
      count429AsError input = true
  | NoRecoveryPath =>
      (autoTestEnabled input = false ∨ automaticEnableChannelEnabled input = false) ∧
      (healthEnabled input = false ∨ recoveryStrategy input ≠ js "probe")
  end.

Lemma elem_of_push_if b c x : x ∈ push_if b c ↔ b = true ∧ x = c.
Proof.
  unfold push_if. destruct b; [rewrite list_elem_of_singleton; naive_solver|].
  split; [by intros ?%not_elem_of_nil|by intros []].
Qed.

Lemma reported_iff input c :
  c ∈ map conflict_id (detectGovernanceConflicts input) ↔ has_conflict input c.
Proof.
  unfold detectGovernanceConflicts, has_conflict. cbv zeta.
  rewrite !map_app, !elem_of_app.
  assert (∀ b x, c ∈ map conflict_id (push_if b x) ↔ b = true ∧ c = conflict_id x) as Hp.
  { intros b x. unfold push_if. destruct b; simpl; [rewrite list_elem_of_singleton; naive_solver|].
    split; [by intros ?%not_elem_of_nil|by intros []]. }
  rewrite !Hp, !andb_true_iff, !negb_true_iff, !andb_false_iff, bool_decide_eq_false,
    !Z.ltb_lt, !Z.leb_le.
  destruct (Z.leb_spec (disableThreshold input) (streakForDeepestLevel input * 3));
    cbn [conflict_id]; destruct c; naive_solver lia.
Qed.

(** Each of the six conflicts is reported exactly when its rule applies,
    no conflict twice, and only two of them are errors: the automatic stop that
    bypasses its switch and the missing way back. *)
Theorem conflicts_spec input :
  (∀ c, c ∈ map conflict_id (detectGovernanceConflicts input) ↔ has_conflict input c) ∧
  NoDup (map conflict_id (detectGovernanceConflicts input)) ∧
  (∀ x, x ∈ detectGovernanceConflicts input → level x = LError ↔
     conflict_id x = DisableSwitchBypassed ∨ conflict_id x = NoRecoveryPath).
Proof.
  split_and!.
  - intros c. apply reported_iff.
  - unfold detectGovernanceConflicts, push_if. cbv zeta. repeat case_match; cbn [app map conflict_id];
      by apply (bool_decide_unpack _).
  - intros x. unfold detectGovernanceConflicts. cbv zeta. rewrite !elem_of_app, !elem_of_push_if.
    intros [[_ ->]|[[_ ->]|[[_ ->]|[[_ ->]|[_ ->]]]]]; try case_match; simpl; naive_solver.
Qed.

(** ** The degrade ladder the rules talk about

    The level the backend gives a channel after [streak] errors in a row
    (model/channel_health_event.go, on positive arguments); a channel whose
    streak reaches the automatic stop is stopped instead of degraded
    (service/channel_health.go). *)
Definition ComputeLevelFromStreak (streak base step maxLevel : Z) : Z :=
  if streak <? base then 0
  else let level := 1 + (streak - base) ÷ step in
       if maxLevel <? level then maxLevel else level.

Definition ladder_level (input : GovernanceConflictInput) (streak : Z) : Z :=
  ComputeLevelFromStreak streak (baseDegradeThreshold input) (levelStepThreshold input)
    (maxDegradeLevel input).

(** The streak the conflicts are computed from is the least one that takes a
    channel to the last level. *)
Lemma deepest_level input streak :
  0 < baseDegradeThreshold input → 0 < levelStepThreshold input → 1 <= maxDegradeLevel input →
  0 <= streak →
  ladder_level input streak = maxDegradeLevel input ↔ streakForDeepestLevel input <= streak.
Proof.
  intros Hb Hs Hm H0. unfold ladder_level, ComputeLevelFromStreak, streakForDeepestLevel.
  set (b := baseDegradeThreshold input) in *. set (s := levelStepThreshold input) in *.
  set (mx := maxDegradeLevel input) in *. cbv zeta.
  destruct (Z.ltb_spec streak b).
  { destruct (Z.leb_spec mx 1); split; intros; nia. }
  rewrite Z.quot_div_nonneg by lia.
  pose proof (Z.div_mod (streak - b) s ltac:(lia)) as E.
  pose proof (Z.mod_pos_bound (streak - b) s Hs). set (q := (streak - b) / s) in *.
  assert (0 <= q) by (apply Z.div_pos; lia).
  destruct (Z.leb_spec mx 1); destruct (Z.ltb_spec mx (1 + q)); split; intros; nia.
Qed.

(** With passive health on and an automatic stop at [threshold] errors,
    the ladder is reported as unreachable exactly when no channel can get to
    the last degrade level before it is stopped: no streak below the
    threshold is given that level by the backend. *)
Theorem ladder_spec input :
  0 < baseDegradeThreshold input → 0 < levelStepThreshold input → 1 <= maxDegradeLevel input →
  healthEnabled input = true → 0 < disableThreshold input →
  LadderUnreachable ∈ map conflict_id (detectGovernanceConflicts input) ↔
  ∀ streak, 0 <= streak < disableThreshold input →
    ladder_level input streak ≠ maxDegradeLevel input.
Proof.
  intros Hb Hs Hm Hh Ht. rewrite reported_iff. cbn [has_conflict].
  assert (0 < streakForDeepestLevel input).
  { unfold streakForDeepestLevel. destruct (Z.leb_spec (maxDegradeLevel input) 1); nia. }
  split.
  - intros (_ & _ & Hle) streak Hst E. apply deepest_level in E; lia.
  - intros Hno. split_and!; [done|done|]. destruct (Z.le_gt_cases (disableThreshold input) (streakForDeepestLevel input)) as [|Hlt]; [done|].
    destruct (Hno (streakForDeepestLevel input) ltac:(lia)). apply deepest_level; lia.
Qed.

Definition example_input : GovernanceConflictInput :=
  mkInput true false true true 12 5 5 3 true (js "probe") false.

Lemma ladder_spec_witness :
  LadderUnreachable ∈ map conflict_id (detectGovernanceConflicts example_input) ∧
  ∀ streak, 0 <= streak < 12 → ladder_level example_input streak ≠ 3.
Proof.
  assert (LadderUnreachable ∈ map conflict_id (detectGovernanceConflicts example_input)) as H
    by (vm_compute; repeat first [left|right]).
  split; [exact H|].
  apply (proj1 (ladder_spec example_input ltac:(reflexivity) ltac:(reflexivity) ltac:(discriminate)
    ltac:(reflexivity) ltac:(reflexivity)) H).
Defined.

Lemma overlap_loop_spec d seen l :
  NoDup (map toLowerCase (overlap_loop d seen l)) ∧
  (∀ k, k ∈ overlap_loop d seen l → k ∈ l ∧ toLowerCase k ∈ d ∧ toLowerCase k ∉ seen) ∧
  (∀ k, k ∈ l → toLowerCase k ∈ d → toLowerCase k ∉ seen →
     toLowerCase k ∈ map toLowerCase (overlap_loop d seen l)).
Proof.
  revert seen. induction l as [|k l IH]; intros seen; simpl.
  { split_and!; [constructor|by intros ? ?%not_elem_of_nil|by intros ? ?%not_elem_of_nil]. }
  destruct (negb (bool_decide (toLowerCase k ∈ d)) || bool_decide (toLowerCase k ∈ seen)) eqn:E.
  - destruct (IH seen) as (H1 & H2 & H3). split_and!; [done|set_solver|].
    intros k' [->|Hin]%elem_of_cons Hd Hs; [|by apply H3]. exfalso.
    rewrite bool_decide_eq_true_2, bool_decide_eq_false_2 in E by done. done.
  - apply orb_false_iff in E as [Ed Es]. apply negb_false_iff, bool_decide_eq_true in Ed.
    apply bool_decide_eq_false in Es.
    destruct (IH (toLowerCase k :: seen)) as (H1 & H2 & H3). simpl. split_and!.
    + constructor; [|done]. intros (k' & E & Hk')%list_elem_of_fmap.
      apply H2 in Hk'. set_solver.
    + intros k' [->|Hin]%elem_of_cons; [set_solver|]. apply H2 in Hin. set_solver.
    + intros k' Hin Hd Hs. destruct (decide (toLowerCase k' = toLowerCase k)) as [->|Hne].
      * by apply elem_of_cons; left.
      * apply elem_of_cons. right. apply H3; set_solver.
Qed.

(** The overlapping keywords are lines of the first list whose lower case
    is that of a line of the second, no two with the same lower case, and no
    such line is left without one. *)
Theorem overlaps_spec forbidden disable :
  let out := findOverlappingKeywords forbidden disable in
  let low raw := map toLowerCase (parseKeywordLines raw) in
  NoDup (map toLowerCase out) ∧
  (∀ k, k ∈ out → k ∈ parseKeywordLines forbidden ∧ trimmed k ∧ k ≠ []) ∧
  (∀ s, s ∈ map toLowerCase out ↔ s ∈ low forbidden ∧ s ∈ low disable).
Proof.
  intros out low.
  destruct (overlap_loop_spec (low disable) [] (parseKeywordLines forbidden)) as (H1 & H2 & H3).
  split_and!; [done| |].
  - intros k Hk. destruct (H2 _ Hk) as (Hin & _). split; [done|].
    pose proof (elem_of_split_trim 10%N forbidden k Hin) as (? & ? & _). done.
  - intros s. split.
    + intros (k & -> & Hk)%list_elem_of_fmap. apply H2 in Hk as (Hin & Hd & _).
      split; [|done]. subst low. simpl. apply list_elem_of_fmap. eauto.
    + intros [(k & -> & Hk)%list_elem_of_fmap Hd]. apply H3; [done|done|apply not_elem_of_nil].
Qed.
End Keywords.
