(* ===== verification/BillingExpr.v ===== *)
(** * Price expressions: tiers and request rules

    Models [features/pricing/lib/billing-expr.ts] under [web/default/src]: the
    editor builds the text of an expression that the server evaluates, and the
    pages read such a text back by regular expressions.  A price is
    [(<tiers>) * <rule> * <rule>], where a rule multiplies it under conditions
    on parameters, headers or the time of a request.

    Labels of variables and of match options are only shown and left out.  The
    parsers may throw: [JSON.parse] inside of one is not caught.  A result of
    type [option] of something is [None] for an exception. *)
From S2P Require Import Prelude JSString JSNumber JSON Regex.
Local Open Scope re_scope.

Module Vars.

Record BillingVar := mkVar {
  key : jsstr;
  field : option jsstr;
  tierField : option jsstr;
  isBase : bool;
  isConditionOnly : bool;
}.

Definition BILLING_VARS : list BillingVar :=
  let price k f t := mkVar (js k) (Some (js f)) (Some (js t)) false false in
  [ mkVar (js "p") (Some (js "inputPrice")) (Some (js "input_unit_cost")) true false;
    mkVar (js "c") (Some (js "outputPrice")) (Some (js "output_unit_cost")) true false;
    mkVar (js "len") None None false true;
    price "cr" "cacheReadPrice" "cache_read_unit_cost";
    price "cc" "cacheCreatePrice" "cache_create_unit_cost";
    price "cc1h" "cacheCreate1hPrice" "cache_create_1h_unit_cost";
    price "img" "imagePrice" "image_unit_cost";
    price "img_o" "imageOutputPrice" "image_output_unit_cost";
    price "ai" "audioInputPrice" "audio_input_unit_cost";
    price "ao" "audioOutputPrice" "audio_output_unit_cost" ]%string.

Definition BILLING_PRICING_VARS : list BillingVar :=
  List.filter (λ v, negb (isConditionOnly v)) BILLING_VARS.

Definition BILLING_CONDITION_VARS : list jsstr :=
  map key (List.filter (λ v, isBase v || isConditionOnly v) BILLING_VARS).

Definition BILLING_VAR_KEY_TO_FIELD : list (jsstr * jsstr) :=
  map (λ v, (key v, opt_or (field v) [])) BILLING_PRICING_VARS.

Definition BILLING_EXTRA_VARS : list BillingVar :=
  List.filter (λ v, negb (isBase v) && negb (isConditionOnly v)) BILLING_VARS.

(** [{ field, exprVar }] *)
Definition BILLING_CACHE_VAR_MAP : list (jsstr * jsstr) :=
  map (λ v, (opt_or (tierField v) [], key v)) BILLING_EXTRA_VARS.

(** [[\d.eE+-]] and, in the conditions of tiers, [[\d.eE+]]. *)
Definition num_char (c : jschar) : bool :=
  is_digit c || bool_decide (c ∈ js ".eE+-").
Definition num_char_pos (c : jschar) : bool :=
  is_digit c || bool_decide (c ∈ js ".eE+").

Definition BILLING_VAR_REGEX : regex :=
  RWord · RCap 1 (ralts (map key BILLING_PRICING_VARS)) · ws_star · lit (js "*") · ws_star ·
  RCap 2 (RPlus (RChar num_char)).

End Vars.

Module Rules.
Import Vars.

Definition MATCH_EQ : jsstr := js "eq".
Definition MATCH_CONTAINS : jsstr := js "contains".
Definition MATCH_GT : jsstr := js "gt".
Definition MATCH_GTE : jsstr := js "gte".
Definition MATCH_LT : jsstr := js "lt".
Definition MATCH_LTE : jsstr := js "lte".
Definition MATCH_EXISTS : jsstr := js "exists".
Definition MATCH_RANGE : jsstr := js "range".

Definition TIME_FUNCS : list jsstr :=
  [js "hour"; js "minute"; js "weekday"; js "month"; js "day"].

Definition digits : regex := RPlus (RChar is_digit).

(** [/^-?(?:\d+\.?\d*|\.\d+)(?:[eE][+-]?\d+)?$/] *)
Definition NUMERIC_LITERAL_REGEX : regex :=
  RStart · ROpt (lit (js "-")) ·
  RAlt (digits · ROpt (lit (js ".")) · RStar (RChar is_digit)) (lit (js ".") · digits) ·
  ROpt (ralts [js "e"; js "E"] · ROpt (ralts [js "+"; js "-"]) · digits) · REnd.
Definition numeric (s : jsstr) : bool := re_test NUMERIC_LITERAL_REGEX s.

Inductive Source := Param | Header.

#[global] Instance Source_eq_dec : EqDecision Source.
Proof. solve_decision. Defined.

Inductive RequestCondition :=
  | TimeCondition (timeFunc timezone mode value rangeStart rangeEnd : jsstr)
  | ParamHeaderCondition (source : Source) (path mode value : jsstr).

Record RequestRuleGroup := mkGroup {
  conditions : list RequestCondition; multiplier : jsstr }.

(** [Partial<RequestCondition>]; a property that is absent is [None]. *)
Record PartialCondition := mkPartial {
  p_source : option jsstr; p_path : option jsstr; p_timeFunc : option jsstr;
  p_timezone : option jsstr; p_mode : option jsstr; p_value : option jsstr;
  p_rangeStart : option jsstr; p_rangeEnd : option jsstr;
}.

Definition partial_of (c : RequestCondition) : PartialCondition :=
  match c with
  | TimeCondition f tz m v s e =>
      mkPartial (Some (js "time")) None (Some f) (Some tz) (Some m) (Some v) (Some s) (Some e)
  | ParamHeaderCondition src p m v =>
      mkPartial (Some (match src with Param => js "param" | Header => js "header" end))
        (Some p) None None (Some m) (Some v) None None
  end.

(** ** Splitting at the top level *)

Definition paren_depth (depth : Z) (c : jschar) : Z :=
  if (c =? 40)%N then (depth + 1)%Z else if (c =? 41)%N then (depth - 1)%Z else depth.

(** The loop over the characters of [splitTopLevelMultiply] and
    [splitTopLevelAnd]: [skip] characters of a separator are still to be
    passed, [cur] is the current part, last character first. *)
Fixpoint split_loop (sep : jsstr) (s : jsstr) (skip : nat) (depth : Z) (cur : jsstr)
    : list jsstr :=
  match s with
  | [] => [trim (reverse cur)]
  | c :: s' =>
      match skip with
      | S skip => split_loop sep s' skip depth cur
      | O =>
          let depth := paren_depth depth c in
          if (depth =? 0)%Z && starts_with sep s
          then trim (reverse cur) :: split_loop sep s' (length sep - 1) depth []
          else split_loop sep s' 0 depth (c :: cur)
      end
  end.

Definition splitTopLevelMultiply (expr : jsstr) : list jsstr :=
  filter_bool (split_loop (js " * ") expr 0 0 []).
Definition splitTopLevelAnd (expr : jsstr) : list jsstr :=
  filter_bool (split_loop (js " && ") expr 0 0 []).

(** ** Parsing conditions *)

Definition is_bool_text (text : jsstr) : bool :=
  bool_decide (text = js "true") || bool_decide (text = js "false").

(** The value cast to a string; [None] for [null]. *)
Definition parseExprLiteral (raw : jsstr) : option json :=
  let text := trim raw in
  if is_bool_text text then Some (JStr text) else
  if numeric text then Some (JStr text) else
  match JSON_parse text with Some JNull | None => None | Some v => Some v end.

Definition not_quote : regex := RPlus (RChar (not_char DQ)).

(** The patterns of a call and of a range, followed by [k]. *)
Definition time_call (fn tz k : regex) : regex := fn · lit (jq "(`") · tz · lit (jq "`)") · k.

Definition TIME_RANGE (k : regex) : regex :=
  time_call (RCap 1 (ralts TIME_FUNCS)) (RCap 2 not_quote)
    (lit (js " >= ") · RCap 3 (RPlus (RChar num_char)) · lit (js " || ") ·
     time_call (RBack 1) (RBack 2)
       (lit (js " < ") · RCap 4 (RPlus (RChar num_char)) · k)).

Definition TIME_RANGE_REGEX : regex := RStart · TIME_RANGE REnd.
Definition TIME_PAREN_REGEX : regex := RStart · lit (js "(") · TIME_RANGE (lit (js ")") · REnd).
Definition TIME_OP_REGEX : regex :=
  RStart · time_call (RCap 1 (ralts TIME_FUNCS)) (RCap 2 not_quote)
    (lit (js " ") · RCap 3 (ralts [js "=="; js ">="; js "<"]) · lit (js " ") ·
     RCap 4 (RPlus (RChar num_char)) · REnd).

Definition range_of (m : gmap nat jsstr) : RequestCondition :=
  TimeCondition (group 1 m) (group 2 m) MATCH_RANGE [] (group 3 m) (group 4 m).

Definition time_mode (op : jsstr) : jsstr :=
  if decide (op = js "==") then MATCH_EQ else
  if decide (op = js ">=") then MATCH_GTE else
  if decide (op = js "<") then MATCH_LT else MATCH_EQ.

Definition tryParseTimeCondition (expr : jsstr) : option RequestCondition :=
  match re_match TIME_RANGE_REGEX expr with
  | Some m => Some (range_of m)
  | None =>
  match re_match TIME_PAREN_REGEX expr with
  | Some m => Some (range_of m)
  | None =>
  match re_match TIME_OP_REGEX expr with
  | Some m =>
      Some (TimeCondition (group 1 m) (group 2 m) (time_mode (group 3 m)) (group 4 m) [] [])
  | None => None
  end end end.

(** A string literal: characters that are no quote and no backslash, and
    escaped characters, between quotes. *)
Definition string_literal : regex :=
  lit [DQ] ·
  RStar (RAlt (RChar (λ c, not_char DQ c && not_char BSL c)) (lit [BSL] · RChar dot_char)) ·
  lit [DQ].

Definition HEADER_EXISTS : regex := RStart · lit (jq "header(`") · RCap 1 not_quote · lit (jq "`) != ``") · REnd.
Definition PARAM_EXISTS : regex := RStart · lit (jq "param(`") · RCap 1 not_quote · lit (jq "`) != nil") · REnd.
Definition HEADER_HAS : regex :=
  RStart · lit (jq "has(header(`") · RCap 1 not_quote · lit (jq "`), ") · RCap 2 string_literal ·
  lit (js ")") · REnd.
Definition PARAM_HAS : regex :=
  RStart · lit (jq "param(`") · RCap 1 not_quote · lit (jq "`) != nil && has(param(`") ·
  RCap 2 not_quote · lit (jq "`), ") · RCap 3 string_literal · lit (js ")") · REnd.
Definition PARAM_OP : regex :=
  RStart · lit (jq "param(`") · RCap 1 not_quote · lit (jq "`) != nil && param(`") ·
  RCap 2 not_quote · lit (jq "`) ") · RCap 3 (ralts [js ">"; js ">="; js "<"; js "<="]) ·
  lit (js " ") · RCap 4 (RPlus (RChar num_char)) · REnd.
Definition EQUALS : regex :=
  RStart · RCap 1 (ralts [js "param"; js "header"]) · lit (jq "(`") · RCap 2 not_quote ·
  lit (jq "`) == ") · RCap 3 (RPlus (RChar dot_char)) · REnd.

Definition op_mode (op : jsstr) : jsstr :=
  if decide (op = js ">") then MATCH_GT else
  if decide (op = js ">=") then MATCH_GTE else
  if decide (op = js "<") then MATCH_LT else MATCH_LTE.

(** [JSON.parse] of a group that is a string literal; [None] if it throws. *)
Definition contains_condition (src : Source) (path literal : jsstr)
    : option (option RequestCondition) :=
  match JSON_parse literal with
  | Some v => Some (Some (ParamHeaderCondition src path MATCH_CONTAINS (json_to_string v)))
  | None => None
  end.

Definition equals_condition (expr : jsstr) : option RequestCondition :=
  match re_match EQUALS expr with
  | Some m =>
      match parseExprLiteral (group 3 m) with
      | None => None
      | Some v =>
          Some (ParamHeaderCondition
                  (if decide (group 1 m = js "param") then Param else Header)
                  (group 2 m) MATCH_EQ (json_to_string v))
      end
  | None => None
  end.

(** [m && m[1] === m[2]] *)
Definition same_path (m : option (gmap nat jsstr)) : option (gmap nat jsstr) :=
  match m with
  | Some m => if decide (group 1 m = group 2 m) then Some m else None
  | None => None
  end.

Definition tryParseRequestCondition (expr : jsstr) : option (option RequestCondition) :=
  match tryParseTimeCondition expr with
  | Some tc => Some (Some tc)
  | None =>
  match re_match HEADER_EXISTS expr with
  | Some m => Some (Some (ParamHeaderCondition Header (group 1 m) MATCH_EXISTS []))
  | None =>
  match re_match PARAM_EXISTS expr with
  | Some m => Some (Some (ParamHeaderCondition Param (group 1 m) MATCH_EXISTS []))
  | None =>
  match re_match HEADER_HAS expr with
  | Some m => contains_condition Header (group 1 m) (group 2 m)
  | None =>
  match same_path (re_match PARAM_HAS expr) with
  | Some m => contains_condition Param (group 1 m) (group 3 m)
  | None =>
  match same_path (re_match PARAM_OP expr) with
  | Some m => Some (Some (ParamHeaderCondition Param (group 1 m) (op_mode (group 3 m)) (group 4 m)))
  | None => Some (equals_condition expr)
  end end end end end end.

(** ** Parsing rules *)

(** [/^\((.+) \? ([\d.eE+-]+) : 1\)$/s] *)
Definition FACTOR : regex :=
  RStart · lit (js "(") · RCap 1 (RPlus (RChar any_char)) · lit (js " ? ") ·
  RCap 2 (RPlus (RChar num_char)) · lit (js " : 1)") · REnd.

(** A loop over parts that returns [null] at the first part it cannot read. *)
Fixpoint all_parts {A B} (f : A → option (option B)) (l : list A) : option (option (list B)) :=
  match l with
  | [] => Some (Some [])
  | x :: l =>
      match f x with
      | None => None
      | Some None => Some None
      | Some (Some y) =>
          match all_parts f l with Some (Some ys) => Some (Some (y :: ys)) | r => r end
      end
  end.

Definition tryParseRuleGroupFactor (part : jsstr) : option (option RequestRuleGroup) :=
  match re_match FACTOR part with
  | None => Some None
  | Some m =>
      match all_parts (tryParseRequestCondition ∘ trim) (splitTopLevelAnd (group 1 m)) with
      | Some (Some []) => Some None
      | Some (Some conditions) => Some (Some (mkGroup conditions (group 2 m)))
      | Some None => Some None
      | None => None
      end
  end.

Definition tryParseRequestRuleExpr (expr : jsstr) : option (option (list RequestRuleGroup)) :=
  match trim expr with
  | [] => Some (Some [])
  | trimmed => all_parts tryParseRuleGroupFactor (splitTopLevelMultiply trimmed)
  end.

(** ** Taking a price apart and putting it together *)

(** The loop of [hasFullOuterParens]. *)
Fixpoint full_parens (depth : Z) (s : jsstr) : bool :=
  match s with
  | [] => (depth =? 0)%Z
  | c :: s =>
      let depth := paren_depth depth c in
      if (depth =? 0)%Z && nonempty s then false else full_parens depth s
  end.

Definition hasFullOuterParens (expr : jsstr) : bool :=
  if negb (starts_with (js "(") expr) || negb (ends_with (js ")") expr) then false
  else full_parens 0 expr.

(** The [while] loop: [fuel] is the length of the text. *)
Fixpoint unwrap_loop (fuel : nat) (current : jsstr) : jsstr :=
  match fuel with
  | O => current
  | S fuel =>
      if hasFullOuterParens current
      then unwrap_loop fuel (trim (slice 1 (length current - 1) current)) else current
  end.
Definition unwrapOuterParens (expr : jsstr) : jsstr :=
  unwrap_loop (length expr) (trim expr).

(** A part is a rule if it parses to at least one group. *)
Definition is_rule (part : jsstr) : option bool :=
  match tryParseRequestRuleExpr part with
  | Some (Some (_ :: _)) => Some true
  | Some _ => Some false
  | None => None
  end.

(** [parts.forEach(...)]: the rules and the other parts. *)
Fixpoint sort_parts (parts : list jsstr) : option (list jsstr * list jsstr) :=
  match parts with
  | [] => Some ([], [])
  | part :: parts =>
      match is_rule part, sort_parts parts with
      | Some true, Some (rules, bases) => Some (part :: rules, bases)
      | Some false, Some (rules, bases) => Some (rules, part :: bases)
      | _, _ => None
      end
  end.

Record Split := mkSplit { billingExpr : jsstr; requestRuleExpr : jsstr }.

Definition splitBillingExprAndRequestRules (expr : jsstr) : option Split :=
  match trim expr with
  | [] => Some (mkSplit [] [])
  | trimmed =>
      let parts := splitTopLevelMultiply trimmed in
      if (length parts <=? 1)%nat then Some (mkSplit trimmed []) else
      match sort_parts parts with
      | None => None
      | Some ((_ :: _) as ruleParts, [base]) =>
          Some (mkSplit (unwrapOuterParens base) (join (js " * ") ruleParts))
      | Some _ => Some (mkSplit trimmed [])
      end
  end.

Definition combineBillingExpr (baseExpr requestRuleExpr : jsstr) : jsstr :=
  match trim baseExpr, trim requestRuleExpr with
  | [], _ => []
  | base, [] => base
  | base, rules => js "(" ++ base ++ js ") * " ++ rules
  end.

(** ** Building rules *)

Definition createEmptyCondition : RequestCondition := ParamHeaderCondition Param [] MATCH_EQ [].
Definition createEmptyTimeCondition : RequestCondition :=
  TimeCondition (js "hour") (js "Asia/Shanghai") MATCH_GTE [] [] [].
Definition createEmptyRuleGroup : RequestRuleGroup := mkGroup [createEmptyCondition] [].
Definition createEmptyTimeRuleGroup : RequestRuleGroup := mkGroup [createEmptyTimeCondition] [].

(** The values of the options; [source] is [time], [header] or [param]. *)
Definition getRequestRuleMatchOptions (source : option Source) : list jsstr :=
  match source with
  | None => [MATCH_EQ; MATCH_GTE; MATCH_LT; MATCH_RANGE]
  | Some Header => [MATCH_EQ; MATCH_CONTAINS; MATCH_EXISTS]
  | Some Param =>
      [MATCH_EQ; MATCH_CONTAINS; MATCH_EXISTS; MATCH_GT; MATCH_GTE; MATCH_LT; MATCH_LTE]
  end.

Definition isTimeFunc (value : option jsstr) : bool :=
  match value with Some v => bool_decide (v ∈ TIME_FUNCS) | None => false end.

Definition mode_or (options : list jsstr) (mode : option jsstr) (d : jsstr) : jsstr :=
  match mode with Some m => if decide (m ∈ options) then m else d | None => d end.

Definition normalizeCondition (cond : option PartialCondition) : RequestCondition :=
  let get {A} (f : PartialCondition → option A) := match cond with Some c => f c | None => None end in
  if decide (get p_source = Some (js "time")) then
    TimeCondition
      (if isTimeFunc (get p_timeFunc) then opt_or (get p_timeFunc) [] else js "hour")
      (str_or (opt_or (get p_timezone) []) (js "Asia/Shanghai"))
      (mode_or (getRequestRuleMatchOptions None) (get p_mode) MATCH_GTE)
      (opt_or (get p_value) []) (opt_or (get p_rangeStart) []) (opt_or (get p_rangeEnd) [])
  else
    let source := if decide (get p_source = Some (js "header")) then Header else Param in
    ParamHeaderCondition source (opt_or (get p_path) [])
      (mode_or (getRequestRuleMatchOptions (Some source)) (get p_mode) MATCH_EQ)
      (opt_or (get p_value) []).

Definition buildExprLiteral (mode value : jsstr) : jsstr :=
  let text := trim value in
  if decide (mode = MATCH_CONTAINS) then quote text else
  if is_bool_text text then text else
  if numeric text then text else quote text.

Definition time_op (mode : jsstr) : jsstr :=
  if decide (mode = MATCH_EQ) then js "==" else
  if decide (mode = MATCH_GTE) then js ">=" else
  if decide (mode = MATCH_LT) then js "<" else js "==".

Definition time_expr (timeFunc timezone mode value rangeStart rangeEnd : jsstr) : jsstr :=
  let fn := timeFunc ++ js "(" ++ quote timezone ++ js ")" in
  if decide (mode = MATCH_RANGE) then
    let s := trim rangeStart in
    let e := trim rangeEnd in
    if negb (numeric s) || negb (numeric e) then []
    else fn ++ js " >= " ++ s ++ js " || " ++ fn ++ js " < " ++ e
  else
    let v := trim value in
    if negb (numeric v) then [] else fn ++ js " " ++ time_op mode ++ js " " ++ v.

Definition compare_op (mode : jsstr) : option jsstr :=
  if decide (mode = MATCH_GT) then Some (js ">") else
  if decide (mode = MATCH_GTE) then Some (js ">=") else
  if decide (mode = MATCH_LT) then Some (js "<") else
  if decide (mode = MATCH_LTE) then Some (js "<=") else None.

Definition param_header_expr (source : Source) (path mode value : jsstr) : jsstr :=
  match trim path with
  | [] => []
  | path =>
      let sourceExpr :=
        (match source with Header => js "header(" | Param => js "param(" end)
        ++ quote path ++ js ")" in
      if decide (mode = MATCH_EXISTS) then
        sourceExpr ++ (match source with Header => jq " != ``" | Param => js " != nil" end)
      else if decide (mode = MATCH_CONTAINS) then
        let has := js "has(" ++ sourceExpr ++ js ", " ++ buildExprLiteral mode value ++ js ")" in
        match source with Header => has | Param => sourceExpr ++ js " != nil && " ++ has end
      else match compare_op mode with
      | Some op =>
          let numText := trim value in
          if negb (numeric numText) then []
          else sourceExpr ++ js " != nil && " ++ sourceExpr ++ js " " ++ op ++ js " " ++ numText
      | None => sourceExpr ++ js " == " ++ buildExprLiteral mode value
      end
  end.

(** [buildTimeConditionExpr] or the rest of the function. *)
Definition buildRequestConditionExpr (cond : RequestCondition) : jsstr :=
  match normalizeCondition (Some (partial_of cond)) with
  | TimeCondition f tz mode value s e => time_expr f tz mode value s e
  | ParamHeaderCondition source path mode value => param_header_expr source path mode value
  end.

Definition wrap_or (e : jsstr) : jsstr :=
  if includes (js " || ") e then js "(" ++ e ++ js ")" else e.

Definition combine_conditions (condExprs : list jsstr) : jsstr :=
  match condExprs with
  | [e] => e
  | _ => join (js " && ") (map wrap_or condExprs)
  end.

Definition buildRuleGroupFactor (group : RequestRuleGroup) : jsstr :=
  let multiplier := trim (multiplier group) in
  if negb (numeric multiplier) then [] else
  match filter_bool (map buildRequestConditionExpr (conditions group)) with
  | [] => []
  | condExprs => js "(" ++ combine_conditions condExprs ++ js " ? " ++ multiplier ++ js " : 1)"
  end.

Definition buildRequestRuleExpr (groups : list RequestRuleGroup) : jsstr :=
  join (js " * ") (filter_bool (map buildRuleGroupFactor groups)).

(** ** Texts the rules are made of *)

Lemma numeric_chars s : numeric s = true → s ≠ [] ∧ Forall (λ c, num_char c = true) s.
Proof.
  intros Hn. split; [by intros ->|]. unfold numeric, re_test in Hn.
  destruct (re_match _ s) as [m|] eqn:E; [|done].
  apply (re_match_alphabet _ _ _ _ E).
  - intros x Hx. unfold digits in Hx. by re_inv.
  - assert (∀ c, is_digit c = true → num_char c = true) by (intros c Hc; unfold num_char; by rewrite Hc).
    unfold digits, RPlus, ROpt. cbn [alphabet].
    split_and!; try done; first [apply alphabet_lit|apply alphabet_ralts]; by repeat constructor.
Qed.

(** Characters that quoting leaves alone and that mean nothing to the split
    into factors and conditions: no control character, quote, backslash,
    parenthesis, ampersand, bar or line separator, and no half of a surrogate
    pair. *)
Definition plain_char (c : jschar) : bool :=
  (32 <=? c)%N && (c <? 65536)%N && negb (bool_decide (c ∈ [DQ; BSL; 40%N; 41%N; 38%N; 124%N; 8232%N; 8233%N]))
  && negb (is_high_surrogate c) && negb (is_low_surrogate c).
Definition plain (s : jsstr) : Prop := Forall (λ c, plain_char c = true) s.

Lemma plain_char_spec c :
  plain_char c = true →
  (32 <= c < 65536)%N ∧ c ≠ DQ ∧ c ≠ BSL ∧ c ≠ 40%N ∧ c ≠ 41%N ∧ c ≠ 38%N ∧ c ≠ 124%N ∧ c ≠ 8232%N ∧ c ≠ 8233%N ∧
  is_high_surrogate c = false ∧ is_low_surrogate c = false.
Proof.
  unfold plain_char. rewrite !andb_true_iff, !negb_true_iff, bool_decide_eq_false, N.leb_le, N.ltb_lt.
  intros ((((? & ?) & Hn) & ?) & ?). rewrite !not_elem_of_cons in Hn.
  destruct Hn as (?&?&?&?&?&?&?&?&_). split_and!; done.
Qed.

Lemma quote_plain s : plain s → quote s = DQ :: s ++ [DQ].
Proof.
  intros Hs. unfold quote. do 2 f_equal. induction Hs as [|c s Hc Hs IH]; [done|].
  apply plain_char_spec in Hc as (Hr & H1 & H2 & _ & _ & _ & _ & _ & _ & Hh & Hl). cbn [quote_chars].
  rewrite Hh, IH. unfold quote_char. rewrite Hh, Hl.
  repeat (rewrite (proj2 (N.eqb_neq c _)) by (done || lia)).
  by rewrite (proj2 (N.ltb_ge c 32)) by lia.
Qed.

Lemma parse_quote_plain s : plain s → JSON_parse (quote s) = Some (JStr s).
Proof.
  intros Hs. apply (JSON_roundtrip (JStr s)). constructor.
  eapply Forall_impl; [exact Hs|]. intros c Hc%plain_char_spec. by destruct Hc as [[_ ?] _].
Qed.

Lemma plain_not_quote s : plain s → Forall (λ c, not_char DQ c = true) s.
Proof.
  intros Hs. eapply Forall_impl; [exact Hs|]. intros c Hc%plain_char_spec.
  destruct Hc as (_ & Hc & _). unfold not_char. by rewrite (proj2 (N.eqb_neq _ _) Hc).
Qed.

(** ** Splitting at the top level *)

Definition end_depth (d : Z) (t : jsstr) : Z := foldl paren_depth d t.

(** The depth stays positive in the text. *)
Fixpoint above (d : Z) (t : jsstr) : Prop :=
  match t with [] => True | c :: t => (1 <= paren_depth d c)%Z ∧ above (paren_depth d c) t end.

(** The parentheses of the text match. *)
Definition neutral (t : jsstr) : Prop :=
  ∀ d, end_depth d t = d ∧ ((1 <= d)%Z → above d t).

Lemma end_depth_app d t1 t2 : end_depth d (t1 ++ t2) = end_depth (end_depth d t1) t2.
Proof. apply foldl_app. Qed.

Lemma above_app d t1 t2 : above d (t1 ++ t2) ↔ above d t1 ∧ above (end_depth d t1) t2.
Proof. revert d. induction t1 as [|c t1 IH]; intros d; simpl; [naive_solver|]. rewrite IH. naive_solver. Qed.

Lemma neutral_nil : neutral [].
Proof. by split. Qed.

Lemma neutral_app t1 t2 : neutral t1 → neutral t2 → neutral (t1 ++ t2).
Proof.
  intros H1 H2 d. destruct (H1 d) as [E1 A1], (H2 d) as [E2 A2].
  rewrite end_depth_app, above_app, E1, E2. auto.
Qed.

Lemma neutral_paren t : neutral t → neutral (js "(" ++ t ++ js ")").
Proof.
  intros H d. destruct (H (d + 1)%Z) as [E A].
  rewrite !end_depth_app, !above_app. change (end_depth d (js "(")) with (d + 1)%Z.
  rewrite E. unfold end_depth. simpl. unfold paren_depth. simpl. split; [lia|].
  intros Hd. split_and!; try done; try lia. apply A. lia.
Qed.

Definition no_paren (c : jschar) : bool := negb ((c =? 40) || (c =? 41))%N.

Lemma neutral_flat t : Forall (λ c, no_paren c = true) t → neutral t.
Proof.
  intros Ht d. assert (end_depth d t = d ∧ ∀ d', (1 <= d')%Z → above d' t) as [? ?]; [|auto].
  induction Ht as [|c t Hc Ht [IH1 IH2]]; [done|].
  assert (∀ d, paren_depth d c = d) as Hd.
  { intros d'. unfold no_paren in Hc. apply negb_true_iff, orb_false_iff in Hc as [H1 H2].
    unfold paren_depth. by rewrite H1, H2. }
  unfold end_depth in *. simpl. rewrite Hd. split; [done|]. intros d' Hd'. rewrite Hd. auto.
Qed.

Section Split.
Context (sep : jsstr)
  (Hsep : ∀ r cur, split_loop sep (sep ++ r) 0 0 cur = trim (reverse cur) :: split_loop sep r 0 0 []).

(** No separator is seen while the loop goes over [t], with [r] after it. *)
Fixpoint inert (d : Z) (t r : jsstr) : Prop :=
  match t with
  | [] => True
  | c :: t' =>
      (paren_depth d c = 0%Z → starts_with sep (c :: t' ++ r) = false) ∧ inert (paren_depth d c) t' r
  end.

Lemma split_inert d t r cur :
  inert d t r → split_loop sep (t ++ r) 0 d cur = split_loop sep r 0 (end_depth d t) (reverse t ++ cur).
Proof.
  revert d cur. induction t as [|c t IH]; intros d cur; [done|]. intros [H1 H2].
  cbn [app split_loop]. destruct (Z.eqb_spec (paren_depth d c) 0) as [E|E]; cbn [andb].
  - rewrite H1 by done. rewrite IH by done. rewrite reverse_cons, <- app_assoc. done.
  - rewrite IH by done. rewrite reverse_cons, <- app_assoc. done.
Qed.

Lemma inert_app d t1 t2 r :
  inert d t1 (t2 ++ r) → inert (end_depth d t1) t2 r → inert d (t1 ++ t2) r.
Proof.
  revert d. induction t1 as [|c t1 IH]; intros d; simpl; [done|].
  rewrite <- app_assoc. intros [H1 H2] H3. split; [done|]. by apply IH.
Qed.

Lemma inert_above d t r : above d t → inert d t r.
Proof.
  revert d. induction t as [|c t IH]; intros d; simpl; [done|]. intros [H1 H2].
  split; [lia|by apply IH].
Qed.

(** A part that the split gives back. *)
Definition solid (t : jsstr) : Prop :=
  t ≠ [] ∧ trimmed t ∧ end_depth 0 t = 0%Z ∧ ∀ r, inert 0 t r.

Lemma split_join_solid l :
  Forall solid l → filter_bool (split_loop sep (join sep l) 0 0 []) = l.
Proof.
  intros Hl. destruct Hl as [|t l (Hne & Ht & Hd & Hi) Hl]; [done|].
  enough (split_loop sep (join sep (t :: l)) 0 0 [] = t :: l) as ->.
  { apply filter_bool_id. constructor; [done|]. eapply Forall_impl; [exact Hl|]. by intros ? []. }
  revert t Hne Ht Hd Hi. induction Hl as [|t' l (Hne' & Ht' & Hd' & Hi') Hl IH]; intros t Hne Ht Hd Hi.
  - cbn [join]. rewrite <- (app_nil_r t) at 1. rewrite split_inert by done.
    rewrite Hd. cbn [split_loop]. by rewrite app_nil_r, reverse_involutive, Ht.
  - rewrite join_cons, split_inert by done. rewrite Hd, Hsep, app_nil_r, reverse_involutive, Ht.
    f_equal. by apply IH.
Qed.

End Split.

Lemma sep_and r cur :
  split_loop (js " && ") (js " && " ++ r) 0 0 cur = trim (reverse cur) :: split_loop (js " && ") r 0 0 [].
Proof. reflexivity. Qed.

Lemma sep_mul r cur :
  split_loop (js " * ") (js " * " ++ r) 0 0 cur = trim (reverse cur) :: split_loop (js " * ") r 0 0 [].
Proof. reflexivity. Qed.

(** A trimmed text without ampersand whose parentheses match. *)
Lemma solid_and t :
  t ≠ [] → trimmed t → neutral t → Forall (λ c, not_char 38 c = true) t → solid (js " && ") t.
Proof.
  intros Hne Ht Hn Ha. split_and!; [done|done|apply Hn|]. intros r.
  assert (∀ d u, Forall (λ c, not_char 38 c = true) u → (u ≠ [] → last_nws u) →
    inert (js " && ") d u r) as H.
  { clear. intros d u Hu. revert d. induction Hu as [|c u Hc Hu IH]; intros d Hl; [done|].
    split.
    - intros _. specialize (Hl ltac:(done)). destruct u as [|x u].
      + apply (last_nws_snoc []) in Hl. change (js " && ") with [32; 38; 38; 32]%N.
        cbn [starts_with app]. by destruct (N.eqb_spec 32 c); [subst|].
      + apply Forall_cons in Hu as [Hx _]. unfold not_char in Hx. apply negb_true_iff in Hx.
        change (js " && ") with [32; 38; 38; 32]%N. cbn [starts_with app].
        rewrite (N.eqb_sym 38 x), Hx. by destruct (32 =? c)%N.
    - apply IH. intros Hne. apply (last_nws_app [c]); [done|]. by apply Hl. }
  apply H; [done|]. intros _. by apply trimmed_iff in Ht as [].
Qed.

(** A factor is in parentheses. *)
Lemma solid_mul t : neutral t → solid (js " * ") (js "(" ++ t ++ js ")").
Proof.
  intros Hn. destruct (Hn 1%Z) as [E A]. split_and!.
  - done.
  - apply trimmed_iff. split; [done|]. rewrite app_assoc. by apply last_nws_app.
  - apply (neutral_paren t Hn 0%Z).
  - intros r. apply inert_app; [by split; [intros [=]|]|].
    change (end_depth 0 (js "(")) with 1%Z. apply inert_app; [by apply inert_above, A|].
    rewrite E. by split.
Qed.

(** ** Conditions that are read back *)

(** A call [name("w")]. *)
Definition call (name w : jsstr) : jsstr := name ++ jq "(`" ++ w ++ jq "`)".

Lemma call_eq (name w : jsstr) : call name w = name ++ js "(" ++ (DQ :: w ++ [DQ]) ++ js ")".
Proof. unfold call. f_equal. cbn. by rewrite <- app_assoc. Qed.

Definition source_name (src : Source) : jsstr :=
  match src with Header => js "header" | Param => js "param" end.

Definition ok_text (s : jsstr) : Prop := plain s ∧ trimmed s.

(** The conditions of the editor: texts without the characters [plain_char]
    excludes, numbers where a comparison needs one. *)
Inductive editable : RequestCondition → Prop :=
  | ed_time f tz mode v : f ∈ TIME_FUNCS → tz ≠ [] → plain tz →
      mode ∈ [MATCH_EQ; MATCH_GTE; MATCH_LT] → numeric v = true →
      editable (TimeCondition f tz mode v [] [])
  | ed_range f tz s e : f ∈ TIME_FUNCS → tz ≠ [] → plain tz →
      numeric s = true → numeric e = true →
      editable (TimeCondition f tz MATCH_RANGE [] s e)
  | ed_exists src p : p ≠ [] → ok_text p → editable (ParamHeaderCondition src p MATCH_EXISTS [])
  | ed_contains src p v : p ≠ [] → ok_text p → ok_text v →
      editable (ParamHeaderCondition src p MATCH_CONTAINS v)
  | ed_eq src p v : p ≠ [] → ok_text p → ok_text v →
      editable (ParamHeaderCondition src p MATCH_EQ v)
  | ed_compare p mode v : p ≠ [] → ok_text p →
      mode ∈ [MATCH_GT; MATCH_GTE; MATCH_LT; MATCH_LTE] → numeric v = true →
      editable (ParamHeaderCondition Param p mode v).

(** A parameter that is compared with a number or searched for a text is what
    the parser does not read. *)
Definition reads_back (c : RequestCondition) : bool :=
  match c with
  | ParamHeaderCondition Param _ mode _ => bool_decide (mode ∈ [MATCH_EQ; MATCH_EXISTS])
  | _ => true
  end.

Lemma num_char_facts c :
  num_char c = true → is_ws c = false ∧ no_paren c = true ∧ not_char 38 c = true ∧ not_char 124 c = true.
Proof.
  unfold num_char. intros [Hd|Hb%bool_decide_eq_true]%orb_true_iff.
  - unfold is_digit in Hd. apply andb_true_iff in Hd as [?%N.leb_le ?%N.leb_le].
    assert (c = 48 ∨ c = 49 ∨ c = 50 ∨ c = 51 ∨ c = 52 ∨ c = 53 ∨ c = 54 ∨ c = 55 ∨ c = 56 ∨ c = 57)%N
      by lia. by destruct_or!; subst.
  - repeat (apply elem_of_cons in Hb as [->|Hb]; [done|]). by apply not_elem_of_nil in Hb.
Qed.

Lemma numeric_trimmed s : numeric s = true → trimmed s.
Proof.
  intros [_ Hs]%numeric_chars. apply trimmed_no_ws. eapply Forall_impl; [exact Hs|].
  by intros c [? _]%num_char_facts.
Qed.

Lemma numeric_nonempty s : numeric s = true → s ≠ [].
Proof. by intros []%numeric_chars. Qed.

(** What a condition is built as. *)
Lemma build_time f tz mode v :
  f ∈ TIME_FUNCS → tz ≠ [] → plain tz → mode ∈ [MATCH_EQ; MATCH_GTE; MATCH_LT] → numeric v = true →
  buildRequestConditionExpr (TimeCondition f tz mode v [] []) =
  call f tz ++ js " " ++ time_op mode ++ js " " ++ v.
Proof.
  intros Hf Htz Hp Hm Hv. unfold buildRequestConditionExpr, normalizeCondition. cbn [partial_of p_source].
  rewrite decide_True by done. cbn [p_timeFunc p_timezone p_mode p_value p_rangeStart p_rangeEnd isTimeFunc opt_or].
  rewrite bool_decide_eq_true_2 by done. unfold mode_or.
  rewrite decide_True by (cbn; set_solver). replace (str_or tz _) with tz by (by destruct tz).
  unfold time_expr. rewrite decide_False
    by (intros ->; repeat (apply elem_of_cons in Hm as [Hm|Hm]; [done|]); by apply not_elem_of_nil in Hm).
  rewrite numeric_trimmed, Hv by done. cbn [negb]. rewrite quote_plain by done.
  by rewrite !call_eq, <- !app_assoc.
Qed.

Lemma build_range f tz s e :
  f ∈ TIME_FUNCS → tz ≠ [] → plain tz → numeric s = true → numeric e = true →
  buildRequestConditionExpr (TimeCondition f tz MATCH_RANGE [] s e) =
  call f tz ++ js " >= " ++ s ++ js " || " ++ call f tz ++ js " < " ++ e.
Proof.
  intros Hf Htz Hp Hs He. unfold buildRequestConditionExpr, normalizeCondition. cbn [partial_of p_source].
  rewrite decide_True by done. cbn [p_timeFunc p_timezone p_mode p_value p_rangeStart p_rangeEnd isTimeFunc opt_or].
  rewrite bool_decide_eq_true_2 by done. replace (str_or tz _) with tz by (by destruct tz).
  unfold time_expr. rewrite decide_True by done. rewrite !numeric_trimmed, Hs, He by done. cbn [orb negb].
  rewrite quote_plain by done. by rewrite !call_eq, <- !app_assoc.
Qed.

Lemma build_ph src p mode v :
  p ≠ [] → ok_text p → mode ∈ getRequestRuleMatchOptions (Some src) →
  buildRequestConditionExpr (ParamHeaderCondition src p mode v) =
  let sourceExpr := call (source_name src) p in
  if decide (mode = MATCH_EXISTS) then
    sourceExpr ++ (match src with Header => jq " != ``" | Param => js " != nil" end)
  else if decide (mode = MATCH_CONTAINS) then
    let has := js "has(" ++ sourceExpr ++ js ", " ++ buildExprLiteral mode v ++ js ")" in
    match src with Header => has | Param => sourceExpr ++ js " != nil && " ++ has end
  else match compare_op mode with
  | Some op =>
      if negb (numeric (trim v)) then []
      else sourceExpr ++ js " != nil && " ++ sourceExpr ++ js " " ++ op ++ js " " ++ trim v
  | None => sourceExpr ++ js " == " ++ buildExprLiteral mode v
  end.
Proof.
  intros Hne [Hp Ht] Hm. unfold buildRequestConditionExpr.
  assert (normalizeCondition (Some (partial_of (ParamHeaderCondition src p mode v))) =
    ParamHeaderCondition src p mode v) as ->.
  { unfold normalizeCondition, mode_or. destruct src; cbn [partial_of p_source p_path p_mode p_value];
      rewrite decide_False by done; cbv zeta; [rewrite decide_False by done|rewrite decide_True by done];
      by rewrite decide_True. }
  unfold param_header_expr. rewrite Ht. destruct p as [|c p]; [done|].
  set (p' := c :: p) in *. rewrite quote_plain by done.
  assert (call (source_name src) p' =
    (match src with Header => js "header(" | Param => js "param(" end) ++ (DQ :: p' ++ [DQ]) ++ js ")") as ->.
  { rewrite call_eq. by destruct src. }
  done.
Qed.

End Rules.
