(* ===== verification/RuleReading.v ===== *)
(** * Price expressions: what the editor builds is read back

    The correctness of the request rules of [BillingExpr]: each condition the
    editor can build is matched against the regular expressions of the parser,
    then groups, products of groups and whole prices are put together and
    taken apart. *)
From S2P Require Import Prelude JSString JSNumber JSON Regex BillingExpr.
Import Vars Rules.
Local Open Scope re_scope.

Module RuleReading.

(** One goal for each element of a list written out. *)
Ltac mem_cases H :=
  repeat (apply elem_of_cons in H as [->|H]); try (by apply not_elem_of_nil in H).

Lemma elem_of_TIME_FUNCS f :
  f ∈ TIME_FUNCS → f = js "hour" ∨ f = js "minute" ∨ f = js "weekday" ∨ f = js "month" ∨ f = js "day".
Proof.
  intros H. repeat (apply elem_of_cons in H as [->|H]; [by auto 6|]). by apply not_elem_of_nil in H.
Qed.

Lemma time_none (s : jsstr) :
  (∀ f t, f ∈ TIME_FUNCS → s ≠ f ++ t) → (∀ t, s ≠ js "(" ++ t) → tryParseTimeCondition s = None.
Proof.
  intros Hf Hp. unfold tryParseTimeCondition, TIME_RANGE_REGEX, TIME_PAREN_REGEX, TIME_OP_REGEX.
  rewrite !re_match_None; [done|..]; intros x Hx; unfold TIME_RANGE, time_call in Hx.
  - apply elem_of_seq in Hx as (y & Hy & _). re_inv. by eapply Hf.
  - apply elem_of_seq in Hx as (y & Hy & _). re_inv. by eapply Hp.
  - apply elem_of_seq in Hx as (y & Hy & _). re_inv. by eapply Hf.
Qed.

(** A call that is no time function is no time condition. *)
Lemma time_none_call (name t : jsstr) :
  name ∈ [js "header"; js "param"; js "has"] → tryParseTimeCondition (name ++ js "(" ++ t) = None.
Proof.
  intros Hn. apply time_none.
  - intros f u Hf E. apply elem_of_TIME_FUNCS in Hf.
    repeat (apply elem_of_cons in Hn as [->|Hn];
      [destruct_or! Hf; subst f; cbn in E; discriminate E|]). by apply not_elem_of_nil in Hn.
  - intros u E.
    repeat (apply elem_of_cons in Hn as [->|Hn]; [cbn in E; discriminate E|]). by apply not_elem_of_nil in Hn.
Qed.

Lemma not_quote_DQ : not_char DQ DQ = false.
Proof. done. Qed.

(** Cuts equal texts at the first quote. *)
Ltac cut_quote :=
  match goal with
  | E : ?w1 ++ ?t1 = ?w2 ++ ?t2,
    H1 : Forall (λ c, not_char DQ c = true) ?w1, H2 : Forall (λ c, not_char DQ c = true) ?w2 |- _ =>
      apply (cut_class (not_char DQ) _ _ DQ DQ) in E as (E & _ & ?); [|done..]; cbn in E
  end.

Lemma call_quote (name w t : jsstr) :
  call name w ++ t = name ++ jq "(`" ++ w ++ DQ :: 41%N :: t.
Proof. unfold call. by rewrite <- !app_assoc. Qed.

Lemma time_func_flat f : f ∈ TIME_FUNCS → Forall (λ c, no_paren c = true) f.
Proof. intros Hf%elem_of_TIME_FUNCS. by destruct_or! Hf; subst f; repeat constructor. Qed.

(** What follows the quoted text of a call. *)
Lemma quoted_inv n k u p w t m x :
  Forall (λ c, not_char DQ c = true) w →
  x ∈ matches (RCap n not_quote · lit (DQ :: u) · k) (mkSt p (w ++ DQ :: t) m) →
  ∃ p' t', t = u ++ t' ∧ x ∈ matches k (mkSt p' t' (<[n := w]> m)).
Proof.
  intros Hw Hx. unfold not_quote in Hx. re_inv. cbn [lit app] in *. subst.
  match goal with E : w ++ _ = _ ++ _ |- _ =>
    apply (cut_class (not_char DQ)) in E as (-> & _ & ->); [|done..] end.
  eauto.
Qed.

Lemma quoted_can n k u w t m :
  w ≠ [] → Forall (λ c, not_char DQ c = true) w → can k t (<[n := w]> m) →
  can (RCap n not_quote · lit (DQ :: u) · k) (w ++ DQ :: u ++ t) m.
Proof.
  intros Hne Hw Hk. apply can_cap_plus; [done|done|]. by apply (can_lit (DQ :: u)).
Qed.

Lemma time_call_inv k p f tz t m x :
  f ∈ TIME_FUNCS → Forall (λ c, not_char DQ c = true) tz →
  x ∈ matches (time_call (RCap 1 (ralts TIME_FUNCS)) (RCap 2 not_quote) k)
        (mkSt p (call f tz ++ t) m) →
  ∃ p', x ∈ matches k (mkSt p' t (<[2 := tz]> (<[1 := f]> m))).
Proof.
  intros Hf Htz Hx. rewrite call_quote in Hx. unfold time_call, not_quote in Hx. re_inv. subst.
  match goal with E : f ++ _ = _ ++ _ |- _ =>
    cbn in E; apply (cut_class no_paren) in E as (<- & _ & E); [|by apply time_func_flat..|done|done];
    injection E as E; apply (cut_class (not_char DQ)) in E as (<- & _ & E); [|done..];
    injection E as <- end.
  eauto.
Qed.

Lemma time_call_can k f tz t m :
  f ∈ TIME_FUNCS → tz ≠ [] → Forall (λ c, not_char DQ c = true) tz →
  can k t (<[2 := tz]> (<[1 := f]> m)) →
  can (time_call (RCap 1 (ralts TIME_FUNCS)) (RCap 2 not_quote) k) (call f tz ++ t) m.
Proof.
  intros Hf Hne Htz Hk. rewrite call_quote. unfold time_call.
  apply can_cap_ralts; [done|]. apply can_lit. by apply (quoted_can 2 k [41%N]).
Qed.

Lemma parse_time f tz op v :
  f ∈ TIME_FUNCS → tz ≠ [] → plain tz → op ∈ [js "=="; js ">="; js "<"] → numeric v = true →
  tryParseTimeCondition (call f tz ++ js " " ++ op ++ js " " ++ v) =
  Some (TimeCondition f tz (time_mode op) v [] []).
Proof.
  intros Hf Hne Hp%plain_not_quote Ho [Hv Hv']%numeric_chars. unfold tryParseTimeCondition.
  unfold TIME_RANGE_REGEX. rewrite re_match_None.
  2:{ intros x Hx. unfold TIME_RANGE in Hx. apply time_call_inv in Hx as (p & Hx); [|done..].
      unfold time_call, not_quote in Hx. re_inv. subst.
      match goal with E : _ = js " >= " ++ _ |- _ =>
        repeat (apply elem_of_cons in Ho as [->|Ho]; [cbn in E; discriminate E || injection E as E;
          by eapply (cut_class_end num_char) in E|]) end.
      by apply not_elem_of_nil in Ho. }
  unfold TIME_PAREN_REGEX. rewrite re_match_None.
  2:{ intros x Hx. apply elem_of_seq in Hx as (y & Hy & _). re_inv.
      apply elem_of_TIME_FUNCS in Hf. destruct_or! Hf; subst f; cbn in *; simplify_eq. }
  unfold TIME_OP_REGEX.
  rewrite (re_match_Some _ _ (<[4 := v]> (<[3 := op]> (<[2 := tz]> (<[1 := f]> ∅))))).
  - unfold group. rewrite !lookup_insert_eq. by simplify_map_eq.
  - apply time_call_can; [done..|]. apply can_lit. apply can_cap_ralts; [done|]. apply can_lit.
    rewrite <- (app_nil_r v) at 1. apply can_cap_plus; [done|done|apply can_end].
  - intros x Hx. apply time_call_inv in Hx as (p & Hx); [|done..]. re_inv. subst.
    match goal with E : js " " ++ op ++ _ = _, Hw : ?w ∈ [js "=="; js ">="; js "<"] |- _ =>
      mem_cases Ho; mem_cases Hw; cbn in E; try discriminate E; injection E as E end.
    all: rewrite app_nil_r in *; by subst.
Qed.

Definition range_caps (f tz s e : jsstr) : gmap nat jsstr :=
  <[4 := e]> (<[3 := s]> (<[2 := tz]> (<[1 := f]> ∅))).

Definition range_text (f tz s e : jsstr) : jsstr :=
  call f tz ++ js " >= " ++ s ++ js " || " ++ call f tz ++ js " < " ++ e.

Section Range.
Context (f tz s e : jsstr) (Hf : f ∈ TIME_FUNCS) (Hne : tz ≠ [])
  (Hp : Forall (λ c, not_char DQ c = true) tz)
  (Hs : s ≠ []) (Hs' : Forall (λ c, num_char c = true) s)
  (He : e ≠ []) (He' : Forall (λ c, num_char c = true) e).

Lemma range_inv k p r x :
  x ∈ matches (TIME_RANGE k) (mkSt p (range_text f tz s e ++ r) ∅) →
  ∃ p' w t, e ++ r = w ++ t ∧ Forall (λ c, num_char c = true) w ∧
    x ∈ matches k (mkSt p' t (range_caps f tz s w)).
Proof.
  intros Hx. unfold range_text in Hx. rewrite <- !app_assoc in Hx.
  unfold TIME_RANGE in Hx. apply time_call_inv in Hx as (p1 & Hx); [|done..].
  unfold time_call, not_quote in Hx. re_inv. subst.
  match goal with E : js " >= " ++ _ = _ |- _ => rewrite !call_quote in E; cbn in E;
    injection E as E; apply (cut_class num_char) in E as (<- & _ & E); [|done..];
    injection E as E; 
    apply app_inv_head in E; injection E as E; apply app_inv_head in E; injection E as E end.
  unfold range_caps. eauto 10.
Qed.

Lemma range_can k r :
  can k r (range_caps f tz s e) → can (TIME_RANGE k) (range_text f tz s e ++ r) ∅.
Proof.
  intros Hk. unfold range_text. rewrite <- !app_assoc. unfold TIME_RANGE.
  apply time_call_can; [done..|]. apply can_lit. apply can_cap_plus; [done..|]. apply can_lit.
  rewrite call_quote. unfold time_call. apply can_back; [by simplify_map_eq|]. apply can_lit.
  apply can_back; [by simplify_map_eq|]. apply (can_lit (jq "`)")). apply can_lit.
  by apply can_cap_plus.
Qed.

Lemma parse_range : tryParseTimeCondition (range_text f tz s e) = Some (TimeCondition f tz MATCH_RANGE [] s e).
Proof.
  unfold tryParseTimeCondition, TIME_RANGE_REGEX.
  rewrite (re_match_Some _ _ (range_caps f tz s e)).
  - unfold range_of, group, range_caps. by simplify_map_eq.
  - rewrite <- (app_nil_r (range_text f tz s e)). apply range_can, can_end.
  - intros x Hx. rewrite <- (app_nil_r (range_text f tz s e)) in Hx.
    apply range_inv in Hx as (p & w & t & E & _ & Hx). re_inv. subst. rewrite !app_nil_r in E. by subst.
Qed.

Lemma parse_range_paren :
  tryParseTimeCondition (js "(" ++ range_text f tz s e ++ js ")") =
  Some (TimeCondition f tz MATCH_RANGE [] s e).
Proof.
  unfold tryParseTimeCondition, TIME_RANGE_REGEX, TIME_PAREN_REGEX. rewrite re_match_None.
  2:{ intros x Hx. unfold TIME_RANGE, time_call in Hx. apply elem_of_seq in Hx as (y & Hy & _). re_inv.
      match goal with Hw : _ ∈ TIME_FUNCS, E : _ = _ ++ _ |- _ =>
        apply elem_of_TIME_FUNCS in Hw; destruct_or! Hw; subst; discriminate E end. }
  rewrite (re_match_Some _ _ (range_caps f tz s e)).
  - unfold range_of, group, range_caps. by simplify_map_eq.
  - apply can_lit, range_can. apply (can_lit (js ")")), can_end.
  - intros x Hx. apply elem_of_seq in Hx as (y & Hy & Hx). apply in_lit in Hy as (u & E & ->).
    apply app_inv_head in E as <-. apply range_inv in Hx as (p & w & t & E & Hw & Hx). re_inv. subst.
    apply (cut_class num_char) in E as (<- & _ & _); done.
Qed.

End Range.

(** *** Parameters and headers *)

Lemma in_string_body p v t m :
  plain v →
  ∃ p', mkSt p' t m ∈ matches
    (RStar (RAlt (RChar (λ c, not_char DQ c && not_char BSL c)) (lit [BSL] · RChar dot_char)))
    (mkSt p (v ++ t) m).
Proof.
  intros Hv. revert p. induction Hv as [|c v Hc Hv IH]; intros p; [exists p; apply in_star_end|].
  destruct (IH (c :: p)) as [p' Hp]. exists p'. eapply in_star_step, Hp.
  - apply elem_of_alt. left. apply in_char. exists c, (v ++ t). split_and!; [done| |done].
    apply plain_char_spec in Hc as (_ & H1 & H2 & _). unfold not_char.
    by rewrite (proj2 (N.eqb_neq _ _) H1), (proj2 (N.eqb_neq _ _) H2).
  - simpl. lia.
Qed.

Lemma can_string n r v t m :
  plain v → can r t (<[n := quote v]> m) → can (RCap n string_literal · r) (quote v ++ t) m.
Proof.
  intros Hv Hr. apply can_cap; [|done]. intros p. rewrite quote_plain by done. unfold string_literal.
  destruct (in_string_body (reverse [DQ] ++ p) v ([DQ] ++ t) m Hv) as [p' Hp].
  exists (reverse [DQ] ++ p'). apply elem_of_seq. eexists. split; [apply in_lit; exists (v ++ DQ :: t)|].
  - split; [|reflexivity]. cbn. by rewrite <- app_assoc.
  - apply elem_of_seq. exists (mkSt p' ([DQ] ++ t) m). split; [exact Hp|]. apply in_lit. eauto.
Qed.

Lemma string_inv n k p s m x :
  x ∈ matches (RCap n string_literal · k) (mkSt p s m) →
  ∃ p' w t, s = w ++ t ∧ x ∈ matches k (mkSt p' t (<[n := w]> m)).
Proof.
  intros (y & (p' & t & m' & w & Hy & -> & ->)%elem_of_cap & Hx)%elem_of_seq.
  assert (m' = m) as ->.
  { unfold string_literal in Hy. apply elem_of_seq in Hy as (y1 & Hy1 & Hy).
    apply in_lit in Hy1 as (t1 & _ & ->). apply elem_of_seq in Hy as ([p2 t2 m2] & Hy2 & Hy).
    apply in_lit in Hy as (t3 & _ & [= _ _ ->]).
    clear -Hy2. cbn [matches rest] in Hy2. revert Hy2. generalize (length t1) at 1 as n. intros n.
    generalize (reverse [DQ] ++ p) as p0. revert t1. induction n as [|n IH]; intros t1 p0; cbn [star].
    { by intros [= _ _ ->]%list_elem_of_singleton. }
    rewrite elem_of_app, list_elem_of_singleton, elem_of_concat.
    intros [(l & (st1 & -> & H1)%list_elem_of_fmap & H2)|[= _ _ ->]]; [|done].
    destruct (_ <? _)%nat; [|by apply not_elem_of_nil in H2].
    assert (st1 ∈ matches (RAlt (RChar (λ c, not_char DQ c && not_char BSL c)) (lit [BSL] · RChar dot_char))
      (mkSt p0 t1 m)) as H1' by exact H1. clear H1. re_inv; by eapply IH. }
  eauto 10.
Qed.

(** Refutes a match by the literals it would need. *)
Ltac no_match :=
  apply re_match_None; intros x Hx; unfold not_quote in Hx;
  let y := fresh "y" in
  re_inv; subst; unfold call, source_name in *;
  try match goal with H : _ ∈ [js "param"; js "header"] |- _ => mem_cases H end;
  repeat match goal with
  | E : _ = _ ++ _ |- _ =>
      cbn in E; first
        [ discriminate E
        | injection E as E; repeat rewrite <- app_assoc in E;
          apply (cut_class (not_char DQ)) in E as (_ & _ & E);
            [cbn in E; discriminate E|by apply plain_not_quote|done|done|done] ]
  end.

Section ParamHeader.
Context (p : jsstr) (Hne : p ≠ []) (Hp : plain p).

Lemma time_none_source src (t : jsstr) : tryParseTimeCondition (call (source_name src) p ++ t) = None.
Proof. rewrite call_eq, <- !app_assoc. apply time_none_call. destruct src; cbn; set_solver. Qed.

Lemma time_none_has (t : jsstr) : tryParseTimeCondition (js "has(" ++ t) = None.
Proof. apply (time_none_call (js "has")). set_solver. Qed.

Lemma read_header_exists :
  tryParseRequestCondition (call (js "header") p ++ jq " != ``") =
  Some (Some (ParamHeaderCondition Header p MATCH_EXISTS [])).
Proof.
  unfold tryParseRequestCondition. rewrite (time_none_source Header). unfold HEADER_EXISTS.
  rewrite (re_match_Some _ _ (<[1 := p]> ∅)).
  - unfold group. by simplify_map_eq.
  - rewrite call_quote. apply (can_lit (jq "header(`")).
    by apply (quoted_can 1 REnd (drop 1 (jq "`) != ``")) p []), can_end; [|apply plain_not_quote].
  - intros x Hx. unfold not_quote in Hx. re_inv. subst. unfold call in *.
    match goal with E : _ = _ ++ _ |- _ => cbn in E; injection E as E; rewrite <- ?app_assoc in E;
      apply (cut_class (not_char DQ)) in E as (-> & _ & _) end; [done|by apply plain_not_quote|done..].
Qed.

Lemma read_param_exists :
  tryParseRequestCondition (call (js "param") p ++ js " != nil") =
  Some (Some (ParamHeaderCondition Param p MATCH_EXISTS [])).
Proof.
  unfold tryParseRequestCondition. rewrite (time_none_source Param).
  assert (re_match HEADER_EXISTS (call (js "param") p ++ js " != nil") = None) as ->
    by (unfold HEADER_EXISTS; no_match).
  unfold PARAM_EXISTS. rewrite (re_match_Some _ _ (<[1 := p]> ∅)).
  - unfold group. by simplify_map_eq.
  - rewrite call_quote. apply (can_lit (jq "param(`")).
    by apply (quoted_can 1 REnd (drop 1 (jq "`) != nil")) p []), can_end; [|apply plain_not_quote].
  - intros x Hx. unfold not_quote in Hx. re_inv. subst. unfold call in *.
    match goal with E : _ = _ ++ _ |- _ => cbn in E; injection E as E; rewrite <- ?app_assoc in E;
      apply (cut_class (not_char DQ)) in E as (-> & _ & _) end; [done|by apply plain_not_quote|done..].
Qed.

Lemma read_header_contains v :
  plain v →
  tryParseRequestCondition (js "has(" ++ call (js "header") p ++ js ", " ++ quote v ++ js ")") =
  Some (Some (ParamHeaderCondition Header p MATCH_CONTAINS v)).
Proof.
  intros Hv. unfold tryParseRequestCondition. rewrite time_none_has.
  assert (re_match HEADER_EXISTS (js "has(" ++ call (js "header") p ++ js ", " ++ quote v ++ js ")") = None)
    as -> by (unfold HEADER_EXISTS; no_match).
  assert (re_match PARAM_EXISTS (js "has(" ++ call (js "header") p ++ js ", " ++ quote v ++ js ")") = None)
    as -> by (unfold PARAM_EXISTS; no_match).
  unfold HEADER_HAS. rewrite (re_match_Some _ _ (<[2 := quote v]> (<[1 := p]> ∅))).
  - unfold group, contains_condition. simplify_map_eq. by rewrite parse_quote_plain.
  - rewrite call_quote. apply (can_lit (jq "has(header(`")).
    apply (quoted_can 1 _ (drop 1 (jq "`), ")) p (quote v ++ js ")")); [done|by apply plain_not_quote|].
    apply can_string; [done|]. apply (can_lit (js ")") REnd []), can_end.
  - intros x Hx. apply elem_of_seq in Hx as (y & Hy & Hx). apply in_lit in Hy as (t & Et & ->).
    rewrite call_quote in Et. cbn in Et. injection Et as <-.
    apply quoted_inv in Hx as (p' & t' & [= <-] & Hx); [|by apply plain_not_quote].
    apply string_inv in Hx as (p2 & w & t2 & E & Hx). re_inv. subst.
    by apply (app_inv_tail (js ")") (quote v) w) in E as <-.
Qed.

Lemma read_param_op_none op v :
  op ∈ [js ">"; js ">="; js "<"; js "<="] →
  tryParseRequestCondition (call (js "param") p ++ js " " ++ op ++ js " " ++ v) = Some None.
Proof.
  intros Ho. unfold tryParseRequestCondition. rewrite (time_none_source Param).
  assert (∀ R, R ∈ [HEADER_EXISTS; PARAM_EXISTS; HEADER_HAS; PARAM_HAS; PARAM_OP; EQUALS] →
    re_match R (call (js "param") p ++ js " " ++ op ++ js " " ++ v) = None) as Hn.
  { intros R HR. mem_cases Ho; mem_cases HR;
      unfold HEADER_EXISTS, PARAM_EXISTS, HEADER_HAS, PARAM_HAS, PARAM_OP, EQUALS; no_match. }
  rewrite !Hn by set_solver. cbn [same_path]. unfold equals_condition. by rewrite Hn by set_solver.
Qed.

Lemma read_param_has_none v :
  tryParseRequestCondition (js "has(" ++ call (js "param") p ++ js ", " ++ quote v ++ js ")") = Some None.
Proof.
  unfold tryParseRequestCondition. rewrite time_none_has.
  assert (∀ R, R ∈ [HEADER_EXISTS; PARAM_EXISTS; HEADER_HAS; PARAM_HAS; PARAM_OP; EQUALS] →
    re_match R (js "has(" ++ call (js "param") p ++ js ", " ++ quote v ++ js ")") = None) as Hn.
  { intros R HR. mem_cases HR;
      unfold HEADER_EXISTS, PARAM_EXISTS, HEADER_HAS, PARAM_HAS, PARAM_OP, EQUALS; no_match. }
  rewrite !Hn by set_solver. cbn [same_path]. unfold equals_condition. by rewrite Hn by set_solver.
Qed.

Lemma read_equals src literal v :
  literal ≠ [] → Forall (λ c, dot_char c = true) literal → parseExprLiteral literal = Some (JStr v) →
  tryParseRequestCondition (call (source_name src) p ++ js " == " ++ literal) =
  Some (Some (ParamHeaderCondition src p MATCH_EQ v)).
Proof.
  intros Hl Hd Hv. unfold tryParseRequestCondition. rewrite time_none_source.
  assert (∀ R, R ∈ [HEADER_EXISTS; PARAM_EXISTS; HEADER_HAS; PARAM_HAS; PARAM_OP] →
    re_match R (call (source_name src) p ++ js " == " ++ literal) = None) as Hn.
  { intros R HR. destruct src; mem_cases HR;
      unfold HEADER_EXISTS, PARAM_EXISTS, HEADER_HAS, PARAM_HAS, PARAM_OP; no_match. }
  rewrite !Hn by set_solver. cbn [same_path]. unfold equals_condition, EQUALS.
  rewrite (re_match_Some _ _ (<[3 := literal]> (<[2 := p]> (<[1 := source_name src]> ∅)))).
  - unfold group. simplify_map_eq. by destruct src.
  - rewrite call_quote. apply can_cap_ralts; [destruct src; cbn; set_solver|]. apply can_lit.
    apply (quoted_can 2 _ (drop 1 (jq "`) == ")) p literal); [done|by apply plain_not_quote|].
    rewrite <- (app_nil_r literal) at 1. apply can_cap_plus; [done|done|apply can_end].
  - clear Hn. intros x Hx. unfold not_quote in Hx. re_inv. subst. unfold call, source_name in *.
    match goal with H : _ ∈ [js "param"; js "header"] |- _ => mem_cases H end; destruct src;
      match goal with E : _ = js _ ++ _ |- _ =>
        cbn in E; try discriminate E; injection E as E; rewrite <- ?app_assoc in E end.
    all: match goal with E : p ++ _ = _ |- _ =>
      apply (cut_class (not_char DQ)) in E as (-> & _ & E); [|by apply plain_not_quote|done..];
      injection E; intros; clear E end.
    all: match goal with E : _ = _ ++ [] |- _ => rewrite app_nil_r in E; by subst end.
Qed.
End ParamHeader.

(** ** The text of a condition *)

Definition calm (c : jschar) : bool := not_char 38 c && not_char 124 c.

Lemma plain_calm s : plain s → Forall (λ c, calm c = true) s ∧ Forall (λ c, no_paren c = true) s.
Proof.
  intros Hs. split; eapply Forall_impl; try exact Hs; intros c Hc%plain_char_spec;
    destruct Hc as (_ & _ & _ & H1 & H2 & H3 & H4 & _).
  - unfold calm, not_char. by rewrite (proj2 (N.eqb_neq _ _) H3), (proj2 (N.eqb_neq _ _) H4).
  - unfold no_paren. by rewrite (proj2 (N.eqb_neq _ _) H1), (proj2 (N.eqb_neq _ _) H2).
Qed.

Lemma numeric_calm s :
  numeric s = true → Forall (λ c, calm c = true) s ∧ Forall (λ c, no_paren c = true) s.
Proof.
  intros [_ Hs]%numeric_chars. split; eapply Forall_impl; try exact Hs;
    intros c (_ & H1 & H2 & H3)%num_char_facts; [|done].
  unfold calm. by rewrite H2, H3.
Qed.

Lemma call_calm name p :
  Forall (λ c, calm c = true) name → Forall (λ c, no_paren c = true) name → plain p →
  Forall (λ c, calm c = true) (call name p) ∧ neutral (call name p).
Proof.
  intros Hn Hn' [Hp Hp']%plain_calm. split.
  - unfold call. rewrite !Forall_app. split_and!; try done; by repeat constructor.
  - rewrite call_eq. apply neutral_app; [by apply neutral_flat|]. apply neutral_paren, neutral_flat.
    constructor; [done|]. apply Forall_app. split; [done|by repeat constructor].
Qed.

Lemma source_name_calm src :
  Forall (λ c, calm c = true) (source_name src) ∧ Forall (λ c, no_paren c = true) (source_name src).
Proof. destruct src; split; by repeat constructor. Qed.

Lemma time_func_calm f : f ∈ TIME_FUNCS → Forall (λ c, calm c = true) f.
Proof. intros Hf%elem_of_TIME_FUNCS. by destruct_or! Hf; subst f; repeat constructor. Qed.

(** What a part of a condition needs for the split: no ampersand, matching
    parentheses, no space at its ends. *)
Record part_ok (t : jsstr) : Prop := {
  part_ne : t ≠ [];
  part_trim : trimmed t;
  part_neutral : neutral t;
  part_calm : Forall (λ c, not_char 38 c = true) t;
}.

Lemma part_solid t : part_ok t → solid (js " && ") t.
Proof. intros []. by apply solid_and. Qed.

Lemma calm_and t : Forall (λ c, calm c = true) t → Forall (λ c, not_char 38 c = true) t.
Proof. intros Ht. eapply Forall_impl; [exact Ht|]. unfold calm. intros c ?. by bool_hyps. Qed.


Lemma no_bar_wrap t : Forall (λ c, not_char 124 c = true) t → wrap_or t = t.
Proof.
  intros Ht. unfold wrap_or. destruct (includes (js " || ") t) eqn:E; [|done].
  apply includes_spec in E as (s1 & s2 & ->). rewrite !Forall_app in Ht.
  destruct Ht as (_ & Ht & _). apply Forall_cons in Ht as [_ Ht]. by apply Forall_cons in Ht as [Ht _].
Qed.

Lemma calm_bar t : Forall (λ c, calm c = true) t → Forall (λ c, not_char 124 c = true) t.
Proof. intros Ht. eapply Forall_impl; [exact Ht|]. unfold calm. intros c ?. by bool_hyps. Qed.

Lemma calm_wrap t : Forall (λ c, calm c = true) t → wrap_or t = t.
Proof. intros Ht. by apply no_bar_wrap, calm_bar. Qed.

(** A call followed by something that does not end in a space. *)
Lemma part_call src p t :
  plain p → t ≠ [] → last_nws t → neutral t → Forall (λ c, calm c = true) t →
  part_ok (call (source_name src) p ++ t).
Proof.
  intros Hp Hne Hl Hn Hc. destruct (source_name_calm src) as [S1 S2].
  destruct (call_calm _ _ S1 S2 Hp) as [C1 C2]. split.
  - by destruct src.
  - apply trimmed_iff. split; [by destruct src|by apply last_nws_app].
  - by apply neutral_app.
  - apply calm_and, Forall_app. done.
Qed.

(** The literal of a comparison for equality. *)
Lemma literal_spec v :
  ok_text v →
  let L := buildExprLiteral MATCH_EQ v in
  L ≠ [] ∧ last_nws L ∧ Forall (λ c, calm c = true) L ∧ neutral L ∧
  Forall (λ c, dot_char c = true) L ∧ parseExprLiteral L = Some (JStr v).
Proof.
  intros [Hp Ht]. destruct (plain_calm _ Hp) as [C1 C2]. unfold buildExprLiteral, parseExprLiteral.
  rewrite decide_False, Ht by done.
  assert (Forall (λ c, dot_char c = true) v) as Hd.
  { eapply Forall_impl; [exact Hp|]. intros c Hc%plain_char_spec.
    destruct Hc as ([H32 _] & _ & _ & _ & _ & _ & _ & H1 & H2 & _). unfold dot_char.
    apply negb_true_iff. rewrite !orb_false_iff, !N.eqb_neq. split_and!; try done; lia. }
  destruct (is_bool_text v) eqn:Eb; [|destruct (numeric v) eqn:En].
  - cbv zeta. rewrite Ht, Eb. assert (v ≠ []) by (by intros ->).
    split_and!; try done; [by apply trimmed_iff in Ht as []|by apply neutral_flat].
  - cbv zeta. rewrite Ht, Eb, En. pose proof (numeric_nonempty _ En).
    split_and!; try done; [by apply trimmed_iff in Ht as []|by apply neutral_flat].
  - cbv zeta. assert (trimmed (quote v)) as Hq.
    { rewrite quote_plain by done. apply trimmed_iff. split; [done|].
      apply (last_nws_app (DQ :: v)); done. }
    rewrite Hq.
    assert (is_bool_text (quote v) = false) as -> by done.
    assert (numeric (quote v) = false) as ->.
    { destruct (numeric (quote v)) eqn:E; [|done]. apply numeric_chars in E as [_ E].
      by apply Forall_cons in E as [E _]. }
    rewrite parse_quote_plain, quote_plain by done.
    split_and!; try done.
    + apply (last_nws_app (DQ :: v)); done.
    + constructor; [done|]. apply Forall_app. split; [done|by repeat constructor].
    + apply neutral_flat. constructor; [done|]. apply Forall_app. split; [done|by repeat constructor].
    + constructor; [done|]. apply Forall_app. split; [done|by repeat constructor].
Qed.

(** ** Conditions as parts *)

Notation read_part := (tryParseRequestCondition ∘ trim).

Definition parts_ok (c : RequestCondition) (e : jsstr) (ps : list jsstr) : Prop :=
  e = join (js " && ") ps ∧ ps ≠ [] ∧ Forall part_ok ps ∧
  all_parts read_part ps = Some (if reads_back c then Some [c] else None).

Lemma read_ok t r : part_ok t → tryParseRequestCondition t = r → read_part t = r.
Proof. intros [_ Ht _ _] <-. simpl. by rewrite Ht. Qed.

Lemma parts_single c e :
  reads_back c = true → part_ok e → tryParseRequestCondition e = Some (Some c) → parts_ok c e [e].
Proof.
  intros Hr Hp He. split_and!; [done|done|by constructor|]. cbn [all_parts].
  rewrite (read_ok _ _ Hp He), Hr. done.
Qed.

Lemma parts_lost c c1 e1 e2 :
  reads_back c = false → part_ok e1 → part_ok e2 →
  tryParseRequestCondition e1 = Some (Some c1) → tryParseRequestCondition e2 = Some None →
  parts_ok c (e1 ++ js " && " ++ e2) [e1; e2].
Proof.
  intros Hr H1 H2 E1 E2. split_and!; [done|done| |].
  { constructor; [done|by constructor]. }
  cbn [all_parts]. by rewrite (read_ok _ _ H1 E1), (read_ok _ _ H2 E2), Hr.
Qed.

(** The same condition on its own and, in parentheses where it has a bar,
    among others. *)
Definition cond_ok (c : RequestCondition) : Prop :=
  (∃ ps, parts_ok c (buildRequestConditionExpr c) ps) ∧
  (∃ ps, parts_ok c (wrap_or (buildRequestConditionExpr c)) ps).

Lemma cond_ok_calm c ps :
  Forall (λ c, calm c = true) (buildRequestConditionExpr c) ∨ wrap_or (buildRequestConditionExpr c) = buildRequestConditionExpr c →
  parts_ok c (buildRequestConditionExpr c) ps → cond_ok c.
Proof.
  intros Hc Hp. assert (wrap_or (buildRequestConditionExpr c) = buildRequestConditionExpr c) as E
    by (destruct Hc; [by apply calm_wrap|done]).
  split; [by exists ps|]. rewrite E. by exists ps.
Qed.

Lemma part_time f tz t :
  f ∈ TIME_FUNCS → plain tz → t ≠ [] → last_nws t → neutral t →
  Forall (λ c, not_char 38 c = true) t → part_ok (call f tz ++ t).
Proof.
  intros Hf Hp Hne Hl Hn Hc.
  destruct (call_calm f tz (time_func_calm _ Hf) (time_func_flat _ Hf) Hp) as [C1 C2].
  split.
  - by destruct f.
  - apply trimmed_iff. split; [|by apply last_nws_app].
    apply elem_of_TIME_FUNCS in Hf. by destruct_or! Hf; subst f.
  - by apply neutral_app.
  - apply Forall_app. split; [by apply calm_and|done].
Qed.

Lemma last_nws_numeric s t : numeric s = true → last_nws (t ++ s).
Proof.
  intros Hs. apply last_nws_app; [by apply numeric_nonempty|].
  by apply numeric_trimmed, trimmed_iff in Hs as [].
Qed.

Lemma cond_ok_time f tz mode v :
  f ∈ TIME_FUNCS → tz ≠ [] → plain tz → mode ∈ [MATCH_EQ; MATCH_GTE; MATCH_LT] → numeric v = true →
  cond_ok (TimeCondition f tz mode v [] []).
Proof.
  intros Hf Hne Hp Hm Hv. destruct (numeric_calm _ Hv) as [N1 N2].
  assert (time_op mode ∈ [js "=="; js ">="; js "<"] ∧ time_mode (time_op mode) = mode) as [Ho Em]
    by (mem_cases Hm; split; try reflexivity; vm_compute; repeat constructor).
  assert (Forall (λ c, calm c = true) (js " " ++ time_op mode ++ js " " ++ v) ∧
    Forall (λ c, no_paren c = true) (js " " ++ time_op mode ++ js " " ++ v)) as [C1 C2]
    by (mem_cases Ho; rewrite !Forall_app; split_and!; try done; by repeat constructor).
  assert (last_nws (js " " ++ time_op mode ++ js " " ++ v)) as Hl
    by (rewrite !app_assoc; by apply last_nws_numeric).
  apply (cond_ok_calm _ [buildRequestConditionExpr (TimeCondition f tz mode v [] [])]).
  - left. rewrite build_time by done. apply Forall_app. split; [|done].
    by apply call_calm; [apply time_func_calm|apply time_func_flat|].
  - apply parts_single; [done| |].
    + rewrite build_time by done. apply part_time; try done; [by apply neutral_flat|by apply calm_and].
    + unfold tryParseRequestCondition. rewrite build_time, parse_time by done. by rewrite Em.
Qed.

Lemma cond_ok_range f tz s e :
  f ∈ TIME_FUNCS → tz ≠ [] → plain tz → numeric s = true → numeric e = true →
  cond_ok (TimeCondition f tz MATCH_RANGE [] s e).
Proof.
  intros Hf Hne Hp Hs He. destruct (numeric_calm _ Hs) as [S1 S2], (numeric_calm _ He) as [E1 E2].
  destruct (call_calm f tz (time_func_calm _ Hf) (time_func_flat _ Hf) Hp) as [C1 C2].
  pose proof (plain_not_quote _ Hp) as Hq.
  destruct (numeric_chars _ Hs) as [S3 S4], (numeric_chars _ He) as [E3 E4].
  assert (part_ok (range_text f tz s e)) as Ht.
  { unfold range_text. apply part_time; try done.
    - rewrite !app_assoc. by apply last_nws_numeric.
    - repeat match goal with |- neutral (_ ++ _) => apply neutral_app end; try done;
        apply neutral_flat; try done; by repeat constructor.
    - rewrite !Forall_app. split_and!; try (by repeat constructor); by apply calm_and. }
  assert (buildRequestConditionExpr (TimeCondition f tz MATCH_RANGE [] s e) = range_text f tz s e) as Eb
    by (by rewrite build_range).
  unfold cond_ok. rewrite Eb. split.
  - exists [range_text f tz s e]. apply parts_single; [done|done|].
    unfold tryParseRequestCondition. by rewrite parse_range.
  - unfold wrap_or. assert (includes (js " || ") (range_text f tz s e) = true) as ->.
    { apply includes_spec. exists (call f tz ++ js " >= " ++ s), (call f tz ++ js " < " ++ e).
      unfold range_text. by rewrite <- !app_assoc. }
    eexists. apply parts_single; [done| |unfold tryParseRequestCondition; by rewrite parse_range_paren].
    destruct Ht as [T1 T2 T3 T4]. split.
    + done.
    + apply trimmed_iff. split; [done|]. rewrite app_assoc. by apply last_nws_app.
    + by apply neutral_paren.
    + rewrite !Forall_app. split_and!; try done; by repeat constructor.
Qed.

Lemma cond_ok_exists src p :
  p ≠ [] → ok_text p → cond_ok (ParamHeaderCondition src p MATCH_EXISTS []).
Proof.
  intros Hne Hp. destruct (source_name_calm src) as [S1 S2].
  set (t := match src with Header => jq " != ``" | Param => js " != nil" end).
  assert (buildRequestConditionExpr (ParamHeaderCondition src p MATCH_EXISTS []) =
    call (source_name src) p ++ t) as E.
  { rewrite build_ph; [|done|done|by destruct src; cbn; set_solver]. by rewrite decide_True. }
  assert (Forall (λ c, calm c = true) t ∧ Forall (λ c, no_paren c = true) t) as [T1 T2]
    by (by destruct src; split; repeat constructor).
  apply (cond_ok_calm _ [buildRequestConditionExpr (ParamHeaderCondition src p MATCH_EXISTS [])]).
  - left. rewrite E. apply Forall_app. split; [|done]. by apply call_calm; [..|apply Hp].
  - apply parts_single; [by destruct src| |].
    + rewrite E. apply part_call; [apply Hp|by destruct src|by destruct src|by apply neutral_flat|done].
    + rewrite E. subst t. destruct Hp as [Hp _].
      destruct src; [by apply read_param_exists|by apply read_header_exists].
Qed.

Lemma cond_ok_eq src p v :
  p ≠ [] → ok_text p → ok_text v → cond_ok (ParamHeaderCondition src p MATCH_EQ v).
Proof.
  intros Hne Hp Hv. destruct (source_name_calm src) as [S1 S2].
  destruct (literal_spec v Hv) as (L1 & L2 & L3 & L4 & L5 & L6).
  set (L := buildExprLiteral MATCH_EQ v) in *.
  assert (buildRequestConditionExpr (ParamHeaderCondition src p MATCH_EQ v) =
    call (source_name src) p ++ js " == " ++ L) as E.
  { rewrite build_ph; [|done|done|by destruct src; cbn; set_solver].
    by rewrite !decide_False by done. }
  apply (cond_ok_calm _ [buildRequestConditionExpr (ParamHeaderCondition src p MATCH_EQ v)]).
  - left. rewrite E, !Forall_app. split_and!; [by apply call_calm; [..|apply Hp]| |done].
    by repeat constructor.
  - apply parts_single; [by destruct src| |].
    + rewrite E. apply part_call; [apply Hp|done|by apply last_nws_app| |].
      * apply neutral_app; [|done]. apply neutral_flat. by repeat constructor.
      * apply Forall_app. split; [by repeat constructor|done].
    + rewrite E. destruct Hp as [Hp _]. by apply read_equals.
Qed.

(** [has(<call>, "<text>")] *)
Lemma has_ok src p v :
  plain p → plain v →
  let t := js "has(" ++ call (source_name src) p ++ js ", " ++ quote v ++ js ")" in
  part_ok t ∧ Forall (λ c, calm c = true) t.
Proof.
  intros Hp Hv t. subst t. destruct (source_name_calm src) as [S1 S2].
  destruct (call_calm _ _ S1 S2 Hp) as [C1 C2]. destruct (plain_calm _ Hv) as [V1 V2].
  rewrite quote_plain by done.
  assert (Forall (λ c, calm c = true)
    (js "has(" ++ call (source_name src) p ++ js ", " ++ (DQ :: v ++ [DQ]) ++ js ")")) as Hc.
  { rewrite !Forall_app. split_and!; try done; try (by repeat constructor).
    constructor; [done|]. apply Forall_app. split; [done|by repeat constructor]. }
  split; [|exact Hc]. split.
  - done.
  - apply trimmed_iff. split; [done|]. rewrite !app_assoc. by apply last_nws_app.
  - replace (js "has(" ++ call (source_name src) p ++ js ", " ++ (DQ :: v ++ [DQ]) ++ js ")")
      with (js "has" ++ js "(" ++ (call (source_name src) p ++ js ", " ++ (DQ :: v ++ [DQ])) ++ js ")")
      by (by rewrite <- !app_assoc).
    apply neutral_app; [apply neutral_flat; by repeat constructor|]. apply neutral_paren.
    apply neutral_app; [done|]. apply neutral_flat. rewrite !Forall_app.
    split; [by repeat constructor|]. constructor; [done|]. apply Forall_app.
    split; [done|by repeat constructor].
  - by apply calm_and.
Qed.

Lemma param_nil_ok p : plain p → part_ok (call (js "param") p ++ js " != nil").
Proof.
  intros Hp. apply (part_call Param p (js " != nil")); [done..| |]; [apply neutral_flat|];
    by repeat constructor.
Qed.

(** A condition whose text is cut in two and whose second half is not read. *)
Lemma cond_ok_lost c c1 e1 e2 :
  reads_back c = false → buildRequestConditionExpr c = e1 ++ js " && " ++ e2 →
  part_ok e1 → part_ok e2 → wrap_or (e1 ++ js " && " ++ e2) = e1 ++ js " && " ++ e2 →
  tryParseRequestCondition e1 = Some (Some c1) → tryParseRequestCondition e2 = Some None → cond_ok c.
Proof.
  intros Hr E H1 H2 Hw E1 E2.
  apply (cond_ok_calm _ [e1; e2]); [right; by rewrite E|]. rewrite E. by eapply parts_lost.
Qed.

Lemma cond_ok_contains src p v :
  p ≠ [] → ok_text p → ok_text v → cond_ok (ParamHeaderCondition src p MATCH_CONTAINS v).
Proof.
  intros Hne Hp [Hv Hv']. destruct (has_ok src p v (proj1 Hp) Hv) as [P1 P2].
  set (has := js "has(" ++ call (source_name src) p ++ js ", " ++ quote v ++ js ")") in *.
  assert (buildRequestConditionExpr (ParamHeaderCondition src p MATCH_CONTAINS v) =
    match src with Header => has | Param => call (js "param") p ++ js " != nil" ++ js " && " ++ has end) as E.
  { rewrite build_ph; [|done|done|by destruct src; cbn; set_solver].
    rewrite decide_False, decide_True by done. unfold buildExprLiteral. rewrite decide_True, Hv' by done.
    by destruct src. }
  destruct Hp as [Hp Hp']. destruct src.
  - eapply (cond_ok_lost _ _ (call (js "param") p ++ js " != nil") has); [done| |by apply param_nil_ok|done| | |].
    + by rewrite E, <- !app_assoc.
    + apply no_bar_wrap. rewrite !Forall_app. split_and!; try (by repeat constructor); [|by apply calm_bar].
      apply calm_bar. by apply (call_calm (js "param")); [repeat constructor..|].
    + by apply read_param_exists.
    + by apply read_param_has_none.
  - apply (cond_ok_calm _ [has]); [left; by rewrite E|]. rewrite E.
    apply parts_single; [done|done|by apply read_header_contains].
Qed.

Lemma cond_ok_compare p mode v :
  p ≠ [] → ok_text p → mode ∈ [MATCH_GT; MATCH_GTE; MATCH_LT; MATCH_LTE] → numeric v = true →
  cond_ok (ParamHeaderCondition Param p mode v).
Proof.
  intros Hne Hp Hm Hv. destruct (numeric_calm _ Hv) as [V1 V2].
  assert (∃ op, compare_op mode = Some op ∧ op ∈ [js ">"; js ">="; js "<"; js "<="]) as (op & Eo & Ho)
    by (mem_cases Hm; eexists; (split; [reflexivity|]); vm_compute; repeat constructor).
  assert (buildRequestConditionExpr (ParamHeaderCondition Param p mode v) =
    (call (js "param") p ++ js " != nil") ++ js " && " ++ call (js "param") p ++ js " " ++ op ++ js " " ++ v) as E.
  { rewrite build_ph; [|done|done|cbn; set_solver].
    rewrite !decide_False by (intros ->; by mem_cases Hm).
    rewrite Eo, numeric_trimmed, Hv by done. cbn [negb]. by rewrite <- !app_assoc. }
  assert (Forall (λ c, calm c = true) (js " " ++ op ++ js " " ++ v) ∧
    Forall (λ c, no_paren c = true) (js " " ++ op ++ js " " ++ v)) as [C1 C2]
    by (mem_cases Ho; rewrite !Forall_app; split_and!; try done; by repeat constructor).
  destruct Hp as [Hp Hp'].
  eapply (cond_ok_lost _ _ _ _); [by mem_cases Hm|exact E|by apply param_nil_ok| | | |].
  - apply (part_call Param); [done|done| |by apply neutral_flat|done].
    rewrite !app_assoc. by apply last_nws_numeric.
  - apply no_bar_wrap. apply Forall_app; split; [apply Forall_app; split|apply Forall_app; split;
      [|apply Forall_app; split]]; try (by repeat constructor); try (by apply calm_bar);
      apply calm_bar; by apply (call_calm (js "param")); [repeat constructor..|].
  - by apply read_param_exists.
  - by apply read_param_op_none.
Qed.

Lemma editable_ok c : editable c → cond_ok c.
Proof.
  destruct 1; [by apply cond_ok_time|by apply cond_ok_range|by apply cond_ok_exists
    |by apply cond_ok_contains|by apply cond_ok_eq|by apply cond_ok_compare].
Qed.

(** ** Groups *)

Lemma all_parts_app {A B} (f : A → option (option B)) l1 l2 :
  all_parts f (l1 ++ l2) =
  match all_parts f l1 with
  | Some (Some a) => match all_parts f l2 with Some (Some b) => Some (Some (a ++ b)) | r => r end
  | r => r
  end.
Proof.
  induction l1 as [|x l1 IH]; cbn [all_parts app].
  - by destruct (all_parts f l2) as [[|]|].
  - destruct (f x) as [[y|]|]; [|done..]. rewrite IH.
    destruct (all_parts f l1) as [[|]|]; [|done..]. by destruct (all_parts f l2) as [[|]|].
Qed.

Lemma join_app sep (l1 l2 : list jsstr) :
  l1 ≠ [] → l2 ≠ [] → join sep (l1 ++ l2) = join sep l1 ++ sep ++ join sep l2.
Proof.
  intros H1 H2. induction l1 as [|x [|y l1] IH]; [done| |].
  - destruct l2; [done|]. apply join_cons.
  - rewrite <- app_comm_cons, (join_cons sep x y l1). cbn [app]. rewrite join_cons.
    change (y :: l1 ++ l2) with ((y :: l1) ++ l2). rewrite IH by done. by rewrite <- !app_assoc.
Qed.

Lemma trimmed_join sep (l : list jsstr) :
  l ≠ [] → Forall (λ t, t ≠ [] ∧ trimmed t) l → trimmed (join sep l).
Proof.
  intros Hne Hl. assert (join sep l ≠ [] ∧ head_nws (join sep l) ∧ last_nws (join sep l)) as (_ & ? & ?);
    [|by apply trimmed_iff].
  induction Hl as [|t l [Ht [H1 H2]%trimmed_iff] Hl IH]; [done|]. destruct l as [|t' l]; [done|].
  destruct IH as (I1 & I2 & I3); [done|]. rewrite join_cons. split_and!.
  - by destruct t.
  - by apply head_nws_app.
  - apply last_nws_app; [by destruct sep|]. by apply last_nws_app.
Qed.

Lemma neutral_join ps : Forall part_ok ps → neutral (join (js " && ") ps).
Proof.
  induction 1 as [|t [|t' l] Ht Hl IH]; [apply neutral_nil|apply Ht|]. rewrite join_cons.
  apply neutral_app; [apply Ht|]. apply neutral_app; [apply neutral_flat; by repeat constructor|done].
Qed.

(** The conditions of a group, put together. *)
Definition conds_text (conds : list RequestCondition) : jsstr :=
  combine_conditions (map buildRequestConditionExpr conds).

Lemma wrapped_parts conds :
  conds ≠ [] → Forall editable conds →
  ∃ ps, join (js " && ") (map (wrap_or ∘ buildRequestConditionExpr) conds) = join (js " && ") ps ∧
    ps ≠ [] ∧ Forall part_ok ps ∧
    all_parts read_part ps = Some (if forallb reads_back conds then Some conds else None).
Proof.
  intros Hne Hc. induction Hc as [|c conds Hc Hcs IH]; [done|].
  destruct (editable_ok c Hc) as [_ (ps & E & Hps & Hok & Hr)]. destruct conds as [|c' conds].
  - exists ps. cbn [map join forallb]. rewrite andb_true_r. done.
  - destruct IH as (ps' & E' & Hps' & Hok' & Hr'); [done|]. exists (ps ++ ps').
    split_and!.
    + rewrite join_app, <- E, <- E' by done. cbn [map]. by rewrite join_cons.
    + by destruct ps.
    + by apply Forall_app.
    + rewrite all_parts_app, Hr, Hr'. cbn [forallb].
      destruct (reads_back c); [|done]. cbn [andb]. by destruct (reads_back c' && forallb reads_back conds).
Qed.

Lemma conds_parts conds :
  conds ≠ [] → Forall editable conds →
  ∃ ps, conds_text conds = join (js " && ") ps ∧ ps ≠ [] ∧ Forall part_ok ps ∧
    all_parts read_part ps = Some (if forallb reads_back conds then Some conds else None).
Proof.
  intros Hne Hc. destruct conds as [|c [|c' conds]]; [done| |].
  - apply Forall_cons in Hc as [Hc _]. destruct (editable_ok c Hc) as [(ps & E & Hps & Hok & Hr) _].
    exists ps. cbn [forallb]. rewrite andb_true_r. done.
  - destruct (wrapped_parts _ Hne Hc) as (ps & E & H). exists ps. split; [|done].
    rewrite <- E. unfold conds_text, combine_conditions. cbn [map]. by rewrite map_map.
Qed.

Lemma cut_last (q : jschar → bool) a b c t1 t2 :
  Forall (λ c, q c = true) t1 → Forall (λ c, q c = true) t2 → q c = false →
  a ++ c :: t1 = b ++ c :: t2 → a = b ∧ t1 = t2.
Proof.
  intros H1 H2 Hc E. apply (f_equal reverse) in E.
  rewrite !reverse_app, !reverse_cons, <- !app_assoc in E. cbn [app] in E.
  apply (cut_class q) in E as (E1 & _ & E2); [|by apply Forall_reverse..|done|done].
  apply (f_equal reverse) in E1, E2. by rewrite !reverse_involutive in E1, E2.
Qed.

(** The greedy group of the factor ends at the last question mark. *)
Lemma factor_match comb mult :
  comb ≠ [] → numeric mult = true →
  re_match FACTOR (js "(" ++ comb ++ js " ? " ++ mult ++ js " : 1)") = Some (<[2 := mult]> (<[1 := comb]> ∅)).
Proof.
  intros Hc [Hm Hm']%numeric_chars. apply re_match_Some.
  - assert (can (lit (js "(") · RCap 1 (RPlus (RChar any_char)) · lit (js " ? ") ·
      RCap 2 (RPlus (RChar num_char)) · lit (js " : 1)") · REnd)
      (js "(" ++ comb ++ js " ? " ++ mult ++ js " : 1)") ∅) as H; [|apply H].
    apply can_lit. apply can_cap_plus; [done|by apply Forall_true|]. apply can_lit.
    apply can_cap_plus; [done|done|]. apply (can_lit (js " : 1)") REnd []), can_end.
  - intros x Hx. re_inv. subst.
    match goal with E : js "(" ++ _ = js "(" ++ _ |- _ =>
      apply app_inv_head in E; rewrite app_nil_r in E; rewrite !app_assoc in E;
      apply app_inv_tail in E; rewrite <- !app_assoc in E;
      change (js " ? ") with (js " ?" ++ [32%N]) in E; rewrite <- !app_assoc in E;
      rewrite (app_assoc comb) in E; cbn [app] in E end.
    match goal with E : (comb ++ _) ++ _ = ?w ++ js " ?" ++ _ |- _ =>
      rewrite (app_assoc w) in E; apply (cut_last num_char) in E as [E <-]; [|done..];
      apply app_inv_tail in E as <- end.
    done.
Qed.

Definition editable_group (g : RequestRuleGroup) : Prop :=
  conditions g ≠ [] ∧ Forall editable (conditions g) ∧ numeric (multiplier g) = true.

Definition group_body (g : RequestRuleGroup) : jsstr :=
  conds_text (conditions g) ++ js " ? " ++ multiplier g ++ js " : 1".

Lemma build_group g :
  editable_group g →
  buildRuleGroupFactor g = js "(" ++ group_body g ++ js ")" ∧ neutral (group_body g).
Proof.
  intros (Hne & Hc & Hm). destruct (conds_parts _ Hne Hc) as (ps & E & Hps & Hok & _). split.
  - unfold buildRuleGroupFactor. rewrite numeric_trimmed, Hm by done. cbn [negb].
    rewrite filter_bool_id.
    + assert (∃ e es, map buildRequestConditionExpr (conditions g) = e :: es) as (e & es & Ee)
        by (destruct (conditions g); [done|eexists _, _; reflexivity]).
      unfold group_body, conds_text. rewrite Ee, <- !app_assoc. done.
    + apply Forall_map. eapply Forall_impl; [exact Hc|]. intros c Hcc.
      destruct (editable_ok c Hcc) as [([|t ps'] & Ec & Hp & Ho & _) _]; [done|].
      simpl. rewrite Ec. apply Forall_cons in Ho as [[Ht _ _ _] _].
      destruct ps'; [done|]. rewrite join_cons. by destruct t.
  - unfold group_body. rewrite E. apply neutral_app; [by apply neutral_join|].
    apply neutral_flat. rewrite !Forall_app. split_and!; try (by repeat constructor).
    by apply numeric_calm.
Qed.

Lemma read_group g :
  editable_group g →
  tryParseRuleGroupFactor (buildRuleGroupFactor g) =
  Some (if forallb reads_back (conditions g) then Some g else None).
Proof.
  intros Hg. destruct (build_group g Hg) as [-> _]. destruct Hg as (Hne & Hc & Hm).
  destruct (conds_parts _ Hne Hc) as (ps & E & Hps & Hok & Hr).
  unfold tryParseRuleGroupFactor, group_body. rewrite <- !app_assoc. change (js " : 1" ++ js ")") with (js " : 1)").
  rewrite factor_match; [| |done].
  2:{ rewrite E. destruct ps as [|t ps]; [done|]. apply Forall_cons in Hok as [[Ht _ _ _] _].
      destruct ps; [done|]. rewrite join_cons. by destruct t. }
  assert (group 1 (<[2 := multiplier g]> (<[1 := conds_text (conditions g)]> ∅)) = conds_text (conditions g)) as ->
    by (unfold group; by simplify_map_eq).
  assert (group 2 (<[2 := multiplier g]> (<[1 := conds_text (conditions g)]> ∅)) = multiplier g) as ->
    by (unfold group; by simplify_map_eq).
  rewrite E. unfold splitTopLevelAnd. rewrite split_join_solid;
    [|apply sep_and|eapply Forall_impl; [exact Hok|apply part_solid]].
  rewrite Hr. destruct (forallb reads_back (conditions g)); [|done].
  destruct g as [conds mult]. simpl in *. by destruct conds.
Qed.

Lemma factor_solid g :
  editable_group g → solid (js " * ") (buildRuleGroupFactor g) ∧ buildRuleGroupFactor g ≠ [] ∧
  trimmed (buildRuleGroupFactor g).
Proof.
  intros Hg. destruct (build_group g Hg) as [-> Hn].
  pose proof (solid_mul _ Hn) as Hs. split; [done|]. by destruct Hs as (? & ? & _).
Qed.

Lemma build_rules gs :
  Forall editable_group gs →
  buildRequestRuleExpr gs = join (js " * ") (map buildRuleGroupFactor gs) ∧
  trimmed (buildRequestRuleExpr gs) ∧
  splitTopLevelMultiply (buildRequestRuleExpr gs) = map buildRuleGroupFactor gs.
Proof.
  intros Hgs. assert (Forall (λ t, solid (js " * ") t ∧ t ≠ [] ∧ trimmed t) (map buildRuleGroupFactor gs)) as Hl
    by (apply Forall_map; eapply Forall_impl; [exact Hgs|apply factor_solid]).
  assert (buildRequestRuleExpr gs = join (js " * ") (map buildRuleGroupFactor gs)) as E
    by (unfold buildRequestRuleExpr; rewrite filter_bool_id; [done|];
        eapply Forall_impl; [exact Hl|]; by intros ? (_ & ? & _)).
  rewrite E. split_and!; [done| |].
  - destruct gs; [by apply trimmed_iff|]. apply trimmed_join; [done|].
    eapply Forall_impl; [exact Hl|]; by intros ? (_ & ? & ?).
  - unfold splitTopLevelMultiply. rewrite split_join_solid; [done|apply sep_mul|].
    eapply Forall_impl; [exact Hl|]; by intros ? (? & _).
Qed.

Lemma read_rules gs :
  Forall editable_group gs →
  all_parts tryParseRuleGroupFactor (map buildRuleGroupFactor gs) =
  Some (if forallb (λ g, forallb reads_back (conditions g)) gs then Some gs else None).
Proof.
  induction 1 as [|g gs Hg Hgs IH]; [done|]. cbn [map all_parts forallb].
  rewrite read_group, IH by done. destruct (forallb reads_back (conditions g)); [|done].
  cbn [andb]. by destruct (forallb _ gs).
Qed.

Lemma parse_rules gs :
  Forall editable_group gs →
  tryParseRequestRuleExpr (buildRequestRuleExpr gs) =
  Some (if forallb (λ g, forallb reads_back (conditions g)) gs then Some gs else None).
Proof.
  intros Hgs. destruct (build_rules gs Hgs) as (E & Ht & Hs). unfold tryParseRequestRuleExpr.
  rewrite Ht. destruct gs as [|g gs]; [done|].
  rewrite <- read_rules by done. rewrite <- Hs.
  destruct (buildRequestRuleExpr (g :: gs)) eqn:Eb; [|done].
  apply Forall_cons in Hgs as [Hg _]. destruct (factor_solid g Hg) as (_ & Hne & _).
  destruct gs; cbn [map join] in E; [by rewrite <- E in Hne|].
  by destruct (buildRuleGroupFactor g).
Qed.


Definition night_group : RequestRuleGroup :=
  mkGroup [TimeCondition (js "hour") (js "UTC") MATCH_RANGE [] (js "22") (js "6");
           ParamHeaderCondition Header (js "x-a") MATCH_CONTAINS (js "beta")] (js "0.5").
Definition long_group : RequestRuleGroup :=
  mkGroup [ParamHeaderCondition Param (js "n") MATCH_GT (js "5")] (js "2").

Lemma plain_compute s : forallb plain_char s = true → plain s.
Proof.
  intros H. apply Forall_forall. intros c Hc. rewrite forallb_forall in H. by apply H, list_elem_of_In.
Qed.

Lemma night_group_editable : editable_group night_group.
Proof.
  split; [done|]. split; [|by vm_compute].
  constructor; [|constructor; [|constructor]].
  - apply ed_range; [set_solver|done|by apply plain_compute|by vm_compute..].
  - apply ed_contains; [done|..]; (split; [by apply plain_compute|by vm_compute]).
Qed.

Lemma long_group_editable : editable_group long_group.
Proof.
  split; [done|]. split; [|by vm_compute]. constructor; [|constructor].
  apply ed_compare; [done| |set_solver|by vm_compute]. split; [by apply plain_compute|by vm_compute].
Qed.


(** ** The whole price *)

Lemma full_parens_above d t r :
  (1 <= d)%Z → above d t → full_parens d (t ++ r) = full_parens (end_depth d t) r.
Proof.
  revert d. induction t as [|c t IH]; intros d Hd; [done|]. intros [H1 H2].
  cbn [app full_parens]. rewrite (proj2 (Z.eqb_neq _ 0)) by lia. cbn [andb]. by apply IH.
Qed.

Lemma has_full_parens t : neutral t → hasFullOuterParens (js "(" ++ t ++ js ")") = true.
Proof.
  intros Hn. unfold hasFullOuterParens.
  assert (ends_with (js ")") (js "(" ++ t ++ js ")") = true) as ->.
  { unfold ends_with. apply starts_with_spec. rewrite app_assoc, reverse_app. eauto. }
  cbn [starts_with negb orb js app]. change (js "(" ++ t ++ js ")") with (40%N :: t ++ js ")").
  cbn [full_parens]. change (paren_depth 0 40) with 1%Z. cbn [Z.eqb andb].
  destruct (Hn 1%Z) as [E A]. rewrite full_parens_above by (lia || by apply A). by rewrite E.
Qed.

Lemma slice_inner t : slice 1 (length (js "(" ++ t ++ js ")") - 1) (js "(" ++ t ++ js ")") = t.
Proof.
  change (js "(") with [40%N]. change (js ")") with [41%N]. unfold slice.
  cbn [length app drop]. rewrite length_app. cbn [length].
  replace (S (length t + 1) - 1 - 1)%nat with (length t) by lia. apply take_app_length.
Qed.

(** The fuel of the loop is enough: what is left has no full parentheses. *)
Lemma unwrap_done e : hasFullOuterParens (unwrapOuterParens e) = false.
Proof.
  unfold unwrapOuterParens.
  assert (∀ fuel s, (length s <= fuel)%nat → hasFullOuterParens (unwrap_loop fuel s) = false) as H.
  { induction fuel as [|fuel IH]; intros s Hs; cbn [unwrap_loop].
    - by destruct s; [|simpl in Hs; lia].
    - destruct (hasFullOuterParens s) eqn:E; [|done]. apply IH.
      destruct (trim_decompose (slice 1 (length s - 1) s)) as (w1 & w2 & Ew & _).
      apply (f_equal length) in Ew. rewrite !length_app in Ew. unfold slice in Ew at 1.
      rewrite length_take, length_drop in Ew. destruct s; [done|]. simpl in *. lia. }
  apply H. destruct (trim_decompose e) as (w1 & w2 & Ew & _). apply (f_equal length) in Ew.
  rewrite !length_app in Ew. lia.
Qed.

Lemma unwrap_base base :
  trimmed base → neutral base → hasFullOuterParens base = false →
  unwrapOuterParens (js "(" ++ base ++ js ")") = base.
Proof.
  intros Ht Hn Hf. unfold unwrapOuterParens.
  assert (trim (js "(" ++ base ++ js ")") = js "(" ++ base ++ js ")") as -> by (by apply solid_mul).
  destruct (length (js "(" ++ base ++ js ")")) as [|n] eqn:El; [done|]. cbn [unwrap_loop].
  rewrite has_full_parens, slice_inner, Ht by done.
  destruct n; cbn [unwrap_loop]; [done|]. by rewrite Hf.
Qed.

(** A base expression: its parentheses match and it is no rule. *)
Record base_ok (base : jsstr) : Prop := {
  base_ne : base ≠ [];
  base_trim : trimmed base;
  base_neutral : neutral base;
  base_bare : hasFullOuterParens base = false;
  base_end : ends_with (js " : 1") base = false;
}.

Lemma ends_with_app s t : ends_with s (t ++ s) = true.
Proof. unfold ends_with. apply starts_with_spec. rewrite reverse_app. eauto. Qed.

(** A part of a product that the pattern of a rule does not match. *)
Lemma no_rule t : solid (js " * ") t → re_match FACTOR t = None → is_rule t = Some false.
Proof.
  intros Hs Hf. pose proof Hs as (Hne & Ht & _). unfold is_rule, tryParseRequestRuleExpr. rewrite Ht.
  destruct t as [|c0 s0] eqn:Ec; [done|]. rewrite <- Ec in *. unfold splitTopLevelMultiply.
  pose proof (split_join_solid (js " * ") sep_mul [t]) as Hj. cbn [join] in Hj.
  rewrite Hj by (by constructor). cbn [all_parts]. unfold tryParseRuleGroupFactor. by rewrite Hf.
Qed.

Lemma base_no_rule base : base_ok base → is_rule (js "(" ++ base ++ js ")") = Some false.
Proof.
  intros [Hne Ht Hn Hb He]. apply no_rule; [by apply solid_mul|].
  unfold FACTOR. rewrite re_match_None; [done|]. intros x Hx. re_inv. subst.
  match goal with E : js "(" ++ base ++ _ = js "(" ++ ?w1 ++ js " ? " ++ ?w2 ++ _ |- _ =>
    apply app_inv_head in E; rewrite app_nil_r in E; change (js " : 1)") with (js " : 1" ++ js ")") in E;
    rewrite !app_assoc in E; apply app_inv_tail in E; subst base end.
  by rewrite ends_with_app in He.
Qed.

Lemma factor_rule g :
  editable_group g → is_rule (buildRuleGroupFactor g) = Some (forallb reads_back (conditions g)).
Proof.
  intros Hg. unfold is_rule.
  assert (buildRequestRuleExpr [g] = buildRuleGroupFactor g) as <-
    by (destruct (build_rules [g]) as [E _]; [by constructor|exact E]).
  rewrite parse_rules by (by constructor). cbn [forallb]. rewrite andb_true_r.
  by destruct (forallb reads_back (conditions g)).
Qed.

Notation read_group_ok := (λ g, forallb reads_back (conditions g)).

Lemma sort_factors gs :
  Forall editable_group gs →
  sort_parts (map buildRuleGroupFactor gs) =
  Some (map buildRuleGroupFactor (List.filter read_group_ok gs),
        map buildRuleGroupFactor (List.filter (λ g, negb (read_group_ok g)) gs)).
Proof.
  induction 1 as [|g gs Hg Hgs IH]; [done|]. cbn [map sort_parts List.filter].
  rewrite factor_rule, IH by done. by destruct (forallb reads_back (conditions g)).
Qed.

(** The parts of a price: the base in parentheses and the factors. *)
Definition price_parts (base : jsstr) (gs : list RequestRuleGroup) : list jsstr :=
  (js "(" ++ base ++ js ")") :: map buildRuleGroupFactor gs.

Lemma combine_parts base gs :
  base_ok base → gs ≠ [] → Forall editable_group gs →
  combineBillingExpr base (buildRequestRuleExpr gs) = js "(" ++ base ++ js ") * " ++ buildRequestRuleExpr gs ∧
  js "(" ++ base ++ js ") * " ++ buildRequestRuleExpr gs = join (js " * ") (price_parts base gs) ∧
  Forall (solid (js " * ")) (price_parts base gs).
Proof.
  intros Hb Hne Hgs. destruct (build_rules gs Hgs) as (E & Ht & _). split_and!.
  - unfold combineBillingExpr. rewrite (base_trim _ Hb), Ht. pose proof (base_ne _ Hb).
    assert (buildRequestRuleExpr gs ≠ []) as Hr.
    { rewrite E. destruct gs as [|g gs]; [done|]. apply Forall_cons in Hgs as [Hg _].
      destruct (factor_solid g Hg) as (_ & Hf & _). destruct gs; [done|]. cbn [map].
      rewrite join_cons. by destruct (buildRuleGroupFactor g). }
    by destruct base, (buildRequestRuleExpr gs).
  - unfold price_parts. rewrite E. destruct gs as [|g gs]; [done|]. cbn [map]. rewrite join_cons.
    by rewrite <- !app_assoc.
  - constructor; [apply solid_mul, Hb|]. apply Forall_map. eapply Forall_impl; [exact Hgs|].
    by intros g [? _]%factor_solid.
Qed.

(** What is not read back is among the parts that are no rules. *)
Lemma some_lost gs :
  forallb read_group_ok gs = false → List.filter (λ g, negb (read_group_ok g)) gs ≠ [].
Proof.
  induction gs as [|g gs IH]; [done|]. cbn [forallb List.filter].
  destruct (forallb reads_back (conditions g)); cbn [negb andb]; [by apply IH|done].
Qed.

Lemma price_splits_eq base gs :
  base_ok base → gs ≠ [] → Forall editable_group gs →
  let rules := buildRequestRuleExpr gs in
  splitBillingExprAndRequestRules (combineBillingExpr base rules) =
  Some (if forallb read_group_ok gs then mkSplit base rules
        else mkSplit (js "(" ++ base ++ js ") * " ++ rules) []).
Proof.
  intros Hb Hne Hgs rules. destruct (combine_parts base gs Hb Hne Hgs) as (Ec & Ej & Hs).
  fold rules in Ec, Ej. rewrite Ec. unfold splitBillingExprAndRequestRules. rewrite Ej.
  rewrite (trimmed_join _ (price_parts base gs));
    [|done|eapply Forall_impl; [exact Hs|]; by intros ? (?&?&_)].
  destruct (join (js " * ") (price_parts base gs)) as [|c0 s0] eqn:Ejs; [done|].
  rewrite <- Ejs. unfold splitTopLevelMultiply. rewrite split_join_solid; [|apply sep_mul|done].
  assert ((length (price_parts base gs) <=? 1)%nat = false) as -> by (by destruct gs).
  unfold price_parts. cbn [sort_parts]. rewrite base_no_rule, sort_factors by done.
  destruct (forallb read_group_ok gs) eqn:Er.
  - rewrite forallb_forall in Er.
    rewrite (bfilter_all _ gs) by (intros g Hg; apply Er; by apply list_elem_of_In).
    rewrite (bfilter_none _ gs) by (intros g Hg; rewrite Er; [done|by apply list_elem_of_In]).
    subst rules. destruct (build_rules gs Hgs) as (-> & _). destruct gs as [|g gs]; [done|]. cbn [map].
    by rewrite unwrap_base by apply Hb.
  - apply some_lost in Er.
    destruct (List.filter (λ g, negb (read_group_ok g)) gs) as [|g' l]; [done|].
    cbn [map]. by destruct (map buildRuleGroupFactor (List.filter _ gs)).
Qed.

(** A price put together from a base and rules is taken apart into the same
    base and rules, when every rule is read back; where one is not, the whole
    text is taken for the base and no rule is shown. *)
Theorem price_splits base gs :
  base_ok base → gs ≠ [] → Forall editable_group gs →
  let rules := buildRequestRuleExpr gs in
  splitBillingExprAndRequestRules (combineBillingExpr base rules) =
  Some (if forallb read_group_ok gs then mkSplit base rules
        else mkSplit (js "(" ++ base ++ js ") * " ++ rules) []).
Proof. apply price_splits_eq. Qed.

Definition flat_base : jsstr := jq "tier(`base`, p * 3 + c * 15)".

Lemma flat_base_ok : base_ok flat_base.
Proof.
  split; try by vm_compute.
  change flat_base with (js "tier" ++ js "(" ++ jq "`base`, p * 3 + c * 15" ++ js ")").
  apply neutral_app; [apply neutral_flat; by repeat constructor|].
  apply neutral_paren, neutral_flat. by repeat constructor.
Qed.

Theorem price_splits_witness :
  splitBillingExprAndRequestRules (combineBillingExpr flat_base (buildRequestRuleExpr [night_group])) =
  Some (mkSplit flat_base (buildRequestRuleExpr [night_group])).
Proof.
  assert (Forall editable_group [night_group]) as H by (constructor; [apply night_group_editable|done]).
  assert ([night_group] ≠ []) as Hne by discriminate.
  exact (price_splits flat_base [night_group] flat_base_ok Hne H).
Defined.
End RuleReading.
