(* ===== verification/RegexFirst.v ===== *)
(** * The match that is found

    Backtracking tries the alternatives in order and takes the first that lets
    the rest of the pattern match.  [takes r w t m m'] says that this first
    match of [r] on [w ++ t] is [w] and turns the captures [m] into [m'];
    [fails r s m] that there is none.  Their rules follow the pattern, so a
    long pattern is run on a text step by step, without looking at the ways
    that are never tried. *)
From S2P Require Import Prelude JSString Regex.
Local Open Scope re_scope.

Abbreviation caps_map := (gmap nat jsstr).

Definition takes (r : regex) (w t : jsstr) (m m' : caps_map) : Prop :=
  ∀ p, ∃ l, matches r (mkSt p (w ++ t) m) = mkSt (reverse w ++ p) t m' :: l.

Definition fails (r : regex) (s : jsstr) (m : caps_map) : Prop :=
  ∀ p, matches r (mkSt p s m) = [].

(** What follows does not continue the run of a class. *)
Definition stops (q : jschar → bool) (t : jsstr) : Prop :=
  match t with [] => True | c :: _ => q c = false end.

Lemma fails_intro r s m : (∀ p x, x ∉ matches r (mkSt p s m)) → fails r s m.
Proof.
  intros H p. specialize (H p). destruct (matches r (mkSt p s m)) as [|x l]; [done|].
  destruct (H x). by left.
Qed.

Lemma fails_seq r1 r2 s m : fails r1 s m → fails (r1 · r2) s m.
Proof. intros H p. cbn [matches]. by rewrite H. Qed.

Lemma fails_cap n r s m : fails r s m → fails (RCap n r) s m.
Proof. intros H p. cbn [matches]. by rewrite H. Qed.

Lemma fails_alt r1 r2 s m : fails r1 s m → fails r2 s m → fails (RAlt r1 r2) s m.
Proof. intros H1 H2 p. cbn [matches]. by rewrite H1, H2. Qed.

Lemma fails_char q c s m : q c = false → fails (RChar q) (c :: s) m.
Proof. intros H p. cbn [matches rest]. by rewrite H. Qed.

Lemma fails_lit c w d s m : c ≠ d → fails (lit (c :: w)) (d :: s) m.
Proof. intros H. apply fails_seq, fails_char. apply N.eqb_neq. congruence. Qed.

(** A run of blanks, then another character than the one wanted. *)
Lemma fails_ws_lit w c v d s r m :
  Forall (λ x, is_ws x = true) w → is_ws c = false → is_ws d = false → c ≠ d →
  fails (ws_star · lit (c :: v) · r) (w ++ d :: s) m.
Proof.
  intros Hw Hc Hd Hn. unfold ws_star. apply fails_intro. intros p x Hx. re_inv.
  match goal with H : w ++ d :: s = ?w' ++ ?t', H' : ?t' = (c :: v) ++ ?u |- _ =>
    rewrite H' in H; change ((c :: v) ++ u) with (c :: v ++ u) in H;
    eapply (cut_class is_ws) in H as (_ & ? & _); [|done..]; congruence end.
Qed.

Lemma takes_eps t m : takes REps [] t m m.
Proof. intros p. by exists []. Qed.

Lemma takes_seq r1 r2 w1 w2 t m m1 m2 :
  takes r1 w1 (w2 ++ t) m m1 → takes r2 w2 t m1 m2 → takes (r1 · r2) (w1 ++ w2) t m m2.
Proof.
  intros H1 H2 p. rewrite <- app_assoc. destruct (H1 p) as [l1 E1].
  destruct (H2 (reverse w1 ++ p)) as [l2 E2]. cbn [matches]. rewrite E1. cbn [map concat].
  rewrite E2. rewrite reverse_app, <- (app_assoc (reverse w2)). eexists. reflexivity.
Qed.

(** The second pattern takes nothing. *)
Lemma takes_seq_nil r1 r2 w t m m1 m2 :
  takes r1 w t m m1 → takes r2 [] t m1 m2 → takes (r1 · r2) w t m m2.
Proof. intros H1 H2. rewrite <- (app_nil_r w). by eapply takes_seq. Qed.

Lemma takes_char (q : jschar → bool) c t m : q c = true → takes (RChar q) [c] t m m.
Proof.
  intros Hq p. exists []. cbn [matches rest app]. rewrite Hq. unfold advance. cbn [pre rest caps length drop].
  by rewrite drop_0.
Qed.

Lemma takes_lit w t m : takes (lit w) w t m m.
Proof.
  revert t. induction w as [|c w IH]; intros t; [apply takes_eps|].
  cbn [lit]. change (c :: w) with ([c] ++ w). eapply takes_seq; [|apply IH].
  apply takes_char, N.eqb_refl.
Qed.

Lemma takes_lit_seq v r w t m m' : takes r w t m m' → takes (lit v · r) (v ++ w) t m m'.
Proof. apply takes_seq, takes_lit. Qed.

Lemma takes_star_end r t m : fails r t m → takes (RStar r) [] t m m.
Proof.
  intros H p. exists []. cbn [matches rest app]. destruct (length t); cbn [star]; [done|].
  by rewrite H.
Qed.

Lemma takes_star_step r w1 w2 t m m1 m2 :
  w1 ≠ [] → takes r w1 (w2 ++ t) m m1 → takes (RStar r) w2 t m1 m2 →
  takes (RStar r) (w1 ++ w2) t m m2.
Proof.
  intros Hne H1 H2 p. rewrite <- app_assoc. destruct (H1 p) as [l1 E1].
  destruct (H2 (reverse w1 ++ p)) as [l2 E2]. cbn [matches rest] in *.
  destruct (length (w1 ++ w2 ++ t)) as [|n] eqn:En.
  { rewrite length_app in En. destruct w1; simpl in En; [done|lia]. }
  assert (length (w2 ++ t) ≤ n) as Hn by (rewrite length_app in En; destruct w1; simpl in En; [done|lia]).
  cbn [star]. rewrite E1. cbn [map concat rest].
  rewrite (proj2 (Nat.ltb_lt _ _)) by (rewrite En; lia).
  rewrite (star_fuel r (length (w2 ++ t)) n) by done. rewrite E2.
  rewrite reverse_app, <- (app_assoc (reverse w2)). eexists. reflexivity.
Qed.

Lemma stops_fails q t m : stops q t → fails (RChar q) t m.
Proof. intros H p. destruct t as [|c t]; [done|]. by apply fails_char. Qed.

Lemma takes_star (q : jschar → bool) w t m :
  Forall (λ c, q c = true) w → stops q t → takes (RStar (RChar q)) w t m m.
Proof.
  intros Hw Ht. induction Hw as [|c w Hc Hw IH]; [by apply takes_star_end, stops_fails|].
  change (c :: w) with ([c] ++ w). eapply takes_star_step; [done|by apply takes_char|done].
Qed.

Lemma takes_plus (q : jschar → bool) w t m :
  w ≠ [] → Forall (λ c, q c = true) w → stops q t → takes (RPlus (RChar q)) w t m m.
Proof.
  intros Hne Hw Ht. destruct Hw as [|c w Hc Hw]; [done|].
  change (c :: w) with ([c] ++ w). eapply takes_seq; [by apply takes_char|by apply takes_star].
Qed.

Lemma takes_cap n r w t m m' : takes r w t m m' → takes (RCap n r) w t m (<[n := w]> m').
Proof.
  intros H p. destruct (H p) as [l E]. cbn [matches rest]. rewrite E. cbn [map rest pre caps].
  eexists. rewrite length_app. replace (length w + length t - length t) with (length w) by lia.
  by rewrite take_app_length.
Qed.

Lemma takes_alt_l r1 r2 w t m m' : takes r1 w t m m' → takes (RAlt r1 r2) w t m m'.
Proof. intros H p. destruct (H p) as [l E]. cbn [matches]. rewrite E. by eexists. Qed.

Lemma takes_alt_r r1 r2 w t m m' :
  fails r1 (w ++ t) m → takes r2 w t m m' → takes (RAlt r1 r2) w t m m'.
Proof. intros H1 H2 p. destruct (H2 p) as [l E]. cbn [matches]. rewrite H1, E. by eexists. Qed.

Lemma takes_opt r w t m m' : takes r w t m m' → takes (ROpt r) w t m m'.
Proof. apply takes_alt_l. Qed.

Lemma takes_skip r t m : fails r t m → takes (ROpt r) [] t m m.
Proof. intros H. by apply takes_alt_r; [|apply takes_eps]. Qed.

(** An alternative whose continuation fails is passed over. *)
Lemma takes_alt_seq_l r1 r2 r w t m m' : takes (r1 · r) w t m m' → takes (RAlt r1 r2 · r) w t m m'.
Proof.
  intros H p. destruct (H p) as [l E]. cbn [matches] in *. rewrite map_app, concat_app, E. by eexists.
Qed.

Lemma takes_alt_seq_r r1 r2 r w t m m' :
  fails (r1 · r) (w ++ t) m → takes (r2 · r) w t m m' → takes (RAlt r1 r2 · r) w t m m'.
Proof.
  intros H1 H p. destruct (H p) as [l E]. cbn [matches] in *. rewrite map_app, concat_app, E.
  specialize (H1 p). cbn [matches] in H1. rewrite H1. by eexists.
Qed.

(** One of several names, when those before it lead nowhere. *)
Lemma takes_ralts_seq l1 v l2 r w t m m' :
  Forall (λ u, fails (lit u · r) (w ++ t) m) l1 → takes (lit v · r) w t m m' →
  takes (ralts (l1 ++ v :: l2) · r) w t m m'.
Proof.
  intros Hl Hv. induction Hl as [|u l1 Hu Hl IH]; simpl.
  - destruct l2; [done|by apply takes_alt_seq_l].
  - destruct (l1 ++ v :: l2) eqn:E; [by destruct l1|]. by apply takes_alt_seq_r.
Qed.

Lemma takes_end m : takes REnd [] [] m m.
Proof. intros p. by exists []. Qed.

(** ** From a first match to the functions on texts *)

Lemma exec_hit r w t m p :
  takes r w t ∅ m → exec_from r p (w ++ t) = Some (p, mkSt (reverse w ++ p) t m).
Proof. intros H. destruct (H p) as [l E]. revert E. by destruct (w ++ t); intros E; cbn [exec_from]; rewrite E. Qed.

(** The search passes over places where nothing matches. *)
Lemma exec_skip r u s p :
  (∀ u1 u2, u = u1 ++ u2 → u2 ≠ [] → fails r (u2 ++ s) ∅) →
  exec_from r p (u ++ s) = exec_from r (reverse u ++ p) s.
Proof.
  revert p. induction u as [|c u IH]; intros p H; [done|]. cbn [app exec_from].
  pose proof (H [] (c :: u) eq_refl ltac:(done) p) as E. cbn [app] in E. rewrite E.
  rewrite IH; [by rewrite reverse_cons, <- app_assoc|].
  intros u1 u2 -> Hne. by apply (H (c :: u1) u2).
Qed.

Lemma exec_none r s p : (∀ s1 s2, s = s1 ++ s2 → fails r s2 ∅) → exec_from r p s = None.
Proof.
  intros H. revert p. induction s as [|c s IH]; intros p; cbn [exec_from].
  - by rewrite (H [] [] eq_refl p).
  - rewrite (H [] (c :: s) eq_refl p). apply IH. intros s1 s2 ->. by apply (H (c :: s1) s2).
Qed.

Lemma exec_all_hit fuel r u w t m p :
  takes r w t ∅ m → (∀ u1 u2, u = u1 ++ u2 → u2 ≠ [] → fails r (u2 ++ w ++ t) ∅) →
  exec_all (S fuel) r p (u ++ w ++ t) =
  (reverse u ++ p, mkSt (reverse w ++ reverse u ++ p) t m) :: exec_all fuel r (reverse w ++ reverse u ++ p) t.
Proof. intros Hw Hu. cbn [exec_all]. by rewrite exec_skip, (exec_hit _ _ _ _ _ Hw). Qed.

Lemma exec_all_none fuel r s p : exec_from r p s = None → exec_all fuel r p s = [].
Proof. intros H. destruct fuel as [|fuel]; cbn [exec_all]; [done|]. by rewrite H. Qed.

Lemma re_match_takes r w m : takes r w [] ∅ m → re_match (RStart · r) w = Some m.
Proof.
  intros H. unfold re_match. destruct (H []) as [l E]. rewrite app_nil_r in E.
  assert (matches (RStart · r) (mkSt [] w ∅) = mkSt (reverse w ++ []) [] m :: l) as E'
    by (by rewrite matches_start).
  destruct w as [|c w]; cbn [exec_from]; by rewrite E'.
Qed.

Lemma re_match_fails r s : fails r s ∅ → re_match (RStart · r) s = None.
Proof. intros H. apply re_match_None. intros x. rewrite H. apply not_elem_of_nil. Qed.

(** ** More ways to fail, and to choose among names *)

Lemma stops_app (q : jschar → bool) w t : w ≠ [] → Forall (λ c, q c = false) w → stops q (w ++ t).
Proof. intros Hne Hw. destruct w as [|c w]; [done|]. by apply Forall_cons in Hw as [Hc _]. Qed.

Ltac no_match :=
  match goal with Hx : _ ∈ matches _ _, H : fails _ _ _ |- _ =>
    rewrite H in Hx; by apply not_elem_of_nil in Hx end.

Lemma fails_lit_seq u r s m : fails r s m → fails (lit u · r) (u ++ s) m.
Proof.
  intros H. apply fails_intro. intros p x Hx. re_inv.
  match goal with E : u ++ s = u ++ _ |- _ => apply app_inv_head in E as <- end.
  no_match.
Qed.

Lemma fails_cap_lit_seq n u r s m : fails r s (<[n := u]> m) → fails (RCap n (lit u) · r) (u ++ s) m.
Proof.
  intros H. apply fails_intro. intros p x (y & Hy & Hx)%elem_of_seq.
  apply elem_of_cap in Hy as (p' & t & m' & w & Hy & E & ->).
  apply in_lit in Hy as (t' & E' & [= -> -> ->]). apply app_inv_head in E' as <-.
  apply app_inv_tail in E as <-. rewrite H in Hx. by apply not_elem_of_nil in Hx.
Qed.

Lemma fails_cap_lit n c w d s r m : c ≠ d → fails (RCap n (lit (c :: w)) · r) (d :: s) m.
Proof. intros H. by apply fails_seq, fails_cap, fails_lit. Qed.

Lemma fails_plus (q : jschar → bool) d s m : q d = false → fails (RPlus (RChar q)) (d :: s) m.
Proof. intros H. by apply fails_seq, fails_char. Qed.

(** Optional blanks, where none or one stands. *)
Lemma fails_ws d s r m : is_ws d = false → fails r (d :: s) m → fails (ws_star · r) (d :: s) m.
Proof.
  intros Hd Hr. unfold ws_star. apply fails_intro. intros p x Hx. re_inv.
  match goal with E : d :: s = ?w ++ ?t, F : Forall _ ?w |- _ => destruct w as [|c w']; simpl in E;
    [subst t|injection E as -> _; apply Forall_cons in F as [F _]; congruence] end.
  no_match.
Qed.

Lemma fails_ws1 b d s r m :
  is_ws d = false → fails r (d :: s) m → fails r (b :: d :: s) m → fails (ws_star · r) (b :: d :: s) m.
Proof.
  intros Hd Hr Hb. unfold ws_star. apply fails_intro. intros p x Hx. re_inv.
  match goal with E : b :: d :: s = ?w ++ ?t, F : Forall _ ?w |- _ => destruct w as [|c [|c' w']]; simpl in E;
    [subst t|injection E as -> <-|injection E as -> -> _;
      apply Forall_cons in F as [_ F]; apply Forall_cons in F as [F _]; congruence] end.
  all: no_match.
Qed.

(** The name of another variable. *)
Lemma fails_word u v r s m :
  Forall (λ c, is_word c = true) u → Forall (λ c, is_word c = true) v → u ≠ v →
  fails (lit u · ws_star · lit (js "*") · r) (v ++ js " " ++ s) m.
Proof.
  intros Hu Hv Hn. unfold ws_star. apply fails_intro. intros p x Hx. re_inv.
  match goal with E : v ++ js " " ++ s = u ++ ?t, E' : ?t = ?w ++ ?t', F : Forall _ ?w, E2 : ?t' = _ |- _ =>
    rewrite E', E2 in E; destruct F as [|c w' Hc F];
    [eapply (cut_class is_word v u 32%N 42%N) in E; [naive_solver|done..]|
     eapply (cut_class is_word v u 32%N c) in E; [naive_solver|done|done|done|]] end.
  destruct (is_word c) eqn:Ew; [|done]. revert Hc. by rewrite (is_word_not_ws c Ew).
Qed.

Lemma takes_cap_alt_seq_l n r1 r2 r w t m m' :
  takes (RCap n r1 · r) w t m m' → takes (RCap n (RAlt r1 r2) · r) w t m m'.
Proof.
  intros H p. destruct (H p) as [l E]. cbn [matches] in *.
  rewrite map_app, map_app, concat_app, E. by eexists.
Qed.

Lemma takes_cap_alt_seq_r n r1 r2 r w t m m' :
  fails (RCap n r1 · r) (w ++ t) m → takes (RCap n r2 · r) w t m m' →
  takes (RCap n (RAlt r1 r2) · r) w t m m'.
Proof.
  intros H1 H p. destruct (H p) as [l E]. cbn [matches] in *.
  rewrite map_app, map_app, concat_app, E. specialize (H1 p). cbn [matches] in H1. rewrite H1. by eexists.
Qed.

Lemma takes_cap_ralts_seq n l1 v l2 r w t m m' :
  Forall (λ u, fails (RCap n (lit u) · r) (w ++ t) m) l1 → takes (RCap n (lit v) · r) w t m m' →
  takes (RCap n (ralts (l1 ++ v :: l2)) · r) w t m m'.
Proof.
  intros Hl Hv. induction Hl as [|u l1 Hu Hl IH]; simpl.
  - destruct l2; [done|by apply takes_cap_alt_seq_l].
  - destruct (l1 ++ v :: l2) eqn:E; [by destruct l1|]. by apply takes_cap_alt_seq_r.
Qed.

(** ** Loops over the matches *)

(** Every match moves forward. *)
Definition advances (r : regex) : Prop :=
  ∀ st st', st' ∈ matches r st → length (rest st') < length (rest st).

Lemma matches_shorter r st st' : st' ∈ matches r st → length (rest st') ≤ length (rest st).
Proof. intros (w & E & _)%matches_consume. rewrite E, length_app. lia. Qed.

Lemma advances_char q : advances (RChar q).
Proof.
  intros st st' (c & t & E & _ & ->)%elem_of_char. rewrite (rest_advance [c] t), E by done. simpl. lia.
Qed.

Lemma advances_seq_l r1 r2 : advances r1 → advances (r1 · r2).
Proof.
  intros H st st' (st1 & H1 & H2)%elem_of_seq. apply H in H1. apply matches_shorter in H2. lia.
Qed.

Lemma advances_seq_r r1 r2 : advances r2 → advances (r1 · r2).
Proof.
  intros H st st' (st1 & H1 & H2)%elem_of_seq. apply matches_shorter in H1. apply H in H2. lia.
Qed.

Lemma advances_lit c w : advances (lit (c :: w)).
Proof. apply advances_seq_l, advances_char. Qed.

Lemma exec_advances r p s b st : advances r → exec_from r p s = Some (b, st) → length (rest st) < length s.
Proof.
  intros Hr. revert p. induction s as [|c s IH]; intros p; cbn [exec_from];
    destruct (matches r _) as [|x l] eqn:E; try done.
  1, 3: intros [= <- <-]; assert (x ∈ x :: l) as Hx by (by left); rewrite <- E in Hx; by apply Hr in Hx.
  intros H. apply IH in H. simpl. lia.
Qed.

(** The loop makes at most as many turns as the text has characters, and then
    stops by itself: more fuel changes nothing. *)
Lemma exec_all_bounded r fuel p s : advances r → length (exec_all fuel r p s) ≤ length s.
Proof.
  intros Hr. revert p s. induction fuel as [|fuel IH]; intros p s; cbn [exec_all length]; [lia|].
  destruct (exec_from r p s) as [[b st]|] eqn:E; [|simpl; lia].
  apply exec_advances in E; [|done]. specialize (IH (pre st) (rest st)). simpl. lia.
Qed.

Lemma exec_all_fuel r fuel p s :
  advances r → length s < fuel → exec_all fuel r p s = exec_all (S (length s)) r p s.
Proof.
  intros Hr. revert p s. enough (∀ n p s fuel, length s ≤ n → length s < fuel →
    exec_all fuel r p s = exec_all (S (length s)) r p s) as H by (intros p s Hf; by apply (H (length s))).
  intros n. induction n as [|n IH]; intros p s f Hn Hf; (destruct f as [|f]; [lia|]); cbn [exec_all];
    (destruct (exec_from r p s) as [[b st]|] eqn:E; [|done]); apply exec_advances in E; try done; [lia|].
  f_equal. rewrite (IH _ (rest st) f), (IH _ (rest st) (length s)) by lia. done.
Qed.
