(* ===== verification/TierExpr.v ===== *)
(** * Price expressions: the tiers

    The part of a price expression before its request rules
    ([features/pricing/lib/tier-expr.ts], the tier parser of [billing-expr.ts]
    and [dynamic-price.ts]): the visual editor prints a list of tiers as one
    expression and reads it back by regular expressions; the pages that show
    prices read the same text by a looser pattern.

    A tier of the editor is an object with a few typed fields; the prices that
    belong to variables of [BILLING_CACHE_VAR_MAP] are addressed by name and
    kept in [costs].  Other fields play no part and are left out.
    [evalExprLocally] hands the text to the JavaScript engine and is not
    modelled. *)
From S2P Require Import Prelude JSString JSNumber JSON Regex RegexFirst BillingExpr.
Local Open Scope re_scope.

Module Tiers.
Import Vars.

(** ** The configuration of the editor *)

Inductive CacheMode := Timed | Generic.

(** [value: number | string], or nothing *)
Inductive CondValue := CNum (n : num) | CText (s : jsstr) | CNone.

Record TierConditionInput := mkCond { var : jsstr; op : jsstr; value : CondValue }.

Record VisualTier := mkTier {
  label : jsstr;
  conditions : list TierConditionInput;
  input_unit_cost : num;
  output_unit_cost : num;
  cache_mode : CacheMode;
  costs : obj num;
}.

(** [Partial<VisualTier>] *)
Record PartialTier := mkPartialTier {
  p_label : option jsstr;
  p_conditions : option (list TierConditionInput);
  p_input : option num;
  p_output : option num;
  p_mode : option CacheMode;
  p_costs : obj num;
}.

Definition VisualConfig := list VisualTier.

(** [Number(x) || 0], for a number or nothing *)
Definition or_zero (x : option num) : num :=
  match x with Some x => if num_truthy x then x else num_zero | None => num_zero end.

Definition CACHE_1H : jsstr := js "cache_create_1h_unit_cost".

Definition getTierCacheMode (tier : PartialTier) : CacheMode :=
  match p_mode tier with
  | Some mode => mode
  | None =>
      match obj_get CACHE_1H (p_costs tier) with
      | Some x => if num_ltb num_zero x then Timed else Generic
      | None => Generic
      end
  end.

(** The spread of the tier comes after the first five fields, so that it keeps
    its own values there, and before the others, which are normalised. *)
Definition normalizeVisualTier (tier : PartialTier) : VisualTier :=
  mkTier (opt_or (p_label tier) []) (opt_or (p_conditions tier) [])
    (opt_or (p_input tier) num_zero) (opt_or (p_output tier) num_zero)
    (getTierCacheMode tier)
    (map (λ cv, (cv.1, or_zero (obj_get cv.1 (p_costs tier)))) BILLING_CACHE_VAR_MAP).

Definition partial (t : VisualTier) : PartialTier :=
  mkPartialTier (Some (label t)) (Some (conditions t)) (Some (input_unit_cost t))
    (Some (output_unit_cost t)) (Some (cache_mode t)) (costs t).

Definition createDefaultVisualConfig : VisualConfig :=
  [normalizeVisualTier (mkPartialTier (Some (js "base")) (Some []) (Some num_zero) (Some num_zero)
     (Some Generic) [])].

Definition normalizeVisualConfig (config : option VisualConfig) : VisualConfig :=
  match config with
  | None | Some [] => createDefaultVisualConfig
  | Some tiers => map (λ t, normalizeVisualTier (partial t)) tiers
  end.

(** ** Printing *)

Definition value_text (v : CondValue) : jsstr :=
  match v with CNum n => num_to_string n | CText s => s | CNone => [] end.

(** [c.var && c.op && c.value != null && c.value !== ''] *)
Definition filled (c : TierConditionInput) : bool :=
  nonempty (var c) && nonempty (op c) &&
  match value c with CNum _ => true | CText s => nonempty s | CNone => false end.

Definition cond_text (c : TierConditionInput) : jsstr :=
  var c ++ js " " ++ op c ++ js " " ++ value_text (value c).

Definition buildConditionStr (conditions : list TierConditionInput) : jsstr :=
  join (js " && ") (map cond_text (List.filter filled conditions)).

Definition cost_part (cv : jsstr * jsstr) (t : VisualTier) : list jsstr :=
  let v := or_zero (obj_get cv.1 (costs t)) in
  if num_truthy v then [cv.2 ++ js " * " ++ num_to_string v] else [].

Definition buildTierBodyExpr (t : VisualTier) : jsstr :=
  join (js " + ")
    ((js "p * " ++ num_to_string (or_zero (Some (input_unit_cost t)))) ::
     (js "c * " ++ num_to_string (or_zero (Some (output_unit_cost t)))) ::
     concat (map (λ cv, cost_part cv t) BILLING_CACHE_VAR_MAP)).

(** A call of the function [tier] on a label and a body. *)
Definition tier_call (name : jsstr) (t : VisualTier) : jsstr :=
  jq "tier(`" ++ name ++ jq "`, " ++ buildTierBodyExpr t ++ js ")".

Definition FREE : jsstr := js "p * 0 + c * 0".

Definition tier_name (i : nat) (t : VisualTier) : jsstr :=
  str_or (label t) (js "tier_" ++ string_of_N (N.of_nat (i + 1))).

(** The part of tier [i] of [n]; the conditions of the last one are dropped. *)
Definition tier_part (n i : nat) (t : VisualTier) : jsstr :=
  let body := tier_call (tier_name i t) t in
  let cond := buildConditionStr (conditions t) in
  if (i <? n - 1) && nonempty cond then cond ++ js " ? " ++ body else body.

Definition generateExprFromVisualConfig (config : option VisualConfig) : jsstr :=
  match config with
  | None | Some [] => FREE
  | Some [t] =>
      let body := tier_call (str_or (label t) (js "default")) t in
      let cond := buildConditionStr (conditions t) in
      match cond with [] => body | _ => cond ++ js " ? " ++ body ++ js " : " ++ FREE end
  | Some tiers => join (js " : ") (imap (tier_part (length tiers)) tiers)
  end.

(** ** Reading *)

(** The version prefix, its number and the rest as groups; the reader of the
    editor has a pattern without the first group. *)
Definition VERSION : regex :=
  RStart · lit (js "v") · RCap 1 (RPlus (RChar is_digit)) · lit (js ":") ·
  RCap 2 (RStar (RChar any_char)) · REnd.

Definition number_group (k : nat) : regex := RCap k (RPlus (RChar num_char)).

(** An optional summand for each variable, its number being a group. *)
Definition cost_group (k : nat) (v : jsstr) : regex :=
  ws_star · lit (js "+") · ws_star · lit v · ws_star · lit (js "*") · ws_star · number_group k.
Fixpoint optCacheStr (k : nat) (vars : list jsstr) : regex :=
  match vars with
  | [] => REps
  | v :: vars => ROpt (cost_group k v) · optCacheStr (S k) vars
  end.

(** [bodyPat], its first group being number [k] *)
Definition bodyPat (k : nat) : regex :=
  lit (js "p") · ws_star · lit (js "*") · ws_star · number_group k · ws_star · lit (js "+") · ws_star ·
  lit (js "c") · ws_star · lit (js "*") · ws_star · number_group (S k) ·
  optCacheStr (S (S k)) (map snd BILLING_CACHE_VAR_MAP).

(** The name [tier], a parenthesis, the quoted label as group [k], a comma. *)
Definition tier_open (k : nat) (r : regex) : regex :=
  lit (jq "tier(`") · RCap k (RStar (RChar (not_char DQ))) · lit (jq "`,") · ws_star · r.

Definition single_body : regex := tier_open 1 (bodyPat 2 · lit (js ")") · REnd).
Definition singleRe : regex := RStart · single_body.

Definition OPS : list jsstr := map js ["<"; "<="; ">"; ">="]%string.
Definition cond_atom : regex :=
  ralts BILLING_CONDITION_VARS · ws_star · ralts OPS · ws_star · RPlus (RChar num_char_pos).
Definition AND : regex := ws_star · lit (js "&&") · ws_star.
Definition condGroup : regex := RCap 1 (cond_atom · RStar (ws_star · lit (js "&&") · ws_star · cond_atom)).
Definition with_cond (r : regex) : regex :=
  ROpt (condGroup · ws_star · lit (js "?") · ws_star) · r.

Definition tierRe : regex := with_cond (tier_open 2 (bodyPat 3 · lit (js ")"))).

(** One condition: a variable, a comparison and a number, each a group. *)
Definition COND : regex :=
  RStart · RCap 1 (ralts BILLING_CONDITION_VARS) · ws_star · RCap 2 (ralts OPS) · ws_star ·
  RCap 3 (RPlus (RChar num_char_pos)) · REnd.

Definition read_condition (cp : jsstr) : option TierConditionInput :=
  m ← re_match COND (trim cp);
  Some (mkCond (group 1 m) (group 2 m) (CNum (Number (group 3 m)))).

Definition read_conditions (condStr : jsstr) : list TierConditionInput :=
  match condStr with [] => [] | _ => omap read_condition (re_split AND condStr) end.

(** The fields whose group took part, from group [k] on. *)
Fixpoint read_costs (k : nat) (fields : list (jsstr * jsstr)) (m : gmap nat jsstr) : obj num :=
  match fields with
  | [] => []
  | cv :: fields =>
      match m !! k with
      | Some val => (cv.1, Number val) :: read_costs (S k) fields m
      | None => read_costs (S k) fields m
      end
  end.

Definition tier_of (k : nat) (conds : list TierConditionInput) (m : gmap nat jsstr) : VisualTier :=
  normalizeVisualTier (mkPartialTier (Some (group k m)) (Some conds) (Some (Number (group (k + 1) m)))
    (Some (Number (group (k + 2) m))) None (read_costs (k + 3) BILLING_CACHE_VAR_MAP m)).

Definition tryParseVisualConfig (exprStr : jsstr) : option VisualConfig :=
  match exprStr with
  | [] => None
  | _ =>
      let body := match re_match VERSION exprStr with Some m => group 2 m | None => exprStr end in
      match re_match singleRe body with
      | Some simple => Some (normalizeVisualConfig (Some [tier_of 1 [] simple]))
      | None =>
          match map (λ m, tier_of 2 (read_conditions (group 1 m)) m) (re_all tierRe body) with
          | [] => None
          | tiers =>
              let cfg := normalizeVisualConfig (Some tiers) in
              if bool_decide (strip_ws (generateExprFromVisualConfig (Some cfg)) = strip_ws body)
              then Some cfg else None
          end
      end
  end.

(** ** The tiers that the pages show *)

Record ParsedTier := mkParsed {
  parsed_label : jsstr;
  parsed_conditions : list TierConditionInput;
  prices : obj num;
}.

Definition stripExprVersion (exprStr : jsstr) : num * jsstr :=
  match re_match VERSION exprStr with
  | Some m => (Number (group 1 m), group 2 m)
  | None => (num_of_Z 1, exprStr)
  end.

Definition parseTierBody (bodyStr : jsstr) : obj num :=
  let coeffs := foldl (λ o m,
    if obj_has (group 1 m) o then o else obj_set (group 1 m) (Number (group 2 m)) o) []
    (re_all BILLING_VAR_REGEX bodyStr) in
  map (λ kf, (kf.2, or_zero (obj_get kf.1 coeffs))) BILLING_VAR_KEY_TO_FIELD.

Definition shownRe : regex :=
  with_cond (tier_open 2 (RCap 3 (RPlus (RChar (not_char 41%N))) · lit (js ")"))).

Definition parseTiersFromExpr (exprStr : jsstr) : list ParsedTier :=
  let body := snd (stripExprVersion exprStr) in
  map (λ m, mkParsed (group 2 m) (read_conditions (group 1 m)) (parseTierBody (group 3 m)))
    (re_all shownRe body).

End Tiers.
