(* ===== verification/TierReading.v ===== *)
(** * Tiers are read back

    The text that the visual editor prints for a list of tiers
    ([TierExpr.Tiers.generateExprFromVisualConfig]) is read back as that list,
    and the pages that show prices read the same tiers from it.  The patterns
    are run on the printed text with the rules of [RegexFirst]: first the
    pieces of a tier (numbers, costs, conditions), then one tier, then the
    loop over all of them. *)
From S2P Require Import Prelude JSString JSNumber JSON Regex RegexFirst BillingExpr TierExpr.
Local Open Scope re_scope.

Module TierReading.
Import Vars Tiers.

(** ** Numbers and words *)

(** A number that is printed as the characters the patterns accept, and read
    back; a computation for each number. *)
Definition readable (x : num) : bool :=
  let s := num_to_string x in
  nonempty s && forallb num_char s && bool_decide (Number s = x).

(** A text that stands for a number in a condition: canonical, and without a
    minus sign. *)
Definition plain_value (s : jsstr) : bool :=
  nonempty s && forallb num_char_pos s && bool_decide (num_to_string (Number s) = s).

Record digits_ok (q : jschar → bool) (s : jsstr) : Prop := {
  digits_ne : s ≠ [];
  digits_all : Forall (λ c, q c = true) s;
}.

Lemma nonempty_ne s : nonempty s = true → s ≠ [].
Proof. by destruct s. Qed.

Lemma readable_digits x : readable x = true → digits_ok num_char (num_to_string x) ∧ Number (num_to_string x) = x.
Proof.
  intros [[H1 H2]%andb_true_iff H3%bool_decide_eq_true]%andb_true_iff. split; [|done].
  split; [by apply nonempty_ne|by apply forallb_Forall].
Qed.

Lemma plain_value_digits s :
  plain_value s = true → digits_ok num_char_pos s ∧ num_to_string (Number s) = s.
Proof.
  intros [[H1 H2]%andb_true_iff H3%bool_decide_eq_true]%andb_true_iff. split; [|done].
  split; [by apply nonempty_ne|by apply forallb_Forall].
Qed.

Lemma in_chars (P : jschar → Prop) l c : bool_decide (c ∈ l) = true → Forall P l → P c.
Proof. intros Hc%bool_decide_eq_true Hl. by eapply Forall_forall in Hl. Qed.

Lemma num_char_not_ws c : num_char c = true → is_ws c = false.
Proof.
  intros [H|H]%orb_true_iff; [by apply is_digit_not_ws|].
  refine (in_chars (λ c, is_ws c = false) _ _ H _). by repeat constructor.
Qed.

Lemma num_char_pos_not_ws c : num_char_pos c = true → is_ws c = false.
Proof.
  intros [H|H]%orb_true_iff; [by apply is_digit_not_ws|].
  refine (in_chars (λ c, is_ws c = false) _ _ H _). by repeat constructor.
Qed.

Lemma digits_stop q s t :
  (∀ c, q c = true → is_ws c = false) → digits_ok q s → stops is_ws (s ++ t).
Proof. intros Hq [H1 H2]. apply stops_app; [done|]. by eapply Forall_impl. Qed.

Lemma name_stop v t : v ≠ [] → Forall (λ c, is_word c = true) v → stops is_ws (v ++ t).
Proof. intros H1 H2. apply stops_app; [done|]. eapply Forall_impl; [done|]. apply is_word_not_ws. Qed.

(** One blank before what is no blank. *)
Lemma takes_blank t m : stops is_ws t → takes ws_star (js " ") t m m.
Proof. apply takes_star. by repeat constructor. Qed.

(** Steps of a pattern over a text written as its pieces. *)
Ltac solve_stop :=
  rewrite <- ?app_assoc;
  first [ done | by apply name_stop | eapply digits_stop; [|eassumption]; by auto using num_char_not_ws, num_char_pos_not_ws ].
Ltac step :=
  first [ eapply (takes_seq _ _ (js " ")); [apply takes_blank; by solve_stop|]
        | eapply takes_seq; [apply takes_lit|] ].

(** ** The costs of a tier *)

Definition cost_text (v s : jsstr) : jsstr :=
  js " " ++ js "+" ++ js " " ++ v ++ js " " ++ js "*" ++ js " " ++ s.

(** The variables in the order of the pattern, each with its printed number
    or nothing. *)
Definition costs_text (cs : list (jsstr * option jsstr)) : jsstr :=
  concat (map (λ c, match c.2 with Some s => cost_text c.1 s | None => [] end) cs).

Fixpoint put_costs (k : nat) (cs : list (jsstr * option jsstr)) (m : caps_map) : caps_map :=
  match cs with
  | [] => m
  | c :: cs => put_costs (S k) cs (match c.2 with Some s => <[k := s]> m | None => m end)
  end.

Definition name_ok (v : jsstr) : Prop := v ≠ [] ∧ Forall (λ c, is_word c = true) v.

Definition costs_ok (cs : list (jsstr * option jsstr)) : Prop :=
  NoDup (map fst cs) ∧ Forall (λ c, name_ok c.1 ∧ ∀ s, c.2 = Some s → digits_ok num_char s) cs.

Lemma costs_text_cases cs :
  costs_text cs = [] ∨
  ∃ v r, v ∈ map fst cs ∧ costs_text cs = js " " ++ js "+" ++ js " " ++ v ++ js " " ++ r.
Proof.
  induction cs as [|[v [s|]] cs IH]; [by left| |].
  - right. exists v, (js "*" ++ js " " ++ s ++ costs_text cs). split; [by left|].
    unfold costs_text, cost_text. cbn [map concat fst snd]. by rewrite <- !app_assoc.
  - destruct IH as [IH|(v' & r & Hv & IH)]; [by left|]. right. exists v', r. split; [by right|done].
Qed.

Lemma takes_number k s t m :
  digits_ok num_char s → stops num_char t → takes (number_group k) s t m (<[k := s]> m).
Proof. intros [H1 H2] Ht. by apply takes_cap, takes_plus. Qed.

Lemma takes_cost k v s t m :
  name_ok v → digits_ok num_char s → stops num_char t →
  takes (cost_group k v) (cost_text v s) t m (<[k := s]> m).
Proof.
  intros [Hv1 Hv2] Hs Ht. unfold cost_group, cost_text.
  do 7 step. by apply takes_number.
Qed.

Lemma costs_stop (q : jschar → bool) cs t :
  q 32%N = false → q 41%N = false → stops q (costs_text cs ++ js ")" ++ t).
Proof. intros H1 H2. by destruct (costs_text_cases cs) as [->|(v & r & _ & ->)]. Qed.

(** A variable that is not printed: the next one is another. *)
Lemma fails_cost k v cs t m :
  name_ok v → Forall (λ c, name_ok c.1) cs → v ∉ map fst cs →
  fails (cost_group k v) (costs_text cs ++ js ")" ++ t) m.
Proof.
  intros [Hv1 Hv2] Hcs Hv. unfold cost_group.
  destruct (costs_text_cases cs) as [->|(v' & r & Hv' & ->)].
  { apply fails_ws; [done|]. by apply fails_seq, fails_lit. }
  rewrite <- !app_assoc. apply fails_ws1; [done| |by apply fails_seq, fails_lit].
  apply (fails_lit_seq (js "+")).
  assert (name_ok v') as [Hn1 Hn2].
  { apply list_elem_of_fmap in Hv' as (c & -> & Hc). by eapply Forall_forall in Hcs. }
  assert (v ≠ v') as Hne by congruence.
  destruct v' as [|d v']; [done|]. pose proof (proj1 (proj1 (Forall_cons _ _ _) Hn2)) as Hd.
  cbn [app]. apply fails_ws1; [by apply is_word_not_ws| |].
  - by apply (fails_word v (d :: v')).
  - destruct v as [|c v]; [done|]. apply fails_seq, fails_lit. intros ->.
    by apply Forall_cons in Hv2 as [? _].
Qed.

Lemma takes_costs k cs t m :
  costs_ok cs → takes (optCacheStr k (map fst cs)) (costs_text cs) (js ")" ++ t) m (put_costs k cs m).
Proof.
  intros [Hnd Hcs]. revert k m. induction Hcs as [|[v o] cs [Hv Ho] Hcs IH]; intros k m; [apply takes_eps|].
  apply NoDup_cons in Hnd as [Hn Hnd]. cbn [map optCacheStr put_costs fst snd] in *. destruct o as [s|].
  - eapply takes_seq; [|by apply IH]. apply takes_opt, takes_cost; [done|by apply Ho|].
    by apply costs_stop.
  - eapply (takes_seq _ _ []); [|by apply IH]. apply takes_skip, fails_cost; [done| |done].
    eapply Forall_impl; [exact Hcs|]. by intros ? [? _].
Qed.

(** ** One tier *)

Definition body_text (a b : jsstr) (cs : list (jsstr * option jsstr)) : jsstr :=
  js "p" ++ js " " ++ js "*" ++ js " " ++ a ++ js " " ++ js "+" ++ js " " ++
  js "c" ++ js " " ++ js "*" ++ js " " ++ b ++ costs_text cs.

Definition body_caps (k : nat) (a b : jsstr) (cs : list (jsstr * option jsstr)) (m : caps_map) : caps_map :=
  put_costs (S (S k)) cs (<[S k := b]> (<[k := a]> m)).

Definition cache_vars : list jsstr := map snd BILLING_CACHE_VAR_MAP.

Lemma takes_body k a b cs t m :
  digits_ok num_char a → digits_ok num_char b → costs_ok cs → map fst cs = cache_vars →
  takes (bodyPat k) (body_text a b cs) (js ")" ++ t) m (body_caps k a b cs m).
Proof.
  intros Ha Hb Hcs Hv. unfold bodyPat, body_text. change (map snd BILLING_CACHE_VAR_MAP) with cache_vars.
  rewrite <- Hv. do 4 step. eapply takes_seq; [by apply takes_number|]. do 7 step.
  eapply takes_seq; [apply takes_number; [done|by apply costs_stop]|]. by apply takes_costs.
Qed.

(** A label without a quotation mark. *)
Definition label_ok (name : jsstr) : Prop := Forall (λ c, not_char DQ c = true) name.

Definition open_text (name w : jsstr) : jsstr := jq "tier(`" ++ name ++ jq "`," ++ js " " ++ w.

Lemma takes_tier_open k name r w t m m' :
  label_ok name → stops is_ws (w ++ t) → takes r w t (<[k := name]> m) m' →
  takes (tier_open k r) (open_text name w) t m m'.
Proof.
  intros Hn Hw Hr. unfold tier_open, open_text. eapply takes_seq; [apply takes_lit|].
  eapply takes_seq; [by apply takes_cap, takes_star|]. eapply takes_seq; [apply takes_lit|].
  eapply takes_seq; [by apply takes_blank|done].
Qed.

(** ** Conditions *)

Definition cond_ok (c : TierConditionInput) : Prop :=
  var c ∈ BILLING_CONDITION_VARS ∧ op c ∈ OPS ∧ plain_value (value_text (value c)) = true.

(** The alternatives before the right one: another name, or a shorter
    operator, after which no number stands. *)
Lemma takes_var v r w t m m' :
  v ∈ BILLING_CONDITION_VARS → takes r w t m m' →
  takes (ralts BILLING_CONDITION_VARS · r) (v ++ w) t m m'.
Proof.
  intros Hv Hr. change BILLING_CONDITION_VARS with (map js ["p"; "c"; "len"]%string) in *.
  pose proof (takes_seq _ _ v w t m m m' (takes_lit v _ m) Hr) as Hl. cbn [map] in *.
  each_of Hv;
    [apply (takes_ralts_seq [])|apply (takes_ralts_seq [js "p"])|apply (takes_ralts_seq [js "p"; js "c"])];
    try exact Hl; repeat constructor; by apply fails_seq, fails_lit.
Qed.

Lemma takes_op o r w t m m' :
  o ∈ OPS → (∀ s, fails r (js "=" ++ s) m) → takes r w t m m' → takes (ralts OPS · r) (o ++ w) t m m'.
Proof.
  intros Ho Hf Hr. unfold OPS in *.
  pose proof (takes_seq _ _ o w t m m m' (takes_lit o _ m) Hr) as Hl. cbn [map] in *.
  each_of Ho;
    [apply (takes_ralts_seq [])|apply (takes_ralts_seq [js "<"])|apply (takes_ralts_seq [js "<"; js "<="])
    |apply (takes_ralts_seq [js "<"; js "<="; js ">"])];
    try exact Hl; repeat constructor;
    first [by apply fails_seq, fails_lit|apply (fails_lit_seq (js "<")), Hf|apply (fails_lit_seq (js ">")), Hf].
Qed.

Definition cond_words (v o s : jsstr) : jsstr := v ++ js " " ++ o ++ js " " ++ s.

Lemma cond_text_words c : cond_text c = cond_words (var c) (op c) (value_text (value c)).
Proof. done. Qed.

Lemma op_stop o t : o ∈ OPS → stops is_ws (o ++ t).
Proof. unfold OPS. cbn [map]. intros Ho. by each_of Ho. Qed.

Lemma fails_number (r : regex) s m :
  (∀ t m, fails r (js "=" ++ t) m) → fails (ws_star · r) (js "=" ++ s) m.
Proof. intros H. apply fails_ws; [done|]. apply H. Qed.

Lemma takes_atom c t m :
  cond_ok c → stops num_char_pos t → takes cond_atom (cond_text c) t m m.
Proof.
  intros (Hv & Ho & [Hs _]%plain_value_digits) Ht. rewrite cond_text_words. unfold cond_atom, cond_words.
  pose proof Hs as [Hs1 Hs2]. apply takes_var; [done|]. eapply (takes_seq _ _ (js " ")).
  { apply takes_blank. rewrite <- !app_assoc. by apply op_stop. }
  apply takes_op; [done| |].
  { intros s. apply fails_number. intros ??. by apply fails_plus. }
  step. by apply takes_plus.
Qed.

Definition more_conds (cs : list TierConditionInput) : jsstr :=
  concat (map (λ c, js " " ++ js "&&" ++ js " " ++ cond_text c) cs).

Lemma more_conds_stop cs t : stops num_char_pos (more_conds cs ++ js " " ++ t).
Proof. by destruct cs. Qed.

Lemma cond_stop c t : cond_ok c → stops is_ws (cond_text c ++ t).
Proof.
  intros (Hv & _ & _). rewrite cond_text_words. unfold cond_words.
  change BILLING_CONDITION_VARS with (map js ["p"; "c"; "len"]%string) in Hv. cbn [map] in Hv.
  by each_of Hv.
Qed.

Lemma takes_conds c cs t m :
  Forall cond_ok (c :: cs) →
  takes condGroup (cond_text c ++ more_conds cs) (js " ? " ++ t) m
    (<[1 := cond_text c ++ more_conds cs]> m).
Proof.
  intros [Hc Hcs]%Forall_cons. apply takes_cap. eapply takes_seq.
  { apply takes_atom; [done|]. change (js " ? " ++ t) with (js " " ++ js "? " ++ t).
    rewrite <- ?app_assoc. apply more_conds_stop. }
  clear Hc. induction Hcs as [|c' cs Hc Hcs IH].
  { apply takes_star_end. apply (fails_ws_lit (js " ") 38%N (js "&") 63%N); by repeat constructor. }
  unfold more_conds. cbn [map concat]. fold (more_conds cs).
  eapply takes_star_step; [done| |exact IH].
  do 2 step. eapply (takes_seq _ _ (js " ")); [by apply takes_blank, cond_stop|].
  apply takes_atom; [done|]. change (js " ? " ++ t) with (js " " ++ js "? " ++ t). apply more_conds_stop.
Qed.

(** The printed conditions, their question mark included, or nothing. *)
Definition guard_text (cs : list TierConditionInput) : jsstr :=
  match cs with [] => [] | c :: cs => (cond_text c ++ more_conds cs) ++ js " " ++ js "?" ++ js " " end.
Definition guard_caps (cs : list TierConditionInput) (m : caps_map) : caps_map :=
  match cs with [] => m | c :: cs => <[1 := cond_text c ++ more_conds cs]> m end.

Lemma takes_guarded cs k r name w t m' :
  Forall cond_ok cs → takes (tier_open k r) (open_text name w) t (guard_caps cs ∅) m' →
  takes (with_cond (tier_open k r)) (guard_text cs ++ open_text name w) t ∅ m'.
Proof.
  intros Hcs Hr. destruct cs as [|c cs].
  - unfold with_cond. eapply (takes_seq _ _ []); [|exact Hr]. apply takes_skip. by intros p.
  - eapply takes_seq; [|exact Hr]. apply takes_opt. unfold guard_text.
    eapply takes_seq; [by apply takes_conds|]. step. eapply takes_seq; [apply takes_lit|].
    by apply takes_blank.
Qed.

(** ** The printed form of a tier *)

Record TierText := mkText {
  t_conds : list TierConditionInput;
  t_name : jsstr;
  t_in : jsstr;
  t_out : jsstr;
  t_costs : list (jsstr * option jsstr);
}.

Record text_ok (q : TierText) : Prop := {
  ok_conds : Forall cond_ok (t_conds q);
  ok_name : label_ok (t_name q);
  ok_in : digits_ok num_char (t_in q);
  ok_out : digits_ok num_char (t_out q);
  ok_costs : costs_ok (t_costs q);
  ok_vars : map fst (t_costs q) = cache_vars;
}.

Definition body_of (q : TierText) : jsstr := body_text (t_in q) (t_out q) (t_costs q).
Definition call_text (q : TierText) : jsstr := open_text (t_name q) (body_of q ++ js ")").
Definition part_text (q : TierText) : jsstr := guard_text (t_conds q) ++ call_text q.
Definition more_parts (qs : list TierText) : jsstr :=
  concat (map (λ q, js " : " ++ part_text q) qs).

(** The groups of the patterns of the editor and of the pages. *)
Definition part_caps (k : nat) (q : TierText) (m : caps_map) : caps_map :=
  body_caps (S k) (t_in q) (t_out q) (t_costs q) (<[k := t_name q]> m).
Definition shown_caps (q : TierText) : caps_map :=
  <[3 := body_of q]> (<[2 := t_name q]> (guard_caps (t_conds q) ∅)).

Lemma takes_call k q t m :
  text_ok q → takes (bodyPat (S k) · lit (js ")")) (body_of q ++ js ")") t (<[k := t_name q]> m) (part_caps k q m).
Proof.
  intros [_ _ Ha Hb Hc Hv]. eapply takes_seq; [by apply takes_body|apply takes_lit].
Qed.

Lemma takes_tier q t : text_ok q → takes tierRe (part_text q) t ∅ (part_caps 2 q (guard_caps (t_conds q) ∅)).
Proof.
  intros Hq. apply takes_guarded; [by apply Hq|]. apply takes_tier_open; [by apply Hq|done|].
  by apply takes_call.
Qed.

Lemma takes_single q : text_ok q → takes single_body (call_text q) [] ∅ (part_caps 1 q ∅).
Proof.
  intros Hq. apply takes_tier_open; [by apply Hq|done|].
  eapply takes_seq; [by apply takes_body; apply Hq|]. eapply takes_seq_nil; [apply takes_lit|apply takes_end].
Qed.

Abbreviation no_close := (not_char 41%N).

Lemma num_char_no_close c : num_char c = true → no_close c = true.
Proof.
  intros [H|H]%orb_true_iff.
  - unfold not_char. apply negb_true_iff, N.eqb_neq. intros ->. by vm_compute in H.
  - refine (in_chars (λ c, no_close c = true) _ _ H _). by repeat constructor.
Qed.

Lemma word_no_close c : is_word c = true → no_close c = true.
Proof. intros H. unfold not_char. apply negb_true_iff, N.eqb_neq. intros ->. by vm_compute in H. Qed.

(** What every sign of a body is: a digit, a letter or one of the signs
    around them. *)
Lemma body_chars (P : jschar → bool) q :
  (∀ c, num_char c = true → P c = true) → (∀ c, is_word c = true → P c = true) →
  Forall (λ c, P c = true) (js " *+pc") → text_ok q → Forall (λ c, P c = true) (body_of q).
Proof.
  intros Hn Hw Hs [_ _ [_ Ha] [_ Hb] [_ Hc] _].
  assert (∀ s, forallb (λ c, bool_decide (c ∈ js " *+pc")) s = true → Forall (λ c, P c = true) s) as Hl.
  { intros s Hi%forallb_Forall. eapply Forall_impl; [exact Hi|]. intros c Hin%bool_decide_eq_true_1.
    eapply Forall_forall in Hs; [exact Hs|done]. }
  unfold body_of, body_text.
  rewrite !Forall_app. split_and!; try (by eapply Forall_impl; [eassumption|]); try (by apply Hl; vm_compute).
  unfold costs_text. induction Hc as [|[v [s|]] cs [[_ Hv] Ho] _ IH]; [constructor| |exact IH].
  cbn [map concat fst snd] in *. unfold cost_text. destruct (Ho s eq_refl) as [_ Hd].
  rewrite !Forall_app. split_and!; try done; try (by eapply Forall_impl; [eassumption|]); by apply Hl; vm_compute.
Qed.

Lemma body_no_close q : text_ok q → Forall (λ c, no_close c = true) (body_of q).
Proof. apply body_chars; [apply num_char_no_close|apply word_no_close|by repeat constructor]. Qed.

Lemma takes_shown q t : text_ok q → takes shownRe (part_text q) t ∅ (shown_caps q).
Proof.
  intros Hq. apply takes_guarded; [by apply Hq|]. apply takes_tier_open; [by apply Hq|done|].
  eapply takes_seq; [|apply takes_lit]. apply takes_cap, takes_plus; [done|by apply body_no_close|done].
Qed.

(** ** The loop over the tiers *)

Section Loop.
Context (r : regex) (caps_of : TierText → caps_map).
Context (Hr : ∀ q t, text_ok q → takes r (part_text q) t ∅ (caps_of q)).
Context (Hsep : ∀ c s, c ∈ js " :" → fails r (c :: s) ∅).

Lemma skip_colon u1 u2 s : js " : " = u1 ++ u2 → u2 ≠ [] → fails r (u2 ++ s) ∅.
Proof.
  intros E Hne. destruct u2 as [|c u2]; [done|]. apply Hsep.
  assert (c ∈ js " : ") as Hc by (rewrite E; apply elem_of_app; right; by left).
  change (js " : ") with (js " :" ++ [32%N]) in Hc.
  apply elem_of_app in Hc as [Hc|Hc]; [done|]. apply list_elem_of_singleton in Hc as ->. by left.
Qed.

Lemma loop_more fuel p qs tail :
  Forall text_ok qs → (∀ p, exec_from r p tail = None) → length qs ≤ fuel →
  map (caps ∘ snd) (exec_all fuel r p (more_parts qs ++ tail)) = map caps_of qs.
Proof.
  intros Hqs Ht. revert fuel p. induction Hqs as [|q qs Hq Hqs IH]; intros fuel p Hf.
  { by rewrite exec_all_none. }
  destruct fuel as [|fuel]; [simpl in Hf; lia|]. unfold more_parts. cbn [map concat]. fold (more_parts qs).
  rewrite <- !app_assoc. rewrite (exec_all_hit fuel r (js " : ") (part_text q) (more_parts qs ++ tail) (caps_of q)).
  - cbn [map compose caps snd]. f_equal. apply IH. simpl in Hf. lia.
  - by apply Hr.
  - intros u1 u2 E Hne. by apply (skip_colon u1).
Qed.

Lemma length_more qs : length qs ≤ length (more_parts qs).
Proof.
  unfold more_parts. induction qs as [|q qs IH]; cbn [map concat length]; [lia|].
  rewrite !length_app. change (length (js " : ")) with 3. lia.
Qed.

Lemma loop_all q qs tail :
  Forall text_ok (q :: qs) → (∀ p, exec_from r p tail = None) →
  re_all r (part_text q ++ more_parts qs ++ tail) = map caps_of (q :: qs).
Proof.
  intros [Hq Hqs]%Forall_cons Ht. unfold re_all.
  pose proof (exec_all_hit (length (part_text q ++ more_parts qs ++ tail)) r [] (part_text q)
    (more_parts qs ++ tail) (caps_of q) [] (Hr _ _ Hq)) as E. cbn [app reverse] in E.
  rewrite E by (by intros [] [] ? ?). cbn [map compose caps snd]. f_equal.
  apply loop_more; [done|done|]. rewrite !length_app. pose proof (length_more qs). lia.
Qed.

End Loop.

(** ** Conditions are split and read *)

Lemma nws_cut u : u ≠ [] → last_nws u →
  ∃ w d s, u = w ++ d :: s ∧ Forall (λ c, is_ws c = true) w ∧ is_ws d = false.
Proof.
  intros Hne Hl. destruct (trim_start_suffix u) as (w & E & Hw).
  pose proof (trim_start_head u) as Hh. destruct (trim_start u) as [|d s].
  - rewrite app_nil_r in E. subst w. exfalso. unfold last_nws in Hl.
    destruct u as [|c u] using rev_ind; [done|]. rewrite reverse_snoc in Hl. simpl in Hl.
    apply Forall_app in Hw as [_ Hw]. apply Forall_cons in Hw as [Hw _]. congruence.
  - exists w, d, s. by rewrite E.
Qed.

Record piece_ok (w : jsstr) : Prop := {
  piece_ne : w ≠ [];
  piece_calm : Forall (λ c, c ≠ 38%N) w;
  piece_head : ∀ t, stops is_ws (w ++ t);
  piece_last : last_nws w;
}.

Lemma fails_and u1 u2 w s : piece_ok w → w = u1 ++ u2 → u2 ≠ [] → fails AND (u2 ++ s) ∅.
Proof.
  intros [_ Hc _ Hl] -> Hne. rewrite last_nws_app in Hl by done.
  destruct (nws_cut u2 Hne Hl) as (b & d & u & -> & Hb & Hd). rewrite <- app_assoc.
  apply (fails_ws_lit b 38%N (js "&")); [done..|].
  apply Forall_app in Hc as [_ Hc]. apply Forall_app in Hc as [_ Hc].
  apply Forall_cons in Hc as [Hc _]. congruence.
Qed.

Lemma takes_and w t : piece_ok w → takes AND (js " && ") (w ++ t) ∅ ∅.
Proof.
  intros Hw. eapply (takes_seq _ _ (js " ")); [by apply takes_blank|].
  eapply (takes_seq _ _ (js "&&") (js " ")); [apply takes_lit|]. by apply takes_blank, Hw.
Qed.

Definition more_pieces (ws : list jsstr) : jsstr := concat (map (λ w, js " && " ++ w) ws).

Lemma pieces_and fuel u w ws :
  Forall piece_ok (w :: ws) → length ws < fuel →
  pieces (u ++ w ++ more_pieces ws) (length u)
    (exec_all fuel AND (reverse u) (w ++ more_pieces ws)) = w :: ws.
Proof.
  revert fuel u w. induction ws as [|w' ws IH]; intros fuel u w [Hw Hws]%Forall_cons Hf.
  - unfold more_pieces. cbn [map concat]. rewrite app_nil_r. rewrite exec_all_none.
    { cbn [pieces]. by rewrite drop_app_length. }
    apply exec_none. intros s1 s2 E. destruct s2 as [|c s2]; [by intros p|].
    rewrite <- (app_nil_r (c :: s2)). by apply (fails_and s1 _ w).
  - destruct fuel as [|fuel]; [lia|]. unfold more_pieces. cbn [map concat]. fold (more_pieces ws).
    rewrite <- (app_assoc (js " && ")).
    pose proof (proj1 (proj1 (Forall_cons _ _ _) Hws)) as Hw'.
    rewrite (exec_all_hit fuel AND w (js " && ") (w' ++ more_pieces ws) ∅);
      [|by apply takes_and|intros u1 u2; by apply fails_and].
    cbn [pieces pre]. f_equal.
    + rewrite length_app, !length_reverse. unfold slice. rewrite drop_app_length.
      replace (length w + length u - length u) with (length w) by lia. by rewrite take_app_length.
    + specialize (IH fuel (u ++ w ++ js " && ") w' Hws). simpl in Hf.
      rewrite !reverse_app, <- !app_assoc in IH. rewrite <- IH by lia. f_equal.
      rewrite !length_app, !length_reverse. lia.
Qed.

Lemma split_and w ws : Forall piece_ok (w :: ws) → re_split AND (w ++ more_pieces ws) = w :: ws.
Proof.
  intros H. unfold re_split. apply (pieces_and _ [] w ws H).
  rewrite length_app. unfold more_pieces. clear H.
  assert (length ws ≤ length (concat (map (λ w, js " && " ++ w) ws))); [|lia].
  induction ws as [|v ws IH]; cbn [map concat length]; [lia|]. rewrite !length_app.
  change (length (js " && ")) with 4. lia.
Qed.

Lemma takes_var_cap n v r w t m m' :
  v ∈ BILLING_CONDITION_VARS → takes r w t (<[n := v]> m) m' →
  takes (RCap n (ralts BILLING_CONDITION_VARS) · r) (v ++ w) t m m'.
Proof.
  intros Hv Hr. change BILLING_CONDITION_VARS with (map js ["p"; "c"; "len"]%string) in *.
  pose proof (takes_seq _ _ v w t m _ m' (takes_cap n _ _ _ _ _ (takes_lit v _ m)) Hr) as Hl. cbn [map] in *.
  each_of Hv;
    [apply (takes_cap_ralts_seq _ [])|apply (takes_cap_ralts_seq _ [js "p"])
    |apply (takes_cap_ralts_seq _ [js "p"; js "c"])];
    try exact Hl; repeat constructor; by apply fails_cap_lit.
Qed.

Lemma takes_op_cap n o r w t m m' :
  o ∈ OPS → (∀ s m, fails r (js "=" ++ s) m) → takes r w t (<[n := o]> m) m' →
  takes (RCap n (ralts OPS) · r) (o ++ w) t m m'.
Proof.
  intros Ho Hf Hr. unfold OPS in *.
  pose proof (takes_seq _ _ o w t m _ m' (takes_cap n _ _ _ _ _ (takes_lit o _ m)) Hr) as Hl. cbn [map] in *.
  each_of Ho;
    [apply (takes_cap_ralts_seq _ [])|apply (takes_cap_ralts_seq _ [js "<"])
    |apply (takes_cap_ralts_seq _ [js "<"; js "<="])
    |apply (takes_cap_ralts_seq _ [js "<"; js "<="; js ">"])];
    try exact Hl; repeat constructor;
    first [by apply fails_cap_lit|apply (fails_cap_lit_seq _ (js "<")), Hf
          |apply (fails_cap_lit_seq _ (js ">")), Hf].
Qed.

Lemma match_cond c :
  cond_ok c →
  re_match COND (cond_text c) = Some (<[3 := value_text (value c)]> (<[2 := op c]> (<[1 := var c]> ∅))).
Proof.
  intros (Hv & Ho & [[Hs1 Hs2] _]%plain_value_digits). apply re_match_takes.
  rewrite cond_text_words. unfold cond_words. apply takes_var_cap; [done|].
  eapply (takes_seq _ _ (js " ")); [apply takes_blank; rewrite <- app_assoc; by apply op_stop|].
  apply takes_op_cap; [done| |].
  { intros s m. apply fails_number. intros ??. by apply fails_seq, fails_cap, fails_plus. }
  eapply (takes_seq _ _ (js " ")).
  { apply takes_blank, stops_app; [done|]. eapply Forall_impl; [exact Hs2|]. apply num_char_pos_not_ws. }
  eapply takes_seq_nil; [by apply takes_cap, takes_plus|apply takes_end].
Qed.

Lemma num_char_pos_calm c : num_char_pos c = true → c ≠ 38%N.
Proof.
  intros [H|H]%orb_true_iff; [intros ->; by vm_compute in H|].
  refine (in_chars (λ c, c ≠ 38%N) _ _ H _). repeat constructor; discriminate.
Qed.

Lemma cond_piece c : cond_ok c → piece_ok (cond_text c).
Proof.
  intros Hc. pose proof Hc as (Hv & Ho & [[Hs1 Hs2] _]%plain_value_digits). split.
  - rewrite cond_text_words. unfold cond_words. by destruct (var c).
  - rewrite cond_text_words. unfold cond_words. repeat (apply Forall_app; split).
    1: change BILLING_CONDITION_VARS with (map js ["p"; "c"; "len"]%string) in Hv; cbn [map] in Hv;
      each_of Hv; repeat constructor; discriminate.
    1, 3: repeat constructor; discriminate.
    + unfold OPS in Ho. cbn [map] in Ho. each_of Ho; repeat constructor; discriminate.
    + eapply Forall_impl; [exact Hs2|]. apply num_char_pos_calm.
  - intros t. by apply cond_stop.
  - unfold cond_text. rewrite !app_assoc, last_nws_app by done. apply trimmed_iff.
    apply trimmed_no_ws. eapply Forall_impl; [exact Hs2|]. apply num_char_pos_not_ws.
Qed.

Lemma piece_trim w : piece_ok w → trim w = w.
Proof.
  intros [Hne _ Hh Hl]. apply trimmed_iff. split; [|done]. specialize (Hh []). rewrite app_nil_r in Hh.
  by destruct w.
Qed.

(** What a condition becomes: its value is a number. *)
Definition reread_cond (c : TierConditionInput) : TierConditionInput :=
  mkCond (var c) (op c) (CNum (Number (value_text (value c)))).

Lemma read_cond c : cond_ok c → read_condition (cond_text c) = Some (reread_cond c).
Proof.
  intros Hc. unfold read_condition. rewrite piece_trim, match_cond by auto using cond_piece. done.
Qed.

Lemma more_conds_pieces cs : more_conds cs = more_pieces (map cond_text cs).
Proof. unfold more_conds, more_pieces. by rewrite map_map. Qed.

Lemma read_guard cs m :
  Forall cond_ok cs → m !! 1 = None → read_conditions (group 1 (guard_caps cs m)) = map reread_cond cs.
Proof.
  intros Hcs Hm. destruct cs as [|c cs]; unfold group, guard_caps; [by rewrite Hm|].
  rewrite lookup_insert_eq. cbn [opt_or]. unfold read_conditions.
  destruct (cond_text c ++ more_conds cs) eqn:E.
  { apply app_eq_nil in E as [E _]. apply Forall_cons in Hcs as [Hc _]. by destruct (piece_ne _ (cond_piece c Hc)). }
  rewrite <- E, more_conds_pieces, split_and.
  2: { change (cond_text c :: map cond_text cs) with (map cond_text (c :: cs)).
    apply Forall_forall. intros w (c' & -> & Hc')%list_elem_of_fmap. apply cond_piece.
    by eapply Forall_forall in Hcs. }
  clear E. change (cond_text c :: map cond_text cs) with (map cond_text (c :: cs)).
  induction Hcs as [|c' cs' Hc Hcs IH]; [done|]. cbn [map omap list_omap]. rewrite read_cond by done.
  f_equal. exact IH.
Qed.

(** ** From a tier to its text and back *)

Definition unit_cost (t : VisualTier) (field : jsstr) : num := or_zero (obj_get field (costs t)).

Definition cost_opts (t : VisualTier) (fields : list (jsstr * jsstr)) : list (jsstr * option jsstr) :=
  map (λ cv, (cv.2, if num_truthy (unit_cost t cv.1) then Some (num_to_string (unit_cost t cv.1)) else None))
    fields.

Definition text_of_tier (cs : list TierConditionInput) (name : jsstr) (t : VisualTier) : TierText :=
  mkText cs name (num_to_string (or_zero (Some (input_unit_cost t))))
    (num_to_string (or_zero (Some (output_unit_cost t)))) (cost_opts t BILLING_CACHE_VAR_MAP).

Lemma join_concat sep x l : join sep (x :: l) = x ++ concat (map (λ y, sep ++ y) l).
Proof.
  revert x. induction l as [|y l IH]; intros x; [by rewrite app_nil_r|].
  change (join sep (x :: y :: l)) with (x ++ sep ++ join sep (y :: l)). rewrite IH.
  cbn [map concat]. by rewrite <- !app_assoc.
Qed.

Lemma cost_parts_text t fields :
  concat (map (λ y, js " + " ++ y) (concat (map (λ cv, cost_part cv t) fields))) =
  costs_text (cost_opts t fields).
Proof.
  induction fields as [|cv fields IH]; [done|]. unfold costs_text, cost_opts in *. cbn [map concat fst snd].
  rewrite map_app, concat_app, IH. f_equal. unfold cost_part, unit_cost.
  destruct (num_truthy _); [|done]. cbn [map concat]. by rewrite app_nil_r.
Qed.

Lemma body_eq cs name t : buildTierBodyExpr t = body_of (text_of_tier cs name t).
Proof.
  unfold buildTierBodyExpr. rewrite join_concat. cbn [map concat]. rewrite cost_parts_text.
  unfold body_of, body_text. cbn [t_in t_out t_costs text_of_tier]. reflexivity.
Qed.

Lemma tier_call_eq cs name t : tier_call name t = call_text (text_of_tier cs name t).
Proof. unfold tier_call, call_text, open_text. by rewrite (body_eq cs name). Qed.

Lemma conds_eq cs :
  buildConditionStr cs =
  match List.filter filled cs with [] => [] | c :: cs => cond_text c ++ more_conds cs end.
Proof.
  unfold buildConditionStr. destruct (List.filter filled cs) as [|c l]; [done|].
  cbn [map]. rewrite join_concat. unfold more_conds. by rewrite map_map.
Qed.

(** A tier whose prices are printed as the patterns expect. *)
Definition priced (t : VisualTier) : bool :=
  readable (or_zero (Some (input_unit_cost t))) && readable (or_zero (Some (output_unit_cost t))) &&
  forallb (λ cv, readable (unit_cost t cv.1)) BILLING_CACHE_VAR_MAP.

Record tier_ok (t : VisualTier) : Prop := {
  tier_priced : priced t = true;
  tier_label : label_ok (label t);
  tier_conds : Forall cond_ok (List.filter filled (conditions t));
}.

Lemma cache_vars_ok : NoDup cache_vars ∧ Forall name_ok cache_vars.
Proof.
  split; [apply (bool_decide_eq_true_1 _); by vm_compute|].
  repeat constructor; discriminate.
Qed.

Lemma cost_opts_ok t :
  forallb (λ cv, readable (unit_cost t cv.1)) BILLING_CACHE_VAR_MAP = true →
  costs_ok (cost_opts t BILLING_CACHE_VAR_MAP) ∧ map fst (cost_opts t BILLING_CACHE_VAR_MAP) = cache_vars.
Proof.
  intros H%forallb_Forall. destruct cache_vars_ok as [Hn Hw].
  assert (map fst (cost_opts t BILLING_CACHE_VAR_MAP) = cache_vars) as Hv by (unfold cost_opts; by rewrite map_map).
  split; [|done]. split; [by rewrite Hv|]. apply Forall_forall. intros c Hc. split.
  - eapply Forall_forall; [exact Hw|]. rewrite <- Hv. apply list_elem_of_fmap. by exists c.
  - intros s Hs. apply list_elem_of_fmap in Hc as (cv & -> & Hcv). cbn [snd] in Hs.
    eapply Forall_forall in H; [|exact Hcv]. cbn in H. destruct (num_truthy _); [|done].
    injection Hs as <-. by apply readable_digits.
Qed.

Lemma text_of_ok cs name t :
  priced t = true → label_ok name → Forall cond_ok cs → text_ok (text_of_tier cs name t).
Proof.
  intros [[H1 H2]%andb_true_iff H3]%andb_true_iff Hn Hcs. destruct (cost_opts_ok t H3) as [Hc Hv].
  split; try done; by apply readable_digits.
Qed.

(** ** The groups become the tier *)

Lemma put_costs_below k cs m j : j < k → put_costs k cs m !! j = m !! j.
Proof.
  revert k m. induction cs as [|[v [s|]] cs IH]; intros k m Hj; cbn [put_costs snd]; [done| |].
  - rewrite IH by lia. apply lookup_insert_ne. lia.
  - rewrite IH by lia. done.
Qed.

Lemma read_put_costs t fields k m :
  (∀ j, k ≤ j → m !! j = None) →
  Forall (λ cv, readable (unit_cost t cv.1) = true) fields →
  read_costs k fields (put_costs k (cost_opts t fields) m) =
  concat (map (λ cv, if num_truthy (unit_cost t cv.1) then [(cv.1, unit_cost t cv.1)] else []) fields).
Proof.
  intros Hm Hf. revert k m Hm. induction Hf as [|cv fields Hcv Hf IH]; intros k m Hm; [done|].
  unfold cost_opts. cbn [map put_costs read_costs snd concat]. fold (cost_opts t fields).
  rewrite put_costs_below by lia. destruct (num_truthy (unit_cost t cv.1)).
  - rewrite lookup_insert_eq. cbn [app]. rewrite IH.
    + f_equal. f_equal. by apply readable_digits.
    + intros j Hj. rewrite lookup_insert_ne by lia. apply Hm. lia.
  - rewrite Hm by lia. cbn [app]. apply IH. intros j Hj. apply Hm. lia.
Qed.

Lemma num_ltb_zero : num_ltb num_zero num_zero = false.
Proof. done. Qed.

Lemma or_zero_positive o :
  match o with Some x => if num_ltb num_zero x then Timed else Generic | None => Generic end =
  if num_ltb num_zero (or_zero o) then Timed else Generic.
Proof. destruct o as [[|[]| |]|]; done. Qed.

(** Only the normalised costs matter. *)
Lemma normalize_ext l cs i o c1 c2 :
  (∀ cv, cv ∈ BILLING_CACHE_VAR_MAP → or_zero (obj_get cv.1 c1) = or_zero (obj_get cv.1 c2)) →
  normalizeVisualTier (mkPartialTier l cs i o None c1) =
  normalizeVisualTier (mkPartialTier l cs i o None c2).
Proof.
  intros H. unfold normalizeVisualTier, getTierCacheMode.
  cbn [p_mode p_costs p_label p_conditions p_input p_output].
  assert ((CACHE_1H, js "cc1h") ∈ BILLING_CACHE_VAR_MAP) as H1 by (apply (bool_decide_eq_true_1 _); by vm_compute).
  pose proof (H _ H1) as H2. cbn [fst] in H2. rewrite !or_zero_positive, H2. f_equal. apply map_ext_in. intros cv Hcv.
  rewrite H; [done|]. by apply list_elem_of_In.
Qed.

Lemma get_map_costs (f : jsstr → num) (fields : list (jsstr * jsstr)) k :
  k ∈ map fst fields → obj_get k (map (λ cv, (cv.1, f cv.1)) fields) = Some (f k).
Proof.
  induction fields as [|cv fields IH]; cbn [map obj_get]; [by intros ?%not_elem_of_nil|].
  intros Hk. destruct (decide (k = cv.1)) as [->|Hne]; [done|]. apply IH.
  by apply elem_of_cons in Hk as [?|?].
Qed.

Lemma get_truthy_costs (f : jsstr → num) (fields : list (jsstr * jsstr)) k :
  k ∈ map fst fields →
  or_zero (obj_get k (concat (map (λ cv, if num_truthy (f cv.1) then [(cv.1, f cv.1)] else []) fields))) =
  or_zero (Some (f k)).
Proof.
  induction fields as [|cv fields IH]; cbn [map concat]; [by intros ?%not_elem_of_nil|].
  intros Hk. rewrite obj_get_app. destruct (num_truthy (f cv.1)) eqn:Et; cbn [obj_get].
  - destruct (decide (k = cv.1)) as [->|Hne]; [done|]. apply IH. by apply elem_of_cons in Hk as [?|?].
  - apply elem_of_cons in Hk as [->|Hk]; [|by apply IH].
    destruct (decide (cv.1 ∈ map fst fields)) as [Hin|Hn]; [by apply IH|].
    replace (obj_get _ _) with (@None num).
    { unfold or_zero. by rewrite Et. }
    symmetry. apply obj_get_None. contradict Hn. unfold obj_keys in Hn.
    apply list_elem_of_fmap in Hn as (kv & -> & (l & Hl & Hin)%elem_of_concat).
    apply list_elem_of_fmap in Hl as (cv' & -> & Hcv'). destruct (num_truthy (f cv'.1)); [|by apply not_elem_of_nil in Hin].
    apply list_elem_of_singleton in Hin as ->. apply list_elem_of_fmap. by exists cv'.
Qed.

Lemma or_zero_idemp o : or_zero (Some (or_zero o)) = or_zero o.
Proof. destruct o as [x|]; [|done]. unfold or_zero. by destruct (num_truthy x) eqn:E; [rewrite E|]. Qed.

Lemma elem_of_fields cv : cv ∈ BILLING_CACHE_VAR_MAP → cv.1 ∈ map fst BILLING_CACHE_VAR_MAP.
Proof. intros H. apply list_elem_of_fmap. by exists cv. Qed.

(** ** What is read back *)

(** A tier as it is read: named, its conditions with numbers, its prices
    normalised, the mode of its cache taken from its prices. *)
Definition reread (name : jsstr) (cs : list TierConditionInput) (t : VisualTier) : VisualTier :=
  normalizeVisualTier (mkPartialTier (Some name) (Some (map reread_cond cs))
    (Some (or_zero (Some (input_unit_cost t)))) (Some (or_zero (Some (output_unit_cost t)))) None (costs t)).

Lemma unit_cost_reread name cs t cv :
  cv ∈ BILLING_CACHE_VAR_MAP → unit_cost (reread name cs t) cv.1 = unit_cost t cv.1.
Proof.
  intros H%elem_of_fields. unfold unit_cost, reread, normalizeVisualTier. cbn [costs p_costs].
  rewrite (get_map_costs (λ k, or_zero (obj_get k (costs t)))) by done. apply or_zero_idemp.
Qed.

Lemma reread_normal name cs t : normalizeVisualTier (partial (reread name cs t)) = reread name cs t.
Proof.
  unfold normalizeVisualTier at 1. unfold partial. cbn [p_label p_conditions p_input p_output p_mode p_costs opt_or].
  unfold getTierCacheMode at 1. cbn [p_mode]. unfold reread, normalizeVisualTier. cbn [label conditions input_unit_cost
    output_unit_cost cache_mode costs]. f_equal. cbn [p_costs]. apply map_ext_in. intros cv Hcv. f_equal.
  rewrite (get_map_costs (λ k, or_zero (obj_get k (costs t)))); [apply or_zero_idemp|].
  by apply elem_of_fields, list_elem_of_In.
Qed.

Lemma tier_of_text k cs name t m :
  (∀ j, k ≤ j → m !! j = None) → priced t = true →
  tier_of k (map reread_cond cs) (part_caps k (text_of_tier cs name t) m) = reread name cs t.
Proof.
  intros Hm [[[_ H1]%readable_digits [_ H2]%readable_digits]%andb_true_iff H3%forallb_Forall]%andb_true_iff.
  unfold tier_of, part_caps, body_caps, group. cbn [t_in t_out t_costs t_name text_of_tier].
  rewrite !put_costs_below by lia. rewrite !Nat.add_succ_r, Nat.add_0_r.
  rewrite lookup_insert_eq, !(lookup_insert_ne _ (S (S k))), lookup_insert_eq by lia.
  rewrite (lookup_insert_ne _ (S k)), lookup_insert_eq by lia. cbn [opt_or]. rewrite H1, H2.
  rewrite read_put_costs; [|intros j Hj; rewrite !lookup_insert_ne by lia; apply Hm; lia|done].
  apply normalize_ext. intros cv Hcv. rewrite (get_truthy_costs (unit_cost t)) by by apply elem_of_fields.
  unfold unit_cost. apply or_zero_idemp.
Qed.

(** ** A list of tiers *)

(** Whether tier [i] of [n] is printed with its conditions, and its name. *)
Definition conds_at (n i : nat) (t : VisualTier) : list TierConditionInput :=
  if (n =? 1) || (i <? n - 1) then List.filter filled (conditions t) else [].
Definition name_at (n i : nat) (t : VisualTier) : jsstr :=
  if n =? 1 then str_or (label t) (js "default") else tier_name i t.
Definition text_at (n i : nat) (t : VisualTier) : TierText := text_of_tier (conds_at n i t) (name_at n i t) t.
Definition reread_at (n i : nat) (t : VisualTier) : VisualTier := reread (name_at n i t) (conds_at n i t) t.

Definition tail_of (q : TierText) (qs : list TierText) : jsstr :=
  match qs, t_conds q with [], _ :: _ => js " : " ++ FREE | _, _ => [] end.
Definition expr_text (qs : list TierText) : jsstr :=
  match qs with [] => FREE | q :: qs => part_text q ++ more_parts qs ++ tail_of q qs end.

Lemma part_eq name cs t :
  (let cond := buildConditionStr (conditions t) in
   List.filter filled (conditions t) = cs →
   (if nonempty cond then cond ++ js " ? " ++ tier_call name t else tier_call name t) =
   part_text (text_of_tier cs name t)).
Proof.
  cbv zeta. intros <-. rewrite conds_eq, (tier_call_eq (List.filter filled (conditions t))). unfold part_text, guard_text.
  cbn [t_conds text_of_tier]. destruct (List.filter filled (conditions t)) as [|c cs]; [done|].
  destruct (cond_text c ++ more_conds cs) as [|x l] eqn:E.
  { apply app_eq_nil in E as [E _]. unfold cond_text in E. by destruct (var c). }
  cbn [nonempty]. by rewrite <- app_assoc.
Qed.

Lemma tier_part_eq n i t : n ≠ 1 → tier_part n i t = part_text (text_at n i t).
Proof.
  intros Hn. unfold tier_part, text_at, conds_at, name_at.
  rewrite (proj2 (Nat.eqb_neq n 1) Hn). cbn [orb]. destruct (i <? n - 1); cbn [andb].
  - by apply part_eq.
  - apply tier_call_eq.
Qed.

Lemma map_imap {A B C} (g : B → C) (f : nat → A → B) l : map g (imap f l) = imap (λ i x, g (f i x)) l.
Proof.
  revert f. induction l as [|x l IH]; intros f; [done|]. cbn [imap map]. f_equal. apply (IH (f ∘ S)).
Qed.

Lemma generate_eq tiers :
  tiers ≠ [] →
  generateExprFromVisualConfig (Some tiers) = expr_text (imap (text_at (length tiers)) tiers).
Proof.
  destruct tiers as [|t [|t2 tiers]]; [done| |]; intros _.
  - unfold generateExprFromVisualConfig, expr_text. cbn [length imap]. unfold more_parts, text_at, conds_at, name_at.
    cbn [Nat.eqb orb map concat app]. unfold tail_of. cbn [t_conds text_of_tier].
    rewrite <- (part_eq (str_or (label t) (js "default")) _ t eq_refl). rewrite conds_eq.
    destruct (List.filter filled (conditions t)) as [|c cs]; [by rewrite app_nil_r|].
    destruct (cond_text c ++ more_conds cs) as [|x l] eqn:E.
    { apply app_eq_nil in E as [E _]. unfold cond_text in E. by destruct (var c). }
    cbn [nonempty]. by rewrite <- !app_assoc.
  - change (generateExprFromVisualConfig (Some (t :: t2 :: tiers))) with
      (join (js " : ") (imap (tier_part (length (t :: t2 :: tiers))) (t :: t2 :: tiers))).
    set (n := length (t :: t2 :: tiers)). assert (n ≠ 1) as Hn by done. clearbody n.
    rewrite (imap_ext _ (λ i x, part_text (text_at n i x))) by (intros; by apply tier_part_eq).
    rewrite <- map_imap. cbn [imap map]. rewrite join_concat. unfold expr_text, more_parts, tail_of.
    rewrite app_nil_r. by rewrite <- (map_map part_text).
Qed.

(** ** The whole expression *)

Lemma part_head q : text_ok q →
  ∃ c s, part_text q = c :: s ∧ c ≠ 118%N ∧ (t_conds q ≠ [] → c ≠ 116%N).
Proof.
  intros [Hc _ _ _ _ _]. unfold part_text. destruct (t_conds q) as [|c cs].
  - eexists _, _. split; [reflexivity|]. split; [discriminate|]. by intros [].
  - apply Forall_cons in Hc as [(Hv & _ & _) _]. cbn [guard_text].
    change BILLING_CONDITION_VARS with (map js ["p"; "c"; "len"]%string) in Hv. cbn [map] in Hv.
    unfold cond_text. each_of Hv; eexists _, _; (split; [reflexivity|split; [discriminate|by intros _]]).
Qed.

Lemma no_version q t : text_ok q → re_match VERSION (part_text q ++ t) = None.
Proof.
  intros Hq. destruct (part_head q Hq) as (c & s & -> & Hc & _). apply re_match_fails, fails_seq, fails_lit.
  intros <-. by apply Hc.
Qed.

Lemma no_single q t : text_ok q → t_conds q ≠ [] → re_match singleRe (part_text q ++ t) = None.
Proof.
  intros Hq Hn. destruct (part_head q Hq) as (c & s & -> & _ & Hc). apply re_match_fails, fails_seq, fails_lit.
  intros <-. by apply Hc.
Qed.

Lemma match_single q : text_ok q → t_conds q = [] → re_match singleRe (part_text q) = Some (part_caps 1 q ∅).
Proof.
  intros Hq Hc. unfold part_text. rewrite Hc. apply re_match_takes. by apply takes_single.
Qed.

Lemma tail_none r q qs p :
  (∀ p, exec_from r p [] = None) → (∀ p, exec_from r p (js " : " ++ FREE) = None) →
  exec_from r p (tail_of q qs) = None.
Proof. intros H1 H2. unfold tail_of. by destruct qs, (t_conds q). Qed.

Lemma read_all r caps_of qs :
  (∀ q t, text_ok q → takes r (part_text q) t ∅ (caps_of q)) →
  (∀ c s, c ∈ js " :" → fails r (c :: s) ∅) →
  (∀ p, exec_from r p [] = None) → (∀ p, exec_from r p (js " : " ++ FREE) = None) →
  qs ≠ [] → Forall text_ok qs → re_all r (expr_text qs) = map caps_of qs.
Proof.
  intros Hr Hs H1 H2 Hne Hqs. destruct qs as [|q qs]; [done|]. unfold expr_text.
  apply loop_all; [done..|]. intros p. by apply tail_none.
Qed.

Lemma read_tiers qs : qs ≠ [] → Forall text_ok qs →
  re_all tierRe (expr_text qs) = map (λ q, part_caps 2 q (guard_caps (t_conds q) ∅)) qs.
Proof.
  apply read_all; [intros q t; apply takes_tier| |done|intros p; by vm_compute].
  intros c s Hc. change (js " :") with [32%N; 58%N] in Hc. by each_of Hc.
Qed.

Lemma read_shown qs : qs ≠ [] → Forall text_ok qs → re_all shownRe (expr_text qs) = map shown_caps qs.
Proof.
  apply read_all; [intros q t; apply takes_shown| |done|intros p; by vm_compute].
  intros c s Hc. change (js " :") with [32%N; 58%N] in Hc. by each_of Hc.
Qed.

(** Texts that are printed alike. *)
Definition same (q q' : TierText) : Prop :=
  part_text q = part_text q' ∧ (t_conds q = [] ↔ t_conds q' = []).

Lemma expr_text_same qs qs' : Forall2 same qs qs' → expr_text qs = expr_text qs'.
Proof.
  intros [|q q' qs0 qs0' [Hq Hc] Hqs]; [done|]. unfold expr_text. rewrite Hq. f_equal.
  assert (more_parts qs0 = more_parts qs0') as ->.
  { unfold more_parts. induction Hqs as [|x y l l' [Hx _] _ IH]; [done|]. cbn [map concat]. by rewrite Hx, IH. }
  f_equal. unfold tail_of. destruct Hqs; [|done]. destruct (t_conds q), (t_conds q'); naive_solver.
Qed.

Lemma cond_text_reread c : cond_ok c → cond_text (reread_cond c) = cond_text c.
Proof. intros (_ & _ & [_ H]%plain_value_digits). unfold cond_text, reread_cond. cbn [var op value value_text]. by rewrite H. Qed.

Lemma guard_reread cs : Forall cond_ok cs → guard_text (map reread_cond cs) = guard_text cs.
Proof.
  intros [|c cs' Hc Hcs]; [done|]. cbn [map guard_text]. rewrite cond_text_reread by done. do 2 f_equal.
  unfold more_conds. rewrite map_map. f_equal. apply map_ext_in. intros c' Hc'%list_elem_of_In.
  rewrite cond_text_reread; [done|]. by eapply Forall_forall in Hcs.
Qed.

Lemma filled_reread cs : Forall cond_ok cs → List.filter filled (map reread_cond cs) = map reread_cond cs.
Proof.
  intros H. apply bfilter_all. intros c' (c & -> & Hc)%list_elem_of_fmap.
  eapply Forall_forall in H as (Hv & Ho & _); [|exact Hc]. unfold filled, reread_cond. cbn [var op value].
  change BILLING_CONDITION_VARS with (map js ["p"; "c"; "len"]%string) in Hv. unfold OPS in Ho. cbn [map] in Hv, Ho.
  assert (nonempty (var c) = true) as -> by (by each_of Hv).
  assert (nonempty (op c) = true) as -> by (by each_of Ho). done.
Qed.

Lemma str_or_label (name d : jsstr) : name ≠ [] → str_or name d = name.
Proof. by destruct name. Qed.

Lemma name_at_ne n i t : name_at n i t ≠ [].
Proof. unfold name_at, tier_name. destruct (n =? 1), (label t); done. Qed.

Lemma name_at_ok n i t : label_ok (label t) → label_ok (name_at n i t).
Proof.
  intros Hl. unfold name_at, tier_name. destruct (n =? 1), (label t); try done; cbn [str_or].
  - by repeat constructor.
  - apply Forall_app. split; [by repeat constructor|]. eapply Forall_impl; [apply string_of_N_digits|].
    intros c Hc. unfold not_char. apply negb_true_iff, N.eqb_neq. intros ->. by vm_compute in Hc.
Qed.

Lemma conds_at_ok n i t : tier_ok t → Forall cond_ok (conds_at n i t).
Proof. intros [_ _ H]. unfold conds_at. by destruct (_ || _). Qed.

Lemma text_at_ok n i t : tier_ok t → text_ok (text_at n i t).
Proof. intros Ht. apply text_of_ok; [apply Ht|apply name_at_ok, Ht|by apply conds_at_ok]. Qed.

Lemma cost_opts_reread name cs t : cost_opts (reread name cs t) BILLING_CACHE_VAR_MAP = cost_opts t BILLING_CACHE_VAR_MAP.
Proof. apply map_ext_in. intros cv Hcv%list_elem_of_In. by rewrite unit_cost_reread. Qed.

Lemma text_reread n i t : tier_ok t → same (text_at n i (reread_at n i t)) (text_at n i t).
Proof.
  intros Ht. pose proof (conds_at_ok n i t Ht) as Hc.
  assert (name_at n i (reread_at n i t) = name_at n i t) as Hn.
  { unfold name_at at 1, tier_name, reread_at, reread, normalizeVisualTier.
    cbn [label p_label opt_or]. rewrite !str_or_label by apply name_at_ne. by destruct (n =? 1). }
  assert (conds_at n i (reread_at n i t) = map reread_cond (conds_at n i t)) as Hcs.
  { unfold reread_at, reread, normalizeVisualTier. unfold conds_at at 1. cbn [conditions p_conditions opt_or].
    rewrite filled_reread by done. unfold conds_at. by destruct (_ || _). }
  unfold same, text_at. rewrite Hn, Hcs. unfold part_text, call_text, body_of, text_of_tier.
  cbn [t_conds t_name t_in t_out t_costs]. unfold reread_at at 3. rewrite cost_opts_reread. split.
  - rewrite guard_reread by done. unfold reread_at, reread, normalizeVisualTier.
    cbn [input_unit_cost output_unit_cost p_input p_output opt_or]. by rewrite !or_zero_idemp.
  - by destruct (conds_at n i t).
Qed.

(** ** The round trip *)

(** Tiers as the editor keeps them; of several tiers the first one has a
    condition. *)
Record editable (tiers : VisualConfig) : Prop := {
  some_tier : tiers ≠ [];
  all_tiers : Forall tier_ok tiers;
  first_guarded : ∀ t, tiers !! 0 = Some t → 1 < length tiers → List.filter filled (conditions t) ≠ [];
}.

Lemma texts_ok n tiers : Forall tier_ok tiers → Forall text_ok (imap (text_at n) tiers).
Proof.
  intros H. apply Forall_lookup. intros i q Hi. rewrite list_lookup_imap in Hi.
  destruct (tiers !! i) as [t|] eqn:E; [|done]. injection Hi as <-. apply text_at_ok. by eapply Forall_lookup in H.
Qed.

Lemma regenerated n tiers :
  n = length tiers → tiers ≠ [] → Forall tier_ok tiers →
  generateExprFromVisualConfig (Some (imap (reread_at n) tiers)) = generateExprFromVisualConfig (Some tiers).
Proof.
  intros -> Hne Ht. rewrite !generate_eq by (by destruct tiers). rewrite length_imap.
  apply expr_text_same. apply Forall2_lookup. intros i. rewrite !list_lookup_imap.
  destruct (tiers !! i) as [t|] eqn:E; [|constructor]. constructor. apply text_reread.
  by eapply Forall_lookup in Ht.
Qed.

Lemma tiers_reread n tiers : Forall tier_ok tiers →
  map (λ m, tier_of 2 (read_conditions (group 1 m)) m)
    (map (λ q, part_caps 2 q (guard_caps (t_conds q) ∅)) (imap (text_at n) tiers)) = imap (reread_at n) tiers.
Proof.
  intros Ht. rewrite map_map, map_imap. apply imap_ext. intros i t Hi.
  eapply Forall_lookup in Ht; [|exact Hi]. pose proof (conds_at_ok n i t Ht) as Hc.
  assert (∀ j, 1 < j → guard_caps (t_conds (text_at n i t)) ∅ !! j = None) as Hj.
  { intros j Hj. unfold guard_caps. destruct (t_conds _); [done|]. by rewrite lookup_insert_ne by lia. }
  assert (group 1 (part_caps 2 (text_at n i t) (guard_caps (t_conds (text_at n i t)) ∅)) =
          group 1 (guard_caps (t_conds (text_at n i t)) ∅)) as Hg.
  { unfold group, part_caps, body_caps. rewrite put_costs_below by lia. by rewrite !lookup_insert_ne by lia. }
  rewrite Hg, read_guard by done. cbn [t_conds text_at text_of_tier].
  apply tier_of_text; [intros j ?; apply Hj; lia|by apply Ht].
Qed.

Lemma normal_config n tiers : tiers ≠ [] →
  normalizeVisualConfig (Some (imap (reread_at n) tiers)) = imap (reread_at n) tiers.
Proof.
  intros Hne. destruct tiers as [|t tiers]; [done|]. cbn [imap normalizeVisualConfig map].
  rewrite map_imap. f_equal; [apply reread_normal|]. apply imap_ext. intros i x _. apply reread_normal.
Qed.

Lemma read_back_eq tiers :
  editable tiers →
  tryParseVisualConfig (generateExprFromVisualConfig (Some tiers)) =
  Some (imap (reread_at (length tiers)) tiers).
Proof.
  intros [Hne Ht Hg]. set (n := length tiers). set (body := generateExprFromVisualConfig (Some tiers)).
  assert (body = expr_text (imap (text_at n) tiers)) as Hb by by apply generate_eq.
  assert (strip_ws (generateExprFromVisualConfig (Some (imap (reread_at n) tiers))) = strip_ws body) as Hs
    by by rewrite regenerated.
  pose proof (texts_ok n tiers Ht) as Hq. pose proof (tiers_reread n tiers Ht) as Hr.
  pose proof (normal_config n tiers Hne) as Hc. clearbody body. subst body.
  destruct tiers as [|t tiers]; [done|]. cbn [imap] in Hq. pose proof Hq as [Hq0 _]%Forall_cons.
  unfold tryParseVisualConfig. destruct (expr_text _) as [|c0 s0] eqn:E.
  { cbn [imap expr_text] in E. destruct (part_head _ Hq0) as (c & s & E' & _). by rewrite E' in E. }
  rewrite <- E in Hs |- *. clear E c0 s0. unfold expr_text. cbn [imap]. rewrite no_version by done.
  destruct (decide (conds_at n 0 t = [])) as [Hn|Hn].
  - assert (tiers = []) as ->.
    { destruct tiers as [|t2 tiers]; [done|]. destruct (Hg t eq_refl); [simpl; lia|].
      unfold conds_at in Hn. by replace ((n =? 1) || (0 <? n - 1)) with true in Hn. }
    unfold more_parts, tail_of. cbn [map concat imap t_conds text_at text_of_tier]. rewrite Hn.
    rewrite !app_nil_r, match_single by done.
    pose proof (tier_of_text 1 (conds_at n 0 t) (name_at n 0 t) t ∅ (λ _ _, eq_refl)) as Ho.
    unfold text_at. rewrite Hn in *. cbn [map] in Ho. rewrite Ho by (apply Forall_cons in Ht as [Ht _]; apply Ht).
    cbn [imap] in Hc. unfold reread_at in *. rewrite Hn in Hc. by rewrite Hc, Hn.
  - rewrite no_single by done.
    change (part_text _ ++ _) with (expr_text (imap (text_at n) (t :: tiers))).
    rewrite read_tiers by done. rewrite Hr. cbn [imap] in Hc |- *. rewrite Hc.
    rewrite bool_decide_eq_true_2; [done|]. exact Hs.
Qed.

(** The expression that the editor prints for a list of tiers is read back
    as those tiers: named, with the conditions that were printed, and with the
    same prices. *)
Theorem tiers_read_back tiers :
  editable tiers →
  tryParseVisualConfig (generateExprFromVisualConfig (Some tiers)) =
  Some (imap (reread_at (length tiers)) tiers).
Proof. apply read_back_eq. Qed.

(** ** The prices the pages show *)

(** The price of a variable, by its field in a tier. *)
Definition tier_price (t : VisualTier) (field : jsstr) : num :=
  if decide (field = js "input_unit_cost") then or_zero (Some (input_unit_cost t))
  else if decide (field = js "output_unit_cost") then or_zero (Some (output_unit_cost t))
  else unit_cost t field.

Definition shown_prices (t : VisualTier) : obj num :=
  map (λ v, (opt_or (field v) [], tier_price t (opt_or (tierField v) []))) BILLING_PRICING_VARS.

Definition shown_at (n i : nat) (t : VisualTier) : ParsedTier :=
  mkParsed (name_at n i t) (map reread_cond (conds_at n i t)) (shown_prices t).

(** The summands of a body: the variable and the printed number. *)
Definition term_text (vs : jsstr * jsstr) : jsstr := vs.1 ++ js " " ++ js "*" ++ js " " ++ vs.2.
Definition more_terms (l : list (jsstr * jsstr)) : jsstr := concat (map (λ vs, js " + " ++ term_text vs) l).
Definition printed (cs : list (jsstr * option jsstr)) : list (jsstr * jsstr) :=
  omap (λ c, (λ s, (c.1, s)) <$> c.2) cs.
Definition term_caps (vs : jsstr * jsstr) : caps_map := <[2 := vs.2]> (<[1 := vs.1]> ∅).

Lemma costs_terms cs : costs_text cs = more_terms (printed cs).
Proof.
  unfold costs_text, more_terms, printed. induction cs as [|[v [s|]] cs IH]; [done| |exact IH].
  cbn [map concat fst snd omap list_omap option_fmap option_map fmap]. by rewrite IH.
Qed.

Lemma body_terms a b cs : body_text a b cs = term_text (js "p", a) ++ more_terms ((js "c", b) :: printed cs).
Proof.
  unfold body_text, more_terms, term_text. cbn [map concat fst snd]. fold (more_terms (printed cs)).
  rewrite costs_terms. reflexivity.
Qed.

Definition VAR_BODY : regex :=
  RCap 1 (ralts (map key BILLING_PRICING_VARS)) · ws_star · lit (js "*") · ws_star ·
  RCap 2 (RPlus (RChar num_char)).

Definition term_ok (vs : jsstr * jsstr) : Prop :=
  vs.1 ∈ map key BILLING_PRICING_VARS ∧ digits_ok num_char vs.2.

Definition after_gap (p : jsstr) : Prop := match p with c :: _ => is_word c = false | [] => True end.

(** The names before the right one are no prefix of it, or are followed by no
    multiplication. *)
Lemma takes_term vs t :
  term_ok vs → stops num_char t → takes VAR_BODY (term_text vs) t ∅ (term_caps vs).
Proof.
  destruct vs as [v s]. intros [Hv Hs] Ht. cbn [fst snd] in *. unfold VAR_BODY, term_text, term_caps. cbn [fst snd].
  assert (takes (RCap 1 (lit v) · ws_star · lit (js "*") · ws_star · RCap 2 (RPlus (RChar num_char)))
    (v ++ js " " ++ js "*" ++ js " " ++ s) t ∅ (<[2 := s]> (<[1 := v]> ∅))) as Hl.
  { eapply takes_seq; [apply takes_cap, takes_lit|]. do 3 step. by apply takes_number. }
  change (map key BILLING_PRICING_VARS) with
    (map js ["p"; "c"; "cr"; "cc"; "cc1h"; "img"; "img_o"; "ai"; "ao"]%string) in *. cbn [map] in *.
  each_of Hv;
    [apply (takes_cap_ralts_seq _ [])
    |apply (takes_cap_ralts_seq _ [js "p"])
    |apply (takes_cap_ralts_seq _ [js "p"; js "c"])
    |apply (takes_cap_ralts_seq _ [js "p"; js "c"; js "cr"])
    |apply (takes_cap_ralts_seq _ [js "p"; js "c"; js "cr"; js "cc"])
    |apply (takes_cap_ralts_seq _ [js "p"; js "c"; js "cr"; js "cc"; js "cc1h"])
    |apply (takes_cap_ralts_seq _ [js "p"; js "c"; js "cr"; js "cc"; js "cc1h"; js "img"])
    |apply (takes_cap_ralts_seq _ [js "p"; js "c"; js "cr"; js "cc"; js "cc1h"; js "img"; js "img_o"])
    |apply (takes_cap_ralts_seq _ [js "p"; js "c"; js "cr"; js "cc"; js "cc1h"; js "img"; js "img_o"; js "ai"])];
    try exact Hl; repeat constructor; intros p; reflexivity.
Qed.

Lemma var_regex_eq : BILLING_VAR_REGEX = RWord · VAR_BODY.
Proof. done. Qed.

Lemma term_head vs t : term_ok vs → ∃ c s, term_text vs ++ t = c :: s ∧ is_word c = true.
Proof.
  destruct vs as [v s]. intros [Hv _]. cbn [fst] in Hv. unfold term_text. cbn [fst snd].
  change (map key BILLING_PRICING_VARS) with
    (map js ["p"; "c"; "cr"; "cc"; "cc1h"; "img"; "img_o"; "ai"; "ao"]%string) in Hv. cbn [map] in Hv.
  each_of Hv; eexists _, _; split; reflexivity.
Qed.

Lemma exec_term vs t p :
  term_ok vs → stops num_char t → after_gap p →
  exec_from BILLING_VAR_REGEX p (term_text vs ++ t) =
  Some (p, mkSt (reverse (term_text vs) ++ p) t (term_caps vs)).
Proof.
  intros Hv Ht Hp. rewrite var_regex_eq. destruct (takes_term vs t Hv Ht p) as [l E].
  destruct (term_head vs t Hv) as (c & s & Ec & Hc). rewrite Ec in *.
  assert (matches (RWord · VAR_BODY) (mkSt p (c :: s) ∅) = matches VAR_BODY (mkSt p (c :: s) ∅)) as Em.
  { cbn [matches]. unfold is_boundary. cbn [pre rest]. rewrite Hc.
    assert (match p with c :: _ => is_word c | [] => false end = false) as -> by (destruct p; done).
    cbn [xorb map concat]. apply app_nil_r. }
  cbn [exec_from]. by rewrite Em, E.
Qed.

Lemma skip_plus u1 u2 s : js " + " = u1 ++ u2 → u2 ≠ [] → fails BILLING_VAR_REGEX (u2 ++ s) ∅.
Proof.
  intros E Hne p. destruct u2 as [|c u2]; [done|]. assert (c ∈ js " + ") as Hc.
  { rewrite E. apply elem_of_app. right. by left. }
  change (js " + ") with [32%N; 43%N; 32%N] in Hc. rewrite var_regex_eq. cbn [matches].
  each_of Hc; by destruct (is_boundary _).
Qed.

Lemma terms_stop l t : stops num_char (more_terms l ++ js " " ++ t).
Proof. by destruct l. Qed.

Lemma read_more_terms fuel p l :
  Forall term_ok l → length l < fuel →
  map (caps ∘ snd) (exec_all fuel BILLING_VAR_REGEX p (more_terms l)) = map term_caps l.
Proof.
  intros Hl. revert fuel p. induction Hl as [|vs l Hv Hl IH]; intros fuel p Hf.
  { rewrite exec_all_none; [done|]. cbn [more_terms map concat exec_from]. rewrite var_regex_eq. cbn [matches].
    by destruct (is_boundary _). }
  destruct fuel as [|fuel]; [lia|]. unfold more_terms. cbn [map concat]. fold (more_terms l).
  rewrite <- app_assoc. cbn [exec_all]. rewrite exec_skip by (intros u1 u2; apply skip_plus).
  rewrite exec_term; [|done|by destruct l|done]. cbn [map compose snd caps pre rest]. f_equal. apply IH.
  simpl in Hf. lia.
Qed.

Lemma length_terms l : length l ≤ length (more_terms l).
Proof.
  unfold more_terms. induction l as [|x l IH]; cbn [map concat length]; [lia|].
  rewrite !length_app. change (length (js " + ")) with 3. lia.
Qed.

Lemma read_terms vs l :
  Forall term_ok (vs :: l) → re_all BILLING_VAR_REGEX (term_text vs ++ more_terms l) = map term_caps (vs :: l).
Proof.
  intros [Hv Hl]%Forall_cons. unfold re_all. cbn [exec_all]. rewrite exec_term; [|done|by destruct l|done].
  cbn [map compose snd caps pre rest]. f_equal. apply read_more_terms; [done|].
  rewrite length_app. pose proof (length_terms l). unfold term_text. rewrite !length_app.
  change (length (js " ")) with 1. lia.
Qed.

(** The first coefficient of a variable counts. *)
Lemma coeffs_get (l : list (jsstr * jsstr)) o k :
  obj_get k (foldl (λ o m, if obj_has (group 1 m) o then o else obj_set (group 1 m) (Number (group 2 m)) o) o
    (map term_caps l)) =
  match obj_get k o with Some x => Some x | None => obj_get k (map (λ vs, (vs.1, Number vs.2)) l) end.
Proof.
  revert o. induction l as [|[v s] l IH]; intros o; cbn [map foldl]; [by destruct (obj_get k o)|].
  rewrite IH. unfold group, term_caps. cbn [fst snd]. rewrite lookup_insert_eq, lookup_insert_ne, lookup_insert_eq by done.
  cbn [opt_or obj_get]. destruct (obj_has v o) eqn:Eh.
  - apply obj_has_true in Eh. destruct (obj_get k o) eqn:Ek; [done|]. rewrite decide_False; [done|].
    intros ->. apply obj_get_None in Ek. done.
  - apply obj_has_false, obj_get_None in Eh. rewrite obj_get_set. destruct (decide (k = v)) as [->|]; [|done]. by rewrite Eh.
Qed.

Lemma printed_costs t fields :
  Forall (λ cv, readable (unit_cost t cv.1) = true) fields →
  map (λ vs, (vs.1, Number vs.2)) (printed (cost_opts t fields)) =
  concat (map (λ cv, if num_truthy (unit_cost t cv.1) then [(cv.2, unit_cost t cv.1)] else []) fields).
Proof.
  unfold printed, cost_opts. induction 1 as [|cv fields Hcv Hf IH]; [done|].
  cbn [map omap list_omap concat fst snd]. destruct (num_truthy (unit_cost t cv.1));
    cbn [fmap option_fmap option_map map app fst snd]; [|exact IH].
  rewrite IH. do 2 f_equal. by apply readable_digits.
Qed.

Lemma get_printed t (fields : list (jsstr * jsstr)) cv :
  NoDup (map snd fields) → cv ∈ fields →
  or_zero (obj_get cv.2 (concat (map (λ cv, if num_truthy (unit_cost t cv.1) then [(cv.2, unit_cost t cv.1)] else []) fields)))
  = unit_cost t cv.1.
Proof.
  assert (∀ o, num_truthy (or_zero o) = false → or_zero o = num_zero) as Hz.
  { intros [x|] H; [|done]. unfold or_zero in *. by destruct (num_truthy x) eqn:E; [congruence|]. }
  induction fields as [|x fields IH]; [by intros _ ?%not_elem_of_nil|]. cbn [map concat].
  intros [Hn Hnd]%NoDup_cons [->|Hcv]%elem_of_cons; rewrite obj_get_app.
  - destruct (num_truthy (unit_cost t x.1)) eqn:Et; cbn [obj_get].
    + rewrite decide_True by done. apply or_zero_idemp.
    + replace (obj_get _ _) with (@None num); [symmetry; exact (Hz _ Et)|]. symmetry. apply obj_get_None. contradict Hn.
      unfold obj_keys in Hn. apply list_elem_of_fmap in Hn as (kv & -> & (l & Hl & Hin)%elem_of_concat).
      apply list_elem_of_fmap in Hl as (y & -> & Hy). destruct (num_truthy (unit_cost t y.1)); [|by apply not_elem_of_nil in Hin].
      apply list_elem_of_singleton in Hin as ->. apply list_elem_of_fmap. by exists y.
  - assert (obj_get cv.2 (if num_truthy (unit_cost t x.1) then [(x.2, unit_cost t x.1)] else []) = None) as ->; [|by apply IH].
    destruct (num_truthy (unit_cost t x.1)); [|done]. cbn [obj_get]. rewrite decide_False; [done|].
    intros E. apply Hn. rewrite <- E. apply list_elem_of_fmap. by exists cv.
Qed.

Lemma printed_ok t : priced t = true → Forall term_ok (printed (cost_opts t BILLING_CACHE_VAR_MAP)).
Proof.
  intros [_ H%forallb_Forall]%andb_true_iff. apply Forall_forall. intros vs Hvs.
  unfold printed, cost_opts in Hvs. apply list_elem_of_omap in Hvs as (c & Hc & E).
  apply list_elem_of_fmap in Hc as (cv & -> & Hcv). eapply Forall_forall in H; [|exact Hcv]. cbn [fst snd] in *.
  destruct (num_truthy _); [|done]. injection E as <-. split; cbn [fst snd]; [|by apply readable_digits].
  assert (Forall (λ cv, bool_decide (cv.2 ∈ map key BILLING_PRICING_VARS) = true) BILLING_CACHE_VAR_MAP) as Hall
    by (apply forallb_Forall; by vm_compute).
  eapply Forall_forall in Hall; [|exact Hcv]. by apply bool_decide_eq_true in Hall.
Qed.

Lemma parse_body cs name t : priced t = true → parseTierBody (body_of (text_of_tier cs name t)) = shown_prices t.
Proof.
  intros Ht. pose proof (printed_ok t Ht) as Hp.
  pose proof Ht as [[[Ha Ea]%readable_digits [Hb Eb]%readable_digits]%andb_true_iff Hc%forallb_Forall]%andb_true_iff.
  unfold parseTierBody, body_of. cbn [t_in t_out t_costs text_of_tier]. rewrite body_terms, read_terms.
  2: { constructor; [split; [by left|done]|]. constructor; [split; [by right; left|done]|done]. }
  unfold shown_prices. unfold BILLING_VAR_KEY_TO_FIELD at 1. rewrite map_map. apply map_ext_in. intros v Hv%list_elem_of_In.
  f_equal. cbn [fst snd]. rewrite coeffs_get. cbn [obj_get map fst snd]. rewrite Ea, Eb, printed_costs by done.
  assert (NoDup (map snd BILLING_CACHE_VAR_MAP)) as Hn by apply cache_vars_ok.
  assert (v = mkVar (js "p") (Some (js "inputPrice")) (Some (js "input_unit_cost")) true false ∨
          v = mkVar (js "c") (Some (js "outputPrice")) (Some (js "output_unit_cost")) true false ∨
          v ∈ BILLING_EXTRA_VARS) as [->|[->|He]].
  { change BILLING_PRICING_VARS with
      (mkVar (js "p") (Some (js "inputPrice")) (Some (js "input_unit_cost")) true false ::
       mkVar (js "c") (Some (js "outputPrice")) (Some (js "output_unit_cost")) true false :: BILLING_EXTRA_VARS) in Hv.
    apply elem_of_cons in Hv as [?|[?|?]%elem_of_cons]; auto. }
  - apply or_zero_idemp.
  - apply or_zero_idemp.
  - assert ((opt_or (tierField v) [], key v) ∈ BILLING_CACHE_VAR_MAP) as Hm by (apply list_elem_of_fmap; by exists v).
    pose proof (get_printed t _ _ Hn Hm) as Hg. cbn [fst snd] in Hg.
    assert (Forall (λ v, bool_decide (key v ≠ js "p") && bool_decide (key v ≠ js "c") &&
      bool_decide (opt_or (tierField v) [] ≠ js "input_unit_cost") &&
      bool_decide (opt_or (tierField v) [] ≠ js "output_unit_cost") = true) BILLING_EXTRA_VARS) as Hall
      by (apply forallb_Forall; by vm_compute).
    eapply Forall_forall in Hall; [|exact He]. bool_hyps. unfold tier_price.
    rewrite !decide_False by done. exact Hg.
Qed.

Lemma shown_tiers_eq tiers :
  tiers ≠ [] → Forall tier_ok tiers →
  parseTiersFromExpr (generateExprFromVisualConfig (Some tiers)) = imap (shown_at (length tiers)) tiers.
Proof.
  intros Hne Ht. set (n := length tiers). pose proof (texts_ok n tiers Ht) as Hq.
  rewrite generate_eq by done. fold n. unfold parseTiersFromExpr, stripExprVersion.
  assert (imap (text_at n) tiers ≠ []) as Hi by by destruct tiers.
  assert (re_match VERSION (expr_text (imap (text_at n) tiers)) = None) as ->.
  { destruct (imap (text_at n) tiers) as [|q qs]; [done|]. apply Forall_cons in Hq as [Hq _]. by apply no_version. }
  cbn [snd]. rewrite read_shown by done. rewrite map_map, map_imap. apply imap_ext. intros i t Hit.
  eapply Forall_lookup in Ht; [|exact Hit]. unfold shown_at, shown_caps, group at 1 3.
  rewrite lookup_insert_ne, !lookup_insert_eq by done. cbn [opt_or]. f_equal; [|by apply parse_body, Ht].
  assert (group 1 (<[3:=body_of (text_at n i t)]> (<[2:=t_name (text_at n i t)]> (guard_caps (t_conds (text_at n i t)) ∅))) =
    group 1 (guard_caps (t_conds (text_at n i t)) ∅)) as -> by (unfold group; by rewrite !lookup_insert_ne by done).
  apply read_guard; [by apply conds_at_ok|done].
Qed.

(** From the expression that the editor prints, the pages show the tiers
    with the same names, conditions and prices. *)
Theorem shown_tiers_spec tiers :
  tiers ≠ [] → Forall tier_ok tiers →
  parseTiersFromExpr (generateExprFromVisualConfig (Some tiers)) = imap (shown_at (length tiers)) tiers.
Proof. apply shown_tiers_eq. Qed.

(** ** The loops over the matches end *)

Lemma advances_tier_open k r : advances (tier_open k r).
Proof. apply advances_seq_l, advances_lit. Qed.

(** The three loops that call [exec] until it finds no more, over the text
    of the tiers, over the text the pages show and over one body, end for
    every text: they make at most as many turns as it has characters, and the
    fuel of the model is never used up. *)
Theorem reading_loops_end r s :
  r ∈ [tierRe; shownRe; BILLING_VAR_REGEX] →
  length (re_all r s) ≤ length s ∧
  ∀ fuel, length s < fuel → map (caps ∘ snd) (exec_all fuel r [] s) = re_all r s.
Proof.
  intros Hr. assert (advances r) as Ha.
  { each_of Hr.
    - apply advances_seq_r, advances_tier_open.
    - apply advances_seq_r, advances_tier_open.
    - apply advances_seq_r, advances_seq_r, advances_seq_r, advances_seq_l, advances_lit. }
  split.
  - unfold re_all. rewrite length_map. by apply exec_all_bounded.
  - intros fuel Hf. unfold re_all. by rewrite exec_all_fuel.
Qed.

Lemma reading_loops_end_witness :
  let s := generateExprFromVisualConfig (Some createDefaultVisualConfig) in length (re_all tierRe s) ≤ length s.
Proof. intros s. apply (reading_loops_end tierRe s). by left. Defined.

(** Two tiers with conditions on the input, and what is read of them. *)
Definition sample_tiers : VisualConfig :=
  let number s := Number (js s) in
  [mkTier (js "short") [mkCond (js "p") (js "<=") (CNum (number "200000")); mkCond (js "len") (js ">") (CText (js "5"))]
     (number "1.25") (number "10") Generic [(js "cache_read_unit_cost", number "0.125")];
   mkTier [] [] (number "2.5") (number "15") Generic []].

Lemma sample_editable : editable sample_tiers.
Proof.
  split; [discriminate| |intros t [= <-] _; discriminate].
  apply Forall_cons. split; [|apply Forall_cons; split; [|constructor]]; split.
  - by vm_compute.
  - by repeat constructor.
  - repeat (apply Forall_cons; split); [..|constructor];
      (split; [|split]; [apply (bool_decide_eq_true_1 _); by vm_compute..|by vm_compute]).
  - by vm_compute.
  - constructor.
  - constructor.
Qed.

Lemma tiers_read_back_witness :
  tryParseVisualConfig (generateExprFromVisualConfig (Some sample_tiers)) = Some (imap (reread_at 2) sample_tiers) ∧
  map label (imap (reread_at 2) sample_tiers) = [js "short"; js "tier_2"].
Proof. split; [apply (tiers_read_back sample_tiers), sample_editable|by vm_compute]. Defined.

Lemma shown_tiers_spec_witness :
  map (obj_get (js "inputPrice") ∘ prices)
    (parseTiersFromExpr (generateExprFromVisualConfig (Some sample_tiers))) =
  [Some (Number (js "1.25")); Some (Number (js "2.5"))].
Proof.
  pose proof (shown_tiers_spec sample_tiers (some_tier _ sample_editable) (all_tiers _ sample_editable)) as E.
  refine (eq_trans (f_equal _ E) _). by vm_compute.
Defined.

(** A quotation mark in a label and a value with a negative exponent end the
    visual form: the text is not read back. *)
Example not_read_back :
  let number s := Number (js s) in
  map (λ t, tryParseVisualConfig (generateExprFromVisualConfig (Some [t; mkTier (js "b") [] (number "1") (number "1") Generic []])))
    [mkTier (jq "a`") [mkCond (js "p") (js "<") (CNum (number "5"))] (number "1") (number "1") Generic [];
     mkTier (js "a") [mkCond (js "p") (js "<") (CNum (number "1e-7"))] (number "1") (number "1") Generic []] =
  [None; None].
Proof. by vm_compute. Qed.

(** The conditions of the last tier are not printed. *)
Example last_conditions_lost :
  let number s := Number (js s) in
  let tier name := mkTier (js name) [mkCond (js "p") (js "<") (CNum (number "5"))] (number "1") (number "1") Generic [] in
  generateExprFromVisualConfig (Some [tier "a"; tier "b"]) =
  jq "p < 5 ? tier(`a`, p * 1 + c * 1) : tier(`b`, p * 1 + c * 1)".
Proof. by vm_compute. Qed.

End TierReading.
