(* ===== verification/PriceText.v ===== *)
(** * A printed price and the product of its rules

    A price is saved as the text of its tiers multiplied by the factors of its
    rules.  The two are taken apart at the product signs outside parentheses
    ([splitBillingExprAndRequestRules] of [billing-expr.ts]); here it is shown
    that the tiers the visual editor prints come out whole.  The editor
    ([TieredEditor]) and the price pages ([PriceTable]) both rest on it. *)
From S2P Require Import Prelude JSString JSNumber JSON Regex BillingExpr RuleReading RegexFirst TierExpr TierReading.
Import Vars Rules Tiers RuleReading TierReading.
Local Open Scope Z_scope.

Module PriceText.

(** ** A printed price and the product of its rules *)

(** Texts in which the split at the top level sees no product sign. *)
Definition quiet (t : jsstr) : Prop := end_depth 0 t = 0 ∧ ∀ r, inert (js " * ") 0 t r.

Abbreviation no_star := (not_char 42%N).

Lemma inert_words d t c r :
  Forall (λ c, no_star c = true) t → c ≠ 42%N → inert (js " * ") d t (c :: r).
Proof.
  intros Ht Hc. revert d. induction Ht as [|x t Hx Ht IH]; intros d; [done|]. split; [|apply IH].
  intros _. change (js " * ") with [32; 42; 32]%N. cbn [starts_with app].
  destruct (N.eqb_spec 32 x); [|done]. cbn [andb].
  destruct Ht as [|y t Hy _]; cbn [app]; [by rewrite (proj2 (N.eqb_neq 42 c))|].
  apply negb_true_iff in Hy. by rewrite (N.eqb_sym 42 y), Hy.
Qed.

(** Words in front of a quiet text that begins with another character. *)
Lemma quiet_words w c s :
  neutral w → Forall (λ c, no_star c = true) w → c ≠ 42%N → quiet (c :: s) → quiet (w ++ c :: s).
Proof.
  intros Hn Hw Hc [He Hi]. split.
  - rewrite end_depth_app. by rewrite (proj1 (Hn 0)).
  - intros r. apply inert_app; [by apply inert_words|]. by rewrite (proj1 (Hn 0)).
Qed.

Lemma quiet_paren t : neutral t → quiet (js "(" ++ t ++ js ")").
Proof. intros Hn. by destruct (solid_mul t Hn) as (_ & _ & ? & ?). Qed.

Lemma quiet_app t1 t2 : quiet t1 → quiet t2 → quiet (t1 ++ t2).
Proof.
  intros [E1 H1] [E2 H2]. split; [by rewrite end_depth_app, E1|].
  intros r. apply inert_app; [apply H1|]. rewrite E1. apply H2.
Qed.

(** What the conditions of a tier are written with. *)
Definition guard_char (c : jschar) : bool := no_paren c && no_star c.

Lemma guard_chars cs : Forall cond_ok cs → Forall (λ c, guard_char c = true) (guard_text cs).
Proof.
  assert (∀ c, cond_ok c → Forall (λ x, guard_char x = true) (cond_text c)) as Hc.
  { intros c (Hv & Ho & Hp). unfold cond_text.
    change BILLING_CONDITION_VARS with (map js ["p"; "c"; "len"]%string) in Hv. unfold OPS in Ho. cbn [map] in *.
    apply plain_value_digits in Hp as [[_ Hp] _]. rewrite !Forall_app. split_and!; try (by repeat constructor).
    - by each_of Hv; repeat constructor.
    - by each_of Ho; repeat constructor.
    - eapply Forall_impl; [exact Hp|]. intros x [H|H]%orb_true_iff.
      + unfold guard_char, no_paren, not_char.
        destruct (N.eqb_spec x 40), (N.eqb_spec x 41), (N.eqb_spec x 42); subst; done.
      + refine (in_chars (λ c, guard_char c = true) _ _ H _). by repeat constructor. }
  intros Hcs. destruct Hcs as [|c cs H Hcs]; [constructor|]. unfold guard_text.
  rewrite !Forall_app. split_and!; try (by repeat constructor); [by apply Hc|].
  induction Hcs as [|c' cs H' _ IH]; [constructor|]. unfold more_conds. cbn [map concat].
  rewrite !Forall_app. split_and!; try (by repeat constructor). by apply Hc.
Qed.

Lemma flat_split cs : Forall cond_ok cs → neutral (guard_text cs ++ js "tier") ∧
  Forall (λ c, no_star c = true) (guard_text cs ++ js "tier").
Proof.
  intros H%guard_chars. assert (Forall (λ c, guard_char c = true) (guard_text cs ++ js "tier")) as Ht
    by (apply Forall_app; split; [done|by repeat constructor]).
  split; [apply neutral_flat|]; (eapply Forall_impl; [exact Ht|]); by intros c [? ?]%andb_true_iff.
Qed.

Lemma body_neutral q : text_ok q → neutral (body_of q).
Proof.
  intros Hq. apply neutral_flat. revert Hq. apply body_chars; [| |by repeat constructor].
  - intros c [H|H]%orb_true_iff.
    + unfold no_paren. destruct (N.eqb_spec c 40), (N.eqb_spec c 41); subst; done.
    + refine (in_chars (λ c, no_paren c = true) _ _ H _). by repeat constructor.
  - intros c H. unfold no_paren. destruct (N.eqb_spec c 40), (N.eqb_spec c 41); subst; done.
Qed.

(** A tier: words, then one pair of parentheses. *)
Lemma part_shape q : ∃ inner, part_text q = (guard_text (t_conds q) ++ js "tier") ++ js "(" ++ inner ++ js ")" ∧
  (text_ok q → neutral (t_name q) → neutral inner).
Proof.
  exists (jq "`" ++ t_name q ++ jq "`, " ++ body_of q). split.
  - unfold part_text, call_text, open_text. rewrite <- !app_assoc. reflexivity.
  - intros Hq Hn. assert (∀ t, forallb no_paren t = true → neutral t) as Hf
      by (intros t Ht%forallb_Forall; by apply neutral_flat).
    apply neutral_app; [by apply Hf; vm_compute|]. apply neutral_app; [done|].
    apply neutral_app; [by apply Hf; vm_compute|by apply body_neutral].
Qed.

Lemma part_quiet q : text_ok q → neutral (t_name q) → quiet (part_text q) ∧ neutral (part_text q).
Proof.
  intros Hq Hn. destruct (part_shape q) as (inner & -> & Hi). specialize (Hi Hq Hn).
  destruct (flat_split (t_conds q) (ok_conds _ Hq)) as [H1 H2]. split.
  - apply (quiet_words _ 40%N (inner ++ js ")")); [done..|]. by apply quiet_paren.
  - apply neutral_app; [done|by apply neutral_paren].
Qed.

Lemma part_first q : text_ok q → ∃ c s, part_text q = c :: s ∧ c ∈ js "pclt".
Proof.
  intros [Hc _ _ _ _ _]. unfold part_text. destruct (t_conds q) as [|c cs].
  - eexists _, _. split; [reflexivity|]. by apply (bool_decide_eq_true_1 _); vm_compute.
  - apply Forall_cons in Hc as [(Hv & _ & _) _]. cbn [guard_text].
    change BILLING_CONDITION_VARS with (map js ["p"; "c"; "len"]%string) in Hv. cbn [map] in Hv.
    unfold cond_text. each_of Hv; eexists _, _; (split; [reflexivity|by apply (bool_decide_eq_true_1 _); vm_compute]).
Qed.

(** All the tiers. *)
Definition named_ok (q : TierText) : Prop := text_ok q ∧ neutral (t_name q).

Lemma quiet_colon q : named_ok q → quiet (js " : " ++ part_text q) ∧ neutral (js " : " ++ part_text q).
Proof.
  intros [Hq Hn]. destruct (part_quiet q Hq Hn) as [H1 H2]. destruct (part_first q Hq) as (c & s & E & Hc).
  assert (neutral (js " : ")) as H3 by (apply neutral_flat; by repeat constructor).
  split; [|by apply neutral_app]. rewrite E in *. apply quiet_words; [done|by repeat constructor| |done].
  by each_of Hc.
Qed.

Lemma more_quiet qs : Forall named_ok qs → quiet (more_parts qs) ∧ neutral (more_parts qs).
Proof.
  induction 1 as [|q qs Hq _ [IH1 IH2]]; [split; [by split|apply neutral_nil]|].
  unfold more_parts. cbn [map concat]. destruct (quiet_colon q Hq).
  split; [by apply quiet_app|by apply neutral_app].
Qed.

Definition ends_in (t : jsstr) : Prop := ∃ u x, t = u ++ [x] ∧ x ∈ js ")0".

Lemma ends_in_app t1 t2 : ends_in t2 → ends_in (t1 ++ t2).
Proof. intros (u & x & -> & Hx). exists (t1 ++ u), x. by rewrite app_assoc. Qed.

Lemma part_end q : ends_in (part_text q).
Proof.
  destruct (part_shape q) as (inner & -> & _). rewrite (app_assoc (js "(")), app_assoc. apply ends_in_app.
  exists [], 41%N. split; [done|]. by apply (bool_decide_eq_true_1 _); vm_compute.
Qed.

Lemma expr_end q qs : ends_in (expr_text (q :: qs)).
Proof.
  unfold expr_text. destruct qs as [|q' qs] using rev_ind.
  - cbn [more_parts map concat app]. unfold tail_of. destruct (t_conds q); [rewrite app_nil_r; apply part_end|].
    apply ends_in_app, (ends_in_app (js " : p * 0 + c * ")). exists [], 48%N. split; [done|].
    by apply (bool_decide_eq_true_1 _); vm_compute.
  - clear IHqs. unfold more_parts. rewrite map_app, concat_app. cbn [map concat].
    assert (tail_of q (qs ++ [q']) = []) as -> by (by destruct qs). rewrite !app_nil_r.
    do 3 apply ends_in_app. apply part_end.
Qed.

Lemma expr_base q qs : named_ok q → Forall named_ok qs → base_ok (expr_text (q :: qs)).
Proof.
  intros Hq Hqs. destruct (expr_end q qs) as (u & x & Eu & Hx). destruct (part_first q (proj1 Hq)) as (c & s & Ec & Hc).
  assert (expr_text (q :: qs) = c :: s ++ more_parts qs ++ tail_of q qs) as Eh by (unfold expr_text; by rewrite Ec).
  split.
  - by rewrite Eh.
  - apply trimmed_iff. split; [rewrite Eh; by each_of Hc|]. rewrite Eu. apply last_nws_snoc. by each_of Hx.
  - unfold expr_text. apply neutral_app; [by apply part_quiet; apply Hq|].
    apply neutral_app; [by apply more_quiet|]. unfold tail_of.
    destruct qs, (t_conds q); try apply neutral_nil. apply neutral_flat. by repeat constructor.
  - rewrite Eh. by each_of Hc.
  - rewrite Eu. unfold ends_with. rewrite reverse_snoc. by each_of Hx.
Qed.

(** ** A price without rules *)

(** The printed conditions of a single tier are followed by a price that is
    no rule. *)
Lemma head_no_rule c s : solid (js " * ") (c :: s) → c ≠ 40%N → is_rule (c :: s) = Some false.
Proof.
  intros Hs Hc. apply no_rule; [done|]. unfold FACTOR. rewrite re_match_None; [done|].
  intros x Hx. re_inv. subst. match goal with E : c :: s = _ |- _ => by injection E as -> end.
Qed.

Lemma free_parts q :
  named_ok q → Forall (λ t, solid (js " * ") t ∧ is_rule t = Some false) [part_text q ++ js " : p"; js "0 + c"; js "0"].
Proof.
  intros [Hq Hn]. destruct (part_quiet q Hq Hn) as [[E H] _]. destruct (part_first q Hq) as (c & s & Ec & Hc).
  assert (∀ t, solid (js " * ") t → (∃ c s, t = c :: s ∧ c ≠ 40%N) → solid (js " * ") t ∧ is_rule t = Some false) as Hall
    by (intros t Ht (c0 & s0 & -> & Hc0); split; [done|by apply head_no_rule]).
  repeat (apply Forall_cons; split); [..|constructor]; apply Hall.
  - split_and!.
    + by rewrite Ec.
    + apply trimmed_iff. split; [rewrite Ec; by each_of Hc|by apply last_nws_app].
    + by rewrite end_depth_app, E.
    + intros r. apply inert_app; [apply H|]. rewrite E. by repeat split.
  - rewrite Ec. exists c, (s ++ js " : p"). split; [done|by each_of Hc].
  - split_and!; [done|by vm_compute|done|]. intros r. by repeat split.
  - by eexists _, _.
  - split_and!; [done|by vm_compute|done|]. intros r. by repeat split.
  - by eexists _, _.
Qed.

Lemma split_no_rules t parts :
  t = join (js " * ") parts → t ≠ [] → trimmed t → Forall (λ t, solid (js " * ") t ∧ is_rule t = Some false) parts →
  splitBillingExprAndRequestRules t = Some (mkSplit t []).
Proof.
  intros E Hne Ht Hp. unfold splitBillingExprAndRequestRules. rewrite Ht.
  assert (splitTopLevelMultiply t = parts) as Es.
  { unfold splitTopLevelMultiply. rewrite E. apply split_join_solid; [apply sep_mul|].
    eapply Forall_impl; [exact Hp|]. by intros ? []. }
  assert (sort_parts parts = Some ([], parts)) as Ep.
  { clear -Hp. induction Hp as [|x l [_ Hx] _ IH]; [done|]. cbn [sort_parts]. by rewrite Hx, IH. }
  destruct t as [|c t]; [done|]. rewrite Es, Ep. by destruct (_ <=? _)%nat.
Qed.

Lemma split_tiers q qs :
  named_ok q → Forall named_ok qs →
  splitBillingExprAndRequestRules (expr_text (q :: qs)) = Some (mkSplit (expr_text (q :: qs)) []).
Proof.
  intros Hq Hqs. pose proof (expr_base q qs Hq Hqs) as Hb.
  assert (tail_of q qs = [] ∨ tail_of q qs = js " : " ++ FREE ∧ qs = []) as [E|[E ->]].
  { unfold tail_of. destruct qs, (t_conds q); auto. }
  - apply (split_no_rules _ [expr_text (q :: qs)]); [done|apply Hb|apply Hb|].
    constructor; [|constructor]. assert (solid (js " * ") (expr_text (q :: qs))) as Hs.
    { destruct (more_quiet qs Hqs) as [Hm _]. split_and!; [apply Hb|apply Hb|..];
        unfold expr_text; rewrite E, app_nil_r; by apply quiet_app; [apply part_quiet; apply Hq|]. }
    split; [done|]. destruct (part_first q (proj1 Hq)) as (c & s & Ec & Hc). revert Hs. unfold expr_text.
    rewrite Ec. cbn [app]. intros Hs. apply head_no_rule; [done|by each_of Hc].
  - apply (split_no_rules _ [part_text q ++ js " : p"; js "0 + c"; js "0"]); [|apply Hb|apply Hb|by apply free_parts].
    unfold expr_text. rewrite E. cbn [more_parts map concat app join]. by rewrite <- app_assoc.
Qed.

(** ** A price that the editor saved *)

Lemma name_neutral n i t : neutral (label t) → neutral (name_at n i t).
Proof.
  unfold name_at, tier_name.
  assert (∀ s, forallb no_paren s = true → neutral s) as Hf by (intros s Hs%forallb_Forall; by apply neutral_flat).
  destruct (label t) as [|c s]; intros Hl; [|by destruct (n =? 1)%nat].
  destruct (n =? 1)%nat; cbn [str_or]; [by apply Hf; vm_compute|].
  apply neutral_app; [by apply Hf; vm_compute|]. apply neutral_flat. eapply Forall_impl; [apply string_of_N_digits|].
  intros c Hc. unfold no_paren. destruct (N.eqb_spec c 40), (N.eqb_spec c 41); subst; done.
Qed.

(** The tiers and the rules of the editor whose text the pages read back; the
    parentheses in the names of the tiers match. *)
Record price_ok (ts : VisualConfig) (gs : list RequestRuleGroup) : Prop := {
  price_some : ts ≠ [];
  price_tiers : Forall tier_ok ts;
  price_names : Forall (λ t, neutral (label t)) ts;
  price_rules : Forall editable_group gs;
  price_read : forallb (λ g, forallb reads_back (Rules.conditions g)) gs = true;
}.

Definition saved_price (ts : VisualConfig) (gs : list RequestRuleGroup) : jsstr :=
  combineBillingExpr (generateExprFromVisualConfig (Some ts)) (buildRequestRuleExpr gs).

Lemma split_saved ts gs :
  price_ok ts gs →
  splitBillingExprAndRequestRules (saved_price ts gs) =
  Some (mkSplit (generateExprFromVisualConfig (Some ts)) (buildRequestRuleExpr gs)).
Proof.
  intros [Hne Ht Hn Hg Hr]. unfold saved_price. rewrite generate_eq by done.
  assert (Forall named_ok (imap (text_at (length ts)) ts)) as Hq.
  { apply Forall_lookup. intros i q Hi. rewrite list_lookup_imap in Hi.
    apply fmap_Some in Hi as (t & Et & ->).
    split; [by apply text_at_ok; eapply Forall_lookup in Ht|]. apply name_neutral. by eapply Forall_lookup in Hn. }
  destruct (imap (text_at (length ts)) ts) as [|q qs] eqn:E; [by destruct ts|].
  apply Forall_cons in Hq as [Hq Hqs]. pose proof (expr_base q qs Hq Hqs) as Hb.
  destruct gs as [|g gs].
  - change (buildRequestRuleExpr []) with (@nil jschar). unfold combineBillingExpr. rewrite (base_trim _ Hb).
    pose proof (base_ne _ Hb) as Hne'.
    pose proof (split_tiers q qs Hq Hqs) as Hs. destruct (expr_text (q :: qs)); [done|exact Hs].
  - rewrite price_splits_eq by done. by rewrite Hr.
Qed.

Lemma saved_nonempty ts gs : price_ok ts gs → saved_price ts gs ≠ [].
Proof.
  intros H E. pose proof (split_saved ts gs H) as Hs. rewrite E in Hs.
  change (splitBillingExprAndRequestRules []) with (Some (mkSplit [] [])) in Hs.
  assert (generateExprFromVisualConfig (Some ts) = []) as Hg by congruence.
  rewrite generate_eq in Hg by apply H. destruct (imap _ ts) as [|q qs]; [done|].
  unfold expr_text, part_text, call_text, open_text in Hg. destruct (guard_text _); discriminate Hg.
Qed.

Lemma sample_price_ok : price_ok sample_tiers [night_group].
Proof.
  split; [apply (some_tier _ sample_editable)|apply (all_tiers _ sample_editable)| |by constructor; [apply night_group_editable|]|done].
  unfold sample_tiers. repeat (apply Forall_cons; split); [..|by apply Forall_nil];
    apply neutral_flat; by repeat constructor.
Qed.

End PriceText.
