(* ===== verification/JSONText.v ===== *)
(** * Objects in order and indented JSON

    [obj_ordered] says that the properties of an object stand in the order in
    which JavaScript enumerates them; every object the operations of [JSON]
    build does, and such an object is read back from its text.
    [JSON_stringify_2] is [JSON.stringify(v, null, 2)], read back like the text
    without indentation. *)
From S2P Require Import Prelude JSString JSNumber JSON.

(** ** The order of enumeration *)

Section Order.
Context {V : Type}.
Implicit Types (o : obj V) (k : jsstr).

(** [a] may stand before [b]. *)
Definition may_precede (a b : jsstr) : Prop := key_before b a = false.

Definition obj_ordered o : Prop :=
  NoDup (obj_keys o) ∧ StronglySorted may_precede (obj_keys o).

Lemma key_before_trans a b c : key_before a b = true → may_precede b c → may_precede a c.
Proof.
  unfold may_precede, key_before.
  destruct (key_index a), (key_index b), (key_index c); try done.
  rewrite N.ltb_lt, !N.ltb_ge. lia.
Qed.

Lemma key_before_asym a b : key_before a b = true → may_precede a b.
Proof.
  unfold may_precede, key_before. destruct (key_index a), (key_index b); try done.
  rewrite N.ltb_lt, N.ltb_ge. lia.
Qed.

Lemma obj_ordered_nil : obj_ordered [].
Proof. split; constructor. Qed.

Lemma sorted_insert k v o :
  StronglySorted may_precede (obj_keys o) → StronglySorted may_precede (obj_keys (obj_insert k v o)).
Proof.
  induction o as [|[k' v'] o IH]; intros Hs; [repeat constructor|].
  cbn [obj_insert obj_keys map fst] in *. apply StronglySorted_inv in Hs as [Hs Hk'].
  destruct (key_before k k') eqn:Hb.
  - cbn [map fst]. constructor; [by constructor|]. constructor; [by apply key_before_asym|].
    eapply Forall_impl; [exact Hk'|]. intros c. by apply key_before_trans.
  - cbn [map fst]. constructor; [by apply IH|]. rewrite Forall_forall in *. intros x Hx.
    fold (obj_keys (obj_insert k v o)) in Hx. rewrite obj_keys_insert in Hx.
    apply elem_of_cons in Hx as [->|Hx]; [done|by apply Hk'].
Qed.

Lemma obj_ordered_set k v o : obj_ordered o → obj_ordered (obj_set k v o).
Proof.
  intros [Hn Hs]. split; [by apply NoDup_keys_set|]. unfold obj_set.
  destruct (obj_has k o); [by rewrite obj_keys_replace|by apply sorted_insert].
Qed.

Lemma obj_ordered_assign o p : obj_ordered o → obj_ordered (obj_assign o p).
Proof.
  unfold obj_assign. revert o. induction p as [|kv p IH]; intros o Ho; [done|].
  cbn [foldl]. by apply IH, obj_ordered_set.
Qed.

Lemma obj_ordered_delete k o : obj_ordered o → obj_ordered (obj_delete k o).
Proof.
  intros [Hn Hs]. split; [by apply NoDup_keys_delete|]. rewrite obj_keys_delete. clear Hn.
  induction Hs as [|x l Hl IH Hx]; [constructor|]. rewrite filter_cons. destruct (decide _); [|done].
  constructor; [done|]. rewrite Forall_forall in *. intros y [_ Hy]%list_elem_of_filter. by apply Hx.
Qed.

(** Putting the properties of an ordered object one after another into a new
    one gives it back. *)
Lemma obj_assign_append acc o :
  obj_ordered (acc ++ o) → obj_assign acc o = acc ++ o.
Proof.
  unfold obj_assign. revert acc. induction o as [|[k v] o IH]; intros acc Ho.
  { by rewrite app_nil_r. }
  cbn [foldl fst snd]. assert (obj_set k v acc = acc ++ [(k, v)]) as ->.
  { destruct Ho as [Hn Hs]. unfold obj_keys in *. rewrite map_app in *. cbn [map fst] in *.
    assert (k ∉ map fst acc) as Hk by (apply NoDup_app in Hn; set_solver).
    unfold obj_set. rewrite (proj2 (obj_has_false k acc) Hk). clear IH Hn Hk.
    induction acc as [|[k' v'] acc IH]; [done|]. cbn [app map fst obj_insert] in *.
    apply StronglySorted_inv in Hs as [Hs Hk']. rewrite Forall_app, Forall_cons in Hk'.
    destruct Hk' as (_ & Hk' & _). unfold may_precede in Hk'. by rewrite Hk', IH. }
  rewrite IH; rewrite <- app_assoc; [done|exact Ho].
Qed.

Lemma obj_ordered_id o : obj_ordered o ↔ foldl (λ acc kv, obj_set kv.1 kv.2 acc) [] o = o.
Proof.
  split; [apply (obj_assign_append [] o)|]. intros <-.
  apply (obj_ordered_assign [] o), obj_ordered_nil.
Qed.
End Order.

(** *** Values that are read back *)

Lemma wf_obj_iff o :
  json_wf (JObj o) ↔ obj_ordered o ∧ Forall (λ kv, is_utf16 kv.1 ∧ json_wf kv.2) o.
Proof.
  split.
  - intros H. inversion H; subst. by rewrite obj_ordered_id.
  - intros [Ho H]. constructor; [by apply obj_ordered_id|done].
Qed.

Lemma wf_set k v o :
  is_utf16 k → json_wf v → json_wf (JObj o) → json_wf (JObj (obj_set k v o)).
Proof.
  rewrite !wf_obj_iff. intros Hk Hv [Ho Hf]. split; [by apply obj_ordered_set|].
  by apply Forall_set.
Qed.

Lemma wf_delete k o : json_wf (JObj o) → json_wf (JObj (obj_delete k o)).
Proof.
  rewrite !wf_obj_iff. intros [Ho Hf]. split; [by apply obj_ordered_delete|].
  clear Ho. induction Hf as [|[k' v] o Hv Hf IH]; simpl; [constructor|].
  destruct (decide (k = k')); [done|by constructor].
Qed.

Lemma wf_assign o p :
  json_wf (JObj o) → Forall (λ kv, is_utf16 kv.1 ∧ json_wf kv.2) p → json_wf (JObj (obj_assign o p)).
Proof.
  intros Ho Hp. unfold obj_assign. revert o Ho.
  induction Hp as [|[k v] p [Hk Hv] Hp IH]; intros o Ho; [done|]. cbn [foldl fst snd] in *.
  apply IH. by apply wf_set.
Qed.

Lemma wf_get k o v : json_wf (JObj o) → obj_get k o = Some v → json_wf v.
Proof.
  rewrite wf_obj_iff. intros [_ Hf] Hg%obj_get_Some_mem. rewrite Forall_forall in Hf.
  by apply (Hf (k, v)).
Qed.

Lemma is_utf16_js s : is_utf16 (js s).
Proof.
  apply Forall_map, Forall_forall. intros a _. by destruct a as [[][][][][][][][]].
Qed.

(** [json_wf] by computation. *)
Fixpoint json_wfb (v : json) : bool :=
  match v with
  | JNull | JBool _ => true
  | JNum n => forallb is_num_char (stringify_num n) && bool_decide (json_number (stringify_num n) = Some n)
  | JStr s => forallb (λ c, c <? 65536)%N s
  | JArr l => forallb json_wfb l
  | JObj o =>
      bool_decide (foldl (λ acc kv, obj_set kv.1 kv.2 acc) [] o = o) &&
      forallb (λ kv, forallb (λ c, c <? 65536)%N kv.1 && json_wfb kv.2) o
  end.

Lemma is_utf16_b s : forallb (λ c, c <? 65536)%N s = true → is_utf16 s.
Proof.
  rewrite forallb_forall. intros H. apply Forall_forall. intros c Hc%list_elem_of_In. by apply N.ltb_lt, H.
Qed.

Lemma json_wfb_sound v : json_wfb v = true → json_wf v.
Proof.
  induction v as [|b|n|s|l IH|o IH] using json_ind'; cbn [json_wfb]; intros H; bool_hyps; try by constructor.
  - constructor. by apply is_utf16_b.
  - constructor. rewrite forallb_forall in H. rewrite Forall_forall in *. intros v Hv. apply IH; [done|].
    by apply H, list_elem_of_In.
  - constructor; [done|]. match goal with H : forallb _ _ = true |- _ => rewrite forallb_forall in H; rename H into Hf end.
    rewrite Forall_forall in *. intros kv Hkv.
    apply list_elem_of_In in Hkv as Hin. apply Hf, andb_true_iff in Hin as [Hk Hv]. split; [by apply is_utf16_b|by apply IH].
Qed.

(** Values that are read back are equal where [===] says so. *)
Lemma wf_num_nonzero n : json_wf (JNum n) → num_is_nan n = false ∧ n ≠ S754_zero true.
Proof. inversion 1 as [| |? _ E| | |]; subst. split; [by destruct n|]. by intros ->. Qed.

Lemma num_eqb_wf x y : json_wf (JNum x) → json_wf (JNum y) → num_eqb x y = true → x = y.
Proof. intros [_ Hx]%wf_num_nonzero [_ Hy]%wf_num_nonzero [?|[?|?]]%num_eqb_eq; done. Qed.

Lemma object_trimmed o : trimmed (JSON_stringify (JObj o)).
Proof. apply trimmed_iff. rewrite stringify_obj. split; [done|]. by rewrite app_comm_cons, last_nws_snoc. Qed.

(** ** Indented text *)

Definition NL : jschar := 10%N.

(** [JSON.stringify(v, null, 2)], [ind] being the current indentation. *)
Fixpoint stringify_ind (ind : jsstr) (v : json) : jsstr :=
  let ind' := js "  " ++ ind in
  match v with
  | JArr [] => js "[]"
  | JObj [] => js "{}"
  | JArr l =>
      js "[" ++ join (js ",") (map (λ x, NL :: ind' ++ stringify_ind ind' x) l) ++
      NL :: ind ++ js "]"
  | JObj o =>
      js "{" ++ join (js ",")
        (map (λ kv, NL :: ind' ++ quote kv.1 ++ js ": " ++ stringify_ind ind' kv.2) o) ++
      NL :: ind ++ js "}"
  | _ => JSON_stringify v
  end.
Definition JSON_stringify_2 (v : json) : jsstr := stringify_ind [] v.

Example stringify_2_1 :
  JSON_stringify_2 (JObj [(js "a", JArr [JNum (num_of_Z 1); JArr []]); (js "b", JObj [])]) =
  jq "{" ++ NL :: jq "  `a`: [" ++ NL :: jq "    1," ++ NL :: jq "    []" ++ NL :: jq "  ]," ++
  NL :: jq "  `b`: {}" ++ NL :: jq "}".
Proof. vm_compute. reflexivity. Qed.

(** *** Reading it back *)

Definition all_ws (w : jsstr) : Prop := forallb is_json_ws w = true.

Lemma skip_ws_app w s : all_ws w → skip_json_ws (w ++ s) = skip_json_ws s.
Proof.
  unfold all_ws. induction w as [|c w IH]; [done|]. intros [Hc Hw]%andb_true_iff.
  cbn [app skip_json_ws]. rewrite Hc. by apply IH.
Qed.

Lemma parse_value_ws f w s : all_ws w → parse_value f (w ++ s) = parse_value f s.
Proof. intros Hw. destruct f as [|f]; [done|]. cbn [parse_value]. by rewrite skip_ws_app. Qed.

Lemma expect_ws c w s : all_ws w → expect c (w ++ s) = expect c s.
Proof. intros Hw. unfold expect. by rewrite skip_ws_app. Qed.

Lemma parse_members_ws f acc w s : all_ws w → parse_members f acc (w ++ s) = parse_members f acc s.
Proof. intros Hw. destruct f as [|f]; [done|]. cbn [parse_members]. by rewrite expect_ws. Qed.

Lemma num_delim_ws w c r : all_ws w → is_num_char c = false → num_delim (w ++ c :: r).
Proof.
  intros Hw Hc. destruct w as [|d w]; [done|]. apply andb_true_iff in Hw as [Hd _]. simpl.
  unfold is_json_ws in Hd. rewrite !orb_true_iff, !N.eqb_eq in Hd.
  destruct Hd as [[[->| ->]| ->]| ->]; done.
Qed.

(** A text that is read as the value, whatever follows. *)
Definition read_as (t : jsstr) (v : json) : Prop :=
  ∀ f r, 2 * length t ≤ f → num_delim r → parse_value f (t ++ r) = Some (v, r).

Lemma reads_text v : reads_back v ↔ read_as (JSON_stringify v) v.
Proof. done. Qed.

Lemma elems_text w w' l ts f r :
  all_ws w → all_ws w' → l ≠ [] → Forall2 read_as ts l →
  2 * length (join (js ",") (map (app w) ts)) < f →
  parse_elems f (join (js ",") (map (app w) ts) ++ w' ++ 93%N :: r) = Some (l, r).
Proof.
  intros Hw Hw' Hl Hall. revert f. induction Hall as [|t v ts l Hv Hall IH]; intros f Hf; [done|].
  destruct f as [|f]; [lia|].
  assert (num_delim (w' ++ 93%N :: r)) as Hd by (by apply num_delim_ws).
  destruct Hall as [|t2 v2 ts l Hv2 Hall].
  - cbn [map join] in *. rewrite length_app in Hf. cbn [parse_elems].
    rewrite <- app_assoc, parse_value_ws, Hv by (done || lia).
    rewrite !expect_ws by done. by rewrite expect_ne, expect_eq.
  - cbn [map] in *. rewrite join_cons in *. rewrite !length_app in Hf.
    change (length (js ",")) with 1 in Hf. rewrite <- !app_assoc. change (js "," ++ ?x) with (44%N :: x). cbn [parse_elems].
    rewrite parse_value_ws, Hv by (done || lia). rewrite expect_eq by done.
    by rewrite IH by (done || (cbn [map]; lia)).
Qed.

Definition member_text (w : jsstr) (kt : jsstr * jsstr) : jsstr :=
  w ++ quote kt.1 ++ js ": " ++ kt.2.

Lemma members_text w w' o ts acc f r :
  all_ws w → all_ws w' → o ≠ [] →
  Forall2 (λ kt kv, kt.1 = kv.1 ∧ is_utf16 kv.1 ∧ read_as kt.2 kv.2) ts o →
  2 * length (join (js ",") (map (member_text w) ts)) < f →
  parse_members f acc (join (js ",") (map (member_text w) ts) ++ w' ++ 125%N :: r) =
  Some (foldl (λ acc kv, obj_set kv.1 kv.2 acc) acc o, r).
Proof.
  intros Hw Hw' Ho Hall. revert acc f.
  induction Hall as [|[k t] [k' v] ts o (Hk & Hu & Hv) Hall IH]; intros acc f Hf; [done|].
  cbn [fst snd] in *. subst k'. destruct f as [|f]; [lia|].
  assert (∀ r', num_delim r' → 2 * length (member_text w (k, t)) < S f →
    parse_members (S f) acc (member_text w (k, t) ++ r') =
    match expect 44 r' with
    | Some r4 => parse_members f (obj_set k v acc) r4
    | None => match expect 125 r' with
              | Some r4 => Some (obj_set k v acc, r4) | None => None end
    end) as Hstep.
  { intros r' Hr' Hlen. unfold member_text in *. cbn [fst snd] in *.
    rewrite !length_app in Hlen. pose proof (length_quote k). simpl length in Hlen.
    rewrite <- !app_assoc, parse_members_ws by done.
    change (js ": " ++ ?y) with (58%N :: [32%N] ++ y).
    cbn [parse_members]. unfold quote. cbn [app]. rewrite expect_eq by done.
    rewrite <- app_assoc. cbn [app]. rewrite parse_str_quote_chars by done.
    rewrite expect_eq by done.
    change (32%N :: t ++ r') with ([32%N] ++ t ++ r'). rewrite parse_value_ws by done.
    rewrite Hv by (done || lia). done. }
  assert (num_delim (w' ++ 125%N :: r)) as Hd by (by apply num_delim_ws).
  destruct Hall as [|kt2 kv2 ts o Hkv2 Hall].
  - cbn [map join foldl fst snd] in *. rewrite Hstep by (done || lia).
    rewrite !expect_ws by done. by rewrite expect_ne, expect_eq.
  - cbn [map] in *. rewrite join_cons in *. rewrite !length_app in Hf.
    change (length (js ",")) with 1 in Hf. rewrite <- !app_assoc.
    change (js "," ++ ?x) with (44%N :: x).
    rewrite Hstep by (done || lia). rewrite expect_eq by done.
    by rewrite IH by (done || (cbn [map]; lia)).
Qed.

Lemma text_arr w w' l ts :
  all_ws w → all_ws w' → l ≠ [] → Forall2 read_as ts l →
  (∀ x t, ts = x :: t → ∃ c u, x = c :: u ∧ is_json_ws c = false ∧ c ≠ 93%N) →
  read_as (js "[" ++ join (js ",") (map (app w) ts) ++ w' ++ js "]") (JArr l).
Proof.
  intros Hw Hw' Hl Ht Hh f r Hf Hr. rewrite !length_app in Hf. simpl length in Hf.
  destruct f as [|f]; [lia|]. rewrite <- !app_assoc.
  change (js "[" ++ ?x) with (91%N :: x). change (js "]" ++ r) with (93%N :: r).
  cbn [parse_value]. rewrite skip_json_ws_id by done. cbn [N.eqb Pos.eqb].
  rewrite (elems_text w w' l ts) by (done || lia).
  destruct Ht as [|t v ts l Htv Ht]; [done|].
  destruct (Hh t ts eq_refl) as (c & u & -> & Hc & Hne).
  enough (expect 93 (join (js ",") (map (app w) ((c :: u) :: ts)) ++ w' ++ 93%N :: r) = None) as -> by done.
  destruct ts; cbn [map join]; rewrite <- !app_assoc, expect_ws by done; by apply expect_ne.
Qed.

Lemma text_obj w w' o ts :
  all_ws w → all_ws w' → o ≠ [] → obj_ordered o →
  Forall2 (λ kt kv, kt.1 = kv.1 ∧ is_utf16 kv.1 ∧ read_as kt.2 kv.2) ts o →
  read_as (js "{" ++ join (js ",") (map (member_text w) ts) ++ w' ++ js "}") (JObj o).
Proof.
  intros Hw Hw' Hl Ho Ht f r Hf Hr. rewrite !length_app in Hf. simpl length in Hf.
  destruct f as [|f]; [lia|]. rewrite <- !app_assoc.
  change (js "{" ++ ?x) with (123%N :: x). change (js "}" ++ r) with (125%N :: r).
  cbn [parse_value]. rewrite skip_json_ws_id by done. cbn [N.eqb Pos.eqb].
  rewrite (members_text w w' o ts) by (done || lia). rewrite (proj1 (obj_ordered_id o) Ho).
  destruct Ht as [|[k t] kv ts o Htv Ht]; [done|].
  enough (expect 125 (join (js ",") (map (member_text w) ((k, t) :: ts)) ++ w' ++ 125%N :: r) = None)
    as -> by done.
  destruct ts; cbn [map join]; unfold member_text at 1; rewrite <- !app_assoc, expect_ws by done;
    unfold quote; by apply expect_ne.
Qed.

Lemma stringify_ind_head ind v :
  json_wf v → ∃ c u, stringify_ind ind v = c :: u ∧ is_json_ws c = false ∧ c ≠ 93%N.
Proof.
  intros Hv. destruct v as [|b|n|s|[|x l]|[|kv o]]; cbn [stringify_ind].
  1-4: destruct (stringify_head _ Hv) as (c & t & -> & ? & ? & _); eauto.
  all: eexists _, _; by split.
Qed.

Lemma stringify_ind_text v ind : all_ws ind → json_wf v → read_as (stringify_ind ind v) v.
Proof.
  revert ind. induction v as [|b|n|s|l IH|o IH] using json_ind'; intros ind Hi Hv.
  1-4: by apply json_wf_reads_back.
  - destruct l as [|x l]; [by apply (json_wf_reads_back (JArr []))|].
    inversion Hv as [| | | |? Hl|]; subst. set (ind' := js "  " ++ ind).
    replace (stringify_ind ind (JArr (x :: l))) with
      (js "[" ++ join (js ",") (map (app (NL :: ind')) (map (stringify_ind ind') (x :: l))) ++
       (NL :: ind) ++ js "]") by (rewrite map_map; done).
    apply text_arr; [exact Hi|exact Hi|done| |].
    + apply Forall2_fmap_l, Forall_Forall2_diag. rewrite Forall_forall in *. intros y Hy.
      apply IH; [done|exact Hi|by apply Hl].
    + intros y t [= <- _]. apply stringify_ind_head. by inversion Hl.
  - destruct o as [|kv o]; [by apply (json_wf_reads_back (JObj []))|].
    apply wf_obj_iff in Hv as [Ho Hl]. set (ind' := js "  " ++ ind).
    replace (stringify_ind ind (JObj (kv :: o))) with
      (js "{" ++ join (js ",") (map (member_text (NL :: ind'))
         (map (λ kv, (kv.1, stringify_ind ind' kv.2)) (kv :: o))) ++ (NL :: ind) ++ js "}")
      by (rewrite map_map; done).
    apply text_obj; [exact Hi|exact Hi|done|done|].
    apply Forall2_fmap_l, Forall_Forall2_diag. rewrite Forall_forall in *. intros y Hy.
    destruct (Hl y Hy) as [Hk Hw]. split_and!; [done|done|]. apply IH; [done|exact Hi|done].
Qed.

(** [JSON.parse(JSON.stringify(v, null, 2))] is [v]. *)
Lemma JSON_roundtrip_2 v : json_wf v → JSON_parse (JSON_stringify_2 v) = Some v.
Proof.
  intros Hv. unfold JSON_parse, JSON_stringify_2. rewrite <- (app_nil_r (stringify_ind [] v)) at 2.
  by rewrite (stringify_ind_text v [] eq_refl Hv) by (done || lia).
Qed.
