(* ===== verification/ParamOverride.v ===== *)
(** * The editor of parameter overrides: data

    A channel may rewrite the requests it relays: its [param_override] column
    holds a list of operations as JSON, which an administrator edits in a form
    ([features/channels/components/dialogs/param-override-editor-dialog.tsx]).
    This file has the pure part of that dialog: how the text becomes rows of
    the form, how the values of single modes are taken apart and put together,
    what is checked, and the text that is built.  [ParamEditor] has the state
    of the dialog, [OverrideServer] what the server makes of the text.

    Every row gets a fresh id from a counter; [Fresh] is the monad of the
    computations that draw ids or throw. *)
From S2P Require Import Prelude JSString JSNumber JSON JSONText.
Local Open Scope Z_scope.

(** ** Optional members *)

(** An object whose members are added in this order, the absent ones not. *)
Definition members (l : list (jsstr * option json)) : obj json :=
  omap (λ kv, (λ v, (kv.1, v)) <$> kv.2) l.

Definition when_some (b : bool) (v : json) : option json := if b then Some v else None.

Lemma members_sub l : ∀ k v, (k, v) ∈ members l ↔ (k, Some v) ∈ l.
Proof.
  intros k v. unfold members. rewrite list_elem_of_omap. split.
  - intros ([k' [w|]] & Hin & E); by simplify_eq/=.
  - intros H. by exists (k, Some v).
Qed.

Lemma obj_get_members k l :
  NoDup (obj_keys l) → obj_get k (members l) = match obj_get k l with Some o => o | None => None end.
Proof.
  induction l as [|[k' o] l IH]; [done|]. intros [Hk Hn]%NoDup_cons. specialize (IH Hn).
  cbn [obj_get fst]. destruct (decide (k = k')) as [->|Hne].
  - destruct o as [v|]; cbn; [by destruct (decide _)|]. apply obj_get_None. intros [[x v] [-> Hv]]%list_elem_of_fmap.
    apply members_sub in Hv. apply Hk. unfold obj_keys. apply list_elem_of_fmap. by exists (x, Some v).
  - destruct o as [v|]; cbn; [|done]. by destruct (decide _).
Qed.

Lemma members_ordered l :
  NoDup (obj_keys l) → Forall (λ k, key_index k = None) (obj_keys l) → obj_ordered (members l).
Proof.
  induction l as [|[k o] l IH]; cbn [obj_keys map fst]; [intros; apply obj_ordered_nil|].
  intros [Hk Hn]%NoDup_cons [Hi Hf]%Forall_cons. destruct (IH Hn Hf) as [Hm Hs]. destruct o as [v|]; cbn; [|done].
  assert (∀ x, x ∈ obj_keys (members l) → x ∈ obj_keys l) as Hin.
  { intros x [[y v'] [-> Hv]]%list_elem_of_fmap. apply members_sub in Hv. apply list_elem_of_fmap. by exists (y, Some v'). }
  split; cbn; constructor; try done; [by intros ?%Hin|]. apply Forall_forall. intros x Hx%Hin.
  rewrite Forall_forall in Hf. unfold may_precede, key_before. by rewrite (Hf x Hx).
Qed.

Lemma wf_members l :
  NoDup (obj_keys l) → Forall (λ k, key_index k = None ∧ is_utf16 k) (obj_keys l) →
  Forall (λ kv, ∀ v, kv.2 = Some v → json_wf v) l → json_wf (JObj (members l)).
Proof.
  intros Hn Hk Hv. apply wf_obj_iff. rewrite Forall_and in Hk. destruct Hk as [Hi Hu]. split; [by apply members_ordered|].
  apply Forall_forall. intros [k v] Hin%members_sub. rewrite Forall_forall in Hu. rewrite Forall_forall in Hv. split.
  - apply Hu, list_elem_of_fmap. by exists (k, Some v).
  - by apply (Hv _ Hin).
Qed.

(** ** Fresh ids and exceptions *)

(** A computation on the counter; [None] is an exception, which keeps the ids
    that were drawn. *)
Definition Fresh (A : Type) : Type := N → option A * N.

#[global] Instance fresh_ret : MRet Fresh := λ A x s, (Some x, s).
#[global] Instance fresh_bind : MBind Fresh := λ A B f m s,
  match m s with (Some x, s') => f x s' | (None, s') => (None, s') end.

Fixpoint fresh_map {A B} (f : A → Fresh B) (l : list A) : Fresh (list B) :=
  match l with
  | [] => mret []
  | x :: l => y ← f x; ys ← fresh_map f l; mret (y :: ys)
  end.

(** Reading a property of [null] throws. *)
Definition not_null (v : json) : Fresh () := λ s, (match v with JNull => None | _ => Some () end, s).

(** [m] returns [x]. *)
Definition returns {A} (m : Fresh A) (s : N) (x : A) (s' : N) : Prop := m s = (Some x, s').

Lemma returns_bind {A B} (m : Fresh A) (f : A → Fresh B) s y s' :
  returns (x ← m; f x) s y s' ↔ ∃ x t, returns m s x t ∧ returns (f x) t y s'.
Proof.
  unfold returns, mbind, fresh_bind. destruct (m s) as [[x|] t]; split.
  - intros H. by exists x, t.
  - by intros (x' & t' & [= <- <-] & H).
  - done.
  - by intros (x' & t' & H & _).
Qed.

Lemma returns_ret {A} (x : A) s y s' : returns (mret x) s y s' ↔ x = y ∧ s = s'.
Proof. split; [by intros [= -> ->]|by intros [-> ->]]. Qed.

Lemma returns_map_cons {A B} (f : A → Fresh B) x l s ys s' :
  returns (fresh_map f (x :: l)) s ys s' ↔
  ∃ y t zs, returns (f x) s y t ∧ returns (fresh_map f l) t zs s' ∧ ys = y :: zs.
Proof.
  cbn [fresh_map]. rewrite returns_bind. split.
  - intros (y & t & Hy & (zs & u & Hz & [<- <-]%returns_ret)%returns_bind). by exists y, t, zs.
  - intros (y & t & zs & Hy & Hz & ->). exists y, t. split; [done|]. apply returns_bind. by exists zs, s'.
Qed.

Lemma fresh_map_Forall2 {A B} (f : A → Fresh B) (P : A → B → Prop) l s ys s' :
  (∀ x s y s', x ∈ l → returns (f x) s y s' → P x y) → returns (fresh_map f l) s ys s' → Forall2 P l ys.
Proof.
  revert s ys. induction l as [|x l IH]; intros s ys Hf E; [injection E as <- <-; constructor|].
  apply returns_map_cons in E as (y & t & zs & Hy & Hz & ->). constructor.
  - apply (Hf x s y t); [by left|done].
  - apply (IH t); [|done]. intros x' u y' u' Hx. apply Hf. by right.
Qed.

Lemma fresh_map_total {A B} (f : A → Fresh B) l s :
  (∀ x s, x ∈ l → ∃ y s', returns (f x) s y s') → ∃ ys s', returns (fresh_map f l) s ys s'.
Proof.
  revert s. induction l as [|x l IH]; intros s Hf; [by eexists _, _|].
  destruct (Hf x s) as (y & t & Hy); [by left|]. destruct (IH t) as (ys & s' & Hs).
  { intros x' u Hx. apply Hf. by right. }
  exists (y :: ys), s'. apply returns_map_cons. by exists y, t, ys.
Qed.

Module ParamOverride.

(** ** Rows *)

Record ParamOverrideCondition := mkCondition {
  c_id : jsstr;
  c_path : jsstr;
  c_mode : jsstr;
  c_value_text : jsstr;
  c_invert : bool;
  c_pass_missing_key : bool;
}.

Record ParamOverrideOperation := mkOperation {
  id : jsstr;
  description : jsstr;
  path : jsstr;
  mode : jsstr;
  from : jsstr;
  to : jsstr;
  value_text : jsstr;
  keep_origin : bool;
  logic : jsstr;
  conditions : list ParamOverrideCondition;
}.

Definition OPERATION_MODE_OPTIONS : list (jsstr * jsstr) :=
  [(js "Set Field", js "set"); (js "Delete Field", js "delete"); (js "Append to End", js "append");
   (js "Prepend to Start", js "prepend"); (js "Copy Field", js "copy"); (js "Move Field", js "move");
   (js "String Replace", js "replace"); (js "Regex Replace", js "regex_replace");
   (js "Trim Prefix", js "trim_prefix"); (js "Trim Suffix", js "trim_suffix");
   (js "Ensure Prefix", js "ensure_prefix"); (js "Ensure Suffix", js "ensure_suffix");
   (js "Trim Space", js "trim_space"); (js "To Lowercase", js "to_lower"); (js "To Uppercase", js "to_upper");
   (js "Return Custom Error", js "return_error"); (js "Prune Object Items", js "prune_objects");
   (js "Pass Through Headers", js "pass_headers"); (js "Sync Fields", js "sync_fields");
   (js "Set Request Header", js "set_header"); (js "Delete Request Header", js "delete_header");
   (js "Copy Request Header", js "copy_header"); (js "Move Request Header", js "move_header")].
Definition OPERATION_MODE_VALUES : list jsstr := map snd OPERATION_MODE_OPTIONS.
Definition OPERATION_MODE_LABEL_MAP (m : jsstr) : option jsstr :=
  fst <$> List.find (λ o, bool_decide (o.2 = m)) OPERATION_MODE_OPTIONS.

Definition CONDITION_MODE_OPTIONS : list (jsstr * jsstr) :=
  [(js "Exact Match", js "full"); (js "Prefix", js "prefix"); (js "Suffix", js "suffix"); (js "Contains", js "contains");
   (js "Greater Than", js "gt"); (js "Greater Than or Equal", js "gte"); (js "Less Than", js "lt");
   (js "Less Than or Equal", js "lte")].
Definition CONDITION_MODE_VALUES : list jsstr := map snd CONDITION_MODE_OPTIONS.

Record ModeMeta := mkMeta {
  m_path : bool; m_pathOptional : bool; m_value : bool; m_from : bool; m_to : bool; m_keepOrigin : bool; m_pathAlias : bool;
}.
Definition only_path : ModeMeta := mkMeta true false false false false false false.
Definition path_value : ModeMeta := mkMeta true false true false false false false.
Definition path_value_keep : ModeMeta := mkMeta true false true false false true false.
Definition from_to : ModeMeta := mkMeta false false false true true false false.
Definition path_from : ModeMeta := mkMeta true false false true false false false.
Definition from_to_alias : ModeMeta := mkMeta false false false true true true true.

Definition MODE_META : list (jsstr * ModeMeta) :=
  [(js "delete", only_path); (js "set", path_value_keep); (js "append", path_value_keep); (js "prepend", path_value_keep);
   (js "copy", from_to); (js "move", from_to); (js "replace", path_from); (js "regex_replace", path_from);
   (js "trim_prefix", path_value); (js "trim_suffix", path_value); (js "ensure_prefix", path_value);
   (js "ensure_suffix", path_value); (js "trim_space", only_path); (js "to_lower", only_path); (js "to_upper", only_path);
   (js "return_error", mkMeta false false true false false false false);
   (js "prune_objects", mkMeta false true true false false false false);
   (js "pass_headers", mkMeta false false true false false true false);
   (js "sync_fields", from_to); (js "set_header", path_value_keep); (js "delete_header", only_path);
   (js "copy_header", from_to_alias); (js "move_header", from_to_alias)].
(** [MODE_META[mode] || MODE_META.set] *)
Definition meta_of (m : jsstr) : ModeMeta := opt_or (obj_get m MODE_META) path_value_keep.

Definition VALUE_REQUIRED_MODES : list jsstr :=
  [js "trim_prefix"; js "trim_suffix"; js "ensure_prefix"; js "ensure_suffix"; js "set_header"; js "return_error";
   js "prune_objects"; js "pass_headers"].
Definition FROM_REQUIRED_MODES : list jsstr :=
  [js "copy"; js "move"; js "replace"; js "regex_replace"; js "copy_header"; js "move_header"; js "sync_fields"].
Definition TO_REQUIRED_MODES : list jsstr :=
  [js "copy"; js "move"; js "copy_header"; js "move_header"; js "sync_fields"].

(** ** Values as text *)

(** [None] is [undefined]. *)
Definition toValueText (value : option json) : jsstr :=
  match value with
  | None => []
  | Some (JStr s) => s
  | Some v => JSON_stringify v
  end.

Definition parseLooseValue (valueText : jsstr) : json :=
  let raw := trim valueText in
  match raw with
  | [] => JStr []
  | _ => match JSON_parse raw with Some v => v | None => JStr raw end
  end.

Definition verifyJSON (text : jsstr) : bool :=
  match JSON_parse text with Some _ => true | None => false end.

(** [typeof v.k === 'string' ? v.k : ''], [v.k === true] and
    [VALUES.has(v.k) ? v.k : d] *)
Definition text_prop (v : json) (k : jsstr) : jsstr :=
  match json_prop v k with Some (JStr s) => s | _ => [] end.
Definition true_prop (v : json) (k : jsstr) : bool :=
  match json_prop v k with Some (JBool true) => true | _ => false end.
Definition choice_prop (values : list jsstr) (d : jsstr) (v : json) (k : jsstr) : jsstr :=
  match json_prop v k with Some (JStr s) => if bool_decide (s ∈ values) then s else d | _ => d end.

(** [s.toUpperCase()] and [s.toLowerCase()] on the letters of ASCII; the
    results are only compared with words of such letters, which no other
    letter becomes a part of. *)
Definition ascii_upper (s : jsstr) : jsstr := map (λ c, if is_lower c then (c - 32)%N else c) s.
Definition ascii_lower (s : jsstr) : jsstr := map (λ c, if is_upper c then (c + 32)%N else c) s.

(** [String(v || d)] *)
Definition string_or (v : option json) (d : jsstr) : jsstr :=
  match v with Some v => if json_truthy v then json_to_string v else d | None => d end.

Definition AND : jsstr := js "AND".
Definition OR : jsstr := js "OR".
(** [String(v || d).toUpperCase() === w ? w : other] *)
Definition logic_of (v : option json) (d w other : jsstr) : jsstr :=
  if bool_decide (ascii_upper (string_or v d) = w) then w else other.

(** ** Rows from JSON *)

Section Ids.
(** [Date.now()] at the moment an id is drawn. *)
Context (now : N → N).

Definition local_id (seed : N) : jsstr := js "po_" ++ string_of_N (now seed) ++ js "_" ++ string_of_N seed.
Definition nextLocalId : Fresh jsstr := λ seed, (Some (local_id seed), (seed + 1)%N).

Definition condition_of (v : json) (i : jsstr) : ParamOverrideCondition :=
  mkCondition i (text_prop v (js "path")) (choice_prop CONDITION_MODE_VALUES (js "full") v (js "mode"))
    (toValueText (json_prop v (js "value"))) (true_prop v (js "invert")) (true_prop v (js "pass_missing_key")).

Definition normalizeCondition (v : json) : Fresh ParamOverrideCondition :=
  i ← nextLocalId; _ ← not_null v; mret (condition_of v i).
Definition createDefaultCondition : Fresh ParamOverrideCondition := normalizeCondition (JObj []).

Definition operation_of (v : json) (i : jsstr) (cs : list ParamOverrideCondition) : ParamOverrideOperation :=
  mkOperation i (text_prop v (js "description")) (text_prop v (js "path"))
    (choice_prop OPERATION_MODE_VALUES (js "set") v (js "mode")) (text_prop v (js "from")) (text_prop v (js "to"))
    (toValueText (json_prop v (js "value"))) (true_prop v (js "keep_origin"))
    (logic_of (json_prop v (js "logic")) OR AND OR) cs.

Definition condition_list (v : json) : list json :=
  match json_prop v (js "conditions") with Some (JArr l) => l | _ => [] end.

Definition normalizeOperation (v : json) : Fresh ParamOverrideOperation :=
  i ← nextLocalId; _ ← not_null v; cs ← fresh_map normalizeCondition (condition_list v); mret (operation_of v i cs).
Definition createDefaultOperation : Fresh ParamOverrideOperation := normalizeOperation (JObj [(js "mode", JStr (js "set"))]).

(** ** Order and summary *)

(** [ops.findIndex(o => o.id === i)] *)
Definition find_index (i : jsstr) (ops : list ParamOverrideOperation) : option nat :=
  fst <$> list_find (λ o, id o = i) ops.

Definition reorderOperations (ops : list ParamOverrideOperation) (sourceId targetId : jsstr) (after : bool)
    : list ParamOverrideOperation :=
  if negb (nonempty sourceId) || negb (nonempty targetId) || bool_decide (sourceId = targetId) then ops else
  match find_index sourceId ops with
  | None => ops
  | Some srcIdx =>
      match ops !! srcIdx with
      | None => ops
      | Some moved =>
          let next := take srcIdx ops ++ drop (S srcIdx) ops in
          match find_index targetId next with
          | None => ops
          | Some insertIdx =>
              let insertIdx := if after then S insertIdx else insertIdx in
              take insertIdx next ++ moved :: drop insertIdx next
          end
      end
  end.

Definition condition_touched (c : ParamOverrideCondition) : bool :=
  nonempty (trim (c_path c)) || nonempty (trim (c_value_text c)) || negb (bool_decide (c_mode c = js "full")) ||
  c_invert c || c_pass_missing_key c.

Definition isOperationBlank (o : ParamOverrideOperation) : bool :=
  let hasCondition := existsb condition_touched (conditions o) in
  bool_decide (mode o = js "set") && negb (nonempty (trim (path o))) && negb (nonempty (trim (from o))) &&
  negb (nonempty (trim (to o))) && negb (nonempty (trim (value_text o))) && negb (keep_origin o) && negb hasCondition.

Definition getOperationSummary (o : ParamOverrideOperation) (index : nat) : jsstr :=
  let m := str_or (mode o) (js "set") in
  let modeLabel := str_or (opt_or (OPERATION_MODE_LABEL_MAP m) []) m in
  let from := trim (from o) in
  let to := trim (to o) in
  let line w := string_of_N (N.of_nat (index + 1)) ++ js ". " ++ modeLabel ++ [32; 183; 32]%N ++ w in
  if bool_decide (m = js "sync_fields") then line (str_or from (str_or to (js "-")))
  else line (str_or (trim (path o)) (str_or from (str_or to (js "-")))).

(** ** Values of single modes *)

Definition JSON_KIND : jsstr := js "json".
Definition HEADER_KIND : jsstr := js "header".

(** The kind of a field that [sync_fields] names, and the field. *)
Definition parseSyncTargetSpec (spec : jsstr) : jsstr * jsstr :=
  let raw := trim spec in
  match raw with
  | [] => (JSON_KIND, [])
  | _ =>
      match index_of (js ":") raw with
      | None => (JSON_KIND, raw)
      | Some idx =>
          let prefix := ascii_lower (trim (take idx raw)) in
          let key := trim (drop (idx + 1) raw) in
          if bool_decide (prefix = HEADER_KIND) then (HEADER_KIND, key) else (JSON_KIND, key)
      end
  end.

Definition buildSyncTargetSpec (type key : jsstr) : jsstr :=
  let normalizedType := if bool_decide (type = HEADER_KIND) then HEADER_KIND else JSON_KIND in
  match trim key with [] => [] | normalizedKey => normalizedType ++ js ":" ++ normalizedKey end.

Record ReturnErrorDraft := mkError {
  e_message : jsstr;
  e_statusCode : num;
  e_code : jsstr;
  e_type : jsstr;
  e_skipRetry : bool;
  e_simpleMode : bool;
}.

(** [Number.isInteger(x) && x >= 100 && x <= 599 ? x : 400] *)
Definition status_or_400 (x : num) : num :=
  match num_integer x with
  | Some _ => if num_leb (num_of_Z 100) x && num_leb x (num_of_Z 599) then x else num_of_Z 400
  | None => num_of_Z 400
  end.

(** [a || b] on properties *)
Definition json_or (a b : option json) : option json :=
  match a with Some v => if json_truthy v then a else b | None => b end.

Definition parseReturnErrorDraft (valueText : jsstr) : ReturnErrorDraft :=
  let defaults := mkError [] (num_of_Z 400) [] [] true true in
  let raw := trim valueText in
  match raw with
  | [] => defaults
  | _ =>
      match JSON_parse raw with
      | Some (JObj parsed) =>
          let statusRaw :=
            match obj_get (js "status_code") parsed with Some v => Some v | None => obj_get (js "status") parsed end in
          let statusValue := match statusRaw with Some v => json_to_number v | None => S754_nan end in
          mkError (trim (string_or (json_or (obj_get (js "message") parsed) (obj_get (js "msg") parsed)) []))
            (status_or_400 statusValue)
            (trim (string_or (obj_get (js "code") parsed) []))
            (trim (string_or (obj_get (js "type") parsed) []))
            (match obj_get (js "skip_retry") parsed with Some (JBool false) => false | _ => true end)
            false
      | _ => mkError raw (num_of_Z 400) [] [] true true
      end
  end.

Definition buildReturnErrorValueText (draft : ReturnErrorDraft) : jsstr :=
  let message := trim (e_message draft) in
  if e_simpleMode draft then message else
  let code := trim (e_code draft) in
  let type := trim (e_type draft) in
  JSON_stringify (JObj (members
    [(js "message", Some (JStr message));
     (js "status_code", Some (JNum (status_or_400 (e_statusCode draft))));
     (js "code", when_some (nonempty code) (JStr code));
     (js "type", when_some (nonempty type) (JStr type));
     (js "skip_retry", when_some (negb (e_skipRetry draft)) (JBool false))])).

Record PruneRule := mkRule {
  r_id : jsstr;
  r_path : jsstr;
  r_mode : jsstr;
  r_value_text : jsstr;
  r_invert : bool;
  r_pass_missing_key : bool;
}.

Record PruneObjectsDraft := mkPrune {
  p_simpleMode : bool;
  p_typeText : jsstr;
  p_logic : jsstr;
  p_recursive : bool;
  p_rules : list PruneRule;
}.

Definition rule_of (v : json) (i : jsstr) : PruneRule :=
  mkRule i (text_prop v (js "path")) (choice_prop CONDITION_MODE_VALUES (js "full") v (js "mode"))
    (toValueText (json_prop v (js "value"))) (true_prop v (js "invert")) (true_prop v (js "pass_missing_key")).
Definition normalizePruneRule (v : json) : Fresh PruneRule := i ← nextLocalId; mret (rule_of v i).

(** [normalizePruneRule({ path, mode: 'full', value })] *)
Definition exact_rule (kv : jsstr * json) : Fresh PruneRule :=
  normalizePruneRule (JObj [(js "path", JStr kv.1); (js "mode", JStr (js "full")); (js "value", kv.2)]).

Definition is_object (v : json) : bool := match v with JObj _ | JArr _ => true | _ => false end.

Definition prune_rules (parsed : obj json) : Fresh (list PruneRule) :=
  ws ← fresh_map exact_rule (match obj_get (js "where") parsed with Some (JObj o) => o | _ => [] end);
  cs ← match obj_get (js "conditions") parsed with
       | Some (JArr l) => fresh_map normalizePruneRule (List.filter is_object l)
       | Some (JObj o) => fresh_map exact_rule o
       | _ => mret [] end;
  mret (ws ++ cs).

Definition parsePruneObjectsDraft (valueText : jsstr) : Fresh PruneObjectsDraft :=
  let simple typeText := mkPrune true typeText AND true [] in
  let raw := trim valueText in
  match raw with
  | [] => mret (simple [])
  | _ =>
      match JSON_parse raw with
      | None => mret (simple raw)
      | Some (JStr s) => mret (simple (trim s))
      | Some (JObj parsed) =>
          rules ← prune_rules parsed;
          let typeText := match obj_get (js "type") parsed with Some v => trim (json_to_string v) | None => [] end in
          let advanced := existsb (λ k, obj_has k parsed) [js "logic"; js "recursive"; js "where"; js "conditions"] in
          mret (mkPrune (negb advanced) typeText (logic_of (obj_get (js "logic") parsed) AND OR AND)
            (match obj_get (js "recursive") parsed with Some (JBool false) => false | _ => true end) rules)
      | Some JNull => mret (simple [])
      | Some v => mret (simple (trim (json_to_string v)))
      end
  end.

Definition rule_payload (r : PruneRule) : json :=
  let valueRaw := trim (r_value_text r) in
  JObj (members
    [(js "path", Some (JStr (trim (r_path r))));
     (js "mode", Some (JStr (if bool_decide (r_mode r ∈ CONDITION_MODE_VALUES) then r_mode r else js "full")));
     (js "value", when_some (nonempty valueRaw) (parseLooseValue valueRaw));
     (js "invert", when_some (r_invert r) (JBool true));
     (js "pass_missing_key", when_some (r_pass_missing_key r) (JBool true))]).

Definition prune_payload (draft : PruneObjectsDraft) : obj json :=
  let typeText := trim (p_typeText draft) in
  let conditions := map rule_payload (List.filter (λ r, nonempty (trim (r_path r))) (p_rules draft)) in
  members
    [(js "type", when_some (nonempty typeText) (JStr typeText));
     (js "logic", when_some (bool_decide (ascii_upper (str_or (p_logic draft) AND) = OR)) (JStr OR));
     (js "recursive", when_some (negb (p_recursive draft)) (JBool false));
     (js "conditions", when_some (negb (bool_decide (conditions = []))) (JArr conditions))].

Definition buildPruneObjectsValueText (draft : PruneObjectsDraft) : jsstr :=
  if p_simpleMode draft then trim (p_typeText draft) else
  let payload := prune_payload draft in
  if obj_has (js "type") payload || obj_has (js "conditions") payload then JSON_stringify (JObj payload)
  else JSON_stringify (JObj [(js "logic", JStr AND)]).

(** [String(i ?? '').trim()] *)
Definition name_text (v : json) : jsstr := match v with JNull => [] | _ => trim (json_to_string v) end.

Definition parsePassHeaderNames (rawValue : json) : list jsstr :=
  match rawValue with
  | JArr l => filter_bool (map name_text l)
  | JObj obj =>
      match obj_get (js "headers") obj with
      | Some (JArr l) => filter_bool (map name_text l)
      | _ =>
          match obj_get (js "header") obj with
          | Some v => filter_bool [name_text v]
          | None => []
          end
      end
  | JStr s => filter_bool (map trim (split_on 44%N s))
  | _ => []
  end.

Definition buildConditionPayload (c : ParamOverrideCondition) : option json :=
  match trim (c_path c) with
  | [] => None
  | path => Some (JObj (members
      [(js "path", Some (JStr path));
       (js "mode", Some (JStr (str_or (c_mode c) (js "full"))));
       (js "value", Some (parseLooseValue (c_value_text c)));
       (js "invert", when_some (c_invert c) (JBool true));
       (js "pass_missing_key", when_some (c_pass_missing_key c) (JBool true))]))
  end.

(** ** Validation *)

(** The message of an issue before its translation, without the rule number
    that it is about. *)
Definition return_error_issue (raw : jsstr) : option jsstr :=
  match JSON_parse raw with
  | Some (JObj parsed) =>
      if nonempty (trim (string_or (obj_get (js "message") parsed) [])) then None
      else Some (js "return_error requires a message field")
  | _ => None
  end.

Definition operation_issue (op : ParamOverrideOperation) : option jsstr :=
  let m := str_or (mode op) (js "set") in
  let meta := meta_of m in
  let pathValue := trim (path op) in
  let fromValue := trim (from op) in
  let toValue := trim (to op) in
  let raw := trim (value_text op) in
  if m_path meta && negb (nonempty pathValue) then Some (js "is missing target path") else
  if bool_decide (m ∈ FROM_REQUIRED_MODES) && negb (nonempty fromValue) && negb (m_pathAlias meta && nonempty pathValue)
  then Some (js "is missing source field") else
  if bool_decide (m ∈ TO_REQUIRED_MODES) && negb (nonempty toValue) && negb (m_pathAlias meta && nonempty pathValue)
  then Some (js "is missing target field") else
  if bool_decide (m ∈ VALUE_REQUIRED_MODES) && negb (nonempty raw) then Some (js "is missing value") else
  match (if bool_decide (m = js "return_error") then return_error_issue raw else None) with
  | Some e => Some e
  | None =>
      if bool_decide (m = js "pass_headers") && bool_decide (parsePassHeaderNames (parseLooseValue raw) = [])
      then Some (js "pass_headers format is invalid") else None
  end.

(** The first issue and its line. *)
Fixpoint validate_from (line : nat) (ops : list ParamOverrideOperation) : option (jsstr * nat) :=
  match ops with
  | [] => None
  | op :: ops => match operation_issue op with Some e => Some (e, line) | None => validate_from (S line) ops end
  end.
Definition validateOperations (ops : list ParamOverrideOperation) : option (jsstr * nat) := validate_from 1 ops.

(** ** The text that is built *)

Definition operation_payload (o : ParamOverrideOperation) : json :=
  let m := str_or (mode o) (js "set") in
  let meta := meta_of m in
  let descriptionValue := trim (description o) in
  let pathValue := trim (path o) in
  let fromValue := trim (from o) in
  let toValue := trim (to o) in
  let alias v := if m_pathAlias meta && negb (nonempty v) then pathValue else v in
  let conditions := omap buildConditionPayload (conditions o) in
  JObj (members
    [(js "mode", Some (JStr m));
     (js "description", when_some (nonempty descriptionValue) (JStr descriptionValue));
     (js "path", when_some (m_path meta || (m_pathOptional meta && nonempty pathValue)) (JStr pathValue));
     (js "value", when_some (m_value meta) (parseLooseValue (value_text o)));
     (js "keep_origin", when_some (m_keepOrigin meta && keep_origin o) (JBool true));
     (js "from", when_some (m_from meta) (JStr (alias fromValue)));
     (js "to", when_some (m_to meta || nonempty toValue) (JStr (alias toValue)));
     (js "conditions", when_some (negb (bool_decide (conditions = []))) (JArr conditions));
     (js "logic", when_some (negb (bool_decide (conditions = [])))
        (JStr (if bool_decide (logic o = AND) then AND else OR)))]).

(** [inl] is the exception with the issue. *)
Definition buildOperationsJson (sourceOperations : list ParamOverrideOperation) (validate : bool)
    : (jsstr * nat) + jsstr :=
  let filteredOps := List.filter (λ o, negb (isOperationBlank o)) sourceOperations in
  match filteredOps with
  | [] => inr []
  | _ =>
      match (if validate then validateOperations filteredOps else None) with
      | Some issue => inl issue
      | None => inr (JSON_stringify_2 (JObj [(js "operations", JArr (map operation_payload filteredOps))]))
      end
  end.

(** ** What the dialog opens with *)

Inductive EditMode := EVisual | EJson.
Inductive VisualMode := VOperations | VLegacy.

Record EditorState := mkState {
  editMode : EditMode;
  visualMode : VisualMode;
  legacyValue : jsstr;
  operations : list ParamOverrideOperation;
  jsonText : jsstr;
  jsonError : jsstr;
}.

(** The list of operations of a value that is an object with one. *)
Definition operation_list (parsed : json) : option (list json) :=
  match parsed with
  | JObj o => match obj_get (js "operations") o with Some (JArr l) => Some l | _ => None end
  | _ => None
  end.

Definition rows_of (l : list json) : Fresh (list ParamOverrideOperation) :=
  match l with [] => op ← createDefaultOperation; mret [op] | _ => fresh_map normalizeOperation l end.

Definition parseInitialState (text : jsstr) : Fresh EditorState :=
  let trimmed := trim text in
  match trimmed with
  | [] => op ← createDefaultOperation; mret (mkState EVisual VOperations [] [op] [] [])
  | _ =>
      match JSON_parse trimmed with
      | None => op ← createDefaultOperation; mret (mkState EJson VOperations [] [op] text (js "Invalid JSON format"))
      | Some parsed =>
          let pretty := JSON_stringify_2 parsed in
          match operation_list parsed with
          | Some l => ops ← rows_of l; mret (mkState EVisual VOperations [] ops pretty [])
          | None =>
              op ← createDefaultOperation;
              match parsed with
              | JObj _ => mret (mkState EVisual VLegacy pretty [op] pretty [])
              | _ => mret (mkState EJson VOperations [] [op] pretty [])
              end
          end
      end
  end.

End Ids.

End ParamOverride.
