(* ===== verification/OverrideServer.v ===== *)
(** * Parameter overrides: what the server makes of the text

    The server decodes the [param_override] column with its own reader
    ([relay/common/override.go]).  It is taken here as the specification of
    the editor: [Server] translates the reader of operations and conditions,
    and which fields of an operation each mode reads ([effect]).  The theorems
    say that opening the text in the editor and saving it keeps what the
    server does, and where it does not. *)
From S2P Require Import Prelude JSString JSNumber JSON JSONText ParamOverride.
Import ParamOverride.
Local Open Scope Z_scope.

Module Server.

(** ** The reader *)

(** [strings.TrimSpace]: the white space of Unicode, which is not quite that
    of JavaScript. *)
Definition is_space (c : jschar) : bool :=
  existsb (N.eqb c) [9; 10; 11; 12; 13; 32; 133; 160; 5760; 8232; 8233; 8239; 8287; 12288]%N
  || ((8192 <=? c) && (c <=? 8202))%N.
Fixpoint TrimLeft (s : jsstr) : jsstr :=
  match s with c :: r => if is_space c then TrimLeft r else s | [] => [] end.
Definition TrimSpace (s : jsstr) : jsstr := reverse (TrimLeft (reverse (TrimLeft s))).

Record ConditionOperation := mkCond {
  Cond_Path : jsstr;
  Cond_Mode : jsstr;
  Cond_Value : json;
  Cond_Invert : bool;
  Cond_PassMissingKey : bool;
}.

Record ParamOperation := mkOp {
  Path : jsstr;
  Mode : jsstr;
  Value : json;
  KeepOrigin : bool;
  From_ : jsstr;
  To_ : jsstr;
  Conditions : list ConditionOperation;
  Logic : jsstr;
}.

(** [m[k].(string)] and [m[k].(bool)], with the zero value when it fails. *)
Definition str_field (m : obj json) (k : jsstr) : jsstr :=
  match obj_get k m with Some (JStr s) => s | _ => [] end.
Definition bool_field (m : obj json) (k : jsstr) : bool :=
  match obj_get k m with Some (JBool b) => b | _ => false end.

Definition parse_condition (v : json) : option ConditionOperation :=
  match v with
  | JObj m =>
      let path := str_field m (js "path") in
      let mode := str_field m (js "mode") in
      if nonempty (TrimSpace path) && nonempty (TrimSpace mode)
      then Some (mkCond path mode (opt_or (obj_get (js "value") m) JNull) (bool_field m (js "invert"))
        (bool_field m (js "pass_missing_key")))
      else None
  | _ => None
  end.

Definition parseConditionOperations (raw : json) : option (list ConditionOperation) :=
  match raw with
  | JObj o =>
      let entries := List.filter (λ kv, nonempty (TrimSpace kv.1)) o in
      match entries with
      | [] => None
      | _ => Some (map (λ kv, mkCond (TrimSpace kv.1) (js "full") kv.2 false false) entries)
      end
  | JArr l => mapM parse_condition l
  | _ => None
  end.

Definition parse_operation (v : json) : option ParamOperation :=
  match v with
  | JObj m =>
      match obj_get (js "mode") m with
      | Some (JStr mode) =>
          cs ← match obj_get (js "conditions") m with Some c => parseConditionOperations c | None => Some [] end;
          Some (mkOp (str_field m (js "path")) mode (opt_or (obj_get (js "value") m) JNull)
            (bool_field m (js "keep_origin")) (str_field m (js "from")) (str_field m (js "to")) cs
            (match obj_get (js "logic") m with Some (JStr s) => s | _ => OR end))
      | _ => None
      end
  | _ => None
  end.

(** [None]: the text is no list of operations and is read as an object of
    fields to overwrite. *)
Definition tryParseOperations (paramOverride : obj json) : option (list ParamOperation) :=
  match obj_get (js "operations") paramOverride with
  | Some (JArr l) => mapM parse_operation l
  | _ => None
  end.

(** ** What an operation does *)

(** The fields that the mode of an operation reads, the others left empty. *)
Record Action := mkAction { a_mode : jsstr; a_path : jsstr; a_value : json; a_keep : bool; a_from : jsstr; a_to : jsstr }.

Definition header_or_path (s p : jsstr) : jsstr :=
  match TrimSpace s with [] => TrimSpace p | s => s end.

Definition action (op : ParamOperation) : option Action :=
  let m := Mode op in
  let among l := bool_decide (m ∈ (map js l)) in
  if among ["delete"; "trim_space"; "to_lower"; "to_upper"; "delete_header"]%string
  then Some (mkAction m (Path op) JNull false [] []) else
  if among ["set"; "prepend"; "append"; "set_header"]%string
  then Some (mkAction m (Path op) (Value op) (KeepOrigin op) [] []) else
  if among ["trim_prefix"; "trim_suffix"; "ensure_prefix"; "ensure_suffix"; "prune_objects"]%string
  then Some (mkAction m (Path op) (Value op) false [] []) else
  if among ["replace"; "regex_replace"]%string then Some (mkAction m (Path op) JNull false (From_ op) (To_ op)) else
  if among ["move"; "copy"; "sync_fields"]%string then Some (mkAction m [] JNull false (From_ op) (To_ op)) else
  if among ["return_error"]%string then Some (mkAction m [] (Value op) false [] []) else
  if among ["pass_headers"]%string then Some (mkAction m [] (Value op) (KeepOrigin op) [] []) else
  if among ["copy_header"; "move_header"]%string
  then Some (mkAction m [] JNull (KeepOrigin op) (header_or_path (From_ op) (Path op)) (header_or_path (To_ op) (Path op)))
  else None.

(** The conditions an operation waits for (all of them or one of them) and
    what it does then. *)
Definition guard (op : ParamOperation) : option (list ConditionOperation * bool) :=
  match Conditions op with [] => None | cs => Some (cs, bool_decide (ascii_upper (Logic op) = AND)) end.
Definition effect (op : ParamOperation) : option (list ConditionOperation * bool) * option Action :=
  (guard op, action op).

End Server.
Import Server.

(** ** Overrides the editor can hold *)

(** Neither the editor nor the server trims anything off. *)
Definition tidy (s : jsstr) : bool := bool_decide (trim s = s) && bool_decide (TrimSpace s = s).
Definition tidy_prop (m : obj json) (k : jsstr) : bool := tidy (str_field m k).

(** A value that survives being shown as text. *)
Definition kept (v : json) : bool := bool_decide (parseLooseValue (toValueText (Some v)) = v).
Definition kept_value (m : obj json) : bool :=
  match obj_get (js "value") m with Some v => kept v | None => false end.

Definition mode_in (values : list jsstr) (m : obj json) : bool :=
  match obj_get (js "mode") m with Some (JStr s) => bool_decide (s ∈ values) | _ => false end.

Definition editable_condition (v : json) : bool :=
  match v with
  | JObj m => nonempty (str_field m (js "path")) && tidy_prop m (js "path") && mode_in CONDITION_MODE_VALUES m && kept_value m
  | _ => false
  end.

Definition editable_operation (v : json) : bool :=
  match v with
  | JObj m =>
      mode_in OPERATION_MODE_VALUES m &&
      tidy_prop m (js "path") && tidy_prop m (js "from") && tidy_prop m (js "to") &&
      (negb (m_value (meta_of (str_field m (js "mode")))) || kept_value m) &&
      match obj_get (js "logic") m with Some (JStr _) | None => true | _ => false end &&
      match obj_get (js "conditions") m with
      | Some (JArr l) => forallb editable_condition l
      | Some _ => false
      | None => true
      end &&
      negb (bool_decide (str_field m (js "mode") = js "set") && negb (nonempty (str_field m (js "path"))))
  | _ => false
  end.

Lemma json_num_not_ws c : is_num_char c = true → is_ws c = false.
Proof.
  intros H. assert (is_digit c = true ∨ c ∈ [43; 45; 46; 69; 101]%N) as [Hd|Hc].
  { apply is_num_char_cases in H. unfold is_digit. rewrite andb_true_iff, !N.leb_le. set_solver by lia. }
  - by apply is_digit_not_ws.
  - by each_of Hc.
Qed.

(** Values that are no text are kept, and so is a text without white space at
    its ends that is no JSON. *)
Lemma stringify_trimmed v : (∀ s, v ≠ JStr s) → json_wf v → trimmed (JSON_stringify v).
Proof.
  intros Hs Hv. destruct Hv as [|[]|n Hn Hj|s Hu|l Hl|o Ho Hall]; try by apply (bool_decide_unpack _).
  - cbn [JSON_stringify]. apply trimmed_no_ws, Forall_forall. intros c Hc%list_elem_of_In. rewrite forallb_forall in Hn.
    by apply json_num_not_ws, Hn.
  - by destruct (Hs s).
  - by apply trimmed_app.
  - by apply trimmed_app.
Qed.

Lemma kept_json v : (∀ s, v ≠ JStr s) → json_wf v → kept v = true.
Proof.
  intros Hs Hv. apply bool_decide_eq_true. assert (toValueText (Some v) = JSON_stringify v) as ->.
  { destruct v; try done. by destruct (Hs s). }
  unfold parseLooseValue. pose proof (stringify_trimmed v Hs Hv) as Ht. unfold trimmed in Ht. rewrite Ht, JSON_roundtrip by done.
  destruct (stringify_head v Hv) as (c & t & -> & _). done.
Qed.

Lemma kept_text s : trim s = s → JSON_parse s = None → kept (JStr s) = true.
Proof.
  intros Ht Hp. apply bool_decide_eq_true. cbn [toValueText]. unfold parseLooseValue. rewrite Ht, Hp. by destruct s.
Qed.

(** A text that is a number, a truth value or [null] changes its type. *)
Lemma numeric_text_not_kept : kept (JStr (js "0.5")) = false ∧ kept (JStr (js "true")) = false ∧ kept (JStr (js " a")) = false.
Proof. by vm_compute. Qed.

(** Decide the equality of keys written out. *)
Ltac eval_keys :=
  cbn [obj_get fst snd];
  repeat match goal with
  | |- context [decide (js ?a = js ?b)] =>
      first [rewrite (decide_True (P := js a = js b)) by reflexivity
            |rewrite (decide_False (P := js a = js b)) by (let E := fresh in intros E; vm_compute in E; discriminate E)]; cbn [obj_get]
  end; cbn.

(** ** Conditions *)

Lemma wf_str_field m k : json_wf (JObj m) → is_utf16 (str_field m k).
Proof.
  intros Hm. unfold str_field. destruct (obj_get k m) as [v|] eqn:E; [|constructor].
  apply (wf_get _ _ _ Hm) in E. by destruct v; try constructor; inversion E.
Qed.

Lemma is_utf16_trim s : is_utf16 s → is_utf16 (trim s).
Proof. unfold is_utf16. rewrite !Forall_forall. intros H c Hc. by apply H, elem_of_trim. Qed.

Lemma true_prop_field m k : true_prop (JObj m) k = bool_field m k.
Proof. unfold true_prop, bool_field. cbn. by destruct (obj_get k m) as [[|[]| | | |]|]. Qed.

Lemma text_prop_field m k : text_prop (JObj m) k = str_field m k.
Proof. done. Qed.

Lemma tidy_spec s : tidy s = true ↔ trim s = s ∧ TrimSpace s = s.
Proof. unfold tidy. by rewrite andb_true_iff, !bool_decide_eq_true. Qed.

Lemma str_field_members k l : NoDup (obj_keys l) →
  str_field (members l) k = match obj_get k l with Some (Some (JStr s)) => s | _ => [] end.
Proof. intros Hn. unfold str_field. rewrite obj_get_members by done. by destruct (obj_get k l). Qed.

Lemma bool_field_members k l : NoDup (obj_keys l) →
  bool_field (members l) k = match obj_get k l with Some (Some (JBool b)) => b | _ => false end.
Proof. intros Hn. unfold bool_field. rewrite obj_get_members by done. by destruct (obj_get k l). Qed.

Lemma mode_in_spec values m : mode_in values m = true →
  ∃ s, obj_get (js "mode") m = Some (JStr s) ∧ s ∈ values ∧ str_field m (js "mode") = s ∧
  ∀ d, choice_prop values d (JObj m) (js "mode") = s.
Proof.
  unfold mode_in, str_field, choice_prop. cbn. destruct (obj_get (js "mode") m) as [[| | |s| |]|]; try done.
  intros Hs%bool_decide_eq_true. exists s. split_and!; try done. intros d. by rewrite bool_decide_eq_true_2.
Qed.

Lemma kept_value_spec m : kept_value m = true → json_wf (JObj m) →
  ∃ v, obj_get (js "value") m = Some v ∧ json_wf v ∧ parseLooseValue (toValueText (obj_get (js "value") m)) = v.
Proof.
  unfold kept_value. destruct (obj_get (js "value") m) as [v|] eqn:E; [|done]. intros Hk%bool_decide_eq_true Hm.
  exists v. split_and!; [done|by apply (wf_get _ _ _ Hm E)|done].
Qed.

Definition condition_members (m : obj json) (v : json) : list (jsstr * option json) :=
  [(js "path", Some (JStr (str_field m (js "path")))); (js "mode", Some (JStr (str_field m (js "mode"))));
   (js "value", Some v); (js "invert", when_some (bool_field m (js "invert")) (JBool true));
   (js "pass_missing_key", when_some (bool_field m (js "pass_missing_key")) (JBool true))].

Lemma bool_when b : match when_some b (JBool true) with Some (JBool b) => b | _ => false end = b.
Proof. by destruct b. Qed.

Lemma closed_keys (ks : list jsstr) :
  bool_decide (NoDup ks) && forallb (λ k, match key_index k with None => true | _ => false end && forallb (λ c, c <? 65536)%N k) ks = true →
  NoDup ks ∧ Forall (λ k, key_index k = None ∧ is_utf16 k) ks.
Proof.
  intros [Hn%bool_decide_eq_true Hf]%andb_true_iff. split; [done|]. apply Forall_forall. intros k Hk%list_elem_of_In.
  rewrite forallb_forall in Hf. apply Hf, andb_true_iff in Hk as [Hi Hu]. split; [by destruct (key_index k)|].
  apply Forall_forall. intros c Hc%list_elem_of_In. rewrite forallb_forall in Hu. by apply N.ltb_lt, Hu.
Qed.

Lemma closed_modes values s :
  forallb (λ s, tidy s && nonempty s) values = true → s ∈ values → trim s = s ∧ TrimSpace s = s ∧ s ≠ [].
Proof.
  rewrite forallb_forall. intros H Hs%list_elem_of_In. apply H, andb_true_iff in Hs as [[Ht Hg]%tidy_spec Hn].
  split_and!; try done. by destruct s.
Qed.

(** The payload of a row of a condition is read as the condition it came from. *)
Lemma condition_kept v i : editable_condition v = true → json_wf v →
  ∃ p c, buildConditionPayload (condition_of v i) = Some p ∧ json_wf p ∧ parse_condition p = Some c ∧ parse_condition v = Some c.
Proof.
  destruct v as [| | | | |m]; try done. cbn [editable_condition]. intros H Hm. bool_hyps.
  match goal with H : tidy_prop _ _ = true |- _ => apply tidy_spec in H as [Ht Hg] end.
  match goal with H : mode_in _ _ = true |- _ => apply mode_in_spec in H as (md & Em & Hin & Es & Hc) end.
  match goal with H : kept_value _ = true |- _ => destruct (kept_value_spec _ H Hm) as (w & Ew & Hw & Hk) end.
  destruct (closed_modes CONDITION_MODE_VALUES md) as (_ & Hgm & Hmd); [by vm_compute|done|].
  exists (JObj (members (condition_members m w))).
  exists (mkCond (str_field m (js "path")) md w (bool_field m (js "invert")) (bool_field m (js "pass_missing_key"))).
  split_and!.
  - unfold buildConditionPayload, condition_of. cbn [c_path c_mode c_value_text c_invert c_pass_missing_key].
    rewrite text_prop_field, Ht, Hc, !true_prop_field. cbn [json_prop]. rewrite Hk.
    destruct (str_field m (js "path")) eqn:Ep; [done|]. unfold condition_members. rewrite Es, Ep. by destruct md.
  - apply wf_members.
    + by apply closed_keys.
    + by apply closed_keys.
    + unfold condition_members. rewrite Es. assert (is_utf16 md) by (rewrite <- Es; by apply wf_str_field).
      pose proof (wf_str_field m (js "path") Hm).
      repeat constructor; cbn; unfold when_some; intros u Hu; repeat case_match; simplify_eq; by try constructor.
  - cbn [parse_condition]. rewrite !str_field_members, !bool_field_members, !obj_get_members by (by apply closed_keys).
    unfold condition_members. rewrite Es. eval_keys. rewrite Hg, Hgm, !bool_when. destruct (str_field m (js "path")); [done|]. by destruct md.
  - cbn [parse_condition]. rewrite Hg, Es, Ew. rewrite Hgm. destruct (str_field m (js "path")); [done|]. by destruct md.
Qed.

Definition row_of_condition (v : json) (c : ParamOverrideCondition) : Prop := ∃ i, c = condition_of v i.

Lemma conditions_kept l cs :
  Forall2 row_of_condition l cs → forallb editable_condition l = true → Forall json_wf l →
  ∃ cos, mapM parse_condition l = Some cos ∧ mapM parse_condition (omap buildConditionPayload cs) = Some cos ∧
  Forall json_wf (omap buildConditionPayload cs) ∧ (omap buildConditionPayload cs = [] ↔ cos = []).
Proof.
  induction 1 as [|v c l cs [i ->] Hrs IH]; intros He Hw.
  { exists []. split_and!; done. }
  cbn [forallb] in He. apply andb_true_iff in He as [He Hes]. apply Forall_cons in Hw as [Hw Hws].
  destruct (IH Hes Hws) as (cos & E1 & E2 & Hf & _). destruct (condition_kept v i He Hw) as (p & c & Eb & Hp & Ep & Ev).
  assert (omap buildConditionPayload (condition_of v i :: cs) = p :: omap buildConditionPayload cs) as ->
    by (cbn; by rewrite Eb).
  exists (c :: cos). cbn [mapM]. rewrite Ev, Ep, E1, E2. split_and!; try done. by constructor.
Qed.

(** ** Operations *)

Lemma logic_and v : match v with Some (JStr _) | None => true | _ => false end = true →
  logic_of v OR AND OR = AND ↔ ascii_upper (match v with Some (JStr s) => s | _ => OR end) = AND.
Proof.
  unfold logic_of, string_or. destruct v as [[| | |[|c s]| |]|]; try done; intros _; cbn [json_truthy nonempty json_to_string];
    case_bool_decide as E; split; intros; try done.
Qed.

(** The fields that the payload of a row has for the server. *)
Definition payload_op (m : obj json) (cos : list ConditionOperation) (is_and : bool) : ParamOperation :=
  let md := str_field m (js "mode") in
  let meta := meta_of md in
  let path := str_field m (js "path") in
  let alias v := if m_pathAlias meta && negb (nonempty v) then path else v in
  let to := str_field m (js "to") in
  mkOp (if m_path meta || m_pathOptional meta then path else []) md
    (if m_value meta then opt_or (obj_get (js "value") m) JNull else JNull)
    (m_keepOrigin meta && bool_field m (js "keep_origin"))
    (if m_from meta then alias (str_field m (js "from")) else [])
    (if m_to meta || nonempty to then alias to else [])
    cos (if bool_decide (cos = []) then OR else if is_and then AND else OR).

Definition operation_members (m : obj json) (md descr : jsstr) (v : json) (ps : list json) (is_and : bool)
    : list (jsstr * option json) :=
  let meta := meta_of md in
  let path := str_field m (js "path") in
  let to := str_field m (js "to") in
  let alias v := if m_pathAlias meta && negb (nonempty v) then path else v in
  [(js "mode", Some (JStr md)); (js "description", when_some (nonempty descr) (JStr descr));
   (js "path", when_some (m_path meta || (m_pathOptional meta && nonempty path)) (JStr path));
   (js "value", when_some (m_value meta) v);
   (js "keep_origin", when_some (m_keepOrigin meta && bool_field m (js "keep_origin")) (JBool true));
   (js "from", when_some (m_from meta) (JStr (alias (str_field m (js "from")))));
   (js "to", when_some (m_to meta || nonempty to) (JStr (alias to)));
   (js "conditions", when_some (negb (bool_decide (ps = []))) (JArr ps));
   (js "logic", when_some (negb (bool_decide (ps = []))) (JStr (if is_and then AND else OR)))].

Lemma operation_members_eq m i cs md :
  mode_in OPERATION_MODE_VALUES m = true → str_field m (js "mode") = md →
  tidy_prop m (js "path") = true → tidy_prop m (js "from") = true → tidy_prop m (js "to") = true →
  operation_payload (operation_of (JObj m) i cs) =
  JObj (members (operation_members m md (trim (str_field m (js "description")))
    (parseLooseValue (toValueText (obj_get (js "value") m))) (omap buildConditionPayload cs)
    (bool_decide (logic_of (obj_get (js "logic") m) OR AND OR = AND)))).
Proof.
  intros (md' & Em & Hin & Es & Hc)%mode_in_spec Emd [Hp _]%tidy_spec [Hf _]%tidy_spec [Ht _]%tidy_spec.
  assert (md' = md) as -> by congruence.
  destruct (closed_modes OPERATION_MODE_VALUES md) as (_ & _ & Hmd); [by vm_compute|done|].
  unfold operation_payload, operation_of, operation_members.
  cbn [description path mode from to value_text keep_origin logic conditions].
  rewrite !text_prop_field, Hp, Hf, Ht, Hc, true_prop_field. cbn [json_prop]. by destruct md.
Qed.

Lemma when_str b s : match when_some b (JStr s) with Some (JStr s) => s | _ => [] end = if b then s else [].
Proof. by destruct b. Qed.

Lemma payload_read m md descr v ps cos is_and :
  str_field m (js "mode") = md →
  (m_value (meta_of md) = true → v = opt_or (obj_get (js "value") m) JNull) →
  mapM parse_condition ps = Some cos → (ps = [] ↔ cos = []) →
  parse_operation (JObj (members (operation_members m md descr v ps is_and))) = Some (payload_op m cos is_and).
Proof.
  intros Emd Hv Hps Hnil. cbn [parse_operation].
  rewrite !str_field_members, !bool_field_members, !obj_get_members by (by apply closed_keys).
  unfold operation_members. eval_keys.
  assert (match when_some (negb (bool_decide (ps = []))) (JArr ps) with
    | Some c => parseConditionOperations c | None => Some [] end = Some cos) as ->.
  { destruct ps as [|p ps]; cbn; [|exact Hps]. by rewrite (proj1 Hnil). }
  cbn [option_bind mbind]. f_equal. unfold payload_op. rewrite Emd, !when_str, bool_when. f_equal.
  - destruct (m_path (meta_of md)), (m_pathOptional (meta_of md)), (str_field m (js "path")); done.
  - destruct (m_value (meta_of md)); [by apply Hv|done].
  - assert (bool_decide (ps = []) = bool_decide (cos = [])) as -> by (by apply bool_decide_ext).
    destruct (bool_decide (cos = [])); by destruct is_and.
Qed.

Lemma payload_wf m md descr v ps is_and :
  json_wf (JObj m) → str_field m (js "mode") = md → is_utf16 descr → (m_value (meta_of md) = true → json_wf v) →
  Forall json_wf ps →
  json_wf (JObj (members (operation_members m md descr v ps is_and))).
Proof.
  intros Hm Emd Hd Hv Hps. apply wf_members; [by apply closed_keys|by apply closed_keys|].
  assert (is_utf16 md) by (rewrite <- Emd; by apply wf_str_field).
  pose proof (wf_str_field m (js "path") Hm). pose proof (wf_str_field m (js "from") Hm).
  pose proof (wf_str_field m (js "to") Hm).
  repeat constructor; cbn; unfold when_some; intros u Hu; repeat case_match; simplify_eq; try constructor; try done; try apply is_utf16_js.
  by apply Hv.
Qed.

(** The server does the same with the fields that are kept. *)
Lemma header_alias s p : tidy s = true → tidy p = true →
  header_or_path (if negb (nonempty s) then p else s) [] = header_or_path s p.
Proof.
  intros [_ Hs]%tidy_spec [_ Hp]%tidy_spec. unfold header_or_path.
  destruct s as [|c s]; cbn [nonempty negb]; [|by rewrite Hs]. change (TrimSpace []) with (@nil jschar).
  rewrite Hp. by destruct p.
Qed.

Lemma action_alias md path v k from to cs lg : md ∈ [js "copy_header"; js "move_header"] →
  action (mkOp path md v k from to cs lg) =
  Some (mkAction md [] JNull k (header_or_path from path) (header_or_path to path)).
Proof. intros H. by each_of H. Qed.

Lemma action_kept m cs lg is_and :
  mode_in OPERATION_MODE_VALUES m = true →
  tidy_prop m (js "path") = true → tidy_prop m (js "from") = true → tidy_prop m (js "to") = true →
  action (payload_op m cs is_and) =
  action (mkOp (str_field m (js "path")) (str_field m (js "mode")) (opt_or (obj_get (js "value") m) JNull)
    (bool_field m (js "keep_origin")) (str_field m (js "from")) (str_field m (js "to")) cs lg).
Proof.
  intros (md & _ & Hin & Es & _)%mode_in_spec Hp Hf Ht. unfold payload_op, tidy_prop in *. rewrite Es.
  generalize dependent (str_field m (js "path")). generalize dependent (str_field m (js "from")).
  generalize dependent (str_field m (js "to")). intros to Ht from Hf path Hp.
  generalize (opt_or (obj_get (js "value") m) JNull) (bool_field m (js "keep_origin")). intros v k.
  unfold OPERATION_MODE_VALUES, OPERATION_MODE_OPTIONS in Hin. cbn [map snd] in Hin.
  each_of Hin; try reflexivity; try (by destruct to).
  all: pose proof (header_alias from path Hf Hp) as Ef; pose proof (header_alias to path Ht Hp) as Et.
  all: rewrite !action_alias by set_solver; rewrite <- Ef, <- Et; reflexivity.
Qed.

(** ** Opening and saving *)

Definition row_of (v : json) (o : ParamOverrideOperation) : Prop :=
  ∃ i cs, o = operation_of v i cs ∧ Forall2 row_of_condition (condition_list v) cs.

Lemma upper_of_bool (P : Prop) `{Decision P} : ascii_upper (if bool_decide P then AND else OR) = AND ↔ P.
Proof. by case_bool_decide; split. Qed.

(** The row of an operation gives an operation with the same effect. *)
Lemma row_kept v o : editable_operation v = true → json_wf v → row_of v o →
  json_wf (operation_payload o) ∧ isOperationBlank o = false ∧
  ∃ op op', parse_operation v = Some op ∧ parse_operation (operation_payload o) = Some op' ∧ effect op' = effect op.
Proof.
  destruct v as [| | | | |m]; try done. intros He Hm (i & cs & -> & Hcs). cbn [editable_operation] in He. bool_hyps.
  match goal with H : mode_in _ _ = true |- _ => pose proof (mode_in_spec _ _ H) as (md & Em & _ & Es & Hc) end.
  set (b := bool_decide (logic_of (obj_get (js "logic") m) OR AND OR = AND)).
  set (ps := omap buildConditionPayload cs).
  assert (∃ cos, match obj_get (js "conditions") m with Some c => parseConditionOperations c | None => Some [] end = Some cos ∧
    mapM parse_condition ps = Some cos ∧ Forall json_wf ps ∧ (ps = [] ↔ cos = [])) as (cos & Eco & Eps & Hps & Hnil).
  { unfold condition_list in Hcs. cbn [json_prop] in Hcs. destruct (obj_get (js "conditions") m) as [[| | | |l|]|] eqn:Ec; try done.
    - apply conditions_kept; try done. apply (wf_get _ _ _ Hm) in Ec. by inversion Ec.
    - apply Forall2_nil_inv_l in Hcs as ->. by exists []. }
  assert (m_value (meta_of md) = true → ∃ w, obj_get (js "value") m = Some w ∧ json_wf w ∧
    parseLooseValue (toValueText (obj_get (js "value") m)) = w) as Hval.
  { intros Hmv. apply kept_value_spec; [|done]. rewrite Es, Hmv in *. by destruct (kept_value m). }
  rewrite (operation_members_eq m i cs md) by done. split_and!.
  - apply payload_wf; try done; [by apply is_utf16_trim, wf_str_field|].
    intros (w & _ & Hw & ->)%Hval. done.
  - unfold isOperationBlank, operation_of. cbn [mode path]. rewrite Hc, text_prop_field, Es in *. case_bool_decide; [|done].
    match goal with H : tidy_prop m (js "path") = true |- _ => apply tidy_spec in H as [-> _] end.
    by destruct (nonempty (str_field m (js "path"))).
  - cbn [parse_operation]. rewrite Em, Eco. eexists _, _. split; [done|]. split.
    { apply payload_read; try done. by intros (w & -> & _ & ->)%Hval. }
    unfold effect. rewrite <- Es. f_equal; [|by apply action_kept]. unfold guard. cbn [Conditions Logic payload_op].
    destruct cos as [|c cos]; [done|]. rewrite (bool_decide_eq_false_2 (c :: cos = [])) by done. do 2 f_equal.
    match goal with H : match obj_get (js "logic") m with _ => _ end = true |- _ => pose proof (logic_and _ H) as Hl end.
    apply bool_decide_ext. rewrite <- Hl. unfold b. apply upper_of_bool.
Qed.

(** ** Opening the editor *)

Section Ids.
Context (now : N → N).

Lemma condition_row v s c s' : returns (normalizeCondition now v) s c s' → row_of_condition v c.
Proof.
  intros (i & t & _ & (u & t' & _ & [<- _]%returns_ret)%returns_bind)%returns_bind. by eexists.
Qed.

Lemma operation_row v s o s' : returns (normalizeOperation now v) s o s' → row_of v o.
Proof.
  intros (i & t & _ & (u & t' & _ & (cs & t'' & Hcs & [<- _]%returns_ret)%returns_bind)%returns_bind)%returns_bind.
  eexists _, _. split; [done|]. eapply fresh_map_Forall2; [|done]. intros. by eapply condition_row.
Qed.

Lemma condition_total v s : v ≠ JNull → ∃ c s', returns (normalizeCondition now v) s c s'.
Proof. intros Hv. by destruct v; try done; eexists _, _. Qed.

Lemma editable_opens v s : editable_operation v = true → ∃ o s', returns (normalizeOperation now v) s o s'.
Proof.
  destruct v as [| | | | |m]; try done. intros He. cbn [editable_operation] in He. bool_hyps.
  destruct (fresh_map_total (normalizeCondition now) (condition_list (JObj m)) (s + 1)%N) as (cs & s2 & E).
  - intros c s' Hc. apply condition_total. intros ->. unfold condition_list in Hc. cbn [json_prop] in Hc.
    destruct (obj_get (js "conditions") m) as [[| | | |l|]|]; try set_solver.
    match goal with H : forallb _ _ = true |- _ => rewrite forallb_forall in H; by apply list_elem_of_In, H in Hc end.
  - eexists _, s2. apply returns_bind. eexists _, _. split; [done|]. apply returns_bind. eexists _, _. split; [done|].
    apply returns_bind. eexists _, _. split; [exact E|done].
Qed.

Lemma rows_kept l os : Forall2 row_of l os → forallb editable_operation l = true → Forall json_wf l →
  List.filter (λ o, negb (isOperationBlank o)) os = os ∧ Forall json_wf (map operation_payload os) ∧
  ∃ ops ops', mapM parse_operation l = Some ops ∧ mapM parse_operation (map operation_payload os) = Some ops' ∧
  map effect ops' = map effect ops.
Proof.
  induction 1 as [|v o l os Hr Hrs IH]; intros He Hw.
  { split_and!; [done|constructor|]. by exists [], []. }
  cbn [forallb] in He. apply andb_true_iff in He as [He Hes]. apply Forall_cons in Hw as [Hw Hws].
  destruct (IH Hes Hws) as (Ef & Hf & ops & ops' & E1 & E2 & E3).
  destruct (row_kept v o He Hw Hr) as (Hp & Hb & op & op' & P1 & P2 & P3).
  cbn [List.filter map mapM]. rewrite Hb, Ef. split_and!; [done|by constructor|].
  exists (op :: ops), (op' :: ops'). rewrite P1, P2, E1, E2. cbn. by rewrite P3, E3.
Qed.

(** C10: a text whose operations the form can hold (known modes, trimmed
    fields, conditions as a list, values that survive as text) opens in the
    visual mode; saving it unedited is refused only with an issue of the
    validation, and otherwise gives a text whose operations have, one by one,
    the same conditions and the same effect on the server.  Whatever else the
    text held beside its operations is gone. *)
Theorem override_open_save text o l s :
  JSON_parse (trim text) = Some (JObj o) → json_wf (JObj o) →
  obj_get (js "operations") o = Some (JArr l) → l ≠ [] → forallb editable_operation l = true →
  ∃ st s' ops, returns (parseInitialState now text) s st s' ∧ editMode st = EVisual ∧ visualMode st = VOperations ∧
  tryParseOperations o = Some ops ∧
  match buildOperationsJson (operations st) true with
  | inl issue => validateOperations (operations st) = Some issue
  | inr out => ∃ ops' v, JSON_parse out = Some (JObj [(js "operations", v)]) ∧
      tryParseOperations [(js "operations", v)] = Some ops' ∧ map effect ops' = map effect ops
  end.
Proof.
  intros Hp Hw Hl Hne He. assert (Forall json_wf l) as Hws by (apply (wf_get _ _ _ Hw) in Hl; by inversion Hl).
  destruct (fresh_map_total (normalizeOperation now) l s) as (os & s' & Eo).
  { intros v s' Hv. apply editable_opens. rewrite forallb_forall in He. by apply He, list_elem_of_In. }
  assert (Forall2 row_of l os) as Hr.
  { eapply fresh_map_Forall2; [|exact Eo]. intros v t r t' _. apply operation_row. }
  destruct (rows_kept l os Hr He Hws) as (Ef & Hf & ops & ops' & E1 & E2 & E3).
  assert (returns (rows_of now l) s os s') as Erow by (by destruct l).
  exists (mkState EVisual VOperations [] os (JSON_stringify_2 (JObj o)) []), s', ops. split_and!; try done.
  - unfold parseInitialState. rewrite Hp. cbn [operation_list]. rewrite Hl.
    destruct (trim text) eqn:Et; [discriminate Hp|]. apply returns_bind. by exists os, s'.
  - unfold tryParseOperations. by rewrite Hl.
  - cbn [operations]. unfold buildOperationsJson. rewrite Ef.
    destruct os as [|r os]; [by inversion Hr; subst|]. destruct (validateOperations (r :: os)) as [issue|] eqn:Ev; [done|].
    exists ops', (JArr (map operation_payload (r :: os))). split_and!; [|exact E2|done]. apply JSON_roundtrip_2.
    apply wf_obj_iff. split.
    { split; [by apply (bool_decide_unpack _)|]. repeat constructor. }
    constructor; [|constructor]. split; [apply is_utf16_js|]. constructor. exact Hf.
Qed.

End Ids.

(** ** A text of the editor, and texts it does not keep *)

Definition sample_text : jsstr :=
  jq "{`operations`:[{`mode`:`set`,`path`:`temperature`,`value`:0.7,`conditions`:[{`path`:`model`,`mode`:`prefix`,`value`:`openai/`}],`logic`:`and`},{`mode`:`copy_header`,`path`:`X-A`,`from`:`X-B`,`note`:1}]}".

Lemma override_open_save_witness :
  ∃ o ops, JSON_parse (trim sample_text) = Some (JObj o) ∧ tryParseOperations o = Some ops ∧
  ∃ st s', returns (parseInitialState (λ n, n) sample_text) 0%N st s' ∧ editMode st = EVisual.
Proof.
  destruct (JSON_parse (trim sample_text)) as [v|] eqn:E; [|by vm_compute in E]. vm_compute in E. injection E as <-.
  match goal with |- ∃ o' _, Some (JObj ?o) = Some (JObj o') ∧ _ =>
    destruct (obj_get (js "operations") o) as [[| | | |l|]|] eqn:El; vm_compute in El; try discriminate El;
    destruct (override_open_save (λ n, n) sample_text o l 0%N) as (st & s' & ops & H1 & H2 & _ & H3 & _);
    [by vm_compute|by apply json_wfb_sound; vm_compute|done|by injection El as <-|by injection El as <-; vm_compute|];
    exists o, ops; split_and!; [done|exact H3|by exists st, s']
  end.
Defined.

(** What the server makes of a text, and of the text saved from the editor. *)
Definition before_and_after (text : jsstr) : option (list ParamOperation) * option (list ParamOperation) :=
  let read text := match JSON_parse text with Some (JObj o) => tryParseOperations o | _ => None end in
  (read text,
   match parseInitialState (λ n, n) text 0%N with
   | (Some st, _) => match buildOperationsJson (operations st) true with inr out => read out | inl _ => None end
   | (None, _) => None
   end).

(** Conditions in the short form of an object, which the server accepts, are
    dropped: the operation becomes unconditional. *)
Example conditions_object_lost :
  let r := before_and_after (jq "{`operations`:[{`mode`:`delete`,`path`:`stream`,`conditions`:{`model`:`o1`}}]}") in
  map guard <$> r.1 = Some [Some ([mkCond (js "model") (js "full") (JStr (js "o1")) false false], false)] ∧
  map guard <$> r.2 = Some [None].
Proof. by vm_compute. Qed.

(** A text that looks like a number comes back as the number. *)
Example numeric_text_changed :
  let r := before_and_after
    (jq "{`operations`:[{`mode`:`set`,`path`:`user`,`value`:`007`},{`mode`:`set`,`path`:`user`,`value`:`7`}]}") in
  map Value <$> r.1 = Some [JStr (js "007"); JStr (js "7")] ∧
  map Value <$> r.2 = Some [JStr (js "007"); JNum (num_of_Z 7)].
Proof. by vm_compute. Qed.

(** Text to replace loses the space it starts with. *)
Example replaced_text_trimmed :
  let r := before_and_after (jq "{`operations`:[{`mode`:`replace`,`path`:`model`,`from`:` pro`,`to`:``}]}") in
  map From_ <$> r.1 = Some [js " pro"] ∧ map From_ <$> r.2 = Some [js "pro"].
Proof. by vm_compute. Qed.

(** ** Values of single modes on the server *)

Record ParamOverrideReturnError := mkReturn {
  Message : jsstr; StatusCode : Z; Code : jsstr; Type_ : jsstr; SkipRetry : bool;
}.

Section ReturnError.
(** [fmt.Sprintf] with the verb v, a text as it is. *)
Context (sprint : json → jsstr).

Definition invalid_request : jsstr := js "invalid_request".

(** [parseOverrideInt] on what JSON decodes to: a number without a fraction. *)
Definition parseOverrideInt (v : json) : option Z := match v with JNum x => num_integer x | _ => None end.

Definition or_text (s d : jsstr) : jsstr := match TrimSpace s with [] => d | s => s end.

Definition parseParamOverrideReturnError (value : json) : option ParamOverrideReturnError :=
  result ← match value with
    | JStr raw => Some (mkReturn (TrimSpace raw) 400 invalid_request (js "invalid_request_error") true)
    | JObj raw =>
        let message := or_text (str_field raw (js "message")) (TrimSpace (str_field raw (js "msg"))) in
        let code := match obj_get (js "code") raw with Some v => or_text (sprint v) invalid_request | None => invalid_request end in
        let type := or_text (str_field raw (js "type")) (js "invalid_request_error") in
        let skip := match obj_get (js "skip_retry") raw with Some (JBool b) => b | _ => true end in
        status ← match obj_get (js "status_code") raw with
          | Some v => parseOverrideInt v
          | None => match obj_get (js "status") raw with Some v => parseOverrideInt v | None => Some 400 end end;
        Some (mkReturn message status code type skip)
    | _ => None
    end;
  if nonempty (Message result) && (100 <=? StatusCode result) && (StatusCode result <=? 511) then Some result else None.

End ReturnError.

Definition error_members (message code type : jsstr) (status : Z) (skip : bool) : list (jsstr * option json) :=
  [(js "message", Some (JStr message)); (js "status_code", Some (JNum (num_of_Z status)));
   (js "code", when_some (nonempty code) (JStr code)); (js "type", when_some (nonempty type) (JStr type));
   (js "skip_retry", when_some (negb skip) (JBool false))].

(** A draft as the form leaves it: trimmed texts and a status of HTTP. *)
Record clean_error (d : ReturnErrorDraft) (status : Z) : Prop := {
  error_message : tidy (e_message d) = true ∧ is_utf16 (e_message d) ∧ e_message d ≠ [];
  error_code : tidy (e_code d) = true ∧ is_utf16 (e_code d);
  error_type : tidy (e_type d) = true ∧ is_utf16 (e_type d);
  error_status : e_statusCode d = num_of_Z status ∧ 100 <= status <= 599;
  error_full : e_simpleMode d = false;
}.

Lemma status_number z : 100 <= z <= 599 →
  json_wf (JNum (num_of_Z z)) ∧ status_or_400 (num_of_Z z) = num_of_Z z ∧ num_integer (num_of_Z z) = Some z.
Proof.
  intros Hz. assert (forallb (λ i, let x := num_of_Z (Z.of_nat i) in
    json_wfb (JNum x) && bool_decide (status_or_400 x = x) && bool_decide (num_integer x = Some (Z.of_nat i))) (seq 100 500) = true) as H
    by by vm_compute.
  rewrite forallb_forall in H. specialize (H (Z.to_nat z)). cbv zeta in H. rewrite Z2Nat.id in H by lia.
  assert (In (Z.to_nat z) (seq 100 500)) as Hin by (apply in_seq; lia). specialize (H Hin). bool_hyps.
  split_and!; try done. by apply json_wfb_sound.
Qed.

Lemma error_text d status : clean_error d status →
  buildReturnErrorValueText d = JSON_stringify (JObj (members (error_members (e_message d) (e_code d) (e_type d) status (e_skipRetry d)))) ∧
  json_wf (JObj (members (error_members (e_message d) (e_code d) (e_type d) status (e_skipRetry d)))).
Proof.
  intros [([Hm _]%tidy_spec & Um & _) ([Hc _]%tidy_spec & Uc) ([Ht _]%tidy_spec & Ut) (Es & Hs) Hf].
  destruct (status_number status Hs) as (Hw & Hid & _). split.
  - unfold buildReturnErrorValueText, error_members. by rewrite Hf, Hm, Hc, Ht, Es, Hid.
  - apply wf_members; [by apply closed_keys|by apply closed_keys|]. unfold error_members, when_some.
    repeat constructor; cbn; intros u Hu; repeat case_match; simplify_eq; try done; by constructor.
Qed.

Lemma string_when s : string_or (when_some (nonempty s) (JStr s)) [] = s.
Proof. by destruct s. Qed.

Lemma sent_text (sprint : json → jsstr) (Hsp : ∀ s, sprint (JStr s) = s) s d : tidy s = true →
  match when_some (nonempty s) (JStr s) with Some v => or_text (sprint v) d | None => d end = str_or s d.
Proof.
  intros [_ Hs]%tidy_spec. destruct s as [|c s]; [done|]. cbn [nonempty when_some]. rewrite Hsp. unfold or_text. by rewrite Hs.
Qed.

(** The fields of an error, filled in and turned into the text of an
    operation, come back as the same fields, and are the error that the server
    returns: message and status as given, code and type replaced by the
    server's own where they are empty.  A status above 511, which the form
    allows up to 599, makes the server refuse the operation. *)
Theorem return_error_draft_spec sprint d status :
  (∀ s, sprint (JStr s) = s) → clean_error d status →
  parseReturnErrorDraft (buildReturnErrorValueText d) = d ∧
  parseParamOverrideReturnError sprint (parseLooseValue (buildReturnErrorValueText d)) =
    if status <=? 511
    then Some (mkReturn (e_message d) status (str_or (e_code d) invalid_request)
      (str_or (e_type d) (js "invalid_request_error")) (e_skipRetry d))
    else None.
Proof.
  intros Hsp Hd. destruct (error_text d status Hd) as [Et Hw]. rewrite Et.
  destruct Hd as [([Hm Gm]%tidy_spec & Um & Hne) ([Hc Gc]%tidy_spec & Uc) ([Ht Gt]%tidy_spec & Ut) (Es & Hs) Hf].
  destruct (status_number status Hs) as (_ & Hid & Hint).
  set (o := members (error_members (e_message d) (e_code d) (e_type d) status (e_skipRetry d))) in *.
  assert (∀ A (a b : A), match JSON_stringify (JObj o) with [] => a | _ => b end = b) as Hne' by done.
  pose proof (stringify_trimmed (JObj o)) as Htr. unfold trimmed in Htr. split.
  - unfold parseReturnErrorDraft. rewrite Htr by done. rewrite Hne', JSON_roundtrip by done. unfold o.
    rewrite !obj_get_members by (by apply closed_keys). unfold error_members. eval_keys.
    rewrite string_when, string_when, Hid. destruct d as [msg st code type skip simple].
    cbn [e_message e_code e_type e_statusCode e_skipRetry e_simpleMode] in *. subst.
    assert (string_or (if nonempty msg then Some (JStr msg) else None) [] = msg) as -> by by destruct msg.
    rewrite Hm, Hc, Ht. f_equal. by destruct skip.
  - unfold parseLooseValue. rewrite Htr by done. rewrite Hne', JSON_roundtrip by done. unfold parseParamOverrideReturnError, o.
    rewrite !str_field_members, !obj_get_members by (by apply closed_keys). unfold error_members. eval_keys.
    rewrite Hint. cbn [mbind option_bind Message StatusCode].
    rewrite when_str, (sent_text sprint Hsp) by (by apply tidy_spec). unfold or_text. rewrite Gm.
    assert ((if nonempty (e_type d) then e_type d else []) = e_type d) as -> by by destruct (e_type d).
    rewrite Gt. rewrite (proj2 (Z.leb_le 100 status)) by lia.
    destruct (e_message d); [done|]. cbn [nonempty andb]. destruct (status <=? 511); [|done]. do 2 f_equal.
    + by destruct (e_type d).
    + by destruct (e_skipRetry d).
Qed.

Lemma return_error_draft_spec_witness :
  let d := mkError (js "no") (num_of_Z 520) [] (js "quota") false false in
  buildReturnErrorValueText d = jq "{`message`:`no`,`status_code`:520,`type`:`quota`,`skip_retry`:false}" ∧
  parseReturnErrorDraft (buildReturnErrorValueText d) = d ∧
  parseParamOverrideReturnError json_to_string (parseLooseValue (buildReturnErrorValueText d)) = None.
Proof.
  intros d. split; [by vm_compute|]. apply (return_error_draft_spec json_to_string d 520); [done|].
  assert (∀ s, is_utf16 (js s)) as Hu by apply is_utf16_js.
  split; cbn [d e_message e_code e_type e_statusCode e_simpleMode]; split_and?; try done; try lia; try apply Hu. constructor.
Defined.

(** ** Fields to synchronise *)

Definition parseSyncTarget (spec : jsstr) : option (jsstr * jsstr) :=
  let raw := TrimSpace spec in
  match raw with
  | [] => None
  | _ =>
      match index_of (js ":") raw with
      | None => Some (JSON_KIND, raw)
      | Some idx =>
          let kind := ascii_lower (TrimSpace (take idx raw)) in
          let key := TrimSpace (drop (idx + 1) raw) in
          if negb (nonempty key) then None
          else if bool_decide (kind ∈ [JSON_KIND; js "body"]) then Some (JSON_KIND, key)
          else if bool_decide (kind = HEADER_KIND) then Some (HEADER_KIND, key)
          else None
      end
  end.

Lemma TrimLeft_length s : (length (TrimLeft s) <= length s)%nat ∧ (length (TrimLeft s) = length s → TrimLeft s = s).
Proof.
  induction s as [|c s [IH _]]; [done|]. cbn [TrimLeft]. destruct (is_space c); [|done]. cbn [length]. split; [lia|]. lia.
Qed.

Lemma TrimSpace_app p s : TrimLeft p = p → p ≠ [] → TrimSpace s = s → s ≠ [] → TrimSpace (p ++ s) = p ++ s.
Proof.
  intros Hp Hp' Hs Hs'. unfold TrimSpace in *.
  assert (TrimLeft (p ++ s) = p ++ s) as ->.
  { destruct p as [|c p]; [done|]. cbn [TrimLeft app] in *. destruct (is_space c) eqn:E; [|done].
    pose proof (proj1 (TrimLeft_length p)). rewrite Hp in *. cbn [length] in *. lia. }
  apply (f_equal length) in Hs as Hl. rewrite length_reverse in Hl.
  pose proof (proj1 (TrimLeft_length (reverse (TrimLeft s)))) as H1. rewrite length_reverse in H1.
  destruct (TrimLeft_length s) as [H2 H3]. rewrite H3 in Hs by lia. rewrite H3 in Hl by lia.
  assert (TrimLeft (reverse s) = reverse s) as Hr by (apply (TrimLeft_length (reverse s)); by rewrite length_reverse).
  rewrite reverse_app. destruct (reverse s) as [|c r] eqn:E.
  { apply (f_equal length) in E. rewrite length_reverse in E. by destruct s. }
  cbn [TrimLeft app] in *. destruct (is_space c) eqn:Ec.
  - pose proof (proj1 (TrimLeft_length r)). rewrite Hr in *. cbn [length] in *. lia.
  - by rewrite app_comm_cons, <- E, <- reverse_app, reverse_involutive.
Qed.

(** A field chosen in the form is the field that the server synchronises, and
    is shown as the same field. *)
Lemma sync_target_spec kind key :
  kind ∈ [JSON_KIND; HEADER_KIND] → tidy key = true → key ≠ [] →
  parseSyncTargetSpec (buildSyncTargetSpec kind key) = (kind, key) ∧
  parseSyncTarget (buildSyncTargetSpec kind key) = Some (kind, key).
Proof.
  intros Hk [Ht Hg]%tidy_spec Hne.
  assert (∀ w, TrimLeft w = w → w ≠ [] → TrimSpace (w ++ key) = w ++ key) as Hs by (intros; by apply TrimSpace_app).
  assert (∀ w, head_nws w → w ≠ [] → trim (w ++ key) = w ++ key) as Hj.
  { intros w Hw Hw'. apply trimmed_iff. apply trimmed_iff in Ht as [_ Hl]. split; [by apply head_nws_app|by apply last_nws_app]. }
  unfold buildSyncTargetSpec. rewrite Ht. destruct key as [|c key]; [done|]. set (k := c :: key) in *.
  assert (∀ A (a b : A) w, w ≠ [] → match w ++ k with [] => a | _ => b end = b) as Hm by by intros A a b [].
  each_of Hk.
  - change (_ ++ js ":" ++ k) with (js "json:" ++ k). unfold parseSyncTargetSpec, parseSyncTarget.
    rewrite Hs, Hj, !Hm by done. change (index_of (js ":") (js "json:" ++ k)) with (Some 4%nat). cbn [take drop].
    change (drop (4 + 1) (js "json:" ++ k)) with k. by rewrite Ht, Hg.
  - change (_ ++ js ":" ++ k) with (js "header:" ++ k). unfold parseSyncTargetSpec, parseSyncTarget.
    rewrite Hs, Hj, !Hm by done. change (index_of (js ":") (js "header:" ++ k)) with (Some 6%nat). cbn [take drop].
    change (drop (6 + 1) (js "header:" ++ k)) with k. by rewrite Ht, Hg.
Qed.
