(* ===== verification/ParamEditor.v ===== *)
(** * The editor of parameter overrides: the dialog

    The state of [ParamOverrideEditorDialog], one function per callback, and
    the runs of the dialog from the moment it opens.  What is only shown
    (search, expanded conditions, the marks of a drag) is left out, toasts too.
    React runs the updates of one event in order and then the effect that
    keeps a row selected; the updater of [duplicateOperation] may run before
    or after the callback goes on, which is a flag of its event. *)
From S2P Require Import Prelude JSString JSNumber JSON JSONText ParamOverride.
Import ParamOverride.
Local Open Scope Z_scope.

Module Editor.

(** ** Templates *)

Definition str (s : string) : json := JStr (js s).
Definition operations_object (l : list json) : obj json := [(js "operations", JArr l)].

Definition LEGACY_TEMPLATE : obj json := [(js "temperature", JNum (num_of_Z 0)); (js "max_tokens", JNum (num_of_Z 1000))].

Definition OPERATION_TEMPLATE : obj json := operations_object
  [JObj [(js "description", str "Set default temperature for openai/* models."); (js "path", str "temperature");
     (js "mode", str "set"); (js "value", JNum (num_of_dec false 7 (-1)));
     (js "conditions", JArr [JObj [(js "path", str "model"); (js "mode", str "prefix"); (js "value", str "openai/")]]);
     (js "logic", str "AND")]].

Definition HEADER_PASSTHROUGH_TEMPLATE : obj json := operations_object
  [JObj [(js "description", str "Pass through X-Request-Id header to upstream."); (js "mode", str "pass_headers");
     (js "value", JArr [str "X-Request-Id"]); (js "keep_origin", JBool true)]].

Definition GEMINI_IMAGE_4K_TEMPLATE : obj json := operations_object
  [JObj [(js "description", str "Set imageSize to 4K when model contains gemini/image and ends with 4k.");
     (js "mode", str "set"); (js "path", str "generationConfig.imageConfig.imageSize"); (js "value", str "4K");
     (js "conditions", JArr
       [JObj [(js "path", str "original_model"); (js "mode", str "contains"); (js "value", str "gemini")];
        JObj [(js "path", str "original_model"); (js "mode", str "contains"); (js "value", str "image")];
        JObj [(js "path", str "original_model"); (js "mode", str "suffix"); (js "value", str "4k")]]);
     (js "logic", str "AND")]].

Definition CODEX_CLI_HEADER_PASSTHROUGH_HEADERS : list string :=
  ["Originator"; "Session_id"; "User-Agent"; "X-Codex-Beta-Features"; "X-Codex-Turn-Metadata"]%string.
Definition CLAUDE_CLI_HEADER_PASSTHROUGH_HEADERS : list string :=
  ["X-Stainless-Arch"; "X-Stainless-Lang"; "X-Stainless-Os"; "X-Stainless-Package-Version"; "X-Stainless-Retry-Count";
   "X-Stainless-Runtime"; "X-Stainless-Runtime-Version"; "X-Stainless-Timeout"; "User-Agent"; "X-App"; "Anthropic-Beta";
   "Anthropic-Dangerous-Direct-Browser-Access"; "Anthropic-Version"]%string.

Definition buildPassHeadersTemplate (headers : list string) : obj json := operations_object
  [JObj [(js "mode", str "pass_headers"); (js "value", JArr (map str headers)); (js "keep_origin", JBool true)]].

Definition AWS_BEDROCK_ANTHROPIC_COMPAT_TEMPLATE : obj json := operations_object
  [JObj [(js "description", str "Normalize anthropic-beta header tokens for Bedrock compatibility.");
     (js "mode", str "set_header"); (js "path", str "anthropic-beta"); (js "value", JObj
    [(js "advanced-tool-use-2025-11-20", JStr (js "tool-search-tool-2025-10-19"));
     (js "bash_20241022", JNull);
     (js "bash_20250124", JNull);
     (js "code-execution-2025-08-25", JNull);
     (js "compact-2026-01-12", JStr (js "compact-2026-01-12"));
     (js "computer-use-2025-01-24", JStr (js "computer-use-2025-01-24"));
     (js "computer-use-2025-11-24", JStr (js "computer-use-2025-11-24"));
     (js "context-1m-2025-08-07", JStr (js "context-1m-2025-08-07"));
     (js "context-management-2025-06-27", JStr (js "context-management-2025-06-27"));
     (js "effort-2025-11-24", JNull);
     (js "fast-mode-2026-02-01", JNull);
     (js "files-api-2025-04-14", JNull);
     (js "fine-grained-tool-streaming-2025-05-14", JNull);
     (js "interleaved-thinking-2025-05-14", JStr (js "interleaved-thinking-2025-05-14"));
     (js "mcp-client-2025-11-20", JNull);
     (js "mcp-client-2025-04-04", JNull);
     (js "mcp-servers-2025-12-04", JNull);
     (js "output-128k-2025-02-19", JNull);
     (js "structured-output-2024-03-01", JNull);
     (js "prompt-caching-scope-2026-01-05", JNull);
     (js "skills-2025-10-02", JNull);
     (js "structured-outputs-2025-11-13", JNull);
     (js "text_editor_20241022", JNull);
     (js "text_editor_20250124", JNull);
     (js "token-efficient-tools-2025-02-19", JNull);
     (js "tool-search-tool-2025-10-19", JStr (js "tool-search-tool-2025-10-19"));
     (js "web-fetch-2025-09-10", JNull);
     (js "web-search-2025-03-05", JNull);
     (js "oauth-2025-04-20", JNull)])];
   JObj [(js "description", str "Remove all tools[*].custom.input_examples before upstream relay.");
     (js "mode", str "delete"); (js "path", str "tools.*.custom.input_examples")]].

Inductive TemplateKind := KOperations | KLegacy.

Definition TEMPLATE_PRESET_CONFIG : list (jsstr * (TemplateKind * obj json)) :=
  [(js "operations_default", (KOperations, OPERATION_TEMPLATE)); (js "legacy_default", (KLegacy, LEGACY_TEMPLATE));
   (js "pass_headers_auth", (KOperations, HEADER_PASSTHROUGH_TEMPLATE));
   (js "gemini_image_4k", (KOperations, GEMINI_IMAGE_4K_TEMPLATE));
   (js "claude_cli_headers_passthrough", (KOperations, buildPassHeadersTemplate CLAUDE_CLI_HEADER_PASSTHROUGH_HEADERS));
   (js "codex_cli_headers_passthrough", (KOperations, buildPassHeadersTemplate CODEX_CLI_HEADER_PASSTHROUGH_HEADERS));
   (js "aws_bedrock_anthropic_beta_override", (KOperations, AWS_BEDROCK_ANTHROPIC_COMPAT_TEMPLATE))].

(** [TEMPLATE_PRESET_CONFIG[key] || TEMPLATE_PRESET_CONFIG.operations_default] *)
Definition preset_of (key : jsstr) : TemplateKind * obj json :=
  opt_or (obj_get key TEMPLATE_PRESET_CONFIG) (KOperations, OPERATION_TEMPLATE).

(** ** State and callbacks *)

Record Dialog := mkDialog {
  editMode_ : EditMode;
  visualMode_ : VisualMode;
  legacyValue_ : jsstr;
  operations_ : list ParamOverrideOperation;
  jsonText_ : jsstr;
  jsonError_ : jsstr;
  selectedOperationId : jsstr;
  templatePresetKey : jsstr;
}.

Definition set_ops (d : Dialog) (ops : list ParamOverrideOperation) : Dialog :=
  mkDialog (editMode_ d) (visualMode_ d) (legacyValue_ d) ops (jsonText_ d) (jsonError_ d) (selectedOperationId d)
    (templatePresetKey d).
Definition set_selected (d : Dialog) (i : jsstr) : Dialog :=
  mkDialog (editMode_ d) (visualMode_ d) (legacyValue_ d) (operations_ d) (jsonText_ d) (jsonError_ d) i
    (templatePresetKey d).
Definition set_json (d : Dialog) (mode : EditMode) (text error : jsstr) : Dialog :=
  mkDialog mode (visualMode_ d) (legacyValue_ d) (operations_ d) text error (selectedOperationId d) (templatePresetKey d).

(** [ops[0]?.id || ''] *)
Definition first_id (ops : list ParamOverrideOperation) : jsstr := match ops with [] => [] | o :: _ => id o end.

(** A patch of a row: the fields it names. *)
Record OperationPatch := mkPatch {
  x_description : option jsstr; x_path : option jsstr; x_mode : option jsstr; x_from : option jsstr; x_to : option jsstr;
  x_value_text : option jsstr; x_keep_origin : option bool; x_logic : option jsstr;
}.
Definition patch_operation (p : OperationPatch) (o : ParamOverrideOperation) : ParamOverrideOperation :=
  mkOperation (id o) (opt_or (x_description p) (description o)) (opt_or (x_path p) (path o)) (opt_or (x_mode p) (mode o))
    (opt_or (x_from p) (from o)) (opt_or (x_to p) (to o)) (opt_or (x_value_text p) (value_text o))
    (opt_or (x_keep_origin p) (keep_origin o)) (opt_or (x_logic p) (logic o)) (conditions o).

Record ConditionPatch := mkCPatch {
  y_path : option jsstr; y_mode : option jsstr; y_value_text : option jsstr; y_invert : option bool; y_pass : option bool;
}.
Definition patch_condition (p : ConditionPatch) (c : ParamOverrideCondition) : ParamOverrideCondition :=
  mkCondition (c_id c) (opt_or (y_path p) (c_path c)) (opt_or (y_mode p) (c_mode c))
    (opt_or (y_value_text p) (c_value_text c)) (opt_or (y_invert p) (c_invert c)) (opt_or (y_pass p) (c_pass_missing_key c)).
Definition patch_rule (p : ConditionPatch) (r : PruneRule) : PruneRule :=
  mkRule (r_id r) (opt_or (y_path p) (r_path r)) (opt_or (y_mode p) (r_mode r))
    (opt_or (y_value_text p) (r_value_text r)) (opt_or (y_invert p) (r_invert r)) (opt_or (y_pass p) (r_pass_missing_key r)).

Record ErrorPatch := mkEPatch {
  z_message : option jsstr; z_statusCode : option num; z_code : option jsstr; z_type : option jsstr;
  z_skipRetry : option bool; z_simpleMode : option bool;
}.
Definition patch_error (p : ErrorPatch) (e : ReturnErrorDraft) : ReturnErrorDraft :=
  mkError (opt_or (z_message p) (e_message e)) (opt_or (z_statusCode p) (e_statusCode e)) (opt_or (z_code p) (e_code e))
    (opt_or (z_type p) (e_type e)) (opt_or (z_skipRetry p) (e_skipRetry e)) (opt_or (z_simpleMode p) (e_simpleMode e)).

Record PrunePatch := mkPPatch {
  w_simpleMode : option bool; w_typeText : option jsstr; w_logic : option jsstr; w_recursive : option bool;
}.
Definition patch_prune (p : PrunePatch) (d : PruneObjectsDraft) : PruneObjectsDraft :=
  mkPrune (opt_or (w_simpleMode p) (p_simpleMode d)) (opt_or (w_typeText p) (p_typeText d)) (opt_or (w_logic p) (p_logic d))
    (opt_or (w_recursive p) (p_recursive d)) (p_rules d).

Definition set_value (o : ParamOverrideOperation) (v : jsstr) : ParamOverrideOperation :=
  patch_operation (mkPatch None None None None None (Some v) None None) o.
Definition set_conditions (o : ParamOverrideOperation) (cs : list ParamOverrideCondition) : ParamOverrideOperation :=
  mkOperation (id o) (description o) (path o) (mode o) (from o) (to o) (value_text o) (keep_origin o) (logic o) cs.

(** [ops.map((o) => o.id === i ? f(o) : o)] *)
Definition map_at (i : jsstr) (f : ParamOverrideOperation → ParamOverrideOperation) (ops : list ParamOverrideOperation)
    : list ParamOverrideOperation :=
  map (λ o, if decide (id o = i) then f o else o) ops.

Definition updateOperation (d : Dialog) (i : jsstr) (p : OperationPatch) : Dialog :=
  set_ops d (map_at i (patch_operation p) (operations_ d)).

Definition updateCondition (d : Dialog) (i ci : jsstr) (p : ConditionPatch) : Dialog :=
  set_ops d (map_at i (λ o, set_conditions o
    (map (λ c, if decide (c_id c = ci) then patch_condition p c else c) (conditions o))) (operations_ d)).

Definition removeCondition (d : Dialog) (i ci : jsstr) : Dialog :=
  set_ops d (map_at i (λ o, set_conditions o (List.filter (λ c, negb (bool_decide (c_id c = ci))) (conditions o)))
    (operations_ d)).

Definition updateReturnErrorDraft (d : Dialog) (i : jsstr) (p : ErrorPatch) : Dialog :=
  set_ops d (map_at i (λ o, set_value o (buildReturnErrorValueText (patch_error p (parseReturnErrorDraft (value_text o)))))
    (operations_ d)).

Definition handleDrop (d : Dialog) (sourceId operationId : jsstr) (after : bool) : Dialog :=
  if nonempty sourceId && nonempty operationId && negb (bool_decide (sourceId = operationId))
  then set_selected (set_ops d (reorderOperations (operations_ d) sourceId operationId after)) sourceId
  else d.

(** An issue: its text and the rule it is about, if it is about one. *)
Definition Issue : Type := jsstr * option nat.

Definition buildVisualJson (d : Dialog) : Issue + jsstr :=
  match visualMode_ d with
  | VLegacy =>
      match trim (legacyValue_ d) with
      | [] => inr []
      | trimmed =>
          match JSON_parse trimmed with
          | None => inl (js "Parameter override must be valid JSON format", None)
          | Some (JObj o) => inr (JSON_stringify_2 (JObj o))
          | Some _ => inl (js "Legacy format must be a JSON object", None)
          end
      end
  | VOperations =>
      match buildOperationsJson (operations_ d) true with inl (e, line) => inl (e, Some line) | inr s => inr s end
  end.

Definition switchToJsonMode (d : Dialog) : Dialog :=
  match editMode_ d with
  | EJson => d
  | EVisual =>
      match buildVisualJson d with
      | inr text => set_json d EJson text []
      | inl (e, _) =>
          let text := match visualMode_ d with
            | VLegacy => legacyValue_ d
            | VOperations => match buildOperationsJson (operations_ d) false with inr s => s | inl _ => [] end end in
          set_json d EJson text e
      end
  end.

Definition handleJsonChange (d : Dialog) (nextValue : jsstr) : Dialog :=
  let error := match trim nextValue with
    | [] => []
    | trimmed => if verifyJSON trimmed then [] else js "JSON format error" end in
  set_json d (editMode_ d) nextValue error.

Definition formatJson (d : Dialog) : Dialog :=
  match trim (jsonText_ d) with
  | [] => d
  | trimmed =>
      match JSON_parse trimmed with
      | None => d
      | Some v => set_json d (editMode_ d) (JSON_stringify_2 v) []
      end
  end.

Definition handleSave (d : Dialog) : Issue + jsstr :=
  match editMode_ d with
  | EJson =>
      match trim (jsonText_ d) with
      | [] => inr []
      | trimmed =>
          match JSON_parse trimmed with
          | None => inl (js "Parameter override must be valid JSON format", None)
          | Some v => inr (JSON_stringify_2 v)
          end
      end
  | EVisual => buildVisualJson d
  end.

(** The effect that keeps the selected row one of the rows. *)
Definition keep_selected (d : Dialog) : Dialog :=
  match operations_ d with
  | [] => set_selected d []
  | o :: _ => if existsb (λ o, bool_decide (id o = selectedOperationId d)) (operations_ d) then d else set_selected d (id o)
  end.

(** ** Callbacks that draw ids *)

Section Ids.
Context (now : N → N).

Definition addOperation (d : Dialog) : Fresh Dialog :=
  created ← createDefaultOperation now;
  mret (set_selected (set_ops d (operations_ d ++ [created])) (id created)).

Definition clone_condition (c : ParamOverrideCondition) : json :=
  JObj [(js "path", JStr (c_path c)); (js "mode", JStr (c_mode c)); (js "value", parseLooseValue (c_value_text c));
    (js "invert", JBool (c_invert c)); (js "pass_missing_key", JBool (c_pass_missing_key c))].
Definition clone_source (o : ParamOverrideOperation) : json :=
  JObj [(js "description", JStr (description o)); (js "path", JStr (path o)); (js "mode", JStr (mode o));
    (js "value", parseLooseValue (value_text o)); (js "keep_origin", JBool (keep_origin o)); (js "from", JStr (from o));
    (js "to", JStr (to o)); (js "logic", JStr (logic o)); (js "conditions", JArr (map clone_condition (conditions o)))].

(** [eager]: React runs the updater before the callback looks at the id. *)
Definition duplicateOperation (d : Dialog) (i : jsstr) (eager : bool) : Fresh Dialog :=
  let ops := operations_ d in
  match list_find (λ o, id o = i) ops with
  | None => mret d
  | Some (idx, source) =>
      cloned ← normalizeOperation now (clone_source source);
      let d := set_ops d (take (S idx) ops ++ cloned :: drop (S idx) ops) in
      mret (if eager then set_selected d (id cloned) else d)
  end.

Definition removeOperation (d : Dialog) (i : jsstr) : Fresh Dialog :=
  match operations_ d with
  | [] | [_] => op ← createDefaultOperation now; mret (set_ops d [op])
  | ops => mret (set_ops d (List.filter (λ o, negb (bool_decide (id o = i))) ops))
  end.

Definition addCondition (d : Dialog) (i : jsstr) : Fresh Dialog :=
  created ← createDefaultCondition now;
  mret (set_ops d (map_at i (λ o, set_conditions o (conditions o ++ [created])) (operations_ d))).

(** The draft is read again from the text of the row, and every reading gives
    its rules new ids. *)
Definition update_prune_row (updater : PruneObjectsDraft → Fresh PruneObjectsDraft) (o : ParamOverrideOperation)
    : Fresh ParamOverrideOperation :=
  draft ← parsePruneObjectsDraft now (value_text o);
  next ← updater draft;
  mret (set_value o (buildPruneObjectsValueText next)).
Definition updatePruneObjectsDraft (d : Dialog) (i : jsstr) (updater : PruneObjectsDraft → Fresh PruneObjectsDraft)
    : Fresh Dialog :=
  ops ← fresh_map (λ o, if decide (id o = i) then update_prune_row updater o else mret o) (operations_ d);
  mret (set_ops d ops).

Definition set_rules (draft : PruneObjectsDraft) (rules : list PruneRule) : PruneObjectsDraft :=
  mkPrune (p_simpleMode draft) (p_typeText draft) (p_logic draft) (p_recursive draft) rules.
Definition add_rule (draft : PruneObjectsDraft) : Fresh PruneObjectsDraft :=
  r ← normalizePruneRule now (JObj []);
  mret (mkPrune false (p_typeText draft) (p_logic draft) (p_recursive draft) (p_rules draft ++ [r])).
Definition update_rule (ruleId : jsstr) (p : ConditionPatch) (draft : PruneObjectsDraft) : PruneObjectsDraft :=
  set_rules draft (map (λ r, if decide (r_id r = ruleId) then patch_rule p r else r) (p_rules draft)).
Definition remove_rule (ruleId : jsstr) (draft : PruneObjectsDraft) : PruneObjectsDraft :=
  set_rules draft (List.filter (λ r, negb (bool_decide (r_id r = ruleId))) (p_rules draft)).

Definition visual_default (d : Dialog) (op : ParamOverrideOperation) (text : jsstr) : Dialog :=
  mkDialog EVisual VOperations [] [op] text [] (id op) (templatePresetKey d).

Definition switchToVisualMode (d : Dialog) : Fresh Dialog :=
  match editMode_ d with
  | EVisual => mret d
  | EJson =>
      match trim (jsonText_ d) with
      | [] => op ← createDefaultOperation now; mret (visual_default d op (jsonText_ d))
      | trimmed =>
          match JSON_parse trimmed with
          | None => mret d
          | Some parsed =>
              match operation_list parsed with
              | Some l =>
                  ops ← rows_of now l;
                  mret (mkDialog EVisual VOperations [] ops (jsonText_ d) [] (first_id ops) (js "operations_default"))
              | None =>
                  match parsed with
                  | JObj o =>
                      op ← createDefaultOperation now;
                      mret (mkDialog EVisual VLegacy (JSON_stringify_2 (JObj o)) [op] (jsonText_ d) [] (id op)
                        (js "legacy_default"))
                  | _ => mret d
                  end
              end
          end
      end
  end.

(** The text of the legacy mode with a template put under it; [None] when the
    current text is no JSON. *)
Definition legacy_text (d : Dialog) (payload : obj json) (append : bool) : option jsstr :=
  match append, visualMode_ d with
  | true, VLegacy =>
      match trim (legacyValue_ d) with
      | [] => Some (JSON_stringify_2 (JObj payload))
      | trimmed => (λ current, JSON_stringify_2 (JObj (obj_assign payload (spread current)))) <$> JSON_parse trimmed
      end
  | _, _ => Some (JSON_stringify_2 (JObj payload))
  end.

Definition template_operations (payload : obj json) : list json :=
  match obj_get (js "operations") payload with Some (JArr l) => l | _ => [] end.

Definition fillTemplate (d : Dialog) (append : bool) : Fresh Dialog :=
  match preset_of (templatePresetKey d) with
  | (KLegacy, payload) =>
      match legacy_text d payload append with
      | None => mret d
      | Some text =>
          op ← createDefaultOperation now;
          mret (mkDialog EVisual VLegacy text [op] text [] (selectedOperationId d) (templatePresetKey d))
      end
  | (KOperations, payload) =>
      let l := template_operations payload in
      if append then
        appended ← fresh_map (normalizeOperation now) l;
        let existing := match visualMode_ d with
          | VOperations => List.filter (λ o, negb (isOperationBlank o)) (operations_ d) | VLegacy => [] end in
        let nextOps := existing ++ appended in
        mret (mkDialog EVisual VOperations [] nextOps [] [] (str_or (first_id nextOps) (first_id appended))
          (templatePresetKey d))
      else
        finalOps ← rows_of now l;
        mret (mkDialog EVisual VOperations (legacyValue_ d) finalOps (JSON_stringify_2 (JObj (operations_object l))) []
          (first_id finalOps) (templatePresetKey d))
  end.

Definition resetEditorState (d : Dialog) : Fresh Dialog :=
  op ← createDefaultOperation now;
  mret (mkDialog EVisual VOperations [] [op] [] [] (id op) (js "operations_default")).

(** ** Runs *)

(** The dialog opens with the stored text. *)
Definition open_dialog (text : jsstr) : Fresh Dialog :=
  st ← parseInitialState now text;
  mret (mkDialog (editMode st) (visualMode st) (legacyValue st) (operations st) (jsonText st) (jsonError st)
    (first_id (operations st))
    (match visualMode st with VLegacy => js "legacy_default" | VOperations => js "operations_default" end)).

Inductive Event :=
  | EUpdate (i : jsstr) (p : OperationPatch)
  | EAdd
  | EDuplicate (i : jsstr) (eager : bool)
  | ERemove (i : jsstr)
  | EAddCondition (i : jsstr)
  | EUpdateCondition (i ci : jsstr) (p : ConditionPatch)
  | ERemoveCondition (i ci : jsstr)
  | EReturnError (i : jsstr) (p : ErrorPatch)
  | EPrune (i : jsstr) (p : PrunePatch)
  | EAddRule (i : jsstr)
  | EUpdateRule (i ruleId : jsstr) (p : ConditionPatch)
  | ERemoveRule (i ruleId : jsstr)
  | EDrop (source target : jsstr) (after : bool)
  | ESelect (i : jsstr)
  | EToJson
  | EToVisual
  | EFill (append : bool)
  | EReset
  | EJsonText (text : jsstr)
  | EFormat
  | ELegacyText (text : jsstr)
  | EPreset (key : jsstr)
  | ERender (text : jsstr).

Definition handle (d : Dialog) (e : Event) : Fresh Dialog :=
  match e with
  | EUpdate i p => mret (updateOperation d i p)
  | EAdd => addOperation d
  | EDuplicate i eager => duplicateOperation d i eager
  | ERemove i => removeOperation d i
  | EAddCondition i => addCondition d i
  | EUpdateCondition i ci p => mret (updateCondition d i ci p)
  | ERemoveCondition i ci => mret (removeCondition d i ci)
  | EReturnError i p => mret (updateReturnErrorDraft d i p)
  | EPrune i p => updatePruneObjectsDraft d i (λ draft, mret (patch_prune p draft))
  | EAddRule i => updatePruneObjectsDraft d i add_rule
  | EUpdateRule i r p => updatePruneObjectsDraft d i (λ draft, mret (update_rule r p draft))
  | ERemoveRule i r => updatePruneObjectsDraft d i (λ draft, mret (remove_rule r draft))
  | EDrop s t after => mret (handleDrop d s t after)
  | ESelect i => mret (set_selected d i)
  | EToJson => mret (switchToJsonMode d)
  | EToVisual => switchToVisualMode d
  | EFill append => fillTemplate d append
  | EReset => resetEditorState d
  | EJsonText text => mret (handleJsonChange d text)
  | EFormat => mret (formatJson d)
  | ELegacyText text =>
      mret (mkDialog (editMode_ d) (visualMode_ d) text (operations_ d) (jsonText_ d) (jsonError_ d)
        (selectedOperationId d) (templatePresetKey d))
  | EPreset key =>
      mret (mkDialog (editMode_ d) (visualMode_ d) (legacyValue_ d) (operations_ d) (jsonText_ d) (jsonError_ d)
        (selectedOperationId d) (str_or key (js "operations_default")))
  | ERender text => _ ← parsePruneObjectsDraft now text; mret d  (* the rules that are shown draw ids, too *)
  end.

(** One event and the effect after it; an event whose callback throws leaves
    the state as it was. *)
Definition step (d : Dialog) (s : N) (e : Event) : Dialog * N :=
  match handle d e s with
  | (Some d', s') => (keep_selected d', s')
  | (None, s') => (d, s')
  end.

(** Modes and logics are picked from a menu. *)
Definition from_menu (values : list jsstr) (o : option jsstr) : bool :=
  match o with Some m => bool_decide (m ∈ values) | None => true end.
Definition possible (e : Event) : bool :=
  match e with
  | EUpdate _ p => from_menu OPERATION_MODE_VALUES (x_mode p) && from_menu [AND; OR] (x_logic p)
  | EUpdateCondition _ _ p => from_menu CONDITION_MODE_VALUES (y_mode p)
  | _ => true
  end.

Inductive reachable (text : jsstr) : Dialog → N → Prop :=
  | reach_open s d s' : returns (open_dialog text) s d s' → reachable text (keep_selected d) s'
  | reach_step d s e : reachable text d s → possible e = true → reachable text (step d s e).1 (step d s e).2.

(** ** Ids are fresh *)

Lemma digits_until (a b a' b' : jsstr) (c : jschar) :
  Forall (λ x, is_digit x = true) a → Forall (λ x, is_digit x = true) a' → is_digit c = false →
  a ++ c :: b = a' ++ c :: b' → b = b'.
Proof.
  intros Ha Ha' Hc. revert a' Ha'. induction Ha as [|x a Hx Ha IH]; intros [|y a'] Ha' E; simplify_eq/=; try done.
  - apply Forall_cons in Ha' as [Hy _]. congruence.
  - congruence.
  - apply Forall_cons in Ha' as [_ Ha']. by apply (IH a').
Qed.

Lemma local_id_inj a b : local_id now a = local_id now b → a = b.
Proof.
  unfold local_id. intros E%app_inv_head. apply digits_until in E; [|apply string_of_N_digits..|done]. by apply (inj string_of_N).
Qed.

(** [l] was drawn while the counter went from [s] to [s']. *)
Definition drawn (s s' : N) (l : list jsstr) : Prop :=
  (s <= s')%N ∧ NoDup l ∧ Forall (λ i, ∃ k, (s <= k < s')%N ∧ i = local_id now k) l.

Lemma drawn_nil s : drawn s s [].
Proof. split; [lia|]. split; constructor. Qed.

Lemma drawn_later s s' l : (s <= s')%N → drawn s s l → drawn s s' l.
Proof.
  intros Hs (_ & Hn & Hf). split; [done|]. split; [done|]. eapply Forall_impl; [exact Hf|].
  intros i (k & Hk & ->). lia.
Qed.

Lemma drawn_one s : drawn s (s + 1) [local_id now s].
Proof.
  split; [lia|]. split; [apply NoDup_singleton|]. constructor; [|constructor]. exists s. split; [lia|done].
Qed.

Lemma drawn_app s t u l l' : drawn s t l → drawn t u l' → drawn s u (l ++ l').
Proof.
  intros (H1 & N1 & F1) (H2 & N2 & F2). split; [lia|]. split.
  - apply NoDup_app. split_and!; try done. intros i Hi Hi'. rewrite Forall_forall in F1, F2.
    destruct (F1 i Hi) as (k & Hk & ->), (F2 _ Hi') as (k' & Hk' & E). apply local_id_inj in E. lia.
  - apply Forall_app. split; (eapply Forall_impl; [eassumption|]); intros i (k & Hk & ->); exists k; split; try done; lia.
Qed.

Lemma fresh_map_drawn {A B} (f : A → Fresh B) (ids : B → list jsstr) l s ys s' :
  (∀ x s y s', x ∈ l → returns (f x) s y s' → drawn s s' (ids y)) →
  returns (fresh_map f l) s ys s' → drawn s s' (concat (map ids ys)).
Proof.
  revert s ys. induction l as [|x l IH]; intros s ys Hf E; [injection E as <- <-; apply drawn_nil|].
  apply returns_map_cons in E as (y & t & zs & Hy & Hz & ->). cbn [map concat].
  apply (drawn_app _ t); [apply (Hf x); [by left|done]|]. apply IH; [|done]. intros x' u y' u' Hx. apply Hf. by right.
Qed.

Definition op_ids (o : ParamOverrideOperation) : list jsstr := id o :: map c_id (conditions o).
Definition all_ids (ops : list ParamOverrideOperation) : list jsstr := concat (map op_ids ops).

Lemma condition_ids v s c s' : returns (normalizeCondition now v) s c s' → drawn s s' [c_id c].
Proof.
  intros (i & t & [= <- <-] & (u & t' & E & [<- <-]%returns_ret)%returns_bind)%returns_bind.
  destruct v; try done; injection E as _ <-; apply drawn_one.
Qed.

Lemma concat_singletons {A B} (f : A → B) l : concat (map (λ x, [f x]) l) = map f l.
Proof. induction l as [|x l IH]; [done|]. cbn. by rewrite IH. Qed.

Lemma operation_ids v s o s' : returns (normalizeOperation now v) s o s' → drawn s s' (op_ids o).
Proof.
  intros (i & t & [= <- <-] & (u & t' & E & (cs & t'' & Hcs & [<- <-]%returns_ret)%returns_bind)%returns_bind)%returns_bind.
  assert (t' = (s + 1)%N) as -> by (by destruct v; injection E as _ <-).
  apply (drawn_app _ (s + 1)%N _ [local_id now s]); [apply drawn_one|]. cbn [conditions operation_of].
  rewrite <- concat_singletons. eapply fresh_map_drawn; [|exact Hcs]. intros. by eapply condition_ids.
Qed.

Lemma rows_ids l s os s' : returns (rows_of now l) s os s' → drawn s s' (all_ids os) ∧ os ≠ [].
Proof.
  destruct l as [|v l].
  - intros (o & t & Ho%operation_ids & [<- <-]%returns_ret)%returns_bind. unfold all_ids. cbn [map concat].
    by rewrite app_nil_r.
  - intros E. split; [eapply fresh_map_drawn; [|exact E]; intros; by eapply operation_ids|].
    apply returns_map_cons in E as (y & t & zs & _ & _ & ->). done.
Qed.

(** The ids of a state are those of the state before and fresh ones. *)
Definition ids_from (s s' : N) (l l' : list jsstr) : Prop := ∃ k, drawn s s' k ∧ l' ⊆+ l ++ k.

Definition below (s : N) (l : list jsstr) : Prop := drawn 0 s l.

Lemma below_from s s' l l' : below s l → ids_from s s' l l' → below s' l'.
Proof.
  intros Hl (k & Hk & Hsub). destruct (drawn_app _ _ _ _ _ Hl Hk) as (Hs & Hn & Hf). split; [done|].
  apply submseteq_Permutation in Hsub as (k' & Hp). rewrite Hp in Hn. split; [by apply NoDup_app in Hn as [? _]|].
  rewrite Hp in Hf. by apply Forall_app in Hf as [? _].
Qed.

Lemma from_sub s l l' : l' ⊆+ l → ids_from s s l l'.
Proof. intros H. exists []. split; [apply drawn_nil|]. by rewrite app_nil_r. Qed.

Lemma from_fresh s s' l l' : drawn s s' l' → ids_from s s' l l'.
Proof. intros H. exists l'. split; [done|]. by apply submseteq_inserts_l. Qed.

(** The counter never goes back, exceptions or not. *)
Definition grows {A} (m : Fresh A) : Prop := ∀ s, (s <= (m s).2)%N.

Lemma grows_ret {A} (x : A) : grows (mret x).
Proof. intros s. cbn. lia. Qed.

Lemma grows_bind {A B} (m : Fresh A) (f : A → Fresh B) : grows m → (∀ x, grows (f x)) → grows (x ← m; f x).
Proof.
  intros Hm Hf s. specialize (Hm s). unfold mbind, fresh_bind. destruct (m s) as [[x|] t]; [|done].
  specialize (Hf x t). cbn in *. lia.
Qed.

Lemma grows_map {A B} (f : A → Fresh B) l : (∀ x, grows (f x)) → grows (fresh_map f l).
Proof.
  intros Hf. induction l as [|x l IH]; [apply grows_ret|]. apply grows_bind; [done|]. intros y.
  apply grows_bind; [done|]. intros ys. apply grows_ret.
Qed.

Lemma grows_next : grows (nextLocalId now).
Proof. intros s. cbn. lia. Qed.

Lemma grows_not_null v : grows (not_null v).
Proof. intros s. cbn. lia. Qed.

Create HintDb grows.
#[local] Hint Resolve grows_ret grows_bind grows_map grows_next grows_not_null : grows.
#[local] Hint Extern 1 (grows (match ?x with _ => _ end)) => destruct x : grows.

Lemma grows_condition v : grows (normalizeCondition now v).
Proof. unfold normalizeCondition. auto with grows. Qed.
#[local] Hint Resolve grows_condition : grows.

Lemma grows_operation v : grows (normalizeOperation now v).
Proof. unfold normalizeOperation. auto 10 with grows. Qed.
#[local] Hint Resolve grows_operation : grows.

Lemma grows_rows l : grows (rows_of now l).
Proof. unfold rows_of, createDefaultOperation. destruct l; auto with grows. Qed.
#[local] Hint Resolve grows_rows : grows.

Lemma grows_draft text : grows (parsePruneObjectsDraft now text).
Proof.
  unfold parsePruneObjectsDraft, prune_rules, exact_rule, normalizePruneRule.
  destruct (trim text); [auto with grows|]. destruct (JSON_parse _) as [[]|]; auto 10 with grows.
Qed.
#[local] Hint Resolve grows_draft : grows.

Lemma grows_prune d i updater : (∀ draft, grows (updater draft)) → grows (updatePruneObjectsDraft d i updater).
Proof.
  intros Hu. unfold updatePruneObjectsDraft, update_prune_row. apply grows_bind; [|auto with grows].
  apply grows_map. intros o. destruct (decide _); auto with grows.
Qed.

Lemma grows_default : grows (createDefaultOperation now).
Proof. apply grows_operation. Qed.
Lemma grows_default_condition : grows (createDefaultCondition now).
Proof. apply grows_condition. Qed.
#[local] Hint Resolve grows_default grows_default_condition : grows.

Lemma grows_duplicate d i eager : grows (duplicateOperation d i eager).
Proof. unfold duplicateOperation. destruct (list_find _ _) as [[]|]; auto with grows. Qed.

Lemma grows_remove d i : grows (removeOperation d i).
Proof. unfold removeOperation. destruct (operations_ d) as [|? []]; auto with grows. Qed.

Lemma grows_visual d : grows (switchToVisualMode d).
Proof.
  unfold switchToVisualMode. destruct (editMode_ d), (trim (jsonText_ d)); auto with grows.
Qed.

Lemma grows_fill d append : grows (fillTemplate d append).
Proof.
  unfold fillTemplate. destruct (preset_of _) as [[] payload]; [destruct append|]; auto with grows.
Qed.

Lemma grows_handle d e : grows (handle d e).
Proof.
  destruct e; cbn [handle]; try apply grows_ret; try (apply grows_prune; unfold add_rule, normalizePruneRule; auto with grows).
  all: unfold addOperation, addCondition, resetEditorState; auto using grows_duplicate, grows_remove, grows_visual, grows_fill with grows.
Qed.

(** ** Rows are well typed *)

Record typed_row (o : ParamOverrideOperation) : Prop := {
  typed_mode : mode o ∈ OPERATION_MODE_VALUES;
  typed_logic : logic o ∈ [AND; OR];
  typed_conditions : Forall (λ c, c_mode c ∈ CONDITION_MODE_VALUES) (conditions o);
}.

Lemma choice_typed values d v k : d ∈ values → choice_prop values d v k ∈ values.
Proof. unfold choice_prop. intros Hd. destruct (json_prop v k) as [[| | |s| |]|]; try done. by case_bool_decide. Qed.

Lemma condition_typed v s c s' : returns (normalizeCondition now v) s c s' → c_mode c ∈ CONDITION_MODE_VALUES.
Proof.
  intros (i & t & _ & (u & t' & _ & [<- _]%returns_ret)%returns_bind)%returns_bind. apply choice_typed. by left.
Qed.

Lemma operation_typed v s o s' : returns (normalizeOperation now v) s o s' → typed_row o.
Proof.
  intros (i & t & _ & (u & t' & _ & (cs & t'' & Hcs & [<- _]%returns_ret)%returns_bind)%returns_bind)%returns_bind. split.
  - apply choice_typed. by left.
  - cbn [logic operation_of]. unfold logic_of. case_bool_decide; set_solver.
  - cbn [conditions operation_of]. eapply (fresh_map_Forall2 _ (λ _ c, c_mode c ∈ CONDITION_MODE_VALUES)) in Hcs;
      [|intros; by eapply condition_typed]. clear -Hcs. induction Hcs; by constructor.
Qed.

Lemma fresh_map_typed l s os s' : returns (fresh_map (normalizeOperation now) l) s os s' → Forall typed_row os.
Proof.
  intros H. eapply (fresh_map_Forall2 _ (λ _, typed_row)) in H; [|intros; by eapply operation_typed].
  clear -H. induction H; by constructor.
Qed.

Lemma rows_typed l s os s' : returns (rows_of now l) s os s' → Forall typed_row os.
Proof.
  destruct l as [|v l]; [|by apply fresh_map_typed].
  intros (o & t & Ho%operation_typed & [<- _]%returns_ret)%returns_bind. by constructor.
Qed.

(** ** Lists of rows *)

Lemma all_ids_cons o ops : all_ids (o :: ops) = op_ids o ++ all_ids ops.
Proof. done. Qed.

Lemma all_ids_app ops ops' : all_ids (ops ++ ops') = all_ids ops ++ all_ids ops'.
Proof. unfold all_ids. by rewrite map_app, concat_app. Qed.

#[global] Instance all_ids_proper : Proper ((≡ₚ) ==> (≡ₚ)) all_ids.
Proof.
  intros l l' H. induction H as [|x l l' H IH|x y l|l l' l'' _ IH1 _ IH2]; rewrite ?all_ids_cons.
  - done.
  - by rewrite IH.
  - by rewrite !(assoc_L (++)), (Permutation_app_comm (op_ids y)).
  - by rewrite IH1.
Qed.

Lemma ids_map_at i f ops : (∀ o, op_ids (f o) ⊆+ op_ids o) → all_ids (map_at i f ops) ⊆+ all_ids ops.
Proof.
  intros Hf. unfold map_at. induction ops as [|o ops IH]; [done|]. cbn [map]. rewrite !all_ids_cons.
  apply submseteq_app; [|done]. by destruct (decide _).
Qed.

Lemma ids_filter g ops : all_ids (List.filter g ops) ⊆+ all_ids ops.
Proof.
  induction ops as [|o ops IH]; [done|]. cbn [List.filter]. rewrite all_ids_cons. destruct (g o).
  - rewrite all_ids_cons. by apply submseteq_app.
  - by apply submseteq_inserts_l.
Qed.

Lemma NoDup_row_ids ops : NoDup (all_ids ops) → NoDup (map id ops).
Proof.
  induction ops as [|o ops IH]; [constructor|]. rewrite all_ids_cons. intros (H1 & H2 & H3)%NoDup_app. cbn [map].
  constructor; [|by apply IH]. intros (o' & E & Ho')%list_elem_of_fmap. apply (H2 (id o)); [by left|].
  unfold all_ids. apply elem_of_concat. exists (op_ids o'). split; [by apply list_elem_of_fmap; exists o'|rewrite E; by left].
Qed.

Lemma map_at_absent i f ops : i ∉ map id ops → map_at i f ops = ops.
Proof.
  unfold map_at. induction ops as [|o ops IH]; [done|]. cbn [map]. intros [Hi Hn]%not_elem_of_cons.
  rewrite IH by done. by rewrite decide_False by congruence.
Qed.

Lemma ids_add_condition i c ops : NoDup (map id ops) →
  all_ids (map_at i (λ o, set_conditions o (conditions o ++ [c])) ops) ⊆+ all_ids ops ++ [c_id c].
Proof.
  induction ops as [|o ops IH]; [intros _; apply submseteq_nil_l|]. cbn [map]. intros [Hi Hn]%NoDup_cons. cbn [map_at map].
  fold (map_at i (λ o, set_conditions o (conditions o ++ [c])) ops). rewrite !all_ids_cons. destruct (decide (id o = i)) as [<-|Hne].
  - rewrite map_at_absent by done. unfold op_ids. cbn [set_conditions id conditions]. rewrite map_app, <- !app_comm_cons.
    apply submseteq_skip. by rewrite <- !(assoc_L (++)), (Permutation_app_comm (map c_id [c])).
  - rewrite <- (assoc_L (++)). apply submseteq_app; [done|by apply IH].
Qed.

Lemma ids_conditions o cs : map c_id cs ⊆+ map c_id (conditions o) → op_ids (set_conditions o cs) ⊆+ op_ids o.
Proof. intros H. unfold op_ids. cbn [set_conditions id conditions]. by apply submseteq_skip. Qed.

Lemma condition_ids_filter g (cs : list ParamOverrideCondition) : map c_id (List.filter g cs) ⊆+ map c_id cs.
Proof.
  induction cs as [|c cs IH]; [done|]. cbn [List.filter map]. destruct (g c); [by apply submseteq_skip|by apply submseteq_cons].
Qed.

(** *** Moving a row *)

Lemma find_index_app l1 o l2 i : i ∉ map id l1 → id o = i → find_index i (l1 ++ o :: l2) = Some (length l1).
Proof.
  unfold find_index. induction l1 as [|x l1 IH]; cbn [app map length]; intros Hi Ho.
  - cbn. by rewrite decide_True.
  - apply not_elem_of_cons in Hi as [Hx Hi]. cbn. rewrite decide_False by congruence. specialize (IH Hi Ho).
    by destruct (list_find _ _) as [[k y]|]; simplify_eq/=.
Qed.

Lemma split_row ops o : NoDup (map id ops) → o ∈ ops →
  ∃ l1 l2, ops = l1 ++ o :: l2 ∧ find_index (id o) ops = Some (length l1) ∧ id o ∉ map id (l1 ++ l2) ∧ NoDup (map id (l1 ++ l2)).
Proof.
  intros Hn (l1 & l2 & ->)%list_elem_of_split. rewrite map_app in Hn. cbn [map] in Hn.
  rewrite <- Permutation_middle, <- map_app in Hn. apply NoDup_cons in Hn as [Hi Hn]. exists l1, l2. split_and!; try done.
  apply find_index_app; [|done]. rewrite map_app in Hi. set_solver.
Qed.

Lemma filter_others l1 o l2 : id o ∉ map id (l1 ++ l2) →
  List.filter (λ x, negb (bool_decide (id x = id o))) (l1 ++ o :: l2) = l1 ++ l2.
Proof.
  intros H. rewrite List.filter_app. cbn [List.filter]. rewrite bool_decide_eq_true_2 by done. cbn [negb].
  rewrite <- List.filter_app.
  apply bfilter_all. intros x Hx. apply negb_true_iff, bool_decide_eq_false. intros E. apply H. rewrite <- E.
  by apply list_elem_of_fmap_2.
Qed.

Lemma drop_middle {A} (l1 : list A) x l2 : drop (S (length l1)) (l1 ++ x :: l2) = l2.
Proof. by induction l1. Qed.
Lemma take_middle {A} (l1 : list A) x l2 : take (S (length l1)) (l1 ++ x :: l2) = l1 ++ [x].
Proof. induction l1 as [|y l1 IH]; [done|]. cbn [length take app]. by f_equal. Qed.

(** Dropping a row on another one keeps the order of all rows but the one
    that moves, which lands right before or right after the other. *)
Theorem reorder_moves ops o t after :
  NoDup (map id ops) → o ∈ ops → t ∈ ops → id o ≠ id t → id o ≠ [] → id t ≠ [] →
  ∃ before rest,
    reorderOperations ops (id o) (id t) after = (if after : bool then before ++ t :: o :: rest else before ++ o :: t :: rest) ∧
    List.filter (λ x, negb (bool_decide (id x = id o))) ops = before ++ t :: rest.
Proof.
  intros Hn Ho Ht Hne Hso Hst. destruct (split_row ops o Hn Ho) as (l1 & l2 & -> & Ef & Hi & Hn').
  assert (t ∈ l1 ++ l2) as Ht'.
  { rewrite elem_of_app, elem_of_cons in Ht. rewrite elem_of_app. destruct Ht as [?|[->|?]]; [by left|done|by right]. }
  destruct (split_row _ t Hn' Ht') as (m1 & m2 & Em & Ef' & _). exists m1, m2. rewrite filter_others by done. split; [|done].
  unfold reorderOperations. rewrite Ef.
  assert (negb (nonempty (id o)) || negb (nonempty (id t)) || bool_decide (id o = id t) = false) as ->.
  { rewrite bool_decide_eq_false_2 by done. destruct (id o), (id t); done. }
  rewrite list_lookup_middle by done. rewrite take_app_length, drop_middle, Ef', Em.
  destruct after; [by rewrite take_middle, drop_middle, <- (assoc_L (++))|by rewrite take_app_length, drop_app_length].
Qed.

Lemma reorder_perm ops src tgt after : reorderOperations ops src tgt after ≡ₚ ops.
Proof.
  unfold reorderOperations. destruct (_ || _); [done|]. destruct (find_index src ops) as [k|]; [|done].
  destruct (ops !! k) as [o|] eqn:Ek; [|done]. destruct (find_index tgt _) as [j|]; [|done].
  rewrite <- Permutation_middle, take_drop. rewrite Permutation_middle. by rewrite take_drop_middle.
Qed.

(** ** The invariant of the rows *)

Record rows_inv (s : N) (ops : list ParamOverrideOperation) : Prop := {
  rows_below : below s (all_ids ops);
  rows_some : ops ≠ [];
  rows_types : Forall typed_row ops;
}.

Lemma inv_from s s' ops ops' : rows_inv s ops → ids_from s s' (all_ids ops) (all_ids ops') →
  ops' ≠ [] → Forall typed_row ops' → rows_inv s' ops'.
Proof. intros [Hb _ _] Hf Hn Ht. split; [by apply (below_from s s' (all_ids ops))|done|done]. Qed.

Lemma inv_later s s' ops : (s <= s')%N → rows_inv s ops → rows_inv s' ops.
Proof.
  intros Hs H. eapply inv_from; [exact H| |apply H|apply H]. exists []. split; [|by rewrite app_nil_r].
  apply drawn_later; [done|apply drawn_nil].
Qed.

Lemma inv_map_at s i f ops : (∀ o, op_ids (f o) ⊆+ op_ids o) → (∀ o, typed_row o → typed_row (f o)) →
  rows_inv s ops → rows_inv s (map_at i f ops).
Proof.
  intros Hf Ht H. eapply inv_from; [exact H|by apply from_sub, ids_map_at| |].
  - destruct H as [_ Hn _]. by destruct ops.
  - destruct H as [_ _ Hty]. unfold map_at. apply Forall_map. eapply Forall_impl; [exact Hty|]. intros o Ho. cbn.
    destruct (decide _); [by apply Ht|done].
Qed.

Lemma typed_set_conditions o cs : typed_row o → Forall (λ c, c_mode c ∈ CONDITION_MODE_VALUES) cs → typed_row (set_conditions o cs).
Proof. by intros [H1 H2 _] H. Qed.

Lemma typed_set_value o v : typed_row o → typed_row (set_value o v).
Proof. by intros [H1 H2 H3]. Qed.

Lemma op_ids_set_value o v : op_ids (set_value o v) = op_ids o.
Proof. done. Qed.

Lemma from_menu_spec values o d : from_menu values o = true → d ∈ values → opt_or o d ∈ values.
Proof. destruct o as [m|]; [|done]. by intros H%bool_decide_eq_true. Qed.

Lemma typed_patch p o : from_menu OPERATION_MODE_VALUES (x_mode p) && from_menu [AND; OR] (x_logic p) = true →
  typed_row o → typed_row (patch_operation p o).
Proof.
  intros [Hm Hl]%andb_true_iff [H1 H2 H3]. split; cbn [mode logic conditions patch_operation]; [by apply from_menu_spec..|done].
Qed.

Lemma typed_filter ops g : Forall typed_row ops → Forall typed_row (List.filter g ops).
Proof. rewrite !Forall_forall. intros H o [Ho _]%elem_of_bfilter. by apply H. Qed.

Lemma typed_forall_filter g (cs : list ParamOverrideCondition) :
  Forall (λ c, c_mode c ∈ CONDITION_MODE_VALUES) cs → Forall (λ c, c_mode c ∈ CONDITION_MODE_VALUES) (List.filter g cs).
Proof. rewrite !Forall_forall. intros H c [Hc _]%elem_of_bfilter. by apply H. Qed.

Lemma inv_add s s' ops o : rows_inv s ops → returns (createDefaultOperation now) s o s' → rows_inv s' (ops ++ [o]).
Proof.
  intros H Ho. eapply inv_from; [exact H| | |].
  - exists (op_ids o). split; [by apply operation_ids in Ho|]. rewrite all_ids_app. unfold all_ids at 2. cbn [map concat].
    by rewrite app_nil_r.
  - by destruct ops.
  - apply Forall_app. split; [apply H|]. apply operation_typed in Ho. by constructor.
Qed.

Lemma inv_default s s' ops o : rows_inv s ops → returns (createDefaultOperation now) s o s' → rows_inv s' [o].
Proof.
  intros H Ho. eapply inv_from; [exact H| |done|].
  - apply from_fresh. unfold all_ids. cbn [map concat]. rewrite app_nil_r. by apply operation_ids in Ho.
  - apply operation_typed in Ho. by constructor.
Qed.

Lemma inv_rows s s' ops l ops' : rows_inv s ops → returns (rows_of now l) s ops' s' → rows_inv s' ops'.
Proof.
  intros H Ho. destruct (rows_ids _ _ _ _ Ho) as [Hd Hn]. eapply inv_from; [exact H|by apply from_fresh|done|].
  by apply rows_typed in Ho.
Qed.

Lemma inv_duplicate s s' d i eager d' : rows_inv s (operations_ d) → returns (duplicateOperation d i eager) s d' s' →
  rows_inv s' (operations_ d').
Proof.
  intros H. unfold duplicateOperation. destruct (list_find _ _) as [[k o]|] eqn:E; [|by intros [<- <-]%returns_ret].
  intros (c & t & Hc & [<- <-]%returns_ret)%returns_bind.
  assert (operations_ (if eager then set_selected (set_ops d (take (S k) (operations_ d) ++ c :: drop (S k) (operations_ d))) (id c)
    else set_ops d (take (S k) (operations_ d) ++ c :: drop (S k) (operations_ d))) =
    take (S k) (operations_ d) ++ c :: drop (S k) (operations_ d)) as -> by by destruct eager.
  eapply inv_from; [exact H| | |].
  - exists (op_ids c). split; [by apply operation_ids in Hc|]. rewrite <- Permutation_middle, take_drop, all_ids_cons.
    by rewrite Permutation_app_comm.
  - intros E'%app_eq_nil. by destruct E'.
  - rewrite <- Permutation_middle, take_drop. constructor; [by apply operation_typed in Hc|apply H].
Qed.

Lemma inv_remove s s' d i d' : rows_inv s (operations_ d) → returns (removeOperation d i) s d' s' → rows_inv s' (operations_ d').
Proof.
  intros H. unfold removeOperation. destruct (operations_ d) as [|o1 [|o2 ops]] eqn:E.
  1,2: intros (o & t & Ho & [<- <-]%returns_ret)%returns_bind; by apply (inv_default _ _ _ _ H Ho).
  intros [<- <-]%returns_ret. cbn [operations_ set_ops]. eapply inv_from; [exact H|by apply from_sub, ids_filter| |by apply typed_filter, H].
  destruct H as [(_ & Hn & _) _ _]. apply NoDup_row_ids in Hn. cbn [map] in Hn. apply NoDup_cons in Hn as [Hi _].
  cbn [List.filter]. destruct (decide (id o1 = i)) as [E1|E1], (decide (id o2 = i)) as [E2|E2];
    rewrite ?(bool_decide_eq_true_2 _ E1), ?(bool_decide_eq_true_2 _ E2), ?(bool_decide_eq_false_2 _ E1), ?(bool_decide_eq_false_2 _ E2); try done.
  set_solver.
Qed.

Lemma inv_add_condition s s' d i d' : rows_inv s (operations_ d) → returns (addCondition d i) s d' s' →
  rows_inv s' (operations_ d').
Proof.
  intros H (c & t & Hc & [<- <-]%returns_ret)%returns_bind. eapply inv_from; [exact H| | |].
  - exists [c_id c]. split; [by apply condition_ids in Hc|]. apply ids_add_condition, NoDup_row_ids.
    by destruct H as [(_ & Hn & _) _ _].
  - destruct H as [_ Hn _]. cbn [operations_ set_ops]. by destruct (operations_ d).
  - cbn [operations_ set_ops]. unfold map_at. apply Forall_map. eapply Forall_impl; [apply H|]. intros o Ho. cbn.
    destruct (decide _); [|done]. apply typed_set_conditions; [done|]. apply Forall_app. split; [apply Ho|].
    apply condition_typed in Hc. by constructor.
Qed.

Lemma inv_update_condition s d i ci p : from_menu CONDITION_MODE_VALUES (y_mode p) = true →
  rows_inv s (operations_ d) → rows_inv s (operations_ (updateCondition d i ci p)).
Proof.
  intros Hp. apply inv_map_at.
  - intros o. apply ids_conditions. rewrite map_map. erewrite map_ext; [done|]. intros c. by destruct (decide _).
  - intros o Ho. apply typed_set_conditions; [done|]. apply Forall_map. eapply Forall_impl; [apply Ho|]. intros c Hc. cbn.
    destruct (decide _); [|done]. by apply from_menu_spec.
Qed.

Lemma inv_remove_condition s d i ci : rows_inv s (operations_ d) → rows_inv s (operations_ (removeCondition d i ci)).
Proof.
  apply inv_map_at.
  - intros o. apply ids_conditions, condition_ids_filter.
  - intros o Ho. apply typed_set_conditions; [done|]. apply typed_forall_filter, Ho.
Qed.

(** The rows of a state whose drafts were updated differ in their texts only. *)
Lemma prune_rows f ops s ops' s' :
  (∀ o s o' s', returns (f o) s o' s' → op_ids o' = op_ids o ∧ (typed_row o → typed_row o')) →
  returns (fresh_map f ops) s ops' s' → all_ids ops' = all_ids ops ∧ (Forall typed_row ops → Forall typed_row ops') ∧
  (ops = [] ↔ ops' = []).
Proof.
  intros Hf. revert s ops'. induction ops as [|o ops IH]; intros s ops' E; [by injection E as <- <-|].
  apply returns_map_cons in E as (o' & t & zs & Ho & Hz & ->). destruct (Hf _ _ _ _ Ho) as [E1 E2].
  destruct (IH _ _ Hz) as (E3 & E4 & _). rewrite !all_ids_cons, E1, E3. split_and!; [done| |done].
  intros [H1 H2]%Forall_cons. constructor; [by apply E2|by apply E4].
Qed.

Lemma inv_prune s s' d i updater d' : (∀ draft, grows (updater draft)) → rows_inv s (operations_ d) →
  returns (updatePruneObjectsDraft d i updater) s d' s' → rows_inv s' (operations_ d').
Proof.
  intros Hu H Hr. assert (s <= s')%N as Hs.
  { pose proof (grows_prune d i updater Hu s) as Hg. by rewrite Hr in Hg. }
  apply returns_bind in Hr as (ops & t & Ho & [<- <-]%returns_ret). apply prune_rows in Ho as (E1 & E2 & E3).
  - eapply inv_from; [exact H| | |].
    + exists []. split; [apply drawn_later; [done|apply drawn_nil]|]. cbn [operations_ set_ops]. by rewrite E1, app_nil_r.
    + intros E. by apply (rows_some _ _ H), E3.
    + by apply E2, H.
  - intros o u o' u'. destruct (decide _); [|by intros [<- _]%returns_ret].
    intros (draft & ? & _ & (next & ? & _ & [<- _]%returns_ret)%returns_bind)%returns_bind. split; [done|by apply typed_set_value].
Qed.

Lemma inv_visual s s' d d' : rows_inv s (operations_ d) → returns (switchToVisualMode d) s d' s' → rows_inv s' (operations_ d').
Proof.
  intros H. unfold switchToVisualMode. destruct (editMode_ d); [by intros [<- <-]%returns_ret|].
  destruct (trim (jsonText_ d)) as [|c w].
  { intros (o & t & Ho & [<- <-]%returns_ret)%returns_bind. by apply (inv_default _ _ _ _ H Ho). }
  destruct (JSON_parse _) as [v|]; [|by intros [<- <-]%returns_ret]. destruct (operation_list v) as [l|].
  { intros (ops & t & Ho & [<- <-]%returns_ret)%returns_bind. by apply (inv_rows _ _ _ _ _ H Ho). }
  destruct v; try by intros [<- <-]%returns_ret.
  intros (op & t & Ho & [<- <-]%returns_ret)%returns_bind. by apply (inv_default _ _ _ _ H Ho).
Qed.

Lemma preset_rows key payload : preset_of key = (KOperations, payload) → template_operations payload ≠ [].
Proof.
  assert (forallb (λ kp, match kp.2 with (KOperations, p) => negb (bool_decide (length (template_operations p) = 0%nat)) | _ => true end)
    ((key, (KOperations, OPERATION_TEMPLATE)) :: TEMPLATE_PRESET_CONFIG) = true) as Hall by by vm_compute.
  unfold preset_of. intros E Hn. rewrite forallb_forall in Hall.
  assert (In (key, (KOperations, payload)) ((key, (KOperations, OPERATION_TEMPLATE)) :: TEMPLATE_PRESET_CONFIG)) as Hin.
  { destruct (obj_get key TEMPLATE_PRESET_CONFIG) as [p|] eqn:Eg; cbn in E; subst.
    - right. by apply list_elem_of_In, obj_get_Some_mem.
    - left. by rewrite <- E. }
  apply Hall in Hin. cbn [snd] in Hin. by rewrite Hn in Hin.
Qed.

Lemma inv_append s s' ops l ops' : rows_inv s ops → l ≠ [] → returns (fresh_map (normalizeOperation now) l) s ops' s' →
  ∀ g, rows_inv s' (List.filter g ops ++ ops') ∧ rows_inv s' ops'.
Proof.
  intros H Hl Hr g. assert (drawn s s' (all_ids ops')) as Hd.
  { eapply fresh_map_drawn; [|exact Hr]. intros. by eapply operation_ids. }
  apply fresh_map_typed in Hr as Ht. assert (ops' ≠ []) as Hn.
  { destruct l; [done|]. by apply returns_map_cons in Hr as (? & ? & ? & _ & _ & ->). }
  split; (eapply inv_from; [exact H| | |]).
  - exists (all_ids ops'). split; [done|]. rewrite all_ids_app. apply submseteq_app; [apply ids_filter|done].
  - by intros [_ E]%app_eq_nil.
  - apply Forall_app. split; [by apply typed_filter, H|done].
  - by apply from_fresh.
  - done.
  - done.
Qed.

Lemma inv_fill s s' d append d' : rows_inv s (operations_ d) → returns (fillTemplate d append) s d' s' →
  rows_inv s' (operations_ d').
Proof.
  intros H. unfold fillTemplate. destruct (preset_of (templatePresetKey d)) as [[] payload] eqn:Ep.
  - apply preset_rows in Ep. destruct append.
    + intros (ops & t & Ho & [<- <-]%returns_ret)%returns_bind. cbn [operations_].
      destruct (inv_append _ _ _ _ _ H Ep Ho (λ o, negb (isOperationBlank o))) as [H1 H2].
      destruct (visualMode_ d); [exact H1|exact H2].
    + intros (ops & t & Ho & [<- <-]%returns_ret)%returns_bind. by apply (inv_rows _ _ _ _ _ H Ho).
  - destruct (legacy_text d payload append); [|by intros [<- <-]%returns_ret].
    intros (op & t & Ho & [<- <-]%returns_ret)%returns_bind. by apply (inv_default _ _ _ _ H Ho).
Qed.

Lemma handle_inv s s' d e d' : possible e = true → rows_inv s (operations_ d) → returns (handle d e) s d' s' →
  rows_inv s' (operations_ d').
Proof.
  intros Hp H. destruct e as [i p| |i eager|i|i|i ci p|i ci|i p|i p|i|i r p|i r|src tgt after|i| | |append| |text| |text|key|text];
    cbn [handle possible] in *.
  - intros [<- <-]%returns_ret. apply inv_map_at; [done| |done]. intros o. by apply typed_patch.
  - intros (o & t & Ho & [<- <-]%returns_ret)%returns_bind. by apply (inv_add _ _ _ _ H Ho).
  - by apply inv_duplicate.
  - by apply inv_remove.
  - by apply inv_add_condition.
  - intros [<- <-]%returns_ret. by apply inv_update_condition.
  - intros [<- <-]%returns_ret. by apply inv_remove_condition.
  - intros [<- <-]%returns_ret. apply inv_map_at; [done| |done]. intros o. apply typed_set_value.
  - apply inv_prune; [intros; apply grows_ret|done].
  - apply inv_prune; [intros; unfold add_rule, normalizePruneRule; auto with grows|done].
  - apply inv_prune; [intros; apply grows_ret|done].
  - apply inv_prune; [intros; apply grows_ret|done].
  - intros [<- <-]%returns_ret. unfold handleDrop. destruct (_ && _); [|done]. cbn [operations_ set_selected set_ops].
    eapply inv_from; [exact H|apply from_sub; by rewrite reorder_perm| |by rewrite reorder_perm; apply H].
    intros E. pose proof (reorder_perm (operations_ d) src tgt after) as Hp'. rewrite E in Hp'.
    apply Permutation_nil_l in Hp'. by apply (rows_some _ _ H).
  - by intros [<- <-]%returns_ret.
  - intros [<- <-]%returns_ret. unfold switchToJsonMode. destruct (editMode_ d); [|done]. by destruct (buildVisualJson d) as [[e l]|].
  - by apply inv_visual.
  - by apply inv_fill.
  - intros (o & t & Ho & [<- <-]%returns_ret)%returns_bind. by apply (inv_default _ _ _ _ H Ho).
  - by intros [<- <-]%returns_ret.
  - intros [<- <-]%returns_ret. unfold formatJson. destruct (trim _); [done|]. by destruct (JSON_parse _).
  - by intros [<- <-]%returns_ret.
  - by intros [<- <-]%returns_ret.
  - intros (x & t & Hx & [<- <-]%returns_ret)%returns_bind. apply (inv_later s); [|done].
    pose proof (grows_draft text s) as Hg. by rewrite Hx in Hg.
Qed.

Lemma operations_keep d : operations_ (keep_selected d) = operations_ d.
Proof. unfold keep_selected. destruct (operations_ d) eqn:E; cbn; [done|]. by destruct (_ || _). Qed.

Lemma keep_selected_in d : operations_ d ≠ [] → selectedOperationId (keep_selected d) ∈ map id (operations_ (keep_selected d)).
Proof.
  rewrite operations_keep. unfold keep_selected. destruct (operations_ d) as [|o ops] eqn:E; [done|]. intros _.
  destruct (existsb _ (o :: ops)) eqn:Ex.
  - apply existsb_exists in Ex as (x & Hx & Ei%bool_decide_eq_true). rewrite <- Ei. by apply list_elem_of_fmap_2, list_elem_of_In.
  - cbn. by left.
Qed.

Lemma open_inv text s d s' : returns (open_dialog text) s d s' → rows_inv s' (operations_ d).
Proof.
  intros (st & t & Hst & [<- <-]%returns_ret)%returns_bind. cbn [operations_].
  assert (∀ o t, returns (createDefaultOperation now) s o t → rows_inv t [o]) as Hdef.
  { intros o u Ho. apply operation_ids in Ho as Hd. split; [|done|constructor; [by apply operation_typed in Ho|done]].
    unfold below, all_ids. cbn [map concat]. rewrite app_nil_r. destruct Hd as (Hu & Hn & Hf). split; [lia|]. split; [done|].
    eapply Forall_impl; [exact Hf|]. intros i (k & Hk & ->). exists k. split; [lia|done]. }
  revert Hst. unfold parseInitialState. destruct (trim text) as [|c w].
  { intros (o & u & Ho & [<- <-]%returns_ret)%returns_bind. by apply Hdef. }
  destruct (JSON_parse _) as [v|]; [|intros (o & u & Ho & [<- <-]%returns_ret)%returns_bind; by apply Hdef].
  destruct (operation_list v) as [l|].
  - intros (ops & u & Ho & [<- <-]%returns_ret)%returns_bind. destruct (rows_ids _ _ _ _ Ho) as [(Hu & Hn & Hf) Hne].
    split; [|done|by apply rows_typed in Ho]. split; [lia|]. split; [done|]. eapply Forall_impl; [exact Hf|].
    intros i (k & Hk & ->). exists k. split; [lia|done].
  - intros (o & u & Ho & Hr)%returns_bind. destruct v; apply returns_ret in Hr as [<- <-]; by apply Hdef.
Qed.

Lemma reachable_inv text d s : reachable text d s →
  rows_inv s (operations_ d) ∧ selectedOperationId d ∈ map id (operations_ d).
Proof.
  induction 1 as [s d s' Ho|d s e Hr [IH1 IH2] Hp].
  - apply open_inv in Ho. rewrite operations_keep. split; [done|]. rewrite <- operations_keep. apply keep_selected_in, Ho.
  - unfold step. pose proof (grows_handle d e s) as Hg. destruct (handle d e s) as [[d'|] s'] eqn:E; cbn [fst snd] in *.
    + apply (handle_inv _ _ _ _ _ Hp IH1) in E. rewrite operations_keep. split; [done|].
      rewrite <- operations_keep. apply keep_selected_in, E.
    + split; [|done]. by apply (inv_later s).
Qed.

(** C26: whatever the administrator does in the dialog, and whatever text it
    opened with, there is a row, no two rows or conditions share an id, and
    the selected row is one of the rows. *)
Theorem dialog_ids_unique text d s : reachable text d s →
  operations_ d ≠ [] ∧ NoDup (all_ids (operations_ d)) ∧ selectedOperationId d ∈ map id (operations_ d).
Proof. intros H. destruct (reachable_inv _ _ _ H) as [[(_ & Hn & _) Hne _] Hs]. by split_and!. Qed.

(** C40: every row the dialog ever holds is well typed: its mode is one of the
    known operations, its logic AND or OR, and the modes of its conditions are
    known, even where the text it was read from says otherwise. *)
Theorem dialog_rows_typed text d s : reachable text d s → Forall typed_row (operations_ d).
Proof. intros H. apply (reachable_inv _ _ _ H). Qed.

(** ** Rules of a prune operation *)

Lemma rule_ids v s r s' : returns (normalizePruneRule now v) s r s' → drawn s s' [r_id r].
Proof. intros (i & t & [= <- <-] & [<- <-]%returns_ret)%returns_bind. apply drawn_one. Qed.

Lemma rules_ids {A} (f : A → Fresh PruneRule) l s rs s' :
  (∀ x s r s', returns (f x) s r s' → drawn s s' [r_id r]) → returns (fresh_map f l) s rs s' → drawn s s' (map r_id rs).
Proof. intros Hf Hr. rewrite <- concat_singletons. eapply fresh_map_drawn; [|exact Hr]. intros. by eapply Hf. Qed.

Lemma draft_ids text s draft s' : returns (parsePruneObjectsDraft now text) s draft s' → drawn s s' (map r_id (p_rules draft)).
Proof.
  unfold parsePruneObjectsDraft. destruct (trim text) as [|c w]; [intros [<- <-]%returns_ret; apply drawn_nil|].
  destruct (JSON_parse _) as [[| | | | |parsed]|]; try by (intros [<- <-]%returns_ret; apply drawn_nil).
  intros (rules & t & Hr & [<- <-]%returns_ret)%returns_bind. cbn [p_rules].
  apply returns_bind in Hr as (ws & u & Hw & (cs & t' & Hc & [<- <-]%returns_ret)%returns_bind). rewrite map_app.
  assert (∀ kv s r s', returns (exact_rule now kv) s r s' → drawn s s' [r_id r]) as Hex by (intros; by eapply rule_ids).
  apply (drawn_app _ u); [by apply (rules_ids _ _ _ _ _ Hex Hw)|].
  destruct (obj_get (js "conditions") parsed) as [[| | | |l|o]|]; try by (apply returns_ret in Hc as [<- <-]; apply drawn_nil).
  - apply (rules_ids _ _ _ _ _ rule_ids Hc).
  - apply (rules_ids _ _ _ _ _ Hex Hc).
Qed.

(** A rule of a prune operation cannot be changed or removed in the form.
    The rules that are shown come from one reading of the row's text, the
    callbacks read it again, and the new reading has other ids: whatever the
    patch, the draft stays as it was read. *)
Theorem prune_rule_edits_lost text s shown s' r t draft t' p :
  returns (parsePruneObjectsDraft now text) s shown s' → r ∈ p_rules shown → (s' <= t)%N →
  returns (parsePruneObjectsDraft now text) t draft t' →
  update_rule (r_id r) p draft = draft ∧ remove_rule (r_id r) draft = draft.
Proof.
  intros Hs Hr Ht Hd. apply draft_ids in Hs as (_ & _ & Hs). apply draft_ids in Hd as (_ & _ & Hd).
  assert (∀ x, x ∈ p_rules draft → r_id x ≠ r_id r) as Hne.
  { rewrite Forall_forall in Hs, Hd. intros x Hx E.
    destruct (Hs (r_id r)) as (k & Hk & Ek); [by apply list_elem_of_fmap_2|].
    destruct (Hd (r_id x)) as (k' & Hk' & Ek'); [by apply list_elem_of_fmap_2|].
    assert (k = k') by (apply local_id_inj; congruence). lia. }
  destruct draft as [simple type lg rec rules]. cbn [p_rules] in Hne. unfold update_rule, remove_rule, set_rules. cbn.
  split; f_equal.
  - rewrite <- (map_id rules) at 2. apply map_ext_in. intros x Hx%list_elem_of_In. by rewrite decide_False by (by apply Hne).
  - apply bfilter_all. intros x Hx. apply negb_true_iff, bool_decide_eq_false. by apply Hne.
Qed.

(** Nor can one be added: a new rule has no path, and rules without a path are
    not written. *)
Lemma added_rule_lost draft s draft' s' : returns (add_rule draft) s draft' s' →
  buildPruneObjectsValueText draft' =
  buildPruneObjectsValueText (mkPrune false (p_typeText draft) (p_logic draft) (p_recursive draft) (p_rules draft)).
Proof.
  intros (r & t & (i & u & _ & [<- _]%returns_ret)%returns_bind & [<- _]%returns_ret)%returns_bind.
  unfold buildPruneObjectsValueText, prune_payload. cbn [p_simpleMode p_typeText p_logic p_recursive p_rules].
  rewrite List.filter_app. cbn. by rewrite app_nil_r.
Qed.

End Ids.

(** ** A run *)

(** Three rows, one of them dropped on another. *)
Definition sample_events : list Event :=
  [EAdd; EAdd; EAddCondition (local_id (λ n, n) 0); EDuplicate (local_id (λ n, n) 0) true;
   EUpdate (local_id (λ n, n) 1) (mkPatch None (Some (js "a")) (Some (js "delete")) None None None None (Some AND));
   EDrop (local_id (λ n, n) 0) (local_id (λ n, n) 2) true].

Fixpoint run (d : Dialog) (s : N) (es : list Event) : Dialog * N :=
  match es with [] => (d, s) | e :: es => let '(d, s) := step (λ n, n) d s e in run d s es end.

Definition initial (text : jsstr) : Dialog * N :=
  match open_dialog (λ n, n) text 0%N with
  | (Some d, s) => (keep_selected d, s)
  | (None, s) => (mkDialog EJson VOperations [] [] [] [] [] [], s)
  end.

Lemma run_reachable text es d s : forallb possible es = true → reachable (λ n, n) text d s →
  reachable (λ n, n) text (run d s es).1 (run d s es).2.
Proof.
  revert d s. induction es as [|e es IH]; intros d s He Hr; [done|]. cbn [forallb run] in *.
  apply andb_true_iff in He as [He Hes]. destruct (step (λ n, n) d s e) as [d' s'] eqn:E.
  apply IH; [done|]. pose proof (reach_step (λ n, n) text d s e Hr He) as Hs. by rewrite E in Hs.
Qed.

Lemma sample_reachable : let r := run (initial []).1 (initial []).2 sample_events in reachable (λ n, n) [] r.1 r.2.
Proof. apply run_reachable; [done|]. by apply (reach_open _ _ 0%N). Qed.

Lemma dialog_ids_unique_witness :
  let d := (run (initial []).1 (initial []).2 sample_events).1 in
  length (operations_ d) = 4%nat ∧ NoDup (all_ids (operations_ d)) ∧ selectedOperationId d ∈ map id (operations_ d).
Proof.
  intros d. split; [by vm_compute|]. apply (dialog_ids_unique (λ n, n) [] d _ sample_reachable).
Defined.

Lemma dialog_rows_typed_witness :
  let d := (run (initial []).1 (initial []).2 sample_events).1 in
  map mode (operations_ d) = [js "set"; js "delete"; js "set"; js "set"] ∧ Forall typed_row (operations_ d).
Proof.
  intros d. split; [by vm_compute|]. apply (dialog_rows_typed (λ n, n) [] d _ sample_reachable).
Defined.

Lemma reorder_moves_witness :
  let row i := mkOperation (js i) [] [] (js "set") [] [] [] false OR [] in
  ∃ before rest, reorderOperations [row "a"; row "b"; row "c"]%string (js "a") (js "c") true = before ++ row "c"%string :: row "a"%string :: rest.
Proof.
  intros row.
  destruct (reorder_moves [row "a"; row "b"; row "c"]%string (row "a"%string) (row "c"%string) true) as (b & r & E & _).
  - by apply (bool_decide_unpack _); vm_compute.
  - by left.
  - by do 2 right; left.
  - done.
  - done.
  - done.
  - by exists b, r.
Defined.

Lemma prune_rule_edits_lost_witness :
  let text := jq "{`conditions`:[{`path`:`type`,`mode`:`full`,`value`:`x`}]}" in
  ∃ r draft t', returns (parsePruneObjectsDraft (λ n, n) text) 5%N draft t' ∧ p_rules draft ≠ [] ∧
  remove_rule (r_id r) draft = draft.
Proof.
  intros text.
  destruct (parsePruneObjectsDraft (λ n, n) text 0%N) as [[shown|] s'] eqn:Es; [|by vm_compute in Es].
  destruct (parsePruneObjectsDraft (λ n, n) text 5%N) as [[draft|] t'] eqn:Ed; [|by vm_compute in Ed].
  destruct (p_rules shown) as [|r rs] eqn:Er; [by vm_compute in Es; injection Es as <- <-|].
  exists r, draft, t'. split; [done|]. split; [by vm_compute in Ed; injection Ed as <- <-|].
  apply (prune_rule_edits_lost (λ n, n) text 0%N shown s' r 5%N draft t' (mkCPatch None None None None None)).
  - done.
  - rewrite Er. by left.
  - vm_compute in Es. by injection Es as <- <-.
  - done.
Defined.

End Editor.
