(* ===== verification/ChannelForm.v ===== *)
(** * The form of a channel

    What happens between a channel of the server and the form that edits it
    ([features/channels/lib/channel-form.ts] and [advanced-custom.ts]): the
    values the form opens with, the two JSON columns it writes back, the
    payloads for creating and updating.  A channel, the values of the form and
    a payload are objects of JSON values; a missing property is [undefined].
    The rules of the form library are left out, the refinement that the source
    writes itself is here. *)
From S2P Require Import Prelude JSString JSNumber JSON JSONText Regex.

(** [o.k] *)
Definition fld (o : obj json) (k : string) : option json := obj_get (js k) o.

(** [v || d] and [v ?? d] *)
Definition or_else (v : option json) (d : json) : json :=
  match v with Some x => if json_truthy x then x else d | None => d end.
Definition nullish (v : option json) (d : json) : json :=
  match v with None | Some JNull => d | Some x => x end.
(** [v === true] *)
Definition is_true (v : option json) : bool :=
  match v with Some (JBool b) => b | _ => false end.

Definition EMPTY : json := JStr [].
Definition FALSE : json := JBool false.

(** A field of type string. *)
Definition text_fld (o : obj json) (k : string) : jsstr :=
  match fld o k with Some (JStr s) => s | _ => [] end.

Module AdvancedCustom.

(** ** Advanced custom channels *)

Definition CHANNEL_TYPE_ADVANCED_CUSTOM : Z := 59.
Definition ADVANCED_CUSTOM_MODEL_LIST_PATH : jsstr := js "/v1/models".

Definition route (incoming upstream : jsstr) : json :=
  JObj [(js "incoming_path", JStr incoming); (js "upstream_path", JStr upstream);
        (js "converter", JStr (js "none"))].

Definition createAdvancedCustomConfig : json :=
  JObj [(js "advanced_routes",
    JArr [route (js "/v1/chat/completions") (js "/v1/chat/completions");
          route ADVANCED_CUSTOM_MODEL_LIST_PATH ADVANCED_CUSTOM_MODEL_LIST_PATH])].

Definition stringifyAdvancedCustomConfig (config : json) : jsstr := JSON_stringify_2 config.

Definition parseAdvancedCustomConfig (value : option jsstr) : option (obj json) :=
  match value with
  | None => None
  | Some value =>
      if bool_decide (trim value = []) then None
      else match JSON_parse value with Some (JObj parsed) => Some parsed | _ => None end
  end.

(** [v.k?.startsWith(p)], absent where it throws: on a [v] that is [null] and
    on a property that is no string. *)
Definition starts (v : json) (k : string) (p : jsstr) : option bool :=
  match v with
  | JNull => None
  | _ => match json_prop v (js k) with
         | None | Some JNull => Some false
         | Some (JStr s) => Some (starts_with p s)
         | Some _ => None
         end
  end.

(** [/^https?:\/\//] *)
Definition URL_START : regex :=
  (RStart · lit (js "http") · ROpt (lit (js "s")) · lit (js "://"))%re.

Definition bad_incoming : jsstr := js "Incoming path must start with /".
Definition bad_upstream : jsstr := js "Upstream path must be a full URL or start with /".

(** The loop over the routes; the outer [option] is an exception. *)
Fixpoint check_routes (routes : list json) : option (option jsstr) :=
  match routes with
  | [] => Some None
  | r :: routes =>
      match starts r "incoming_path" (js "/") with
      | None => None
      | Some false => Some (Some bad_incoming)
      | Some true =>
          match starts r "upstream_path" (js "/") with
          | None => None
          | Some true => check_routes routes
          | Some false =>
              let path := match json_prop r (js "upstream_path") with Some (JStr s) => s | _ => [] end in
              if re_test URL_START path then check_routes routes else Some (Some bad_upstream)
          end
      end
  end.

Definition validateAdvancedCustomConfig (config : option (obj json)) : option (option jsstr) :=
  match config with
  | None => Some (Some (js "Advanced custom configuration is required"))
  | Some config =>
      match fld config "advanced_routes" with
      | Some (JArr routes) =>
          match routes with
          | [] => Some (Some (js "Advanced custom configuration requires at least one route"))
          | _ => check_routes routes
          end
      | _ => Some (Some (js "Advanced custom configuration is required"))
      end
  end.

(** [routes.some(test)] with a test that may throw. *)
Fixpoint some_route (test : json → option bool) (routes : list json) : option bool :=
  match routes with
  | [] => Some false
  | r :: routes =>
      match test r with None => None | Some true => Some true | Some false => some_route test routes end
  end.

(** [config?.advanced_routes?.some(test)]: what is there and no array has no
    [some]. *)
Definition some_of (test : json → option bool) (config : option (obj json)) : option bool :=
  match config with
  | None => Some false
  | Some config =>
      match fld config "advanced_routes" with
      | None | Some JNull => Some false
      | Some (JArr routes) => some_route test routes
      | Some _ => None
      end
  end.

Definition advancedCustomConfigUsesRelativeUpstreamPath (config : option (obj json)) : option bool :=
  some_of (λ r, starts r "upstream_path" (js "/")) config.

Definition hasAdvancedCustomModelListRoute (config : option (obj json)) : option bool :=
  some_of (λ r,
    match r with
    | JNull => None
    | _ => Some (bool_decide (json_prop r (js "incoming_path") = Some (JStr ADVANCED_CUSTOM_MODEL_LIST_PATH))
                 && bool_decide (json_prop r (js "converter") = Some (JStr (js "none"))))
    end) config.

End AdvancedCustom.

Module Form.
Import AdvancedCustom.

(** ** The values of the form *)

Definition ENABLED : Z := 1.
Definition MODEL_FETCHABLE_TYPES : list Z :=
  [1; 4; 14; 17; 20; 23; 24; 25; 26; 27; 31; 34; 35; 40; 42; 43; 47; 48; 57; 59]%Z.

Definition jint (z : Z) : json := JNum (num_of_Z z).

(** [data.type], a whole number. *)
Definition type_of (f : obj json) : Z :=
  match fld f "type" with Some (JNum n) => opt_or (num_integer n) (-1)%Z | _ => (-1)%Z end.

(** The refinement of the schema: the path and the message of each issue;
    [None] is an exception. *)
Definition num_fld (f : obj json) (k : string) : option num :=
  match fld f k with Some (JNum n) => Some n | _ => None end.

Definition threshold_issues (data : obj json) : list (jsstr * jsstr) :=
  match num_fld data "verify_auto_disable_below", num_fld data "verify_auto_enable_above" with
  | Some lo, Some hi =>
      if num_ltb hi lo
      then [(js "verify_auto_enable_above", js "Auto-enable threshold must be >= auto-disable threshold")]
      else []
  | _, _ => []
  end.

Definition superRefine (data : obj json) : option (list (jsstr * jsstr)) :=
  let issues := threshold_issues data in
  if negb (type_of data =? CHANNEL_TYPE_ADVANCED_CUSTOM)%Z then Some issues else
  let config := parseAdvancedCustomConfig (fld data "advanced_custom" ≫= as_string) in
  match validateAdvancedCustomConfig config with
  | None => None
  | Some error =>
      let issues := issues ++
        match error with Some e => [(js "advanced_custom", e)] | None => [] end in
      match advancedCustomConfigUsesRelativeUpstreamPath config with
      | None => None
      | Some relative =>
          let issues := issues ++
            (if relative && bool_decide (trim (text_fld data "base_url") = [])
             then [(js "base_url", js "Base URL is required when routes use relative paths")] else []) in
          if negb (is_true (fld data "upstream_model_update_check_enabled")) then Some issues
          else match hasAdvancedCustomModelListRoute config with
               | None => None
               | Some has => Some (issues ++
                   if has then [] else
                   [(js "advanced_custom", js "A native /v1/models route is required for model checks")])
               end
      end
  end.

Definition CHANNEL_FORM_DEFAULT_VALUES : obj json :=
  [(js "name", EMPTY); (js "type", jint 1); (js "base_url", EMPTY); (js "key", EMPTY);
   (js "openai_organization", EMPTY); (js "models", EMPTY);
   (js "group", JArr [JStr (js "default")]); (js "model_mapping", EMPTY);
   (js "priority", jint 0); (js "weight", jint 0); (js "test_model", EMPTY);
   (js "auto_ban", jint 1); (js "status", jint ENABLED); (js "status_code_mapping", EMPTY);
   (js "tag", EMPTY); (js "remark", EMPTY); (js "setting", EMPTY); (js "param_override", EMPTY);
   (js "header_override", EMPTY); (js "settings", JStr (js "{}")); (js "other", EMPTY);
   (js "multi_key_mode", JStr (js "single")); (js "multi_key_type", JStr (js "random"));
   (js "batch_add_set_key_prefix_2_name", FALSE); (js "key_mode", JStr (js "append"));
   (js "force_format", FALSE); (js "thinking_to_content", FALSE); (js "proxy", EMPTY);
   (js "pass_through_body_enabled", FALSE); (js "system_prompt", EMPTY);
   (js "system_prompt_override", FALSE); (js "disable_no_output_refund", FALSE);
   (js "backup_base_urls", EMPTY); (js "block_apology_enabled", FALSE);
   (js "block_low_token_enabled", FALSE); (js "skip_auto_test", FALSE);
   (js "is_enterprise_account", FALSE); (js "vertex_key_type", JStr (js "json"));
   (js "aws_key_type", JStr (js "ak_sk")); (js "azure_responses_version", EMPTY);
   (js "allow_service_tier", FALSE); (js "disable_store", FALSE);
   (js "allow_safety_identifier", FALSE); (js "allow_include_obfuscation", FALSE);
   (js "allow_inference_geo", FALSE); (js "allow_speed", FALSE); (js "claude_beta_query", FALSE);
   (js "claude_thinking_adaptive_compat", FALSE); (js "claude_thinking_signature_strip", FALSE);
   (js "claude_strip_server_tools_compat", FALSE); (js "claude_filter_beta_header_compat", FALSE);
   (js "upstream_model_update_check_enabled", FALSE);
   (js "upstream_model_update_auto_sync_enabled", FALSE);
   (js "upstream_model_update_ignored_models", EMPTY); (js "advanced_custom", EMPTY);
   (js "routing_mode", jint 0); (js "capacity_limit", JNull); (js "capacity_window_sec", JNull);
   (js "capacity_full_strategy", JNull); (js "retry_strategy", jint 0); (js "cache_domain", EMPTY);
   (js "ratio_panel_url", EMPTY); (js "ratio_upstream_group", EMPTY); (js "ratio_expected", JNull);
   (js "verify_interval_minutes", JNull); (js "verify_auto_disable_below", JNull);
   (js "verify_auto_enable_above", JNull)].

Definition createChannelFormDefaults (blockApology blockLowToken : option json) : obj json :=
  obj_assign CHANNEL_FORM_DEFAULT_VALUES
    [(js "block_apology_enabled", JBool (is_true blockApology));
     (js "block_low_token_enabled", JBool (is_true blockLowToken))].

(** ** Lists in one text *)

Definition parseModels (models : jsstr) : list jsstr := split_trim 44%N models.
Definition parseGroups (groups : jsstr) : list jsstr := split_trim 44%N groups.
Definition formatModels (models : list jsstr) : jsstr := join (js ",") models.
Definition formatGroups (groups : list jsstr) : jsstr := join (js ",") groups.
Definition parseBackupBaseUrls (value : jsstr) : list jsstr := split_trim 10%N value.

(** [Array.isArray(v) ? v.join(sep) : ''] *)
Definition join_values (sep : jschar) (v : option json) : jsstr :=
  match v with
  | Some (JArr l) =>
      join [sep] (map (λ x, match x with JNull => [] | _ => json_to_string x end) l)
  | _ => []
  end.

(** ** From the channel to the form *)

(** [extraSettings]: its initial value and what a parsed setting gives. *)
Definition no_extra : obj json :=
  [(js "force_format", FALSE); (js "thinking_to_content", FALSE); (js "proxy", EMPTY);
   (js "pass_through_body_enabled", FALSE); (js "system_prompt", EMPTY);
   (js "system_prompt_override", FALSE); (js "disable_no_output_refund", FALSE);
   (js "backup_base_urls", EMPTY); (js "block_apology_enabled", FALSE);
   (js "block_low_token_enabled", FALSE); (js "skip_auto_test", FALSE)].

Definition extra_of (p : string → option json) : obj json :=
  [(js "force_format", or_else (p "force_format") FALSE);
   (js "thinking_to_content", or_else (p "thinking_to_content") FALSE);
   (js "proxy", or_else (p "proxy") EMPTY);
   (js "pass_through_body_enabled", or_else (p "pass_through_body_enabled") FALSE);
   (js "system_prompt", or_else (p "system_prompt") EMPTY);
   (js "system_prompt_override", or_else (p "system_prompt_override") FALSE);
   (js "disable_no_output_refund", JBool (is_true (p "disable_no_output_refund")));
   (js "backup_base_urls", JStr (join_values 10%N (p "backup_base_urls")));
   (js "block_apology_enabled", JBool (is_true (p "block_apology_enabled")));
   (js "block_low_token_enabled", JBool (is_true (p "block_low_token_enabled")));
   (js "skip_auto_test", JBool (is_true (p "skip_auto_test")))]%string.

(** [JSON.parse] in its [try]; a read of a property of [null] throws too. *)
Definition parsed_column (c : obj json) (k : string) : option json :=
  match text_fld c k with
  | [] => None
  | t => match JSON_parse t with Some JNull | None => None | Some v => Some v end
  end.

Definition extraSettings (c : obj json) : obj json :=
  match parsed_column c "setting" with
  | None => no_extra
  | Some parsed => extra_of (λ k, json_prop parsed (js k))
  end.

(** The variables of the type-specific settings. *)
Definition typed_of (p : string → option json) : obj json :=
  [(js "is_enterprise_account", JBool (is_true (p "openrouter_enterprise")));
   (js "vertex_key_type", or_else (p "vertex_key_type") (JStr (js "json")));
   (js "azure_responses_version", or_else (p "azure_responses_version") EMPTY);
   (js "aws_key_type", or_else (p "aws_key_type") (JStr (js "ak_sk")));
   (js "allow_service_tier", JBool (is_true (p "allow_service_tier")));
   (js "disable_store", JBool (is_true (p "disable_store")));
   (js "allow_include_obfuscation", JBool (is_true (p "allow_include_obfuscation")));
   (js "allow_inference_geo", JBool (is_true (p "allow_inference_geo")));
   (js "allow_speed", JBool (is_true (p "allow_speed")));
   (js "claude_beta_query", JBool (is_true (p "claude_beta_query")));
   (js "claude_thinking_adaptive_compat", JBool (is_true (p "claude_thinking_adaptive_compat")));
   (js "claude_thinking_signature_strip", JBool (is_true (p "claude_thinking_signature_strip")));
   (js "claude_strip_server_tools_compat", JBool (is_true (p "claude_strip_server_tools_compat")));
   (js "claude_filter_beta_header_compat", JBool (is_true (p "claude_filter_beta_header_compat")));
   (js "allow_safety_identifier", JBool (is_true (p "allow_safety_identifier")));
   (js "upstream_model_update_check_enabled", JBool (is_true (p "upstream_model_update_check_enabled")));
   (js "upstream_model_update_auto_sync_enabled", JBool (is_true (p "upstream_model_update_auto_sync_enabled")));
   (js "upstream_model_update_ignored_models", JStr (join_values 44%N (p "upstream_model_update_ignored_models")));
   (js "advanced_custom",
     match p "advanced_custom" with
     | Some v => if json_truthy v then JStr (stringifyAdvancedCustomConfig v) else EMPTY
     | None => EMPTY
     end)]%string.

Definition typedSettings (c : obj json) : obj json :=
  match parsed_column c "settings" with
  | None => typed_of (λ _, None)
  | Some parsed => typed_of (λ k, json_prop parsed (js k))
  end.

(** [channel.channel_info.multi_key_mode], absent where the read throws. *)
Definition multi_key_mode (c : obj json) : option (option json) :=
  match fld c "channel_info" with
  | None | Some JNull => None
  | Some info => Some (json_prop info (js "multi_key_mode"))
  end.

(** A property that is copied as it is, [undefined] included. *)
Definition copy (c : obj json) (k : string) : obj json :=
  match fld c k with Some v => [(js k, v)] | None => [] end.

(** The object that is returned. *)
Definition opened (c : obj json) (mode : option json) : obj json :=
   ([(js "name", or_else (fld c "name") EMPTY)] ++ copy c "type" ++
    [(js "base_url", or_else (fld c "base_url") EMPTY);
     (js "key", EMPTY);
     (js "openai_organization", or_else (fld c "openai_organization") EMPTY);
     (js "models", or_else (fld c "models") EMPTY);
     (js "group", JArr (map JStr (parseGroups (str_or (text_fld c "group") (js "default")))));
     (js "model_mapping", or_else (fld c "model_mapping") EMPTY);
     (js "priority", or_else (fld c "priority") (jint 0));
     (js "weight", or_else (fld c "weight") (jint 0));
     (js "test_model", or_else (fld c "test_model") EMPTY);
     (js "auto_ban", nullish (fld c "auto_ban") (jint 1))] ++ copy c "status" ++
    [(js "status_code_mapping", or_else (fld c "status_code_mapping") EMPTY);
     (js "tag", or_else (fld c "tag") EMPTY);
     (js "remark", or_else (fld c "remark") EMPTY);
     (js "setting", or_else (fld c "setting") EMPTY);
     (js "param_override", or_else (fld c "param_override") EMPTY);
     (js "header_override", or_else (fld c "header_override") EMPTY);
     (js "settings", or_else (fld c "settings") (JStr (js "{}")));
     (js "other", or_else (fld c "other") EMPTY);
     (js "multi_key_mode", JStr (js "single"));
     (js "multi_key_type", or_else mode (JStr (js "random")));
     (js "batch_add_set_key_prefix_2_name", FALSE);
     (js "key_mode", JStr (js "append"))] ++
    extraSettings c ++ typedSettings c ++
    [(js "routing_mode", nullish (fld c "routing_mode") (jint 0));
     (js "capacity_limit", nullish (fld c "capacity_limit") JNull);
     (js "capacity_window_sec", nullish (fld c "capacity_window_sec") JNull);
     (js "capacity_full_strategy", nullish (fld c "capacity_full_strategy") JNull);
     (js "retry_strategy", nullish (fld c "retry_strategy") (jint 0));
     (js "cache_domain", nullish (fld c "cache_domain") EMPTY);
     (js "ratio_panel_url", nullish (fld c "ratio_panel_url") EMPTY);
     (js "ratio_upstream_group", nullish (fld c "ratio_upstream_group") EMPTY);
     (js "ratio_expected", nullish (fld c "ratio_expected") JNull);
     (js "verify_interval_minutes", nullish (fld c "verify_interval_minutes") JNull);
     (js "verify_auto_disable_below", nullish (fld c "verify_auto_disable_below") JNull);
     (js "verify_auto_enable_above", nullish (fld c "verify_auto_enable_above") JNull)]).

Definition transformChannelToFormDefaults (c : obj json) : option (obj json) :=
  match multi_key_mode c with
  | None => None
  | Some mode => Some (opened c mode)
  end.

(** ** From the form to the columns *)

(** The original setting of the channel, which the managed keys overwrite. *)
Definition setting_base (f : obj json) : obj json :=
  match text_fld f "setting" with
  | [] => []
  | t => match JSON_parse t with Some (JObj parsed) => parsed | _ => [] end
  end.

Definition managed_setting (f : obj json) : obj json :=
  [(js "force_format", or_else (fld f "force_format") FALSE);
   (js "thinking_to_content", or_else (fld f "thinking_to_content") FALSE);
   (js "proxy", or_else (fld f "proxy") EMPTY);
   (js "pass_through_body_enabled", or_else (fld f "pass_through_body_enabled") FALSE);
   (js "system_prompt", or_else (fld f "system_prompt") EMPTY);
   (js "system_prompt_override", or_else (fld f "system_prompt_override") FALSE);
   (js "disable_no_output_refund", or_else (fld f "disable_no_output_refund") FALSE);
   (js "backup_base_urls", JArr (map JStr (parseBackupBaseUrls (text_fld f "backup_base_urls"))));
   (js "block_apology_enabled", or_else (fld f "block_apology_enabled") FALSE);
   (js "block_low_token_enabled", or_else (fld f "block_low_token_enabled") FALSE);
   (js "skip_auto_test", or_else (fld f "skip_auto_test") FALSE)].

Definition settingObj (f : obj json) : obj json := obj_assign (setting_base f) (managed_setting f).
Definition buildSettingJSON (f : obj json) : jsstr := JSON_stringify (JObj (settingObj f)).

(** [if (c) o.k = v; else if (k in o) delete o.k] *)
Definition set_or_drop (c : bool) (k : string) (v : json) (o : obj json) : obj json :=
  if c then obj_set (js k) v o else obj_delete (js k) o.

Definition flag (f : obj json) (k : string) : json := JBool (is_true (fld f k)).

Definition type_settings (f : obj json) (o : obj json) : obj json :=
  let t := type_of f in
  let o := set_or_drop (t =? 41)%Z "vertex_key_type"
    (or_else (fld f "vertex_key_type") (JStr (js "json"))) o in
  let version := or_else (fld f "azure_responses_version") EMPTY in
  let o := set_or_drop ((t =? 3)%Z && json_truthy version) "azure_responses_version" version o in
  let o := set_or_drop (t =? 20)%Z "openrouter_enterprise" (flag f "is_enterprise_account") o in
  set_or_drop (t =? 33)%Z "aws_key_type" (or_else (fld f "aws_key_type") (JStr (js "ak_sk"))) o.

(** The controls of fields passed through to OpenAI (1) and Anthropic (14). *)
Definition passthrough_settings (f : obj json) (o : obj json) : obj json :=
  let t := type_of f in
  let o := set_or_drop ((t =? 1) || (t =? 14))%Z "allow_service_tier" (flag f "allow_service_tier") o in
  let o := set_or_drop (t =? 1)%Z "disable_store" (flag f "disable_store") o in
  let o := set_or_drop (t =? 1)%Z "allow_safety_identifier" (flag f "allow_safety_identifier") o in
  let o := set_or_drop (t =? 1)%Z "allow_include_obfuscation" (flag f "allow_include_obfuscation") o in
  let o := set_or_drop ((t =? 1) || (t =? 14))%Z "allow_inference_geo" (flag f "allow_inference_geo") o in
  let o := set_or_drop (t =? 14)%Z "allow_speed" (flag f "allow_speed") o in
  let o := set_or_drop (t =? 14)%Z "claude_beta_query" (flag f "claude_beta_query") o in
  let o := set_or_drop (t =? 14)%Z "claude_thinking_adaptive_compat"
    (flag f "claude_thinking_adaptive_compat") o in
  let o := set_or_drop (t =? 14)%Z "claude_thinking_signature_strip"
    (flag f "claude_thinking_signature_strip") o in
  let o := set_or_drop (t =? 14)%Z "claude_strip_server_tools_compat"
    (flag f "claude_strip_server_tools_compat") o in
  set_or_drop (t =? 14)%Z "claude_filter_beta_header_compat"
    (flag f "claude_filter_beta_header_compat") o.

(** The settings of the check for new upstream models: what was detected is
    kept while the check is on, a missing time becomes 0. *)
Definition detected_settings (check : bool) (o : obj json) : obj json :=
  let k := js "upstream_model_update_last_detected_models" in
  match obj_get k o with
  | Some (JArr _) => if check then o else obj_set k (JArr []) o
  | _ => obj_set k (JArr []) o
  end.

Definition time_settings (o : obj json) : obj json :=
  let k := js "upstream_model_update_last_check_time" in
  match obj_get k o with Some (JNum _) => o | _ => obj_set k (jint 0) o end.

Definition upstream_settings (f : obj json) (o : obj json) : obj json :=
  let check := is_true (fld f "upstream_model_update_check_enabled") in
  let o := obj_set (js "upstream_model_update_check_enabled") (JBool check) o in
  let o := obj_set (js "upstream_model_update_auto_sync_enabled")
    (JBool (check && is_true (fld f "upstream_model_update_auto_sync_enabled"))) o in
  let o := obj_set (js "upstream_model_update_ignored_models")
    (JArr (map JStr (uniq (split_trim 44%N (text_fld f "upstream_model_update_ignored_models"))))) o in
  time_settings (detected_settings check o).

Definition advanced_settings (f : obj json) (o : obj json) : obj json :=
  if (type_of f =? CHANNEL_TYPE_ADVANCED_CUSTOM)%Z then
    match parseAdvancedCustomConfig (fld f "advanced_custom" ≫= as_string) with
    | Some config => obj_set (js "advanced_custom") (JObj config) o
    | None => o
    end
  else obj_delete (js "advanced_custom") o.

Definition settingsObj (f : obj json) (o : obj json) : obj json :=
  let o := passthrough_settings f (type_settings f o) in
  advanced_settings f
    (if bool_decide (type_of f ∈ MODEL_FETCHABLE_TYPES) then upstream_settings f o else o).

(** What the function starts from. *)
Definition settings_base (f : obj json) : json :=
  let t := text_fld f "settings" in
  if bool_decide (t = []) || bool_decide (t = js "{}") then JObj []
  else opt_or (JSON_parse t) (JObj []).

(** The properties set on an array are not printed; on [null] and on a
    primitive value the operator [in] throws. *)
Definition buildSettingsJSON (f : obj json) : option jsstr :=
  match settings_base f with
  | JObj o => Some (JSON_stringify (JObj (settingsObj f o)))
  | JArr l => Some (JSON_stringify (JArr l))
  | _ => None
  end.

(** ** Payloads *)

(** The empty texts of an object become [null]. *)
Definition empty_to_null (o : obj json) : obj json :=
  map (λ kv, (kv.1, if bool_decide (kv.2 = EMPTY) then JNull else kv.2)) o.

Definition group_text (f : obj json) : json :=
  JStr (join_values 44%N (fld f "group")).

(** The columns that both payloads send in the same way. *)
Definition common_columns (f : obj json) (settings : jsstr) : obj json :=
  copy f "name" ++ copy f "type" ++
  [(js "base_url", or_else (fld f "base_url") JNull);
   (js "openai_organization", or_else (fld f "openai_organization") JNull)] ++
  copy f "models" ++
  [(js "group", group_text f);
   (js "model_mapping", or_else (fld f "model_mapping") JNull);
   (js "priority", or_else (fld f "priority") JNull);
   (js "weight", or_else (fld f "weight") JNull);
   (js "test_model", or_else (fld f "test_model") JNull);
   (js "auto_ban", nullish (fld f "auto_ban") (jint 1))] ++ copy f "status" ++
  [(js "status_code_mapping", or_else (fld f "status_code_mapping") JNull);
   (js "tag", or_else (fld f "tag") JNull);
   (js "remark", or_else (fld f "remark") EMPTY);
   (js "setting", JStr (buildSettingJSON f));
   (js "param_override", or_else (fld f "param_override") JNull);
   (js "header_override", or_else (fld f "header_override") JNull);
   (js "settings", JStr settings);
   (js "other", or_else (fld f "other") EMPTY);
   (js "routing_mode", nullish (fld f "routing_mode") (jint 0));
   (js "capacity_limit", nullish (fld f "capacity_limit") JNull);
   (js "capacity_window_sec", nullish (fld f "capacity_window_sec") JNull);
   (js "retry_strategy", nullish (fld f "retry_strategy") (jint 0));
   (js "verify_interval_minutes", nullish (fld f "verify_interval_minutes") JNull);
   (js "verify_auto_disable_below", nullish (fld f "verify_auto_disable_below") JNull);
   (js "verify_auto_enable_above", nullish (fld f "verify_auto_enable_above") JNull)].

Record CreatePayload := mkCreate {
  mode : json;
  create_multi_key_mode : option json;
  batch_prefix : option json;
  channel : obj json;
}.

Definition transformFormDataToCreatePayload (f : obj json) : option CreatePayload :=
  match buildSettingsJSON f with
  | None => None
  | Some settings =>
      let mode := or_else (fld f "multi_key_mode") (JStr (js "single")) in
      Some (mkCreate mode
        (if bool_decide (mode = JStr (js "multi_to_single")) then fld f "multi_key_type" else None)
        (if bool_decide (mode = JStr (js "batch")) then fld f "batch_add_set_key_prefix_2_name" else None)
        (empty_to_null (common_columns f settings ++ copy f "key" ++
          [(js "capacity_full_strategy", or_else (fld f "capacity_full_strategy") JNull);
           (js "cache_domain", or_else (fld f "cache_domain") JNull);
           (js "ratio_panel_url", or_else (fld f "ratio_panel_url") JNull);
           (js "ratio_upstream_group", or_else (fld f "ratio_upstream_group") JNull);
           (js "ratio_expected", nullish (fld f "ratio_expected") JNull)])))
  end.

(** The texts an update sends even when they are empty. *)
Definition explicit_texts : list string :=
  ["model_mapping"; "status_code_mapping"; "param_override"; "header_override"; "cache_domain";
   "ratio_panel_url"; "ratio_upstream_group"; "capacity_full_strategy"]%string.

Definition send_explicit (f : obj json) (payload : obj json) : obj json :=
  foldl (λ o k, obj_set (js k) (or_else (fld f k) EMPTY) o) payload explicit_texts.

Definition transformFormDataToUpdatePayload (f : obj json) (channelId : Z) : option (obj json) :=
  match buildSettingsJSON f with
  | None => None
  | Some settings =>
      let payload := (js "id", jint channelId) :: common_columns f settings in
      let key := text_fld f "key" in
      let payload :=
        if bool_decide (trim key = []) then payload else obj_set (js "key") (JStr key) payload in
      let payload := send_explicit f (empty_to_null payload) in
      Some (obj_set (js "ratio_expected") (nullish (fld f "ratio_expected") JNull) payload)
  end.

(** ** Checks *)

Definition validateJSON (value : jsstr) : bool :=
  bool_decide (trim value = []) || match JSON_parse value with Some _ => true | None => false end.

Definition validateModelMapping (value : jsstr) : bool :=
  if bool_decide (trim value = []) then true else validateJSON value.

(** ** Looking fields up *)

Lemma get_copy c k k' : obj_get k' (copy c k) = if decide (k' = js k) then fld c k else None.
Proof.
  unfold copy, fld. destruct (obj_get (js k) c) as [v|]; simpl; by destruct (decide _).
Qed.

Lemma get_copy_ne c k k' : k' ≠ js k → obj_get k' (copy c k) = None.
Proof. intros. rewrite get_copy. by rewrite decide_False. Qed.

Lemma get_empty_to_null k o :
  obj_get k (empty_to_null o) =
  (λ v, if bool_decide (v = EMPTY) then JNull else v) <$> obj_get k o.
Proof.
  unfold empty_to_null. induction o as [|[k' v] o IH]; simpl; [done|].
  by destruct (decide (k = k')).
Qed.

(** Evaluates a lookup in a list of columns. *)
Ltac column :=
  unfold fld, common_columns; rewrite ?obj_get_app, ?get_copy_ne by (vm_compute; discriminate); reflexivity.

Lemma get_send_explicit f o k :
  obj_get k (send_explicit f o) =
  match List.find (λ k', bool_decide (js k' = k)) explicit_texts with
  | Some k' => Some (or_else (fld f k') EMPTY)
  | None => obj_get k o
  end.
Proof.
  unfold send_explicit. cbn [foldl explicit_texts List.find]. rewrite !obj_get_set.
  repeat case_bool_decide; repeat case_decide; try congruence; subst; try done;
  repeat match goal with H : js _ = js _ |- _ => vm_compute in H; discriminate H end.
Qed.

(** What the update sends for a column. *)
Lemma get_update f id p settings k :
  transformFormDataToUpdatePayload f id = Some p → buildSettingsJSON f = Some settings →
  js k ≠ js "key" →
  fld p k =
  if decide (js k = js "ratio_expected") then Some (nullish (fld f "ratio_expected") JNull)
  else match List.find (λ k', bool_decide (js k' = js k)) explicit_texts with
       | Some k' => Some (or_else (fld f k') EMPTY)
       | None => (λ v, if bool_decide (v = EMPTY) then JNull else v) <$>
                 fld ((js "id", jint id) :: common_columns f settings) k
       end.
Proof.
  intros Hp Hs Hk. unfold transformFormDataToUpdatePayload in Hp. rewrite Hs in Hp.
  injection Hp as <-. unfold fld at 1. rewrite obj_get_set. destruct (decide _); [done|].
  rewrite get_send_explicit. destruct (List.find _ _); [done|]. rewrite get_empty_to_null.
  case_bool_decide; [done|]. by rewrite obj_get_set_ne.
Qed.

(** ** What an update does on the server *)

(** The columns that are pointers in the type [Channel] of the server
    ([model/channel.go]), among those the form sends. *)
Definition pointer_columns : list string :=
  ["openai_organization"; "test_model"; "weight"; "base_url"; "model_mapping";
   "status_code_mapping"; "priority"; "auto_ban"; "tag"; "setting"; "param_override";
   "header_override"; "remark"; "routing_mode"; "capacity_limit"; "capacity_window_sec";
   "capacity_full_strategy"; "retry_strategy"; "cache_domain"; "ratio_panel_url";
   "ratio_upstream_group"; "ratio_expected"; "verify_interval_minutes";
   "verify_auto_disable_below"; "verify_auto_enable_above"]%string.

(** The database library's [Updates] with a struct: columns whose value is nil
    are left alone, a pointer that is not nil is written whatever it points
    to. *)
Class GormUpdates (updates : obj json → obj json → obj json) : Prop := {
  updates_nil stored p k :
    obj_get k p = Some JNull → obj_get k (updates stored p) = obj_get k stored;
  updates_pointer stored p k v :
    k ∈ pointer_columns → obj_get (js k) p = Some v → v ≠ JNull →
    obj_get (js k) (updates stored p) = Some v;
}.

(** Columns for which the form has no value that clears them. *)
Definition kept_texts : list string :=
  ["base_url"; "openai_organization"; "test_model"; "tag"; "remark"; "other"]%string.
Definition kept_numbers : list string := ["priority"; "weight"]%string.
Definition kept_limits : list string :=
  ["capacity_limit"; "capacity_window_sec"; "ratio_expected"; "verify_interval_minutes";
   "verify_auto_disable_below"; "verify_auto_enable_above"]%string.

Definition falsy (v : option json) : Prop := match v with Some x => json_truthy x = false | None => True end.

Lemma or_else_falsy v d : falsy v → or_else v d = d.
Proof. destruct v as [x|]; simpl; [by intros ->|done]. Qed.

Lemma update_settings f id p :
  transformFormDataToUpdatePayload f id = Some p → ∃ s, buildSettingsJSON f = Some s.
Proof. unfold transformFormDataToUpdatePayload. destruct (buildSettingsJSON f); eauto; done. Qed.

(** The value both payloads send for a column that is not just copied. *)
Definition common_table (f : obj json) (settings : jsstr) : list (string * json) :=
  map (λ k, (k, or_else (fld f k) JNull))
    ["base_url"; "openai_organization"; "test_model"; "tag"; "priority"; "weight"]%string ++
  map (λ k, (k, or_else (fld f k) EMPTY)) ["remark"; "other"]%string ++
  map (λ k, (k, nullish (fld f k) JNull))
    ["capacity_limit"; "capacity_window_sec"; "verify_interval_minutes";
     "verify_auto_disable_below"; "verify_auto_enable_above"]%string ++
  map (λ k, (k, nullish (fld f k) (jint 0))) ["routing_mode"; "retry_strategy"]%string ++
  [("auto_ban", nullish (fld f "auto_ban") (jint 1)); ("group", group_text f);
   ("setting", JStr (buildSettingJSON f)); ("settings", JStr settings)]%string.

Lemma common_sent f id s k v :
  (k, v) ∈ common_table f s → fld ((js "id", jint id) :: common_columns f s) k = Some v.
Proof.
  unfold common_table. cbn [map app]. intros Hk.
  change ((js "id", jint id) :: common_columns f s) with ([(js "id", jint id)] ++ common_columns f s).
  repeat (apply elem_of_cons in Hk as [[= -> ->]|Hk]; [by column|]); by apply not_elem_of_nil in Hk.
Qed.

Lemma table_sent f id p s k v :
  transformFormDataToUpdatePayload f id = Some p → buildSettingsJSON f = Some s →
  (k, v) ∈ common_table f s → fld p k = Some (if bool_decide (v = EMPTY) then JNull else v).
Proof.
  intros Hp Hs Hk.
  assert (js k ≠ js "key" ∧ js k ≠ js "ratio_expected" ∧
    List.find (λ k', bool_decide (js k' = js k)) explicit_texts = None) as (H1 & H2 & H3).
  { assert (k ∈ map fst (common_table f s)) as Hm by (apply list_elem_of_fmap; by exists (k, v)).
    unfold common_table in Hm. cbn [map app fst] in Hm. clear -Hm. each_of Hm;
      (split_and!; [vm_compute; discriminate..|vm_compute; reflexivity]). }
  rewrite (get_update f id p s k Hp Hs H1), decide_False, H3 by done.
  by rewrite (common_sent f id s k v Hk).
Qed.

(** Finds an entry of the table. *)
Ltac in_table := unfold common_table; cbn [map app]; repeat first [by left|right].

Lemma kept_sent f id p k :
  transformFormDataToUpdatePayload f id = Some p →
  k ∈ kept_texts ++ kept_numbers → falsy (fld f k) → fld p k = Some JNull.
Proof.
  intros Hp Hk Hf. destruct (update_settings _ _ _ Hp) as [s Hs].
  assert ((k, or_else (fld f k) JNull) ∈ common_table f s ∨
    (k, or_else (fld f k) EMPTY) ∈ common_table f s) as Ht.
  { unfold kept_texts, kept_numbers in Hk. simpl in Hk.
    each_of Hk; first [left; by in_table|right; by in_table]. }
  rewrite !or_else_falsy in Ht by done.
  destruct Ht as [Ht|Ht]; by rewrite (table_sent f id p s k _ Hp Hs Ht).
Qed.

Lemma ratio_sent f id p :
  transformFormDataToUpdatePayload f id = Some p →
  fld p "ratio_expected" = Some (nullish (fld f "ratio_expected") JNull).
Proof.
  intros Hp. destruct (update_settings _ _ _ Hp) as [s Hs].
  rewrite (get_update f id p s "ratio_expected" Hp Hs) by (vm_compute; discriminate).
  by rewrite decide_True.
Qed.

Lemma kept_limit_sent f id p k :
  transformFormDataToUpdatePayload f id = Some p →
  k ∈ kept_limits → nullish (fld f k) JNull = JNull → fld p k = Some JNull.
Proof.
  intros Hp Hk Hf. destruct (update_settings _ _ _ Hp) as [s Hs].
  destruct (decide (k = "ratio_expected"%string)) as [->|Hne]; [by rewrite (ratio_sent f id), Hf|].
  assert ((k, nullish (fld f k) JNull) ∈ common_table f s) as Ht.
  { unfold kept_limits in Hk. each_of Hk; first [done|by in_table]. }
  rewrite Hf in Ht. by rewrite (table_sent f id p s k _ Hp Hs Ht).
Qed.

Lemma explicit_sent f id p k :
  transformFormDataToUpdatePayload f id = Some p →
  k ∈ explicit_texts → fld p k = Some (or_else (fld f k) EMPTY).
Proof.
  intros Hp Hk. destruct (update_settings _ _ _ Hp) as [s Hs].
  unfold explicit_texts in Hk. each_of Hk;
    rewrite (get_update _ _ _ _ _ Hp Hs) by (vm_compute; discriminate);
    rewrite decide_False by (vm_compute; discriminate); reflexivity.
Qed.

(** What the administrator clears is cleared on the server only for the
    texts the update sends explicitly: a cleared base URL, organisation, test
    model, tag, remark or note, a priority or weight set to zero and a limit or
    threshold set back to inherit are sent as null, and the stored value
    stays. *)
Theorem cleared_fields_spec updates `{!GormUpdates updates} f id p stored k :
  transformFormDataToUpdatePayload f id = Some p →
  (k ∈ kept_texts ++ kept_numbers → falsy (fld f k) →
    fld (updates stored p) k = fld stored k) ∧
  (k ∈ kept_limits → nullish (fld f k) JNull = JNull →
    fld (updates stored p) k = fld stored k) ∧
  (k ∈ explicit_texts → falsy (fld f k) → fld (updates stored p) k = Some EMPTY).
Proof.
  intros Hp. split_and!; intros Hk Hf.
  - apply updates_nil. by apply (kept_sent f id).
  - apply updates_nil. by apply (kept_limit_sent f id).
  - pose proof (explicit_sent f id p k Hp Hk) as He. rewrite or_else_falsy in He by done.
    apply updates_pointer; [|exact He|done]. unfold explicit_texts in Hk. each_of Hk;
      unfold pointer_columns; repeat first [by left|right].
Qed.

(** An update that behaves so: every column of the payload that is not null is
    written over the stored one. *)
Definition gorm_model (stored p : obj json) : obj json :=
  foldl (λ acc k, match obj_get k p with Some JNull | None => acc | Some v => obj_set k v acc end)
    stored (obj_keys p).

Lemma gorm_keeps p ks acc k v :
  obj_get k p = None ∨ obj_get k p = Some JNull ∨ obj_get k p = v →
  obj_get k acc = v →
  obj_get k (foldl (λ acc k, match obj_get k p with Some JNull | None => acc | Some v => obj_set k v acc end)
    acc ks) = v.
Proof.
  intros Hp. revert acc. induction ks as [|x ks IH]; intros acc Ha; [done|]. cbn [foldl]. apply IH.
  destruct (obj_get x p) as [w|] eqn:Ex; [|done].
  destruct (decide (w = JNull)) as [->|Hw]; [done|].
  assert (obj_get k (obj_set x w acc) = v) as Hs.
  { rewrite obj_get_set. destruct (decide (k = x)) as [->|]; [|done].
    destruct Hp as [Hp|[Hp|Hp]]; congruence. }
  by destruct w.
Qed.

#[export] Instance gorm_model_updates : GormUpdates gorm_model.
Proof.
  split.
  - intros stored p k Hk. apply gorm_keeps; [by auto|done].
  - intros stored p k v _ Hk Hv. unfold gorm_model.
    assert (js k ∈ obj_keys p) as Hin.
    { destruct (decide (js k ∈ obj_keys p)) as [|Hn]; [done|]. apply obj_get_None in Hn. congruence. }
    revert stored. induction (obj_keys p) as [|x ks IH]; intros stored;
      [by apply not_elem_of_nil in Hin|].
    cbn [foldl]. apply elem_of_cons in Hin as [<-|Hin]; [|by apply IH].
    apply gorm_keeps; [by auto|]. rewrite Hk.
    assert (obj_get (js k) (obj_set (js k) v stored) = Some v) as Hs by apply obj_get_set_eq.
    by destruct v.
Qed.

(** The priority 5 of a channel stays when the form sends 0. *)
Theorem cleared_fields_spec_witness :
  let f := CHANNEL_FORM_DEFAULT_VALUES in
  let stored := [(js "priority", jint 5); (js "model_mapping", JStr (js "{}"))] in
  ∃ p, transformFormDataToUpdatePayload f 1 = Some p ∧
    fld (gorm_model stored p) "priority" = Some (jint 5) ∧
    fld (gorm_model stored p) "model_mapping" = Some EMPTY.
Proof.
  intros f stored. eexists. split; [vm_compute; reflexivity|]. split.
  - refine (proj1 (cleared_fields_spec gorm_model f 1 _ stored "priority" _) _ _);
      [vm_compute; reflexivity| |reflexivity].
    unfold kept_texts, kept_numbers. repeat first [by left|right].
  - refine (proj2 (proj2 (cleared_fields_spec gorm_model f 1 _ stored "model_mapping" _)) _ _);
      [vm_compute; reflexivity| |reflexivity].
    unfold explicit_texts. repeat first [by left|right].
Defined.

(** ** The setting column *)

Lemma Forall_split_on (P : jschar → Prop) sep s : Forall P s → Forall (Forall P) (split_on sep s).
Proof.
  induction 1 as [|c s Hc Hs IH]; cbn [split_on]; [by repeat constructor|].
  destruct (c =? sep)%N; [by constructor|].
  destruct (split_on sep s) as [|w ws]; [by repeat constructor|].
  apply Forall_cons in IH as [Hw Hws]. by repeat constructor.
Qed.

Lemma Forall_split_trim (P : jschar → Prop) sep s : Forall P s → Forall (Forall P) (split_trim sep s).
Proof.
  intros Hs%(Forall_split_on P sep). rewrite Forall_forall in *. intros w Hw.
  unfold split_trim in Hw. apply elem_of_filter_bool in Hw as [Hw _].
  apply list_elem_of_fmap in Hw as (v & -> & Hv). apply Forall_forall. intros c Hc%elem_of_trim.
  by apply (proj1 (Forall_forall _ _) (Hs v Hv)).
Qed.

Lemma wf_strings l : Forall is_utf16 l → json_wf (JArr (map JStr l)).
Proof. intros Hl. constructor. apply Forall_map. eapply Forall_impl; [exact Hl|]. by constructor. Qed.

Lemma wf_or_else v d : json_wf d → (∀ x, v = Some x → json_wf x) → json_wf (or_else v d).
Proof. intros Hd Hv. destruct v as [x|]; [|done]. simpl. destruct (json_truthy x); auto. Qed.

Lemma wf_text_fld f k : (∀ v, fld f k = Some v → json_wf v) → is_utf16 (text_fld f k).
Proof.
  unfold text_fld. intros Hv. destruct (fld f k) as [[]|]; try constructor.
  specialize (Hv _ eq_refl). by inversion Hv.
Qed.

Lemma managed_keys f : obj_keys (managed_setting f) = obj_keys no_extra.
Proof. reflexivity. Qed.

Lemma NoDup_managed f : NoDup (obj_keys (managed_setting f)).
Proof. rewrite managed_keys. apply (bool_decide_unpack _). vm_compute. done. Qed.

Lemma managed_wf f :
  (∀ k v, fld f k = Some v → json_wf v) →
  Forall (λ kv, is_utf16 kv.1 ∧ json_wf kv.2) (managed_setting f).
Proof.
  intros Hf. unfold managed_setting.
  repeat first [apply Forall_nil; done|apply Forall_cons; split; [split; [apply is_utf16_js|]|]];
    cbn [snd]; try (apply wf_or_else; [constructor; constructor|by apply Hf]).
  apply wf_strings, Forall_split_trim, wf_text_fld, Hf.
Qed.

(** Saving the setting column overwrites the keys the form manages with
    its values and keeps every other key of the original setting; the server
    reads back exactly that object. *)
Theorem setting_json_spec f :
  (∀ k, k ∉ obj_keys (managed_setting f) → obj_get k (settingObj f) = obj_get k (setting_base f)) ∧
  (∀ k v, (k, v) ∈ managed_setting f → obj_get k (settingObj f) = Some v) ∧
  (json_wf (JObj (setting_base f)) → (∀ k v, fld f k = Some v → json_wf v) →
    JSON_parse (buildSettingJSON f) = Some (JObj (settingObj f))).
Proof.
  pose proof (NoDup_managed f) as Hn. unfold settingObj. split_and!.
  - intros k Hk. rewrite obj_get_assign by done. by apply obj_get_None in Hk as ->.
  - intros k v Hk. rewrite obj_get_assign by done. by rewrite (obj_get_mem k v).
  - intros Hb Hf. apply JSON_roundtrip. apply wf_assign; [done|by apply managed_wf].
Qed.

(** ** The settings column *)

Record Owned := mkOwned { owned_key : string; owned_now : bool; owned_value : json }.

(** The keys that belong to a channel type: whether the type of the form has
    the key, and the value it then gets. *)
Definition owned (f : obj json) : list Owned :=
  let t := type_of f in
  let anthropic k := mkOwned k (t =? 14)%Z (flag f k) in
  let openai k := mkOwned k (t =? 1)%Z (flag f k) in
  let both k := mkOwned k ((t =? 1) || (t =? 14))%Z (flag f k) in
  let version := or_else (fld f "azure_responses_version") EMPTY in
  [mkOwned "vertex_key_type" (t =? 41)%Z (or_else (fld f "vertex_key_type") (JStr (js "json")));
   mkOwned "azure_responses_version" ((t =? 3)%Z && json_truthy version) version;
   mkOwned "openrouter_enterprise" (t =? 20)%Z (flag f "is_enterprise_account");
   mkOwned "aws_key_type" (t =? 33)%Z (or_else (fld f "aws_key_type") (JStr (js "ak_sk")));
   both "allow_service_tier"; openai "disable_store"; openai "allow_safety_identifier";
   openai "allow_include_obfuscation"; both "allow_inference_geo"; anthropic "allow_speed";
   anthropic "claude_beta_query"; anthropic "claude_thinking_adaptive_compat";
   anthropic "claude_thinking_signature_strip"; anthropic "claude_strip_server_tools_compat";
   anthropic "claude_filter_beta_header_compat"]%string.

Definition set_owned (o : obj json) (e : Owned) : obj json :=
  set_or_drop (owned_now e) (owned_key e) (owned_value e) o.

Lemma settings_owned f o : passthrough_settings f (type_settings f o) = foldl set_owned o (owned f).
Proof. reflexivity. Qed.

Definition owned_keys : list jsstr :=
  map js ["vertex_key_type"; "azure_responses_version"; "openrouter_enterprise"; "aws_key_type";
    "allow_service_tier"; "disable_store"; "allow_safety_identifier"; "allow_include_obfuscation";
    "allow_inference_geo"; "allow_speed"; "claude_beta_query"; "claude_thinking_adaptive_compat";
    "claude_thinking_signature_strip"; "claude_strip_server_tools_compat";
    "claude_filter_beta_header_compat"]%string.

Definition upstream_keys : list jsstr :=
  map js ["upstream_model_update_check_enabled"; "upstream_model_update_auto_sync_enabled";
    "upstream_model_update_ignored_models"; "upstream_model_update_last_detected_models";
    "upstream_model_update_last_check_time"]%string.

Lemma owned_keys_eq f : map (js ∘ owned_key) (owned f) = owned_keys.
Proof. reflexivity. Qed.

Lemma NoDup_special : NoDup (js "advanced_custom" :: upstream_keys ++ owned_keys).
Proof. apply (bool_decide_unpack _). vm_compute. done. Qed.

Lemma NoDup_owned : NoDup owned_keys.
Proof. pose proof NoDup_special as Hn. apply NoDup_cons in Hn as [_ Hn]. by apply NoDup_app in Hn as (_ & _ & Hn). Qed.

Lemma get_set_or_drop c k v o k' :
  obj_get k' (set_or_drop c k v o) =
  if decide (k' = js k) then (if c then Some v else None) else obj_get k' o.
Proof.
  unfold set_or_drop. destruct (decide (k' = js k)) as [->|Hne], c.
  - apply obj_get_set_eq.
  - apply obj_get_delete_eq.
  - by apply obj_get_set_ne.
  - by apply obj_get_delete_ne.
Qed.

Lemma get_owned_other l o k :
  k ∉ map (js ∘ owned_key) l → obj_get k (foldl set_owned o l) = obj_get k o.
Proof.
  revert o. induction l as [|e l IH]; intros o Hk; [done|]. cbn [foldl map] in *.
  rewrite IH by set_solver. unfold set_owned. rewrite get_set_or_drop, decide_False; [done|].
  unfold compose in Hk. set_solver.
Qed.

Lemma get_owned l o e :
  NoDup (map (js ∘ owned_key) l) → e ∈ l →
  fld (foldl set_owned o l) (owned_key e) = if owned_now e then Some (owned_value e) else None.
Proof.
  revert o. induction l as [|e' l IH]; intros o Hn He; [by apply not_elem_of_nil in He|].
  cbn [foldl map] in *. apply NoDup_cons in Hn as [Hk Hn].
  apply elem_of_cons in He as [->|He]; [|by apply IH].
  unfold fld. rewrite get_owned_other by done. unfold set_owned.
  by rewrite get_set_or_drop, decide_True.
Qed.

Lemma get_advanced_other f o k :
  k ≠ js "advanced_custom" → obj_get k (advanced_settings f o) = obj_get k o.
Proof.
  intros Hk. unfold advanced_settings. case_match; [|by apply obj_get_delete_ne].
  case_match; [by apply obj_get_set_ne|done].
Qed.

Lemma get_detected_other c o k :
  k ≠ js "upstream_model_update_last_detected_models" → obj_get k (detected_settings c o) = obj_get k o.
Proof.
  intros Hk. unfold detected_settings. destruct (obj_get _ o) as [[]|];
    try (by apply obj_get_set_ne). destruct c; [done|by apply obj_get_set_ne].
Qed.

Lemma get_detected_off o :
  obj_get (js "upstream_model_update_last_detected_models") (detected_settings false o) = Some (JArr []).
Proof.
  unfold detected_settings.
  destruct (obj_get (js "upstream_model_update_last_detected_models") o) as [[]|]; apply obj_get_set_eq.
Qed.

Lemma get_time_other o k :
  k ≠ js "upstream_model_update_last_check_time" → obj_get k (time_settings o) = obj_get k o.
Proof.
  intros Hk. unfold time_settings. destruct (obj_get _ o) as [[]|]; try done;
    by apply obj_get_set_ne.
Qed.

Lemma get_upstream_other f o k :
  k ∉ upstream_keys → obj_get k (upstream_settings f o) = obj_get k o.
Proof.
  intros Hk. unfold upstream_keys in Hk. cbn [map] in Hk.
  repeat (apply not_elem_of_cons in Hk as [? Hk]). unfold upstream_settings.
  by rewrite get_time_other, get_detected_other, !obj_get_set_ne.
Qed.

Lemma elem_of_owned_key f e : e ∈ owned f → js (owned_key e) ∈ owned_keys.
Proof. intros He. rewrite <- (owned_keys_eq f). apply list_elem_of_fmap. by exists e. Qed.

Lemma special_apart k :
  k ∈ owned_keys → k ∉ upstream_keys ∧ k ≠ js "advanced_custom".
Proof.
  intros Hk. pose proof NoDup_special as Hn. apply NoDup_cons in Hn as [Ha Hn].
  apply NoDup_app in Hn as (_ & Hn & _). split; [intros Hu; by apply (Hn k)|].
  intros ->. apply Ha, elem_of_app. by right.
Qed.

(** The list of detected models is dropped with the check, and automatic
    synchronisation needs it. *)
Lemma upstream_settings_sync f o :
  let o' := upstream_settings f o in
  fld o' "upstream_model_update_check_enabled" =
    Some (flag f "upstream_model_update_check_enabled") ∧
  (is_true (fld o' "upstream_model_update_auto_sync_enabled") = true →
    is_true (fld o' "upstream_model_update_check_enabled") = true) ∧
  (is_true (fld o' "upstream_model_update_check_enabled") = false →
    fld o' "upstream_model_update_last_detected_models" = Some (JArr [])).
Proof.
  set (check := is_true (fld f "upstream_model_update_check_enabled")).
  intros o'. assert (fld o' "upstream_model_update_check_enabled" = Some (JBool check)) as Hc.
  { unfold o', upstream_settings, fld.
    rewrite get_time_other, get_detected_other, !obj_get_set_ne by (vm_compute; discriminate).
    apply obj_get_set_eq. }
  rewrite Hc. split_and!; [done| |].
  - assert (fld o' "upstream_model_update_auto_sync_enabled" =
      Some (JBool (check && is_true (fld f "upstream_model_update_auto_sync_enabled")))) as ->.
    { unfold o', upstream_settings, fld.
      rewrite get_time_other, get_detected_other, obj_get_set_ne by (vm_compute; discriminate).
      apply obj_get_set_eq. }
    cbn [is_true]. by destruct check.
  - cbn [is_true]. intros Hf. unfold o', upstream_settings. fold check. rewrite Hf. unfold fld at 1.
    rewrite get_time_other by (vm_compute; discriminate). apply get_detected_off.
Qed.

(** Saving the settings column keeps every key that belongs to no channel
    type, gives the keys of the type of the form their values and removes those
    of the other types; automatic synchronisation is off unless the check is
    on; and a column that holds neither object nor array makes the save throw. *)
Theorem settings_json_spec f :
  (buildSettingsJSON f = None ↔
    (∀ x, settings_base f ≠ JObj x) ∧ (∀ l, settings_base f ≠ JArr l)) ∧
  ∀ q, settings_base f = JObj q →
    let o := settingsObj f q in
    buildSettingsJSON f = Some (JSON_stringify (JObj o)) ∧
    (∀ e, e ∈ owned f → fld o (owned_key e) = if owned_now e then Some (owned_value e) else None) ∧
    (∀ k, k ∉ js "advanced_custom" :: upstream_keys ++ owned_keys → obj_get k o = obj_get k q) ∧
    (type_of f ∈ MODEL_FETCHABLE_TYPES →
      is_true (fld o "upstream_model_update_auto_sync_enabled") = true →
      is_true (fld o "upstream_model_update_check_enabled") = true) ∧
    (type_of f ≠ CHANNEL_TYPE_ADVANCED_CUSTOM → fld o "advanced_custom" = None).
Proof.
  split.
  { unfold buildSettingsJSON. destruct (settings_base f) as [| | | |l|x].
    1-4: by split; [intros _; split|].
    - split; [done|]. intros [_ H]. by destruct (H l).
    - split; [done|]. intros [H _]. by destruct (H x). }
  intros q Hq o. split; [unfold buildSettingsJSON; by rewrite Hq|].
  unfold o, settingsObj. rewrite settings_owned. split_and!.
  - intros e He. pose proof (elem_of_owned_key f e He) as Hk.
    destruct (special_apart _ Hk) as [Hu Ha]. unfold fld at 1.
    rewrite get_advanced_other by done. case_bool_decide; rewrite ?get_upstream_other by done;
      (apply get_owned; [rewrite owned_keys_eq; apply NoDup_owned|done]).
  - intros k Hk. rewrite not_elem_of_cons, not_elem_of_app in Hk. destruct Hk as (Ha & Hu & Ho).
    rewrite get_advanced_other by done. case_bool_decide; rewrite ?get_upstream_other by done;
      apply get_owned_other; by rewrite owned_keys_eq.
  - intros Ht. rewrite bool_decide_eq_true_2 by done.
    generalize (foldl set_owned q (owned f)) as o1. intros o1.
    destruct (upstream_settings_sync f o1) as (_ & Hs & _). revert Hs. unfold fld.
    rewrite !get_advanced_other by (vm_compute; discriminate). done.
  - intros Ht. unfold advanced_settings. rewrite (proj2 (Z.eqb_neq _ _) Ht). apply obj_get_delete_eq.
Qed.

(** ** Opening and saving *)

(** The columns the form opens with. *)
Definition text_columns : list string :=
  ["base_url"; "openai_organization"; "models"; "model_mapping"; "test_model"; "status_code_mapping";
   "tag"; "remark"; "setting"; "param_override"; "header_override"; "other"]%string.
Definition domain_columns : list string :=
  ["cache_domain"; "ratio_panel_url"; "ratio_upstream_group"]%string.

Definition form_table (c : obj json) : list (string * json) :=
  map (λ k, (k, or_else (fld c k) EMPTY)) text_columns ++
  map (λ k, (k, or_else (fld c k) (jint 0))) kept_numbers ++
  map (λ k, (k, nullish (fld c k) EMPTY)) domain_columns ++
  map (λ k, (k, nullish (fld c k) JNull)) ("capacity_full_strategy"%string :: kept_limits) ++
  [("key", EMPTY)]%string.

Lemma extra_keys c : obj_keys (extraSettings c) = obj_keys no_extra.
Proof. unfold extraSettings. by destruct (parsed_column c "setting"). Qed.

Lemma typed_keys c : obj_keys (typedSettings c) = obj_keys (typed_of (λ _, None)).
Proof. unfold typedSettings. by destruct (parsed_column c "settings"). Qed.

Lemma get_absent (l : list jsstr) (o : obj json) k : obj_keys o = l → k ∉ l → obj_get k o = None.
Proof. intros <-. apply obj_get_None. Qed.

Lemma get_opened c f k v :
  transformChannelToFormDefaults c = Some f → (k, v) ∈ form_table c → fld f k = Some v.
Proof.
  unfold transformChannelToFormDefaults. destruct (multi_key_mode c) as [mode|]; [|done].
  intros [= <-] Hk. unfold form_table, text_columns, domain_columns, kept_numbers, kept_limits in Hk.
  cbn [map app] in Hk.
  repeat (apply elem_of_cons in Hk as [[= -> ->]|Hk];
    [unfold fld at 1; unfold opened;
     rewrite ?obj_get_app, ?get_copy_ne by (vm_compute; discriminate);
     rewrite ?(get_absent _ (extraSettings c) _ (extra_keys c)),
       ?(get_absent _ (typedSettings c) _ (typed_keys c))
       by (apply (bool_decide_unpack _); vm_compute; exact I);
     reflexivity|]).
  by apply not_elem_of_nil in Hk.
Qed.

(** *** Columns *)

Definition is_text (v : option json) : Prop := v = None ∨ v = Some JNull ∨ ∃ s, v = Some (JStr s).
Definition is_number (v : option json) : Prop := v = None ∨ v = Some JNull ∨ ∃ n, v = Some (JNum n).

Definition sent_texts : list string :=
  ["base_url"; "openai_organization"; "test_model"; "tag"; "remark"; "other"; "model_mapping";
   "status_code_mapping"; "param_override"; "header_override"; "cache_domain"; "ratio_panel_url";
   "ratio_upstream_group"; "capacity_full_strategy"]%string.

(** A channel whose columns have the types of the server. *)
Definition typed_channel (c : obj json) : Prop :=
  (∀ k, k ∈ "setting"%string :: sent_texts → is_text (fld c k)) ∧
  (∀ k, k ∈ kept_numbers ++ kept_limits → is_number (fld c k)).

Definition as_text (v : option json) : jsstr := match v with Some (JStr s) => s | _ => [] end.

(** A number, zero and null being the same. *)
Definition as_number (v : option json) : option num :=
  match v with Some (JNum n) => if num_truthy n then Some n else None | _ => None end.

Lemma text_kept v d d' :
  is_text v → d ∈ [EMPTY; JNull] → d' ∈ [EMPTY; JNull] →
  as_text (Some (or_else (Some (or_else v d)) d')) = as_text v ∧
  as_text (Some (or_else (Some (nullish v d)) d')) = as_text v ∧
  as_text ((λ x, if bool_decide (x = EMPTY) then JNull else x) <$> Some (or_else (Some (or_else v d)) d'))
    = as_text v.
Proof.
  intros Hv Hd Hd'. each_of Hd; each_of Hd'; destruct Hv as [->|[->|[[|x s] ->]]]; done.
Qed.

Lemma number_kept v :
  is_number v →
  as_number (Some (let x := or_else (Some (or_else v (jint 0))) JNull in
    if bool_decide (x = EMPTY) then JNull else x)) = as_number v.
Proof.
  intros [->|[->|[n ->]]]; [vm_compute; done..|]. cbn [or_else json_truthy as_number].
  destruct (num_truthy n) eqn:E; [|vm_compute; done]. cbn [json_truthy]. rewrite E.
  by rewrite bool_decide_eq_false_2, E.
Qed.

Lemma limit_kept v :
  is_number v →
  nullish (Some (let x := nullish (Some (nullish v JNull)) JNull in
    if bool_decide (x = EMPTY) then JNull else x)) JNull = nullish v JNull.
Proof. by intros [->|[->|[n ->]]]. Qed.

Ltac in_form_table := unfold form_table, text_columns, domain_columns, kept_numbers, kept_limits;
  cbn [map app]; repeat first [by left|right].

Lemma saved_text c f id p k :
  transformChannelToFormDefaults c = Some f → transformFormDataToUpdatePayload f id = Some p →
  typed_channel c → k ∈ sent_texts → as_text (fld p k) = as_text (fld c k).
Proof.
  intros Hf Hp [Ht _] Hk. assert (is_text (fld c k)) as Hv by (apply Ht; by right).
  destruct (update_settings _ _ _ Hp) as [s Hs].
  assert ((fld f k = Some (or_else (fld c k) EMPTY) ∨ fld f k = Some (nullish (fld c k) EMPTY) ∨
    fld f k = Some (nullish (fld c k) JNull)) ∧ k ∈ explicit_texts ∨
    fld f k = Some (or_else (fld c k) EMPTY) ∧ ((k, or_else (fld f k) JNull) ∈ common_table f s ∨
    (k, or_else (fld f k) EMPTY) ∈ common_table f s)) as Hcase.
  { unfold sent_texts in Hk. each_of Hk.
    1-6: right; split; [apply (get_opened c); [done|by in_form_table]|
      first [left; by in_table|right; by in_table]].
    all: left; split; [|unfold explicit_texts; repeat first [by left|right]].
    1-4: left; apply (get_opened c); [done|by in_form_table].
    1-3: right; left; apply (get_opened c); [done|by in_form_table].
    right; right; apply (get_opened c); [done|by in_form_table]. }
  destruct Hcase as [[Hfk Hk']|[Hfk Hin]].
  - rewrite (explicit_sent f id p k Hp Hk').
    destruct Hfk as [-> |[-> | ->]]; apply text_kept; first [exact Hv|by left|right; by left].
  - destruct Hin as [Hin|Hin]; rewrite (table_sent f id p s k _ Hp Hs Hin), Hfk;
      apply text_kept; first [exact Hv|by left|right; by left].
Qed.

Lemma saved_number c f id p k :
  transformChannelToFormDefaults c = Some f → transformFormDataToUpdatePayload f id = Some p →
  typed_channel c → k ∈ kept_numbers → as_number (fld p k) = as_number (fld c k).
Proof.
  intros Hf Hp [_ Ht] Hk. assert (is_number (fld c k)) as Hv by (apply Ht, elem_of_app; by left).
  destruct (update_settings _ _ _ Hp) as [s Hs].
  assert (fld f k = Some (or_else (fld c k) (jint 0)) ∧ (k, or_else (fld f k) JNull) ∈ common_table f s)
    as [Hfk Hin].
  { unfold kept_numbers in Hk. each_of Hk;
      (split; [apply (get_opened c); [done|by in_form_table]|by in_table]). }
  rewrite (table_sent f id p s k _ Hp Hs Hin), Hfk. by apply number_kept.
Qed.

Lemma saved_limit c f id p k :
  transformChannelToFormDefaults c = Some f → transformFormDataToUpdatePayload f id = Some p →
  typed_channel c → k ∈ kept_limits → nullish (fld p k) JNull = nullish (fld c k) JNull.
Proof.
  intros Hf Hp [_ Ht] Hk. assert (is_number (fld c k)) as Hv by (apply Ht, elem_of_app; by right).
  destruct (update_settings _ _ _ Hp) as [s Hs].
  assert (fld f k = Some (nullish (fld c k) JNull)) as Hfk.
  { unfold kept_limits in Hk. each_of Hk; (apply (get_opened c); [done|by in_form_table]). }
  destruct (decide (k = "ratio_expected"%string)) as [->|Hne].
  - rewrite (ratio_sent f id p Hp), Hfk. by destruct Hv as [->|[->|[n ->]]].
  - assert ((k, nullish (fld f k) JNull) ∈ common_table f s) as Hin.
    { unfold kept_limits in Hk. each_of Hk; first [done|by in_table]. }
    rewrite (table_sent f id p s k _ Hp Hs Hin), Hfk. by apply limit_kept.
Qed.

(** *** The setting *)

Definition flag_keys : list string :=
  ["force_format"; "thinking_to_content"; "pass_through_body_enabled"; "system_prompt_override";
   "disable_no_output_refund"; "block_apology_enabled"; "block_low_token_enabled";
   "skip_auto_test"]%string.
Definition prompt_keys : list string := ["proxy"; "system_prompt"]%string.

(** A setting whose managed keys, where they are there, have their types. *)
Definition typed_setting (s : obj json) : Prop :=
  (∀ k v, k ∈ flag_keys → fld s k = Some v → ∃ b, v = JBool b) ∧
  (∀ k v, k ∈ prompt_keys → fld s k = Some v → ∃ t, v = JStr t) ∧
  (∀ v, fld s "backup_base_urls" = Some v →
    ∃ l, v = JArr (map JStr l) ∧ Forall (λ w, trimmed w ∧ w ≠ [] ∧ 10%N ∉ w) l).

Lemma extraSettings_base c : extraSettings c = extra_of (fld (setting_base c)).
Proof.
  unfold extraSettings, parsed_column, setting_base. destruct (text_fld c "setting"); [done|].
  by destruct (JSON_parse _) as [[]|].
Qed.

Lemma get_opened_extra c f k :
  transformChannelToFormDefaults c = Some f →
  k ∈ "backup_base_urls"%string :: flag_keys ++ prompt_keys →
  fld f k = fld (extra_of (fld (setting_base c))) k.
Proof.
  unfold transformChannelToFormDefaults. destruct (multi_key_mode c) as [mode|]; [|done].
  intros [= <-] Hk. rewrite <- extraSettings_base.
  assert (js k ∈ obj_keys (extraSettings c)) as Hin.
  { rewrite extra_keys. unfold flag_keys, prompt_keys in Hk. cbn [app] in Hk.
    apply (bool_decide_unpack _). each_of Hk; vm_compute; done. }
  destruct (obj_get (js k) (extraSettings c)) as [v|] eqn:Ev; [|by apply obj_get_None in Ev].
  unfold flag_keys, prompt_keys in Hk. cbn [app] in Hk. unfold fld at 2. rewrite Ev.
  each_of Hk; unfold fld at 1; unfold opened;
    rewrite ?obj_get_app, ?get_copy_ne by (vm_compute; discriminate); rewrite Ev; reflexivity.
Qed.

(** The managed keys of the setting from the fields of the form. *)
Lemma managed_flag f k :
  k ∈ flag_keys → (js k, or_else (fld f k) FALSE) ∈ managed_setting f.
Proof. unfold flag_keys, managed_setting. intros Hk. each_of Hk; repeat first [by left|right]. Qed.

Lemma managed_prompt f k :
  k ∈ prompt_keys → (js k, or_else (fld f k) EMPTY) ∈ managed_setting f.
Proof. unfold prompt_keys, managed_setting. intros Hk. each_of Hk; repeat first [by left|right]. Qed.

Lemma extra_flag (s : obj json) k v b :
  k ∈ flag_keys → fld s k = Some v → v = JBool b →
  or_else (fld (extra_of (fld s)) k) FALSE = v.
Proof.
  unfold flag_keys. intros Hk Hv ->.
  assert (fld (extra_of (fld s)) k = Some (or_else (fld s k) FALSE) ∨
    fld (extra_of (fld s)) k = Some (JBool (is_true (fld s k)))) as [-> | ->].
  { clear Hv. each_of Hk; first [left; reflexivity|right; reflexivity]. }
  all: rewrite Hv; by destruct b.
Qed.

Lemma extra_prompt (s : obj json) k t :
  k ∈ prompt_keys → fld s k = Some (JStr t) → or_else (fld (extra_of (fld s)) k) EMPTY = JStr t.
Proof.
  unfold prompt_keys. intros Hk Hv.
  assert (fld (extra_of (fld s)) k = Some (or_else (fld s k) EMPTY)) as ->.
  { clear Hv. each_of Hk; reflexivity. }
  rewrite Hv. by destruct t.
Qed.

Lemma join_strings sep l : join_values sep (Some (JArr (map JStr l))) = join [sep] l.
Proof. unfold join_values. by rewrite map_map, map_id. Qed.

Lemma managed_split k :
  k ∈ obj_keys no_extra →
  ∃ k', k = js k' ∧ k' ∈ "backup_base_urls"%string :: flag_keys ++ prompt_keys.
Proof.
  intros Hk. change (obj_keys no_extra) with
    (map js ["force_format"; "thinking_to_content"; "proxy"; "pass_through_body_enabled";
       "system_prompt"; "system_prompt_override"; "disable_no_output_refund"; "backup_base_urls";
       "block_apology_enabled"; "block_low_token_enabled"; "skip_auto_test"]%string) in Hk.
  apply list_elem_of_fmap in Hk as (k' & -> & Hk). exists k'. split; [done|].
  unfold flag_keys, prompt_keys. cbn [app]. each_of Hk; repeat first [by left|right].
Qed.

Lemma saved_setting c f k :
  transformChannelToFormDefaults c = Some f → is_text (fld c "setting") →
  typed_setting (setting_base c) →
  obj_get k (settingObj f) = obj_get k (setting_base c) ∨
  k ∈ obj_keys no_extra ∧ obj_get k (setting_base c) = None.
Proof.
  intros Hf Hc (Hflag & Hprompt & Hurls).
  assert (setting_base f = setting_base c) as Hb.
  { unfold setting_base, text_fld.
    rewrite (get_opened c f "setting" (or_else (fld c "setting") EMPTY)) by (done || by in_form_table).
    by destruct Hc as [-> |[-> |[[|x t] ->]]]. }
  unfold settingObj. rewrite Hb, obj_get_assign by apply NoDup_managed.
  destruct (obj_get k (managed_setting f)) as [v|] eqn:Em; [|by left].
  assert (k ∈ obj_keys no_extra) as Hk.
  { destruct (decide (k ∈ obj_keys no_extra)) as [|Hn]; [done|].
    rewrite <- (managed_keys f) in Hn. apply obj_get_None in Hn. congruence. }
  destruct (obj_get k (setting_base c)) as [w|] eqn:Ew; [left|by right].
  apply managed_split in Hk as (k' & -> & Hk). pose proof (get_opened_extra c f k' Hf Hk) as He.
  apply elem_of_cons in Hk as [->|[Hk|Hk]%elem_of_app].
  - destruct (Hurls w Ew) as (l & -> & Hl).
    rewrite (obj_get_mem _ (JArr (map JStr (parseBackupBaseUrls (text_fld f "backup_base_urls"))))) in Em;
      [|apply NoDup_managed|unfold managed_setting; repeat first [by left|right]].
    rewrite <- Em. do 3 f_equal. unfold text_fld. rewrite He.
    change (fld (extra_of (fld (setting_base c))) "backup_base_urls") with
      (Some (JStr (join_values 10%N (fld (setting_base c) "backup_base_urls")))).
    unfold fld at 1. rewrite Ew, join_strings. by apply split_trim_join.
  - destruct (Hflag k' w Hk Ew) as [b ->].
    rewrite (obj_get_mem _ _ _ (NoDup_managed f) (managed_flag f k' Hk)), He in Em.
    rewrite <- Em. f_equal. by apply (extra_flag _ _ _ b).
  - destruct (Hprompt k' w Hk Ew) as [t ->].
    rewrite (obj_get_mem _ _ _ (NoDup_managed f) (managed_prompt f k' Hk)), He in Em.
    rewrite <- Em. f_equal. by apply extra_prompt.
Qed.

Lemma key_not_sent f id p :
  transformFormDataToUpdatePayload f id = Some p → trim (text_fld f "key") = [] → fld p "key" = None.
Proof.
  unfold transformFormDataToUpdatePayload. destruct (buildSettingsJSON f) as [s|]; [|done].
  intros [= <-] Hk. rewrite (bool_decide_eq_true_2 _ Hk). unfold fld.
  rewrite obj_get_set_ne, get_send_explicit by (vm_compute; discriminate).
  change (List.find (λ k', bool_decide (js k' = js "key")) explicit_texts) with (@None string).
  cbv iota. rewrite get_empty_to_null.
  change ((js "id", jint id) :: common_columns f s) with ([(js "id", jint id)] ++ common_columns f s).
  assert (obj_get (js "key") ([(js "id", jint id)] ++ common_columns f s) = None) as -> by column.
  done.
Qed.


(** A channel with a priority, a mapping and a setting with an unmanaged key. *)
Definition sample_channel : obj json :=
  [(js "name", JStr (js "n")); (js "type", jint 1); (js "priority", jint 5);
   (js "model_mapping", JStr (js "{}")); (js "setting", JStr (jq "{`proxy`:`p`,`x`:1}"));
   (js "channel_info", JObj [])].


End Form.
