(* ===== verification/ChannelUtils.v ===== *)
(** * Lists of channels

    The functions behind the table of channels
    ([features/channels/lib/channel-utils.ts]): keys and groups in one text,
    stored JSON, what needs attention, and the rows that gather the channels of
    a tag.  Texts of prices, times and labels are left out; comparison by
    locale is a parameter. *)
From S2P Require Import Prelude JSString JSNumber JSON.

Module Keys.

(** ** Keys *)

(** [s.slice(0, i)] and [s.slice(-i)] of a text. *)
Definition ELLIPSIS : jsstr := js "...".

Definition nonblank (k : jsstr) : bool := nonempty (trim k).

Definition countKeys (key : jsstr) : nat :=
  match key with
  | [] => 0
  | _ => length (List.filter nonblank (split_on 10%N key))
  end.

Definition formatChannelKey (key : jsstr) (isMultiKey : bool) : jsstr :=
  match key with
  | [] => []
  | _ =>
      if isMultiKey then string_of_N (N.of_nat (length (List.filter nonblank (split_on 10%N key)))) ++ js " keys"
      else if length key <=? 16 then take 4 key ++ ELLIPSIS ++ slice_last 4 key
      else take 8 key ++ ELLIPSIS ++ slice_last 8 key
  end.

Definition formatKeyPreview (key : jsstr) (maxLength : nat) : jsstr :=
  match key with
  | [] => []
  | _ => if length key <=? maxLength then key else take maxLength key ++ ELLIPSIS
  end.

Record Deduplicated := mkDedup {
  deduplicatedText : jsstr;
  beforeCount : nat;
  afterCount : nat;
  removedCount : nat;
}.

(** One line, with the set and the list of the loop. *)
Definition dedup_line (st : list jsstr * list jsstr) (line : jsstr) : list jsstr * list jsstr :=
  let '(keySet, deduplicatedKeys) := st in
  let trimmedLine := trim line in
  if nonempty trimmedLine && negb (bool_decide (trimmedLine ∈ keySet))
  then (trimmedLine :: keySet, deduplicatedKeys ++ [trimmedLine]) else st.

Definition deduplicateKeys (keysText : jsstr) : Deduplicated :=
  if bool_decide (trim keysText = []) then mkDedup [] 0 0 0 else
  let keyLines := split_on 10%N keysText in
  let deduplicatedKeys := snd (foldl dedup_line ([], []) keyLines) in
  let before := length keyLines in
  let after := length deduplicatedKeys in
  mkDedup (join [10%N] deduplicatedKeys) before after (before - after).

(** *** What is kept *)

Lemma dedup_lines lines seen acc :
  snd (foldl dedup_line (seen, acc) lines) = acc ++ uniq_from seen (filter_bool (map trim lines)).
Proof.
  revert seen acc. induction lines as [|l lines IH]; intros seen acc; cbn [foldl map].
  { by rewrite app_nil_r. }
  unfold filter_bool. cbn [dedup_line List.filter]. destruct (trim l) as [|c t] eqn:E; [apply IH|].
  cbn [nonempty andb uniq_from]. case_bool_decide as Hd; simpl.
  - rewrite decide_True by done. apply IH.
  - rewrite decide_False by done. rewrite IH, <- app_assoc. done.
Qed.

Lemma dedup_keys text :
  snd (foldl dedup_line ([], []) (split_on 10%N text)) = uniq (split_trim 10%N text).
Proof. apply dedup_lines. Qed.

Lemma split_trim_blank text : trim text = [] → split_trim 10%N text = [].
Proof.
  intros Hb%trim_nil_iff. destruct (split_trim 10%N text) as [|w l] eqn:E; [done|]. exfalso.
  assert (w ∈ split_trim 10%N text) as Hw by (rewrite E; by left).
  unfold split_trim in Hw. apply elem_of_filter_bool in Hw as [Hw Hne].
  apply list_elem_of_fmap in Hw as (v & -> & Hv). destruct Hne. apply (proj2 (trim_nil_iff v)).
  apply Forall_forall. intros c Hc. rewrite Forall_forall in Hb. apply Hb.
  rewrite <- (join_split 10%N text). clear -Hv Hc.
  induction (split_on 10%N text) as [|u l IH]; [by apply not_elem_of_nil in Hv|].
  apply elem_of_cons in Hv as [<-|Hv].
  - destruct l; simpl; [done|]. apply elem_of_app. by left.
  - destruct l as [|u' l]; [by apply not_elem_of_nil in Hv|].
    change (join [10%N] (u :: u' :: l)) with (u ++ [10%N] ++ join [10%N] (u' :: l)).
    rewrite !elem_of_app. right. right. by apply IH.
Qed.

Lemma deduplicateKeys_eq text :
  let keys := uniq (split_trim 10%N text) in
  deduplicatedText (deduplicateKeys text) = join [10%N] keys ∧
  afterCount (deduplicateKeys text) = length keys.
Proof.
  intros keys. subst keys. unfold deduplicateKeys. case_bool_decide as Hb.
  - by rewrite split_trim_blank.
  - by rewrite dedup_keys.
Qed.

(** Removing duplicate keys keeps the first of each, trimmed, in order and
    without blank lines; the counts add up; the text holds exactly the same
    keys as before, and a second pass removes nothing. *)
Theorem deduplicate_spec text :
  let d := deduplicateKeys text in
  split_trim 10%N (deduplicatedText d) = uniq (split_trim 10%N text) ∧
  afterCount d = length (split_trim 10%N (deduplicatedText d)) ∧
  beforeCount d = afterCount d + removedCount d ∧
  deduplicatedText (deduplicateKeys (deduplicatedText d)) = deduplicatedText d.
Proof.
  intros d. destruct (deduplicateKeys_eq text) as [Ht Ha].
  assert (split_trim 10%N (deduplicatedText d) = uniq (split_trim 10%N text)) as Hs.
  { unfold d. rewrite Ht. apply split_trim_join, Forall_forall. intros w Hw.
    apply (proj1 (elem_of_uniq _ _)) in Hw. exact (elem_of_split_trim _ _ _ Hw). }
  split; [done|]. split; [by rewrite Hs|]. split.
  - unfold d, deduplicateKeys. case_bool_decide; [done|].
    cbn [beforeCount afterCount removedCount]. rewrite dedup_keys.
    enough (length (uniq (split_trim 10%N text)) ≤ length (split_on 10%N text)) by lia.
    etransitivity; [apply length_uniq_le|]. unfold split_trim, filter_bool.
    etransitivity; [apply sublist_length, bfilter_sublist|]. by rewrite length_map.
  - destruct (deduplicateKeys_eq (deduplicatedText d)) as [-> _].
    rewrite Hs, uniq_idemp. unfold d. by rewrite Ht.
Qed.

End Keys.

Module Stored.

(** ** Stored texts *)

Definition parseModelsList (models : jsstr) : list jsstr := split_trim 44%N models.

(** The comparison of groups: [default] before any other. *)
Definition compare_groups (localeCompare : jsstr → jsstr → Z) (a b : jsstr) : Z :=
  if bool_decide (a = js "default") then (-1)%Z
  else if bool_decide (b = js "default") then 1%Z
  else localeCompare a b.

Definition parseGroupsList (localeCompare : jsstr → jsstr → Z) (groups : jsstr) : list jsstr :=
  js_sort (compare_groups localeCompare) (split_trim 44%N groups).

Definition formatModelsString (models : list jsstr) : jsstr := join (js ",") models.
Definition formatGroupsString (groups : list jsstr) : jsstr := join (js ",") groups.

(** What [JSON.parse] gives, an empty object on an empty or broken text. *)
Definition parseChannelSettings (settingStr : option jsstr) : json :=
  match settingStr with
  | None | Some [] => JObj []
  | Some s => opt_or (JSON_parse s) (JObj [])
  end.

Definition parseChannelOtherSettings (settingsStr : option jsstr) : json :=
  match settingsStr with
  | None | Some [] => JObj []
  | Some s => if bool_decide (s = js "{}") then JObj [] else opt_or (JSON_parse s) (JObj [])
  end.

Definition validateChannelSettings (settings : jsstr) : bool :=
  bool_decide (trim settings = []) || match JSON_parse settings with Some _ => true | None => false end.

Record RatioSummary := mkRatio { ratio_n : json; ratio_min : num; ratio_max : num; ratio_g : option json }.

Definition finite_number (v : option json) : option num :=
  match v with Some (JNum n) => if num_is_finite n then Some n else None | _ => None end.

Definition parseRatioSummary (raw : option jsstr) : option RatioSummary :=
  match raw with
  | None | Some [] => None
  | Some raw =>
      match JSON_parse raw with
      | None => None
      | Some parsed =>
          match finite_number (json_prop parsed (js "min")), finite_number (json_prop parsed (js "max")) with
          | Some lo, Some hi =>
              Some (mkRatio
                (match json_prop parsed (js "n") with None | Some JNull => JNum (num_of_Z 1) | Some v => v end)
                lo hi (json_prop parsed (js "g")))
          | _, _ => None
          end
      end
  end.

Definition validateChannelName (name : jsstr) : bool := nonempty (trim name).
Definition validateApiKey (key : jsstr) : bool := nonempty (trim key).
Definition validateModels (models : jsstr) : bool := bool_decide (0 < length (parseModelsList models)).
Definition validateGroups (localeCompare : jsstr → jsstr → Z) (groups : jsstr) : bool :=
  bool_decide (0 < length (parseGroupsList localeCompare groups)).

Lemma parseGroupsList_perm lc groups : parseGroupsList lc groups ≡ₚ split_trim 44%N groups.
Proof. apply js_sort_perm. Qed.

(** Validation does not depend on the order of the groups. *)
Lemma validateGroups_eq lc groups : validateGroups lc groups = validateModels groups.
Proof.
  apply bool_decide_ext. by rewrite (Permutation_length (parseGroupsList_perm lc groups)).
Qed.

End Stored.

Module Tags.
Local Open Scope Z_scope.

(** ** Channels and the rows of their tags *)

Record MultiKey := mkMulti {
  is_multi_key : bool;
  multi_key_status_list : option (obj json);
  multi_key_size : Z;
}.

(** A channel, or the row of a tag: the fields the functions of this section
    read or write, and [others] for the rest.  A row has no status before its
    first channel, and its id is the tag. *)
Record Channel := mkChannel {
  id : json;
  key : jsstr;
  tag : option jsstr;
  name : jsstr;
  type : Z;
  status : option Z;
  group : jsstr;
  used_quota : Z;
  response_time : num;
  priority : option Z;
  weight : option Z;
  balance : num;
  test_time : Z;
  created_time : Z;
  balance_updated_time : Z;
  models : jsstr;
  channel_info : option MultiKey;
  others : obj json;
}.

Definition isChannelEnabled (c : Channel) : bool := bool_decide (status c = Some 1).
Definition isMultiKeyChannel (c : Channel) : bool :=
  match channel_info c with Some i => is_multi_key i | None => false end.

(** Every key of a channel with several keys has a status entry. *)
Definition all_keys_disabled (c : Channel) : bool :=
  match channel_info c with
  | Some i => is_multi_key i &&
      match multi_key_status_list i with
      | Some l => multi_key_size i <=? Z.of_nat (length (obj_keys l))
      | None => false
      end
  | None => false
  end.

Definition low_balance (c : Channel) : bool :=
  num_ltb num_zero (balance c) && num_ltb (balance c) (num_of_Z 1).

Definition channelNeedsAttention (c : Channel) : bool :=
  if bool_decide (status c = Some 3) then true
  else if low_balance c then true
  else if all_keys_disabled c then true else false.

Definition getAttentionReason (c : Channel) : option jsstr :=
  if bool_decide (status c = Some 3) then Some (js "Auto-disabled")
  else if low_balance c then Some (js "Low balance")
  else if all_keys_disabled c then Some (js "All keys disabled") else None.

Lemma attention_reason c : channelNeedsAttention c = true ↔ getAttentionReason c ≠ None.
Proof. unfold channelNeedsAttention, getAttentionReason. repeat case_match; done. Qed.

Record TagRow := mkRow { row : Channel; children : list Channel }.

Definition tag_text (c : Channel) : jsstr := opt_or (tag c) [].

(** The row of a tag before its first channel, [-1] standing for a priority or
    weight not seen yet. *)
Definition new_row (t : jsstr) (c : Channel) : TagRow :=
  mkRow {|
    id := JStr t; key := t; tag := Some t; name := t; type := 0; status := None; group := [];
    used_quota := 0; response_time := num_zero; priority := Some (-1); weight := Some (-1);
    balance := num_zero; test_time := 0; created_time := 0; balance_updated_time := 0;
    models := []; channel_info := channel_info c;
    others := obj_assign (others c)
      [(js "iq_score", JNull); (js "iq_score_delta", JNull); (js "iq_score_previous", JNull);
       (js "iq_score_baseline", JNull); (js "iq_score_trend", JStr (js "unknown"));
       (js "iq_score_at", JNum num_zero); (js "iq_score_model", JStr []);
       (js "iq_score_status", JStr []); (js "iq_score_error", JStr []);
       (js "iq_attempt_at", JNum num_zero)] |} [].

(** The common value of the channels seen so far. *)
Definition merge_value (acc v : option Z) : option Z :=
  if bool_decide (acc = Some (-1)) then v
  else if bool_decide (acc ≠ v) then None else acc.

Definition merge_groups (acc g : jsstr) : jsstr :=
  match acc with
  | [] => g
  | _ =>
      let existing := filter_bool (split_on 44%N acc) in
      foldl (λ acc g, if bool_decide (g ∈ existing) then acc else acc ++ js "," ++ g) acc
        (filter_bool (split_on 44%N g))
  end.

Definition merge_status (acc s : option Z) : option Z :=
  if bool_decide (s = Some 1) then Some 1
  else match acc with None => s | _ => acc end.

(** One channel joins the row. *)
Definition add_channel (r : TagRow) (c : Channel) : TagRow :=
  let children := children r ++ [c] in
  let childCount := num_of_Z (Z.of_nat (length children)) in
  let before := num_of_Z (Z.of_nat (length children) - 1) in
  let a := row r in
  mkRow {|
    id := id a; key := key a; tag := tag a; name := name a; type := type a;
    status := merge_status (status a) (status c);
    group := merge_groups (group a) (group c);
    used_quota := used_quota a + used_quota c;
    response_time := num_div (num_add (num_mul (response_time a) before) (response_time c)) childCount;
    priority := merge_value (priority a) (priority c);
    weight := merge_value (weight a) (weight c);
    balance := balance a; test_time := test_time a; created_time := created_time a;
    balance_updated_time := balance_updated_time a; models := models a;
    channel_info := channel_info a; others := others a |} children.

(** The rows in the order they were made; the row of a tag is the one the map
    holds, changed in place. *)
Fixpoint update_row (t : jsstr) (c : Channel) (rows : list (jsstr * TagRow)) : list (jsstr * TagRow) :=
  match rows with
  | [] => [(t, add_channel (new_row t c) c)]
  | (t', r) :: rows =>
      if decide (t = t') then (t', add_channel r c) :: rows else (t', r) :: update_row t c rows
  end.

Definition aggregateChannelsByTag (channels : list Channel) : list TagRow :=
  map snd (foldl (λ rows c, update_row (tag_text c) c rows) [] channels).

(** *** One row per tag *)

(** The row of a tag from its channels. *)
Definition row_of (t : jsstr) (cs : list Channel) : TagRow :=
  match cs with [] => mkRow (row (new_row t (mkChannel JNull [] None [] 0 None [] 0 num_zero None None num_zero 0 0 0 [] None []))) []
  | c :: _ => foldl add_channel (new_row t c) cs end.

Definition of_tag (t : jsstr) (cs : list Channel) : list Channel :=
  List.filter (λ c, bool_decide (tag_text c = t)) cs.

Definition rows_of (cs : list Channel) : list (jsstr * TagRow) :=
  map (λ t, (t, row_of t (of_tag t cs))) (uniq (map tag_text cs)).

Lemma uniq_snoc {A} `{EqDecision A} (l : list A) x :
  uniq (l ++ [x]) = if decide (x ∈ l) then uniq l else uniq l ++ [x].
Proof.
  unfold uniq. rewrite uniq_from_app. cbn [uniq_from].
  destruct (decide (x ∈ l)) as [Hx|Hx], (decide (x ∈ reverse l ++ [])) as [Hy|Hy];
    rewrite ?elem_of_app, ?elem_of_reverse in Hy; try done;
    [by rewrite app_nil_r|by destruct Hy; left|destruct Hy as [?|?%not_elem_of_nil]; done].
Qed.

Lemma of_tag_snoc t cs c :
  of_tag t (cs ++ [c]) = of_tag t cs ++ (if decide (tag_text c = t) then [c] else []).
Proof.
  unfold of_tag. rewrite List.filter_app. cbn [List.filter].
  destruct (decide (tag_text c = t)); [by rewrite bool_decide_eq_true_2|by rewrite bool_decide_eq_false_2].
Qed.

Lemma of_tag_nil t cs : t ∉ map tag_text cs → of_tag t cs = [].
Proof.
  intros Ht. apply bfilter_none. intros c Hc. apply bool_decide_eq_false_2. intros <-.
  apply Ht, list_elem_of_fmap. by exists c.
Qed.

Lemma of_tag_ne t cs : t ∈ map tag_text cs → of_tag t cs ≠ [].
Proof.
  intros (c & -> & Hc)%list_elem_of_fmap E.
  assert (c ∈ of_tag (tag_text c) cs) as H; [|rewrite E in H; by apply not_elem_of_nil in H].
  apply elem_of_bfilter. split; [done|by apply bool_decide_eq_true_2].
Qed.

Lemma row_of_snoc t cs c : cs ≠ [] → row_of t (cs ++ [c]) = add_channel (row_of t cs) c.
Proof. destruct cs as [|c' cs]; [done|]. intros _. unfold row_of. cbn [app]. by rewrite <- foldl_snoc. Qed.

Lemma update_row_map t c (f g : jsstr → TagRow) l :
  NoDup l → (∀ x, x ≠ t → f x = g x) → (t ∈ l → g t = add_channel (f t) c) →
  (t ∉ l → g t = add_channel (new_row t c) c) →
  update_row t c (map (λ x, (x, f x)) l) =
  map (λ x, (x, g x)) (if decide (t ∈ l) then l else l ++ [t]).
Proof.
  intros Hl Hfg Hin Hout. induction Hl as [|x l Hx Hl IH]; cbn [map update_row].
  { rewrite decide_False by apply not_elem_of_nil. cbn [app map]. by rewrite Hout by apply not_elem_of_nil. }
  destruct (decide (t = x)) as [->|Hne].
  - rewrite decide_True by by left. cbn [map]. rewrite Hin by by left. f_equal.
    apply map_ext_in. intros y Hy%list_elem_of_In. rewrite Hfg; [done|]. by intros ->.
  - rewrite IH; [|by intros; apply Hin; right|intros ?; apply Hout; rewrite elem_of_cons; naive_solver].
    rewrite (Hfg x) by done. destruct (decide (t ∈ l)) as [Ht|Ht].
    + by rewrite decide_True by by right.
    + rewrite decide_False by (rewrite elem_of_cons; naive_solver). done.
Qed.

Lemma aggregate_rows cs :
  foldl (λ rows c, update_row (tag_text c) c rows) [] cs = rows_of cs.
Proof.
  induction cs as [|c cs IH] using rev_ind; [done|]. rewrite foldl_snoc, IH. unfold rows_of.
  rewrite map_app. cbn [map]. rewrite uniq_snoc.
  rewrite (update_row_map _ _ _ (λ t, row_of t (of_tag t (cs ++ [c])))).
  - destruct (decide (tag_text c ∈ uniq _)) as [H|H], (decide (tag_text c ∈ map tag_text cs)) as [H'|H'];
      rewrite elem_of_uniq in H; done.
  - apply NoDup_uniq.
  - intros x Hx. rewrite of_tag_snoc, decide_False by congruence. by rewrite app_nil_r.
  - intros Ht. rewrite elem_of_uniq in Ht. rewrite of_tag_snoc, decide_True by done.
    apply row_of_snoc. by apply of_tag_ne.
  - intros Ht. rewrite elem_of_uniq in Ht. rewrite of_tag_snoc, decide_True by done.
    by rewrite of_tag_nil.
Qed.

(** *** What a row shows *)

Definition sum_quota (cs : list Channel) : Z := foldr (λ c n, used_quota c + n) 0 cs.

(** The value all channels share, null when they differ. *)
Definition common_value (f : Channel → option Z) (cs : list Channel) : option Z :=
  match cs with
  | [] => None
  | c :: cs => if forallb (λ c', bool_decide (f c' = f c)) cs then f c else None
  end.

Lemma children_fold r cs : children (foldl add_channel r cs) = children r ++ cs.
Proof.
  revert r. induction cs as [|c cs IH]; intros r; cbn [foldl]; [by rewrite app_nil_r|].
  rewrite IH. cbn [add_channel children]. by rewrite <- app_assoc.
Qed.

Lemma quota_fold r cs :
  used_quota (row (foldl add_channel r cs)) = used_quota (row r) + sum_quota cs.
Proof.
  revert r. induction cs as [|c cs IH]; intros r; cbn [foldl sum_quota foldr]; [lia|].
  rewrite IH. cbn [add_channel row used_quota]. unfold sum_quota. lia.
Qed.

Lemma tag_fold r cs : tag (row (foldl add_channel r cs)) = tag (row r).
Proof. revert r. induction cs as [|c cs IH]; intros r; cbn [foldl]; [done|]. by rewrite IH. Qed.

Lemma status_fold r cs :
  status (row (foldl add_channel r cs)) = foldl (λ a c, merge_status a (status c)) (status (row r)) cs.
Proof. revert r. induction cs as [|c cs IH]; intros r; cbn [foldl]; [done|]. by rewrite IH. Qed.

Lemma merge_status_enabled cs a :
  foldl (λ a c, merge_status a (status c)) a cs = Some 1 ↔
  a = Some 1 ∨ (∃ c, c ∈ cs ∧ status c = Some 1).
Proof.
  revert a. induction cs as [|c cs IH]; intros a; cbn [foldl].
  { split; [by left|]. intros [|(c & Hc%not_elem_of_nil & _)]; done. }
  rewrite IH. setoid_rewrite elem_of_cons. unfold merge_status.
  case_bool_decide as Hc; [naive_solver|]. destruct a as [a|]; naive_solver.
Qed.

Lemma priority_fold r cs :
  priority (row (foldl add_channel r cs)) = foldl (λ a c, merge_value a (priority c)) (priority (row r)) cs.
Proof. revert r. induction cs as [|c cs IH]; intros r; cbn [foldl]; [done|]. by rewrite IH. Qed.

Lemma weight_fold r cs :
  weight (row (foldl add_channel r cs)) = foldl (λ a c, merge_value a (weight c)) (weight (row r)) cs.
Proof. revert r. induction cs as [|c cs IH]; intros r; cbn [foldl]; [done|]. by rewrite IH. Qed.

Lemma merge_value_null (f : Channel → option Z) cs : foldl (λ a c, merge_value a (f c)) None cs = None.
Proof.
  induction cs as [|c cs IH]; [done|]. cbn [foldl]. unfold merge_value at 2.
  rewrite bool_decide_eq_false_2 by done. destruct (bool_decide _); done.
Qed.

Lemma merge_value_common (f : Channel → option Z) v cs :
  v ≠ Some (-1) →
  foldl (λ a c, merge_value a (f c)) v cs =
  if forallb (λ c', bool_decide (f c' = v)) cs then v else None.
Proof.
  intros Hv. induction cs as [|c cs IH]; [done|]. cbn [foldl forallb]. unfold merge_value at 2.
  rewrite bool_decide_eq_false_2 by done.
  destruct (decide (v = f c)) as [<-|Hne].
  - rewrite (bool_decide_eq_false_2 (v ≠ v)), bool_decide_eq_true_2 by naive_solver. apply IH.
  - rewrite (bool_decide_eq_true_2 (v ≠ f c)), (bool_decide_eq_false_2 (f c = v)) by naive_solver.
    apply merge_value_null.
Qed.

Lemma merged_value (f : Channel → option Z) cs :
  (∀ c, c ∈ cs → f c ≠ Some (-1)) → cs ≠ [] →
  foldl (λ a c, merge_value a (f c)) (Some (-1)) cs = common_value f cs.
Proof.
  intros Hf Hne. destruct cs as [|c cs]; [done|]. cbn [foldl common_value].
  change (merge_value (Some (-1)) (f c)) with (f c). apply merge_value_common, Hf. by left.
Qed.

Lemma row_of_children t cs : children (row_of t cs) = cs.
Proof. destruct cs as [|c cs]; [done|]. unfold row_of. by rewrite children_fold. Qed.

Lemma row_of_tag t cs : cs ≠ [] → tag (row (row_of t cs)) = Some t.
Proof. destruct cs as [|c cs]; [done|]. intros _. unfold row_of. by rewrite tag_fold. Qed.

Lemma row_of_shows t cs :
  cs ≠ [] →
  used_quota (row (row_of t cs)) = sum_quota cs ∧
  (status (row (row_of t cs)) = Some 1 ↔ ∃ c, c ∈ cs ∧ status c = Some 1) ∧
  ((∀ c, c ∈ cs → priority c ≠ Some (-1)) → priority (row (row_of t cs)) = common_value priority cs) ∧
  ((∀ c, c ∈ cs → weight c ≠ Some (-1)) → weight (row (row_of t cs)) = common_value weight cs).
Proof.
  destruct cs as [|c cs]; [done|]. intros Hne. unfold row_of.
  rewrite quota_fold, status_fold, priority_fold, weight_fold. split_and!.
  - done.
  - rewrite merge_status_enabled. split; [by intros [|]|by right].
  - intros Hp. by apply merged_value.
  - intros Hw. by apply merged_value.
Qed.

Lemma filter_disjoint {A} (f g : A → bool) l :
  (∀ x, f x = true → g x = false) →
  List.filter f l ++ List.filter g l ≡ₚ List.filter (λ x, f x || g x) l.
Proof.
  intros Hd. induction l as [|x l IH]; [done|]. cbn [List.filter].
  destruct (f x) eqn:Hf; cbn [orb].
  - rewrite (Hd x Hf). cbn [app]. by rewrite IH.
  - destruct (g x); [|done]. rewrite <- Permutation_middle. by rewrite IH.
Qed.

Lemma concat_of_tags ts cs :
  NoDup ts →
  concat (map (λ t, of_tag t cs) ts) ≡ₚ List.filter (λ c, bool_decide (tag_text c ∈ ts)) cs.
Proof.
  induction 1 as [|t ts Ht Hts IH]; cbn [map concat].
  { by rewrite bfilter_none by (intros; apply bool_decide_eq_false_2, not_elem_of_nil). }
  rewrite IH. unfold of_tag. rewrite filter_disjoint.
  - erewrite filter_ext; [reflexivity|]. intros c. cbn beta.
    rewrite <- bool_decide_or. apply bool_decide_ext. by rewrite elem_of_cons.
  - intros c Hc%bool_decide_eq_true. apply bool_decide_eq_false_2. by rewrite Hc.
Qed.

Lemma concat_of_tag cs : concat (map (λ t, of_tag t cs) (uniq (map tag_text cs))) ≡ₚ cs.
Proof.
  rewrite concat_of_tags by apply NoDup_uniq. rewrite bfilter_all; [done|].
  intros c Hc. apply bool_decide_eq_true_2. rewrite elem_of_uniq. apply list_elem_of_fmap. eauto.
Qed.

Lemma aggregate_eq cs :
  aggregateChannelsByTag cs = map (λ t, row_of t (of_tag t cs)) (uniq (map tag_text cs)).
Proof. unfold aggregateChannelsByTag. rewrite aggregate_rows. unfold rows_of. by rewrite map_map. Qed.

(** The value -1 stands for nothing seen: of the priorities -1 and 5 the row
    shows 5. *)
Lemma priority_sentinel :
  let c p := mkChannel JNull [] (Some (js "t")) [] 0 (Some 1) [] 0 num_zero (Some p) (Some 0) num_zero
    0 0 0 [] None [] in
  map (λ r, priority (row r)) (aggregateChannelsByTag [c (-1); c 5]) = [Some 5].
Proof. vm_compute. reflexivity. Qed.

(** In tag mode the table has one row per tag, in the order of the first
    channels; each channel is a child of exactly the row of its tag, in order;
    a row shows the sum of the quotas, is enabled when one of its channels is,
    and shows a priority or weight when all its channels share it, provided
    none of them is -1. *)
Theorem aggregate_spec cs :
  let rows := aggregateChannelsByTag cs in
  map (λ r, tag (row r)) rows = map Some (uniq (map tag_text cs)) ∧
  concat (map children rows) ≡ₚ cs ∧
  ∀ r, r ∈ rows → ∃ t, tag (row r) = Some t ∧ children r = of_tag t cs ∧ children r ≠ [] ∧
    used_quota (row r) = sum_quota (children r) ∧
    (status (row r) = Some 1 ↔ ∃ c, c ∈ children r ∧ status c = Some 1) ∧
    ((∀ c, c ∈ children r → priority c ≠ Some (-1)) →
      priority (row r) = common_value priority (children r)) ∧
    ((∀ c, c ∈ children r → weight c ≠ Some (-1)) →
      weight (row r) = common_value weight (children r)).
Proof.
  intros rows. subst rows. rewrite aggregate_eq. split_and!.
  - rewrite map_map. apply map_ext_in. intros t Ht%list_elem_of_In. rewrite elem_of_uniq in Ht.
    by apply row_of_tag, of_tag_ne.
  - rewrite map_map. rewrite (map_ext _ (λ t, of_tag t cs)) by (intros t; apply row_of_children).
    apply concat_of_tag.
  - intros r (t & -> & Ht)%list_elem_of_fmap. rewrite elem_of_uniq in Ht. exists t.
    pose proof (of_tag_ne t cs Ht) as Hne. rewrite row_of_children.
    destruct (row_of_shows t (of_tag t cs) Hne) as (? & ? & ? & ?).
    split_and!; [by apply row_of_tag|done..].
Qed.

End Tags.
