(* ===== verification/ContentBackup.v ===== *)
(** * Content backup

    The administrators' pages on the backup of request bodies
    ([features/content-backup]): who may open them, the order of the upload
    queue and the batches it is retried in, the fingerprint that keys cached
    lookups by session, the fields of the settings form the server also checks,
    and the pinned SSH host key.  [Date.parse], lower case and comparison by
    locale are parameters. *)
From S2P Require Import Prelude JSString JSNumber JSON Regex Access.
Import AdminPerms.
Local Open Scope Z_scope.

Module Perms.

(** ** Permissions *)

Definition CONTENT_BACKUP_PERM_VIEW : jsstr := js "content_backup.view".
Definition CONTENT_BACKUP_PERM_MANAGE : jsstr := js "content_backup.manage".

Record ContentBackupPerms := mkPerms { view : bool; manage : bool }.

(** [flags?.key === true] *)
Definition flag_true (flags : option (obj json)) (key : jsstr) : bool :=
  match flags with
  | Some flags => match obj_get key flags with Some (JBool true) => true | _ => false end
  | None => false
  end.

(** [permList?.includes(perm) ?? false] *)
Definition list_grants (permList : option (list jsstr)) (perm : jsstr) : bool :=
  match permList with Some l => list_includes l perm | None => false end.

Definition resolveContentBackupPerms (role : option Z) (flags : option (obj json))
    (permList : option (list jsstr)) : ContentBackupPerms :=
  let level := opt_or role 0 in
  if level <? ROLE_ADMIN then mkPerms false false else
  if ROLE_SUPER_ADMIN <=? level then mkPerms true true else
  let manage := flag_true flags (js "content_backup_manage") ||
    list_grants permList CONTENT_BACKUP_PERM_MANAGE in
  let view := manage || flag_true flags (js "content_backup_view") ||
    list_grants permList CONTENT_BACKUP_PERM_VIEW in
  mkPerms view manage.

(** The flags of a user as [lib/admin-perms.ts] types them. *)
Definition flags_agree (o : option (obj json)) (f : option (Flags (option bool))) : Prop :=
  match o, f with
  | None, None => True
  | Some o, Some f =>
      obj_get (js "content_backup_view") o = JBool <$> content_backup_view f ∧
      obj_get (js "content_backup_manage") o = JBool <$> content_backup_manage f
  | _, _ => False
  end.

Lemma flag_true_agree (get : Flags (option bool) → option bool) k o f :
  obj_get k o = JBool <$> get f → flag_true (Some o) k = opt_or (get f) false.
Proof. unfold flag_true. intros ->. by destruct (get f) as [[]|]. Qed.

(** The page's own resolver grants what [resolveAdminPermFlags] grants, to
    the same roles, and managing includes viewing; it grants more in one case:
    when the server sends the flags, [resolveAdminPermFlags] no longer looks at
    the list, while the page still does. *)
Theorem backup_perms_spec role o f permList :
  flags_agree o f →
  let p := resolveContentBackupPerms role o permList in
  let a := resolveAdminPermFlags role f permList in
  (manage p = true → view p = true) ∧
  (opt_or role 0 < ROLE_ADMIN → p = mkPerms false false) ∧
  (ROLE_SUPER_ADMIN <= opt_or role 0 → p = mkPerms true true) ∧
  (ROLE_ADMIN <= opt_or role 0 < ROLE_SUPER_ADMIN →
    manage p = content_backup_manage a || (bool_decide (is_Some f) &&
      list_grants permList CONTENT_BACKUP_PERM_MANAGE) ∧
    view p = content_backup_view a || manage p || (bool_decide (is_Some f) &&
      list_grants permList CONTENT_BACKUP_PERM_VIEW)).
Proof.
  intros Hf p a. subst p a. unfold resolveContentBackupPerms, resolveAdminPermFlags.
  destruct (Z.ltb_spec (opt_or role 0) ROLE_ADMIN) as [H1|H1].
  { split_and!; [done|done|unfold ROLE_ADMIN, ROLE_SUPER_ADMIN in *; lia|lia]. }
  destruct (Z.leb_spec ROLE_SUPER_ADMIN (opt_or role 0)) as [H2|H2].
  { split_and!; [done|lia|done|lia]. }
  split; [simpl; intros ->; done|]. split; [lia|]. split; [lia|]. intros _.
  destruct o as [o|], f as [f|]; try done; cbn [view manage].
  - destruct Hf as [Hv Hm].
    rewrite (flag_true_agree _ _ _ _ Hv), (flag_true_agree _ _ _ _ Hm).
    rewrite !bool_decide_eq_true_2 by (by eexists).
    unfold spread_flags. cbn [content_backup_view content_backup_manage NO_PERMS andb].
    split; [done|].
    destruct (opt_or (content_backup_view f) false), (opt_or (content_backup_manage f) false),
      (list_grants permList CONTENT_BACKUP_PERM_MANAGE); done.
  - rewrite !bool_decide_eq_false_2 by (by intros []). destruct permList as [l|]; [|done]. simpl.
    rewrite !orb_false_r. split; [done|]. apply orb_comm.
Qed.

(** An administrator whose flags deny both, with the older list granting one. *)
Theorem backup_perms_spec_witness :
  let o := [(js "content_backup_view", JBool false)] in
  let f := mkFlags None None None None None None None None None None (Some false) None in
  resolveContentBackupPerms (Some 10) (Some o) (Some [CONTENT_BACKUP_PERM_VIEW]) = mkPerms true false ∧
  content_backup_view (resolveAdminPermFlags (Some 10) (Some f)
    (Some [CONTENT_BACKUP_PERM_VIEW])) = false ∧
  view (resolveContentBackupPerms (Some 10) (Some o) (Some [CONTENT_BACKUP_PERM_VIEW])) = true.
Proof.
  intros o f. split; [reflexivity|]. split; [reflexivity|].
  destruct (backup_perms_spec (Some 10) (Some o) (Some f) (Some [CONTENT_BACKUP_PERM_VIEW]))
    as (_ & _ & _ & H).
  - split; reflexivity.
  - destruct H as [_ ->]; [|reflexivity]. vm_compute. split; [intros H; inversion H|reflexivity].
Defined.

End Perms.

Module Queue.

(** ** The upload queue *)

Definition CONTENT_BACKUP_MAX_RETRY_BATCH : nat := 100%nat.
Definition CONTENT_BACKUP_MAX_PAGE_SIZE : Z := 100.
Definition MAX_SAFE_INTEGER : Z := 9007199254740991.
Definition CONTENT_BACKUP_UNRECOVERABLE_ERROR_CODE : list jsstr :=
  [js "local_missing"; js "hash_error"; js "incomplete_spool"].

(** The fields of a job that the definitions of this file read. *)
Record ContentBackupJob := mkJob {
  job_id : option jsstr;
  status : option jsstr;
  created_at : option jsstr;
}.

Definition isRetryableStatus (status : option jsstr) : bool :=
  bool_decide (status = Some (js "failed")).

Definition retryBlockedLabel (errorCode : option jsstr) : option jsstr :=
  match errorCode with
  | Some ((_ :: _) as code) =>
      if list_includes CONTENT_BACKUP_UNRECOVERABLE_ERROR_CODE code
      then Some (js "Needs offline recovery before it can be queued") else None
  | _ => None
  end.

Record RetryReason := mkReason {
  code : option jsstr;
  blockedLabel : option jsstr;
  raw : option jsstr;
}.

Definition parseRetryReason (reason : option jsstr) : RetryReason :=
  match reason with
  | None | Some [] => mkReason None None None
  | Some reason =>
      if negb (starts_with (js "not_retryable:") reason) then mkReason None None (Some reason)
      else
        let code := drop (length (js "not_retryable:")) reason in
        mkReason (Some code) (retryBlockedLabel (Some code)) (Some reason)
  end.

Definition queueRank (status : option jsstr) : Z :=
  if bool_decide (status = Some (js "failed")) then 0
  else if bool_decide (status = Some (js "processing")) then 1
  else 2.

Section Order.
(** [Date.parse], absent where it gives NaN, and [a.localeCompare(b)]. *)
Variable dateParse : jsstr → option Z.
Variable localeCompare : jsstr → jsstr → Z.

Definition sortTime (item : ContentBackupJob) : Z :=
  match created_at item with
  | None | Some [] => MAX_SAFE_INTEGER
  | Some t => opt_or (dateParse t) MAX_SAFE_INTEGER
  end.

(** The comparison given to [sort]. *)
Definition compareJobs (a b : ContentBackupJob) : Z :=
  let rank := queueRank (status a) - queueRank (status b) in
  if negb (rank =? 0) then rank else
  let time := sortTime a - sortTime b in
  if negb (time =? 0) then time else
  localeCompare (opt_or (job_id a) []) (opt_or (job_id b) []).

Definition sortQueueJobs (items : list ContentBackupJob) : list ContentBackupJob :=
  js_sort compareJobs items.

(** *** Order *)

#[export] Instance compareJobs_order : CmpOrder localeCompare → CmpOrder compareJobs.
Proof.
  intros [Htot Htr]. split.
  - intros x y. unfold compareJobs.
    destruct (Z.eqb_spec (queueRank (status x) - queueRank (status y)) 0); simpl;
      destruct (Z.eqb_spec (queueRank (status y) - queueRank (status x)) 0); simpl; try lia.
    destruct (Z.eqb_spec (sortTime x - sortTime y) 0); simpl;
      destruct (Z.eqb_spec (sortTime y - sortTime x) 0); simpl; try lia. apply Htot.
  - intros x y z. unfold compareJobs.
    destruct (Z.eqb_spec (queueRank (status x) - queueRank (status y)) 0); simpl;
    destruct (Z.eqb_spec (queueRank (status y) - queueRank (status z)) 0); simpl;
    destruct (Z.eqb_spec (queueRank (status x) - queueRank (status z)) 0); simpl; try lia.
    destruct (Z.eqb_spec (sortTime x - sortTime y) 0); simpl;
    destruct (Z.eqb_spec (sortTime y - sortTime z) 0); simpl;
    destruct (Z.eqb_spec (sortTime x - sortTime z) 0); simpl; try lia. apply Htr.
Qed.

(** What stands before what in the queue: failed jobs, then running ones, then
    the rest; in each the oldest first, those without a date last. *)
Definition before (a b : ContentBackupJob) : Prop :=
  queueRank (status a) < queueRank (status b) ∨
  queueRank (status a) = queueRank (status b) ∧
    (sortTime a < sortTime b ∨
     sortTime a = sortTime b ∧ localeCompare (opt_or (job_id a) []) (opt_or (job_id b) []) <= 0).

Lemma compareJobs_before a b : cmp_le compareJobs a b ↔ before a b.
Proof.
  unfold cmp_le, compareJobs, before.
  destruct (Z.eqb_spec (queueRank (status a) - queueRank (status b)) 0); simpl; [|lia].
  destruct (Z.eqb_spec (sortTime a - sortTime b) 0); simpl; lia.
Qed.

(** The queue shows every job once, each before those that come later: a
    failed job before any other, then the older one, then by id. *)
Theorem queue_order_spec items :
  CmpOrder localeCompare →
  sortQueueJobs items ≡ₚ items ∧ StronglySorted before (sortQueueJobs items).
Proof.
  intros Hl. split; [apply js_sort_perm|].
  apply (StronglySorted_impl (cmp_le compareJobs)); [|apply js_sort_sorted; apply _].
  intros a b. apply compareJobs_before.
Qed.
End Order.

(** With ids compared by code units and times that are numbers. *)
Theorem queue_order_spec_witness :
  let d s := Some (Z.of_N (digits_value s)) in
  let j1 := mkJob (Some (js "a")) (Some (js "pending")) (Some (js "10")) in
  let j2 := mkJob (Some (js "b")) (Some (js "failed")) (Some (js "30")) in
  let j3 := mkJob (Some (js "c")) (Some (js "failed")) (Some (js "20")) in
  sortQueueJobs d str_compare [j1; j2; j3] = [j3; j2; j1] ∧
  StronglySorted (before d str_compare) (sortQueueJobs d str_compare [j1; j2; j3]).
Proof.
  intros d j1 j2 j3. split; [vm_compute; reflexivity|].
  apply (queue_order_spec d str_compare [j1; j2; j3]). split.
  - intros x y. rewrite (str_compare_antisym x y). lia.
  - intros x y z. apply str_compare_trans.
Defined.

(** ** Batches *)

Record Batch := mkBatch { accepted : list jsstr; rejected : list jsstr }.

(** One turn of the loop, with the set [seen]. *)
Definition batch_step (st : list jsstr * Batch) (jobId : jsstr) : list jsstr * Batch :=
  let '(seen, b) := st in
  let trimmed := trim jobId in
  if bool_decide (trimmed = []) || bool_decide (trimmed ∈ seen) then st
  else
    (trimmed :: seen,
     if (length (accepted b) <? CONTENT_BACKUP_MAX_RETRY_BATCH)%nat
     then mkBatch (accepted b ++ [trimmed]) (rejected b)
     else mkBatch (accepted b) (rejected b ++ [trimmed])).

Definition clampRetryBatch (jobIds : list jsstr) : Batch :=
  snd (foldl batch_step ([], mkBatch [] []) jobIds).

Definition clampPageSize (pageSize : option Z) : Z :=
  match pageSize with
  | None => 20
  | Some n => if (n =? 0) || (n <=? 0) then 20 else Z.min n CONTENT_BACKUP_MAX_PAGE_SIZE
  end.

(** *** The batch is a prefix of the distinct ids *)

(** The first [k] places taken by [l], the rest left over. *)
Definition fill (b : Batch) (l : list jsstr) : Batch :=
  let k := (CONTENT_BACKUP_MAX_RETRY_BATCH - length (accepted b))%nat in
  mkBatch (accepted b ++ take k l) (rejected b ++ drop k l).

Lemma batch_fold l seen b :
  snd (foldl batch_step (seen, b) l) =
  fill b (uniq_from seen (List.filter nonempty (map trim l))).
Proof.
  revert seen b. induction l as [|x l IH]; intros seen b; cbn [map List.filter foldl].
  { unfold fill. simpl. rewrite take_nil, drop_nil, !app_nil_r. by destruct b. }
  cbn [batch_step]. destruct (trim x) as [|c t] eqn:Et; [apply IH|].
  rewrite bool_decide_eq_false_2 by done. cbn [nonempty orb uniq_from].
  destruct (decide (c :: t ∈ seen)) as [Hs|Hs];
    [rewrite bool_decide_eq_true_2 by done; apply IH|rewrite bool_decide_eq_false_2 by done].
  rewrite IH. unfold fill.
  destruct (Nat.ltb_spec (length (accepted b)) CONTENT_BACKUP_MAX_RETRY_BATCH) as [Hl|Hl];
    cbn [accepted rejected].
  - rewrite length_app. cbn [length].
    destruct (CONTENT_BACKUP_MAX_RETRY_BATCH - length (accepted b))%nat as [|k] eqn:Ek; [lia|].
    replace (CONTENT_BACKUP_MAX_RETRY_BATCH - (length (accepted b) + 1))%nat with k by lia.
    cbn [take drop]. by rewrite <- app_assoc.
  - replace (CONTENT_BACKUP_MAX_RETRY_BATCH - length (accepted b))%nat with 0%nat by lia.
    cbn [take drop]. by rewrite <- app_assoc.
Qed.

Lemma clampRetryBatch_fill l :
  clampRetryBatch l = fill (mkBatch [] []) (uniq (List.filter nonempty (map trim l))).
Proof. apply batch_fold. Qed.

(** A batch of clean distinct ids that fits is taken as it is. *)
Lemma clampRetryBatch_id a :
  (∀ x, x ∈ a → trim x = x ∧ nonempty x = true) → NoDup a →
  (length a ≤ CONTENT_BACKUP_MAX_RETRY_BATCH)%nat → clampRetryBatch a = mkBatch a [].
Proof.
  intros Ha Hn Hl. rewrite clampRetryBatch_fill.
  assert (map trim a = a) as ->.
  { clear Hn Hl. induction a as [|x a IH]; [done|]. simpl. destruct (Ha x) as [-> _]; [by left|].
    f_equal. apply IH. intros y Hy. apply Ha. by right. }
  rewrite bfilter_all, uniq_NoDup by (done || naive_solver).
  unfold fill. cbn [accepted rejected length app]. rewrite Nat.sub_0_r.
  by rewrite take_ge, drop_ge by done.
Qed.

Lemma clean_ids jobIds x :
  x ∈ uniq (List.filter nonempty (map trim jobIds)) → trim x = x ∧ nonempty x = true.
Proof.
  rewrite elem_of_uniq, elem_of_bfilter, list_elem_of_fmap.
  intros [(y & -> & _) Hne]. by rewrite trim_idemp.
Qed.

(** A retry takes the first hundred of the distinct ids that are not
    blank, in order, and gives back the others; nothing is lost or sent twice,
    and an accepted batch is accepted whole again. *)
Theorem retry_batch_spec jobIds :
  let b := clampRetryBatch jobIds in
  accepted b ++ rejected b = uniq (List.filter nonempty (map trim jobIds)) ∧
  (length (accepted b) ≤ CONTENT_BACKUP_MAX_RETRY_BATCH)%nat ∧
  (rejected b ≠ [] → length (accepted b) = CONTENT_BACKUP_MAX_RETRY_BATCH) ∧
  clampRetryBatch (accepted b) = mkBatch (accepted b) [].
Proof.
  intros b. subst b. rewrite (clampRetryBatch_fill jobIds).
  pose proof (clean_ids jobIds) as Hc. pose proof (NoDup_uniq (List.filter nonempty (map trim jobIds))) as Hn.
  set (u := uniq _) in *. unfold fill. cbn [accepted rejected length app]. rewrite Nat.sub_0_r.
  split; [apply take_drop|]. split; [rewrite length_take; lia|]. split.
  - intros Hr. rewrite length_take. enough (CONTENT_BACKUP_MAX_RETRY_BATCH < length u)%nat by lia.
    destruct (decide (length u ≤ CONTENT_BACKUP_MAX_RETRY_BATCH)%nat); [|lia].
    destruct Hr. by apply drop_ge.
  - pose proof (sublist_take u CONTENT_BACKUP_MAX_RETRY_BATCH) as Hs. apply clampRetryBatch_id.
    + intros x Hx. apply Hc. by eapply elem_of_submseteq; [|apply sublist_submseteq].
    + by eapply sublist_NoDup.
    + rewrite length_take. lia.
Qed.

End Queue.

Module Fingerprint.

(** ** The fingerprint of a session *)

(** [a ^ b], [Math.imul(a, b)] and [a >>> 0]. *)
Definition bit_xor (a b : Z) : Z := ToInt32 (Z.lxor (ToInt32 a) (ToInt32 b)).
Definition imul (a b : Z) : Z := ToInt32 (ToUint32 a * ToUint32 b).
Definition ushr0 (a : Z) : Z := ToUint32 a.

(** The digits of [n.toString(16)], for [fuel] of them at most. *)
Fixpoint hex_fuel (fuel : nat) (n : N) (acc : jsstr) : jsstr :=
  match fuel with
  | O => acc
  | S fuel =>
      let acc := hex_digit (n mod 16) :: acc in
      if (n <? 16)%N then acc else hex_fuel fuel (n / 16) acc
  end.
Definition string_of_hex (n : N) : jsstr := hex_fuel (S (N.size_nat n)) n [].

(** The body of the loop. *)
Definition hash_step (hash : Z) (c : jschar) : Z :=
  ushr0 (imul (bit_xor hash (Z.of_N c)) 0x01000193).

Definition sessionFingerprint (value : jsstr) : jsstr :=
  match value with
  | [] => []
  | _ =>
      let hash := foldl hash_step 0x811c9dc5 value in
      js "s" ++ pad_start 8 48%N (string_of_hex (Z.to_N hash)) ++ js "-" ++
        string_of_N (N.of_nat (length value))
  end.

(** *** FNV-1a on 32 bits *)

(** The hash as its authors define it, on the code units. *)
Definition fnv1a (value : jsstr) : N :=
  foldl (λ h c, N.lxor h c * 16777619 mod 2 ^ 32)%N 2166136261%N value.

(** The eight hexadecimal digits of a number, the highest first. *)
Fixpoint hex_digits (k : nat) (n : N) : jsstr :=
  match k with O => [] | S k => hex_digits k (n / 16) ++ [hex_digit (n mod 16)] end.

(** The bits of [ToInt32 z] below 32 are those of [z]. *)
Lemma ToUint32_lxor a b : ToUint32 (Z.lxor (ToInt32 a) (ToInt32 b)) = Z.lxor (ToUint32 a) (ToUint32 b).
Proof.
  rewrite <- (ToUint32_ToInt32 a), <- (ToUint32_ToInt32 b). unfold ToUint32.
  rewrite <- !Z.land_ones by lia. apply Z.bits_inj'. intros n Hn.
  rewrite !Z.land_spec, !Z.lxor_spec, !Z.land_spec. by destruct (Z.testbit (Z.ones 32) n);
    rewrite ?andb_true_r, ?andb_false_r.
Qed.

Lemma hash_step_N (h : N) (c : jschar) :
  (h < 2 ^ 32)%N → (c < 65536)%N →
  hash_step (Z.of_N h) c = Z.of_N (N.lxor h c * 16777619 mod 2 ^ 32).
Proof.
  intros Hh Hc. unfold hash_step, ushr0, imul, bit_xor.
  rewrite !ToUint32_ToInt32, ToUint32_lxor, (ToUint32_small (Z.of_N h)),
    (ToUint32_small (Z.of_N c)), (ToUint32_small 0x01000193) by lia.
  unfold ToUint32. by rewrite N2Z.inj_mod, N2Z.inj_mul, N2Z.inj_lxor.
Qed.

Lemma hash_fold value :
  is_utf16 value →
  foldl hash_step 0x811c9dc5 value = Z.of_N (fnv1a value) ∧ (fnv1a value < 2 ^ 32)%N.
Proof.
  unfold fnv1a. change 0x811c9dc5 with (Z.of_N 2166136261).
  intros Hv. assert (2166136261 < 2 ^ 32)%N as Hh by done. revert Hh.
  generalize 2166136261%N as h. induction Hv as [|c value Hc Hv IH]; intros h Hh; cbn [foldl]; [done|].
  rewrite hash_step_N by done. apply IH. apply N.mod_lt. done.
Qed.

Lemma hex_digits_0 k : hex_digits k 0 = replicate k 48%N.
Proof.
  induction k as [|k IH]; [done|]. cbn [hex_digits]. change (0 / 16)%N with 0%N. rewrite IH.
  change [hex_digit (0 mod 16)] with [48%N]. by rewrite <- replicate_cons_app.
Qed.

Lemma hex_fuel_pad f n acc k :
  (n < 16 ^ N.of_nat f)%N → (n < 16 ^ N.of_nat k)%N → (1 ≤ f)%nat → (1 ≤ k)%nat →
  ∃ w, hex_fuel f n acc = w ++ acc ∧ pad_start k 48%N w = hex_digits k n.
Proof.
  revert n acc k. induction f as [|f IH]; intros n acc [|k] Hf Hk H1 H2; [lia..|].
  cbn [hex_fuel hex_digits]. destruct (N.ltb_spec n 16) as [Hn|Hn].
  { exists [hex_digit (n mod 16)]. split; [done|]. unfold pad_start. cbn [length].
    rewrite N.div_small, hex_digits_0 by done. by rewrite Nat.sub_succ, Nat.sub_0_r. }
  rewrite Nat2N.inj_succ, N.pow_succ_r' in Hf, Hk.
  destruct (IH (n / 16)%N (hex_digit (n mod 16) :: acc) k) as (w & -> & Hw).
  - apply N.Div0.div_lt_upper_bound. lia.
  - apply N.Div0.div_lt_upper_bound. lia.
  - destruct f; [|lia]. simpl in Hf. lia.
  - destruct k; [|lia]. simpl in Hk. lia.
  - exists (w ++ [hex_digit (n mod 16)]). split; [by rewrite <- app_assoc|].
    rewrite <- Hw. unfold pad_start. rewrite length_app. cbn [length].
    rewrite app_assoc. do 3 f_equal. lia.
Qed.

Lemma string_of_hex_pad k n :
  (n < 16 ^ N.of_nat k)%N → (1 ≤ k)%nat → pad_start k 48%N (string_of_hex n) = hex_digits k n.
Proof.
  intros Hn Hk. unfold string_of_hex.
  destruct (hex_fuel_pad (S (N.size_nat n)) n [] k) as (w & -> & Hw); [|done|lia|done|].
  - eapply N.lt_le_trans; [apply size_nat_bound|]. apply N.pow_le_mono_l. lia.
  - by rewrite app_nil_r.
Qed.

Lemma hex_digits_length k n : length (hex_digits k n) = k.
Proof. revert n. induction k as [|k IH]; intros n; simpl; [done|]. rewrite length_app, IH. simpl. lia. Qed.

Lemma hex_digit_inj a b : (a < 16)%N → (b < 16)%N → hex_digit a = hex_digit b → a = b.
Proof.
  unfold hex_digit. intros. destruct (N.ltb_spec a 10), (N.ltb_spec b 10); lia.
Qed.

Lemma hex_digits_inj k n m :
  (n < 16 ^ N.of_nat k)%N → (m < 16 ^ N.of_nat k)%N → hex_digits k n = hex_digits k m → n = m.
Proof.
  revert n m. induction k as [|k IH]; intros n m Hn Hm; [simpl in Hn, Hm; lia|].
  rewrite Nat2N.inj_succ, N.pow_succ_r' in Hn, Hm. cbn [hex_digits].
  intros [E [= Hd]]%app_inj_tail. apply hex_digit_inj in Hd; [|by apply N.mod_lt..].
  apply IH in E; [|by apply N.Div0.div_lt_upper_bound..].
  by rewrite (N.div_mod n 16), (N.div_mod m 16), E, Hd.
Qed.

Lemma sessionFingerprint_eq v :
  is_utf16 v → v ≠ [] →
  sessionFingerprint v =
    js "s" ++ hex_digits 8 (fnv1a v) ++ js "-" ++ string_of_N (N.of_nat (length v)).
Proof.
  intros Hv Hne. destruct (hash_fold v Hv) as [Hf Hb]. unfold sessionFingerprint.
  destruct v; [done|]. rewrite Hf, N2Z.id, string_of_hex_pad; [done|done|lia].
Qed.

(** The fingerprint is the letter s, the 32-bit FNV-1a hash of the text in
    exactly eight hexadecimal digits and the length: the signed 32-bit
    arithmetic of the source never leaves the hash, and two sessions share a
    cache key exactly when both hash and length agree. *)
Theorem session_fingerprint_spec v :
  is_utf16 v → v ≠ [] →
  (fnv1a v < 2 ^ 32)%N ∧
  sessionFingerprint v =
    js "s" ++ hex_digits 8 (fnv1a v) ++ js "-" ++ string_of_N (N.of_nat (length v)) ∧
  ∀ w, is_utf16 w →
    sessionFingerprint w = sessionFingerprint v ↔ fnv1a w = fnv1a v ∧ length w = length v.
Proof.
  intros Hv Hne. destruct (hash_fold v Hv) as [_ Hb]. split; [done|].
  split; [by apply sessionFingerprint_eq|]. intros w Hw. split.
  - destruct w as [|c w']; [rewrite (sessionFingerprint_eq v) by done; done|].
    destruct (hash_fold (c :: w') Hw) as [_ Hb'].
    rewrite (sessionFingerprint_eq v), (sessionFingerprint_eq (c :: w')) by done.
    intros [_ E]%app_inj_1; [|done]. apply app_inj_1 in E as [Eh [_ El]%app_inj_1];
      [|done|by rewrite !hex_digits_length]. split.
    + by apply (hex_digits_inj 8).
    + apply string_of_N_inj in El. lia.
  - intros [Eh El]. assert (w ≠ []) by (intros ->; destruct v; done).
    by rewrite !sessionFingerprint_eq, Eh, El.
Qed.

(** The fingerprint of abc. *)
Theorem session_fingerprint_spec_witness :
  sessionFingerprint (js "abc") = js "s1a47e90b-3" ∧ (fnv1a (js "abc") < 2 ^ 32)%N.
Proof.
  split; [vm_compute; reflexivity|].
  apply (session_fingerprint_spec (js "abc")); [repeat constructor|discriminate].
Defined.

End Fingerprint.
