(* ===== verification/BackupForm.v ===== *)
(** * The settings form of the content backup

    What the form does to the fields the server checks again
    ([features/content-backup/config-form.ts]): the directory on the remote
    host, the fields of the protocol that is not in use, the defaults.  The
    checks of the server ([pkg/contentbackup/config.go]) are written out to
    state that the form accepts what the server accepts. *)
From S2P Require Import Prelude JSString JSNumber JSON Regex Base64.
Local Open Scope re_scope.

Module ConfigForm.

Definition SLASH : jschar := 47%N.

(** One segment of the directory: a slash, a lookahead that refuses the
    segments . and .., and the name. *)
Definition dir_segment : regex :=
  lit (js "/") · RNot (lit (js ".") · ROpt (lit (js ".")) · RAlt (lit (js "/")) REnd) ·
  RPlus (RChar (not_char SLASH)).

Definition REMOTE_BASE_DIR_PATTERN : regex :=
  RAlt (RStart · lit (js "/") · REnd) (RStart · RPlus dir_segment · REnd).

Definition isValidRemoteBaseDir (value : jsstr) : bool :=
  bool_decide (value = []) || re_test REMOTE_BASE_DIR_PATTERN value.

(** ** The values of the form *)

Definition DEFAULT_FORM_VALUES : obj json :=
  [
   (js "enabled", JBool false);
   (js "upload_paused", JBool false);
   (js "site_label", JStr []);
   (js "target_id", JStr []);
   (js "remote_username", JStr []);
   (js "remote_password", JStr []);
   (js "ftps_host", JStr []);
   (js "ftps_port", JNum (num_of_Z (21)));
   (js "cert_sha256", JStr []);
   (js "remote_protocol", JStr (js "ftps"));
   (js "sftp_host", JStr []);
   (js "sftp_port", JNum (num_of_Z (22)));
   (js "sftp_host_key_sha256", JStr []);
   (js "sftp_base_dir", JStr []);
   (js "max_body_bytes", JNum (num_of_Z (8 * 1024 * 1024)));
   (js "capture_memory_mb", JNum (num_of_Z (64)));
   (js "max_inflight_captures", JNum (num_of_Z (128)));
   (js "handoff_workers", JNum (num_of_Z (1)));
   (js "spool_workers", JNum (num_of_Z (1)));
   (js "upload_workers", JNum (num_of_Z (8)));
   (js "read_workers", JNum (num_of_Z (1)));
   (js "max_spool_mb", JNum (num_of_Z (2048)));
   (js "handoff_attempt_timeout_seconds", JNum (num_of_Z (30)));
   (js "handoff_deadline_seconds", JNum (num_of_Z (60)));
   (js "handoff_max_attempts", JNum (num_of_Z (2)));
   (js "daemon_db_max_open", JNum (num_of_Z (4)));
   (js "daemon_db_max_idle", JNum (num_of_Z (2)));
   (js "daemon_sqlite_db_max_open", JNum (num_of_Z (1)));
   (js "daemon_db_timeout_seconds", JNum (num_of_Z (3)));
   (js "config_reload_seconds", JNum (num_of_Z (5)));
   (js "upload_bandwidth_mib", JNum (num_of_Z (32)));
   (js "read_bandwidth_mib", JNum (num_of_Z (1)));
   (js "upload_timeout_seconds", JNum (num_of_Z (120)));
   (js "ftps_connect_timeout_seconds", JNum (num_of_Z (10)));
   (js "lease_seconds", JNum (num_of_Z (180)));
   (js "lease_renew_seconds", JNum (num_of_Z (30)));
   (js "max_upload_attempts", JNum (num_of_Z (16)));
   (js "read_timeout_seconds", JNum (num_of_Z (30)));
   (js "preview_bytes_per_side", JNum (num_of_Z (256 * 1024)));
   (js "max_decompress_bytes", JNum (num_of_Z (24 * 1024 * 1024)));
   (js "read_budget_mb", JNum (num_of_Z (128)));
   (js "reconcile_interval_seconds", JNum (num_of_Z (30)));
   (js "heartbeat_interval_seconds", JNum (num_of_Z (15)));
   (js "node_offline_seconds", JNum (num_of_Z (45)));
   (js "queue_refresh_seconds", JNum (num_of_Z (10)));
   (js "node_stats_refresh_seconds", JNum (num_of_Z (30)));
   (js "spool_alert_percent", JNum (num_of_Z (80)));
   (js "spool_stop_percent", JNum (num_of_Z (90)));
   (js "inode_alert_percent", JNum (num_of_Z (90)));
   (js "inode_recover_percent", JNum (num_of_Z (80)));
   (js "min_free_bytes", JNum (num_of_Z (1024 * 1024 * 1024)));
   (js "min_free_percent", JNum (num_of_Z (10)));
   (js "oldest_pending_alert_minutes", JNum (num_of_Z (15)));
   (js "cleanup_pending_alert_minutes", JNum (num_of_Z (30)));
   (js "alert_dedup_minutes", JNum (num_of_Z (30)));
   (js "notify_oldest_pending", JBool true);
   (js "notify_cleanup_pending", JBool true);
   (js "notify_spool_high", JBool true);
   (js "notify_inode_high", JBool true);
   (js "notify_failed", JBool true);
   (js "notify_handoff_rejected", JBool true);
   (js "notify_node_offline", JBool true);
   (js "content_retention_days", JNum (num_of_Z (30)));
   (js "index_retention_days", JNum (num_of_Z (30)));
   (js "stats_retention_days", JNum (num_of_Z (90)))
  ]%Z.

(** An object that may hold [undefined] explicitly, without those keys. *)
Definition definedEntries (value : obj (option json)) : obj json :=
  omap (λ kv, pair kv.1 <$> kv.2) value.

(** [p === 'sftp' ? 'sftp' : 'ftps'] *)
Definition known_protocol (p : option json) : json :=
  if bool_decide (p = Some (JStr (js "sftp"))) then JStr (js "sftp") else JStr (js "ftps").

Definition mergeFormValues (values : obj (option json)) : obj json :=
  let clean := definedEntries values in
  obj_set (js "remote_protocol") (known_protocol (obj_get (js "remote_protocol") clean))
    (obj_assign DEFAULT_FORM_VALUES clean).

Definition normalizeConfigForForm (config : obj (option json)) : obj json :=
  mergeFormValues
    (obj_set (js "remote_protocol")
       (Some (known_protocol (mjoin (obj_get (js "remote_protocol") config)))) config).

(** [/^[A-Za-z0-9._-]{1,253}$/] and [/^[a-f0-9]{64}$/]. *)
Definition host_char (c : jschar) : bool :=
  is_upper c || is_lower c || is_digit c || (c =? 46)%N || (c =? 95)%N || (c =? 45)%N.
Definition HOST_PATTERN (s : jsstr) : bool :=
  forallb host_char s && ((1 <=? length s) && (length s <=? 253)).
Definition hex_char (c : jschar) : bool := ((97 <=? c) && (c <=? 102))%N || is_digit c.
Definition HEX64_PATTERN (s : jsstr) : bool := forallb hex_char s && (length s =? 64).

Definition asString (value : option json) : jsstr :=
  match value with Some (JStr s) => s | _ => [] end.

Definition hostOk (value : jsstr) : bool := bool_decide (value = []) || HOST_PATTERN value.
Definition pinOk (value : jsstr) : bool := bool_decide (value = []) || HEX64_PATTERN value.

(** [{ ...values, key: ok(s) ? s : '' }] with the string [s] of the key. *)
Definition keep_if (ok : jsstr → bool) (key : jsstr) (values acc : obj json) : obj json :=
  let s := asString (obj_get key values) in obj_set key (JStr (if ok s then s else [])) acc.

Definition sanitizeInactiveProtocolFields (values : obj json) : obj json :=
  if bool_decide (obj_get (js "remote_protocol") values = Some (JStr (js "sftp"))) then
    keep_if pinOk (js "cert_sha256") values
      (keep_if hostOk (js "ftps_host") values values)
  else
    keep_if isValidRemoteBaseDir (js "sftp_base_dir") values
      (keep_if pinOk (js "sftp_host_key_sha256") values
        (keep_if hostOk (js "sftp_host") values values)).

(** ** The checks of the server *)

(** [path.Clean] of Go on a path that begins with a slash: empty segments and
    . are dropped, .. takes the segment before it away. *)
Definition clean_step (out : list jsstr) (segment : jsstr) : list jsstr :=
  if bool_decide (segment = []) || bool_decide (segment = js ".") then out
  else if bool_decide (segment = js "..") then removelast out
  else out ++ [segment].

Definition path_Clean (dir : jsstr) : jsstr :=
  SLASH :: join [SLASH] (foldl clean_step [] (split_on SLASH dir)).

(** [strings.Trim(dir, '/')] *)
Fixpoint trim_left (s : jsstr) : jsstr :=
  match s with c :: t => if (c =? SLASH)%N then trim_left t else s | [] => [] end.
Definition strings_Trim (s : jsstr) : jsstr := reverse (trim_left (reverse (trim_left s))).

Definition ValidateRemoteBaseDir (dir : jsstr) : bool :=
  if bool_decide (dir = []) then true
  else if negb (starts_with [SLASH] dir) then false
  else if negb (bool_decide (path_Clean dir = dir)) ||
    (negb (bool_decide (dir = [SLASH])) && ends_with [SLASH] dir) then false
  else forallb
    (λ segment, negb (bool_decide (segment = js ".") || bool_decide (segment = js "..")))
    (split_on SLASH (strings_Trim dir)).

(** ** Directories *)

(** The name of a directory. *)
Definition good (w : jsstr) : Prop := w ≠ [] ∧ SLASH ∉ w ∧ w ≠ js "." ∧ w ≠ js "..".

Definition dir_of (segs : list jsstr) : jsstr := concat (map (cons SLASH) segs).

Definition clean_dir (dir : jsstr) : Prop :=
  dir = [] ∨ dir = [SLASH] ∨ ∃ segs, segs ≠ [] ∧ Forall good segs ∧ dir = dir_of segs.

Lemma not_slash_Forall w : SLASH ∉ w ↔ Forall (λ c, not_char SLASH c = true) w.
Proof.
  unfold not_char. split.
  - intros H. apply Forall_forall. intros c Hc. apply negb_true_iff, N.eqb_neq. by intros ->.
  - intros H Hs. by apply (proj1 (Forall_forall _ _) H) in Hs.
Qed.

(** *** The pattern *)

(** What the lookahead refuses. *)
Definition dots_ahead (s : jsstr) : Prop :=
  ∃ d t, d ∈ [js "."; js ".."] ∧ s = d ++ t ∧ (t = [] ∨ ∃ t', t = SLASH :: t').

Lemma in_lookahead p s m :
  (∃ x, x ∈ matches (lit (js ".") · ROpt (lit (js ".")) · RAlt (lit (js "/")) REnd) (mkSt p s m)) ↔
  dots_ahead s.
Proof.
  split.
  - intros [x Hx]. re_inv; cbn in *; subst; unfold dots_ahead.
    + eexists (js ".."), (js "/" ++ _). split; [set_solver|]. split; [reflexivity|]. right. by eexists.
    + exists (js ".."), []. split; [set_solver|]. split; [reflexivity|by left].
    + eexists (js "."), (js "/" ++ _). split; [set_solver|]. split; [reflexivity|]. right. by eexists.
    + exists (js "."), []. split; [set_solver|]. split; [reflexivity|by left].
  - intros (d & t & Hd & -> & Ht).
    assert (∀ p, ∃ x, x ∈ matches (RAlt (lit (js "/")) REnd) (mkSt p t m)) as Hend.
    { intros q. destruct Ht as [-> |[t' ->]]; eexists; apply elem_of_alt; [right|left].
      - by apply in_end.
      - apply in_lit. by exists t'. }
    enough (can (lit (js ".") · ROpt (lit (js ".")) · RAlt (lit (js "/")) REnd) (d ++ t) m) as Hc
      by apply Hc.
    apply elem_of_cons in Hd as [->|[->|[]%not_elem_of_nil]%elem_of_cons].
    + apply can_lit. apply (can_seq _ _ _ t m m); [|done]. intros q. exists q.
      unfold ROpt. apply elem_of_alt. right. by apply elem_of_eps.
    + change (js ".." ++ t) with (js "." ++ (js "." ++ t)). apply can_lit.
      apply (can_seq _ _ _ t m m); [|done]. intros q. eexists.
      unfold ROpt. apply elem_of_alt. left. apply in_lit. by exists t.
Qed.

Lemma in_segment p s m x :
  x ∈ matches dir_segment (mkSt p s m) ↔
  ∃ w t, s = SLASH :: w ++ t ∧ w ≠ [] ∧ SLASH ∉ w ∧ ¬ dots_ahead (w ++ t) ∧
    x = mkSt (reverse w ++ SLASH :: p) t m.
Proof.
  unfold dir_segment. split.
  - intros H. apply elem_of_seq in H as (x1 & (t1 & -> & ->)%in_lit & H).
    apply elem_of_seq in H as (x2 & [Hn ->]%elem_of_not & H).
    apply in_plus in H as (w & t & -> & Hne & Hw & ->). exists w, t.
    split_and!; [done|done|by apply not_slash_Forall| |done].
    rewrite <- (in_lookahead (reverse (js "/") ++ p) _ m). intros [y Hy]. by destruct (Hn y).
  - intros (w & t & -> & Hne & Hw & Hd & ->). apply elem_of_seq. eexists. split.
    { apply in_lit. by exists (w ++ t). }
    apply elem_of_seq. eexists. split.
    { apply elem_of_not. split; [|done]. intros y Hy. apply Hd.
      rewrite <- (in_lookahead (reverse (js "/") ++ p) _ m). by exists y. }
    apply in_plus. exists w, t. split_and!; [done|done|by apply not_slash_Forall|done].
Qed.

Lemma dots_ahead_good w t :
  SLASH ∉ w → (t = [] ∨ ∃ t', t = SLASH :: t') → dots_ahead (w ++ t) ↔ w = js "." ∨ w = js "..".
Proof.
  intros Hw Ht. split.
  - intros (d & t2 & Hd & E & Ht2). enough (w = d) by set_solver.
    assert (SLASH ∉ d) as Hsd.
    { apply elem_of_cons in Hd as [->|[->|[]%not_elem_of_nil]%elem_of_cons]; vm_compute;
        intros H; repeat (apply elem_of_cons in H as [H|H]; [done|]); by apply not_elem_of_nil in H. }
    apply not_slash_Forall in Hw, Hsd.
    assert (not_char SLASH SLASH = false) as Hc by done.
    destruct Ht as [-> |[t' ->]], Ht2 as [-> |[t2' ->]]; rewrite ?app_nil_r in E.
    + done.
    + by apply (cut_class_end _ _ d SLASH t2' Hw) in E.
    + symmetry in E. by apply (cut_class_end _ _ w SLASH t' Hsd) in E.
    + by destruct (cut_class _ _ _ _ _ _ _ Hw Hsd Hc Hc E) as [-> _].
  - intros Hd. exists w, t. set_solver.
Qed.

(** The repeated group up to the end of the text. *)
Lemma star_segments p s m :
  (∃ x, x ∈ matches (RStar dir_segment) (mkSt p s m) ∧ rest x = []) ↔
  ∃ segs, Forall good segs ∧ s = dir_of segs.
Proof.
  split.
  - intros (x & Hx & Er). cbn [matches rest] in Hx. remember (length s) as n eqn:En. clear En.
    revert p s m Hx. induction n as [|n IH]; intros p s m; cbn [star].
    { intros ->%list_elem_of_singleton. simpl in Er. subst s. by exists []. }
    rewrite elem_of_app, list_elem_of_singleton, elem_of_concat.
    intros [(l & (st1 & -> & H1)%list_elem_of_fmap & H2)| ->];
      [|simpl in Er; subst s; by exists []].
    apply in_segment in H1 as (w & t & -> & Hne & Hw & Hd & ->). cbn [rest] in H2.
    destruct (_ <? _); [|by apply not_elem_of_nil in H2].
    apply IH in H2 as (segs & Hs & ->). exists (w :: segs). split; [|done].
    constructor; [|done]. rewrite dots_ahead_good in Hd; [unfold good; naive_solver|done|].
    destruct segs as [|w2 segs]; [by left|right]. by eexists.
  - intros (segs & Hs & ->). revert p. induction Hs as [|w segs (Hne & Hw & H1 & H2) Hs IH]; intros p.
    { eexists. split; [apply in_star_end|done]. }
    destruct (IH (reverse w ++ SLASH :: p)) as (x & Hx & Er). exists x. split; [|done].
    eapply in_star_step; [|cbn [rest]|exact Hx].
    + apply in_segment. exists w, (dir_of segs). split_and!; [done|done|done| |done].
      rewrite dots_ahead_good; [naive_solver|done|].
      destruct segs as [|w2 segs]; [by left|right]. by eexists.
    + unfold dir_of. simpl. rewrite length_app. lia.
Qed.

Lemma plus_segments s m :
  (∃ x, x ∈ matches (RPlus dir_segment · REnd) (mkSt [] s m)) ↔
  ∃ segs, segs ≠ [] ∧ Forall good segs ∧ s = dir_of segs.
Proof.
  split.
  - intros (x & (x1 & (x2 & H1 & H2)%elem_of_seq & H3)%elem_of_seq).
    apply in_segment in H1 as (w & t & -> & Hne & Hw & Hd & ->).
    destruct (proj1 (star_segments (reverse w ++ [SLASH]) t m)) as (segs & Hs & ->).
    { exists x1. split; [done|]. by apply elem_of_end in H3 as []. }
    exists (w :: segs). split; [done|]. split; [|done]. constructor; [|done].
    rewrite dots_ahead_good in Hd; [unfold good; naive_solver|done|].
    destruct segs as [|w2 segs]; [by left|right]. by eexists.
  - intros ([|w segs] & Hne & Hs & ->); [done|]. apply Forall_cons in Hs as [(Hw & Hsl & H1 & H2) Hs].
    destruct (proj2 (star_segments (reverse w ++ [SLASH]) (dir_of segs) m)) as (x & Hx & Er); [eauto|].
    exists x. apply elem_of_seq. exists x. split; [|by apply elem_of_end].
    apply elem_of_seq. eexists. split; [|exact Hx]. apply in_segment.
    exists w, (dir_of segs). split_and!; [done|done|done| |done].
    rewrite dots_ahead_good; [naive_solver|done|].
    destruct segs as [|w2 segs]; [by left|right]. by eexists.
Qed.

Lemma isValidRemoteBaseDir_spec value : isValidRemoteBaseDir value = true ↔ clean_dir value.
Proof.
  unfold isValidRemoteBaseDir, clean_dir. rewrite orb_true_iff, bool_decide_eq_true.
  rewrite re_test_anchored.
  2: { intros [|c p] t Hp; [done|]. unfold REMOTE_BASE_DIR_PATTERN. cbn [matches pre]. done. }
  unfold REMOTE_BASE_DIR_PATTERN. setoid_rewrite elem_of_alt. rewrite <- (plus_segments value ∅).
  repeat setoid_rewrite matches_start.
  split; (intros [H|H]; [by left|right]).
  - destruct H as [x [H|H]]; [left|right; eauto].
    apply elem_of_seq in H as (x1 & (t & -> & ->)%in_lit & [-> ->]%in_end). done.
  - destruct H as [->|[x H]]; [|eauto]. eexists. left. apply elem_of_seq. eexists.
    split; [apply in_lit; by exists []|by apply in_end].
Qed.

(** *** The server *)

Lemma clean_steps_good segs out : Forall good segs → foldl clean_step out segs = out ++ segs.
Proof.
  intros Hs. revert out. induction Hs as [|w segs (Hne & Hw & H1 & H2) Hs IH]; intros out.
  { by rewrite app_nil_r. }
  cbn [foldl]. unfold clean_step at 2. rewrite !bool_decide_eq_false_2 by done. cbn [orb].
  by rewrite IH, <- app_assoc.
Qed.

Lemma clean_steps_all segs out :
  Forall (λ w, SLASH ∉ w) segs → Forall good out → Forall good (foldl clean_step out segs).
Proof.
  intros Hs. revert out. induction Hs as [|w segs Hw Hs IH]; intros out Ho; [done|].
  cbn [foldl]. apply IH. unfold clean_step.
  destruct (bool_decide_reflect (w = [])), (bool_decide_reflect (w = js ".")); try done. cbn [orb].
  destruct (bool_decide_reflect (w = js "..")).
  - destruct out as [|x out _] using rev_ind; [done|].
    rewrite removelast_last. by apply Forall_app in Ho as [? _].
  - apply Forall_app. split; [done|]. constructor; [done|constructor].
Qed.

Lemma dir_of_join segs : segs ≠ [] → dir_of segs = SLASH :: join [SLASH] segs.
Proof.
  intros Hne. induction segs as [|w [|w' segs] IH]; [done|by unfold dir_of; simpl; rewrite app_nil_r|].
  change (dir_of (w :: w' :: segs)) with (SLASH :: w ++ dir_of (w' :: segs)).
  by rewrite IH.
Qed.

Lemma split_dir_of segs : segs ≠ [] → Forall good segs → split_on SLASH (dir_of segs) = [] :: segs.
Proof.
  intros Hne Hs. rewrite dir_of_join by done.
  change (SLASH :: join [SLASH] segs) with ([] ++ [SLASH] ++ join [SLASH] segs).
  change (split_on SLASH ([] ++ [SLASH] ++ join [SLASH] segs)) with ([] :: split_on SLASH (join [SLASH] segs)).
  f_equal. apply split_join; [done|]. eapply Forall_impl; [exact Hs|]. by intros w (_ & Hw & _).
Qed.

Lemma head_join segs : Forall good segs → head (join [SLASH] segs) ≠ Some SLASH.
Proof.
  destruct 1 as [|w segs (Hne & Hw & _) Hs]; [done|]. destruct w as [|c w]; [done|].
  assert (c ≠ SLASH) by set_solver. destruct segs; simpl; congruence.
Qed.

Lemma last_join segs : segs ≠ [] → Forall good segs → ∃ c, last (join [SLASH] segs) = Some c ∧ c ≠ SLASH.
Proof.
  intros Hne Hs. induction Hs as [|w segs (Hw & Hsl & _) Hs IH]; [done|]. destruct segs as [|w' segs].
  - destruct (last w) as [c|] eqn:E; [|by apply last_None in E].
    exists c. split; [done|]. intros ->. by apply last_Some_elem_of in E.
  - destruct IH as (c & E & Hc); [done|]. exists c. split; [|done].
    change (join [SLASH] (w :: w' :: segs)) with (w ++ [SLASH] ++ join [SLASH] (w' :: segs)).
    by rewrite last_app, last_app, E.
Qed.

Lemma trim_left_id s : head s ≠ Some SLASH → trim_left s = s.
Proof. destruct s as [|c s]; simpl; [done|]. destruct (N.eqb_spec c SLASH); congruence. Qed.

Lemma strings_Trim_dir segs : segs ≠ [] → Forall good segs → strings_Trim (dir_of segs) = join [SLASH] segs.
Proof.
  intros Hne Hs. unfold strings_Trim. rewrite dir_of_join by done. cbn [trim_left]. rewrite N.eqb_refl.
  rewrite (trim_left_id (join _ _)) by (by apply head_join).
  rewrite trim_left_id; [apply reverse_involutive|].
  destruct (last_join segs Hne Hs) as (c & E & Hc). rewrite head_reverse, E. congruence.
Qed.

Lemma path_Clean_dir segs : segs ≠ [] → Forall good segs → path_Clean (dir_of segs) = dir_of segs.
Proof.
  intros Hne Hs. unfold path_Clean. rewrite split_dir_of, dir_of_join by done. cbn [foldl].
  change (clean_step [] []) with (@nil jsstr). by rewrite clean_steps_good.
Qed.

Lemma ValidateRemoteBaseDir_spec dir : ValidateRemoteBaseDir dir = true ↔ clean_dir dir.
Proof.
  unfold ValidateRemoteBaseDir, clean_dir. split.
  - destruct (bool_decide_reflect (dir = [])); [by left|]. intros H. right.
    destruct (starts_with _ _); [|done]. cbn [negb] in H.
    destruct (bool_decide_reflect (path_Clean dir = dir)) as [E|]; [|done].
    unfold path_Clean in E. destruct (foldl clean_step [] (split_on SLASH dir)) as [|w out] eqn:Ef.
    + left. by symmetry.
    + right. exists (w :: out). split; [done|]. split; [|rewrite dir_of_join; done].
      rewrite <- Ef. apply clean_steps_all; [apply split_on_no_sep|constructor].
  - intros [->|[->|(segs & Hne & Hs & ->)]]; [done|vm_compute; done|].
    assert (dir_of segs ≠ []) as H0 by (by rewrite dir_of_join).
    rewrite bool_decide_eq_false_2 by done.
    assert (starts_with [SLASH] (dir_of segs) = true) as ->.
    { apply starts_with_spec. rewrite dir_of_join by done. by eexists. }
    rewrite (bool_decide_eq_true_2 (path_Clean _ = _)) by (by apply path_Clean_dir).
    destruct (last_join segs Hne Hs) as (c & El & Hc).
    assert (ends_with [SLASH] (dir_of segs) = false) as ->.
    { rewrite dir_of_join by done. unfold ends_with.
      rewrite (reverse_cons (join [SLASH] segs) SLASH).
      assert (head (reverse (join [SLASH] segs)) = Some c) as Eh by (by rewrite head_reverse).
      destruct (reverse (join _ _)) as [|d r]; [done|]. injection Eh as ->.
      change (reverse [SLASH]) with [SLASH]. cbn [starts_with app].
      by rewrite (proj2 (N.eqb_neq SLASH c)) by congruence. }
    rewrite andb_false_r. cbn [negb orb]. rewrite strings_Trim_dir by done.
    rewrite split_join; [|done|eapply Forall_impl; [exact Hs|by intros w (_ & Hw & _)]].
    apply forallb_forall. intros w Hw%list_elem_of_In.
    apply (proj1 (Forall_forall _ _) Hs) in Hw as (_ & _ & H1 & H2).
    by rewrite !bool_decide_eq_false_2.
Qed.

(** *** Fields that are not in use *)

(** [ftpsHostPattern] and [isLowerHex64] of the server, with the empty text
    allowed as in [ValidateConfig]. *)
Definition isLowerHex64 (s : jsstr) : bool :=
  (length s =? 64) &&
  forallb (λ c, negb (((c <? 48) || (57 <? c))%N && ((c <? 97) || (102 <? c))%N)) s.
Definition server_host (s : jsstr) : bool := bool_decide (s = []) || HOST_PATTERN s.
Definition server_pin (s : jsstr) : bool := bool_decide (s = []) || isLowerHex64 s.

(** The fields of the protocol that is not in use, with the check of the
    server on each. *)
Definition inactive (values : obj json) : list (jsstr * (jsstr → bool)) :=
  if bool_decide (obj_get (js "remote_protocol") values = Some (JStr (js "sftp")))
  then [(js "ftps_host", server_host); (js "cert_sha256", server_pin)]
  else [(js "sftp_host", server_host); (js "sftp_host_key_sha256", server_pin);
        (js "sftp_base_dir", ValidateRemoteBaseDir)].

Lemma pinOk_server s : pinOk s = server_pin s.
Proof.
  unfold pinOk, server_pin, HEX64_PATTERN, isLowerHex64. f_equal. rewrite andb_comm. f_equal.
  induction s as [|c s IH]; [done|]. cbn [forallb]. rewrite IH. f_equal.
  unfold hex_char, is_digit.
  destruct (N.leb_spec 97 c), (N.leb_spec c 102), (N.leb_spec 48 c), (N.leb_spec c 57),
    (N.ltb_spec c 48), (N.ltb_spec 57 c), (N.ltb_spec c 97), (N.ltb_spec 102 c); try done; lia.
Qed.

Lemma base_dir_server s : isValidRemoteBaseDir s = ValidateRemoteBaseDir s.
Proof.
  pose proof (isValidRemoteBaseDir_spec s) as H1. pose proof (ValidateRemoteBaseDir_spec s) as H2.
  destruct (isValidRemoteBaseDir s), (ValidateRemoteBaseDir s); naive_solver.
Qed.

(** One field after another, each under its check. *)
Definition keep_all (l : list (jsstr * (jsstr → bool))) (values acc : obj json) : obj json :=
  foldl (λ acc kc, keep_if kc.2 kc.1 values acc) acc l.

Lemma keep_if_ext ok ok' key values acc :
  (∀ s, ok s = ok' s) → keep_if ok key values acc = keep_if ok' key values acc.
Proof. intros H. unfold keep_if. by rewrite H. Qed.

Lemma sanitize_keep_all values :
  sanitizeInactiveProtocolFields values = keep_all (inactive values) values values.
Proof.
  unfold sanitizeInactiveProtocolFields, inactive, keep_all. case_bool_decide; cbn [foldl fst snd].
  - by rewrite (keep_if_ext pinOk server_pin) by apply pinOk_server.
  - rewrite (keep_if_ext isValidRemoteBaseDir ValidateRemoteBaseDir) by apply base_dir_server.
    by rewrite (keep_if_ext pinOk server_pin) by apply pinOk_server.
Qed.

Lemma keep_all_other l values acc k :
  k ∉ map fst l → obj_get k (keep_all l values acc) = obj_get k acc.
Proof.
  unfold keep_all. revert acc. induction l as [|[k' c] l IH]; intros acc Hk; [done|].
  cbn [foldl fst snd map] in *. rewrite IH by set_solver. unfold keep_if.
  apply obj_get_set_ne. set_solver.
Qed.

Lemma keep_all_field l values acc k (check : jsstr → bool) :
  NoDup (map fst l) → (k, check) ∈ l →
  obj_get k (keep_all l values acc) =
    Some (JStr (let s := asString (obj_get k values) in if check s then s else [])).
Proof.
  unfold keep_all. revert acc. induction l as [|[k' c] l IH]; intros acc Hn Hk;
    [by apply not_elem_of_nil in Hk|].
  cbn [foldl fst snd map] in *. apply NoDup_cons in Hn as [Hk' Hn].
  apply elem_of_cons in Hk as [[= -> ->]|Hk]; [|by apply IH].
  fold (keep_all l values (keep_if c k' values acc)). rewrite keep_all_other by done.
  unfold keep_if. by rewrite obj_get_set_eq.
Qed.

Lemma NoDup_inactive values : NoDup (map fst (inactive values)).
Proof.
  unfold inactive. case_bool_decide; apply (bool_decide_unpack _); vm_compute; done.
Qed.

Lemma inactive_empty values k check : (k, check) ∈ inactive values → check [] = true.
Proof.
  unfold inactive. case_bool_decide; intros Hk;
    repeat (apply elem_of_cons in Hk as [[= -> ->]|Hk]; [done|]); by apply not_elem_of_nil in Hk.
Qed.

Lemma obj_set_id {V} k (v : V) o : obj_get k o = Some v → obj_set k v o = o.
Proof.
  intros H. unfold obj_set, obj_has. rewrite H. induction o as [|[k' v'] o IH]; [done|].
  simpl in *. destruct (decide (k = k')); [by simplify_eq|]. by rewrite IH.
Qed.

Lemma keep_all_id l values :
  (∀ k check, (k, check) ∈ l → ∃ s, obj_get k values = Some (JStr s) ∧ check s = true) →
  keep_all l values values = values.
Proof.
  unfold keep_all. induction l as [|[k c] l IH]; intros H; [done|]. cbn [foldl fst snd].
  destruct (H k c) as (s & Hs & Hc); [by left|].
  assert (keep_if c k values values = values) as ->.
  { unfold keep_if. rewrite Hs. cbn [asString]. rewrite Hc. by apply obj_set_id. }
  apply IH. intros k' c' Hk'. apply H. by right.
Qed.

(** The directory check of the form is the one of the server, and before a
    save the fields of the protocol that is not in use are made acceptable to
    the server: an acceptable text stays, anything else becomes empty, no
    other field changes, and a second pass changes nothing. *)
Theorem inactive_fields_spec values :
  let v' := sanitizeInactiveProtocolFields values in
  (∀ dir, isValidRemoteBaseDir dir = ValidateRemoteBaseDir dir) ∧
  (∀ k check, (k, check) ∈ inactive values → ∃ s,
    obj_get k v' = Some (JStr s) ∧ check s = true ∧
    (∀ t, obj_get k values = Some (JStr t) → check t = true → s = t)) ∧
  (∀ k, k ∉ map fst (inactive values) → obj_get k v' = obj_get k values) ∧
  sanitizeInactiveProtocolFields v' = v'.
Proof.
  intros v'. subst v'. split; [apply base_dir_server|]. rewrite (sanitize_keep_all values).
  assert (∀ k check, (k, check) ∈ inactive values → ∃ s,
    obj_get k (keep_all (inactive values) values values) = Some (JStr s) ∧ check s = true ∧
    (∀ t, obj_get k values = Some (JStr t) → check t = true → s = t)) as Hin.
  { intros k check Hk. eexists. split; [apply (keep_all_field _ values values k check); [apply NoDup_inactive|exact Hk]|].
    cbn zeta. destruct (check (asString _)) eqn:Ec; [|split; [by eapply inactive_empty|]].
    - split; [done|]. by intros t ->.
    - intros t Ht Hc. rewrite Ht in Ec. simpl in Ec. congruence. }
  split; [done|]. split; [intros k Hk; by apply keep_all_other|].
  rewrite sanitize_keep_all.
  assert (inactive (keep_all (inactive values) values values) = inactive values) as ->.
  { unfold inactive at 1. rewrite keep_all_other; [done|].
    unfold inactive. case_bool_decide; vm_compute; intros Hk;
      repeat (apply elem_of_cons in Hk as [Hk|Hk]; [done|]); by apply not_elem_of_nil in Hk. }
  apply keep_all_id. intros k check Hk. destruct (Hin k check Hk) as (s & ? & ? & _). eauto.
Qed.

(** Every field of the form has a value after a merge, and the protocol is one
    of the two. *)
Lemma mergeFormValues_total values k :
  k ∈ obj_keys DEFAULT_FORM_VALUES → k ∈ obj_keys (mergeFormValues values).
Proof. intros Hk. unfold mergeFormValues. rewrite elem_of_keys_set, elem_of_keys_assign. tauto. Qed.

Lemma mergeFormValues_protocol values :
  obj_get (js "remote_protocol") (mergeFormValues values) = Some (JStr (js "ftps")) ∨
  obj_get (js "remote_protocol") (mergeFormValues values) = Some (JStr (js "sftp")).
Proof.
  unfold mergeFormValues, known_protocol. rewrite obj_get_set_eq. case_bool_decide; auto.
Qed.

End ConfigForm.

Module HostKeyPin.
Import ConfigForm.

(** ** The pinned host key *)

(** [/^[A-Za-z0-9+/]+$/], one character *)
Definition is_b64 (c : jschar) : bool :=
  is_upper c || is_lower c || is_digit c || (c =? 43)%N || (c =? 47)%N.

Definition PAD : jschar := 61%N.

Definition decodeBase64 (input : jsstr) : option (list N) :=
  let cleaned := Base64.strip_eq input in
  if bool_decide (cleaned = []) || negb (forallb is_b64 cleaned) then None
  else
    let padded := cleaned ++ repeat PAD ((4 - length cleaned mod 4) mod 4) in
    Base64.atob padded.

(** [/^SHA256:/i], whose letters are matched in either case. *)
Definition ascii_lower (c : jschar) : jschar := if is_upper c then (c + 32)%N else c.
Definition openssh_prefix (value : jsstr) : bool :=
  bool_decide (map ascii_lower (take 7 value) = js "sha256:").

(** [b.toString(16).padStart(2, '0')] of a byte. *)
Definition byte_hex (b : N) : jsstr :=
  pad_start 2 48%N
    (if (b <? 16)%N then [hex_digit b] else [hex_digit (b / 16); hex_digit (b mod 16)]).

Section Normalize.
(** [toLowerCase] *)
Variable toLowerCase : jsstr → jsstr.

Definition normalizeHostKeyPin (raw : jsstr) : jsstr :=
  let value := trim raw in
  if bool_decide (value = []) then []
  else if HEX64_PATTERN (toLowerCase value) && (length value =? 64) then toLowerCase value
  else
    let body := trim (if openssh_prefix value then drop 7 value else value) in
    if negb (openssh_prefix value) &&
      (negb (length body =? 43) && negb (length body =? 44)) then value
    else
      match decodeBase64 body with
      | None => value
      | Some bytes => if negb (length bytes =? 32) then value else concat (map byte_hex bytes)
      end.
End Normalize.

(** ** Base 64 *)

(** The encoding without padding that OpenSSH prints. *)
Definition b64_encode (l : list N) : jsstr := map Base64.b64_char (Base64.groups l).

Abbreviation is_byte := (λ b, (b < 256)%N).

Lemma encode_chars l :
  Forall is_byte l → Forall (λ c, is_b64 c = true ∧ is_ws c = false ∧ c ≠ PAD ∧ c ≠ 58%N) (b64_encode l).
Proof.
  intros Hl. destruct (Base64.groups_spec l Hl) as (Hg & _). apply Forall_map.
  eapply Forall_impl; [exact Hg|]. intros n Hn. apply (bool_decide_eq_true_1 _). revert n Hn.
  refine (Base64.below (λ n, bool_decide _) 64 _). by vm_compute.
Qed.

Lemma encode_length l : Forall is_byte l → length l = 32 → length (b64_encode l) = 43.
Proof.
  intros _ Hn. unfold b64_encode. rewrite length_map.
  do 32 (destruct l as [|? l]; [done|]). by destruct l.
Qed.

(** The text of a key, padded or not, gives the bytes back. *)
Lemma decodeBase64_key l k :
  Forall is_byte l → length l = 32 → decodeBase64 (b64_encode l ++ repeat PAD k) = Some l.
Proof.
  intros Hl Hn. pose proof (encode_chars l Hl) as Hc. pose proof (encode_length l Hl Hn) as He.
  destruct (Base64.groups_spec l Hl) as (Hg & Hd & _).
  assert (forallb is_b64 (b64_encode l) = true) as Hb.
  { apply forallb_forall. intros c Hi%list_elem_of_In. by apply (proj1 (Forall_forall _ _) Hc). }
  assert (Base64.strip_eq (b64_encode l ++ repeat PAD k) = b64_encode l) as Es
    by (apply Base64.strip_padding; eapply Forall_impl; [exact Hc|]; naive_solver).
  unfold decodeBase64. rewrite Es.
  rewrite bool_decide_eq_false_2 by (intros E; by rewrite E in He). rewrite Hb, He. cbn [orb negb].
  change (repeat PAD _) with (repeat 61%N 1). unfold b64_encode in *. rewrite length_map in He.
  rewrite Base64.atob_padded by (done || lia || by rewrite He). by rewrite Hd.
Qed.

(** *** The pin *)

Lemma HEX64_bytes l : length l = 32 → Forall is_byte l → HEX64_PATTERN (concat (map byte_hex l)) = true.
Proof.
  intros Hn Hl. unfold HEX64_PATTERN.
  assert (length (concat (map byte_hex l)) = 2 * length l ∧
    forallb hex_char (concat (map byte_hex l)) = true) as [-> ->]; [|by rewrite Hn].
  clear Hn. induction Hl as [|b l Hb Hl [IH1 IH2]]; [done|]. cbn [map concat].
  rewrite length_app, forallb_app, IH1, IH2, andb_true_r.
  pose proof (Base64.below (λ b, (length (byte_hex b) =? 2) && forallb hex_char (byte_hex b)) 256
    ltac:(vm_compute; done) b Hb) as H.
  cbn beta in H. bool_hyps. split; [|done]. simpl. apply Nat.eqb_eq in H. lia.
Qed.

Lemma decodeBase64_bytes s l : decodeBase64 s = Some l → Forall is_byte l.
Proof. unfold decodeBase64. destruct (_ || _); [done|]. apply Base64.atob_bytes. Qed.

(** No colon in the text, no prefix. *)
Lemma openssh_prefix_colon v : 58%N ∉ v → openssh_prefix v = false.
Proof.
  intros Hv. apply bool_decide_eq_false_2. intros E.
  assert (58%N ∈ map ascii_lower (take 7 v)) as H by (rewrite E; vm_compute; set_solver).
  apply list_elem_of_fmap in H as (c & Hc & Hin). destruct Hv.
  assert (c = 58%N) as <-.
  { revert Hc. unfold ascii_lower. destruct (is_upper c) eqn:Eu; [|done].
    unfold is_upper in Eu. bool_hyps. rewrite N.leb_le in *. lia. }
  eapply elem_of_submseteq; [exact Hin|]. apply sublist_submseteq, sublist_take.
Qed.

(** A prefix of seven letters in any case, or none. *)
Definition prefix_ok (p : jsstr) : Prop := p = [] ∨ map ascii_lower p = js "sha256:".

Lemma prefix_length p : map ascii_lower p = js "sha256:" → length p = 7.
Proof. intros E. by rewrite <- (length_map ascii_lower), E. Qed.

Lemma normalize_key lower raw p l k :
  prefix_ok p → k ≤ 1 → Forall is_byte l → length l = 32 →
  trim raw = p ++ b64_encode l ++ repeat PAD k →
  normalizeHostKeyPin lower raw = concat (map byte_hex l).
Proof.
  intros Hp Hk Hl Hn E. pose proof (decodeBase64_key l k Hl Hn) as Hd.
  pose proof (encode_chars l Hl) as Hc.
  pose proof (encode_length l Hl Hn) as He.
  set (body := b64_encode l ++ repeat PAD k) in *.
  assert (length body = 43 + k) as Hb by (unfold body; by rewrite length_app, He, repeat_length).
  assert (Forall (λ c, is_ws c = false ∧ c ≠ 58%N) body) as Hcb.
  { apply Forall_app. split; [eapply Forall_impl; [exact Hc|]; naive_solver|by apply Forall_forall; intros c Hin%list_elem_of_In%repeat_spec; subst]. }
  assert (trim body = body) as Ht by (apply trimmed_no_ws; eapply Forall_impl; [exact Hcb|]; naive_solver).
  unfold normalizeHostKeyPin. rewrite E.
  assert (length (p ++ body) ≠ 64 ∧ p ++ body ≠ []) as [H64 Hne].
  { rewrite length_app. destruct Hp as [->|Hp%prefix_length]; split; try (simpl; lia).
    - by intros E'%(f_equal length); simpl in E'; lia.
    - by intros E'%(f_equal length); rewrite length_app in E'; simpl in E'; lia. }
  rewrite bool_decide_eq_false_2, (proj2 (Nat.eqb_neq _ _) H64), andb_false_r by done.
  destruct Hp as [->|Hp].
  - cbn [app]. rewrite openssh_prefix_colon.
    + cbv beta iota zeta. rewrite Ht, Hb, Hd, Hn. destruct k as [|[|k]]; [done|done|lia].
    + intros H. apply (proj1 (Forall_forall _ _) Hcb) in H. naive_solver.
  - pose proof (prefix_length p Hp) as Hlp.
    assert (openssh_prefix (p ++ body) = true) as ->.
    { apply bool_decide_eq_true_2. by rewrite <- Hlp, take_app_length. }
    assert (drop 7 (p ++ body) = body) as -> by (by rewrite <- Hlp, drop_app_length).
    cbv beta iota zeta. by rewrite Ht, Hd, Hn.
Qed.

(** A fingerprint as OpenSSH prints it becomes the hexadecimal pin of the
    same 32 bytes, with or without its prefix (in either case) and its
    padding; whatever is typed, the field then holds a well-formed pin or the
    trimmed text as typed; and a pin in small letters stays. *)
Theorem host_key_pin_spec lower raw :
  (HEX64_PATTERN (normalizeHostKeyPin lower raw) = true ∨
    normalizeHostKeyPin lower raw = trim raw) ∧
  (∀ p l k, prefix_ok p → k ≤ 1 → Forall is_byte l → length l = 32 →
    trim raw = p ++ b64_encode l ++ repeat PAD k →
    normalizeHostKeyPin lower raw = concat (map byte_hex l) ∧
    HEX64_PATTERN (concat (map byte_hex l)) = true) ∧
  (HEX64_PATTERN (trim raw) = true → lower (trim raw) = trim raw →
    normalizeHostKeyPin lower raw = trim raw).
Proof.
  split; [|split].
  - unfold normalizeHostKeyPin. destruct (bool_decide_reflect (trim raw = [])) as [->|]; [by right|].
    destruct (HEX64_PATTERN (lower (trim raw)) && _) eqn:Eh; [left; by apply andb_true_iff in Eh as [? _]|].
    destruct (negb (openssh_prefix (trim raw)) && _); [by right|]. destruct (decodeBase64 _) as [l|] eqn:Ed; [|by right].
    destruct (Nat.eqb_spec (length l) 32); [left|by right].
    apply HEX64_bytes; [done|]. by eapply decodeBase64_bytes.
  - intros p l k Hp Hk Hl Hn E. split; [by eapply normalize_key|by apply HEX64_bytes].
  - intros Hh El. unfold normalizeHostKeyPin. rewrite El, Hh.
    unfold HEX64_PATTERN in Hh. apply andb_true_iff in Hh as [_ Hh]. rewrite Hh.
    by case_bool_decide.
Qed.

(** The key of 32 bytes 0, 1, ..., 31. *)
Lemma host_key_example lower :
  normalizeHostKeyPin lower (js " SHA256:AAECAwQFBgcICQoLDA0ODxAREhMUFRYXGBkaGxwdHh8 ") =
  js "000102030405060708090a0b0c0d0e0f101112131415161718191a1b1c1d1e1f".
Proof.
  rewrite (normalize_key lower _ (js "SHA256:") (map N.of_nat (seq 0 32)) 0);
    [vm_compute; done|right; done|lia| |done|vm_compute; done].
  apply Forall_map, Forall_seq. intros i Hi. lia.
Qed.

End HostKeyPin.
