(* ===== verification/Currency.v ===== *)
(** * Money

    Amounts are kept on the server in units of quota and shown in the currency
    that the administrator has configured ([lib/currency.ts], the quota part
    of [lib/format.ts]).  Numbers are doubles, the rounding of every product
    and quotient included.

    [Intl.NumberFormat] is a parameter of the formatting functions, which hand
    it the currency (or none) and the number of digits. *)
From Stdlib Require Import Reals Lra.
From S2P Require Import Prelude JSString JSNumber NumRound.
Local Open Scope Z_scope.

Module Currency.

(** ** Configuration *)

Inductive CurrencyDisplayType := USD | CNY | TOKENS | CUSTOM.
#[global] Instance CurrencyDisplayType_eq_dec : EqDecision CurrencyDisplayType.
Proof. solve_decision. Defined.

Record CurrencyConfig := mkCurrency {
  displayInCurrency : bool;
  quotaDisplayType : CurrencyDisplayType;
  quotaPerUnit : num;
  usdExchangeRate : num;
  customCurrencySymbol : jsstr;
  customCurrencyExchangeRate : num;
}.

(** What the store holds: any property may be missing. *)
Record StoredCurrency := mkStored {
  s_display : option bool;
  s_type : option CurrencyDisplayType;
  s_quotaPerUnit : option num;
  s_usdExchangeRate : option num;
  s_symbol : option jsstr;
  s_customRate : option num;
}.

(** The sign for a currency without one, U+00A4 *)
Definition DEFAULT_CURRENCY_CONFIG : CurrencyConfig :=
  mkCurrency true USD (num_of_Z 500000) (num_of_Z 1) [164%N] (num_of_Z 1).

Definition DISPLAY_TYPE_VALUES : list (jsstr * CurrencyDisplayType) :=
  [(js "USD", USD); (js "CNY", CNY); (js "TOKENS", TOKENS); (js "CUSTOM", CUSTOM)].

(** A value that is no text is [None]. *)
Definition as_display_type (value : option jsstr) : option CurrencyDisplayType :=
  s ← value; snd <$> List.find (λ kv, bool_decide (kv.1 = s)) DISPLAY_TYPE_VALUES.
Definition isCurrencyDisplayType (value : option jsstr) : bool :=
  match as_display_type value with Some _ => true | None => false end.
Definition parseCurrencyDisplayType (value : option jsstr) (fallback : CurrencyDisplayType) : CurrencyDisplayType :=
  opt_or (as_display_type value) fallback.

(** [x && x > 0 ? x : d] *)
Definition positive_or (x : option num) (d : num) : num :=
  match x with Some x => if num_ltb num_zero x then x else d | None => d end.

Definition getConfig (stored : option StoredCurrency) : CurrencyConfig :=
  let d := DEFAULT_CURRENCY_CONFIG in
  match stored with
  | None => d
  | Some c =>
      mkCurrency (opt_or (s_display c) (displayInCurrency d)) (opt_or (s_type c) (quotaDisplayType d))
        (positive_or (s_quotaPerUnit c) (quotaPerUnit d))
        (positive_or (s_usdExchangeRate c) (usdExchangeRate d))
        (str_or (trim (opt_or (s_symbol c) [])) (customCurrencySymbol d))
        (positive_or (s_customRate c) (customCurrencyExchangeRate d))
  end.

Inductive DisplayMeta :=
  | MetaCurrency (symbol currencyCode : jsstr) (exchangeRate : num)
  | MetaCustom (symbol : jsstr) (exchangeRate : num)
  | MetaTokens (quota_per_unit : num).

Definition dollars : DisplayMeta := MetaCurrency (js "$") (js "USD") (num_of_Z 1).

Definition getDisplayMeta (config : CurrencyConfig) : DisplayMeta :=
  match quotaDisplayType config with
  | CNY => MetaCurrency [165%N] (js "CNY") (usdExchangeRate config)
  | CUSTOM => MetaCustom (customCurrencySymbol config) (customCurrencyExchangeRate config)
  | TOKENS => MetaTokens (quotaPerUnit config)
  | USD => dollars
  end.

Definition getBillingDisplayMeta (config : CurrencyConfig) : DisplayMeta :=
  match getDisplayMeta config with MetaTokens _ => dollars | meta => meta end.

(** ** Formatting *)

Record FormatOptions := mkOptions {
  digitsLarge : nat;
  digitsSmall : nat;
  abbreviate : bool;
  minimumNonZero : num;
}.
Record SomeOptions := mkSome {
  o_large : option nat;
  o_small : option nat;
  o_abbreviate : option bool;
  o_minimum : option num;
}.

Definition DEFAULT_FORMAT_OPTIONS : FormatOptions := mkOptions 2 4 true num_zero.

Definition mergeOptions (options : option SomeOptions) : FormatOptions :=
  let d := DEFAULT_FORMAT_OPTIONS in
  match options with
  | None => d
  | Some o => mkOptions (opt_or (o_large o) (digitsLarge d)) (opt_or (o_small o) (digitsSmall d))
      (opt_or (o_abbreviate o) (abbreviate d)) (opt_or (o_minimum o) (minimumNonZero d))
  end.

(** [x.toFixed(d)]: the closest multiple of 10^-d, halves upwards, written
    with [d] digits after the point. *)
Definition fixed_digits (d : nat) (n : N) : jsstr :=
  let s := pad_start (d + 1) 48%N (string_of_N n) in
  let k := (length s - d)%nat in
  match d with O => s | _ => take k s ++ [DOT] ++ drop k s end.

Definition toFixed (x : num) (d : nat) : jsstr :=
  match x with
  | S754_finite neg m e =>
      if num_leb (num_of_Z (10 ^ 21)) (num_abs x) then num_to_string x else
      let a := (Zpos m * 10 ^ Z.of_nat d)%Z in
      let n := if 0 <=? e then a * 2 ^ e else (2 * a + 2 ^ (- e)) / (2 * 2 ^ (- e)) in
      (if neg then [45%N] else []) ++ fixed_digits d (Z.to_N n)
  | S754_zero _ => fixed_digits d 0
  | _ => num_to_string x
  end.

(** [str.replace(/(\.[0-9]*?)0+$/, '$1').replace(/\.$/, '')] on a text with a
    point: the zeros at its end go, and then the point if it is the last. *)
Fixpoint drop_zeros (s : jsstr) : jsstr :=
  match s with c :: r => if (c =? 48)%N then drop_zeros r else s | [] => [] end.
Definition drop_dot (s : jsstr) : jsstr :=
  match s with c :: r => if (c =? DOT)%N then r else s | [] => [] end.
(** The zeros are only replaced behind a point that digits alone follow. *)
Definition fraction_only (s : jsstr) : bool :=
  match span_digits (reverse s) with (_, c :: _) => (c =? DOT)%N | (_, []) => false end.
Definition removeTrailingZeros (s : jsstr) : jsstr :=
  if negb (includes [DOT] s) then s else
  let s := if fraction_only s then reverse (drop_zeros (reverse s)) else s in
  reverse (drop_dot (reverse s)).

Definition thousand : num := num_of_Z 1000.

Definition digits_for (value : num) (o : FormatOptions) : nat :=
  if num_leb (num_of_Z 1) (num_abs value) then digitsLarge o else digitsSmall o.

Definition formatNumberWithSuffix (value : num) (o : FormatOptions) : jsstr :=
  if abbreviate o && num_leb thousand (num_abs value)
  then removeTrailingZeros (toFixed (num_div value thousand) 1) ++ js "k"
  else removeTrailingZeros (toFixed value (digits_for value o)).

(** [Math.pow(10, -digits)] *)
Definition power_of_ten (digits : nat) : num := num_of_dec false 1 (- Z.of_nat digits).

Definition adjustForMinimum (value : num) (digits : nat) (minimumNonZero : num) : num :=
  if num_eqb value num_zero then value else
  let threshold := if num_ltb num_zero minimumNonZero then minimumNonZero else power_of_ten digits in
  let abs := num_abs value in
  if num_ltb num_zero abs && num_ltb abs threshold
  then if num_ltb num_zero value then threshold else num_neg threshold
  else value.

Section Intl.
(** [new Intl.NumberFormat(undefined, ...).format(x)] with at most so many
    digits, as an amount of a currency or as a plain number. *)
Context (intl : option jsstr → nat → num → jsstr).

Definition formatCurrencyValue (value : num) (o : FormatOptions) (meta : DisplayMeta) : jsstr :=
  match meta with
  | MetaTokens _ => formatNumberWithSuffix value o
  | _ =>
      let digits := digits_for value o in
      let adjustedValue := adjustForMinimum value digits (minimumNonZero o) in
      match meta with
      | MetaCurrency _ code _ => intl (Some code) digits adjustedValue
      | MetaCustom symbol _ => symbol ++ intl None digits adjustedValue
      | MetaTokens _ => []
      end
  end.

(** [null], [undefined] and [NaN] are [None]. *)
Definition given (x : option num) : option num :=
  match x with Some x => if num_is_nan x then None else Some x | None => None end.

Definition formatCurrencyFromUSD (config : CurrencyConfig) (amountUSD : option num) (options : option SomeOptions) : jsstr :=
  match given amountUSD with
  | None => js "-"
  | Some amountUSD =>
      let merged := mergeOptions options in
      match getDisplayMeta config with
      | MetaTokens _ =>
          formatNumberWithSuffix (num_mul amountUSD (quotaPerUnit config))
            (mkOptions 0 (digitsSmall merged) (abbreviate merged) (minimumNonZero merged))
      | (MetaCurrency _ _ rate | MetaCustom _ rate) as meta =>
          formatCurrencyValue (num_mul amountUSD rate) merged meta
      end
  end.

Definition formatBillingCurrencyFromUSD (config : CurrencyConfig) (amountUSD : option num) (options : option SomeOptions) : jsstr :=
  match given amountUSD with
  | None => js "-"
  | Some amountUSD =>
      let meta := getBillingDisplayMeta config in
      let value := match meta with
        | MetaCurrency _ _ rate | MetaCustom _ rate => num_mul amountUSD rate
        | MetaTokens _ => amountUSD end in
      formatCurrencyValue value (mergeOptions options) meta
  end.

Definition formatQuotaWithCurrency (config : CurrencyConfig) (quota : option num) (options : option SomeOptions) : jsstr :=
  match given quota with
  | None => js "-"
  | Some quota => formatCurrencyFromUSD config (Some (num_div quota (quotaPerUnit config))) options
  end.

Definition formatLocalCurrencyAmount (config : CurrencyConfig) (amount : option num) (options : option SomeOptions) : jsstr :=
  match given amount with
  | None => js "-"
  | Some amount => formatCurrencyValue amount (mergeOptions options) (getBillingDisplayMeta config)
  end.

Definition formatQuota (config : CurrencyConfig) (quota : num) : jsstr :=
  formatQuotaWithCurrency config (Some quota) (Some (mkSome (Some 2%nat) (Some 4%nat) (Some true) None)).
Definition formatLogQuota (config : CurrencyConfig) (quota : num) : jsstr :=
  formatQuotaWithCurrency config (Some quota) (Some (mkSome (Some 4%nat) (Some 6%nat) (Some false) None)).

End Intl.

Definition getCurrencyLabel (config : CurrencyConfig) : jsstr :=
  match getDisplayMeta config with
  | MetaTokens _ => js "Tokens"
  | meta =>
      match quotaDisplayType config with
      | CNY => js "CNY"
      | CUSTOM => match meta with MetaCustom symbol _ => symbol | _ => js "Custom" end
      | _ => js "USD"
      end
  end.

Definition isCurrencyDisplayEnabled (config : CurrencyConfig) : bool :=
  match getDisplayMeta config with MetaTokens _ => false | _ => true end.

(** ** Quota and amounts *)

Definition rate_of (meta : DisplayMeta) : num :=
  match meta with MetaCurrency _ _ rate | MetaCustom _ rate => rate | MetaTokens _ => num_of_Z 1 end.

Definition parseQuotaFromDollars (config : CurrencyConfig) (amount : num) : num :=
  if negb (num_is_finite amount) then num_zero else
  match getDisplayMeta config with
  | MetaTokens _ => num_round amount
  | meta =>
      let exchangeRate := rate_of meta in
      let usdAmount := if num_ltb num_zero exchangeRate then num_div amount exchangeRate else amount in
      num_round (num_mul usdAmount (quotaPerUnit config))
  end.

Definition quotaUnitsToDollars (config : CurrencyConfig) (units : num) : num :=
  match getDisplayMeta config with
  | MetaTokens _ => units
  | meta => num_mul (num_div units (quotaPerUnit config)) (rate_of meta)
  end.

Definition formatTokens (tokens : num) : jsstr :=
  if num_eqb tokens num_zero then js "-"
  else if num_ltb tokens thousand then num_to_string tokens
  else if num_ltb tokens (num_of_Z 1000000) then toFixed (num_div tokens thousand) 1 ++ js "K"
  else toFixed (num_div tokens (num_of_Z 1000000)) 2 ++ js "M".

(** ** The quota of a form *)

(** A positive number within 2^-400 and 2^400. *)
Definition ordinary (x : num) : bool :=
  match x with
  | S754_finite false m e => (-400 <=? e) && (Zpos (digits2_pos m) + e <=? 400)
  | _ => false
  end.

Lemma ordinary_spec x : ordinary x = true → positive_num x ∧ (bpow (-400) <= val x <= bpow 400)%R.
Proof.
  destruct x as [| | |[] m e]; try done. intros [H1%Z.leb_le H2%Z.leb_le]%andb_true_iff.
  split; [by eexists _, _|]. cbn [val]. pose proof (digits_bpow m) as [Hm1 Hm2]. pose proof (bpow_pos e) as He.
  assert (1 <= IZR (Zpos m))%R as Hm by (apply IZR_le; lia). split.
  - apply Rle_trans with (bpow e); [by apply bpow_le|nra].
  - apply Rle_trans with (bpow (Zpos (digits2_pos m) + e)); [rewrite bpow_add; nra|by apply bpow_le].
Qed.

Definition ordinary_config (config : CurrencyConfig) : bool :=
  ordinary (quotaPerUnit config) && ordinary (rate_of (getDisplayMeta config)).

Lemma near_int n x : (0 < n <= 2 ^ 49)%Z → near 4 x (IZR n) → num_round x = num_of_Z n.
Proof.
  intros Hn [Hx [H1 H2]]. apply round_near; [done|lia|].
  assert (1 <= IZR n <= bpow 49)%R as [Hn1 Hn2] by (rewrite bpow_IZR by lia; split; apply IZR_le; lia).
  assert (bpow 49 * ulp = / 16)%R as Hu.
  { unfold ulp. rewrite <- bpow_add. unfold bpow. simpl. lra. }
  pose proof ulp_small as [Hu1 Hu2].
  assert ((1 + ulp) ^ 4 <= 1 + 5 * ulp)%R as Hp by (simpl; nra).
  assert (1 - 4 * ulp <= (1 - ulp) ^ 4)%R as Hq by (simpl; nra).
  assert (IZR n * ulp <= / 16)%R as Hs by (rewrite <- Hu; apply Rmult_le_compat_r; lra).
  apply Rabs_def1; nra.
Qed.

Lemma near_num_of_Z n : (0 < n < 2 ^ 53)%Z → near 0 (num_of_Z n) (IZR n).
Proof.
  intros Hn. destruct n as [|p|p]; [lia| |lia]. destruct (num_of_pos p) as (m & e & -> & E & _); [lia|].
  rewrite <- E. apply (near_exact (S754_finite false m e)). by eexists _, _.
Qed.

Lemma moderate_between (a b : Z) v :
  (-1000 <= a)%Z → (b <= 900)%Z → (bpow a <= v <= bpow b)%R → moderate v.
Proof.
  intros Ha%bpow_le Hb%bpow_le Hv. split; lra.
Qed.

Lemma product_between a b c d x y :
  (bpow a <= x <= bpow b)%R → (bpow c <= y <= bpow d)%R → (bpow (a + c) <= x * y <= bpow (b + d))%R.
Proof.
  intros Hx Hy. rewrite !bpow_add. pose proof (bpow_pos a). pose proof (bpow_pos c). split; apply Rmult_le_compat; lra.
Qed.

Lemma quotient_between a b c d x y :
  (bpow a <= x <= bpow b)%R → (bpow c <= y <= bpow d)%R → (bpow (a - d) <= x / y <= bpow (b - c))%R.
Proof.
  intros Hx Hy. pose proof (bpow_pos c). assert (0 < y)%R as Hy0 by lra.
  apply product_between; [done|].
  assert (∀ e, bpow (- e) = / bpow e)%R as Hi.
  { intros e. pose proof (bpow_pos e). apply (Rmult_eq_reg_l (bpow e)); [|lra]. rewrite bpow_opp. field. lra. }
  rewrite !Hi. split; apply Rinv_le_contravar; lra.
Qed.

(** Shown and read back, in the currency. *)
Lemma currency_roundtrip q r n :
  ordinary q = true → ordinary r = true → (0 < n <= 2 ^ 49)%Z →
  let shown := num_mul (num_div (num_of_Z n) q) r in
  positive_num shown ∧ num_round (num_mul (num_div shown r) q) = num_of_Z n.
Proof.
  cbv zeta.
  intros [Hq Bq]%ordinary_spec [Hr Br]%ordinary_spec Hn.
  assert (bpow 0 <= IZR n <= bpow 49)%R as Bn by (rewrite bpow_0, bpow_IZR by lia; split; apply IZR_le; lia).
  pose proof (val_pos q Hq) as Pq. pose proof (val_pos r Hr) as Pr. pose proof (bpow_pos 0).
  assert (0 < IZR n)%R as Pn by lra.
  pose proof (quotient_between _ _ _ _ _ _ Bn Bq) as B1. pose proof (product_between _ _ _ _ _ _ B1 Br) as B2.
  assert (0 < IZR n / val q)%R as P1 by by apply Rdiv_lt_0_compat.
  assert (near 1 (num_div (num_of_Z n) q) (IZR n / val q)) as N1.
  { apply near_div; [apply near_num_of_Z; lia|done|lia|eapply moderate_between; [| |exact B1]; lia|done]. }
  assert (near 2 (num_mul (num_div (num_of_Z n) q) r) (IZR n / val q * val r)) as N2.
  { apply near_mul; [done|done|lia|eapply moderate_between; [| |exact B2]; lia|done]. }
  split; [apply N2|]. apply near_int; [done|].
  apply (near_div _ _ r) in N2; [|done|lia| |by apply Rmult_lt_0_compat].
  2: { replace (IZR n / val q * val r / val r)%R with (IZR n / val q)%R by (field; lra).
    eapply moderate_between; [| |exact B1]; lia. }
  replace (IZR n / val q * val r / val r)%R with (IZR n / val q)%R in N2 by (field; lra).
  apply (near_mul _ _ q) in N2; [|done|lia| |done].
  2: { replace (IZR n / val q * val q)%R with (IZR n) by (field; lra). eapply moderate_between; [| |exact Bn]; lia. }
  replace (IZR n / val q * val q)%R with (IZR n) in N2 by (field; lra). exact N2.
Qed.

Lemma round_int n : (0 < n <= 2 ^ 49)%Z → num_round (num_of_Z n) = num_of_Z n.
Proof.
  intros Hn. destruct (near_num_of_Z n) as [Hx [H1 H2]]; [lia|]. apply round_near; [done|lia|].
  simpl in H1, H2. apply Rabs_def1; lra.
Qed.

Lemma positive_finite x : positive_num x → num_is_finite x = true ∧ num_ltb num_zero x = true.
Proof. by intros (m & e & ->). Qed.

Lemma quota_reads_back config n :
  ordinary_config config = true → (0 <= n <= 2 ^ 49)%Z →
  let shown := quotaUnitsToDollars config (num_of_Z n) in
  (shown = num_zero ∨ positive_num shown) ∧ parseQuotaFromDollars config shown = num_of_Z n.
Proof.
  intros [Hq Hr]%andb_true_iff Hn. unfold parseQuotaFromDollars, quotaUnitsToDollars.
  set (q := quotaPerUnit config) in *. clearbody q. destruct (Z.eq_dec n 0) as [->|Hne].
  { destruct (ordinary_spec q Hq) as [(mq & eq & ->) _].
    destruct (getDisplayMeta config) as [s c r|s r|t]; [| |by split; [left|]];
      destruct (ordinary_spec r Hr) as [(mr & er & ->) _]; by split; [left|]. }
  assert (0 < n <= 2 ^ 49) as Hn' by lia.
  destruct (getDisplayMeta config) as [s c r|s r|t]; cbn [rate_of] in *.
  3: { destruct (near_num_of_Z n) as [Hx _]; [lia|]. split; [by right|].
    destruct (positive_finite _ Hx) as [-> _]. by apply round_int. }
  all: destruct (currency_roundtrip q r n Hq Hr Hn') as [Hs Hres]; (split; [by right|]);
    destruct (positive_finite _ Hs) as [-> _]; destruct (ordinary_spec r Hr) as [Hp _];
    destruct (positive_finite _ Hp) as [_ ->]; exact Hres.
Qed.

(** C33: an amount of quota that a form shows in the configured currency is read
    back as the same amount, although it went through two quotients and two
    products of doubles. *)
Theorem quota_roundtrip config n :
  ordinary_config config = true → (0 <= n <= 2 ^ 49)%Z →
  parseQuotaFromDollars config (quotaUnitsToDollars config (num_of_Z n)) = num_of_Z n.
Proof. intros Hc Hn. by apply quota_reads_back. Qed.

(** A balance of 1234567 units, shown in yuan. *)
Lemma quota_roundtrip_witness :
  let config := getConfig (Some (mkStored None (Some CNY) None (Some (Number (js "7.3"))) None None)) in
  parseQuotaFromDollars config (quotaUnitsToDollars config (num_of_Z 1234567)) = num_of_Z 1234567 ∧
  num_to_string (quotaUnitsToDollars config (num_of_Z 1234567)) = js "18.0246782".
Proof. intros config. split; [apply quota_roundtrip; [by vm_compute|lia]|by vm_compute]. Defined.

End Currency.
