(* ===== verification/AccountForms.v ===== *)
(** * Forms of keys, codes and users

    The forms for an API key ([features/keys/lib/api-key-form.ts]), a
    redemption code ([features/redemption-codes/lib/redemption-form.ts]) and a
    user ([features/users/lib/user-form.ts], [user-quota-dialog.tsx]): the
    values a form opens with, and the payload it sends.  Quotas are numbers and
    go through the configured currency ([Currency]); ids and times are
    integers, a date is a number of milliseconds or invalid. *)
From Stdlib Require Import Reals.
From S2P Require Import Prelude JSString JSNumber NumRound Currency.
Local Open Scope Z_scope.

(** ** Dates *)

(** A [Date]; [None] is the invalid date. *)
Definition Date := option Z.
(** [new Date(ms)] keeps what lies within 8.64e15 of the epoch. *)
Definition new_Date (ms : Z) : Date := if Z.abs ms <=? 8640000000000000 then Some ms else None.
(** [Math.floor(date.getTime() / 1000)]; [None] is [NaN]. *)
Definition seconds (date : Date) : option Z := (λ ms, ms / 1000) <$> date.

(** [seconds > 0 ? new Date(seconds * 1000) : undefined] *)
Definition expiry_date (t : Z) : option Date := if 0 <? t then Some (new_Date (t * 1000)) else None.

Lemma expiry_roundtrip t : 0 < t <= 8640000000000 → expiry_date t = Some (Some (t * 1000)) ∧ seconds (Some (t * 1000)) = Some t.
Proof.
  intros Ht. unfold expiry_date, new_Date, seconds. rewrite (proj2 (Z.ltb_lt 0 t)) by lia.
  rewrite (proj2 (Z.leb_le _ _)) by lia. split; [done|]. cbn. by rewrite Z.div_mul by lia.
Qed.

(** [x || 0] *)
Definition or_0 (x : option num) : num :=
  match x with Some x => if num_truthy x then x else num_zero | None => num_zero end.

Lemma or_0_id x : x = num_zero ∨ positive_num x → or_0 (Some x) = x.
Proof. by intros [->|(m & e & ->)]. Qed.

Module ApiKeys.

(** ** API keys *)

Inductive RelayRetryPolicy := PSystem | PDisabled | PCacheDomainOnly | PAllowCrossChannel.

Record ApiKey := mkKey {
  id : Z;
  name : jsstr;
  key : jsstr;
  status : Z;
  remain_quota : num;
  used_quota : num;
  unlimited_quota : bool;
  expired_time : Z;
  created_time : Z;
  accessed_time : Z;
  group : option jsstr;
  cross_group_retry : option bool;
  model_limits_enabled : bool;
  model_limits : option jsstr;
  allow_ips : option jsstr;
  relay_retry_policy : option RelayRetryPolicy;
}.

Record ApiKeyFormValues := mkValues {
  f_name : jsstr;
  remain_quota_dollars : option num;
  f_expired_time : option Date;
  f_unlimited_quota : bool;
  f_model_limits : list jsstr;
  f_allow_ips : option jsstr;
  f_group : option jsstr;
  f_cross_group_retry : option bool;
  f_relay_retry_policy : option RelayRetryPolicy;
  tokenCount : option Z;
}.

Record ApiKeyFormData := mkData {
  d_name : jsstr;
  d_remain_quota : num;
  d_expired_time : option Z;
  d_unlimited_quota : bool;
  d_model_limits_enabled : bool;
  d_model_limits : jsstr;
  d_allow_ips : jsstr;
  d_group : jsstr;
  d_cross_group_retry : bool;
  d_relay_retry_policy : RelayRetryPolicy;
}.

Definition DEFAULT_GROUP : jsstr := [].
Definition AUTO : jsstr := js "auto".

(** The refinement of the schema: the issue on the quota. *)
Definition quota_issue (data : ApiKeyFormValues) : bool :=
  negb (f_unlimited_quota data) &&
  match remain_quota_dollars data with
  | None => true
  | Some v => num_is_nan v || num_ltb v num_zero
  end.

Definition API_KEY_FORM_DEFAULT_VALUES : ApiKeyFormValues :=
  mkValues [] (Some (num_of_Z 10)) None true [] (Some []) (Some DEFAULT_GROUP) (Some true) (Some PSystem) (Some 1).

Definition getApiKeyFormDefaultValues (defaultUseAutoGroup : bool) : ApiKeyFormValues :=
  let d := API_KEY_FORM_DEFAULT_VALUES in
  mkValues (f_name d) (remain_quota_dollars d) (f_expired_time d) (f_unlimited_quota d) (f_model_limits d)
    (f_allow_ips d) (Some (if defaultUseAutoGroup then AUTO else DEFAULT_GROUP)) (Some defaultUseAutoGroup)
    (f_relay_retry_policy d) (tokenCount d).

Definition transformFormDataToPayload (config : Currency.CurrencyConfig) (data : ApiKeyFormValues) : ApiKeyFormData :=
  mkData (f_name data)
    (if f_unlimited_quota data then num_zero
     else Currency.parseQuotaFromDollars config (or_0 (remain_quota_dollars data)))
    (match f_expired_time data with Some date => seconds date | None => Some (-1) end)
    (f_unlimited_quota data)
    (bool_decide (0 < length (f_model_limits data))%nat)
    (join (js ",") (f_model_limits data))
    (opt_or (f_allow_ips data) [])
    (opt_or (f_group data) [])
    (if bool_decide (f_group data = Some AUTO) then opt_or (f_cross_group_retry data) false else false)
    (opt_or (f_relay_retry_policy data) PSystem).

Definition transformApiKeyToFormDefaults (config : Currency.CurrencyConfig) (k : ApiKey) : ApiKeyFormValues :=
  mkValues (name k)
    (Some (Currency.quotaUnitsToDollars config (remain_quota k)))
    (expiry_date (expired_time k))
    (unlimited_quota k)
    (filter_bool (split_on 44%N (opt_or (model_limits k) [])))
    (Some (opt_or (allow_ips k) []))
    (Some (str_or (opt_or (group k) []) DEFAULT_GROUP))
    (Some (opt_or (cross_group_retry k) false))
    (Some (opt_or (relay_retry_policy k) PSystem))
    (Some 1).

(** The payload of the dialog that only changes the group
    ([group-switch-dialog.tsx]). *)
Definition buildPayload (row : ApiKey) (g : jsstr) : ApiKeyFormData :=
  mkData (name row) (remain_quota row) (Some (expired_time row)) (unlimited_quota row) (model_limits_enabled row)
    (opt_or (model_limits row) []) (opt_or (allow_ips row) []) g (opt_or (cross_group_retry row) false)
    (opt_or (relay_retry_policy row) PSystem).

(** A key as the server sends it: a whole quota, and a time of expiry or -1. *)
Record plain_key (k : ApiKey) (n : Z) : Prop := {
  whole_quota : remain_quota k = num_of_Z n;
  quota_range : 0 <= n <= 2 ^ 49;
  time_range : expired_time k = -1 ∨ 0 < expired_time k <= 8640000000000;
}.

Lemma quota_kept config x n :
  Currency.ordinary_config config = true → x = num_of_Z n → 0 <= n <= 2 ^ 49 →
  Currency.parseQuotaFromDollars config (or_0 (Some (Currency.quotaUnitsToDollars config x))) = x.
Proof.
  intros Hc -> Hn. destruct (Currency.quota_reads_back config n Hc Hn) as [Hs Hr]. by rewrite or_0_id.
Qed.


(** A limited key in dollars. *)
Definition sample_key : ApiKey :=
  mkKey 1 (js "k") (js "sk-1") 1 (num_of_Z 1234567) num_zero false 1900000000 0 0 (Some AUTO) (Some true) false
    (Some (js "gpt-4,,o1")) None None.


(** Switching the group leaves the rest of the key as it is. *)
Lemma switch_group_spec config k g n :
  Currency.ordinary_config config = true → plain_key k n → unlimited_quota k = false →
  let p := buildPayload k g in
  let q := transformFormDataToPayload config (transformApiKeyToFormDefaults config k) in
  d_group p = g ∧ d_remain_quota p = d_remain_quota q ∧ d_expired_time p = d_expired_time q ∧
  d_model_limits_enabled p = model_limits_enabled k.
Proof.
  intros Hc [Hq Hn Ht] Hu p q. split_and!; try done; unfold p, q.
  - cbn [transformFormDataToPayload transformApiKeyToFormDefaults d_remain_quota f_unlimited_quota
      remain_quota_dollars buildPayload]. by rewrite Hu, (quota_kept config _ n).
  - cbn [transformFormDataToPayload transformApiKeyToFormDefaults d_expired_time f_expired_time buildPayload].
    destruct Ht as [->|Ht]; [done|]. by destruct (expiry_roundtrip _ Ht) as [-> ->].
Qed.

End ApiKeys.

Module Redemptions.

(** ** Redemption codes *)

Record Redemption := mkRedemption {
  id : Z; user_id : Z; name : jsstr; key : jsstr; status : Z; quota : num;
  created_time : Z; redeemed_time : Z; expired_time : Z; used_user_id : Z;
}.

Record RedemptionFormValues := mkValues {
  f_name : jsstr;
  quota_dollars : num;
  f_expired_time : option Date;
  count : option Z;
}.

Record RedemptionFormData := mkData {
  d_name : jsstr;
  d_quota : num;
  d_expired_time : option Z;
  d_count : Z;
}.

Definition REDEMPTION_FORM_DEFAULT_VALUES : RedemptionFormValues := mkValues [] (num_of_Z 10) None (Some 1).

Definition transformFormDataToPayload (config : Currency.CurrencyConfig) (data : RedemptionFormValues) : RedemptionFormData :=
  mkData (f_name data) (Currency.parseQuotaFromDollars config (quota_dollars data))
    (match f_expired_time data with Some date => seconds date | None => Some 0 end)
    (match count data with Some n => if n =? 0 then 1 else n | None => 1 end).

Definition transformRedemptionToFormDefaults (config : Currency.CurrencyConfig) (r : Redemption) : RedemptionFormValues :=
  mkValues (name r) (Currency.quotaUnitsToDollars config (quota r)) (expiry_date (expired_time r)) (Some 1).

(** Opening a code and saving it sends back the same quota and expiry. *)
Lemma redemption_open_save config r n :
  Currency.ordinary_config config = true → quota r = num_of_Z n → 0 <= n <= 2 ^ 49 →
  expired_time r = 0 ∨ 0 < expired_time r <= 8640000000000 →
  let p := transformFormDataToPayload config (transformRedemptionToFormDefaults config r) in
  d_name p = name r ∧ d_quota p = quota r ∧ d_expired_time p = Some (expired_time r).
Proof.
  intros Hc Hq Hn Ht p. split_and!; [done| |].
  - unfold p. cbn [transformFormDataToPayload transformRedemptionToFormDefaults d_quota quota_dollars].
    rewrite Hq. by apply Currency.quota_reads_back.
  - unfold p. cbn [transformFormDataToPayload transformRedemptionToFormDefaults d_expired_time f_expired_time].
    destruct Ht as [->|Ht]; [done|]. by destruct (expiry_roundtrip _ Ht) as [-> ->].
Qed.

End Redemptions.

Module Users.

(** ** Users *)

(** Of a user the properties that the form reads. *)
Record User := mkUser {
  username : jsstr; display_name : jsstr; role : Z; quota : num; group : jsstr;
  remark : option jsstr; rpm_limit : option num; pinned : option bool; inviter_id : option Z; expires_at : option Z;
}.

Record UserFormValues := mkValues {
  f_username : jsstr;
  f_display_name : option jsstr;
  f_password : option jsstr;
  f_role : option Z;
  quota_dollars : option num;
  f_group : option jsstr;
  f_remark : option jsstr;
  f_rpm_limit : option num;
  f_pinned : option bool;
  f_inviter_id : option Z;
  f_expires_at : option Z;
}.

(** A property that is [undefined] is not sent. *)
Record UserFormData := mkData {
  d_id : option Z;
  d_username : jsstr;
  d_display_name : jsstr;
  d_password : option jsstr;
  d_role : option Z;
  d_group : option jsstr;
  d_remark : option jsstr;
  d_rpm_limit : option num;
  d_pinned : option bool;
  d_inviter_id : option Z;
  d_expires_at : option Z;
}.

Definition DEFAULT_GROUP : jsstr := js "default".

Definition USER_FORM_DEFAULT_VALUES : UserFormValues :=
  mkValues [] (Some []) (Some []) (Some 1) (Some num_zero) (Some DEFAULT_GROUP) (Some []) (Some num_zero) (Some false)
    (Some 0) (Some 0).

(** [s || undefined] *)
Definition some_text (s : option jsstr) : option jsstr :=
  match s with Some [] | None => None | Some s => Some s end.

Definition transformFormDataToPayload (data : UserFormValues) (userId : option Z) : UserFormData :=
  let display := str_or (opt_or (f_display_name data) []) (f_username data) in
  match userId with
  | None =>
      mkData None (f_username data) display (some_text (f_password data))
        (Some (match f_role data with Some r => if r =? 0 then 1 else r | None => 1 end))
        None None None None None None
  | Some userId =>
      mkData (Some userId) (f_username data) display (some_text (f_password data)) None
        (f_group data) (some_text (f_remark data)) (Some (opt_or (f_rpm_limit data) num_zero))
        (Some (opt_or (f_pinned data) false)) (Some (opt_or (f_inviter_id data) 0)) (Some (opt_or (f_expires_at data) 0))
  end.

Definition transformUserToFormDefaults (config : Currency.CurrencyConfig) (u : User) : UserFormValues :=
  mkValues (username u) (Some (display_name u)) (Some []) (Some (role u))
    (Some (Currency.quotaUnitsToDollars config (quota u)))
    (Some (str_or (group u) DEFAULT_GROUP)) (Some (opt_or (remark u) [])) (Some (opt_or (rpm_limit u) num_zero))
    (Some (opt_or (pinned u) false)) (Some (opt_or (inviter_id u) 0)) (Some (opt_or (expires_at u) 0)).

(** What the server makes of an update ([User.Edit] of [model/user.go] on the
    decoded payload): an omitted field is the zero of its type, the password
    is only changed when there is one. *)
Record Stored := mkStored {
  st_username : jsstr; st_display_name : jsstr; st_group : jsstr; st_remark : jsstr; st_rpm_limit : num;
  st_pinned : bool; st_inviter_id : Z; st_expires_at : Z;
}.
Definition Edit (d : UserFormData) : Stored :=
  mkStored (d_username d) (d_display_name d) (opt_or (d_group d) []) (opt_or (d_remark d) [])
    (opt_or (d_rpm_limit d) num_zero) (opt_or (d_pinned d) false) (opt_or (d_inviter_id d) 0) (opt_or (d_expires_at d) 0).

(** Saving a user without an edit stores what was stored, a missing group and
    a missing display name excepted; neither role nor quota nor password is
    sent. *)
Lemma user_open_save config u id :
  let d := transformFormDataToPayload (transformUserToFormDefaults config u) (Some id) in
  Edit d = mkStored (username u) (str_or (display_name u) (username u)) (str_or (group u) DEFAULT_GROUP)
    (opt_or (remark u) []) (opt_or (rpm_limit u) num_zero) (opt_or (pinned u) false) (opt_or (inviter_id u) 0)
    (opt_or (expires_at u) 0) ∧
  d_role d = None ∧ d_password d = None.
Proof. cbn. split; [|done]. unfold Edit. cbn. f_equal. by destruct (remark u) as [[|]|]. Qed.

(** ** The dialog for the quota of a user *)

Inductive QuotaAdjustMode := Add | Subtract | Override.
#[global] Instance QuotaAdjustMode_eq_dec : EqDecision QuotaAdjustMode.
Proof. solve_decision. Defined.

Definition availableModes (isRoot : bool) : list QuotaAdjustMode :=
  if isRoot then [Add; Subtract; Override] else [Add].

Definition amountValue (amount : jsstr) : num := or_0 (Some (parseFloat amount)).
Definition quotaValue (config : Currency.CurrencyConfig) (amount : jsstr) : num :=
  Currency.parseQuotaFromDollars config (num_abs (amountValue amount)).

(** The value that is sent, or nothing when the dialog does not send. *)
Definition adjustment (config : Currency.CurrencyConfig) (mode : QuotaAdjustMode) (amount : jsstr) : option num :=
  if negb (nonempty amount) && bool_decide (mode ≠ Override) then None else
  if num_leb (quotaValue config amount) num_zero && bool_decide (mode ≠ Override) then None else
  let value :=
    if bool_decide (mode = Override) then Currency.parseQuotaFromDollars config (amountValue amount)
    else quotaValue config amount in
  Some (if bool_decide (mode = Override) then value else num_abs value).

(** An empty field in the mode that overrides sets the quota to zero; in the
    other modes nothing is sent. *)
Lemma empty_amount config mode :
  Currency.ordinary_config config = true →
  adjustment config mode [] = if decide (mode = Override) then Some num_zero else None.
Proof.
  intros [Hq Hr]%andb_true_iff. unfold adjustment, quotaValue, amountValue. destruct mode; try done. cbn [decide nonempty negb andb].
  change (or_0 (Some (parseFloat []))) with num_zero. rewrite bool_decide_eq_false_2, andb_false_r by tauto.
  cbn. f_equal. unfold Currency.parseQuotaFromDollars. cbn [num_is_finite negb num_zero].
  destruct (Currency.ordinary_spec _ Hq) as [(m & e & ->) _]. destruct (Currency.ordinary_spec _ Hr) as [(m' & e' & Er) _].
  destruct (Currency.getDisplayMeta config); try done; cbn [Currency.rate_of] in *; rewrite Er; done.
Qed.

End Users.
