(* ===== verification/PriceTable.v ===== *)
(** * The price pages

    Prices as the pages show them: by token and by request
    ([features/pricing/lib/price.ts]), by expression ([dynamic-price.ts]), and
    the filters and the order of the table ([filters.ts]).  Amounts are handed
    to the formatting of [Currency]; lower case and comparison by locale are
    parameters.  The last part composes the pages with the editors of tiers and
    rules: what is shown of a price is what was edited. *)
From Stdlib Require Import Reals.
From S2P Require Import Prelude JSString JSNumber NumRound JSON Regex BillingExpr RuleReading RegexFirst TierExpr TierReading PriceText Currency.
Import Vars Rules Tiers RuleReading TierReading PriceText.
Local Open Scope Z_scope.

Module PriceTable.

(** ** Models *)

(** Of a model the properties that prices and filters read; a property of a
    text or a list that is missing is [None]. *)
Record PricingModel := mkModel {
  model_name : option jsstr;
  description : option jsstr;
  vendor_name : option jsstr;
  quota_type : Z;
  model_ratio : num;
  completion_ratio : num;
  model_price : option num;
  cache_ratio : option num;
  create_cache_ratio : option num;
  image_ratio : option num;
  audio_ratio : option num;
  audio_completion_ratio : option num;
  enable_groups : option (list jsstr);
  tags : option jsstr;
  supported_endpoint_types : option (list jsstr);
  group_ratio : option (obj num);
  billing_mode : option jsstr;
  billing_expr : option jsstr;
}.

Definition TOKEN : Z := 0.
Definition REQUEST : Z := 1.

Inductive TokenUnit := UnitM | UnitK.
Definition TOKEN_UNIT_DIVISORS (u : TokenUnit) : num := match u with UnitM => num_of_Z 1 | UnitK => num_of_Z 1000 end.

Inductive PriceType := PInput | POutput | PCache | PCreateCache | PImage | PAudioInput | PAudioOutput.

(** ** Prices by token and by request *)

(** The loop over the groups; [minRatio] starts at infinity. *)
Fixpoint min_ratio (groups : list jsstr) (groupRatio : obj num) (minRatio : num) : num :=
  match groups with
  | [] => minRatio
  | g :: groups =>
      let next := match obj_get g groupRatio with
        | Some ratio => if num_ltb ratio minRatio then ratio else minRatio
        | None => minRatio end in
      min_ratio groups groupRatio next
  end.

Definition getMinGroupRatio (enableGroups : list jsstr) (groupRatio : obj num) : num :=
  match enableGroups with
  | [] => num_of_Z 1
  | _ =>
      let minRatio := min_ratio enableGroups groupRatio num_inf in
      if num_eqb minRatio num_inf then num_of_Z 1 else minRatio
  end.

(** [value * Number(r)] when the ratio is there and finite, [NaN] otherwise *)
Definition hasRatio (value : option num) : bool :=
  match value with Some x => num_is_finite x | None => false end.
Definition times_ratio (base : num) (r : option num) : num :=
  if hasRatio r then num_mul base (opt_or r S754_nan) else S754_nan.

Definition calculateTokenPrice (model : PricingModel) (type : PriceType) (ratio : num) : num :=
  let base := num_mul (num_mul (model_ratio model) (num_of_Z 2)) ratio in
  match type with
  | PInput => base
  | POutput => num_mul base (completion_ratio model)
  | PCache => times_ratio base (cache_ratio model)
  | PCreateCache => times_ratio base (create_cache_ratio model)
  | PImage => times_ratio base (image_ratio model)
  | PAudioInput => times_ratio base (audio_ratio model)
  | PAudioOutput =>
      if hasRatio (audio_ratio model) && hasRatio (audio_completion_ratio model)
      then num_mul (num_mul base (opt_or (audio_ratio model) S754_nan)) (opt_or (audio_completion_ratio model) S754_nan)
      else S754_nan
  end.

Definition applyRechargeRate (price : num) (showWithRecharge : bool) (priceRate usdExchangeRate : num) : num :=
  if showWithRecharge then num_div (num_mul price priceRate) usdExchangeRate else price.

Definition model_groups (model : PricingModel) : list jsstr := opt_or (enable_groups model) [].
Definition lowest_ratio (model : PricingModel) : num :=
  getMinGroupRatio (model_groups model) (opt_or (group_ratio model) []).

(** [groupRatio[group] || 1] and [model.model_price || 0] *)
Definition ratio_or_1 (groupRatio : obj num) (group : jsstr) : num :=
  match obj_get group groupRatio with Some x => num_or x (num_of_Z 1) | None => num_of_Z 1 end.
Definition price_or_0 (model : PricingModel) : num :=
  match model_price model with Some x => num_or x num_zero | None => num_zero end.

Definition digits46 : Currency.SomeOptions := Currency.mkSome (Some 4%nat) (Some 6%nat) (Some false) None.
Definition digits44 : Currency.SomeOptions := Currency.mkSome (Some 4%nat) (Some 4%nat) (Some false) None.

Section Shown.
Context (intl : option jsstr → nat → num → jsstr) (config : Currency.CurrencyConfig).
Context (showWithRecharge : bool) (priceRate usdExchangeRate : num).

Definition token_price (model : PricingModel) (type : PriceType) (ratio : num) (tokenUnit : TokenUnit) : jsstr :=
  let priceInUSD := applyRechargeRate (calculateTokenPrice model type ratio) showWithRecharge priceRate usdExchangeRate in
  Currency.formatCurrencyFromUSD intl config (Some (num_div priceInUSD (TOKEN_UNIT_DIVISORS tokenUnit))) (Some digits46).

Definition formatPrice (model : PricingModel) (type : PriceType) (tokenUnit : TokenUnit) : jsstr :=
  if quota_type model =? REQUEST then js "-" else token_price model type (lowest_ratio model) tokenUnit.

Definition formatGroupPrice (model : PricingModel) (group : jsstr) (type : PriceType) (tokenUnit : TokenUnit)
    (groupRatio : obj num) : jsstr :=
  if quota_type model =? REQUEST then js "-" else token_price model type (ratio_or_1 groupRatio group) tokenUnit.

Definition request_price (model : PricingModel) (ratio : num) : jsstr :=
  let priceInUSD := applyRechargeRate (num_mul (price_or_0 model) ratio) showWithRecharge priceRate usdExchangeRate in
  Currency.formatCurrencyFromUSD intl config (Some priceInUSD) (Some digits44).

Definition formatFixedPrice (model : PricingModel) (group : jsstr) (groupRatio : obj num) : jsstr :=
  if negb (quota_type model =? REQUEST) then js "-" else request_price model (ratio_or_1 groupRatio group).

Definition formatRequestPrice (model : PricingModel) : jsstr :=
  if negb (quota_type model =? REQUEST) then js "-" else request_price model (lowest_ratio model).

End Shown.

(** [formatted.match(...)] of [stripTrailingZeros]: a symbol, a number and
    perhaps a k. *)
Definition symbol_char (c : jschar) : bool := negb (is_digit c || (c =? 45)%N).
Definition amount_char (c : jschar) : bool := is_digit c || (c =? 45)%N || (c =? 44)%N.
Definition AMOUNT : regex :=
  RStart · RCap 1 (RStar (RChar symbol_char)) ·
  RCap 2 (RPlus (RChar amount_char) · ROpt (lit (js ".")) · RStar (RChar is_digit)) ·
  RCap 3 (ROpt (lit (js "k"))) · REnd.
(** [s.replace(/\.?0+$/, '')]: the text before the first match *)
Definition ZEROS : regex := ROpt (lit (js ".")) · RPlus (lit (js "0")) · REnd.
Definition strip_zeros (s : jsstr) : jsstr :=
  match exec_from ZEROS [] s with Some (before, _) => reverse before | None => s end.

Definition stripTrailingZeros (formatted : jsstr) : jsstr :=
  match re_match AMOUNT formatted with
  | None => formatted
  | Some m =>
      let cleanNumber := List.filter (λ c, negb (c =? 44)%N) (group 2 m) in
      let parsed := parseFloat cleanNumber in
      if num_is_nan parsed then formatted else
      let result := num_to_string parsed in
      let result := if includes (js "e") result then strip_zeros (Currency.toFixed parsed 20) else result in
      group 1 m ++ result ++ group 3 m
  end.

Example strip_samples :
  map stripTrailingZeros [js "$1,234.5000"; js "$0.10"; js "x"; js "-"; js "$12.0k"; js "0.00000012"] =
  [js "$1234.5"; js "$0.1"; js "x"; js "-"; js "$12k"; js "0.00000012"].
Proof. by vm_compute. Qed.

(** ** Prices by expression *)

Record DynamicPriceOptions := mkDynOptions {
  tokenUnit : TokenUnit;
  showRechargePrice : option bool;
  priceRate_ : option num;
  usdExchangeRate_ : option num;
  groupRatioMultiplier : option num;
}.

(** An entry without its labels. *)
Record DynamicPriceEntry := mkEntry {
  entry_key : jsstr;
  entry_field : jsstr;
  entry_value : num;
  formatted : jsstr;
}.

Definition isDynamicPricingModel (model : PricingModel) : bool :=
  bool_decide (billing_mode model = Some (js "tiered_expr")) && nonempty (opt_or (billing_expr model) []).

(** The same loop again. *)
Definition getDynamicDisplayGroupRatio (model : PricingModel) : num :=
  match model_groups model with
  | [] => num_of_Z 1
  | groups =>
      let minRatio := min_ratio groups (opt_or (group_ratio model) []) num_inf in
      if num_eqb minRatio num_inf then num_of_Z 1 else minRatio
  end.

(** Splitting the expression and reading its rules may throw. *)
Definition getDynamicPricingTiers (model : PricingModel) : option (list ParsedTier) :=
  if negb (isDynamicPricingModel model) then Some [] else
  (λ sp, parseTiersFromExpr (billingExpr sp)) <$> splitBillingExprAndRequestRules (opt_or (billing_expr model) []).

Definition hasDynamicRequestRules (model : PricingModel) : option bool :=
  if negb (isDynamicPricingModel model) then Some false else
  sp ← splitBillingExprAndRequestRules (opt_or (billing_expr model) []);
  groups ← tryParseRequestRuleExpr (requestRuleExpr sp);
  Some (match groups with Some (_ :: _) => true | _ => false end).

Definition PRIMARY_DYNAMIC_FIELDS : list jsstr := [js "inputPrice"; js "outputPrice"].
Definition is_primary (e : DynamicPriceEntry) : bool := bool_decide (entry_field e ∈ PRIMARY_DYNAMIC_FIELDS).

Definition compare_entries (a b : DynamicPriceEntry) : Z :=
  if Bool.eqb (is_primary a) (is_primary b) then 0 else if is_primary a then -1 else 1.

Section Dynamic.
Context (intl : option jsstr → nat → num → jsstr) (config : Currency.CurrencyConfig).

Definition formatDynamicUnitPrice (valuePerMillionTokens : num) (options : DynamicPriceOptions) : jsstr :=
  let groupRatio := opt_or (groupRatioMultiplier options) (num_of_Z 1) in
  let priceRate := opt_or (priceRate_ options) (num_of_Z 1) in
  let usdExchangeRate := opt_or (usdExchangeRate_ options) (num_of_Z 1) in
  let priceUSD := num_div (num_mul valuePerMillionTokens groupRatio) (TOKEN_UNIT_DIVISORS (tokenUnit options)) in
  let displayPrice := applyRechargeRate priceUSD (opt_or (showRechargePrice options) false) priceRate usdExchangeRate in
  Currency.formatBillingCurrencyFromUSD intl config (Some displayPrice) (Some digits46).

(** [Number.isFinite(value) && value > 0] *)
Definition positive_price (x : num) : bool := num_is_finite x && num_ltb num_zero x.

Definition entry_of (tier : ParsedTier) (options : DynamicPriceOptions) (v : BillingVar) : option DynamicPriceEntry :=
  f ← field v;
  let value := opt_or (obj_get f (prices tier)) S754_nan in
  if nonempty f && positive_price value
  then Some (mkEntry (key v) f value (formatDynamicUnitPrice value options)) else None.

Definition getDynamicPriceEntries (tier : option ParsedTier) (options : DynamicPriceOptions) : list DynamicPriceEntry :=
  match tier with
  | None => []
  | Some tier => js_sort compare_entries (omap (entry_of tier options) BILLING_PRICING_VARS)
  end.

Record DynamicPricingSummary := mkSummary {
  tiers : list ParsedTier;
  tier : option ParsedTier;
  tierCount : nat;
  hasRequestRules : bool;
  isSpecialExpression : bool;
  rawExpression : jsstr;
  entries : list DynamicPriceEntry;
  primaryEntries : list DynamicPriceEntry;
  secondaryEntries : list DynamicPriceEntry;
}.

(** The outer option is an exception, the inner one the result [null]. *)
Definition getDynamicPricingSummary (model : PricingModel) (options : DynamicPriceOptions)
    : option (option DynamicPricingSummary) :=
  if negb (isDynamicPricingModel model) then Some None else
  ts ← getDynamicPricingTiers model;
  rules ← hasDynamicRequestRules model;
  let t := head ts in
  let es := getDynamicPriceEntries t options in
  let raw := opt_or (billing_expr model) [] in
  Some (Some (mkSummary ts t (length ts) rules (nonempty (trim raw) && bool_decide (length ts = 0%nat)) raw es
    (List.filter is_primary es) (List.filter (λ e, negb (is_primary e)) es))).

End Dynamic.

(** ** Filters and order *)

Definition FILTER_ALL : jsstr := js "all".

(** [s.split(/[,;|\s]+/).map(trim).filter(Boolean)] *)
Definition tag_sep (c : jschar) : bool := is_ws c || bool_decide (c ∈ js ",;|").
Definition parseTags (tagsString : option jsstr) : list jsstr :=
  match tagsString with
  | None | Some [] => []
  | Some s => filter_bool (map trim (re_split (RPlus (RChar tag_sep)) s))
  end.

Record Filters := mkFilters {
  f_search : jsstr; f_vendor : jsstr; f_group : jsstr; f_quotaType : jsstr; f_endpointType : jsstr; f_tag : jsstr;
  f_sortBy : jsstr;
}.

(** The sign of the number a comparison returns; [NaN] counts as zero. *)
Definition num_sign (x : num) : Z := if num_ltb x num_zero then -1 else if num_ltb num_zero x then 1 else 0.

Section Filters.
Context (lower : jsstr → jsstr) (localeCompare : jsstr → jsstr → Z).

(** [field?.toLowerCase().includes(lowerQuery)] *)
Definition mentions (query : jsstr) (field : option jsstr) : bool :=
  match field with Some s => includes (lower query) (lower s) | None => false end.

Definition search_hit (query : jsstr) (m : PricingModel) : bool :=
  mentions query (model_name m) || mentions query (description m) || mentions query (tags m) || mentions query (vendor_name m).
Definition filterBySearch (models : list PricingModel) (query : jsstr) : list PricingModel :=
  match query with [] => models | _ => List.filter (search_hit query) models end.

(** The filters that a value switches off. *)
Definition unless_all (value : jsstr) (test : PricingModel → bool) (models : list PricingModel) : list PricingModel :=
  if bool_decide (value = FILTER_ALL) then models else List.filter test models.

Definition has_vendor (vendor : jsstr) (m : PricingModel) : bool := bool_decide (vendor_name m = Some vendor).
Definition filterByVendor (models : list PricingModel) (vendor : jsstr) := unless_all vendor (has_vendor vendor) models.

Definition listed (x : jsstr) (l : option (list jsstr)) : bool :=
  match l with Some l => bool_decide (x ∈ l) | None => false end.
Definition filterByGroup (models : list PricingModel) (group : jsstr) :=
  unless_all group (λ m, listed group (enable_groups m)) models.
Definition filterByEndpointType (models : list PricingModel) (endpointType : jsstr) :=
  unless_all endpointType (λ m, listed endpointType (supported_endpoint_types m)) models.

Definition of_quota_type (quotaType : jsstr) (m : PricingModel) : bool :=
  quota_type m =? (if bool_decide (quotaType = js "token") then TOKEN else REQUEST).
Definition filterByQuotaType (models : list PricingModel) (quotaType : jsstr) :=
  unless_all quotaType (of_quota_type quotaType) models.

Definition has_tag (tag : jsstr) (m : PricingModel) : bool :=
  bool_decide (lower tag ∈ map lower (parseTags (tags m))).
Definition filterByTag (models : list PricingModel) (tag : jsstr) := unless_all tag (has_tag tag) models.

Definition getModelPrice (model : PricingModel) : num :=
  if quota_type model =? 0 then model_ratio model else price_or_0 model.

Definition compare_names (a b : PricingModel) : Z := localeCompare (opt_or (model_name a) []) (opt_or (model_name b) []).
Definition compare_prices (a b : PricingModel) : Z := num_sign (num_sub (getModelPrice a) (getModelPrice b)).

Definition sortModels (models : list PricingModel) (sortBy : jsstr) : list PricingModel :=
  if bool_decide (sortBy = js "name") then js_sort compare_names models else
  if bool_decide (sortBy = js "price-low") then js_sort compare_prices models else
  if bool_decide (sortBy = js "price-high") then js_sort (λ a b, compare_prices b a) models else models.

Definition filterAndSortModels (models : list PricingModel) (f : Filters) : list PricingModel :=
  let result := filterBySearch models (f_search f) in
  let result := filterByVendor result (f_vendor f) in
  let result := filterByGroup result (f_group f) in
  let result := filterByQuotaType result (f_quotaType f) in
  let result := filterByEndpointType result (f_endpointType f) in
  let result := filterByTag result (f_tag f) in
  sortModels result (f_sortBy f).

Definition extractAllTags (models : list PricingModel) : list jsstr :=
  js_sort localeCompare (uniq (concat (map (λ m, map lower (parseTags (tags m))) models))).

End Filters.

(** ** What the pages show of a price that the editor saved *)

Section Summary.
Context (intl : option jsstr → nat → num → jsstr) (config : Currency.CurrencyConfig) (options : DynamicPriceOptions).

Abbreviation entries_of t vars := (omap (entry_of intl config t options) vars).

Definition BASE_VARS : list BillingVar := List.filter isBase BILLING_PRICING_VARS.

Lemma entry_primary t v e :
  entry_of intl config t options v = Some e → is_primary e = bool_decide (opt_or (field v) [] ∈ PRIMARY_DYNAMIC_FIELDS).
Proof.
  unfold entry_of. destruct (field v) as [f|]; [|done]. cbn [mbind option_bind].
  destruct (nonempty f && positive_price _); [|done]. by intros [= <-].
Qed.

Lemma entries_primary t vars b :
  forallb (λ v, Bool.eqb (bool_decide (opt_or (field v) [] ∈ PRIMARY_DYNAMIC_FIELDS)) b) vars = true →
  Forall (λ e, is_primary e = b) (entries_of t vars).
Proof.
  intros Hb%forallb_Forall. apply Forall_forall. intros e (v & Hv & He)%list_elem_of_omap.
  rewrite (entry_primary t v e He). eapply Forall_forall in Hb; [|exact Hv]. by apply Bool.eqb_prop in Hb.
Qed.

Lemma base_primary t : Forall (λ e, is_primary e = true) (entries_of t BASE_VARS).
Proof. apply entries_primary. by vm_compute. Qed.

Lemma extra_secondary t : Forall (λ e, is_primary e = false) (entries_of t BILLING_EXTRA_VARS).
Proof. apply entries_primary. by vm_compute. Qed.

Lemma sorted_groups l1 l2 :
  Forall (λ e, is_primary e = true) l1 → Forall (λ e, is_primary e = false) l2 →
  StronglySorted (λ x y, 0 <= compare_entries y x) (l1 ++ l2).
Proof.
  assert (∀ l b, Forall (λ e, is_primary e = b) l → StronglySorted (λ x y, 0 <= compare_entries y x) l) as Hs.
  { intros l b. induction 1 as [|e l He Hl IH]; constructor; [done|]. eapply Forall_impl; [exact Hl|].
    intros e' He'. unfold compare_entries. by rewrite He, He', Bool.eqb_reflx. }
  intros H1 H2. apply StronglySorted_app. split_and!; [|by eapply Hs|by eapply Hs].
  intros e1 e2 E1 E2. rewrite Forall_forall in H1. rewrite Forall_forall in H2.
  unfold compare_entries. by rewrite (H1 e1 E1), (H2 e2 E2).
Qed.

Lemma entries_eq t :
  getDynamicPriceEntries intl config (Some t) options = entries_of t BASE_VARS ++ entries_of t BILLING_EXTRA_VARS.
Proof.
  unfold getDynamicPriceEntries.
  assert (entries_of t BILLING_PRICING_VARS = entries_of t BASE_VARS ++ entries_of t BILLING_EXTRA_VARS) as ->
    by (rewrite <- omap_app; f_equal; by vm_compute).
  apply js_sort_id, sorted_groups; [apply base_primary|apply extra_secondary].
Qed.


End Summary.

Definition sample_model : PricingModel :=
  mkModel (Some (js "m")) None (Some (js "V")) TOKEN (num_of_Z 1) (num_of_Z 2) None None None None None None
    (Some [js "vip"; js "free"]) (Some (js "fast, new")) None (Some [(js "vip", num_of_Z 2); (js "free", num_zero)])
    (Some (js "tiered_expr")) (Some (saved_price sample_tiers [night_group])).


(** A group whose ratio is zero: the list shows the price of the model for its
    cheapest group, zero, and the price of that group at the full rate. *)
Example free_group_price :
  let shown := map (λ ratio, calculateTokenPrice sample_model PInput ratio) in
  (lowest_ratio sample_model, ratio_or_1 (opt_or (group_ratio sample_model) []) (js "free")) = (num_zero, num_of_Z 1) ∧
  shown [num_zero; num_of_Z 1] = [num_zero; num_of_Z 2].
Proof. by vm_compute. Qed.

(** ** The smallest ratio *)

Lemma num_ltb_trans x y z : num_ltb x y = true → num_ltb y z = true → num_ltb x z = true.
Proof.
  unfold num_ltb, SFltb. destruct x as [[]|[]| |[] mx ex], y as [[]|[]| |[] my ey], z as [[]|[]| |[] mz ez];
    try done; cbn [SFcompare]; change (Pos.compare_cont Eq) with Pos.compare;
    destruct (Z.compare_spec ex ey), (Z.compare_spec ey ez), (Z.compare_spec ex ez); subst; try done; try lia;
    destruct (Pos.compare_spec mx my); try done; destruct (Pos.compare_spec my mz); try done; subst;
    destruct (Pos.compare_spec mx mz); try done; lia.
Qed.

(** The ratios that the groups of the model have. *)
Definition ratios_of (groups : list jsstr) (ratios : obj num) : list num := omap (λ g, obj_get g ratios) groups.

Lemma num_ltb_le x y z : num_ltb y x = false → num_ltb z x = true → num_ltb y z = false.
Proof. intros H1 H2. apply not_true_iff_false. intros H. by rewrite (num_ltb_trans _ _ _ H H2) in H1. Qed.

Lemma num_ltb_irrefl x : num_ltb x x = false.
Proof.
  unfold num_ltb, SFltb. destruct x as [[]|[]| |[] m e]; try done; cbn [SFcompare];
    change (Pos.compare_cont Eq) with Pos.compare; by rewrite Z.compare_refl, Pos.compare_refl.
Qed.

Lemma min_ratio_le groups ratios start :
  let r := min_ratio groups ratios start in
  (r = start ∨ r ∈ ratios_of groups ratios ∧ num_ltb r start = true) ∧
  Forall (λ x, num_ltb x r = false) (ratios_of groups ratios).
Proof.
  revert start. induction groups as [|g groups IH]; intros start; [split; [by left|constructor]|].
  cbn [min_ratio ratios_of omap list_omap]. fold (ratios_of groups ratios).
  destruct (obj_get g ratios) as [x|] eqn:E; [|apply IH]. cbv zeta.
  destruct (num_ltb x start) eqn:Hx; [destruct (IH x) as [H1 H2]|destruct (IH start) as [H1 H2]]; split.
  - right. destruct H1 as [->|[H1 H3]]; [split; [by left|done]|]. split; [by right|by eapply num_ltb_trans].
  - constructor; [|done]. destruct H1 as [->|[_ H3]]; [apply num_ltb_irrefl|].
    apply not_true_iff_false. intros H. pose proof (num_ltb_trans _ _ _ H H3) as Hc. by rewrite num_ltb_irrefl in Hc.
  - destruct H1 as [H1|[H1 H3]]; [by left|right; split; [by right|done]].
  - constructor; [|done]. destruct H1 as [->|[_ H3]]; [done|by eapply num_ltb_le].
Qed.

(** The rate of the cheapest group: none of the rates of the model's groups is
    below it, and it is one of them, or 1 when no group has a finite rate. *)
Lemma lowest_ratio_spec model :
  let ratios := ratios_of (model_groups model) (opt_or (group_ratio model) []) in
  (lowest_ratio model ∈ ratios ∧ Forall (λ x, num_ltb x (lowest_ratio model) = false) ratios) ∨
  (lowest_ratio model = num_of_Z 1 ∧ Forall (λ x, num_ltb x num_inf = false) ratios).
Proof.
  cbv zeta. unfold lowest_ratio, getMinGroupRatio. destruct (model_groups model) as [|g gs]; [right; by repeat constructor|].
  destruct (min_ratio_le (g :: gs) (opt_or (group_ratio model) []) num_inf) as [H1 H2].
  set (r := min_ratio _ _ _) in *. destruct H1 as [->|[H1 H3]]; [right; split; [done|exact H2]|].
  left. assert (num_eqb r num_inf = false) as ->; [|done].
  clear -H3. unfold num_ltb, num_eqb, SFltb, SFeqb in *. by destruct r as [[]|[]| |[] m e].
Qed.

(** ** The filters together *)

Section Table.
Context (lower : jsstr → jsstr) (localeCompare : jsstr → jsstr → Z).

(** A model of the table: each filter that is on lets it through. *)
Definition passes (f : Filters) (m : PricingModel) : bool :=
  let all value := bool_decide (value = FILTER_ALL) in
  (negb (nonempty (f_search f)) || search_hit lower (f_search f) m) &&
  (all (f_vendor f) || has_vendor (f_vendor f) m) &&
  (all (f_group f) || listed (f_group f) (enable_groups m)) &&
  (all (f_quotaType f) || of_quota_type (f_quotaType f) m) &&
  (all (f_endpointType f) || listed (f_endpointType f) (supported_endpoint_types m)) &&
  (all (f_tag f) || has_tag lower (f_tag f) m).

Lemma bfilter_and {A} (p q : A → bool) l : List.filter q (List.filter p l) = List.filter (λ x, p x && q x) l.
Proof.
  induction l as [|x l IH]; [done|]. cbn [List.filter]. destruct (p x); cbn [List.filter andb]; [|done].
  by rewrite IH.
Qed.

Lemma unless_all_eq value test ms :
  unless_all value test ms = List.filter (λ m, bool_decide (value = FILTER_ALL) || test m) ms.
Proof. unfold unless_all. destruct (bool_decide _); [|done]. symmetry. by apply bfilter_all. Qed.

Lemma filters_eq ms f :
  filterAndSortModels lower localeCompare ms f = sortModels localeCompare (List.filter (passes f) ms) (f_sortBy f).
Proof.
  unfold filterAndSortModels, filterByVendor, filterByGroup, filterByQuotaType, filterByEndpointType, filterByTag.
  assert (filterBySearch lower ms (f_search f) =
    List.filter (λ m, negb (nonempty (f_search f)) || search_hit lower (f_search f) m) ms) as ->
    by (unfold filterBySearch; destruct (f_search f); [symmetry; by apply bfilter_all|done]).
  rewrite !unless_all_eq, !bfilter_and. f_equal. apply List.filter_ext. intros m. unfold passes. by rewrite !andb_assoc.
Qed.

(** The table shows the models that pass every filter, each as often as it is
    given: in the order given unless an order is chosen, in the order of the
    names when that is. *)
Lemma filters_spec ms f :
  let shown := filterAndSortModels lower localeCompare ms f in
  shown ≡ₚ List.filter (passes f) ms ∧
  (f_sortBy f ∉ [js "name"; js "price-low"; js "price-high"] → shown = List.filter (passes f) ms) ∧
  (CmpOrder localeCompare → f_sortBy f = js "name" → StronglySorted (cmp_le (compare_names localeCompare)) shown).
Proof.
  cbv zeta. rewrite filters_eq. unfold sortModels. split_and!.
  - repeat case_bool_decide; by rewrite ?js_sort_perm.
  - intros Hs. rewrite !bool_decide_false; [done|..]; intros E; apply Hs; rewrite E; set_solver.
  - intros Ho E. rewrite bool_decide_true by done. apply js_sort_sorted. split.
    + intros x y. apply Ho.
    + intros x y z. apply Ho.
Qed.

(** Every tag of the list finds a model: one of its tags is the tag in lower
    case, when lower case is stable. *)
Lemma tags_find_models ms tag :
  (∀ s, lower (lower s) = lower s) →
  tag ∈ extractAllTags lower localeCompare ms → tag ≠ FILTER_ALL → filterByTag lower ms tag ≠ [].
Proof.
  intros Hl Ht Hne. unfold extractAllTags in Ht. rewrite elem_of_js_sort, elem_of_uniq in Ht.
  apply list_elem_of_In, in_concat in Ht as (l & Hl' & Ht%list_elem_of_In).
  apply list_elem_of_In, list_elem_of_fmap in Hl' as (m & -> & Hm).
  apply list_elem_of_fmap in Ht as (t & -> & Ht). unfold filterByTag, unless_all. rewrite bool_decide_false by done.
  assert (m ∈ List.filter (has_tag lower (lower t)) ms) as Hin; [|intros E; rewrite E in Hin; by apply not_elem_of_nil in Hin].
  apply elem_of_bfilter. split; [done|]. unfold has_tag. rewrite Hl. apply bool_decide_eq_true_2.
  apply list_elem_of_fmap. by exists t.
Qed.

End Table.

End PriceTable.
