(* ===== verification/ChatLinks.v ===== *)
(** * Links to chat applications

    The presets of [features/chat/lib/chat-links.ts]: the list that the server
    keeps, and the link that hands an application the address of the server
    and a key.  [encodeURIComponent] is given here; lower case is a
    parameter. *)
From Stdlib Require Import ZifyN ZifyBool.
From S2P Require Import Prelude JSString JSNumber JSON Regex Base64.
Local Open Scope N_scope.

(** ** [encodeURIComponent] *)

Definition unreserved (c : jschar) : bool :=
  is_upper c || is_lower c || is_digit c || bool_decide (c ∈ js "-_.!~*'()").

(** The bytes of a code point in UTF-8. *)
Definition utf8_bytes (cp : N) : list N :=
  if cp <? 128 then [cp] else
  if cp <? 2048 then [192 + cp / 64; 128 + cp mod 64] else
  if cp <? 65536 then [224 + cp / 4096; 128 + cp / 64 mod 64; 128 + cp mod 64] else
  [240 + cp / 262144; 128 + cp / 4096 mod 64; 128 + cp / 64 mod 64; 128 + cp mod 64].

Definition surrogate_pair (hi lo : jschar) : N := 65536 + (hi - 55296) * 1024 + (lo - 56320).

(** The code points of a text; [None] for a surrogate without its partner. *)
Fixpoint uri_points (s : jsstr) : option (list N) :=
  match s with
  | [] => Some []
  | c :: t =>
      if is_low_surrogate c then None else
      if is_high_surrogate c then
        match t with
        | d :: t => if is_low_surrogate d then cons (surrogate_pair c d) <$> uri_points t else None
        | [] => None
        end
      else cons c <$> uri_points t
  end.

Definition hex_upper (n : N) : jschar := if n <? 10 then 48 + n else 55 + n.
Definition pct (b : N) : jsstr := [37; hex_upper (b / 16); hex_upper (b mod 16)].
Definition encode_point (cp : N) : jsstr := if unreserved cp then [cp] else concat (map pct (utf8_bytes cp)).

(** [None] is the exception for a lone surrogate. *)
Definition encodeURIComponent (s : jsstr) : option jsstr :=
  (λ l, concat (map encode_point l)) <$> uri_points s.

(** What a receiver reads: the bytes behind the percent signs. *)
Definition hex_digit_value (c : jschar) : N := if is_digit c then c - 48 else c - 55.
Fixpoint pct_decode (s : jsstr) : list N :=
  match s with
  | 37 :: h :: l :: t => 16 * hex_digit_value h + hex_digit_value l :: pct_decode t
  | c :: t => c :: pct_decode t
  | [] => []
  end.

Ltac Zify.zify_post_hook ::= Z.to_euclidean_division_equations.

(** *** The receiver reads what was written *)

Lemma pct_decode_pct b t : b < 256 → pct_decode (pct b ++ t) = b :: pct_decode t.
Proof.
  intros Hb. cbn [pct app pct_decode]. f_equal. apply (bool_decide_eq_true_1 _). revert b Hb.
  refine (Base64.below (λ b, bool_decide (16 * hex_digit_value (hex_upper (b / 16)) + hex_digit_value (hex_upper (b mod 16)) = b)) 256 _).
  by vm_compute.
Qed.

Lemma pct_decode_other c t : c ≠ 37 → pct_decode (c :: t) = c :: pct_decode t.
Proof. intros Hc. cbn [pct_decode]. repeat (case_match; try done). Qed.

Lemma unreserved_ascii c : unreserved c = true → c < 128 ∧ c ≠ 37.
Proof.
  unfold unreserved, is_upper, is_lower, is_digit. intros H.
  repeat (apply orb_true_iff in H as [H|H]); try (apply andb_true_iff in H as [H1 H2]; split; lia).
  apply bool_decide_eq_true_1 in H. by each_of H.
Qed.

Lemma utf8_bound cp : cp < 1114112 → Forall (λ b, b < 256) (utf8_bytes cp).
Proof. intros H. unfold utf8_bytes. repeat case_match; repeat constructor; lia. Qed.

Lemma utf8_ascii cp : cp < 128 → utf8_bytes cp = [cp].
Proof. intros H. unfold utf8_bytes. by rewrite (proj2 (N.ltb_lt cp 128)). Qed.

Lemma pct_decode_point cp t : cp < 1114112 → pct_decode (encode_point cp ++ t) = utf8_bytes cp ++ pct_decode t.
Proof.
  intros Hcp. unfold encode_point. destruct (unreserved cp) eqn:E.
  - destruct (unreserved_ascii cp E) as [H1 H2]. rewrite utf8_ascii by done. by apply pct_decode_other.
  - induction (utf8_bound cp Hcp) as [|b l Hb _ IH]; [done|]. cbn [map concat]. rewrite <- app_assoc.
    rewrite pct_decode_pct by done. cbn [app]. by rewrite IH.
Qed.

Lemma uri_points_bound s l : is_utf16 s → uri_points s = Some l → Forall (λ cp, cp < 1114112) l.
Proof.
  assert (∀ n s l, (length s <= n)%nat → is_utf16 s → uri_points s = Some l → Forall (λ cp, cp < 1114112) l) as H; [|by eapply H].
  clear. intros n. induction n as [|n IH]; intros [|c [|d t]] l Hn Hs Hl; cbn [uri_points] in Hl; simpl in Hn; try lia;
    try (injection Hl as <-; constructor).
  - apply Forall_cons in Hs as [Hc _]. repeat case_match; try done. injection Hl as <-. repeat constructor. lia.
  - apply Forall_cons in Hs as [Hc Hs]. destruct (is_low_surrogate c); [done|]. destruct (is_high_surrogate c) eqn:Eh.
    + destruct (is_low_surrogate d) eqn:El; [|done]. apply fmap_Some in Hl as (l' & Hl & ->).
      apply Forall_cons in Hs as [_ Hs]. constructor; [|by eapply (IH t); [lia|..]].
      unfold surrogate_pair, is_high_surrogate, is_low_surrogate in *. lia.
    + apply fmap_Some in Hl as (l' & Hl & ->). constructor; [lia|]. eapply (IH (d :: t)); [simpl; lia|done|exact Hl].
Qed.

Lemma decode_encoded s e :
  is_utf16 s → encodeURIComponent s = Some e →
  ∃ l, uri_points s = Some l ∧ pct_decode e = concat (map utf8_bytes l).
Proof.
  intros Hs He. unfold encodeURIComponent in He. apply fmap_Some in He as (l & Hl & ->). exists l. split; [done|].
  pose proof (uri_points_bound s l Hs Hl) as Hb. clear Hl. induction Hb as [|cp l' Hcp _ IH]; [done|]. cbn [map concat].
  by rewrite pct_decode_point, IH.
Qed.

Lemma ascii_encoded s : Forall (λ c, c < 128) s → ∃ e, encodeURIComponent s = Some e ∧ pct_decode e = s.
Proof.
  intros Hs. assert (uri_points s = Some s ∧ concat (map utf8_bytes s) = s) as [Hc Hb].
  { induction Hs as [|c s Hc _ [IH1 IH2]]; [done|]. cbn [uri_points map concat].
    assert (is_low_surrogate c = false ∧ is_high_surrogate c = false) as [-> ->]
      by (unfold is_low_surrogate, is_high_surrogate; lia).
    by rewrite IH1, IH2, utf8_ascii. }
  assert (is_utf16 s) as Hu by (eapply Forall_impl; [exact Hs|]; simpl; lia).
  unfold encodeURIComponent. rewrite Hc. eexists; split; [reflexivity|].
  destruct (decode_encoded s _ Hu (f_equal (fmap _) Hc)) as (l & Hl & E). congruence.
Qed.

Module ChatLinks.

Inductive ChatLinkType := Web | CustomProtocol | Fluent.

Record ChatPreset := mkPreset { id : jsstr; name : jsstr; url : jsstr; type : ChatLinkType }.

Record ActiveApiKey := mkKey { key : jsstr; status : Z }.
Definition ENABLED : Z := 1.

(** A letter in either case. *)
Definition either_case (c : jschar) : regex := RChar (λ d, (d =? c) || (d =? c - 32)).
Definition HTTP_REGEX : regex :=
  RStart · either_case 104 · either_case 116 · either_case 116 · either_case 112 · ROpt (either_case 115) · lit (js "://").

(** [window.btoa] *)
Definition toBase64 (value : jsstr) : option jsstr := Base64.btoa value.

(** [source.split(token).join(value)] for a token that is not empty *)
Fixpoint split_str (fuel : nat) (sep s : jsstr) : list jsstr :=
  match fuel with
  | O => [s]
  | S fuel =>
      match index_of sep s with
      | None => [s]
      | Some i => take i s :: split_str fuel sep (drop (i + length sep) s)
      end
  end.
Definition replaceToken (source token value : jsstr) : jsstr :=
  join value (split_str (length source) token source).

Definition normalizeApiKey (apiKey : jsstr) : jsstr :=
  match trim apiKey with
  | [] => []
  | trimmed => if starts_with (js "sk-") trimmed then trimmed else js "sk-" ++ trimmed
  end.

Definition CHERRY : jsstr := js "{cherryConfig}".
Definition AIONUI : jsstr := js "{aionuiConfig}".
Definition ADDRESS : jsstr := js "{address}".
Definition KEY : jsstr := js "{key}".

(** The two payloads differ in the name of their first property. *)
Definition payload (first : string) (baseUrl apiKey : jsstr) : json :=
  JObj [(js first, JStr (js "new-api")); (js "baseUrl", JStr baseUrl); (js "apiKey", JStr apiKey)].
Definition encoded (p : json) : option jsstr := s ← toBase64 (JSON_stringify p); encodeURIComponent s.

(** [None] is an exception. *)
Definition resolveChatUrl (template : jsstr) (apiKey : option jsstr) (serverAddress : jsstr) : option jsstr :=
  let safeApiKey := normalizeApiKey (opt_or apiKey []) in
  if includes CHERRY template then replaceToken template CHERRY <$> encoded (payload "id" serverAddress safeApiKey) else
  if includes AIONUI template then replaceToken template AIONUI <$> encoded (payload "platform" serverAddress safeApiKey) else
  url ← (if nonempty serverAddress then replaceToken template ADDRESS <$> encodeURIComponent serverAddress else Some template);
  Some (if nonempty safeApiKey then replaceToken url KEY safeApiKey else url).

Definition getFirstActiveKey (keys : option (list ActiveApiKey)) : option ActiveApiKey :=
  match keys with Some l => List.find (λ k, status k =? ENABLED)%Z l | None => None end.

Section Presets.
Context (lower : jsstr → jsstr).

Definition detectChatLinkType (url : jsstr) : ChatLinkType :=
  if re_test HTTP_REGEX url then Web else
  if starts_with (js "fluent") (lower url) then Fluent else CustomProtocol.

(** The callback of [map]; [None] is [null]. *)
Definition preset_of (index : nat) (entry : json) : option ChatPreset :=
  match entry with
  | JObj [(name, JStr value)] =>
      match trim value with
      | [] => None
      | url => Some (mkPreset (string_of_N (N.of_nat index)) name url (detectChatLinkType url))
      end
  | _ => None
  end.

(** [raw] as it is stored: a text, or a value. *)
Definition parseChatConfig (raw : option json) : list ChatPreset :=
  let parsed := match raw with
    | Some (JStr s) => JSON_parse s
    | _ => raw end in
  match parsed with Some (JArr l) => omap (λ x, x) (imap preset_of l) | _ => [] end.

End Presets.

Example link_samples :
  map (λ t, resolveChatUrl (js t) (Some (js " abc ")) (js "https://a.b/"))
    ["app://open?d={cherryConfig}"; "https://x/#/?u={address}&k={key}"; "fluent:{key}{key}"]%string =
  [Some (js "app://open?d=eyJpZCI6Im5ldy1hcGkiLCJiYXNlVXJsIjoiaHR0cHM6Ly9hLmIvIiwiYXBpS2V5Ijoic2stYWJjIn0%3D");
   Some (js "https://x/#/?u=https%3A%2F%2Fa.b%2F&k=sk-abc"); Some (js "fluent:sk-abcsk-abc")].
Proof. by vm_compute. Qed.

(** ** A configured link *)

Lemma split_none fuel sep s : includes sep s = false → split_str fuel sep s = [s].
Proof. intros H%includes_false. destruct fuel; cbn [split_str]; [done|by rewrite H]. Qed.

(** A token that occurs once is replaced there. *)
Lemma replace_once token pre post value :
  borderless token = true → token ≠ [] → includes token pre = false → includes token post = false →
  replaceToken (pre ++ token ++ post) token value = pre ++ value ++ post.
Proof.
  intros Hb Hne Hpre Hpost. unfold replaceToken.
  destruct (length (pre ++ token ++ post)) as [|fuel] eqn:El.
  { rewrite !length_app in El. destruct token; [done|simpl in El; lia]. }
  cbn [split_str]. rewrite index_of_borderless by done. rewrite take_app_length.
  rewrite drop_app_add, drop_app_length, split_none by done. reflexivity.
Qed.

Definition latin (s : jsstr) : Prop := Forall (λ c, c < 256) s.

Lemma quote_latin s : latin s → latin (quote s).
Proof.
  intros Hs. unfold quote. constructor; [done|]. apply Forall_app. split; [|by repeat constructor].
  induction Hs as [|c s Hc _ IH]; [constructor|]. cbn [quote_chars].
  assert (is_high_surrogate c = false) as -> by (unfold is_high_surrogate; lia).
  apply Forall_app. split; [|exact IH]. unfold quote_char.
  repeat (case_match; [by repeat constructor|]). case_match.
  - unfold escape_u. assert (∀ n, n < 16 → hex_digit n < 256) as Hh
      by (intros n Hn; unfold hex_digit; case_match; lia).
    repeat (apply Forall_cons; split); try done; apply Hh; lia.
  - constructor; [exact Hc|constructor].
Qed.

Lemma payload_text first baseUrl apiKey :
  JSON_stringify (payload first baseUrl apiKey) =
  js "{" ++ (quote (js first) ++ js ":" ++ quote (js "new-api")) ++ js "," ++
  (quote (js "baseUrl") ++ js ":" ++ quote baseUrl) ++ js "," ++ (quote (js "apiKey") ++ js ":" ++ quote apiKey) ++ js "}".
Proof. unfold payload. rewrite stringify_obj. cbn [map join]. unfold member. cbn [fst snd]. rewrite <- !app_assoc. reflexivity. Qed.

Lemma payload_latin first baseUrl apiKey :
  latin (js first) → latin baseUrl → latin apiKey → latin (JSON_stringify (payload first baseUrl apiKey)).
Proof.
  intros Hf Hb Hk. rewrite payload_text. unfold latin. rewrite !Forall_app.
  split_and!; try (by apply quote_latin); try (apply quote_latin); by repeat constructor.
Qed.

Lemma latin_utf16 s : latin s → is_utf16 s.
Proof. intros H. eapply Forall_impl; [exact H|]. simpl. lia. Qed.

(** What an application reads in its parameter. *)
Definition received (e : jsstr) : option json := text ← Base64.atob (pct_decode e); JSON_parse text.

Lemma encoded_received first baseUrl apiKey :
  first = "id"%string ∨ first = "platform"%string → latin baseUrl → latin apiKey →
  ∃ e, encoded (payload first baseUrl apiKey) = Some e ∧ received e = Some (payload first baseUrl apiKey).
Proof.
  intros Hf Hb Hk. assert (latin (js first)) as Hl by (destruct Hf; subst; by repeat constructor).
  pose proof (payload_latin first baseUrl apiKey Hl Hb Hk) as Ht.
  destruct (ascii_encoded _ (Base64.encode_ascii _ Ht)) as (e & He & Hd).
  exists e. unfold encoded, toBase64, received. rewrite Base64.btoa_bytes by done. cbn [mbind option_bind].
  split; [done|]. rewrite Hd, Base64.atob_encode by done. cbn [mbind option_bind]. apply JSON_roundtrip.
  constructor; [by destruct Hf; subst|].
  repeat constructor; try (apply latin_utf16; by repeat constructor); cbn [fst snd]; by apply latin_utf16.
Qed.

Lemma trim_latin s : latin s → latin (trim s).
Proof.
  intros Hs. destruct (trim_decompose s) as (w1 & w2 & E & _). rewrite E in Hs. unfold latin in Hs.
  rewrite !Forall_app in Hs. apply Hs.
Qed.

Lemma key_latin s : latin s → latin (normalizeApiKey s).
Proof.
  intros Hs%trim_latin. unfold normalizeApiKey. destruct (trim s) as [|c t]; [done|].
  destruct (starts_with _ _); [done|]. apply Forall_app. split; [by repeat constructor|done].
Qed.

(** The two placeholders and the first property of what they stand for; the
    one for Cherry Studio is looked for first. *)
Definition configured (template token : jsstr) (first : string) : Prop :=
  (token = CHERRY ∧ first = "id"%string) ∨
  (token = AIONUI ∧ first = "platform"%string ∧ includes CHERRY template = false).

(** The link of an application whose template holds a placeholder for a
    configuration: the text around the placeholder stays, and what takes its
    place, read back as a component of a URL, as base64 and as JSON, is the
    address of the server and the key with its prefix.  Addresses and keys
    are of characters below 256. *)
Theorem chat_link_spec pre token post first key address :
  let template := pre ++ token ++ post in
  configured template token first → includes token pre = false → includes token post = false →
  latin address → latin key →
  ∃ e, resolveChatUrl template (Some key) address = Some (pre ++ e ++ post) ∧
       received e = Some (payload first address (normalizeApiKey key)).
Proof.
  intros template Hc Hpre Hpost Ha Hk. pose proof (key_latin key Hk) as Hk'.
  assert (includes token template = true) as Ht by (apply includes_spec; by exists pre, post).
  assert (first = "id"%string ∨ first = "platform"%string) as Hf by (destruct Hc as [[_ ->]|(_ & -> & _)]; auto).
  destruct (encoded_received first address (normalizeApiKey key) Hf Ha Hk') as (e & He & Hr).
  exists e. split; [|done]. unfold resolveChatUrl. cbn [opt_or].
  destruct Hc as [[-> ->]|(-> & -> & Hn)].
  - rewrite Ht, He. cbn [fmap option_fmap option_map]. f_equal. by apply replace_once.
  - rewrite Hn, Ht, He. cbn [fmap option_fmap option_map]. f_equal. by apply replace_once.
Qed.

Lemma chat_link_spec_witness :
  ∃ e, resolveChatUrl (js "app://set?c={aionuiConfig}&v=1") (Some (js "k1")) (js "https://a.b") =
       Some (js "app://set?c=" ++ e ++ js "&v=1") ∧
       received e = Some (payload "platform" (js "https://a.b") (js "sk-k1")).
Proof.
  assert (configured (js "app://set?c=" ++ AIONUI ++ js "&v=1") AIONUI "platform") as Hc
    by (right; split_and!; [done|done|by vm_compute]).
  apply (chat_link_spec (js "app://set?c=") AIONUI (js "&v=1") "platform" (js "k1") (js "https://a.b") Hc);
    [by vm_compute|by vm_compute|by repeat constructor..].
Defined.

(** An address with a character that [btoa] does not take makes the link
    throw; without [btoa] the text would be encoded as UTF-8. *)
Example wide_address_throws :
  resolveChatUrl CHERRY (Some (js "k")) (js "https://" ++ [20363; 12364]) = None.
Proof. by vm_compute. Qed.

(** ** The list of presets *)

(** The presets are the entries with one property that is a text, in order,
    each under its place in the list. *)
Lemma presets_spec lower l p :
  p ∈ parseChatConfig lower (Some (JArr l)) ↔
  ∃ i n v, l !! i = Some (JObj [(n, JStr v)]) ∧ trim v ≠ [] ∧
    p = mkPreset (string_of_N (N.of_nat i)) n (trim v) (detectChatLinkType lower (trim v)).
Proof.
  unfold parseChatConfig. rewrite list_elem_of_omap. split.
  - intros (x & Hx & ->). apply list_elem_of_lookup in Hx as (i & Hi). rewrite list_lookup_imap in Hi.
    apply fmap_Some in Hi as (e & He & Hp). exists i. unfold preset_of in Hp.
    destruct e as [| | | | |[|[n [| | |v| |]] [|]]]; try done. exists n, v. destruct (trim v); [done|]. by injection Hp.
  - intros (i & n & v & Hl & Hv & ->). eexists. split; [|reflexivity]. apply list_elem_of_lookup. exists i.
    rewrite list_lookup_imap, Hl. cbn [fmap option_fmap option_map preset_of]. by destruct (trim v).
Qed.

End ChatLinks.
