(* ===== verification/TableUrl.v ===== *)
(** * The state of tables in the URL

    [hooks/use-table-url-state.ts]: the filters and the page of a table live in
    the search part of the URL.  The router is a parameter: it turns the record
    it is given into the one that the next rendering sees ([settle]), and may
    hand back the object it had when the two are equal ([same]). *)
From S2P Require Import Prelude JSString JSNumber NumInt JSON.
Local Open Scope Z_scope.

Module TableUrl.

(** A property that is there may be [undefined]. *)
Definition SearchRecord := obj (option json).
Definition param (k : jsstr) (r : SearchRecord) : option json := opt_or (obj_get k r) None.
Definition set_param (k : jsstr) (v : option json) (r : SearchRecord) : SearchRecord := obj_set k v r.

Inductive FilterType := FString | FArray.

(** A column in the URL; without a type it is taken for one of a list. *)
Record ColumnCfg := mkCfg {
  columnId : jsstr;
  searchKey : jsstr;
  ctype : option FilterType;
  serialize : option (json → option json);
  deserialize : option (option json → option json);
}.

Record ColumnFilter := mkFilter { id : jsstr; value : json }.
Definition ColumnFiltersState := list ColumnFilter.
Record PaginationState := mkPagination { pageIndex : num; pageSize : num }.

Record Params := mkParams {
  pageKey_ : option jsstr;
  pageSizeKey_ : option jsstr;
  defaultPage_ : option num;
  defaultPageSize_ : option num;
  globalKey_ : option jsstr;
  globalEnabled_ : option bool;
  globalTrim_ : option bool;
  columnCfgs : list ColumnCfg;
}.

(** The value of an updater, which may be a function of the old value. *)
Definition Updater (A : Type) : Type := A + (A → A).
Definition apply_updater {A} (updater : Updater A) (old : A) : A :=
  match updater with inl next => next | inr f => f old end.

Definition math_max_0 (x : num) : num := if num_is_nan x then x else if num_ltb num_zero x then x else num_zero.

Section Hook.
Context (params : Params).

Definition pageKey : jsstr := opt_or (pageKey_ params) (js "page").
Definition pageSizeKey : jsstr := opt_or (pageSizeKey_ params) (js "pageSize").
Definition defaultPage : num := opt_or (defaultPage_ params) (num_of_Z 1).
Definition defaultPageSize : num := opt_or (defaultPageSize_ params) (num_of_Z 20).
Definition globalFilterKey : jsstr := opt_or (globalKey_ params) (js "filter").
Definition globalFilterEnabled : bool := opt_or (globalEnabled_ params) true.
Definition trimGlobal : bool := opt_or (globalTrim_ params) true.

(** ** Reading the URL *)

(** [v ?? d] *)
Definition nullish (v : option json) (d : json) : json :=
  match v with None | Some JNull => d | Some v => v end.

(** Whether a filter of a column is set: a text that is not blank, a list that
    is not empty. *)
Definition set_value (c : ColumnCfg) (v : json) : bool :=
  match ctype c, v with
  | Some FString, JStr s => nonempty (trim s)
  | Some FString, _ => false
  | _, JArr (_ :: _) => true
  | _, _ => false
  end.

(** The body of the loop over the columns. *)
Definition collect (search : SearchRecord) (c : ColumnCfg) : option ColumnFilter :=
  let raw := param (searchKey c) search in
  let v := opt_or (deserialize c) (λ v, v) raw in
  let v := nullish v (match ctype c with Some FString => JStr [] | _ => JArr [] end) in
  if set_value c v then Some (mkFilter (columnId c) v) else None.

Definition initialColumnFilters (search : SearchRecord) : ColumnFiltersState :=
  omap (collect search) (columnCfgs params).

Definition number_or (v : option json) (d : num) : num := match v with Some (JNum n) => n | _ => d end.

Definition pagination (search : SearchRecord) : PaginationState :=
  let pageNum := number_or (param pageKey search) defaultPage in
  let pageSizeNum := number_or (param pageSizeKey search) defaultPageSize in
  mkPagination (math_max_0 (num_sub pageNum (num_of_Z 1))) pageSizeNum.

Definition initialGlobalFilter (search : SearchRecord) : option jsstr :=
  if negb globalFilterEnabled then None else
  match param globalFilterKey search with Some (JStr s) => Some s | _ => Some [] end.

(** ** Writing it *)

Definition unless (b : bool) (v : json) : option json := if b then None else Some v.

Definition page_patch (next : PaginationState) (prev : SearchRecord) : SearchRecord :=
  let nextPage := num_add (pageIndex next) (num_of_Z 1) in
  let nextPageSize := pageSize next in
  set_param pageSizeKey (unless (num_eqb nextPageSize defaultPageSize) (JNum nextPageSize))
    (set_param pageKey (unless (num_leb nextPage defaultPage) (JNum nextPage)) prev).

Definition global_patch (v : jsstr) (prev : SearchRecord) : SearchRecord :=
  set_param globalFilterKey (unless (negb (nonempty v)) (JStr v)) (set_param pageKey None prev).

(** What the loop over the columns writes for one of them: [found?.value] when
    it has the type of the column. *)
Definition serialized (next : ColumnFiltersState) (c : ColumnCfg) : option json :=
  f ← List.find (λ f, bool_decide (id f = columnId c)) next;
  if set_value c (value f) then opt_or (serialize c) Some (value f) else None.

Definition filter_patch (next : ColumnFiltersState) (prev : SearchRecord) : SearchRecord :=
  foldl (λ r c, set_param (searchKey c) (serialized next c) r) (set_param pageKey None prev) (columnCfgs params).

Inductive ResetTo := First | Last.

(** [None] when there is no navigation. *)
Definition range_patch (pageCount : num) (resetTo : ResetTo) (search prev : SearchRecord) : option SearchRecord :=
  let pageNum := number_or (param pageKey search) defaultPage in
  if num_ltb num_zero pageCount && num_ltb pageCount pageNum
  then Some (set_param pageKey (match resetTo with Last => Some (JNum pageCount) | First => None end) prev)
  else None.

(** ** The hook *)

Record Table := mkTable {
  search : SearchRecord;
  columnFilters : ColumnFiltersState;
  globalFilter : option jsstr;
}.

Definition mount (search : SearchRecord) : Table :=
  mkTable search (initialColumnFilters search) (initialGlobalFilter search).

Inductive Event :=
  | OnPaginationChange (updater : Updater PaginationState)
  | OnGlobalFilterChange (updater : Updater jsstr)
  | OnColumnFiltersChange (updater : Updater ColumnFiltersState)
  | EnsurePageInRange (pageCount : num) (resetTo : ResetTo)
  | Navigated (search : SearchRecord).

Context (settle : SearchRecord → SearchRecord) (same : SearchRecord → SearchRecord → bool).

(** The next rendering and its effect: the filters are read again when the
    record is another object. *)
Definition arrive (next : SearchRecord) (t : Table) : Table :=
  if same (search t) next then t
  else mkTable next (initialColumnFilters next) (globalFilter t).

Definition navigate (f : SearchRecord → SearchRecord) (t : Table) : Table := arrive (settle (f (search t))) t.

Definition step (t : Table) (e : Event) : Table :=
  match e with
  | OnPaginationChange updater =>
      navigate (page_patch (apply_updater updater (pagination (search t)))) t
  | OnGlobalFilterChange updater =>
      if negb globalFilterEnabled then t else
      let next := apply_updater updater (opt_or (globalFilter t) []) in
      let v := if trimGlobal then trim next else next in
      navigate (global_patch v) (mkTable (search t) (columnFilters t) (Some v))
  | OnColumnFiltersChange updater =>
      let next := apply_updater updater (columnFilters t) in
      navigate (filter_patch next) (mkTable (search t) next (globalFilter t))
  | EnsurePageInRange pageCount resetTo =>
      match range_patch pageCount resetTo (search t) (search t) with
      | Some r => arrive (settle r) t
      | None => t
      end
  | Navigated r => arrive r t
  end.

Definition run (t : Table) (es : list Event) : Table := foldl step t es.

End Hook.

(** ** Lemmas *)

Lemma param_set k k' v r : param k (set_param k' v r) = if decide (k = k') then v else param k r.
Proof. unfold param, set_param. rewrite obj_get_set. by destruct (decide (k = k')). Qed.

Section Url.
Context (params : Params) (settle : SearchRecord → SearchRecord) (same : SearchRecord → SearchRecord → bool).

(** What the code relies on: the router keeps the value of every property,
    and keeps the object only for a record with the same values. *)
Context (Hsettle : ∀ r k, param k (settle r) = param k r).
Context (Hsame : ∀ r r', same r r' = true → ∀ k, param k r' = param k r).

Abbreviation cfgs := (columnCfgs params).
Abbreviation keys := (map searchKey cfgs).
Abbreviation tick := (step params settle same).

(** The record after a navigation, as far as it is read. *)
Lemma arrive_param r t k : param k (search (arrive params same (settle r) t)) = param k r.
Proof.
  unfold arrive. destruct (same (search t) (settle r)) eqn:E; [|apply Hsettle].
  by rewrite <- (Hsame _ _ E), Hsettle.
Qed.

Lemma filter_patch_get next prev k :
  param k (filter_patch params next prev) =
  match List.find (λ c, bool_decide (searchKey c = k)) (reverse cfgs) with
  | Some c => serialized next c
  | None => if decide (k = pageKey params) then None else param k prev
  end.
Proof.
  unfold filter_patch. induction cfgs as [|c l IH] using rev_ind; [apply param_set|].
  rewrite foldl_app, reverse_snoc. cbn [foldl List.find]. rewrite param_set, IH.
  destruct (decide (k = searchKey c)) as [->|Hk]; [by rewrite bool_decide_true|by rewrite bool_decide_false].
Qed.

Lemma find_key l c : NoDup (map searchKey l) → c ∈ l → List.find (λ c', bool_decide (searchKey c' = searchKey c)) (reverse l) = Some c.
Proof.
  intros Hn Hc. assert (NoDup (map searchKey (reverse l))) as Hn' by (by rewrite reverse_Permutation).
  assert (c ∈ reverse l) as Hc' by (by apply elem_of_reverse). clear Hn Hc.
  induction (reverse l) as [|c' l' IH]; [by apply not_elem_of_nil in Hc'|]. cbn [List.find map] in *.
  apply NoDup_cons in Hn' as [Hn1 Hn2]. case_bool_decide as E.
  - apply elem_of_cons in Hc' as [->|Hc']; [done|]. destruct Hn1. rewrite E. apply list_elem_of_fmap. by exists c.
  - apply elem_of_cons in Hc' as [->|Hc']; [done|by apply IH].
Qed.

Lemma find_no_key l k : k ∉ map searchKey l → List.find (λ c, bool_decide (searchKey c = k)) (reverse l) = None.
Proof.
  intros Hk. destruct (List.find _ _) as [c|] eqn:E; [|done]. apply List.find_some in E as [Hc Hd].
  destruct Hk. apply bool_decide_eq_true_1 in Hd as <-. apply list_elem_of_fmap. exists c. split; [done|].
  by apply elem_of_reverse, list_elem_of_In.
Qed.

(** ** Filters *)

(** The filter that is kept of a column: the first one with its id, if it is
    set. *)
Definition kept (next : ColumnFiltersState) (c : ColumnCfg) : option ColumnFilter :=
  f ← List.find (λ f, bool_decide (id f = columnId c)) next;
  if set_value c (value f) then Some f else None.

Definition to_url (c : ColumnCfg) (v : json) : option json := opt_or (serialize c) Some v.
Definition from_url (c : ColumnCfg) (v : option json) : json :=
  nullish (opt_or (deserialize c) (λ v, v) v) (match ctype c with Some FString => JStr [] | _ => JArr [] end).

(** The columns have keys of their own, and those that transform values read
    back what they write: the values in use, and nothing where nothing is. *)
Record columns_ok (next : ColumnFiltersState) : Prop := {
  keys_nodup : NoDup keys;
  keys_page : pageKey params ∉ keys;
  keys_read : ∀ c f, c ∈ cfgs → kept next c = Some f → from_url c (to_url c (value f)) = value f;
  keys_none : ∀ c, c ∈ cfgs → set_value c (from_url c None) = false;
}.

Lemma collect_eq r c :
  collect r c = let v := from_url c (param (searchKey c) r) in if set_value c v then Some (mkFilter (columnId c) v) else None.
Proof. done. Qed.

Lemma collect_written next r c :
  columns_ok next → c ∈ cfgs → param (searchKey c) r = serialized next c → collect r c = kept next c.
Proof.
  intros [_ _ Hr Hn] Hc Hp. rewrite collect_eq, Hp. unfold serialized. specialize (Hr c). unfold kept in *.
  destruct (List.find _ next) as [f|] eqn:Ef; cbn [mbind option_bind] in *; [|by rewrite Hn].
  apply List.find_some in Ef as [_ Eid%bool_decide_eq_true_1].
  destruct (set_value c (value f)) eqn:Es; [|by rewrite Hn]. specialize (Hr f Hc eq_refl). unfold to_url in Hr.
  rewrite Hr, Es. rewrite <- Eid. by destruct f.
Qed.

Lemma omap_ext_in {A B} (f g : A → option B) (l : list A) : (∀ x, x ∈ l → f x = g x) → omap f l = omap g l.
Proof.
  induction l as [|x l IH]; intros H; [done|]. cbn [omap list_omap]. rewrite (H x) by (by left).
  rewrite IH; [done|]. intros y Hy. apply H. by right.
Qed.

(** Filters survive the URL: after a change of the filters the URL holds
    exactly those of its columns that are set, the table is back on its first
    page, every other parameter is as it was, and what the table shows is what
    the URL says unless the router found nothing to change. *)
Theorem filters_survive_url t updater :
  let next := apply_updater updater (columnFilters t) in
  let t' := tick t (OnColumnFiltersChange updater) in
  columns_ok next →
  initialColumnFilters params (search t') = omap (kept next) cfgs ∧
  param (pageKey params) (search t') = None ∧
  (∀ k, k ∉ pageKey params :: keys → param k (search t') = param k (search t)) ∧
  (columnFilters t' = omap (kept next) cfgs ∨
   columnFilters t' = next ∧ ∀ k, param k (search t') = param k (search t)) ∧
  globalFilter t' = globalFilter t.
Proof.
  intros next t' Hok. set (t0 := mkTable (search t) next (globalFilter t)).
  assert (t' = arrive params same (settle (filter_patch params next (search t))) t0) as Et by done.
  assert (∀ k, param k (search t') = param k (filter_patch params next (search t))) as Hp
    by (intros k; rewrite Et; apply arrive_param).
  assert (initialColumnFilters params (search t') = omap (kept next) cfgs) as Hi.
  { apply omap_ext_in. intros c Hc. apply collect_written; [done..|]. rewrite Hp, filter_patch_get.
    by rewrite (find_key _ _ (keys_nodup _ Hok) Hc). }
  split_and!; [done| | | |].
  - rewrite Hp, filter_patch_get, find_no_key by apply Hok. by rewrite decide_True.
  - intros k [Hk1 Hk2]%not_elem_of_cons. rewrite Hp, filter_patch_get, find_no_key by done. by rewrite decide_False.
  - revert Hi. rewrite Et. unfold arrive. destruct (same _ _); [right; by split|]. cbn [search columnFilters]. auto.
  - rewrite Et. unfold arrive. by destruct (same _ _).
Qed.

(** ** Pages *)

Definition page_of (t : Table) : PaginationState := pagination params (search t).

Lemma math_max_int i : 0 <= i < 2 ^ 53 → math_max_0 (num_of_Z i) = num_of_Z i.
Proof.
  intros Hi. unfold math_max_0. change num_zero with (num_of_Z 0). rewrite num_ltb_int by (unfold small; lia).
  assert (num_is_nan (num_of_Z i) = false) as -> by (rewrite num_of_Z_eq by (unfold small; lia); by destruct i).
  destruct (Z.ltb_spec 0 i); [done|]. by replace i with 0 by lia.
Qed.

(** A table whose first page is 1. *)
Record pages_ok : Prop := {
  first_page : defaultPage params = num_of_Z 1;
  page_keys : pageKey params ≠ pageSizeKey params;
}.

(** The page survives the URL: whichever page and size are chosen, the
    table shows that page and size after the navigation, and the URL names
    neither the first page nor the usual size. *)
Theorem page_survives_url t updater i size :
  pages_ok → 0 <= i < 2 ^ 52 → 0 < size < 2 ^ 52 → (∃ d, 0 < d < 2 ^ 52 ∧ defaultPageSize params = num_of_Z d) →
  apply_updater updater (page_of t) = mkPagination (num_of_Z i) (num_of_Z size) →
  let t' := tick t (OnPaginationChange updater) in
  page_of t' = mkPagination (num_of_Z i) (num_of_Z size) ∧
  (i = 0 → param (pageKey params) (search t') = None) ∧
  (∀ k, k ∉ [pageKey params; pageSizeKey params] → param k (search t') = param k (search t)).
Proof.
  intros [Hd Hk] Hi Hs (d & Hd' & Ed) Hu t'.
  assert (∀ k, param k (search t') = param k (page_patch params (mkPagination (num_of_Z i) (num_of_Z size)) (search t))) as Hp.
  { intros k. unfold t'. cbn [step]. unfold page_of in Hu. rewrite Hu. apply arrive_param. }
  assert (param (pageKey params) (search t') = unless (i + 1 <=? 1) (JNum (num_of_Z (i + 1)))) as Hpk.
  { rewrite Hp. unfold page_patch. cbn [pageIndex pageSize]. rewrite param_set, decide_False by done.
    rewrite param_set, decide_True by done. rewrite Hd, num_add_int, num_leb_int by (unfold small; lia). done. }
  assert (param (pageSizeKey params) (search t') = unless (size =? d) (JNum (num_of_Z size))) as Hpz.
  { rewrite Hp. unfold page_patch. cbn [pageIndex pageSize]. rewrite param_set, decide_True by done.
    by rewrite Ed, num_eqb_int by (unfold small; lia). }
  split_and!.
  - unfold page_of, pagination. rewrite Hpk, Hpz, Hd, Ed. f_equal.
    + destruct (Z.leb_spec (i + 1) 1); cbn [unless number_or]; rewrite num_sub_int by (unfold small; lia).
      * replace i with 0 by lia. done.
      * replace (i + 1 - 1) with i by lia. apply math_max_int. lia.
    + destruct (Z.eqb_spec size d); [by subst|done].
  - intros ->. by rewrite Hpk.
  - intros k Hn. rewrite !not_elem_of_cons in Hn. destruct Hn as (H1 & H2 & _). rewrite Hp. unfold page_patch.
    by rewrite !param_set, !decide_False.
Qed.

(** The page as the URL says it, where it says an integer. *)
Definition page_number (t : Table) (n : Z) : Prop :=
  number_or (param (pageKey params) (search t)) (defaultPage params) = num_of_Z n.

(** A page behind the last one is left, once: the next page is in range and
    the check has nothing more to do. *)
Lemma range_reached t n count reset :
  pages_ok → page_number t n → 0 <= n < 2 ^ 53 → 0 < count < 2 ^ 53 →
  let t' := tick t (EnsurePageInRange (num_of_Z count) reset) in
  (∃ n', page_number t' n' ∧ n' <= count ∧ (n <= count → n' = n)) ∧
  tick t' (EnsurePageInRange (num_of_Z count) reset) = t'.
Proof.
  intros [Hd Hk] Hn Hr Hc t'.
  assert (∀ t0 m, page_number t0 m → 0 <= m < 2 ^ 53 → m <= count → tick t0 (EnsurePageInRange (num_of_Z count) reset) = t0) as Hstay.
  { intros t0 m Hm Hm' Hle. cbn [step]. unfold range_patch. unfold page_number in Hm. rewrite Hm.
    rewrite (num_ltb_int count m) by (unfold small; lia). rewrite (proj2 (Z.ltb_ge count m)) by lia. by rewrite andb_false_r. }
  destruct (Z.le_gt_cases n count) as [Hle|Hgt].
  - assert (t' = t) as -> by by eapply Hstay. split; [|by eapply Hstay]. by exists n.
  - assert (∃ n', page_number t' n' ∧ 0 <= n' <= count) as (n' & Hn' & Hle').
    { exists (match reset with First => 1 | Last => count end). split; [|destruct reset; lia].
      unfold page_number, t'. cbn [step]. unfold range_patch. unfold page_number in Hn. rewrite Hn.
      change num_zero with (num_of_Z 0). rewrite !num_ltb_int by (unfold small; lia).
      rewrite (proj2 (Z.ltb_lt 0 count)), (proj2 (Z.ltb_lt count n)) by lia. cbn [andb]. rewrite arrive_param, param_set.
      rewrite decide_True by done. by destruct reset; cbn [number_or]. }
    split; [exists n'; split; [done|lia]|]. eapply Hstay; [exact Hn'|lia..].
Qed.

End Url.

(** ** A table *)

(** The table of users: a group is one text in the URL and a list in the
    table. *)
Definition users_params : Params :=
  mkParams None None (Some (num_of_Z 1)) (Some (num_of_Z 20)) (Some (js "filter")) (Some true) None
    [mkCfg (js "status") (js "status") (Some FArray) None None;
     mkCfg (js "group") (js "group") (Some FArray)
       (Some (λ v, match v with JArr l => head l | _ => Some v end))
       (Some (λ v, match v with Some (JStr (c :: s)) => Some (JArr [JStr (c :: s)]) | _ => Some (JArr []) end))].

Definition keep (r : SearchRecord) : SearchRecord := r.
Definition other (_ _ : SearchRecord) : bool := false.
Lemma keep_param r k : param k (keep r) = param k r.
Proof. done. Qed.
Lemma other_param r r' : other r r' = true → ∀ k, param k r' = param k r.
Proof. done. Qed.

Definition users_start : Table := mount users_params [(js "page", Some (JNum (num_of_Z 3))); (js "sort", Some (JStr (js "id")))].
Definition vip_filter : ColumnFiltersState := [mkFilter (js "group") (JArr [JStr (js "vip")]); mkFilter (js "status") (JArr [])].

Lemma users_columns_ok : columns_ok users_params vip_filter.
Proof.
  split.
  - apply (bool_decide_eq_true_1 _). by vm_compute.
  - apply (bool_decide_eq_true_1 _). by vm_compute.
  - intros c f Hc. cbn [columnCfgs users_params] in Hc. each_of Hc; vm_compute; [done|by intros [= <-]].
  - intros c Hc. cbn [columnCfgs users_params] in Hc. by each_of Hc; vm_compute.
Qed.

Lemma filters_survive_url_witness :
  let t' := step users_params keep other users_start (OnColumnFiltersChange (inl vip_filter)) in
  initialColumnFilters users_params (search t') = [mkFilter (js "group") (JArr [JStr (js "vip")])] ∧
  param (js "group") (search t') = Some (JStr (js "vip")).
Proof.
  destruct (filters_survive_url users_params keep other keep_param other_param users_start (inl vip_filter) users_columns_ok)
    as (H & _). split; [exact H|by vm_compute].
Defined.

Lemma page_survives_url_witness :
  page_of users_params (step users_params keep other users_start
    (OnPaginationChange (inr (λ p, mkPagination (num_of_Z 4) (pageSize p))))) = mkPagination (num_of_Z 4) (num_of_Z 20).
Proof.
  refine (proj1 (page_survives_url users_params keep other keep_param other_param users_start _ 4 20 _ _ _ _ _)).
  - split; [done|apply (bool_decide_eq_true_1 _); by vm_compute].
  - lia.
  - lia.
  - exists 20. split; [lia|done].
  - by vm_compute.
Defined.

(** The text of the search field is read from the URL once: going back to
    another address changes the filters of the columns and leaves the text. *)
Example global_filter_stale :
  let t := step users_params keep other users_start (OnGlobalFilterChange (inl (js "ann"))) in
  let t' := step users_params keep other t (Navigated (search users_start)) in
  (globalFilter t', initialGlobalFilter users_params (search t')) = (Some (js "ann"), Some []).
Proof. by vm_compute. Qed.

(** Of two groups the URL keeps the first, and so does the table. *)
Example second_group_lost :
  columnFilters (step users_params keep other users_start
    (OnColumnFiltersChange (inl [mkFilter (js "group") (JArr [JStr (js "a"); JStr (js "b")])]))) =
  [mkFilter (js "group") (JArr [JStr (js "a")])].
Proof. by vm_compute. Qed.

End TableUrl.
