(* ===== verification/Notifications.v ===== *)
(** * Notifications

    The bell of the header: what was read, as it is kept between visits
    ([stores/notification-store.ts]), the counts, the dialog and its opening by
    itself ([hooks/use-notifications.ts]), and the mark on the entry of the
    group square ([features/group-square/hooks/use-group-nav-state.ts]).  The
    answers of the queries are the [Feed]; the day is an input. *)
From S2P Require Import Prelude JSString JSNumber JSON GroupSquare.
Local Open Scope Z_scope.

Module Notifications.

(** ** Keys of announcements *)

(** The body of the loop: [(hash << 5) - hash + chr], then [hash |= 0]. *)
Definition hash_char (hash : Z) (c : jschar) : Z := ToInt32 (ToInt32 (hash * 2 ^ 5) - hash + Z.of_N c).

(** The digits of [n.toString(36)], for [fuel] of them at most. *)
Definition digit36 (n : N) : jschar := if (n <? 10)%N then (48 + n)%N else (87 + n)%N.
Fixpoint base36_fuel (fuel : nat) (n : N) (acc : jsstr) : jsstr :=
  match fuel with
  | O => acc
  | S fuel =>
      let acc := digit36 (n mod 36) :: acc in
      if (n <? 36)%N then acc else base36_fuel fuel (n / 36) acc
  end.
Definition base36 (z : Z) : jsstr :=
  let digits n := base36_fuel (S (N.size_nat n)) n [] in
  if z <? 0 then 45%N :: digits (Z.to_N (- z)) else digits (Z.to_N z).

Definition hashString (input : jsstr) : jsstr :=
  match input with [] => js "0" | _ => base36 (foldl hash_char 0 input) end.

(** [item.k || ''], and [(item.k || '').trim()], which throws on a value that
    is no text. *)
Definition value_or_empty (item : json) (k : string) : json :=
  match json_prop item (js k) with Some v => if json_truthy v then v else JStr [] | None => JStr [] end.
Definition trimmed_or_empty (item : json) (k : string) : option json :=
  match value_or_empty item k with JStr s => Some (JStr (trim s)) | _ => None end.

(** [None] is an exception. *)
Definition announcement_fingerprint (item : json) : option jsstr :=
  content ← trimmed_or_empty item "content";
  extra ← trimmed_or_empty item "extra";
  title ← trimmed_or_empty item "title";
  link ← trimmed_or_empty item "link";
  Some (JSON_stringify (JObj [(js "publishDate", value_or_empty item "publishDate"); (js "content", content);
    (js "extra", extra); (js "type", value_or_empty item "type"); (js "title", title); (js "link", link)])).

Definition getAnnouncementKey (item : json) : option jsstr :=
  if negb (json_truthy item) then Some [] else
  match json_prop item (js "id") with
  | Some JNull | None => (λ f, js "hash:" ++ hashString f) <$> announcement_fingerprint item
  | Some v => Some (js "id:" ++ json_to_string v)
  end.

(** ** The store *)

Record Store := mkStore {
  lastReadNotice : jsstr;
  readAnnouncementKeys : list jsstr;
  closedUntilDate : option jsstr;
  readPriceBatchIds : option (list Z);
  groupChangesSeenAt : Z;
}.

Definition INITIAL : Store := mkStore [] [] None (Some []) 0.

Definition markNoticeRead (noticeContent : jsstr) (s : Store) : Store :=
  mkStore (trim noticeContent) (readAnnouncementKeys s) (closedUntilDate s) (readPriceBatchIds s) (groupChangesSeenAt s).
Definition markAnnouncementsRead (keys : list jsstr) (s : Store) : Store :=
  mkStore (lastReadNotice s) (uniq (readAnnouncementKeys s ++ keys)) (closedUntilDate s) (readPriceBatchIds s) (groupChangesSeenAt s).
Definition setClosedUntilDate (date : option jsstr) (s : Store) : Store :=
  mkStore (lastReadNotice s) (readAnnouncementKeys s) date (readPriceBatchIds s) (groupChangesSeenAt s).
Definition isAnnouncementRead (key : jsstr) (s : Store) : bool := bool_decide (key ∈ readAnnouncementKeys s).
Definition isNoticeClosed (today : jsstr) (s : Store) : bool :=
  match closedUntilDate s with Some (c :: d) => bool_decide (c :: d = today) | _ => false end.
Definition markPriceBatchesRead (ids : list Z) (s : Store) : Store :=
  mkStore (lastReadNotice s) (readAnnouncementKeys s) (closedUntilDate s)
    (Some (uniq (opt_or (readPriceBatchIds s) [] ++ ids))) (groupChangesSeenAt s).
Definition isPriceBatchRead (id : Z) (s : Store) : bool := bool_decide (id ∈ opt_or (readPriceBatchIds s) []).
Definition markGroupChangesSeen (publishedAt : Z) (s : Store) : Store :=
  mkStore (lastReadNotice s) (readAnnouncementKeys s) (closedUntilDate s) (readPriceBatchIds s)
    (Z.max (groupChangesSeenAt s) publishedAt).

(** [partialize]: what a later visit finds. *)
Definition partialize (s : Store) : Store :=
  mkStore (lastReadNotice s) (readAnnouncementKeys s) (closedUntilDate s) (Some (opt_or (readPriceBatchIds s) [])) (groupChangesSeenAt s).

(** ** The hook *)

(** The answers of the queries: the notice where it came with success, the
    announcements where they are switched on, the batches of price changes. *)
Record Feed := mkFeed {
  noticeResponse : option (bool * option jsstr);
  announcements_enabled : bool;
  status_announcements : list json;
  price_enabled : bool;
  price_batches : option (list Z);
  price_loading : bool;
}.

Inductive NotificationTab := Notice | Announcements | PriceChangesTab.
#[global] Instance tab_eq_dec : EqDecision NotificationTab.
Proof. solve_decision. Defined.

Definition noticeContent (f : Feed) : jsstr :=
  match noticeResponse f with Some (true, data) => trim (opt_or data []) | _ => [] end.
Definition announcements (f : Feed) : list json := if announcements_enabled f then take 20 (status_announcements f) else [].
Definition priceChangeBatches (f : Feed) : list Z := if price_enabled f then opt_or (price_batches f) [] else [].

Record Counts := mkCounts { notice : nat; announced : nat; priceChanges : nat }.
Definition total (c : Counts) : nat := (notice c + announced c + priceChanges c)%nat.

(** [None] when the key of an announcement throws. *)
Definition unreadCounts (f : Feed) (s : Store) : option Counts :=
  keys ← mapM getAnnouncementKey (announcements f);
  let noticeUnread := if nonempty (noticeContent f) && negb (bool_decide (noticeContent f = lastReadNotice s)) then 1%nat else 0%nat in
  let announcementsUnread := length (List.filter (λ k, negb (isAnnouncementRead k s)) keys) in
  let readBatchIds := opt_or (readPriceBatchIds s) [] in
  let priceChangesUnread := length (List.filter (λ id, negb (bool_decide (id ∈ readBatchIds))) (priceChangeBatches f)) in
  Some (mkCounts noticeUnread announcementsUnread priceChangesUnread).

Definition markTabRead (tab : NotificationTab) (f : Feed) (s : Store) : option Store :=
  match tab with
  | Notice => Some (if nonempty (noticeContent f) then markNoticeRead (noticeContent f) s else s)
  | Announcements =>
      if (0 <? length (announcements f))%nat
      then (λ keys, markAnnouncementsRead keys s) <$> mapM getAnnouncementKey (announcements f) else Some s
  | PriceChangesTab =>
      Some (if (0 <? length (priceChangeBatches f))%nat then markPriceBatchesRead (priceChangeBatches f) s else s)
  end.

Definition firstUnreadTab (c : Counts) : NotificationTab :=
  if (0 <? notice c)%nat then Notice else
  if (0 <? announced c)%nat then Announcements else
  if (0 <? priceChanges c)%nat then PriceChangesTab else Notice.

Record Bell := mkBell {
  store : Store;
  feed : Feed;
  dialogOpen : bool;
  activeTab : NotificationTab;
  autoOpened : bool;
}.

Inductive Event :=
  | OpenDialog (tab : option NotificationTab)
  | TabChange (tab : NotificationTab)
  | SetDialogOpen (open : bool)
  | CloseToday (today : jsstr)
  | Answered (f : Feed)
  | SeenGroups (publishedAt : Z).

(** The callbacks; [None] is an exception. *)
Definition handle (b : Bell) (e : Event) : option Bell :=
  match e with
  | OpenDialog tab =>
      c ← unreadCounts (feed b) (store b);
      let target := opt_or tab (firstUnreadTab c) in
      s ← markTabRead target (feed b) (store b);
      Some (mkBell s (feed b) true target (autoOpened b))
  | TabChange tab =>
      s ← markTabRead tab (feed b) (store b);
      Some (mkBell s (feed b) (dialogOpen b) tab (autoOpened b))
  | SetDialogOpen open => Some (mkBell (store b) (feed b) open (activeTab b) (autoOpened b))
  | CloseToday today => Some (mkBell (setClosedUntilDate (Some today) (store b)) (feed b) false (activeTab b) (autoOpened b))
  | Answered f => Some (mkBell (store b) f (dialogOpen b) (activeTab b) (autoOpened b))
  | SeenGroups at_ => Some (mkBell (markGroupChangesSeen at_ (store b)) (feed b) (dialogOpen b) (activeTab b) (autoOpened b))
  end.

(** The effect that opens the dialog by itself. *)
Definition effect (b : Bell) : option Bell :=
  c ← unreadCounts (feed b) (store b);
  Some (
    if autoOpened b then b else
    if dialogOpen b then mkBell (store b) (feed b) true (activeTab b) true else
    if negb (price_enabled (feed b)) || price_loading (feed b) then b else
    if (priceChanges c <=? 0)%nat then b else
    mkBell (markPriceBatchesRead (priceChangeBatches (feed b)) (store b)) (feed b) true PriceChangesTab true).

Definition step (b : Bell) (e : Event) : option Bell := b' ← handle b e; effect b'.

Fixpoint run (b : Bell) (es : list Event) : option Bell :=
  match es with [] => Some b | e :: es => b' ← step b e; run b' es end.

(** A visit starts with what the last one left; the first rendering has the
    effect too. *)
Definition mount (s : Store) (f : Feed) : option Bell := effect (mkBell (partialize s) f false Notice false).

(** ** The mark of the group square *)

Definition hasUnseenChanges (states : list Directory.GroupState) (s : Store) : bool :=
  groupChangesSeenAt s <? Directory.latestChangeAt states.

(** The effect of the page of groups. *)
Definition visit_groups (states : list Directory.GroupState) (s : Store) : Store :=
  if 0 <? Directory.latestChangeAt states then markGroupChangesSeen (Directory.latestChangeAt states) s else s.

(** ** The hash is a number of 32 bits *)

(** The polynomial in 31 whose coefficients are the code units. *)
Definition polynomial (s : jsstr) : Z := foldl (λ h c, 31 * h + Z.of_N c) 0 s.

Lemma ToInt32_eq z : ∃ k, ToInt32 z = z + k * 2 ^ 32.
Proof.
  unfold ToInt32, ToUint32. rewrite (Z.mod_eq z (2 ^ 32)) by lia.
  destruct (_ <? _); [exists (- (z / 2 ^ 32))|exists (- (z / 2 ^ 32) - 1)]; lia.
Qed.

Lemma ToInt32_shift z k : ToInt32 (z + k * 2 ^ 32) = ToInt32 z.
Proof. apply ToInt32_congr. unfold ToUint32. by rewrite Z_mod_plus_full. Qed.

Lemma hash_char_poly h c : hash_char (ToInt32 h) c = ToInt32 (31 * h + Z.of_N c).
Proof.
  unfold hash_char. destruct (ToInt32_eq h) as [k ->].
  destruct (ToInt32_eq ((h + k * 2 ^ 32) * 2 ^ 5)) as [k' ->].
  replace ((h + k * 2 ^ 32) * 2 ^ 5 + k' * 2 ^ 32 - (h + k * 2 ^ 32) + Z.of_N c)
    with (31 * h + Z.of_N c + (31 * k + k') * 2 ^ 32) by lia.
  apply ToInt32_shift.
Qed.

(** However long the text is, the hash is the polynomial wrapped to 32 bits:
    the shift, the subtraction and the addition never leave that range by more
    than the wrap undoes. *)
Lemma hash_polynomial s : foldl hash_char 0 s = ToInt32 (polynomial s) ∧ - 2 ^ 31 <= foldl hash_char 0 s < 2 ^ 31.
Proof.
  assert (foldl hash_char 0 s = ToInt32 (polynomial s)) as E; [|rewrite E; split; [done|apply ToInt32_bounds]].
  unfold polynomial. change 0 with (ToInt32 0) at 1. generalize 0 as h.
  induction s as [|c s IH]; intros h; [done|]. cbn [foldl]. by rewrite hash_char_poly, IH.
Qed.

(** Two announcements that differ in two letters have one key. *)
Example same_key :
  let item s := JObj [(js "content", JStr (js s))] in
  getAnnouncementKey (item "Aa"%string) = getAnnouncementKey (item "BB"%string).
Proof. by vm_compute. Qed.

(** ** Opening a tab reads it *)

Definition read_ids (s : Store) : list Z := opt_or (readPriceBatchIds s) [].

Lemma mark_batches_ids ids s x : x ∈ read_ids (markPriceBatchesRead ids s) ↔ x ∈ read_ids s ∨ x ∈ ids.
Proof. unfold read_ids, markPriceBatchesRead. cbn. by rewrite elem_of_uniq, elem_of_app. Qed.

Lemma trim_notice f : trim (noticeContent f) = noticeContent f.
Proof. unfold noticeContent. destruct (noticeResponse f) as [[[] data]|]; [apply trim_idemp|done..]. Qed.

Lemma unread_none {A} (p : A → bool) l : (∀ x, x ∈ l → p x = true) → length (List.filter (λ x, negb (p x)) l) = 0%nat.
Proof. intros H. rewrite bfilter_none; [done|]. intros x Hx. by rewrite H. Qed.

(** What is left unread when a tab has been shown. *)
Definition without (tab : NotificationTab) (c : Counts) : Counts :=
  match tab with
  | Notice => mkCounts 0 (announced c) (priceChanges c)
  | Announcements => mkCounts (notice c) 0 (priceChanges c)
  | PriceChangesTab => mkCounts (notice c) (announced c) 0
  end.

Lemma tab_read tab f s c :
  unreadCounts f s = Some c →
  ∃ s', markTabRead tab f s = Some s' ∧ unreadCounts f s' = Some (without tab c).
Proof.
  unfold unreadCounts. destruct (mapM getAnnouncementKey (announcements f)) as [keys|] eqn:Ek; [|done].
  cbn [mbind option_bind]. intros [= <-]. destruct tab; cbn [markTabRead without notice announced priceChanges].
  - eexists; split; [reflexivity|]. pose proof (trim_notice f) as Et.
    destruct (noticeContent f) as [|x l]; [reflexivity|]. cbn [nonempty]. unfold markNoticeRead. cbn [lastReadNotice].
    by rewrite Et, bool_decide_true, andb_false_r.
  - destruct (announcements f) as [|i l] eqn:Ea.
    { cbn in Ek. injection Ek as <-. eexists; split; reflexivity. }
    cbn [length Nat.ltb Nat.leb]. rewrite Ek. eexists; split; [reflexivity|]. do 2 f_equal.
    apply (unread_none (λ k, isAnnouncementRead k (markAnnouncementsRead keys s))). intros k Hk.
    apply bool_decide_eq_true_2. cbn. apply elem_of_uniq, elem_of_app. by right.
  - destruct (priceChangeBatches f) as [|i l] eqn:Ea; [eexists; split; reflexivity|].
    cbn [length Nat.ltb Nat.leb]. eexists; split; [reflexivity|]. do 2 f_equal.
    apply (unread_none (λ id, bool_decide (id ∈ read_ids (markPriceBatchesRead (i :: l) s)))). intros x Hx.
    apply bool_decide_eq_true_2, mark_batches_ids. by right.
Qed.

(** The effect reads the same tab or nothing. *)
Lemma effect_counts b c :
  unreadCounts (feed b) (store b) = Some c →
  ∃ b', effect b = Some b' ∧ feed b' = feed b ∧
    (unreadCounts (feed b') (store b') = Some c ∨ unreadCounts (feed b') (store b') = Some (without PriceChangesTab c)).
Proof.
  intros Hc. unfold effect. rewrite Hc. cbn [mbind option_bind]. eexists; split; [reflexivity|].
  destruct (autoOpened b); [auto|]. destruct (dialogOpen b); [auto|].
  destruct (negb _ || _); [auto|]. destruct (priceChanges c <=? 0)%nat eqn:Ep; [auto|]. cbn [feed store]. split; [done|].
  right. destruct (tab_read PriceChangesTab (feed b) (store b) c Hc) as (s' & Hs & Hc'). cbn [markTabRead] in Hs.
  destruct (0 <? length (priceChangeBatches (feed b)))%nat eqn:El; [injection Hs as <-; exact Hc'|].
  exfalso. apply Nat.leb_gt in Ep. unfold unreadCounts in Hc. destruct (mapM _ _); [|done]. injection Hc as <-.
  destruct (priceChangeBatches (feed b)); [simpl in Ep; lia|done].
Qed.

(** The dialog is open, so that the effect only notes it. *)
Lemma open_step b c :
  unreadCounts (feed b) (store b) = Some c →
  ∃ b', step b (OpenDialog None) = Some b' ∧ feed b' = feed b ∧ dialogOpen b' = true ∧
    unreadCounts (feed b') (store b') = Some (without (firstUnreadTab c) c).
Proof.
  intros Hc. unfold step. cbn [handle]. rewrite Hc. cbn [mbind option_bind opt_or].
  destruct (tab_read (firstUnreadTab c) _ _ _ Hc) as (s' & -> & Hs). cbn [mbind option_bind].
  unfold effect. cbn [feed store]. rewrite Hs. cbn [mbind option_bind autoOpened dialogOpen].
  destruct (autoOpened b); by eexists.
Qed.

(** C15: the bell can always be cleared: whatever is unread, opening the dialog
    three times, each time on the tab it chooses by itself, leaves nothing
    unread, and each time something was unread the count goes down. *)
Theorem bell_cleared b c :
  unreadCounts (feed b) (store b) = Some c →
  (∃ b1 c1, step b (OpenDialog None) = Some b1 ∧ unreadCounts (feed b1) (store b1) = Some c1 ∧
    (0 < total c → total c1 < total c)%nat) ∧
  ∃ b3, run b [OpenDialog None; OpenDialog None; OpenDialog None] = Some b3 ∧
    unreadCounts (feed b3) (store b3) = Some (mkCounts 0 0 0).
Proof.
  intros Hc. destruct (open_step b c Hc) as (b1 & E1 & F1 & _ & H1).
  destruct (open_step b1 _ H1) as (b2 & E2 & F2 & _ & H2). destruct (open_step b2 _ H2) as (b3 & E3 & F3 & _ & H3). split.
  - exists b1, (without (firstUnreadTab c) c). split_and!; [done..|]. unfold firstUnreadTab, total.
    destruct c as [[|n] [|a] [|p]]; cbn; lia.
  - exists b3. cbn [run]. rewrite E1. cbn [mbind option_bind]. rewrite E2. cbn [mbind option_bind]. rewrite E3.
    split; [done|]. rewrite H3. by destruct c as [[|n] [|a] [|p]].
Qed.

(** A notice of two letters, an announcement, and two batches of which one was
    read. *)
Definition sample_feed : Feed :=
  mkFeed (Some (true, Some (js " hi "))) true [JObj [(js "id", JNum (num_of_Z 7))]] true (Some [1; 2]) false.
Definition sample_bell : Bell := mkBell (mkStore [] [] None (Some [1]) 0) sample_feed false Notice false.

Lemma bell_cleared_witness :
  ∃ b3, run sample_bell [OpenDialog None; OpenDialog None; OpenDialog None] = Some b3 ∧
    unreadCounts (feed b3) (store b3) = Some (mkCounts 0 0 0).
Proof. apply (bell_cleared sample_bell (mkCounts 1 1 1)). by vm_compute. Defined.

(** ** The dialog opens by itself once *)

(** The effect is about to open the dialog. *)
Definition pops (b : Bell) : bool :=
  match unreadCounts (feed b) (store b) with
  | Some c =>
      negb (autoOpened b) && negb (dialogOpen b) && price_enabled (feed b) && negb (price_loading (feed b)) &&
      (0 <? priceChanges c)%nat
  | None => false
  end.

Lemma effect_pops b b' :
  effect b = Some b' → pops b = true →
  b' = mkBell (markPriceBatchesRead (priceChangeBatches (feed b)) (store b)) (feed b) true PriceChangesTab true.
Proof.
  unfold effect, pops. destruct (unreadCounts _ _) as [c|]; [|done]. cbn [mbind option_bind]. intros [= <-].
  rewrite !andb_true_iff, !negb_true_iff. intros [[[[-> ->] ->] ->] H%Nat.ltb_lt].
  cbn [negb orb]. by rewrite (proj2 (Nat.leb_gt _ _) H).
Qed.

Lemma reads_kept s ids x : x ∈ read_ids s → x ∈ read_ids (markPriceBatchesRead ids s).
Proof. intros H. apply mark_batches_ids. by left. Qed.
#[local] Hint Resolve reads_kept : core.

Lemma tab_keeps tab f s s' x : markTabRead tab f s = Some s' → x ∈ read_ids s → x ∈ read_ids s'.
Proof.
  destruct tab; cbn [markTabRead].
  - intros [= <-]. by destruct (nonempty _).
  - destruct (_ <? _)%nat; [|by intros [= <-]]. destruct (mapM _ _); [|done]. by intros [= <-].
  - intros [= <-]. destruct (_ <? _)%nat; auto.
Qed.

(** A step forgets no batch and not that the dialog opened. *)
Lemma handle_keeps b e b' :
  handle b e = Some b' →
  (∀ x, x ∈ read_ids (store b) → x ∈ read_ids (store b')) ∧ (autoOpened b = true → autoOpened b' = true).
Proof.
  destruct e; cbn [handle].
  1: destruct (unreadCounts _ _) as [c|]; [|done]; cbn [mbind option_bind].
  1, 2: destruct (markTabRead _ _ _) as [s|] eqn:E; [|done]; cbn [mbind option_bind]; intros [= <-];
    split; [intros x; by apply (tab_keeps _ _ _ _ x E)|done].
  all: by intros [= <-].
Qed.

Lemma effect_keeps b b' :
  effect b = Some b' →
  (∀ x, x ∈ read_ids (store b) → x ∈ read_ids (store b')) ∧ (autoOpened b = true → autoOpened b' = true).
Proof.
  unfold effect. destruct (unreadCounts _ _); [|done]. cbn [mbind option_bind]. intros [= <-].
  by repeat case_match; split; cbn [store autoOpened]; auto.
Qed.

Lemma run_keeps es : ∀ b b',
  run b es = Some b' →
  (∀ x, x ∈ read_ids (store b) → x ∈ read_ids (store b')) ∧ (autoOpened b = true → autoOpened b' = true).
Proof.
  induction es as [|e es IH]; intros b b'; cbn [run]; [by intros [= <-]|].
  unfold step. destruct (handle b e) as [b1|] eqn:E1; [|done]. cbn [mbind option_bind].
  destruct (effect b1) as [b2|] eqn:E2; [|done]. cbn [mbind option_bind]. intros [H1 H2]%IH.
  apply handle_keeps in E1 as [H3 H4]. apply effect_keeps in E2 as [H5 H6]. split; auto.
Qed.

(** A visit opens the dialog at its start exactly when a batch is unread. *)
Lemma mount_pops s f c :
  unreadCounts f (partialize s) = Some c →
  pops (mkBell (partialize s) f false Notice false) = true ↔
  price_enabled f = true ∧ price_loading f = false ∧ ∃ id, id ∈ opt_or (price_batches f) [] ∧ id ∉ read_ids s.
Proof.
  intros Hc. unfold pops. cbn [feed store autoOpened dialogOpen negb andb]. rewrite Hc.
  unfold unreadCounts in Hc. destruct (mapM _ _); [|done]. cbn [mbind option_bind] in Hc. injection Hc as <-.
  cbn [priceChanges partialize readPriceBatchIds opt_or]. unfold priceChangeBatches.
  rewrite !andb_true_iff, negb_true_iff, Nat.ltb_lt. destruct (price_enabled f); [|naive_solver]. fold (read_ids s).
  split.
  - intros [[_ Hl] Hn]. split_and!; [done..|]. destruct (List.filter _ _) as [|id l'] eqn:E; [simpl in Hn; lia|].
    exists id. assert (id ∈ id :: l') as Hin by by left. rewrite <- E in Hin.
    apply elem_of_bfilter in Hin as [H1 H2%negb_true_iff%bool_decide_eq_false_1]. done.
  - intros (_ & Hl & id & H1 & H2). split; [done|]. destruct (List.filter _ _) as [|x l'] eqn:E; [|simpl; lia].
    exfalso. eapply (not_elem_of_nil id). rewrite <- E. apply elem_of_bfilter. split; [done|].
    by rewrite bool_decide_false.
Qed.

(** C29: the dialog opens by itself at most once in a visit and never again for
    the same batches.  Where the effect opens it, on the price changes, it reads
    all of the batches shown; whatever happens later in the visit it does not
    open again; and a later visit opens it at its start exactly where there is a
    batch that neither was read before nor was among these. *)
Theorem popup_once b b' es b2 :
  pops b = true → effect b = Some b' → run b' es = Some b2 →
  dialogOpen b' = true ∧ activeTab b' = PriceChangesTab ∧
  (∀ e b3, handle b2 e = Some b3 → pops b3 = false) ∧
  (∀ f c, unreadCounts f (partialize (store b2)) = Some c →
    let again := pops (mkBell (partialize (store b2)) f false Notice false) in
    (incl (opt_or (price_batches f) []) (priceChangeBatches (feed b)) → again = false) ∧
    (again = true ↔
      price_enabled f = true ∧ price_loading f = false ∧
      ∃ id, id ∈ opt_or (price_batches f) [] ∧ id ∉ read_ids (store b2))).
Proof.
  intros Hp He Hr. pose proof (effect_pops _ _ He Hp) as ->. apply run_keeps in Hr as [Hids Hauto].
  cbn [store autoOpened dialogOpen activeTab] in *. split_and!; [done..| |].
  - intros e b3 [_ H]%handle_keeps. unfold pops. rewrite H by auto. by destruct (unreadCounts _ _).
  - intros f c Hc. pose proof (mount_pops _ _ _ Hc) as Hm. split; [|done]. intros Hincl.
    apply not_true_iff_false. rewrite Hm. intros (_ & _ & id & Hid & Hno). apply Hno, Hids, mark_batches_ids.
    right. apply list_elem_of_In, Hincl. by apply list_elem_of_In.
Qed.

Definition popped_bell : Bell :=
  mkBell (mkStore [] [] None (Some [1; 2]) 0) sample_feed true PriceChangesTab true.
Definition closed_bell : Bell :=
  mkBell (mkStore [] [] (Some (js "Mon")) (Some [1; 2]) 0) sample_feed false PriceChangesTab true.

Lemma popup_once_witness :
  pops sample_bell = true ∧ ∀ e b3, handle closed_bell e = Some b3 → pops b3 = false.
Proof.
  assert (pops sample_bell = true) as H1 by by vm_compute.
  assert (effect sample_bell = Some popped_bell) as H2 by by vm_compute.
  assert (run popped_bell [SetDialogOpen false; CloseToday (js "Mon")] = Some closed_bell) as H3 by by vm_compute.
  split; [exact H1|]. exact (proj1 (proj2 (proj2 (popup_once _ _ _ _ H1 H2 H3)))).
Defined.

(** ** The mark of the group square, and the button that closes for today *)

(** Once the page of groups has been seen, its entry carries no mark until a
    change later than all of those shown is published. *)
Lemma groups_seen states s :
  0 <= groupChangesSeenAt s →
  hasUnseenChanges states (visit_groups states s) = false ∧
  ∀ states', hasUnseenChanges states' (visit_groups states s) = true →
    Directory.latestChangeAt states < Directory.latestChangeAt states'.
Proof.
  intros Hs. unfold hasUnseenChanges, visit_groups.
  destruct (Z.ltb_spec 0 (Directory.latestChangeAt states)); cbn [markGroupChangesSeen groupChangesSeenAt];
    split; intros; rewrite ?Z.ltb_ge, ?Z.ltb_lt in *; lia.
Qed.

(** "Close today" stores the day, and nothing reads it: the dialog opens by
    itself just the same. *)
Lemma close_today_ignored s f d :
  pops (mkBell (setClosedUntilDate d s) f false Notice false) = pops (mkBell s f false Notice false) ∧
  unreadCounts f (setClosedUntilDate d s) = unreadCounts f s.
Proof. split; reflexivity. Qed.

End Notifications.
