(* ===== verification/TieredEditor.v ===== *)
(** * The editor of tiered prices

    [features/system-settings/models/tiered-pricing-editor.tsx]: the field for
    a number (Module DraftNumber), the cards of tiers and of request rules, and
    the editor around them with its two views, its presets and its effects
    (Module TieredEditor).

    The effects of one rendering run in order with the values of that
    rendering, what they set is applied together, and an effect runs where a
    value it depends on has changed: one such turn is [commit], and an action
    of the user is followed by turns until nothing changes.  The two texts the
    editor reports are kept by the dialog around it and come back as the
    properties [currentExpr] and [currentRequestRuleExpr]. *)
From S2P Require Import Prelude JSString JSNumber JSON Regex BillingExpr RuleReading RegexFirst TierExpr TierReading PriceText.
Import Vars Rules Tiers RuleReading TierReading PriceText.
Local Open Scope nat_scope.

(** ** The field for a number *)

Module DraftNumber.

(** [number | string] *)
Inductive Value := VNum (n : num) | VText (s : jsstr).

Definition formatNumberDraft (value : Value) : jsstr :=
  match value with
  | VText s => s
  | VNum n => if num_is_finite n then num_to_string n else js "0"
  end.

Definition parseNumberDraft (value : jsstr) : num :=
  match trim value with
  | [] => num_zero
  | _ => let next := Number value in if num_is_finite next then next else num_zero
  end.

Definition isZeroDraft (value : jsstr) : bool :=
  nonempty (trim value) && num_eqb (parseNumberDraft value) num_zero.

(** The field, and the value of its owner, who keeps the number or its text. *)
Record Field := mkField { value : Value; as_text : bool; draft : jsstr; focused : bool }.

Definition stored (as_text : bool) (n : num) : Value := if as_text then VText (num_to_string n) else VNum n.

Inductive Event := Focus | Type_ (s : jsstr) | Blur | Given (v : Value).

(** The effect that follows the value while the field is not focused. *)
Definition follow (f : Field) : Field :=
  if focused f then f else mkField (value f) (as_text f) (formatNumberDraft (value f)) false.

(** The handlers; on [Blur] the field shows its draft. *)
Definition handle (f : Field) (e : Event) : Field :=
  match e with
  | Focus => mkField (value f) (as_text f) (draft f) true
  | Type_ s => mkField (stored (as_text f) (parseNumberDraft s)) (as_text f) s (focused f)
  | Blur =>
      let normalized := parseNumberDraft (draft f) in
      mkField (stored (as_text f) normalized) (as_text f) (num_to_string normalized) false
  | Given v => mkField v (as_text f) (draft f) (focused f)
  end.

(** Whether the handlers of the focus and of the mouse select the text. *)
Definition selects (selectZeroOnFocus : bool) (f : Field) : bool := selectZeroOnFocus && isZeroDraft (draft f).

Definition step (f : Field) (e : Event) : Field := follow (handle f e).
Definition run (f : Field) (es : list Event) : Field := foldl step f es.

Definition mount (v : Value) (as_text : bool) : Field := follow (mkField v as_text (formatNumberDraft v) false).

Lemma parse_finite s : num_is_finite (parseNumberDraft s) = true.
Proof. unfold parseNumberDraft. destruct (trim s); [done|]. by destruct (num_is_finite (Number s)) eqn:E. Qed.

(** What the user typed is the owner's number at once, and stays so when the
    field is left; whatever was typed, the number is finite. *)
Lemma typed f s :
  focused f = true → num_is_finite (parseNumberDraft s) = true ∧
  value (run f [Type_ s]) = stored (as_text f) (parseNumberDraft s) ∧
  value (run f [Type_ s; Blur]) = stored (as_text f) (parseNumberDraft s) ∧
  draft (run f [Type_ s; Blur]) = num_to_string (parseNumberDraft s).
Proof.
  intros Hf. split; [apply parse_finite|]. unfold run, step. cbn [foldl handle]. unfold follow.
  cbn [focused value as_text draft]. rewrite Hf. cbn [focused value as_text draft].
  split_and!; [done..|]. unfold stored. destruct (as_text f); [done|]. cbn [formatNumberDraft].
  by rewrite parse_finite.
Qed.

(** Passing through a field does not change a number that is read back. *)
Lemma passed v :
  readable v = true → num_is_finite v = true → trim (num_to_string v) = num_to_string v →
  value (run (mount (VNum v) false) [Focus; Blur]) = VNum v.
Proof.
  intros Hr Hf Ht. unfold run, mount, step. cbn [foldl handle follow focused value as_text draft formatNumberDraft].
  rewrite Hf. cbn [draft focused value as_text stored]. unfold parseNumberDraft.
  apply readable_digits in Hr as [[Hne _] Hn]. rewrite Ht, Hn, Hf. by destruct (num_to_string v).
Qed.

(** Passing through the empty multiplier of a new rule makes it zero. *)
Example empty_becomes_zero :
  value (run (mount (VText []) true) [Focus; Blur]) = VText (js "0").
Proof. by vm_compute. Qed.

End DraftNumber.

Module TieredEditor.

(** ** The cards of tiers *)

Definition VAR_OPTIONS : list jsstr := map js ["len"; "p"; "c"]%string.
Definition OPS : list jsstr := map js ["<"; "<="; ">"; ">="]%string.

Definition unitCostToPrice (uc : num) : num := or_zero (Some uc).
Definition priceToUnitCost (price : num) : num := or_zero (Some price).

Definition set_tier_conditions (t : VisualTier) (cs : list TierConditionInput) : VisualTier :=
  mkTier (label t) cs (input_unit_cost t) (output_unit_cost t) (cache_mode t) (costs t).

(** The index is that of a row on the screen. *)
Definition handleTierConditionChange (t : VisualTier) (conditionIndex : nat) (next : TierConditionInput) : VisualTier :=
  set_tier_conditions t (<[conditionIndex := next]> (Tiers.conditions t)).
Definition handleTierConditionRemove (t : VisualTier) (conditionIndex : nat) : VisualTier :=
  set_tier_conditions t (delete conditionIndex (Tiers.conditions t)).

(** [{ ...tier, [field]: value }], for the fields that hold a price. *)
Definition handlePriceChange (t : VisualTier) (field : jsstr) (value : num) : VisualTier :=
  if decide (field = js "input_unit_cost") then
    mkTier (label t) (Tiers.conditions t) value (output_unit_cost t) (cache_mode t) (costs t)
  else if decide (field = js "output_unit_cost") then
    mkTier (label t) (Tiers.conditions t) (input_unit_cost t) value (cache_mode t) (costs t)
  else mkTier (label t) (Tiers.conditions t) (input_unit_cost t) (output_unit_cost t) (cache_mode t)
    (obj_set field value (costs t)).

Definition handleCacheModeChange (t : VisualTier) (mode : CacheMode) : VisualTier :=
  mkTier (label t) (Tiers.conditions t) (input_unit_cost t) (output_unit_cost t) mode
    (obj_set CACHE_1H (match mode with Timed => opt_or (obj_get CACHE_1H (costs t)) num_zero | Generic => num_zero end)
      (costs t)).

Inductive TierEdit :=
  | Label (name : jsstr)
  | ConditionVar (j : nat) (v : jsstr)
  | ConditionOp (j : nat) (o : jsstr)
  | ConditionValue (j : nat) (n : num)
  | ConditionRemove (j : nat)
  | PriceChange (field : jsstr) (price : num)
  | CacheModeChange (mode : CacheMode).

Definition change_condition (t : VisualTier) (j : nat) (f : TierConditionInput → TierConditionInput) : VisualTier :=
  match Tiers.conditions t !! j with Some c => handleTierConditionChange t j (f c) | None => t end.

Definition edit_tier (t : VisualTier) (e : TierEdit) : VisualTier :=
  match e with
  | Label name => mkTier name (Tiers.conditions t) (input_unit_cost t) (output_unit_cost t) (cache_mode t) (costs t)
  | ConditionVar j v => change_condition t j (λ c, mkCond v (op c) (Tiers.value c))
  | ConditionOp j o => change_condition t j (λ c, mkCond (var c) o (Tiers.value c))
  | ConditionValue j n => change_condition t j (λ c, mkCond (var c) (op c) (CNum n))
  | ConditionRemove j => handleTierConditionRemove t j
  | PriceChange field price => handlePriceChange t field (priceToUnitCost price)
  | CacheModeChange mode => handleCacheModeChange t mode
  end.

Inductive VisualEdit := EditTier (i : nat) (e : TierEdit) | AddTier | RemoveTier (i : nat) | AddCondition (i : nat).

Definition LIMIT : num := num_of_Z 200000.
Definition default_condition (v : jsstr) : TierConditionInput := mkCond v (js "<") (CNum LIMIT).

Definition handleTierChange (tiers : VisualConfig) (index : nat) (next : VisualTier) : VisualConfig :=
  <[index := normalizeVisualTier (partial next)]> tiers.

Definition new_tier (n : nat) : VisualTier :=
  normalizeVisualTier (mkPartialTier (Some (js "tier_" ++ string_of_N (N.of_nat (n + 1)))) (Some [])
    (Some num_zero) (Some num_zero) None []).

(** A tier without conditions that was the last one gets a bound. *)
Definition bound_last (tiers : list VisualTier) : list VisualTier :=
  let lastIndex := length tiers - 1 in
  match tiers !! lastIndex with
  | Some t =>
      match Tiers.conditions t with
      | [] => <[lastIndex := normalizeVisualTier (partial (set_tier_conditions t [default_condition (js "len")]))]> tiers
      | _ => tiers
      end
  | None => tiers
  end.

Definition handleAddTier (tiers : VisualConfig) : VisualConfig := bound_last tiers ++ [new_tier (length tiers)].

Definition handleRemoveTier (tiers : VisualConfig) (index : nat) : VisualConfig :=
  match delete index tiers with [] => tiers | rest => rest end.

(** [None]: the function returns before it reports a change. *)
Definition handleAddCondition (tiers : VisualConfig) (index : nat) : option VisualConfig :=
  match tiers !! index with
  | Some tier =>
      if 2 <=? length (Tiers.conditions tier) then None else
      let nextVar := if bool_decide (js "len" ∈ map var (Tiers.conditions tier)) then js "c" else js "len" in
      Some (<[index := set_tier_conditions tier (Tiers.conditions tier ++ [default_condition nextVar])]> tiers)
  | None => None
  end.

(** The list of tiers after an edit, from the configuration as it is shown. *)
Definition visual_edit (config : option VisualConfig) (e : VisualEdit) : option VisualConfig :=
  let tiers := normalizeVisualConfig config in
  match e with
  | EditTier i e => (λ t, handleTierChange tiers i (edit_tier t e)) <$> tiers !! i
  | AddTier => Some (handleAddTier tiers)
  | RemoveTier i => Some (handleRemoveTier tiers i)
  | AddCondition i => handleAddCondition tiers i
  end.

(** ** The cards of request rules *)

Inductive ConditionEdit :=
  | SourceChange (source : jsstr)
  | ModeChange_ (mode : jsstr)
  | TimeFunc (f : jsstr)
  | Timezone (tz : jsstr)
  | RangeStart (n : num)
  | RangeEnd (n : num)
  | TimeValue (n : num)
  | Path (p : jsstr)
  | TextValue (v : jsstr).

(** Fields that a condition does not show leave it as it is. *)
Definition edit_condition (c : RequestCondition) (e : ConditionEdit) : RequestCondition :=
  match e, c with
  | SourceChange source, _ =>
      if decide (source = js "time") then createEmptyTimeCondition else
      if decide (source = js "header") then ParamHeaderCondition Header [] MATCH_EQ [] else
      if decide (source = js "param") then ParamHeaderCondition Param [] MATCH_EQ [] else c
  | ModeChange_ mode, TimeCondition f tz _ v s e => TimeCondition f tz mode v s e
  | ModeChange_ mode, ParamHeaderCondition src p _ v => ParamHeaderCondition src p mode v
  | TimeFunc f, TimeCondition _ tz mode v s e => TimeCondition f tz mode v s e
  | Timezone tz, TimeCondition f _ mode v s e => TimeCondition f tz mode v s e
  | RangeStart n, TimeCondition f tz mode v _ e => TimeCondition f tz mode v (num_to_string n) e
  | RangeEnd n, TimeCondition f tz mode v s _ => TimeCondition f tz mode v s (num_to_string n)
  | TimeValue n, TimeCondition f tz mode _ s e => TimeCondition f tz mode (num_to_string n) s e
  | Path p, ParamHeaderCondition src _ mode v => ParamHeaderCondition src p mode v
  | TextValue v, ParamHeaderCondition src p mode _ => ParamHeaderCondition src p mode v
  | _, _ => c
  end.

Inductive GroupEdit :=
  | EditCondition (j : nat) (e : ConditionEdit)
  | RemoveCondition (j : nat)
  | AddRuleCondition (timeMode : bool)
  | Multiplier (n : num).

Definition edit_group (g : RequestRuleGroup) (e : GroupEdit) : RequestRuleGroup :=
  match e with
  | EditCondition j e => mkGroup (alter (λ c, edit_condition c e) j (Rules.conditions g)) (multiplier g)
  | RemoveCondition j => mkGroup (delete j (Rules.conditions g)) (multiplier g)
  | AddRuleCondition timeMode =>
      mkGroup (Rules.conditions g ++ [if timeMode then createEmptyTimeCondition else createEmptyCondition]) (multiplier g)
  | Multiplier n => mkGroup (Rules.conditions g) (num_to_string n)
  end.

Inductive RulesEdit := EditGroup (i : nat) (e : GroupEdit) | RemoveGroup (i : nat) | AddGroup | AddTimeGroup.

Definition edit_rules (groups : list RequestRuleGroup) (e : RulesEdit) : list RequestRuleGroup :=
  match e with
  | EditGroup i e => alter (λ g, edit_group g e) i groups
  | RemoveGroup i => delete i groups
  | AddGroup => groups ++ [createEmptyRuleGroup]
  | AddTimeGroup => groups ++ [createEmptyTimeRuleGroup]
  end.

(** ** Presets *)

Record Preset := mkPreset { preset_key : jsstr; expr : jsstr; requestRules : list RequestRuleGroup }.

Definition PRESET_GROUPS : list (jsstr * list Preset) :=
  let plain k e := mkPreset (js k) (jq e) [] in
  let tier_is v := ParamHeaderCondition Param (js "service_tier") MATCH_EQ (js v) in
  let weekday v := TimeCondition (js "weekday") (js "Asia/Shanghai") MATCH_EQ (js v) [] [] in
  [(js "Fixed price",
     [plain "flat" "tier(`base`, p * 2 + c * 4)";
      plain "claude-opus" "tier(`base`, p * 5 + c * 25 + cr * 0.5 + cc * 6.25 + cc1h * 10)";
      plain "gpt-5.4" "len <= 272000 ? tier(`standard`, p * 2.5 + c * 15 + cr * 0.25) : tier(`long_context`, p * 5 + c * 22.5 + cr * 0.5)"]);
   (js "Tiered",
     [plain "claude-sonnet" "len <= 200000 ? tier(`standard`, p * 3 + c * 15 + cr * 0.3 + cc * 3.75 + cc1h * 6) : tier(`long_context`, p * 6 + c * 22.5 + cr * 0.6 + cc * 7.5 + cc1h * 12)";
      plain "qwen3-max" "len <= 32000 ? tier(`short`, p * 1.2 + c * 6 + cr * 0.24 + cc * 1.5) : len <= 128000 ? tier(`mid`, p * 2.4 + c * 12 + cr * 0.48 + cc * 3) : tier(`long`, p * 3 + c * 15 + cr * 0.6 + cc * 3.75)";
      plain "glm-4.5-air" "len < 32000 && c < 200 ? tier(`short_output`, p * 0.8 + c * 2 + cr * 0.16) : len < 32000 && c >= 200 ? tier(`long_output`, p * 0.8 + c * 6 + cr * 0.16) : tier(`mid_context`, p * 1.2 + c * 8 + cr * 0.24)";
      plain "doubao-seed-1.8" "len <= 32000 && c <= 200 ? tier(`discount`, p * 0.8 + c * 2 + cr * 0.16 + cc * 0.17) : len <= 32000 ? tier(`short`, p * 0.8 + c * 8 + cr * 0.16 + cc * 0.17) : len <= 128000 ? tier(`mid`, p * 1.2 + c * 16 + cr * 0.16 + cc * 0.17) : tier(`long`, p * 2.4 + c * 24 + cr * 0.16 + cc * 0.17)"]);
   (js "Multimodal",
     [plain "gpt-image-1-mini" "tier(`base`, p * 2 + c * 8 + img * 2.5)";
      plain "gemini-2.5-flash" "tier(`base`, p * 0.3 + c * 2.5 + cr * 0.03 + ai * 1.0)";
      plain "gemini-3-pro-image" "tier(`base`, p * 2 + c * 12 + img_o * 120)";
      plain "qwen3-omni-flash" "tier(`base`, p * 0.43 + c * 3.06 + img * 0.78 + ai * 3.81 + ao * 15.11)"]);
   (js "Request rule",
     [mkPreset (js "claude-opus-fast") (jq "tier(`base`, p * 5 + c * 25 + cr * 0.5 + cc * 6.25 + cc1h * 10)")
        [mkGroup [ParamHeaderCondition Header (js "anthropic-beta") MATCH_CONTAINS (js "fast-mode-2026-02-01")] (js "6")];
      mkPreset (js "gpt-5.4-tiers") (jq "len <= 272000 ? tier(`standard`, p * 2.5 + c * 15 + cr * 0.25) : tier(`long_context`, p * 5 + c * 22.5 + cr * 0.5)")
        [mkGroup [tier_is "priority"] (js "2"); mkGroup [tier_is "flex"] (js "0.5")]]);
   (js "Time-based",
     [mkPreset (js "night-discount") (jq "tier(`base`, p * 3 + c * 15)")
        [mkGroup [TimeCondition (js "hour") (js "Asia/Shanghai") MATCH_RANGE [] (js "21") (js "6")] (js "0.5")];
      mkPreset (js "weekend-discount") (jq "tier(`base`, p * 3 + c * 15)")
        [mkGroup [weekday "0"] (js "0.8"); mkGroup [weekday "6"] (js "0.8")]])]%string.

Definition PRESETS : list Preset := concat (map snd PRESET_GROUPS).

(** ** The editor *)

Inductive EditorMode := Visual | Raw.
#[global] Instance EditorMode_eq_dec : EqDecision EditorMode.
Proof. solve_decision. Defined.

(** What the editor keeps. *)
Record Form := mkForm {
  editorMode : EditorMode;
  visualConfig : option VisualConfig;
  rawExpr : jsstr;
  requestRuleGroups : list RequestRuleGroup;
}.

(** With its properties, and what its first two effects saw when they last
    ran. *)
Record State := mkState {
  form : Form;
  initRef : bool;
  currentExpr : jsstr;
  currentRequestRuleExpr : jsstr;
  modelName : jsstr;
  seen : option (jsstr * jsstr);
  seenModel : option jsstr;
}.

(** [None] is an exception. *)
Definition effectiveExpr (f : Form) : option jsstr :=
  match editorMode f with
  | Visual => Some (generateExprFromVisualConfig (visualConfig f))
  | Raw => billingExpr <$> splitBillingExprAndRequestRules (rawExpr f)
  end.

Definition canUseVisualRules (ruleExpr : jsstr) : option bool :=
  match ruleExpr with
  | [] => Some true
  | _ => (λ r, match r with Some _ => true | None => false end) <$> tryParseRequestRuleExpr ruleExpr
  end.

(** [tryParseRequestRuleExpr(e) || []] *)
Definition groups_of (ruleExpr : jsstr) : option (list RequestRuleGroup) :=
  (λ r, opt_or r []) <$> tryParseRequestRuleExpr ruleExpr.

(** The first effect. *)
Definition initialize (f : Form) (expr ruleExpr : jsstr) : option Form :=
  groups ← groups_of ruleExpr;
  let raw := combineBillingExpr expr ruleExpr in
  Some (match tryParseVisualConfig expr with
        | Some parsedConfig => mkForm Visual (Some parsedConfig) raw groups
        | None =>
            match expr with
            | [] => mkForm (editorMode f) (Some createDefaultVisualConfig) raw groups
            | _ => mkForm Raw None raw groups
            end
        end).

(** One rendering and its four effects: what depends on the two texts is
    initialised, a new model asks for that again, and the texts of the form are
    reported. *)
Definition commit (s : State) : option State :=
  effective ← effectiveExpr (form s);
  _ ← canUseVisualRules (currentRequestRuleExpr s);
  let changed := bool_decide (seen s ≠ Some (currentExpr s, currentRequestRuleExpr s)) in
  form' ← (if changed && negb (initRef s) then initialize (form s) (currentExpr s) (currentRequestRuleExpr s)
           else Some (form s));
  let initRef' := if bool_decide (seenModel s ≠ Some (modelName s)) then false else initRef s || changed in
  let rules :=
    match editorMode (form s) with
    | Visual => buildRequestRuleExpr (requestRuleGroups (form s))
    | Raw => currentRequestRuleExpr s
    end in
  Some (mkState form' initRef' effective rules (modelName s)
    (Some (currentExpr s, currentRequestRuleExpr s)) (Some (modelName s))).

Fixpoint commits (n : nat) (s : State) : option State :=
  match n with O => Some s | S n => s' ← commit s; commits n s' end.

(** The state before the first effects. *)
Definition open_editor (expr ruleExpr name : jsstr) : option State :=
  groups ← groups_of ruleExpr;
  Some (mkState (mkForm Visual (tryParseVisualConfig expr) (combineBillingExpr expr ruleExpr) groups)
    false expr ruleExpr name None None).

Inductive Event :=
  | VisualChange (e : VisualEdit)
  | RulesChange (e : RulesEdit)
  | RawChange (value : jsstr)
  | ModeChange (next : EditorMode)
  | ApplyPreset (p : Preset)
  | Rename (name : jsstr).

Definition with_form (s : State) (f : Form) (ruleExpr : jsstr) : State :=
  mkState f (initRef s) (currentExpr s) ruleExpr (modelName s) (seen s) (seenModel s).

Definition set_config (f : Form) (c : option VisualConfig) : Form :=
  mkForm (editorMode f) c (rawExpr f) (requestRuleGroups f).

(** [combineBillingExpr(expr, rules) || expr] *)
Definition combined (e rules : jsstr) : jsstr := str_or (combineBillingExpr e rules) e.

Definition handleModeChange (s : State) (next : EditorMode) : option State :=
  let f := form s in
  match next with
  | Visual =>
      parts ← splitBillingExprAndRequestRules (rawExpr f);
      groups ← groups_of (requestRuleExpr parts);
      let config := opt_or (tryParseVisualConfig (billingExpr parts)) createDefaultVisualConfig in
      Some (with_form s (mkForm Visual (Some config) (rawExpr f) groups) (requestRuleExpr parts))
  | Raw =>
      let e := generateExprFromVisualConfig (visualConfig f) in
      let rules := buildRequestRuleExpr (requestRuleGroups f) in
      Some (with_form s (mkForm Raw (visualConfig f) (combined e rules) (requestRuleGroups f)) (currentRequestRuleExpr s))
  end.

Definition applyPreset (s : State) (p : Preset) : State :=
  let rules := buildRequestRuleExpr (requestRules p) in
  let raw := combined (expr p) rules in
  with_form s
    (match tryParseVisualConfig (expr p) with
     | Some parsed => mkForm Visual (Some parsed) raw (requestRules p)
     | None => mkForm Raw None raw (requestRules p)
     end) rules.

(** The cards of a view are there in its mode; those of the rules where the
    text of the rules can be shown. *)
Definition handle (s : State) (e : Event) : option State :=
  let f := form s in
  match e with
  | VisualChange e =>
      Some (match editorMode f, visual_edit (visualConfig f) e with
            | Visual, Some next => with_form s (set_config f (Some next)) (currentRequestRuleExpr s)
            | _, _ => s
            end)
  | RulesChange e =>
      ok ← canUseVisualRules (currentRequestRuleExpr s);
      Some (match editorMode f, ok with
            | Visual, true =>
                with_form s (mkForm Visual (visualConfig f) (rawExpr f) (edit_rules (requestRuleGroups f) e))
                  (currentRequestRuleExpr s)
            | _, _ => s
            end)
  | RawChange value =>
      parts ← splitBillingExprAndRequestRules value;
      Some (match editorMode f with
            | Raw => with_form s (mkForm Raw (visualConfig f) value (requestRuleGroups f)) (requestRuleExpr parts)
            | Visual => s
            end)
  | ModeChange next => handleModeChange s next
  | ApplyPreset p => Some (applyPreset s p)
  | Rename name =>
      Some (mkState f (initRef s) (currentExpr s) (currentRequestRuleExpr s) name (seen s) (seenModel s))
  end.

(** Five turns settle ([editor_settles]). *)
Definition step (s : State) (e : Event) : option State := s' ← handle s e; commits 5 s'.
Definition mount (expr ruleExpr name : jsstr) : option State := s ← open_editor expr ruleExpr name; commits 5 s.
Fixpoint run (s : State) (es : list Event) : option State :=
  match es with [] => Some s | e :: es => s' ← step s e; run s' es end.

(** What the dialog around the editor would save. *)
Definition reported (s : State) : jsstr * jsstr := (currentExpr s, currentRequestRuleExpr s).

(** ** Turns come to rest *)

(** The form of the state is what was reported. *)
Definition aligned (s : State) : Prop :=
  effectiveExpr (form s) = Some (currentExpr s) ∧
  (editorMode (form s) = Visual → currentRequestRuleExpr s = buildRequestRuleExpr (requestRuleGroups (form s))).

Definition settled (s : State) : Prop := commit s = Some s.

(** The effects have run for the texts, or for the model, of this state. *)
Definition up_to_date (s : State) : Prop := seen s = Some (reported s).
Definition named (s : State) : Prop := seenModel s = Some (modelName s).

Lemma commit_spec s s' :
  commit s = Some s' →
  effectiveExpr (form s) = Some (currentExpr s') ∧ (∃ b, canUseVisualRules (currentRequestRuleExpr s) = Some b) ∧
  currentRequestRuleExpr s' =
    (match editorMode (form s) with
     | Visual => buildRequestRuleExpr (requestRuleGroups (form s)) | Raw => currentRequestRuleExpr s end) ∧
  seen s' = Some (reported s) ∧ named s' ∧
  ((form s' = form s ∧ (named s → initRef s = true ∨ initRef s' = true ∨ up_to_date s)) ∨ (named s → initRef s' = true)) ∧
  (named s → initRef s = true → initRef s' = true ∧ form s' = form s).
Proof.
  unfold commit, named, up_to_date. destruct (effectiveExpr (form s)) as [eff|]; [|done]. cbn [mbind option_bind].
  destruct (canUseVisualRules _) as [b|]; [|done]. cbn [mbind option_bind].
  destruct (bool_decide (seen s ≠ _)) eqn:Ec; cbn [andb].
  - destruct (initRef s); cbn [negb orb mbind option_bind].
    + intros [= <-]. cbn. split_and!; eauto. intros Hn _. by rewrite bool_decide_false by naive_solver.
    + destruct (initialize _ _ _) as [f|]; [|done]. cbn [mbind option_bind]. intros [= <-]. cbn.
      split_and!; eauto; [|done]. right. intros Hn. by rewrite bool_decide_false by naive_solver.
  - cbn [mbind option_bind]. intros [= <-]. cbn. rewrite orb_false_r. apply bool_decide_eq_false in Ec. unfold reported.
    split_and!; eauto.
    + left. split; [done|]. intros _. right. right. destruct (decide (seen s = Some (currentExpr s, currentRequestRuleExpr s))); naive_solver.
    + intros Hn ->. by rewrite bool_decide_false by naive_solver.
Qed.

Lemma commit_aligned s s' : commit s = Some s' → form s' = form s → aligned s'.
Proof.
  intros (He & _ & Hr & _)%commit_spec Hf. unfold aligned. rewrite Hf. split; [done|]. intros Hm. by rewrite Hm in Hr.
Qed.

(** A turn in a state that was reported and seen changes nothing. *)
Lemma rest s :
  aligned s → up_to_date s → named s → (∃ b, canUseVisualRules (currentRequestRuleExpr s) = Some b) → settled s.
Proof.
  intros [He Hr] Hs Hn [b Hb]. unfold settled, commit, named, up_to_date, reported in *. rewrite He, Hb, Hs, Hn.
  cbn [mbind option_bind]. rewrite !bool_decide_false by naive_solver. cbn [andb mbind option_bind]. rewrite orb_false_r.
  destruct s as [f i e r m sn sm]. cbn in *. subst. do 2 f_equal. destruct (editorMode f); [|done]. by rewrite Hr.
Qed.

(** Where nothing is initialised any more, an aligned state settles at once. *)
Lemma rest_after s s' :
  commit s = Some s' → aligned s → named s → initRef s = true → settled s' ∧ aligned s' ∧ reported s' = reported s.
Proof.
  intros Hc [He Hr] Hn Hi. pose proof (commit_spec s s' Hc) as (He' & [b Hb] & Hr' & Hs & Hn' & _ & Hi').
  destruct (Hi' Hn Hi) as [_ Hf]. assert (currentExpr s' = currentExpr s) as E1 by congruence.
  assert (currentRequestRuleExpr s' = currentRequestRuleExpr s) as E2.
  { rewrite Hr'. destruct (editorMode (form s)); [by rewrite Hr|done]. }
  assert (aligned s') as Ha by by eapply commit_aligned.
  assert (reported s' = reported s) as Er by (unfold reported; by rewrite E1, E2).
  split_and!; [|done..]. apply rest; [done|by unfold up_to_date; rewrite Hs, Er|done|exists b; by rewrite E2].
Qed.

Lemma settled_commits n s : settled s → commits n s = Some s.
Proof. intros Hs. induction n as [|n IH]; [done|]. cbn [commits]. by rewrite Hs. Qed.

Lemma settled_aligned s : settled s → aligned s ∧ up_to_date s ∧ named s.
Proof.
  intros Hs. pose proof (commit_spec s s Hs) as (_ & _ & _ & H1 & H2 & _).
  split_and!; [by eapply commit_aligned|done|done].
Qed.

(** From a state with its model seen, four turns are enough. *)
Lemma four_turns s s' : named s → commits 4 s = Some s' → settled s'.
Proof.
  intros Hn. cbn [commits]. destruct (commit s) as [s1|] eqn:C1; [|done]. cbn [mbind option_bind].
  destruct (commit s1) as [s2|] eqn:C2; [|done]. cbn [mbind option_bind].
  destruct (commit s2) as [s3|] eqn:C3; [|done]. cbn [mbind option_bind].
  destruct (commit s3) as [s4|] eqn:C4; [|done]. cbn [mbind option_bind]. intros [= <-].
  pose proof (commit_spec _ _ C1) as (_ & [b1 Hb1] & _ & Hs1 & Hn1 & Hf1 & Hi1).
  pose proof (commit_spec _ _ C2) as (_ & [b2 Hb2] & _ & Hs2 & Hn2 & Hf2 & Hi2).
  pose proof (commit_spec _ _ C3) as (_ & _ & _ & _ & Hn3 & _ & Hi3).
  (* once something was initialised two more turns settle *)
  assert (initRef s1 = true → settled s4) as Hlate.
  { intros Hi. destruct (Hi2 Hn1 Hi) as [Hi' Hf]. pose proof (commit_aligned _ _ C2 Hf) as Ha.
    destruct (rest_after _ _ C3 Ha Hn2 Hi') as (H3 & _ & _). unfold settled in H3. congruence. }
  destruct Hf1 as [[Hf1 Hu]|Hi]; [|by apply Hlate, Hi].
  destruct (Hu Hn) as [Hi|[Hi|Hup]]; [by apply Hlate, (Hi1 Hn Hi)|by apply Hlate|].
  (* nothing had changed: the first turn aligned the state *)
  pose proof (commit_aligned _ _ C1 Hf1) as Ha1.
  destruct Hf2 as [[Hf2 Hu2]|Hi].
  - destruct (Hu2 Hn1) as [Hi|[Hi|Hup2]]; [by apply Hlate| |].
    + pose proof (commit_aligned _ _ C2 Hf2) as Ha2. destruct (rest_after _ _ C3 Ha2 Hn2 Hi) as (H3 & _ & _).
      unfold settled in H3. congruence.
    + assert (settled s1) as H1 by (apply rest; eauto). unfold settled in H1. congruence.
  - specialize (Hi Hn1). destruct (Hi3 Hn2 Hi) as [Hi' Hf3]. pose proof (commit_aligned _ _ C3 Hf3) as Ha3.
    by destruct (rest_after _ _ C4 Ha3 Hn3 Hi') as (H4 & _ & _).
Qed.

Lemma five_turns s s' : commits 5 s = Some s' → settled s'.
Proof.
  cbn [commits]. destruct (commit s) as [s1|] eqn:C; [|done]. cbn [mbind option_bind]. intros H.
  pose proof (commit_spec _ _ C) as (_ & _ & _ & _ & Hn & _). by apply (four_turns s1).
Qed.

(** C11: whatever state the editor is in, its renderings and effects come to
    rest after five turns, unless one of them throws: a further turn changes
    nothing, the expression that was reported is the one the form stands for,
    and in the visual view so is the text of the rules. *)
Theorem editor_settles s s' :
  commits 5 s = Some s' →
  (∀ n, commits n s' = Some s') ∧ effectiveExpr (form s') = Some (currentExpr s') ∧
  (editorMode (form s') = Visual → currentRequestRuleExpr s' = buildRequestRuleExpr (requestRuleGroups (form s'))).
Proof.
  intros H%five_turns. split; [intros n; by apply settled_commits|]. by apply settled_aligned in H as [? _].
Qed.

(** ** Single turns *)

(** The text of the rules that a turn reports. *)
Definition rules_of (f : Form) (r : jsstr) : jsstr :=
  match editorMode f with Visual => buildRequestRuleExpr (requestRuleGroups f) | Raw => r end.

Lemma commit_quiet f i e r m sn eff b :
  effectiveExpr f = Some eff → canUseVisualRules r = Some b → i = true ∨ sn = Some (e, r) →
  commit (mkState f i e r m sn (Some m)) = Some (mkState f i eff (rules_of f r) m (Some (e, r)) (Some m)).
Proof.
  intros He Hb Hi. unfold commit. cbn [form currentRequestRuleExpr currentExpr seen seenModel initRef modelName].
  rewrite He, Hb. cbn [mbind option_bind]. rewrite (bool_decide_false (Some m ≠ Some m)) by naive_solver.
  assert (bool_decide (sn ≠ Some (e, r)) && negb i = false) as ->.
  { destruct Hi as [-> | ->]; [apply andb_false_r|]. by rewrite bool_decide_false by naive_solver. }
  cbn [mbind option_bind]. do 2 f_equal. destruct Hi as [-> | ->]; [done|].
  by rewrite bool_decide_false, orb_false_r by naive_solver.
Qed.

Lemma commit_init f e r m sn eff b f' :
  effectiveExpr f = Some eff → canUseVisualRules r = Some b → sn ≠ Some (e, r) → initialize f e r = Some f' →
  commit (mkState f false e r m sn (Some m)) = Some (mkState f' true eff (rules_of f r) m (Some (e, r)) (Some m)).
Proof.
  intros He Hb Hsn Hf. unfold commit. cbn [form currentRequestRuleExpr currentExpr seen seenModel initRef modelName].
  rewrite He, Hb. cbn [mbind option_bind]. rewrite (bool_decide_false (Some m ≠ Some m)) by naive_solver.
  rewrite bool_decide_true by done. cbn [negb andb]. by rewrite Hf.
Qed.

(** The first turn. *)
Lemma commit_mount f e r m eff b f' :
  effectiveExpr f = Some eff → canUseVisualRules r = Some b → initialize f e r = Some f' →
  commit (mkState f false e r m None None) = Some (mkState f' false eff (rules_of f r) m (Some (e, r)) (Some m)).
Proof.
  intros He Hb Hf. unfold commit. cbn [form currentRequestRuleExpr currentExpr seen seenModel initRef modelName].
  rewrite He, Hb. cbn [mbind option_bind]. rewrite !bool_decide_true by done. cbn [negb andb]. by rewrite Hf.
Qed.

(** ** Opening a price that the visual view saved *)

(** The tiers as they are read back. *)
Definition shown_config (ts : VisualConfig) : VisualConfig := imap (reread_at (length ts)) ts.

Lemma shown_generates ts :
  editable ts → generateExprFromVisualConfig (Some (shown_config ts)) = generateExprFromVisualConfig (Some ts).
Proof. intros H. by apply regenerated; [|apply H..]. Qed.

Lemma saved_config ts :
  editable ts → tryParseVisualConfig (generateExprFromVisualConfig (Some ts)) = Some (shown_config ts).
Proof. apply read_back_eq. Qed.

Section Saved.
Context (ts : VisualConfig) (gs : list RequestRuleGroup) (name : jsstr).
Context (Hts : editable ts) (Hok : price_ok ts gs).

Abbreviation E := (generateExprFromVisualConfig (Some ts)).
Abbreviation R := (buildRequestRuleExpr gs).

Definition saved_form (mode : EditorMode) : Form := mkForm mode (Some (shown_config ts)) (saved_price ts gs) gs.
Definition saved_state (mode : EditorMode) : State :=
  mkState (saved_form mode) false E R name (Some (E, R)) (Some name).

Lemma saved_groups : groups_of R = Some gs.
Proof. unfold groups_of. rewrite parse_rules, (price_read _ _ Hok) by apply Hok. done. Qed.

Lemma saved_rules_shown : canUseVisualRules R = Some true.
Proof.
  unfold canUseVisualRules. rewrite parse_rules, (price_read _ _ Hok) by apply Hok. by destruct R.
Qed.

Lemma saved_effective mode : effectiveExpr (saved_form mode) = Some E.
Proof.
  destruct mode; unfold effectiveExpr; cbn [editorMode saved_form visualConfig rawExpr].
  - by rewrite shown_generates.
  - by rewrite split_saved.
Qed.

Lemma saved_settled mode : settled (saved_state mode).
Proof.
  apply rest; [|done..|exists true; apply saved_rules_shown].
  split; [apply saved_effective|done].
Qed.

Lemma mount_saved : mount E R name = Some (saved_state Visual).
Proof.
  unfold mount, open_editor. rewrite saved_groups, saved_config by done. cbn [mbind option_bind commits].
  change (combineBillingExpr E R) with (saved_price ts gs). fold (saved_form Visual).
  rewrite (commit_mount _ _ _ _ E true (saved_form Visual)).
  2: apply saved_effective. 2: apply saved_rules_shown.
  2: { unfold initialize. by rewrite saved_groups, saved_config by done. }
  apply (settled_commits 4), saved_settled.
Qed.

Lemma saved_to_raw : step (saved_state Visual) (ModeChange Raw) = Some (saved_state Raw).
Proof.
  unfold step, handle, handleModeChange. cbn [form saved_state saved_form visualConfig requestRuleGroups mbind option_bind].
  rewrite shown_generates by done. unfold combined. change (combineBillingExpr E R) with (saved_price ts gs).
  rewrite str_or_label by by apply saved_nonempty. apply settled_commits, saved_settled.
Qed.

Lemma saved_to_visual : step (saved_state Raw) (ModeChange Visual) = Some (saved_state Visual).
Proof.
  unfold step, handle, handleModeChange. cbn [form saved_state saved_form rawExpr].
  rewrite split_saved by done. cbn [mbind option_bind billingExpr requestRuleExpr].
  rewrite saved_groups, saved_config by done. cbn [mbind option_bind opt_or]. apply settled_commits, saved_settled.
Qed.

End Saved.


(** ** Edits of the tiers *)

(** After the first edit the editor reads again what it has just reported. *)
Lemma first_edit ts gs name c :
  price_ok ts gs → editable c →
  let s := saved_state ts gs name Visual in
  ∃ s', commits 5 (with_form s (set_config (form s) (Some c)) (currentRequestRuleExpr s)) = Some s' ∧
    reported s' = (generateExprFromVisualConfig (Some c), buildRequestRuleExpr gs) ∧
    editorMode (form s') = Visual ∧ requestRuleGroups (form s') = gs.
Proof.
  intros Hok Hc s. set (E := generateExprFromVisualConfig (Some ts)). set (R := buildRequestRuleExpr gs).
  set (E' := generateExprFromVisualConfig (Some c)). pose proof (saved_rules_shown ts gs Hok) as Hr. fold R in Hr.
  set (f := mkForm Visual (Some c) (saved_price ts gs) gs).
  change (with_form s _ _) with (mkState f false E R name (Some (E, R)) (Some name)).
  change 5 with (S 4). cbn [commits]. rewrite (commit_quiet _ _ _ _ _ _ E' true) by auto. cbn [mbind option_bind].
  destruct (decide (E' = E)) as [HE|HE].
  { eexists. split; [change 4 with (1 + 3); apply (settled_commits 4), rest; try done|done].
    - by rewrite HE.
    - by exists true. }
  set (f' := mkForm Visual (Some (shown_config c)) (combineBillingExpr E' R) gs).
  assert (initialize f E' R = Some f') as Hi.
  { pose proof (saved_groups ts gs Hok) as Hg. fold R in Hg. unfold initialize. rewrite Hg. cbn [mbind option_bind].
    unfold E'. by rewrite saved_config. }
  rewrite (commit_init _ _ _ _ _ E' true f') by (done || congruence). cbn [mbind option_bind].
  eexists. split; [apply (settled_commits 3), rest; [|done..|by exists true]|done].
  split; [|done]. cbn [form effectiveExpr f' editorMode visualConfig currentExpr]. by rewrite shown_generates.
Qed.

(** Nothing is read again later. *)
Lemma later_edit s :
  settled s → initRef s = true → editorMode (form s) = Visual →
  ∀ e c, visual_edit (visualConfig (form s)) e = Some c →
  ∃ s', step s (VisualChange e) = Some s' ∧ visualConfig (form s') = Some c ∧ settled s' ∧ initRef s' = true ∧
    reported s' = (generateExprFromVisualConfig (Some c), currentRequestRuleExpr s).
Proof.
  intros Hs Hi Hm e c He. pose proof (settled_aligned s Hs) as ([Hx Hr] & Hu & Hn).
  pose proof (commit_spec s s Hs) as (_ & [b Hb] & _). specialize (Hr Hm).
  unfold step, handle. rewrite Hm, He. cbn [mbind option_bind]. destruct s as [f i x r m sn sm].
  cbn in Hm, Hi, Hn, Hr, Hb. unfold named in Hn. cbn in Hn. subst i sm. destruct f as [md cfg raw groups]. cbn in Hm, Hr. subst md.
  unfold with_form, set_config. cbn [form initRef currentExpr currentRequestRuleExpr modelName seen seenModel editorMode rawExpr requestRuleGroups].
  set (f := mkForm Visual (Some c) raw groups). set (E' := generateExprFromVisualConfig (Some c)).
  assert (rules_of f r = r) as Hrr by done.
  change 5 with (S (S 3)). cbn [commits]. rewrite (commit_quiet f _ _ _ _ _ E' b) by auto. rewrite Hrr. cbn [mbind option_bind].
  rewrite (commit_quiet f _ _ _ _ _ E' b) by auto. rewrite Hrr. cbn [mbind option_bind].
  assert (settled (mkState f true E' r m (Some (E', r)) (Some m))) as Hs'
    by (apply rest; [by split|done..|by exists b]).
  eexists. split; [by apply (settled_commits 3)|]. split_and!; done.
Qed.


(** ** What opening destroys *)

Lemma free_base : base_ok FREE.
Proof. by split; vm_compute. Qed.

Lemma split_free gs :
  Forall editable_group gs → forallb (λ g, forallb reads_back (Rules.conditions g)) gs = true →
  splitBillingExprAndRequestRules (combineBillingExpr FREE (buildRequestRuleExpr gs)) =
  Some (mkSplit FREE (buildRequestRuleExpr gs)).
Proof.
  intros Hg Hr. destruct gs as [|g gs]; [by vm_compute|]. rewrite price_splits_eq; [|apply free_base|done..].
  by rewrite Hr.
Qed.

Lemma read_groups gs :
  Forall editable_group gs → forallb (λ g, forallb reads_back (Rules.conditions g)) gs = true →
  groups_of (buildRequestRuleExpr gs) = Some gs ∧ canUseVisualRules (buildRequestRuleExpr gs) = Some true.
Proof.
  intros Hg Hr. unfold groups_of, canUseVisualRules. rewrite parse_rules, Hr by done. split; [done|].
  by destruct (buildRequestRuleExpr gs).
Qed.

(** C27: an expression that the visual view cannot show is lost when the editor
    opens: before the view of the expression is chosen, the visual view has
    reported the price of no tiers, which is then read as the expression to
    edit.  Whatever the expression was, what the dialog would save is a price
    of nothing, with the rules unchanged. *)
Theorem raw_price_lost e gs name parts :
  e ≠ [] → e ≠ FREE → tryParseVisualConfig e = None →
  Forall editable_group gs → forallb (λ g, forallb reads_back (Rules.conditions g)) gs = true →
  splitBillingExprAndRequestRules (combineBillingExpr e (buildRequestRuleExpr gs)) = Some parts →
  ∃ s, mount e (buildRequestRuleExpr gs) name = Some s ∧
    reported s = (FREE, buildRequestRuleExpr gs) ∧ editorMode (form s) = Raw ∧
    rawExpr (form s) = combineBillingExpr FREE (buildRequestRuleExpr gs).
Proof.
  intros Hne Hnf Hv Hg Hr Hp. pose proof (split_free gs Hg Hr) as Hs.
  destruct (read_groups gs Hg Hr) as [Hgs Hcan]. set (R := buildRequestRuleExpr gs) in *.
  set (raw x := mkForm Raw None (combineBillingExpr x R) gs).
  assert (∀ f x, x ≠ [] → tryParseVisualConfig x = None → initialize f x R = Some (raw x)) as Hini.
  { intros f x Hx Hx'. unfold initialize. rewrite Hgs. cbn [mbind option_bind]. rewrite Hx'. by destruct x. }
  assert (tryParseVisualConfig FREE = None) as Hfree by by vm_compute.
  unfold mount, open_editor. rewrite Hgs, Hv. cbn [mbind option_bind]. change 5 with (S (S (S 2))). cbn [commits].
  (* the first rendering is that of the visual view *)
  rewrite (commit_mount _ _ _ _ FREE true (raw e)) by (done || by apply Hini). cbn [mbind option_bind].
  change (rules_of _ R) with R.
  (* its report is read as the expression *)
  assert (effectiveExpr (raw e) = Some (billingExpr parts)) as E1 by (unfold effectiveExpr; cbn [raw editorMode rawExpr]; by rewrite Hp).
  assert (effectiveExpr (raw FREE) = Some FREE) as E2 by (unfold effectiveExpr; cbn [raw editorMode rawExpr]; by rewrite Hs).
  rewrite (commit_init _ _ _ _ _ _ _ (raw FREE) E1 Hcan) by (congruence || by apply Hini). cbn [mbind option_bind].
  change (rules_of (raw e) R) with R.
  rewrite (commit_quiet _ _ _ _ _ _ _ _ E2 Hcan) by auto. cbn [mbind option_bind]. change (rules_of (raw FREE) R) with R.
  change (S 1) with 2. cbn [commits]. rewrite (commit_quiet _ _ _ _ _ _ _ _ E2 Hcan) by auto. cbn [mbind option_bind].
  change (rules_of (raw FREE) R) with R.
  rewrite (commit_quiet _ _ _ _ _ _ _ _ E2 Hcan) by auto. cbn [mbind option_bind]. by eexists.
Qed.

Lemma raw_price_lost_witness :
  option_map reported (mount (jq "max(tier(`a`, p * 2), 5)") [] (js "m")) = Some (FREE, []).
Proof.
  destruct (raw_price_lost (jq "max(tier(`a`, p * 2), 5)") [] (js "m") (mkSplit (jq "max(tier(`a`, p * 2), 5)") []))
    as (s & Hm & Hr & _); [discriminate|discriminate|by vm_compute|constructor|done|by vm_compute|].
  change (buildRequestRuleExpr []) with (@nil jschar) in *. rewrite Hm. cbn [option_map]. by rewrite Hr.
Defined.

(** Rules that the reader rejects are lost in the visual view: its list is
    empty, and an empty list is what it reports. *)
Lemma unread_rules_lost ts rules name :
  editable ts → rules ≠ [] → tryParseRequestRuleExpr rules = Some None →
  ∃ s, mount (generateExprFromVisualConfig (Some ts)) rules name = Some s ∧
    reported s = (generateExprFromVisualConfig (Some ts), []) ∧ requestRuleGroups (form s) = [].
Proof.
  intros Hts Hne Hp. set (E := generateExprFromVisualConfig (Some ts)).
  assert (groups_of rules = Some [] ∧ canUseVisualRules rules = Some false) as [Hgs Hcan].
  { unfold groups_of, canUseVisualRules. rewrite Hp. by destruct rules. }
  set (shown r := mkForm Visual (Some (shown_config ts)) (combineBillingExpr E r) []).
  assert (∀ r, effectiveExpr (shown r) = Some E) as He.
  { intros r. unfold effectiveExpr. cbn [shown editorMode visualConfig]. by rewrite shown_generates. }
  assert (∀ f r, groups_of r = Some [] → initialize f E r = Some (shown r)) as Hini.
  { intros f r Hr. unfold initialize. rewrite Hr. cbn [mbind option_bind]. unfold E. by rewrite saved_config. }
  unfold mount, open_editor. rewrite Hgs. unfold E at 1. rewrite saved_config by done. fold E. cbn [mbind option_bind].
  fold (shown rules). change 5 with (S (S (S 2))). cbn [commits].
  rewrite (commit_mount _ _ _ _ E false (shown rules)) by (done || by apply He || by apply Hini). cbn [mbind option_bind].
  change (rules_of _ _) with (@nil jschar).
  rewrite (commit_init _ _ _ _ _ E true (shown [])) by (done || by apply He || by apply Hini || congruence). cbn [mbind option_bind].
  change (rules_of _ _) with (@nil jschar). rewrite (commit_quiet _ _ _ _ _ _ E true) by auto. cbn [mbind option_bind].
  change (rules_of _ _) with (@nil jschar). eexists.
  split; [apply (settled_commits 2), rest; [split; [apply He|done]|done..|by exists true]|by split].
Qed.

(** ** Adding a tier *)

Lemma unit_cost_normal t cv :
  cv ∈ BILLING_CACHE_VAR_MAP → unit_cost (normalizeVisualTier (partial t)) cv.1 = unit_cost t cv.1.
Proof.
  intros H%elem_of_fields. unfold unit_cost, normalizeVisualTier, partial. cbn [costs p_costs].
  rewrite (get_map_costs (λ k, or_zero (obj_get k (costs t)))) by done. apply or_zero_idemp.
Qed.

Lemma tier_ok_normal t : tier_ok t → tier_ok (normalizeVisualTier (partial t)).
Proof.
  intros [Hp Hl Hc]. split; [|done..]. unfold priced in *. apply andb_true_iff in Hp as [Hp' Hp].
  apply andb_true_iff. split; [exact Hp'|]. apply forallb_forall. intros cv Hcv. rewrite unit_cost_normal by by apply list_elem_of_In.
  by eapply forallb_forall in Hp.
Qed.

Lemma default_condition_ok : cond_ok (default_condition (js "len")).
Proof. split; [|split]; [apply (bool_decide_eq_true_1 _); by vm_compute..|by vm_compute]. Qed.

Lemma new_tier_ok n : tier_ok (new_tier n).
Proof.
  split; [by vm_compute| |constructor]. unfold label_ok. apply Forall_app. split; [by repeat constructor|].
  eapply Forall_impl; [apply string_of_N_digits|]. intros c Hc. unfold not_char. apply negb_true_iff, N.eqb_neq.
  intros ->. by vm_compute in Hc.
Qed.

(** The bound given to the last tier. *)
Lemma bound_last_cases (tiers : list VisualTier) :
  bound_last tiers = tiers ∨
  ∃ t, tiers !! (length tiers - 1) = Some t ∧ Tiers.conditions t = [] ∧
    bound_last tiers = <[length tiers - 1 :=
      normalizeVisualTier (partial (set_tier_conditions t [default_condition (js "len")]))]> tiers.
Proof.
  unfold bound_last. cbv zeta. destruct (tiers !! (length tiers - 1)) as [t|] eqn:Et; [|by left].
  destruct (Tiers.conditions t) eqn:Ec; [right; by exists t|by left].
Qed.

Lemma bound_last_ok (tiers : list VisualTier) : Forall tier_ok tiers → Forall tier_ok (bound_last tiers).
Proof.
  intros H. destruct (bound_last_cases tiers) as [->|(t & Et & _ & ->)]; [done|]. apply Forall_insert; [done|].
  eapply Forall_lookup in H as [Hp Hl _]; [|exact Et]. apply tier_ok_normal. split; [done..|].
  change (Forall cond_ok (List.filter filled [default_condition (js "len")])).
  change (List.filter filled [default_condition (js "len")]) with [default_condition (js "len")].
  by constructor; [apply default_condition_ok|].
Qed.

(** A tier that is added keeps the list one that is read back: the tier that
    took all requests until then gets a bound, unless it has conditions of its
    own, and the new one takes the rest. *)
Lemma add_tier_editable tiers :
  editable tiers → (∀ t, tiers = [t] → Tiers.conditions t = [] ∨ List.filter filled (Tiers.conditions t) ≠ []) →
  editable (handleAddTier tiers) ∧ length (handleAddTier tiers) = S (length tiers).
Proof.
  intros [Hne Ht Hg] H1. unfold handleAddTier.
  assert (length (bound_last tiers) = length tiers) as Hlen.
  { destruct (bound_last_cases tiers) as [->|(? & _ & _ & ->)]; [done|apply length_insert]. }
  split; [|rewrite length_app, Hlen; simpl; lia]. split.
  - by destruct (bound_last tiers).
  - apply Forall_app. split; [by apply bound_last_ok|]. by constructor; [apply new_tier_ok|].
  - intros t Hl _. destruct tiers as [|t1 [|t2 tiers]]; [done| |].
    + destruct (H1 t1 eq_refl) as [Hc|Hc]; unfold bound_last in Hl; cbn in Hl.
      * rewrite Hc in Hl. injection Hl as <-. discriminate.
      * destruct (Tiers.conditions t1) eqn:Ec; [done|]. injection Hl as <-. by rewrite Ec.
    + assert (bound_last (t1 :: t2 :: tiers) !! 0 = Some t1) as Hb.
      { destruct (bound_last_cases (t1 :: t2 :: tiers)) as [->|(? & _ & _ & ->)]; [done|].
        by rewrite list_lookup_insert_ne by (simpl; lia). }
      change ((bound_last (t1 :: t2 :: tiers) ++ [new_tier (length (t1 :: t2 :: tiers))] : list VisualTier) !! 0 = Some t) in Hl.
      rewrite lookup_app_l in Hl by (rewrite Hlen; simpl; lia). rewrite Hb in Hl. injection Hl as <-.
      apply (Hg t1); [done|simpl; lia].
Qed.

(** The tiers that are shown can be printed and read again. *)
Lemma shown_normal ts : editable ts → normalizeVisualConfig (Some (shown_config ts)) = shown_config ts.
Proof. intros H. apply normal_config, H. Qed.

Lemma reread_cond_ok c : cond_ok c → cond_ok (reread_cond c).
Proof.
  intros (Hv & Ho & Hp). split; [done|]. split; [done|]. cbn [value reread_cond value_text].
  by rewrite (proj2 (plain_value_digits _ Hp)).
Qed.

Lemma shown_lookup (ts : list VisualTier) i t' :
  (shown_config ts : list VisualTier) !! i = Some t' → ∃ t, ts !! i = Some t ∧ t' = reread_at (length ts) i t.
Proof. unfold shown_config. rewrite list_lookup_imap. intros (t & Hi & ->)%fmap_Some. by exists t. Qed.

Lemma shown_editable ts : editable ts → editable (shown_config ts).
Proof.
  intros [Hne Ht Hg]. assert (length (shown_config ts) = length ts) as Hl by apply length_imap. split.
  - intros E. rewrite E in Hl. by destruct ts.
  - apply Forall_lookup. intros i t' (t & Hi & ->)%shown_lookup. eapply Forall_lookup in Ht; [|exact Hi].
    pose proof (conds_at_ok (length ts) i t Ht) as Hc. split.
    + pose proof (tier_priced _ Ht) as Hp. unfold priced in *. apply andb_true_iff in Hp as [H1 H2].
      apply andb_true_iff. split.
      * unfold reread_at, reread, normalizeVisualTier. cbn [input_unit_cost output_unit_cost p_input p_output opt_or].
        by rewrite !or_zero_idemp.
      * apply forallb_forall. intros cv Hcv. unfold reread_at. rewrite unit_cost_reread by by apply list_elem_of_In.
        by eapply forallb_forall in H2.
    + apply name_at_ok, Ht.
    + unfold reread_at, reread, normalizeVisualTier. cbn [conditions p_conditions opt_or].
      rewrite filled_reread by done. apply Forall_map. eapply Forall_impl; [exact Hc|apply reread_cond_ok].
  - intros t' H0 H1. rewrite Hl in H1. apply shown_lookup in H0 as (t & H0 & ->). pose proof (Hg t H0 H1) as Hn.
    eapply Forall_lookup in Ht; [|exact H0]. pose proof (conds_at_ok (length ts) 0 t Ht) as Hc.
    unfold reread_at, reread, normalizeVisualTier. cbn [conditions p_conditions opt_or].
    rewrite filled_reread by done. unfold conds_at. replace ((length ts =? 1) || (0 <? length ts - 1)) with true.
    + by destruct (List.filter filled (Tiers.conditions t)).
    + symmetry. apply orb_true_iff. right. apply Nat.ltb_lt. lia.
Qed.

(** No tier of the editor gets more than two conditions. *)
Lemma two_conditions config e c :
  Forall (λ t, length (Tiers.conditions t) ≤ 2) (normalizeVisualConfig config) → visual_edit config e = Some c →
  Forall (λ t, length (Tiers.conditions t) ≤ 2) c.
Proof.
  intros H. unfold visual_edit. set (tiers := normalizeVisualConfig config) in *. clearbody tiers.
  destruct e as [i e| |i|i].
  - destruct (tiers !! i) as [t|] eqn:Et; [|done]. intros [= <-]. apply Forall_insert; [done|].
    eapply Forall_lookup in H; [|exact Et]. cbn [conditions normalizeVisualTier p_conditions partial opt_or].
    destruct e; cbn [edit_tier]; unfold change_condition, handlePriceChange; repeat case_match; try done.
    1-3: cbn; by rewrite length_insert.
    cbn. etrans; [apply sublist_length, sublist_delete|done].
  - intros [= <-]. apply Forall_app. split; [|by constructor; [simpl; lia|]].
    destruct (bound_last_cases tiers) as [->|(? & _ & _ & ->)]; [done|]. by apply Forall_insert; [|simpl; lia].
  - intros [= <-]. unfold handleRemoveTier. destruct (delete i tiers) eqn:E; [done|]. rewrite <- E.
    by apply Forall_delete.
  - unfold handleAddCondition. destruct (tiers !! i) as [t|]; [|done].
    destruct (Nat.leb_spec 2 (length (Tiers.conditions t))); [done|]. intros [= <-].
    apply Forall_insert; [done|]. cbn. rewrite length_app. simpl. lia.
Qed.

(** ** Samples *)

Lemma editor_settles_witness :
  ∃ s', open_editor [] [] (js "m") ≫= commits 5 = Some s' ∧ editorMode (form s') = Raw ∧
    ∀ n, commits n s' = Some s'.
Proof.
  destruct (open_editor [] [] (js "m") ≫= commits 5) as [s'|] eqn:Es; [|by vm_compute in Es].
  exists s'. split; [done|]. assert (editorMode (form s') = Raw) as Hm.
  { assert ((λ s, editorMode (form s)) <$> (open_editor [] [] (js "m") ≫= commits 5) = Some Raw) as H by by vm_compute.
    rewrite Es in H. by injection H. }
  split; [exact Hm|]. destruct (open_editor [] [] (js "m")) as [s|] eqn:Eo; [|by vm_compute in Eo].
  exact (proj1 (editor_settles s s' Es)).
Defined.



(** Every preset is shown in the visual view with its rules, and what is
    reported is its expression printed again. *)
Example presets_visual :
  (s ← mount [] [] (js "m");
   mapM (λ p, (λ s', (editorMode (form s'), bool_decide (currentExpr s' = generateExprFromVisualConfig (tryParseVisualConfig (expr p))),
                      length (requestRuleGroups (form s')) =? length (requestRules p))) <$> step s (ApplyPreset p)) PRESETS) =
  Some (map (λ _, (Visual, true, true)) PRESETS).
Proof. by vm_compute. Qed.

(** A new price of tiers opens in the view of the expression, as the price of
    nothing. *)
Example new_price_opens_raw :
  (λ s, (editorMode (form s), reported s)) <$> mount [] [] (js "m") = Some (Raw, (FREE, [])).
Proof. by vm_compute. Qed.

(** A group of rules that was added and not yet filled in is gone with the first
    edit of a tier. *)
Example empty_group_lost :
  let opened := mount (jq "tier(`base`, p * 2 + c * 4)") [] (js "m") in
  let count s := length (requestRuleGroups (form s)) in
  (s ← opened; count <$> run s [RulesChange AddGroup]) = Some 1 ∧
  (s ← opened; count <$> run s [RulesChange AddGroup; VisualChange (EditTier 0 (PriceChange (js "input_unit_cost") (num_of_Z 3)))]) =
  Some 0.
Proof. by vm_compute. Qed.

(** A rule that compares a parameter with a number is reported by the cards, and
    the next time the price is opened the whole of it is lost: the text is not
    taken apart, so that the visual view cannot show it. *)
Example compared_rule_destroys :
  let rule e := RulesChange (EditGroup 0 e) in
  let edits :=
    [VisualChange (EditTier 0 (PriceChange (js "input_unit_cost") (num_of_Z 3))); RulesChange AddGroup;
     rule (EditCondition 0 (Path (js "n"))); rule (EditCondition 0 (ModeChange_ MATCH_GT));
     rule (Multiplier (num_of_Z 2)); rule (EditCondition 0 (TextValue (js "5")))] in
  (s ← mount (jq "tier(`base`, p * 2 + c * 4)") [] (js "m");
   s' ← run s edits;
   let text := combineBillingExpr (currentExpr s') (currentRequestRuleExpr s') in
   parts ← splitBillingExprAndRequestRules text;
   s2 ← mount (billingExpr parts) (requestRuleExpr parts) (js "m");
   Some (text, reported s2)) =
  Some (jq "(tier(`base`, p * 3 + c * 4)) * (param(`n`) != nil && param(`n`) > 5 ? 2 : 1)", (FREE, [])).
Proof. by vm_compute. Qed.

End TieredEditor.
