(* ===== verification/RatioEditor.v ===== *)
(** * The table of model ratios

    The settings page that edits the prices of models one by one
    ([features/system-settings/models/model-ratio-visual-editor.tsx] and
    [model-ratio-dialog.tsx]): ten settings, each the text of a map from
    models, are shown as rows; a row is opened in a dialog, and what the dialog
    saves is written back into all ten.  Prices in tiers are edited inside the
    dialog by [TieredEditor]; the last part composes the table, the dialog and
    that editor.

    The keys of the settings are those of [Pricing.ModelPricing].  A setting
    whose text is JSON but no object is outside of the model, where the code
    casts it to one. *)
From S2P Require Import Prelude JSString JSNumber JSON JSONText Pricing Regex BillingExpr RuleReading RegexFirst TierExpr TierReading PriceText TieredEditor.
Import ModelPricing Vars Rules Tiers RuleReading TierReading PriceText.
Local Open Scope nat_scope.

Module RatioEditor.

(** ** Rows *)

(** A text for each of the settings that hold numbers. *)
Definition Texts := ModelPricingOptionKey → jsstr.

Definition RATIO_KEYS : list ModelPricingOptionKey :=
  [ModelRatio; CacheRatio; CreateCacheRatio; CompletionRatio; ImageRatio; AudioRatio; AudioCompletionRatio].

Inductive DialogMode := TokenMode | RequestMode | TieredMode.
#[global] Instance DialogMode_eq_dec : EqDecision DialogMode.
Proof. solve_decision. Defined.

Record ModelRow := mkRow {
  row_name : jsstr;
  row_texts : Texts;
  row_mode : DialogMode;
  row_expr : option jsstr;
  row_rules : option jsstr;
  hasConflict : bool;
}.

(** [Object.keys(map)]; [None] is an exception. *)
Definition keys_of (m : json) : option (list jsstr) := match m with JNull => None | _ => Some (obj_keys (spread m)) end.

Definition texts_of (maps : ModelPricingMaps) (name : jsstr) : Texts := λ key, text_of (json_prop (maps key) name).

(** [billingExprMap[name] || ''], which has to be a text. *)
Definition full_expr (maps : ModelPricingMaps) (name : jsstr) : option jsstr :=
  match json_prop (maps BillingExpr) name with
  | Some v => if json_truthy v then match v with JStr s => Some s | _ => None end else Some []
  | None => Some []
  end.

Definition row_of (maps : ModelPricingMaps) (name : jsstr) : option ModelRow :=
  let texts := texts_of maps name in
  if bool_decide (json_prop (maps BillingMode) name = Some (JStr (js "tiered_expr"))) then
    fullExpr ← full_expr maps name;
    parts ← splitBillingExprAndRequestRules fullExpr;
    Some (mkRow name texts TieredMode (Some (billingExpr parts)) (Some (requestRuleExpr parts)) false)
  else
    Some (mkRow name texts (if nonempty (texts ModelPrice) then RequestMode else TokenMode) None None
      (nonempty (texts ModelPrice) && existsb (λ k, nonempty (texts k)) RATIO_KEYS)).

Section Rows.
Context (localeCompare : jsstr → jsstr → Z).

Definition model_rows (settings : ModelPricingSettings) : option (list ModelRow) :=
  let maps := parseModelPricingMaps settings in
  keys ← mapM (λ k, keys_of (maps k)) MODEL_PRICING_OPTION_KEYS;
  modelData ← mapM (row_of maps) (uniq (concat keys));
  Some (js_sort (λ a b, localeCompare (row_name a) (row_name b)) modelData).

End Rows.

(** ** Writing the settings *)

Record ModelRatioData := mkData {
  name : jsstr;
  data_mode : DialogMode;
  data_texts : Texts;
  data_expr : jsstr;
  data_rules : jsstr;
}.

(** The ten maps, where each is one. *)
Definition maps_of (settings : ModelPricingSettings) : option Maps :=
  let parsed := parseModelPricingMaps settings in
  if forallb (λ k, match parsed k with JObj _ => true | _ => false end) MODEL_PRICING_OPTION_KEYS
  then Some (λ k, spread (parsed k)) else None.

Definition texts_for (maps : Maps) : ModelPricingSettings := λ k, JSON_stringify_2 (JObj (maps k)).

Definition deleted (n : jsstr) (maps : Maps) : Maps := λ k, obj_delete n (maps k).

Definition handleDelete (n : jsstr) (settings : ModelPricingSettings) : option ModelPricingSettings :=
  maps ← maps_of settings;
  Some (texts_for (deleted n maps)).

Definition setIfPresent (n : jsstr) (value : jsstr) (target : obj json) : obj json :=
  match value with
  | [] => target
  | _ =>
      let parsed := parseFloat value in
      if num_is_finite parsed then obj_set n (JNum parsed) target else target
  end.

Definition combined_expr (data : ModelRatioData) : jsstr := combineBillingExpr (data_expr data) (data_rules data).

(** What the branches write into the map of a key. *)
Definition written (data : ModelRatioData) (k : ModelPricingOptionKey) (target : obj json) : obj json :=
  let n := name data in
  let set := setIfPresent n (data_texts data k) target in
  match data_mode data with
  | TieredMode =>
      match k with
      | BillingMode => if nonempty (combined_expr data) then obj_set n (JStr (js "tiered_expr")) target else target
      | BillingExpr => if nonempty (combined_expr data) then obj_set n (JStr (combined_expr data)) target else target
      | _ => set
      end
  | _ =>
      if nonempty (data_texts data ModelPrice) then if decide (k = ModelPrice) then set else target
      else if decide (k ∈ RATIO_KEYS) then set else target
  end.

Definition handleSave (data : ModelRatioData) (settings : ModelPricingSettings) : option ModelPricingSettings :=
  maps ← maps_of settings;
  Some (texts_for (λ k, written data k (deleted (name data) maps k))).

(** ** The dialog *)

Record Dialog := mkDialog {
  values : Texts;
  model_name : jsstr;
  pricingMode : DialogMode;
  by_price : bool;
  advancedOpen : bool;
  promptPrice : jsstr;
  completionPrice : jsstr;
  dialog_expr : jsstr;
  dialog_rules : jsstr;
}.

Definition handleEdit (row : ModelRow) : ModelRatioData :=
  mkData (row_name row)
    (match row_mode row with
     | TieredMode => TieredMode
     | _ => if nonempty (row_texts row ModelPrice) then RequestMode else TokenMode
     end)
    (row_texts row) (opt_or (row_expr row) []) (opt_or (row_rules row) []).

Definition two : num := num_of_Z 2.

(** The effect that follows the model to edit. *)
Definition load (editData : option ModelRatioData) (d : Dialog) : Dialog :=
  match editData with
  | Some data =>
      let show mode prompt completion :=
        mkDialog (data_texts data) (name data) mode (by_price d) (advancedOpen d) prompt completion
          (data_expr data) (data_rules data) in
      match data_mode data with
      | TieredMode => show TieredMode (promptPrice d) (completionPrice d)
      | _ =>
          if nonempty (data_texts data ModelPrice) then show RequestMode (promptPrice d) (completionPrice d) else
          match data_texts data ModelRatio with
          | [] => show TokenMode (promptPrice d) (completionPrice d)
          | ratio =>
              let tokenPrice := num_mul (parseFloat ratio) two in
              show TokenMode (num_to_string tokenPrice)
                (match data_texts data CompletionRatio with
                 | [] => completionPrice d
                 | completion => num_to_string (num_mul tokenPrice (parseFloat completion))
                 end)
          end
      end
  | None => mkDialog (λ _, []) [] TokenMode false false [] [] [] []
  end.

(** A submission needs a name. *)
Definition handleSubmit (d : Dialog) : option ModelRatioData :=
  match model_name d with
  | [] => None
  | _ =>
      let tiered := bool_decide (pricingMode d = TieredMode) in
      Some (mkData (model_name d) (pricingMode d) (values d)
        (if tiered then dialog_expr d else []) (if tiered then dialog_rules d else []))
  end.

(** [!isNaN(parseFloat(value))] *)
Definition is_number (value : jsstr) : bool := negb (num_is_nan (parseFloat value)).
Definition validateNumber (value : jsstr) : bool := negb (nonempty value) || is_number value.

Definition set_value (k : ModelPricingOptionKey) (v : jsstr) (t : Texts) : Texts := λ k', if decide (k' = k) then v else t k'.

Definition with_values (d : Dialog) (t : Texts) (prompt completion : jsstr) : Dialog :=
  mkDialog t (model_name d) (pricingMode d) (by_price d) (advancedOpen d) prompt completion (dialog_expr d) (dialog_rules d).

Definition handlePromptPriceChange (value : jsstr) (d : Dialog) : Dialog :=
  let ratio := if nonempty value && is_number value then num_to_string (num_div (parseFloat value) two) else [] in
  with_values d (set_value ModelRatio ratio (values d)) value (completionPrice d).

Definition handleCompletionPriceChange (value : jsstr) (d : Dialog) : Dialog :=
  let prompt := promptPrice d in
  let ratio :=
    if nonempty value && is_number value && nonempty prompt && is_number prompt && num_ltb num_zero (parseFloat prompt)
    then num_to_string (num_div (parseFloat value) (parseFloat prompt)) else [] in
  with_values d (set_value CompletionRatio ratio (values d)) prompt value.

Definition handleRatioChange (value : jsstr) (d : Dialog) : Dialog :=
  if validateNumber value then
    with_values d (set_value ModelRatio value (values d))
      (if nonempty value then num_to_string (num_mul (parseFloat value) two) else []) (completionPrice d)
  else d.

Definition handleCompletionRatioChange (value : jsstr) (d : Dialog) : Dialog :=
  if validateNumber value then
    let ratio := values d ModelRatio in
    with_values d (set_value CompletionRatio value (values d)) (promptPrice d)
      (if nonempty value && nonempty ratio
       then num_to_string (num_mul (num_mul (parseFloat ratio) two) (parseFloat value)) else [])
  else d.

Definition handleFieldChange (k : ModelPricingOptionKey) (value : jsstr) (d : Dialog) : Dialog :=
  if validateNumber value then with_values d (set_value k value (values d)) (promptPrice d) (completionPrice d) else d.

Inductive Event :=
  | ModeRadio (m : DialogMode)
  | SubModeRadio (by_price : bool)
  | Advanced (open : bool)
  | PromptPrice (value : jsstr)
  | CompletionPrice (value : jsstr)
  | Ratio (value : jsstr)
  | Completion (value : jsstr)
  | OtherField (k : ModelPricingOptionKey) (value : jsstr)
  | Reported (e rules : jsstr).

Definition handle (d : Dialog) (e : Event) : Dialog :=
  match e with
  | ModeRadio m => mkDialog (values d) (model_name d) m (by_price d) (advancedOpen d) (promptPrice d) (completionPrice d) (dialog_expr d) (dialog_rules d)
  | SubModeRadio b => mkDialog (values d) (model_name d) (pricingMode d) b (advancedOpen d) (promptPrice d) (completionPrice d) (dialog_expr d) (dialog_rules d)
  | Advanced b => mkDialog (values d) (model_name d) (pricingMode d) (by_price d) b (promptPrice d) (completionPrice d) (dialog_expr d) (dialog_rules d)
  | PromptPrice v => handlePromptPriceChange v d
  | CompletionPrice v => handleCompletionPriceChange v d
  | Ratio v => handleRatioChange v d
  | Completion v => handleCompletionRatioChange v d
  | OtherField k v => handleFieldChange k v d
  | Reported e rules =>
      mkDialog (values d) (model_name d) (pricingMode d) (by_price d) (advancedOpen d) (promptPrice d) (completionPrice d) e rules
  end.

Definition run (d : Dialog) (es : list Event) : Dialog := foldl handle d es.

(** The editor of tiers is there in its mode, and reports as it opens. *)
Definition settle (d : Dialog) : option Dialog :=
  match pricingMode d with
  | TieredMode =>
      s ← TieredEditor.mount (dialog_expr d) (dialog_rules d) (model_name d);
      let '(e, rules) := TieredEditor.reported s in
      Some (handle d (Reported e rules))
  | _ => Some d
  end.

Definition closed : Dialog := load None (mkDialog (λ _, []) [] TokenMode false false [] [] [] []).

(** A row of the table is opened, the dialog is edited and saved. *)
Definition edit_model (settings : ModelPricingSettings) (n : jsstr) (before : Dialog) (edits : list Event) : option ModelPricingSettings :=
  row ← row_of (parseModelPricingMaps settings) n;
  d ← settle (load (Some (handleEdit row)) before);
  data ← handleSubmit (run d edits);
  handleSave data settings.

(** ** What a save leaves *)

(** The entry of the saved model in the map of a key. *)
Definition number_entry (value : jsstr) : option json :=
  let parsed := parseFloat value in
  if nonempty value && num_is_finite parsed then Some (JNum parsed) else None.

Definition saved_entry (data : ModelRatioData) (k : ModelPricingOptionKey) : option json :=
  let number := number_entry (data_texts data k) in
  match data_mode data, k with
  | TieredMode, BillingMode => if nonempty (combined_expr data) then Some (JStr (js "tiered_expr")) else None
  | TieredMode, BillingExpr => if nonempty (combined_expr data) then Some (JStr (combined_expr data)) else None
  | TieredMode, _ => number
  | _, (BillingMode | BillingExpr) => None
  | _, ModelPrice => number
  | _, _ => if nonempty (data_texts data ModelPrice) then None else number
  end.

Lemma setIfPresent_get n value target m :
  obj_get m (setIfPresent n value (obj_delete n target)) = if decide (m = n) then number_entry value else obj_get m target.
Proof.
  unfold setIfPresent, number_entry. destruct value as [|c s]; cbn [nonempty andb].
  - rewrite obj_get_delete. by case_decide.
  - destruct (num_is_finite _); [rewrite obj_get_set|]; rewrite obj_get_delete; by case_decide.
Qed.

Lemma written_get data k target m :
  obj_get m (written data k (obj_delete (name data) target)) =
  if decide (m = name data) then saved_entry data k else obj_get m target.
Proof.
  unfold written, saved_entry. pose proof (setIfPresent_get (name data) (data_texts data k) target m) as Hs.
  assert (∀ v, obj_get m (obj_set (name data) v (obj_delete (name data) target)) =
    if decide (m = name data) then Some v else obj_get m target) as Hv.
  { intros v. rewrite obj_get_set, obj_get_delete. by case_decide. }
  pose proof (obj_get_delete m (name data) target) as Hd.
  destruct (data_mode data), k; try (destruct (data_texts data ModelPrice) eqn:Ep); cbn [nonempty];
    repeat (rewrite decide_True by (apply (bool_decide_unpack _); by vm_compute));
    repeat (rewrite decide_False by (apply (bool_decide_unpack _); by vm_compute)).
  all: try (rewrite Hs; unfold number_entry; rewrite ?Ep; reflexivity).
  all: try (rewrite Hd; reflexivity).
  all: destruct (nonempty (combined_expr data)); [apply Hv|exact Hd].
Qed.

(** ** The texts of the settings *)

Lemma object_text o : ∃ u, JSON_stringify_2 (JObj o) = js "{" ++ u ++ js "}".
Proof.
  destruct o as [|kv o]; [by exists []|]. unfold JSON_stringify_2. cbn [stringify_ind].
  exists (join (js ",") (map (λ kv, NL :: (js "  " ++ []) ++ quote kv.1 ++ js ": " ++ stringify_ind (js "  " ++ []) kv.2) (kv :: o)) ++ [NL]).
  by rewrite <- app_assoc.
Qed.

Lemma object_read o : json_wf (JObj o) → parseNumberMap (JSON_stringify_2 (JObj o)) = JObj o.
Proof.
  intros Hw. destruct (object_text o) as [u E].
  assert (trim (JSON_stringify_2 (JObj o)) = JSON_stringify_2 (JObj o)) as Ht.
  { apply trimmed_iff. rewrite E. split; [done|]. unfold last_nws. by rewrite app_assoc, reverse_app. }
  unfold parseNumberMap, JsonParser.safeJsonParse, JsonParser.blank. rewrite Ht.
  assert (nonempty (JSON_stringify_2 (JObj o)) = true) as -> by by rewrite E.
  cbn [negb opt_or]. by rewrite Ht, JSON_roundtrip_2.
Qed.

(** The entry of a model in the text of a setting. *)
Definition entry (settings : ModelPricingSettings) (k : ModelPricingOptionKey) (n : jsstr) : option json :=
  obj_get n (spread (parseNumberMap (settings k))).

Lemma maps_of_spec settings maps k : maps_of settings = Some maps → parseNumberMap (settings k) = JObj (maps k).
Proof.
  unfold maps_of. destruct (forallb _ _) eqn:E; [|done]. intros [= <-]. rewrite forallb_forall in E.
  specialize (E k (proj1 (list_elem_of_In _ _) (all_keys_in k))). unfold parseModelPricingMaps in *.
  by destruct (parseNumberMap (settings k)).
Qed.

Definition NUMBER_KEYS : list ModelPricingOptionKey := ModelPrice :: RATIO_KEYS.

(** The numbers of the form can be written as JSON. *)
Definition data_wf (data : ModelRatioData) : Prop :=
  is_utf16 (name data) ∧ is_utf16 (combined_expr data) ∧
  ∀ k, k ∈ NUMBER_KEYS → num_is_finite (parseFloat (data_texts data k)) = true → json_wf (JNum (parseFloat (data_texts data k))).

Lemma number_keys k : k = BillingMode ∨ k = BillingExpr ∨ k ∈ NUMBER_KEYS.
Proof. destruct k; auto; right; right; apply (bool_decide_unpack _); by vm_compute. Qed.

Lemma written_wf data k m : data_wf data → json_wf (JObj m) → json_wf (JObj (written data k m)).
Proof.
  intros (Hn & He & Hd) Hm.
  assert (k ∈ NUMBER_KEYS → json_wf (JObj (setIfPresent (name data) (data_texts data k) m))) as Hs.
  { intros Hk. unfold setIfPresent. specialize (Hd k Hk). destruct (data_texts data k); [done|].
    destruct (num_is_finite _); [|done]. by apply wf_set; [|apply Hd|]. }
  assert (∀ v, is_utf16 v → json_wf (JObj (obj_set (name data) (JStr v) m))) as Hv
    by (intros v Hv; apply wf_set; [done|by constructor|done]).
  assert (nonempty (combined_expr data) = true ∨ nonempty (combined_expr data) = false) as Hc by (destruct (nonempty _); auto).
  unfold written. destruct (number_keys k) as [->|[->|Hk]].
  - destruct (data_mode data);
      [by destruct (nonempty (data_texts data ModelPrice)); rewrite decide_False by (apply (bool_decide_unpack _); by vm_compute)..|]. destruct Hc as [-> | ->]; [by apply Hv, is_utf16_js|done].
  - destruct (data_mode data);
      [by destruct (nonempty (data_texts data ModelPrice)); rewrite decide_False by (apply (bool_decide_unpack _); by vm_compute)..|]. destruct Hc as [-> | ->]; [by apply Hv|done].
  - specialize (Hs Hk). destruct (data_mode data); [by repeat case_match..|]. destruct k; try done.
    all: exfalso; revert Hk; apply (bool_decide_unpack _); by vm_compute.
Qed.

(** What a save leaves in the settings: the entries of the saved model are those
    of its mode, and every other entry of every setting is untouched. *)
Lemma save_entry data settings settings' maps :
  maps_of settings = Some maps → (∀ k, json_wf (JObj (maps k))) → data_wf data →
  handleSave data settings = Some settings' →
  ∀ k n, entry settings' k n = if decide (n = name data) then saved_entry data k else entry settings k n.
Proof.
  intros Hm Hw Hd. unfold handleSave. rewrite Hm. cbn [mbind option_bind]. intros [= <-] k n.
  unfold entry, texts_for. rewrite (maps_of_spec settings maps k Hm).
  rewrite object_read by (apply written_wf; [done|]; by apply wf_delete). apply written_get.
Qed.

Lemma delete_entry n settings settings' maps :
  maps_of settings = Some maps → (∀ k, json_wf (JObj (maps k))) → handleDelete n settings = Some settings' →
  ∀ k m, entry settings' k m = if decide (m = n) then None else entry settings k m.
Proof.
  intros Hm Hw. unfold handleDelete. rewrite Hm. cbn [mbind option_bind]. intros [= <-] k m.
  unfold entry, texts_for. rewrite (maps_of_spec settings maps k Hm).
  rewrite object_read by (by apply wf_delete). apply obj_get_delete.
Qed.

(** Outside of tiers the mode that was chosen does not count: a price decides. *)
Lemma mode_ignored data m settings :
  data_mode data ≠ TieredMode → m ≠ TieredMode →
  handleSave (mkData (name data) m (data_texts data) (data_expr data) (data_rules data)) settings =
  handleSave data settings.
Proof. intros H1 H2. unfold handleSave, written. destruct data as [n [] t e r], m; done. Qed.

(** Saving a model in the dialog writes exactly its entries: for a price in
    tiers the expression put together, its mode and the numbers that remain as
    a fallback, otherwise the price alone if there is one, else the ratios, each
    as the number its text begins with; what is empty is removed, and no entry
    of another model changes, in none of the ten settings.  Deleting a model
    removes its entries and no others. *)
Theorem model_save_spec settings maps data :
  maps_of settings = Some maps → (∀ k, json_wf (JObj (maps k))) → data_wf data →
  (∃ settings', handleSave data settings = Some settings' ∧
    ∀ k n, entry settings' k n = if decide (n = name data) then saved_entry data k else entry settings k n) ∧
  (∃ settings', handleDelete (name data) settings = Some settings' ∧
    ∀ k n, entry settings' k n = if decide (n = name data) then None else entry settings k n).
Proof.
  intros Hm Hw Hd. split.
  - destruct (handleSave data settings) as [settings'|] eqn:E; [|unfold handleSave in E; by rewrite Hm in E].
    exists settings'. split; [done|]. by eapply save_entry.
  - destruct (handleDelete (name data) settings) as [settings'|] eqn:E; [|unfold handleDelete in E; by rewrite Hm in E].
    exists settings'. split; [done|]. by eapply delete_entry.
Qed.

(** ** Opening and saving without an edit *)

(** An entry that is printed and read as the same number. *)
Definition kept (v : option json) : Prop :=
  v = None ∨ ∃ x, v = Some (JNum x) ∧ num_is_finite x = true ∧ num_to_string x ≠ [] ∧ parseFloat (num_to_string x) = x.

Lemma kept_entry v : kept v → number_entry (text_of v) = v.
Proof.
  intros [->|(x & -> & Hf & Hn & Hp)]; [done|]. unfold number_entry. cbn [text_of json_to_string]. rewrite Hp, Hf.
  by destruct (num_to_string x).
Qed.

Lemma kept_nonempty v : kept v → nonempty (text_of v) = true ↔ v ≠ None.
Proof. intros [->|(x & -> & _ & Hn & _)]; [done|]. cbn. by destruct (num_to_string x). Qed.

Section Untouched.
Context (settings : ModelPricingSettings) (maps : Maps) (n : jsstr) (before : Dialog).
Context (Hmaps : maps_of settings = Some maps) (Hwf : ∀ k, json_wf (JObj (maps k))).
Context (Hn : n ≠ []) (Hu : is_utf16 n) (Hkept : Forall (λ k, kept (entry settings k n)) NUMBER_KEYS).

Lemma prop_entry k m : json_prop (parseModelPricingMaps settings k) m = entry settings k m.
Proof. unfold entry, parseModelPricingMaps. by rewrite (maps_of_spec settings maps k Hmaps). Qed.

Lemma texts_entry k : texts_of (parseModelPricingMaps settings) n k = text_of (entry settings k n).
Proof. unfold texts_of. by rewrite prop_entry. Qed.

Lemma entry_map k m : entry settings k m = obj_get m (maps k).
Proof. unfold entry. by rewrite (maps_of_spec settings maps k Hmaps). Qed.

Lemma kept_wf k :
  k ∈ NUMBER_KEYS → num_is_finite (parseFloat (text_of (entry settings k n))) = true →
  json_wf (JNum (parseFloat (text_of (entry settings k n)))).
Proof.
  intros Hk. pose proof (proj1 (Forall_forall _ _) Hkept k Hk) as [E|(x & E & _ & _ & Hp)]; rewrite E; [done|].
  cbn [text_of json_to_string]. rewrite Hp. intros _. apply (wf_get n (maps k)); [apply Hwf|]. by rewrite <- entry_map.
Qed.

(** Data that hold the entries of the model leave every entry as it is. *)
Lemma resave data :
  name data = n → is_utf16 (combined_expr data) →
  (∀ k, k ∈ NUMBER_KEYS → num_is_finite (parseFloat (data_texts data k)) = true → json_wf (JNum (parseFloat (data_texts data k)))) →
  (∀ k, saved_entry data k = entry settings k n) →
  ∃ settings', handleSave data settings = Some settings' ∧ ∀ k m, entry settings' k m = entry settings k m.
Proof.
  intros <- He Hd Hs. destruct (handleSave data settings) as [settings'|] eqn:E; [|unfold handleSave in E; by rewrite Hmaps in E].
  exists settings'. split; [done|]. intros k m. rewrite (save_entry data settings settings' maps) by done.
  case_decide; [|done]. by subst.
Qed.

(** A model priced by request or by ratios, and not by both. *)
Lemma untouched_plain :
  entry settings BillingMode n = None → entry settings BillingExpr n = None →
  (entry settings ModelPrice n = None ∨ Forall (λ k, entry settings k n = None) RATIO_KEYS) →
  ∃ settings', edit_model settings n before [] = Some settings' ∧ ∀ k m, entry settings' k m = entry settings k m.
Proof.
  intros Hmode Hexpr Hone. set (t := texts_of (parseModelPricingMaps settings) n).
  assert (∃ md, md ≠ TieredMode ∧ ∀ d, edit_model settings n before [] = Some d ↔
    handleSave (mkData n md t [] []) settings = Some d) as (md & Hmd & Heq).
  { unfold edit_model, row_of. rewrite prop_entry, Hmode, bool_decide_false by done. cbn [mbind option_bind].
    unfold handleEdit. fold t. cbn [row_mode row_name row_texts row_expr row_rules opt_or].
    unfold load. cbn [data_mode data_texts name data_expr data_rules].
    destruct (nonempty (t ModelPrice)) eqn:Ep; cbn [settle pricingMode mbind option_bind].
    - exists RequestMode. split; [done|]. intros d. unfold handleSubmit, run. cbn [foldl model_name pricingMode values]. by destruct n.
    - exists TokenMode. split; [done|]. intros d. destruct (t ModelRatio) eqn:Er; cbn [settle pricingMode mbind option_bind];
        unfold handleSubmit, run; cbn [foldl model_name pricingMode values]; by destruct n. }
  destruct (resave (mkData n md t [] [])) as (s' & Hs & He); [done|exact (is_utf16_js "")| | |exists s'; split; [by apply Heq|done]].
  - intros k Hk. cbn [data_texts]. unfold t. rewrite texts_entry. by apply kept_wf.
  - intros k. unfold saved_entry. cbn [data_texts data_mode].
    assert (∀ k, k ∈ NUMBER_KEYS → number_entry (t k) = entry settings k n) as Hnum.
    { intros k' Hk'. unfold t. rewrite texts_entry. apply kept_entry. by eapply Forall_forall in Hkept. }
    assert (nonempty (t ModelPrice) = true ↔ entry settings ModelPrice n ≠ None) as Hp.
    { unfold t. rewrite texts_entry. apply kept_nonempty. eapply Forall_forall in Hkept; [exact Hkept|by left]. }
    destruct (number_keys k) as [->|[->|Hk]]; [by rewrite Hmode; destruct md|by rewrite Hexpr; destruct md|]. rewrite Hnum by done.
    destruct (nonempty (t ModelPrice)); [|by destruct md, k].
    destruct Hone as [Hone|Hone]; [by destruct (proj1 Hp eq_refl)|].
    assert (k = ModelPrice ∨ entry settings k n = None) as [->|Hk'].
    { unfold NUMBER_KEYS in Hk. apply elem_of_cons in Hk as [?|Hk]; [by left|right]. by eapply Forall_forall in Hone. }
    { by destruct md. }
    by destruct md, k.
Qed.

(** A model priced in tiers, which its editor shows. *)
Lemma untouched_tiered ts gs :
  entry settings BillingMode n = Some (JStr (js "tiered_expr")) →
  entry settings BillingExpr n = Some (JStr (saved_price ts gs)) →
  editable ts → price_ok ts gs →
  ∃ settings', edit_model settings n before [] = Some settings' ∧ ∀ k m, entry settings' k m = entry settings k m.
Proof.
  intros Hmode Hexpr Hts Hok. set (t := texts_of (parseModelPricingMaps settings) n).
  set (E := generateExprFromVisualConfig (Some ts)). set (R := buildRequestRuleExpr gs).
  pose proof (saved_nonempty ts gs Hok) as Hne.
  assert (edit_model settings n before [] = handleSave (mkData n TieredMode t E R) settings) as ->.
  { unfold edit_model, row_of. rewrite prop_entry, Hmode, bool_decide_true by done.
    unfold full_expr. rewrite prop_entry, Hexpr. cbn [json_truthy].
    assert (nonempty (saved_price ts gs) = true) as -> by by destruct (saved_price ts gs).
    cbn [mbind option_bind]. rewrite split_saved by done. cbn [mbind option_bind billingExpr requestRuleExpr].
    unfold handleEdit. fold t. cbn [row_mode row_name row_texts row_expr row_rules opt_or].
    unfold load. cbn [data_mode data_texts name data_expr data_rules]. unfold settle. cbn [pricingMode dialog_expr dialog_rules model_name].
    rewrite TieredEditor.mount_saved by done. cbn [mbind option_bind TieredEditor.reported TieredEditor.saved_state
      TieredEditor.currentExpr TieredEditor.currentRequestRuleExpr handle].
    unfold handleSubmit, run. cbn [foldl model_name pricingMode values dialog_expr dialog_rules].
    rewrite bool_decide_true by done. by destruct n. }
  assert (combined_expr (mkData n TieredMode t E R) = saved_price ts gs) as Hc by done.
  apply resave; [done|rewrite Hc| |].
  - assert (json_wf (JStr (saved_price ts gs))) as Hj by (apply (wf_get n (maps BillingExpr)); [apply Hwf|by rewrite <- entry_map]).
    by inversion Hj.
  - intros k Hk. cbn [data_texts]. unfold t. rewrite texts_entry. by apply kept_wf.
  - intros k. unfold saved_entry. rewrite Hc. cbn [data_texts data_mode].
    assert (nonempty (saved_price ts gs) = true) as -> by by destruct (saved_price ts gs).
    destruct (number_keys k) as [->|[->|Hk]]; [by rewrite Hmode|by rewrite Hexpr|].
    assert (number_entry (t k) = entry settings k n) as Hnum.
    { unfold t. rewrite texts_entry. apply kept_entry. by eapply Forall_forall in Hkept. }
    destruct k; try exact Hnum; exfalso; revert Hk; apply (bool_decide_unpack _); by vm_compute.
Qed.

End Untouched.

(** C22: opening a model in the dialog and saving it without an edit changes no
    entry of any of the ten settings, whatever the dialog showed before: a model
    with a price or with ratios, but not both, whose numbers are read as they
    are printed, and a model priced in tiers and rules that the editor of tiers
    shows, which reports them as it opens. *)
Theorem untouched_save settings maps n before :
  maps_of settings = Some maps → (∀ k, json_wf (JObj (maps k))) → n ≠ [] → is_utf16 n →
  Forall (λ k, kept (entry settings k n)) NUMBER_KEYS →
  (entry settings BillingMode n = None ∧ entry settings BillingExpr n = None ∧
   (entry settings ModelPrice n = None ∨ Forall (λ k, entry settings k n = None) RATIO_KEYS)) ∨
  (∃ ts gs, entry settings BillingMode n = Some (JStr (js "tiered_expr")) ∧
     entry settings BillingExpr n = Some (JStr (saved_price ts gs)) ∧ editable ts ∧ price_ok ts gs) →
  ∃ settings', edit_model settings n before [] = Some settings' ∧ ∀ k m, entry settings' k m = entry settings k m.
Proof.
  intros Hm Hw Hn Hu Hk [(H1 & H2 & H3)|(ts & gs & H1 & H2 & H3 & H4)].
  - by eapply untouched_plain.
  - by eapply untouched_tiered.
Qed.

(** Two models: one of tiers, with a ratio as its fallback, one with a ratio. *)
Definition sample_maps : Maps := λ k,
  match k with
  | ModelRatio => [(js "a", JNum (num_of_Z 2)); (js "b", JNum (Number (js "0.5")))]
  | BillingMode => [(js "a", JStr (js "tiered_expr"))]
  | BillingExpr => [(js "a", JStr (saved_price sample_tiers [night_group]))]
  | _ => []
  end.
Definition sample_settings : ModelPricingSettings := texts_for sample_maps.

Lemma sample_wf k : json_wf (JObj (sample_maps k)).
Proof. apply json_wfb_sound. by destruct k; vm_compute. Qed.

Lemma sample_entry k m : entry sample_settings k m = obj_get m (sample_maps k).
Proof. unfold entry, sample_settings, texts_for. by rewrite object_read by apply sample_wf. Qed.

Lemma sample_maps_of : ∃ maps, maps_of sample_settings = Some maps ∧ ∀ k, maps k = sample_maps k.
Proof.
  unfold maps_of. assert (∀ k, parseModelPricingMaps sample_settings k = JObj (sample_maps k)) as H
    by (intros k; apply object_read, sample_wf).
  rewrite (proj2 (forallb_forall _ _)) by (intros k _; by rewrite H). eexists. split; [done|]. intros k. cbv beta. by rewrite H.
Qed.

Lemma sample_kept : Forall (λ k, kept (entry sample_settings k (js "a"))) NUMBER_KEYS.
Proof.
  repeat (apply Forall_cons; split); [..|constructor]; rewrite sample_entry; try (by left).
  right. exists (num_of_Z 2). split; [done|]. split; [by vm_compute|]. split; [discriminate|by vm_compute].
Qed.

Lemma untouched_save_witness :
  ∃ settings', edit_model sample_settings (js "a") closed [] = Some settings' ∧
    entry settings' BillingExpr (js "a") = Some (JStr (saved_price sample_tiers [night_group])) ∧
    entry settings' ModelRatio (js "b") = Some (JNum (Number (js "0.5"))).
Proof.
  destruct sample_maps_of as (maps & Hm & Hs).
  destruct (untouched_save sample_settings maps (js "a") closed Hm) as (s' & H1 & H2).
  - intros k. rewrite Hs. apply sample_wf.
  - discriminate.
  - apply is_utf16_js.
  - apply sample_kept.
  - right. exists sample_tiers, [night_group].
    split; [by rewrite sample_entry|split; [by rewrite sample_entry|split; [apply sample_editable|apply sample_price_ok]]].
  - exists s'. rewrite !H2, !sample_entry. split; [exact H1|]. split; reflexivity.
Defined.

Lemma model_save_spec_witness :
  let data := mkData (js "b") RequestMode (λ k, match k with ModelPrice => js "3" | _ => js "7" end) [] [] in
  ∃ settings', handleSave data sample_settings = Some settings' ∧
    entry settings' ModelPrice (js "b") = Some (JNum (parseFloat (js "3"))) ∧ entry settings' ModelRatio (js "b") = None ∧
    entry settings' ModelRatio (js "a") = Some (JNum (num_of_Z 2)).
Proof.
  intros data. destruct sample_maps_of as (maps & Hm & Hs).
  destruct (model_save_spec sample_settings maps data Hm) as [(s' & H1 & H2) _].
  - intros k. rewrite Hs. apply sample_wf.
  - split; [apply is_utf16_js|]. split; [exact (is_utf16_js "")|]. intros k _ _. apply json_wfb_sound. destruct k; by vm_compute.
  - exists s'. rewrite !H2, !sample_entry. split; [exact H1|]. split; [|split]; by vm_compute.
Defined.

(** ** Where the dialog misleads *)

(** A model priced by request, set to ratios in the dialog and given one: the
    hidden price is saved again, and the ratio is not. *)
Example switch_ignored :
  let settings := texts_for (λ k, match k with ModelPrice => [(js "m", JNum (num_of_Z 3))] | _ => [] end) in
  (λ s, (entry s ModelPrice (js "m"), entry s ModelRatio (js "m"))) <$>
    edit_model settings (js "m") closed [ModeRadio TokenMode; Ratio (js "2")] =
  Some (Some (JNum (num_of_Z 3)), None).
Proof. by vm_compute. Qed.

(** With prices, the ratio of the completion follows the price it was computed
    from: after another prompt price the dialog shows 8, and 16 is saved. *)
Example stale_completion :
  let d := run closed [SubModeRadio true; PromptPrice (js "2"); CompletionPrice (js "8"); PromptPrice (js "4")] in
  completionPrice d = js "8" ∧
  num_mul (num_mul (parseFloat (values d ModelRatio)) two) (parseFloat (values d CompletionRatio)) = num_of_Z 16.
Proof. by vm_compute. Qed.

(** The prices of the model that was opened before are shown for one without. *)
Example prices_of_another :
  let texts r c : Texts := λ k, match k with ModelRatio => js r | CompletionRatio => js c | _ => [] end in
  let opened := load (Some (mkData (js "a") TokenMode (texts "1.5"%string "4"%string) [] [])) closed in
  let next := load (Some (mkData (js "b") TokenMode (texts ""%string ""%string) [] [])) opened in
  (promptPrice next, completionPrice next) = (js "3", js "12").
Proof. by vm_compute. Qed.

(** An expression that the editor of tiers cannot show: opened and saved, the
    model is free. *)
Example saved_for_nothing :
  let settings := texts_for (λ k,
    match k with
    | BillingMode => [(js "m", JStr (js "tiered_expr"))]
    | BillingExpr => [(js "m", JStr (jq "max(tier(`a`, p * 2), 5)"))]
    | _ => []
    end) in
  (λ s, entry s BillingExpr (js "m")) <$> edit_model settings (js "m") closed [] = Some (Some (JStr FREE)).
Proof. by vm_compute. Qed.

End RatioEditor.
