(* ===== verification/SettingsForm.v ===== *)
(** * The forms of the system settings

    [features/system-settings/hooks/use-settings-form.ts]: Module [DotPaths]
    is its functions between nested values and keys with dots, Module
    [SettingsForm] the state of the hook and the sections that use it
    ([general/quota-settings-section.tsx], [general/pricing-section.tsx],
    [general/system-info-section.tsx], [maintenance/performance-section.tsx]).

    Values are [json]; the dialog library (react-hook-form) and the schema are
    parameters, with what the hook relies on as hypotheses. *)
From S2P Require Import Prelude JSString JSNumber JSON.

(** ** Nested values and keys with dots *)

Module DotPaths.

Definition DOTS : jsstr := [DOT].

Definition isPlainObject (value : json) : bool :=
  match value with JObj _ => true | _ => false end.

(** [parentKey ? parentKey + '.' + key : key] *)
Definition nextKey (parentKey : option jsstr) (key : jsstr) : jsstr :=
  match parentKey with
  | Some (c :: p) => (c :: p) ++ DOTS ++ key
  | _ => key
  end.

Fixpoint flattenValues (values : json) (parentKey : option jsstr) (result : obj json) : obj json :=
  match values with
  | JObj o =>
      (fix each (o : obj json) (result : obj json) : obj json :=
        match o with
        | [] => result
        | (key, value) :: o =>
            let next := nextKey parentKey key in
            each o (if isPlainObject value then flattenValues value (Some next) result
                    else obj_set next value result)
        end) o result
  | _ => match parentKey with Some p => obj_set p values result | None => result end
  end.

(** [values && (isPlainObject(values) || Array.isArray(values)) ? values[key]
    : undefined], for a key that is not [length]. *)
Definition source_of (values : option json) (key : jsstr) : option json :=
  match values with
  | Some (JObj o) => obj_get key o
  | Some (JArr l) => match key_index key with Some i => l !! N.to_nat i | None => None end
  | _ => None
  end.

(** [Object.entries(dirtyFields)] goes through an array by its indices. *)
Fixpoint collectDirtyValues (dirtyFields : json) (values : option json) (parentKey : option jsstr)
    (result : obj (option json)) : obj (option json) :=
  let visit key value result :=
    match value with
    | JBool true => obj_set (nextKey parentKey key) (source_of values key) result
    | JObj _ | JArr _ => collectDirtyValues value (source_of values key) (Some (nextKey parentKey key)) result
    | _ => result
    end in
  match dirtyFields with
  | JBool true => match parentKey with Some p => obj_set p values result | None => result end
  | JObj o =>
      (fix each (o : obj json) result := match o with
        | [] => result
        | (key, value) :: o => each o (visit key value result) end) o result
  | JArr l =>
      (fix each (i : N) (l : list json) result := match l with
        | [] => result
        | value :: l => each (i + 1)%N l (visit (string_of_N i) value result) end) 0%N l result
  | _ => result
  end.

(** The objects on the way are those of the result, which is new; a value
    stored under a key with dots is not copied, and is not read again. *)
Fixpoint setDeepValue (target : obj json) (segments : list jsstr) (value : json) : obj json :=
  match segments with
  | [] => target
  | [segment] => obj_set segment value target
  | segment :: rest =>
      let next := match obj_get segment target with Some (JObj next) => next | _ => [] end in
      obj_set segment (JObj (setDeepValue next rest value)) target
  end.

Fixpoint expandDotPaths (values : json) : json :=
  match values with
  | JObj o =>
      JObj ((fix each (o : obj json) (result : obj json) : obj json :=
        match o with
        | [] => result
        | (key, value) :: o =>
            each o (if includes DOTS key then setDeepValue result (split_on DOT key) value
                    else obj_set key (if isPlainObject value then expandDotPaths value else value) result)
        end) o [])
  | _ => values
  end.

Example expand_1 :
  expandDotPaths (JObj [(js "a.x", JNum (num_of_Z 1)); (js "b", JBool true); (js "a.y.z", JStr (js "t"))])
  = JObj [(js "a", JObj [(js "x", JNum (num_of_Z 1)); (js "y", JObj [(js "z", JStr (js "t"))])]); (js "b", JBool true)].
Proof. vm_compute. reflexivity. Qed.

(** An array that was marked element by element is sent element by element,
    under keys the settings do not have. *)
Example array_keys :
  collectDirtyValues (JObj [(js "groups", JArr [JBool false; JBool true])])
    (Some (JObj [(js "groups", JArr [JStr (js "a"); JStr (js "b")])])) None []
  = [(js "groups.1", Some (JStr (js "b")))].
Proof. vm_compute. reflexivity. Qed.

(** *** Paths *)

Fixpoint get_path (v : json) (p : list jsstr) : option json :=
  match p with
  | [] => Some v
  | s :: p =>
      match v with
      | JObj o => match obj_get s o with Some w => get_path w p | None => None end
      | _ => None
      end
  end.

(** The leaves of a value, with their paths, in the order of the walks. *)
Fixpoint leaves (v : json) : list (list jsstr * json) :=
  match v with
  | JObj o =>
      (fix each (o : obj json) := match o with
        | [] => []
        | (k, w) :: o => map (λ pw, (k :: pw.1, pw.2)) (leaves w) ++ each o end) o
  | _ => [([], v)]
  end.

Definition key_of (p : list jsstr) : jsstr := join DOTS p.

(** A name of a field: not empty and without a dot. *)
Definition segment (k : jsstr) : Prop := k ≠ [] ∧ DOT ∉ k.

Inductive clean : json → Prop :=
  | clean_leaf v : isPlainObject v = false → clean v
  | clean_obj o : NoDup (obj_keys o) → Forall segment (obj_keys o) →
      Forall (λ kv, clean kv.2) o → clean (JObj o).

(** The name of a leaf below a key. *)
Definition full (parentKey : option jsstr) (p : list jsstr) : jsstr :=
  match parentKey with Some q => key_of (q :: p) | None => key_of p end.

Definition entries_of (parentKey : option jsstr) (l : list (list jsstr * json)) : obj json :=
  map (λ pw, (full parentKey pw.1, pw.2)) l.

(** *** Walking a value *)

Lemma clean_inv o :
  clean (JObj o) → NoDup (obj_keys o) ∧ Forall segment (obj_keys o) ∧ Forall (λ kv, clean kv.2) o.
Proof. by inversion 1. Qed.

Lemma clean_empty : clean (JObj []).
Proof. apply clean_obj; constructor. Qed.

Lemma clean_get o k v : clean (JObj o) → obj_get k o = Some v → clean v.
Proof.
  intros (_ & _ & Ho)%clean_inv Hg%obj_get_Some_mem. rewrite Forall_forall in Ho. by apply (Ho (k, v)).
Qed.

Lemma clean_cons k w o :
  clean (JObj ((k, w) :: o)) → segment k ∧ k ∉ obj_keys o ∧ clean w ∧ clean (JObj o).
Proof.
  intros (Hn & Hs & Hc)%clean_inv. apply NoDup_cons in Hn as [Hk Hn].
  apply Forall_cons in Hs as [Hk' Hs]. apply Forall_cons in Hc as [Hw Hc].
  split_and!; [done..|]. by constructor.
Qed.

Lemma leaves_leaf v : isPlainObject v = false → leaves v = [([], v)].
Proof. by destruct v. Qed.

Lemma leaves_cons k w o :
  leaves (JObj ((k, w) :: o)) = map (λ pw, (k :: pw.1, pw.2)) (leaves w) ++ leaves (JObj o).
Proof. done. Qed.

Lemma leaves_path o p x : (p, x) ∈ leaves (JObj o) → p ≠ [].
Proof.
  induction o as [|[k w] o IH]; [by intros ?%not_elem_of_nil|].
  rewrite leaves_cons, elem_of_app. intros [([q y] & [= -> ->] & _)%list_elem_of_fmap|]; auto.
Qed.

Lemma full_next parentKey k p :
  k ≠ [] → parentKey ≠ Some [] → full (Some (nextKey parentKey k)) p = full parentKey (k :: p).
Proof.
  intros Hk Hp. destruct parentKey as [[|c q]|]; [done| |done].
  unfold full, nextKey, key_of. destruct p as [|s p]; [done|].
  change (join DOTS (((c :: q) ++ DOTS ++ k) :: s :: p)) with (((c :: q) ++ DOTS ++ k) ++ DOTS ++ join DOTS (s :: p)).
  change (join DOTS ((c :: q) :: k :: s :: p)) with ((c :: q) ++ DOTS ++ k ++ DOTS ++ join DOTS (s :: p)).
  by rewrite <- !app_assoc.
Qed.

Lemma nextKey_nonempty parentKey k : k ≠ [] → nextKey parentKey k ≠ [].
Proof. destruct parentKey as [[|c p]|]; done. Qed.

Lemma entries_cons parentKey k l :
  k ≠ [] → parentKey ≠ Some [] →
  entries_of (Some (nextKey parentKey k)) l = entries_of parentKey (map (λ pw, (k :: pw.1, pw.2)) l).
Proof.
  intros Hk Hp. unfold entries_of. rewrite map_map. apply map_ext. intros [p x]. cbn [fst snd]. by rewrite full_next.
Qed.

Lemma entries_app parentKey l1 l2 :
  entries_of parentKey (l1 ++ l2) = entries_of parentKey l1 ++ entries_of parentKey l2.
Proof. apply map_app. Qed.

Lemma obj_assign_app {V} (r o p : obj V) : obj_assign r (o ++ p) = obj_assign (obj_assign r o) p.
Proof. unfold obj_assign. by rewrite foldl_app. Qed.

(** The loop over the entries of an object, as a function of its own. *)
Definition flatten_each (parentKey : option jsstr) : obj json → obj json → obj json :=
  fix each (o : obj json) (result : obj json) : obj json :=
    match o with
    | [] => result
    | (key, value) :: o =>
        let next := nextKey parentKey key in
        each o (if isPlainObject value then flattenValues value (Some next) result
                else obj_set next value result)
    end.

Lemma flatten_obj o parentKey result : flattenValues (JObj o) parentKey result = flatten_each parentKey o result.
Proof. done. Qed.

(** The flat object holds the leaves under the names of their paths. *)
Lemma flatten_leaves v parentKey result :
  clean v → parentKey ≠ Some [] → (parentKey = None → isPlainObject v = true) →
  flattenValues v parentKey result = obj_assign result (entries_of parentKey (leaves v)).
Proof.
  revert parentKey result. induction v as [| | | | |o IH] using json_ind'; intros pk r Hc Hp Hn;
    try (destruct pk; [done|by specialize (Hn eq_refl)]).
  clear Hn. rewrite flatten_obj. revert r Hc. induction IH as [|[k w] o IHw _ IHo]; intros r Hc; [done|].
  apply clean_cons in Hc as ([Hk _] & _ & Hw & Ho). simpl in IHw.
  rewrite leaves_cons, entries_app, obj_assign_app.
  cbn [flatten_each]. fold (flatten_each pk).
  rewrite IHo by done. f_equal. rewrite <- entries_cons by done.
  destruct (isPlainObject w) eqn:E; [|by rewrite leaves_leaf].
  apply IHw; [done| |done]. intros [= H]. by eapply nextKey_nonempty.
Qed.

Lemma elem_of_leaves v p x :
  clean v → (p, x) ∈ leaves v ↔ get_path v p = Some x ∧ isPlainObject x = false.
Proof.
  revert p x. induction v as [| | | | |o IH] using json_ind'; intros p x Hc;
    try (rewrite leaves_leaf, list_elem_of_singleton by done; destruct p; simpl; naive_solver).
  induction IH as [|[k w] o IHw _ IHo].
  { simpl. rewrite elem_of_nil. split; [done|]. destruct p; simpl; [|by intros [??]]. by intros [[= <-] ?]. }
  apply clean_cons in Hc as (_ & Hk & Hw & Ho). rewrite leaves_cons, elem_of_app, IHo, list_elem_of_fmap by done.
  destruct p as [|s p]; simpl.
  { split; [|by intros [[= <-] ?]]. intros [([q y] & [=] & _)|[[= <-] ?]]. done. }
  split.
  - intros [([q y] & [= -> -> ->] & Hq)|[Hg Hx]].
    + rewrite decide_True by done. by apply IHw.
    + destruct (decide (s = k)) as [->|]; [|done]. by apply obj_get_None in Hk as E; rewrite E in Hg.
  - destruct (decide (s = k)) as [->|]; [|by right]. intros H. left. exists (p, x).
    split; [done|]. by apply IHw.
Qed.

Lemma leaves_segments v p x : clean v → (p, x) ∈ leaves v → Forall segment p.
Proof.
  revert p x. induction v as [| | | | |o IH] using json_ind'; intros p x Hc;
    try (rewrite leaves_leaf, list_elem_of_singleton by done; by intros [= -> _]).
  induction IH as [|[k w] o IHw _ IHo]; [by intros ?%not_elem_of_nil|].
  apply clean_cons in Hc as (Hs & _ & Hw & Ho). rewrite leaves_cons, elem_of_app, list_elem_of_fmap.
  intros [([q y] & [= -> ->] & Hq)|?]; [|by apply IHo]. constructor; [done|]. by eapply IHw.
Qed.

Lemma leaves_head o p x : (p, x) ∈ leaves (JObj o) → ∃ k q, p = k :: q ∧ k ∈ obj_keys o.
Proof.
  induction o as [|[k w] o IH]; [by intros ?%not_elem_of_nil|].
  rewrite leaves_cons, elem_of_app, list_elem_of_fmap. intros [([q y] & [= -> ->] & _)|(k' & q & -> & ?)%IH].
  - exists k, q. split; [done|]. by left.
  - exists k', q. split; [done|]. by right.
Qed.

Lemma NoDup_leaves v : clean v → NoDup (leaves v).*1.
Proof.
  induction v as [| | | | |o IH] using json_ind'; intros Hc; try apply NoDup_singleton.
  induction IH as [|[k w] o IHw _ IHo]; [constructor|].
  apply clean_cons in Hc as (_ & Hk & Hw & Ho). rewrite leaves_cons, fmap_app, NoDup_app.
  rewrite <- list_fmap_compose. split_and!; [| |by apply IHo].
  - specialize (IHw Hw). change (NoDup ((λ pw : list jsstr * json, k :: pw.1) <$> leaves w)).
    replace ((λ pw : list jsstr * json, k :: pw.1) <$> leaves w) with ((k ::.) <$> (leaves w).*1)
      by (by rewrite <- list_fmap_compose).
    apply NoDup_fmap_2; [by intros ?? [= ->]|done].
  - intros p ([q x] & -> & Hin)%list_elem_of_fmap ([q' y] & Hq & Hin')%list_elem_of_fmap. simpl in Hq.
    apply leaves_head in Hin' as (k' & r & -> & ?). by simplify_eq.
Qed.

Lemma split_key_of p : p ≠ [] → Forall segment p → split_on DOT (key_of p) = p.
Proof. intros Hp Hs. apply split_join; [done|]. by eapply Forall_impl; [exact Hs|intros ? []]. Qed.

Lemma key_of_split k : key_of (split_on DOT k) = k.
Proof. apply join_split. Qed.

(** The leaf at the end of a path. *)
Definition leaf (v : json) (p : list jsstr) : option json :=
  match get_path v p with
  | Some x => if isPlainObject x then None else Some x
  | None => None
  end.

Lemma leaf_Some v p x : leaf v p = Some x ↔ get_path v p = Some x ∧ isPlainObject x = false.
Proof.
  unfold leaf. destruct (get_path v p) as [y|]; [|split; [done|by intros [? _]]].
  destruct (isPlainObject y) eqn:E; (split; [intros [= <-]|intros [[= <-] ?]]); congruence || done.
Qed.

Lemma fmap_sublist {A B} (f : A → B) (l k : list A) : l `sublist_of` k → f <$> l `sublist_of` f <$> k.
Proof. induction 1; simpl; by constructor. Qed.

Lemma NoDup_entries o (l : list (list jsstr * json)) :
  clean (JObj o) → l `sublist_of` leaves (JObj o) → NoDup (obj_keys (entries_of None l)).
Proof.
  intros Hc Hl. unfold obj_keys, entries_of. rewrite map_map.
  change (NoDup ((λ pw : list jsstr * json, key_of pw.1) <$> l)).
  replace ((λ pw : list jsstr * json, key_of pw.1) <$> l) with (key_of <$> l.*1)
    by (by rewrite <- list_fmap_compose).
  assert (∀ p, p ∈ l.*1 → p ≠ [] ∧ Forall segment p) as Hs.
  { intros p ([q x] & -> & Hin)%list_elem_of_fmap. apply (elem_of_sublist _ _ _ Hin) in Hl as Hin'.
    split; [by eapply leaves_path|by eapply leaves_segments]. }
  apply NoDup_fmap_2_strong.
  - intros p q Hp Hq E. apply Hs in Hp as [Hp Hp']. apply Hs in Hq as [Hq Hq'].
    by rewrite <- (split_key_of p), <- (split_key_of q), E.
  - eapply sublist_NoDup; [by apply NoDup_leaves|]. by apply fmap_sublist.
Qed.

(** What a key reads in a list of leaves. *)
Lemma entries_get o l k x :
  clean (JObj o) → l `sublist_of` leaves (JObj o) →
  obj_get k (entries_of None l) = Some x ↔ (split_on DOT k, x) ∈ l.
Proof.
  intros Hc Hl. split.
  - intros ([p y] & [= -> ->] & Hin)%obj_get_Some_mem%list_elem_of_fmap. simpl.
    pose proof (elem_of_sublist _ _ _ Hin Hl) as Hin'.
    rewrite split_key_of; [done|by eapply leaves_path|by eapply leaves_segments].
  - intros Hin. apply obj_get_mem; [by eapply NoDup_entries|]. apply list_elem_of_fmap.
    exists (split_on DOT k, x). split; [|done]. cbn [fst snd full]. by rewrite key_of_split.
Qed.

Lemma flatten_get_Some o k x :
  clean (JObj o) →
  obj_get k (flattenValues (JObj o) None []) = Some x ↔ leaf (JObj o) (split_on DOT k) = Some x.
Proof.
  intros Hc. rewrite flatten_leaves, obj_get_assign by (done || by eapply NoDup_entries).
  rewrite leaf_Some, <- elem_of_leaves, <- entries_get by done.
  by destruct (obj_get k (entries_of _ _)).
Qed.

(** A key of the flat object reads the leaf at the end of its path. *)
Lemma flatten_get o k :
  clean (JObj o) → obj_get k (flattenValues (JObj o) None []) = leaf (JObj o) (split_on DOT k).
Proof. intros Hc. apply option_eq. intros x. by apply flatten_get_Some. Qed.

(** *** Keys with dots made nested, and flat again *)

Lemma setDeep_cons target s rest value :
  rest ≠ [] →
  setDeepValue target (s :: rest) value =
  obj_set s (JObj (setDeepValue (match obj_get s target with Some (JObj next) => next | _ => [] end) rest value)) target.
Proof. by destruct rest. Qed.

Lemma get_path_nonobj v p : isPlainObject v = false → p ≠ [] → get_path v p = None.
Proof. by destruct v, p. Qed.

(** Below the path that was set. *)
Lemma setDeep_below target p value q :
  p ≠ [] → get_path (JObj (setDeepValue target p value)) (p ++ q) = get_path value q.
Proof.
  revert target. induction p as [|s [|s' p] IH]; intros target Hp; [done| |].
  - simpl. by rewrite obj_get_set_eq.
  - rewrite setDeep_cons by done. cbn [app get_path]. rewrite obj_get_set_eq. by apply (IH _).
Qed.

(** On the way to it. *)
Lemma setDeep_above target p value q r :
  p = q ++ r → r ≠ [] → ∃ o, get_path (JObj (setDeepValue target p value)) q = Some (JObj o).
Proof.
  revert target p. induction q as [|s q IH]; intros target p -> Hr; [eauto|].
  cbn [app]. rewrite setDeep_cons by (by destruct q, r). cbn [get_path].
  rewrite obj_get_set_eq. by apply IH.
Qed.

(** Everywhere else. *)
Lemma setDeep_other target p value q :
  ¬ p `prefix_of` q → ¬ q `prefix_of` p →
  get_path (JObj (setDeepValue target p value)) q = get_path (JObj target) q.
Proof.
  revert target q. induction p as [|s p IH]; intros target q Hp Hq; [destruct Hp; apply prefix_nil|].
  destruct q as [|t q]; [destruct Hq; apply prefix_nil|]. cbn [get_path].
  destruct p as [|s' p].
  { simpl. rewrite obj_get_set_ne; [done|]. intros ->. apply Hp. by exists q. }
  rewrite setDeep_cons by done. rewrite obj_get_set. destruct (decide (t = s)) as [->|]; [|done].
  assert (q ≠ []) as Hne. { intros ->. apply Hq. by exists (s' :: p). }
  rewrite IH.
  - destruct q as [|t q]; [done|]. destruct (obj_get s target) as [w|]; [by destruct w|done].
  - intros H. by apply Hp, prefix_cons.
  - intros H. by apply Hq, prefix_cons.
Qed.

Lemma setDeep_clean target p value :
  p ≠ [] → Forall segment p → clean value → clean (JObj target) → clean (JObj (setDeepValue target p value)).
Proof.
  revert target. induction p as [|s p IH]; intros target Hp Hs Hv Ht; [done|].
  apply Forall_cons in Hs as [Hs Hp']. apply clean_inv in Ht as Ht'. destruct Ht' as (Hn & Hk & Hc).
  assert (∀ w, clean w → clean (JObj (obj_set s w target))) as Hset.
  { intros w Hw. apply clean_obj; [by apply NoDup_keys_set| |by apply Forall_obj_set].
    apply Forall_forall. intros k [->|?]%elem_of_keys_set; [done|]. by eapply (proj1 (Forall_forall _ _)). }
  destruct p as [|s' p]; [by apply Hset|]. rewrite setDeep_cons by done.
  apply Hset, IH; try done. destruct (obj_get s target) as [w|] eqn:E; [|apply clean_empty].
  apply clean_get in E; [|done]. destruct w; done || apply clean_empty.
Qed.

(** The settings of a page: flat, every key a path, no key on the way to
    another one. *)
Record flat_settings (o : obj json) : Prop := {
  flat_nodup : NoDup (obj_keys o);
  flat_leaves : Forall (λ kv, isPlainObject kv.2 = false) o;
  flat_paths : Forall (λ k, Forall (λ s, s ≠ []) (split_on DOT k)) (obj_keys o);
  flat_apart : ∀ k k', k ∈ obj_keys o → k' ∈ obj_keys o →
    split_on DOT k `prefix_of` split_on DOT k' → k = k' }.

Lemma expand_obj o :
  Forall (λ kv, isPlainObject kv.2 = false) o →
  expandDotPaths (JObj o) = JObj (foldl (λ r kv, setDeepValue r (split_on DOT kv.1) kv.2) [] o).
Proof.
  intros H. cbn [expandDotPaths]. f_equal. generalize (@nil (jsstr * json)).
  induction H as [|[k v] o Hv _ IH]; intros r; [done|]. simpl in Hv. cbn [foldl fst snd]. rewrite <- IH.
  f_equal. rewrite Hv. destruct (includes DOTS k) eqn:E; [done|].
  rewrite split_on_none; [done|]. intros (k1 & k2 & ->)%list_elem_of_split.
  assert (includes DOTS (k1 ++ DOT :: k2) = true); [|congruence].
  apply includes_spec. by exists k1, k2.
Qed.

Lemma flat_init o kv : flat_settings (o ++ [kv]) → flat_settings o.
Proof.
  intros [H1 H2 H3 H4]. unfold obj_keys in *. rewrite map_app in *.
  apply NoDup_app in H1 as (H1 & _ & _). apply Forall_app in H2 as [H2 _]. apply Forall_app in H3 as [H3 _].
  split; [done..|]. intros k k' Hk Hk'. apply H4; apply elem_of_app; by left.
Qed.

Lemma split_segments k : Forall (λ s, s ≠ []) (split_on DOT k) → Forall segment (split_on DOT k).
Proof.
  intros H. pose proof (split_on_no_sep DOT k) as H'. rewrite Forall_forall in *. split; eauto.
Qed.

Lemma expand_clean o :
  flat_settings o → clean (JObj (foldl (λ r kv, setDeepValue r (split_on DOT kv.1) kv.2) [] o)).
Proof.
  induction o as [|[k v] o IH] using rev_ind; intros H; [apply clean_empty|].
  rewrite foldl_app. apply setDeep_clean; [apply split_on_not_nil| | |by eapply IH, flat_init].
  - apply split_segments. destruct H as [_ _ H _]. unfold obj_keys in H. rewrite map_app in H.
    apply Forall_app in H as [_ H]. by inversion H.
  - constructor. destruct H as [_ H _ _]. apply Forall_app in H as [_ H]. by inversion H.
Qed.

Lemma expand_leaf o k :
  flat_settings o →
  leaf (JObj (foldl (λ r kv, setDeepValue r (split_on DOT kv.1) kv.2) [] o)) (split_on DOT k) = obj_get k o.
Proof.
  induction o as [|[k' v] o IH] using rev_ind; intros H.
  { unfold leaf. simpl. by destruct (split_on DOT k). }
  specialize (IH (flat_init _ _ H)). rewrite foldl_app, obj_get_app. cbn [foldl fst snd obj_get].
  assert (isPlainObject v = false) as Hv.
  { destruct H as [_ H _ _]. apply Forall_app in H as [_ H]. by inversion H. }
  assert (k' ∈ obj_keys (o ++ [(k', v)])) as Hk'.
  { unfold obj_keys. rewrite map_app, elem_of_app. right. by left. }
  assert (k' ∉ obj_keys o) as Hnew.
  { destruct H as [H _ _ _]. unfold obj_keys in *. rewrite map_app in H. apply NoDup_app in H as (_ & H & _).
    intros Hin. apply (H _ Hin). by left. }
  assert (obj_get k o ≠ None → k ∈ obj_keys (o ++ [(k', v)])) as Hold.
  { intros E. unfold obj_keys. rewrite map_app, elem_of_app. left.
    destruct (decide (k ∈ obj_keys o)) as [|E']; [done|]. by apply obj_get_None in E'. }
  destruct (decide (k = k')) as [->|Hne].
  { apply obj_get_None in Hnew as ->. unfold leaf.
    rewrite <- (app_nil_r (split_on DOT k')) at 2. rewrite setDeep_below by apply split_on_not_nil.
    simpl. by rewrite Hv. }
  assert (obj_get k o ≠ None → ¬ split_on DOT k' `prefix_of` split_on DOT k ∧ ¬ split_on DOT k `prefix_of` split_on DOT k') as Hap.
  { intros E. split; intros Hpre; apply Hne; [symmetry|]; apply (flat_apart _ H); auto. }
  destruct (decide (split_on DOT k' `prefix_of` split_on DOT k)) as [[q Hq]|H1].
  { destruct (obj_get k o) eqn:E; [by destruct (proj1 (Hap ltac:(done))); exists q|]. unfold leaf.
    rewrite Hq, setDeep_below by apply split_on_not_nil. rewrite get_path_nonobj; [done..|].
    intros ->. rewrite app_nil_r in Hq. apply Hne. by rewrite <- (key_of_split k), <- (key_of_split k'), Hq. }
  destruct (decide (split_on DOT k `prefix_of` split_on DOT k')) as [[q Hq]|H2].
  { destruct (obj_get k o) eqn:E; [by destruct (proj2 (Hap ltac:(done))); exists q|].
    destruct (setDeep_above (foldl (λ r kv, setDeepValue r (split_on DOT kv.1) kv.2) [] o) _ v _ _ Hq) as [w Hw].
    { intros ->. rewrite app_nil_r in Hq. apply Hne. by rewrite <- (key_of_split k), <- (key_of_split k'), Hq. }
    unfold leaf. by rewrite Hw. }
  unfold leaf in *. rewrite setDeep_other, IH by done. by destruct (obj_get k o).
Qed.

(** Flat settings made nested and flat again have the same values. *)
Lemma expand_flatten_eq o k :
  flat_settings o → obj_get k (flattenValues (expandDotPaths (JObj o)) None []) = obj_get k o.
Proof.
  intros H. rewrite expand_obj by apply H. rewrite flatten_get by by apply expand_clean. by apply expand_leaf.
Qed.

(** Nested values without dots stay as they are. *)
Definition expand_value (value : json) : json := if isPlainObject value then expandDotPaths value else value.

Lemma expand_value_eq v : expand_value v = expandDotPaths v.
Proof. by destruct v. Qed.

Lemma expand_each o :
  Forall segment (obj_keys o) →
  expandDotPaths (JObj o) = JObj (obj_assign [] (map (λ kv, (kv.1, expandDotPaths kv.2)) o)).
Proof.
  intros H. cbn [expandDotPaths]. f_equal. generalize (@nil (jsstr * json)).
  induction o as [|[k v] o IH]; intros r; [done|]. apply Forall_cons in H as [[_ Hk] H].
  cbn [map fst snd]. unfold obj_assign in *. cbn [foldl fst snd]. rewrite <- IH by done. f_equal.
  destruct (includes DOTS k) eqn:E.
  - apply includes_spec in E as (k1 & k2 & ->). destruct Hk. apply elem_of_app. right. by left.
  - f_equal. apply expand_value_eq.
Qed.

Lemma get_map_values {V W} (f : V → W) (o : obj V) k :
  obj_get k (map (λ kv, (kv.1, f kv.2)) o) = f <$> obj_get k o.
Proof. induction o as [|[k' v] o IH]; simpl; [done|]. by case_decide. Qed.

Lemma expand_get o k :
  clean (JObj o) →
  obj_get k (obj_assign [] (map (λ kv, (kv.1, expandDotPaths kv.2)) o)) = expandDotPaths <$> obj_get k o.
Proof.
  intros (Hn & _ & _)%clean_inv. rewrite obj_get_assign.
  - rewrite get_map_values. by destruct (obj_get k o).
  - unfold obj_keys in *. by rewrite map_map.
Qed.

Lemma expand_nested v p : clean v → leaf (expandDotPaths v) p = leaf v p.
Proof.
  revert p. induction v as [| | | | |o IH] using json_ind'; intros p Hc; try done.
  rewrite expand_each by apply (clean_inv _ Hc). destruct p as [|s p]; [done|]. unfold leaf. cbn [get_path].
  rewrite expand_get by done. destruct (obj_get s o) as [w|] eqn:E; [|done]. cbn [fmap option_fmap option_map].
  apply (proj1 (Forall_forall _ _) IH (s, w)); [by apply obj_get_Some_mem|by eapply clean_get].
Qed.

Lemma expand_nested_clean v : clean v → clean (expandDotPaths v).
Proof.
  induction v as [| | | | |o IH] using json_ind'; intros Hc; try done.
  apply clean_inv in Hc as Hc'. destruct Hc' as (Hn & Hs & Ho). rewrite expand_each by done.
  apply clean_obj.
  - apply NoDup_keys_assign. constructor.
  - apply Forall_forall. intros k [Hk|Hk]%elem_of_keys_assign; [by apply not_elem_of_nil in Hk|].
    unfold obj_keys in Hk, Hs. rewrite map_map in Hk. by eapply (proj1 (Forall_forall _ _) Hs).
  - unfold obj_assign. assert (Forall (λ kv : jsstr * json, clean kv.2) []) as Hr by constructor.
    revert Hr. generalize (@nil (jsstr * json)). clear Hn Hs Hc.
    induction IH as [|[k w] o Hw _ IHo]; intros r Hr; [done|]. apply Forall_cons in Ho as [Hw' Ho].
    apply IHo; [done|]. apply Forall_obj_set; [by apply Hw|done].
Qed.

(** *** The fields that were touched *)

Definition is_true_mark (pw : list jsstr * json) : bool := json_eqb pw.2 (JBool true).

(** The paths a tree of marks names. *)
Definition marks (t : json) : list (list jsstr * json) := List.filter is_true_mark (leaves t).

Definition walk (values : option json) (p : list jsstr) : option json := foldl source_of values p.

Lemma walk_get v p x : get_path v p = Some x → walk (Some v) p = Some x.
Proof.
  revert v. induction p as [|s p IH]; intros v; [done|]. simpl.
  destruct v as [| | | | |o]; try done. unfold walk. cbn [foldl source_of].
  destruct (obj_get s o) as [w|]; [|done]. apply IH.
Qed.

Inductive tree : json → Prop :=
  | tree_mark b : tree (JBool b)
  | tree_obj o : NoDup (obj_keys o) → Forall segment (obj_keys o) →
      Forall (λ kv, tree kv.2) o → tree (JObj o).

Lemma tree_clean t : tree t → clean t.
Proof.
  induction t as [| | | | |o IH] using json_ind'; inversion 1; subst; [by constructor|].
  apply clean_obj; [done..|]. rewrite !Forall_forall in *. eauto.
Qed.

Definition sources_of (parentKey : option jsstr) (values : option json) (l : list (list jsstr * json)) :
    obj (option json) :=
  map (λ pw, (full parentKey pw.1, walk values pw.1)) l.

Definition collect_each (values : option json) (parentKey : option jsstr) :
    obj json → obj (option json) → obj (option json) :=
  fix each (o : obj json) result := match o with
    | [] => result
    | (key, value) :: o =>
        each o (match value with
          | JBool true => obj_set (nextKey parentKey key) (source_of values key) result
          | JObj _ | JArr _ =>
              collectDirtyValues value (source_of values key) (Some (nextKey parentKey key)) result
          | _ => result
          end) end.

Lemma collect_obj o values parentKey result :
  collectDirtyValues (JObj o) values parentKey result = collect_each values parentKey o result.
Proof. done. Qed.

Lemma marks_cons k w o :
  marks (JObj ((k, w) :: o)) = map (λ pw, (k :: pw.1, pw.2)) (marks w) ++ marks (JObj o).
Proof.
  unfold marks. rewrite leaves_cons, List.filter_app. f_equal.
  induction (leaves w) as [|[p x] l IH]; [done|]. cbn [map List.filter].
  change (is_true_mark (k :: (p, x).1, (p, x).2)) with (is_true_mark (p, x)).
  destruct (is_true_mark (p, x)); by rewrite IH.
Qed.

Lemma sources_cons parentKey values k l :
  k ≠ [] → parentKey ≠ Some [] →
  sources_of (Some (nextKey parentKey k)) (source_of values k) l =
  sources_of parentKey values (map (λ pw, (k :: pw.1, pw.2)) l).
Proof.
  intros Hk Hp. unfold sources_of. rewrite map_map. apply map_ext. intros [p x]. cbn [fst snd]. by rewrite full_next.
Qed.

(** What is collected: the values at the marked paths, under their names. *)
Lemma collect_marks t values parentKey result :
  tree t → parentKey ≠ Some [] → isPlainObject t = true →
  collectDirtyValues t values parentKey result = obj_assign result (sources_of parentKey values (marks t)).
Proof.
  revert values parentKey result. induction t as [| | | | |o IH] using json_ind'; intros vs pk r Ht Hp Hn; try done.
  clear Hn. rewrite collect_obj. revert r Ht. induction IH as [|[k w] o IHw _ IHo]; intros r Ht; [done|].
  apply tree_clean in Ht as Hc. apply clean_cons in Hc as ([Hk _] & _ & _ & _). simpl in IHw.
  assert (tree w ∧ tree (JObj o)) as [Hw Ho].
  { inversion Ht as [|? Hnd Hs Hf]; subst. apply NoDup_cons in Hnd as [_ Hnd].
    apply Forall_cons in Hs as [_ Hs]. apply Forall_cons in Hf as [Hf Hf']. split; [done|]. by constructor. }
  rewrite marks_cons. unfold sources_of at 1. rewrite map_app, obj_assign_app.
  change (map _ (marks (JObj o))) with (sources_of pk vs (marks (JObj o))).
  change (map _ (map _ (marks w))) with (sources_of pk vs (map (λ pw, (k :: pw.1, pw.2)) (marks w))).
  rewrite <- sources_cons by done. cbn [collect_each]. fold (collect_each vs pk). rewrite IHo by done. f_equal.
  inversion Hw as [[]|o' Hn' _ _]; subst; [done..|].
  apply IHw; [done| |done]. intros [= E]. by eapply nextKey_nonempty.
Qed.

End DotPaths.

(** ** The state of a form *)

Module SettingsForm.
Import DotPaths.

(** [a === b]; two objects are never one here, and equal ones have one text. *)
Definition strict_eq (a b : option json) : bool :=
  match a, b with
  | None, None => true
  | Some JNull, Some JNull => true
  | Some (JBool x), Some (JBool y) => Bool.eqb x y
  | Some (JNum x), Some (JNum y) => num_eqb x y
  | Some (JStr x), Some (JStr y) => bool_decide (x = y)
  | _, _ => false
  end.

Definition is_object (v : json) : bool :=
  match v with JArr _ | JObj _ => true | _ => false end.

Definition defaultCompare (a b : option json) : bool :=
  strict_eq a b ||
  match a, b with
  | Some x, Some y => is_object x && is_object y && bool_decide (JSON_stringify x = JSON_stringify y)
  | _, _ => false
  end.

(** The refs of the hook and what the form library keeps: the values shown
    and the values the dirty fields are determined against. *)
Record State := mkState {
  values : json;
  form_defaults : json;
  defaultValuesRef : json;
  baselineRef : obj json;
  serializedDefaultsRef : jsstr;
  pending : option json;                 (** the data of the [onSubmit] under way *)
  sent : list (obj (option json)) }.     (** the changed fields handed to [onSubmit] *)

Inductive Event :=
  | Edit (v : json)          (** the user changes fields *)
  | Defaults (d : json)      (** the page renders with other default values *)
  | Submit
  | Settled (ok : bool)      (** [onSubmit] resolves or rejects *)
  | Reset_.

Section Form.
(** The form library: which fields differ from their defaults.  The schema:
    the data of valid values. *)
Context (dirtyFields : json → json → json) (resolve : json → option json).

Definition flat (v : json) : obj json := flattenValues v None [].

Definition reset (s : State) (v : json) : State :=
  mkState v v (defaultValuesRef s) (baselineRef s) (serializedDefaultsRef s) (pending s) (sent s).

Definition mount (defaultValues : json) : State :=
  let expandedDefaults := expandDotPaths defaultValues in
  mkState expandedDefaults expandedDefaults expandedDefaults (flat expandedDefaults)
    (JSON_stringify (JObj (flat expandedDefaults))) None [].

(** What the effect and the end of [handleSubmit] both do. *)
Definition advance (s : State) (v : json) : State :=
  reset (mkState (values s) (form_defaults s) v (flat v) (JSON_stringify (JObj (flat v))) (pending s) (sent s)) v.

Definition defaults_effect (s : State) (defaultValues : json) : State :=
  let expandedDefaults := expandDotPaths defaultValues in
  let serialized := JSON_stringify (JObj (flat expandedDefaults)) in
  if bool_decide (serialized = serializedDefaultsRef s) then s else advance s expandedDefaults.

Definition changedEntries (s : State) (data : json) : obj (option json) :=
  List.filter (λ kv, negb (defaultCompare kv.2 (obj_get kv.1 (baselineRef s))))
    (collectDirtyValues (dirtyFields (form_defaults s) (values s)) (Some data) None []).

Definition changedFields (s : State) (data : json) : obj (option json) :=
  obj_assign [] (changedEntries s data).

(** Up to [await onSubmit(...)]; the button is off while one is under way. *)
Definition handleSubmit (s : State) : State :=
  match pending s, resolve (values s) with
  | None, Some data =>
      match changedEntries s data with
      | [] => s
      | _ => mkState (values s) (form_defaults s) (defaultValuesRef s) (baselineRef s)
               (serializedDefaultsRef s) (Some data) (sent s ++ [changedFields s data])
      end
  | _, _ => s
  end.

Definition set_pending (s : State) (p : option json) : State :=
  mkState (values s) (form_defaults s) (defaultValuesRef s) (baselineRef s) (serializedDefaultsRef s) p (sent s).

(** From there on. *)
Definition settled (s : State) (ok : bool) : State :=
  match pending s with
  | None => s
  | Some data => if ok then advance (set_pending s None) data else set_pending s None
  end.

Definition handleReset (s : State) : State := reset s (defaultValuesRef s).

Definition step (s : State) (e : Event) : State :=
  match e with
  | Edit v => mkState v (form_defaults s) (defaultValuesRef s) (baselineRef s)
                (serializedDefaultsRef s) (pending s) (sent s)
  | Defaults d => defaults_effect s d
  | Submit => handleSubmit s
  | Settled ok => settled s ok
  | Reset_ => handleReset s
  end.

Definition run (s : State) (es : list Event) : State := foldl step s es.

End Form.

(** *** What the sections send for a changed field *)

(** An answer of the server to one option; [Threw] is a request that failed
    or had no answer. *)
Inductive Reply := Answered (success : bool) | Threw.

(** The loops around [updateOption.mutateAsync], which resolves with every
    answer: the requests made, and whether [onSubmit] resolved.  A field for
    which [request] is [None] is passed over. *)
Fixpoint onSubmit (request : jsstr → option json → option (option json)) (changed : obj (option json))
    (replies : list Reply) : list (jsstr * option json) * bool :=
  match changed with
  | [] => ([], true)
  | (key, value) :: changed =>
      match request key value with
      | None => onSubmit request changed replies
      | Some v =>
          match replies with
          | Answered _ :: replies =>
              let '(rs, ok) := onSubmit request changed replies in ((key, v) :: rs, ok)
          | _ => ([(key, v)], false)
          end
      end
  end.

(** [maintenance/performance-section.tsx] *)
Definition performance_request (key : jsstr) (value : option json) : option (option json) :=
  Some value.

(** [general/quota-settings-section.tsx] *)
Definition quotaToUsdString (quota : jsstr) (quotaPerUnit : num) : jsstr :=
  let trimmed := trim quota in
  if negb (nonempty trimmed) then [] else
  let parsed := Number trimmed in
  if num_is_nan parsed || num_leb quotaPerUnit num_zero then trimmed
  else num_to_string (num_div parsed quotaPerUnit).

Definition usdToQuotaString (usd : jsstr) (quotaPerUnit : num) : jsstr :=
  let trimmed := trim usd in
  if negb (nonempty trimmed) then [] else
  let parsed := Number trimmed in
  if num_is_nan parsed || num_leb quotaPerUnit num_zero then trimmed
  else num_to_string (num_round (num_mul parsed quotaPerUnit)).

(** [String(v)] *)
Definition to_text (value : option json) : jsstr :=
  match value with None => js "undefined" | Some v => json_to_string v end.

Definition quota_request (quotaPerUnit : num) (key : jsstr) (value : option json) : option (option json) :=
  Some (if bool_decide (key = js "QuotaRemindThreshold")
        then Some (JStr (usdToQuotaString (to_text value) quotaPerUnit)) else value).

(** [general/system-info-section.tsx] *)
Definition normalizeValue (value : option json) : jsstr :=
  match value with
  | None | Some JNull => []
  | Some (JStr s) => s
  | Some v => json_to_string v
  end.

(** [v.replace(/\/+$/, '')] *)
Fixpoint drop_slashes (s : jsstr) : jsstr :=
  match s with
  | c :: s' => if (c =? 47)%N then drop_slashes s' else s
  | [] => []
  end.

Definition strip_slashes (s : jsstr) : jsstr := reverse (drop_slashes (reverse s)).

Definition system_info_request (key : jsstr) (value : option json) : option (option json) :=
  let v := normalizeValue value in
  Some (Some (JStr (if bool_decide (key = js "ServerAddress") then strip_slashes v else v))).

(** [general/pricing-section.tsx] *)
Definition pricing_request (key : jsstr) (value : option json) : option (option json) :=
  match value with
  | None | Some JNull | Some (JArr _) | Some (JObj _) => None
  | Some (JBool b) => Some (Some (JStr (json_to_string (JBool b))))
  | Some (JNum n) => Some (Some (JStr (if num_is_finite n then num_to_string n else js "0")))
  | Some (JStr s) => Some (Some (JStr s))
  end.

Example quota_texts :
  quotaToUsdString (js " 1000000 ") (num_of_Z 500000) = js "2" ∧
  usdToQuotaString (js "0.5") (num_of_Z 500000) = js "250000" ∧
  usdToQuotaString (js "abc") (num_of_Z 500000) = js "abc".
Proof. vm_compute. done. Qed.

Example address_sent :
  system_info_request (js "ServerAddress") (Some (JStr (js "https://a.b/c//")))
  = Some (Some (JStr (js "https://a.b/c"))).
Proof. vm_compute. done. Qed.

(** *** What a form sends *)

(** A leaf of a form: no array, and no [NaN], which the schemas refuse. *)
Definition scalar (v : json) : bool :=
  match v with JNum n => negb (num_is_nan n) | JArr _ | JObj _ => false | _ => true end.

Lemma strict_eq_refl v : scalar v = true → strict_eq (Some v) (Some v) = true.
Proof.
  destruct v; simpl; try done.
  - by rewrite Bool.eqb_reflx.
  - intros ?%negb_true_iff. by apply num_eqb_refl.
  - intros _. by apply bool_decide_eq_true.
Qed.

Lemma compare_scalar x b : scalar x = true → defaultCompare (Some x) b = strict_eq (Some x) b.
Proof. unfold defaultCompare. intros H. destruct b as [y|]; [|by rewrite orb_false_r]. by destruct x; rewrite ?orb_false_r. Qed.

(** The values of one form: its fields are the paths of [fields]. *)
Record typed (fields : list (list jsstr)) (v : json) : Prop := {
  typed_object : isPlainObject v = true;
  typed_clean : clean v;
  typed_fields : ∀ p, is_Some (leaf v p) ↔ p ∈ fields;
  typed_scalar : ∀ p x, leaf v p = Some x → scalar x = true }.

(** What the form needs of the two libraries: marks are on fields, every
    field with another value than its default has one, and the schema hands
    valid values of the right types over as they are. *)
Class Library (fields : list (list jsstr)) (dirtyFields : json → json → json) (resolve : json → option json) : Prop := {
  dirty_tree d v : typed fields d → typed fields v →
    tree (dirtyFields d v) ∧ isPlainObject (dirtyFields d v) = true;
  dirty_fields d v p : typed fields d → typed fields v →
    leaf (dirtyFields d v) p = Some (JBool true) → p ∈ fields;
  dirty_marks d v p x y : typed fields d → typed fields v →
    leaf v p = Some x → leaf d p = Some y → strict_eq (Some x) (Some y) = false →
    leaf (dirtyFields d v) p = Some (JBool true);
  resolve_keeps v w : resolve v = Some w → w = v }.

Lemma typed_form fields v : typed fields v → ∃ o, v = JObj o ∧ clean (JObj o).
Proof. intros [H Hc _ _]. destruct v; try done. eauto. Qed.

(** What the refs say of each other. *)
Record coherent (fields : list (list jsstr)) (s : State) : Prop := {
  coherent_defaults : typed fields (form_defaults s);
  coherent_values : typed fields (values s);
  coherent_ref : defaultValuesRef s = form_defaults s;
  coherent_baseline : baselineRef s = flat (form_defaults s);
  coherent_text : serializedDefaultsRef s = JSON_stringify (JObj (baselineRef s));
  coherent_pending : ∀ data, pending s = Some data → typed fields data }.

Definition typed_event (fields : list (list jsstr)) (e : Event) : Prop :=
  match e with
  | Edit v => typed fields v
  | Defaults d => typed fields (expandDotPaths d)
  | _ => True
  end.

Section Laws.
Context {fields : list (list jsstr)} {dirtyFields : json → json → json} {resolve : json → option json}.
Context {lib : Library fields dirtyFields resolve}.
Implicit Types s : State.
Local Notation step := (step dirtyFields resolve).
Local Notation run := (run dirtyFields resolve).
Local Notation changedEntries := (changedEntries dirtyFields).
Local Notation changedFields := (changedFields dirtyFields).

Lemma coherent_mount d : typed fields (expandDotPaths d) → coherent fields (mount d).
Proof. by split. Qed.

Lemma coherent_advance s v : coherent fields s → typed fields v → coherent fields (advance s v).
Proof. intros [] Hv. by split. Qed.

Lemma coherent_step s e : coherent fields s → typed_event fields e → coherent fields (step s e).
Proof.
  intros Hs He. destruct e as [v|d| |ok|]; simpl in *.
  - destruct Hs. by split.
  - unfold defaults_effect. case_bool_decide; [done|]. by apply coherent_advance.
  - unfold handleSubmit. destruct (pending s) eqn:Hp; [done|].
    destruct (resolve (values s)) as [data|] eqn:Hr; [|done]. destruct (changedEntries s data); [done|].
    apply (resolve_keeps (fields := fields) (dirtyFields := dirtyFields)) in Hr as ->.
    destruct Hs. split; try done. by intros data [= <-].
  - unfold settled. destruct (pending s) as [data|] eqn:Hp; [|done].
    assert (coherent fields (set_pending s None)) as Hs' by (destruct Hs; by split).
    destruct ok; [|done]. apply coherent_advance; [done|]. by apply (coherent_pending _ _ Hs).
  - destruct Hs as [H1 H2 H3 H4 H5 H6]. split; simpl; first [exact H6 | done | by rewrite H3].
Qed.

Lemma coherent_run s es : coherent fields s → Forall (typed_event fields) es → coherent fields (run s es).
Proof.
  intros Hs Hes. revert s Hs. induction Hes as [|e es He _ IH]; intros s Hs; [done|].
  by apply IH, coherent_step.
Qed.

Lemma baseline_get s k : coherent fields s → obj_get k (baselineRef s) = leaf (form_defaults s) (split_on DOT k).
Proof.
  intros Hs. rewrite (coherent_baseline _ _ Hs). destruct (typed_form _ _ (coherent_defaults _ _ Hs)) as (o & -> & Ho).
  by apply flatten_get.
Qed.

Lemma elem_of_marks t p x : p ≠ [] → tree t → (p, x) ∈ marks t ↔ x = JBool true ∧ leaf t p = Some (JBool true).
Proof.
  intros Hp Ht. unfold marks, is_true_mark. rewrite elem_of_bfilter, elem_of_leaves, leaf_Some by by apply tree_clean.
  simpl. rewrite json_eqb_spec. naive_solver.
Qed.

Lemma elem_of_collected d v k o :
  typed fields d → typed fields v →
  (k, o) ∈ collectDirtyValues (dirtyFields d v) (Some v) None [] ↔
  leaf (dirtyFields d v) (split_on DOT k) = Some (JBool true) ∧ o = leaf v (split_on DOT k).
Proof.
  intros Hd Hv. destruct (dirty_tree d v Hd Hv) as [Ht Hob]. rewrite collect_marks by done.
  set (t := dirtyFields d v) in *. destruct t as [| | | | |to] eqn:Et; try done.
  assert (NoDup (obj_keys (sources_of None (Some v) (marks (JObj to))))) as Hn.
  { replace (obj_keys (sources_of None (Some v) (marks (JObj to)))) with (obj_keys (entries_of None (marks (JObj to)))).
    - eapply NoDup_entries; [by apply tree_clean|]. apply bfilter_sublist.
    - unfold obj_keys, sources_of, entries_of. by rewrite !map_map. }
  assert (∀ p, leaf (JObj to) p = Some (JBool true) → walk (Some v) p = leaf v p) as Hw.
  { intros p Hp. rewrite <- Et in Hp. apply dirty_fields in Hp; [|done..].
    apply (typed_fields _ _ Hv) in Hp as [x Hx]. rewrite Hx. apply leaf_Some in Hx as [Hx _]. by apply walk_get. }
  split.
  - intros Hin. apply obj_get_mem in Hin; [|apply NoDup_keys_assign; constructor].
    rewrite obj_get_assign in Hin by done. destruct (obj_get k _) as [o'|] eqn:E; [|done]. injection Hin as ->.
    apply obj_get_Some_mem, list_elem_of_fmap in E as ([p x] & [= -> ->] & Hin).
    assert ((p, x) ∈ leaves (JObj to)) as Hl by (eapply elem_of_sublist; [done|apply bfilter_sublist]).
    assert (p ≠ []) as Hp by by eapply leaves_path.
    apply elem_of_marks in Hin as [-> Hin]; [|done..]. simpl.
    rewrite split_key_of; [|done|by eapply leaves_segments; [apply tree_clean|]]. split; [done|]. by apply Hw.
  - intros [Hm ->]. apply obj_get_Some_mem. rewrite obj_get_assign by done.
    rewrite (obj_get_mem k (leaf v (split_on DOT k))); [done..|]. apply list_elem_of_fmap.
    exists (split_on DOT k, JBool true). rewrite elem_of_marks by (done || apply split_on_not_nil).
    split; [|done]. cbn [fst snd full]. by rewrite key_of_split, Hw.
Qed.

Lemma NoDup_collected d v :
  typed fields d → typed fields v →
  NoDup (obj_keys (collectDirtyValues (dirtyFields d v) (Some v) None [])).
Proof.
  intros Hd Hv. destruct (dirty_tree d v Hd Hv) as [Ht Hob]. rewrite collect_marks by done.
  apply NoDup_keys_assign. constructor.
Qed.

(** The value of a field and of its default differ. *)
Definition differs (d v : json) (k : jsstr) (x : json) : Prop :=
  leaf v (split_on DOT k) = Some x ∧
  ∃ y, leaf d (split_on DOT k) = Some y ∧ strict_eq (Some x) (Some y) = false.

Lemma elem_of_changed s k o :
  coherent fields s →
  (k, o) ∈ changedEntries s (values s) ↔ ∃ x, o = Some x ∧ differs (form_defaults s) (values s) k x.
Proof.
  intros Hs. pose proof (coherent_defaults _ _ Hs) as Hd. pose proof (coherent_values _ _ Hs) as Hv.
  unfold changedEntries. rewrite elem_of_bfilter, elem_of_collected by done. simpl.
  rewrite baseline_get by done. unfold differs. split.
  - intros [[Hm ->] Hc%negb_true_iff]. apply dirty_fields in Hm; [|done..].
    apply (typed_fields _ _ Hv) in Hm as Hx. destruct Hx as [x Hx].
    apply (typed_fields _ _ Hd) in Hm as [y Hy]. rewrite Hx, Hy in *.
    rewrite compare_scalar in Hc by by eapply typed_scalar. eauto 6.
  - intros (x & -> & Hx & y & Hy & Hc). rewrite Hx, Hy. split.
    + split; [|done]. by eapply dirty_marks.
    + apply negb_true_iff. rewrite compare_scalar; [done|]. by eapply typed_scalar.
Qed.

Lemma changed_get s k x :
  coherent fields s →
  obj_get k (changedFields s (values s)) = Some (Some x) ↔ differs (form_defaults s) (values s) k x.
Proof.
  intros Hs. pose proof (coherent_defaults _ _ Hs) as Hd. pose proof (coherent_values _ _ Hs) as Hv.
  assert (NoDup (obj_keys (changedEntries s (values s)))) as Hn.
  { eapply sublist_NoDup; [by apply (NoDup_collected _ _ Hd Hv)|]. apply fmap_sublist, bfilter_sublist. }
  unfold changedFields. rewrite obj_get_assign by done. split.
  - destruct (obj_get k _) as [o|] eqn:E; [|done]. intros [= ->]. apply obj_get_Some_mem, elem_of_changed in E; [|done].
    destruct E as (? & [= ->] & ?). done.
  - intros H. rewrite (obj_get_mem k (Some x)); [done..|]. apply elem_of_changed; eauto.
Qed.

(** Nothing differs: the form says so and sends nothing. *)
Lemma submit_same s : coherent fields s → (∀ k x, ¬ differs (form_defaults s) (values s) k x) → step s Submit = s.
Proof.
  intros Hs H. simpl. unfold handleSubmit. destruct (pending s); [done|].
  destruct (resolve (values s)) as [data|] eqn:Hr; [|done].
  apply (resolve_keeps (fields := fields) (dirtyFields := dirtyFields)) in Hr as ->.
  destruct (changedEntries s (values s)) as [|[k o] l] eqn:E; [done|].
  assert ((k, o) ∈ changedEntries s (values s)) as Hin by (rewrite E; by left).
  apply elem_of_changed in Hin as (x & _ & Hx); [|done]. by apply H in Hx.
Qed.

Lemma differs_irrefl v k x : typed fields v → ¬ differs v v k x.
Proof. intros Hv (Hx & y & Hy & H). simplify_eq. rewrite strict_eq_refl in H; [done|]. by eapply typed_scalar. Qed.

Lemma submit_sends_eq s :
  coherent fields s → pending s = None → resolve (values s) ≠ None →
  (∃ k x, differs (form_defaults s) (values s) k x) →
  step s Submit = mkState (values s) (form_defaults s) (defaultValuesRef s) (baselineRef s)
    (serializedDefaultsRef s) (Some (values s)) (sent s ++ [changedFields s (values s)]).
Proof.
  intros Hs Hp Hr (k & x & Hk). simpl. unfold handleSubmit. rewrite Hp.
  destruct (resolve (values s)) as [data|] eqn:E; [|done].
  apply (resolve_keeps (fields := fields) (dirtyFields := dirtyFields)) in E as ->.
  assert ((k, Some x) ∈ changedEntries s (values s)) as Hin by (apply elem_of_changed; eauto).
  destruct (changedEntries s (values s)); [by apply not_elem_of_nil in Hin|done].
Qed.

End Laws.

(** *** A library that does what the form needs *)

Fixpoint mark (d v : json) : json :=
  match v, d with
  | JObj o, JObj od =>
      JObj ((fix each (o : obj json) : obj json := match o with
        | [] => []
        | (k, w) :: o =>
            (k, match obj_get k od with Some w' => mark w' w | None => JObj [] end) :: each o end) o)
  | _, _ => JBool (negb (strict_eq (Some v) (Some d)))
  end.

Definition mark_entry (od : obj json) (kw : jsstr * json) : jsstr * json :=
  (kw.1, match obj_get kw.1 od with Some w' => mark w' kw.2 | None => JObj [] end).

Lemma mark_obj od o : mark (JObj od) (JObj o) = JObj (map (mark_entry od) o).
Proof. cbn [mark]. f_equal. induction o as [|[k w] o IH]; [done|]. simpl. by rewrite IH. Qed.

Lemma get_mark od o s :
  obj_get s (map (mark_entry od) o) =
  match obj_get s o with
  | Some w => Some match obj_get s od with Some w' => mark w' w | None => JObj [] end
  | None => None
  end.
Proof. induction o as [|[k w] o IH]; simpl; [done|]. destruct (decide (s = k)) as [->|]; done. Qed.

Lemma leaf_cons o s p : leaf (JObj o) (s :: p) = match obj_get s o with Some w => leaf w p | None => None end.
Proof. unfold leaf. simpl. by destruct (obj_get s o). Qed.

Lemma leaf_empty p : leaf (JObj []) p = None.
Proof. by destruct p. Qed.

Lemma same_kind d v :
  (∀ p, is_Some (leaf v p) ↔ is_Some (leaf d p)) → isPlainObject v = isPlainObject d.
Proof.
  intros H. specialize (H []). unfold leaf in H. simpl in H.
  destruct (isPlainObject v), (isPlainObject d); try done; rewrite <- not_eq_None_Some in H; naive_solver.
Qed.

Definition mark_of (x y : option json) : option json :=
  match x, y with
  | Some x, Some y => Some (JBool (negb (strict_eq (Some x) (Some y))))
  | _, _ => None
  end.

Lemma mark_spec d v :
  clean d → clean v → (∀ p, is_Some (leaf v p) ↔ is_Some (leaf d p)) →
  tree (mark d v) ∧ ∀ p, leaf (mark d v) p = mark_of (leaf v p) (leaf d p).
Proof.
  revert d. induction v as [| | | | |o IH] using json_ind'; intros d Hd Hv Hsame;
    pose proof (same_kind _ _ Hsame) as Hk;
    try (destruct d; try done; (split; [constructor|]); by intros [|? ?]).
  destruct d as [| | | | |od]; try done. rewrite mark_obj.
  apply clean_inv in Hv as Hv'. destruct Hv' as (Hn & Hs & _).
  assert (∀ k w, obj_get k o = Some w →
    tree (match obj_get k od with Some w' => mark w' w | None => JObj [] end) ∧
    ∀ p, leaf (match obj_get k od with Some w' => mark w' w | None => JObj [] end) p =
         mark_of (leaf w p) (leaf (JObj od) (k :: p))) as Hentry.
  { intros k w Hw. rewrite Forall_forall in IH.
    setoid_rewrite leaf_cons. destruct (obj_get k od) as [w'|] eqn:E.
    - apply (IH (k, w)); [by apply obj_get_Some_mem|by apply (clean_get _ _ _ Hd E)|by apply (clean_get _ _ _ Hv Hw)|].
      intros p. specialize (Hsame (k :: p)). by rewrite !leaf_cons, Hw, E in Hsame.
    - split; [apply tree_obj; constructor|]. intros p. rewrite leaf_empty. by destruct (leaf w p). }
  split.
  - apply tree_obj; [unfold obj_keys in *; by rewrite map_map..|].
    apply Forall_forall. intros kx ([k w] & -> & Hin)%list_elem_of_fmap. apply (Hentry k w). by apply obj_get_mem.
  - intros [|s p]; [done|]. rewrite leaf_cons, get_mark, (leaf_cons o).
    destruct (obj_get s o) as [w|] eqn:E; [|done]. by apply Hentry.
Qed.

#[export] Instance reference_library fields : Library fields mark Some.
Proof.
  assert (∀ d v, typed fields d → typed fields v →
    tree (mark d v) ∧ ∀ p, leaf (mark d v) p = mark_of (leaf v p) (leaf d p)) as H.
  { intros d v Hd Hv. apply mark_spec; [by eapply typed_clean..|]. intros p.
    by rewrite (typed_fields _ _ Hv), (typed_fields _ _ Hd). }
  split.
  - intros d v Hd Hv. split; [by apply H|].
    destruct (typed_form _ _ Hd) as (od & -> & _), (typed_form _ _ Hv) as (o & -> & _). by rewrite mark_obj.
  - intros d v p Hd Hv E. rewrite (proj2 (H d v Hd Hv)) in E. apply (typed_fields _ _ Hv).
    destruct (leaf v p); [done|]. discriminate.
  - intros d v p x y Hd Hv Hx Hy E. rewrite (proj2 (H d v Hd Hv)), Hx, Hy. simpl in *. by rewrite E.
  - by intros v w [= ->].
Qed.

Fixpoint cleanb (v : json) : bool :=
  match v with
  | JObj o =>
      bool_decide (NoDup (obj_keys o)) &&
      forallb (λ k, nonempty k && negb (existsb (N.eqb DOT) k)) (obj_keys o) &&
      (fix each (o : obj json) := match o with [] => true | (_, w) :: o => cleanb w && each o end) o
  | _ => true
  end.

Lemma cleanb_clean v : cleanb v = true → clean v.
Proof.
  induction v as [| | | | |o IH] using json_ind'; intros Hb; try by constructor.
  cbn [cleanb] in Hb. apply andb_true_iff in Hb as [[H1%bool_decide_eq_true H2]%andb_true_iff H3].
  apply clean_obj; [done| |].
  - apply Forall_forall. intros k Hk. rewrite forallb_forall in H2.
    apply list_elem_of_In, H2 in Hk as Hg. apply andb_true_iff in Hg as [Hne Hd%negb_true_iff].
    split; [by destruct k|]. intros Hin. assert (existsb (N.eqb DOT) k = true); [|congruence].
    apply existsb_exists. exists DOT. rewrite <- list_elem_of_In. by rewrite N.eqb_refl.
  - clear H1 H2. induction IH as [|[k w] o Hw _ IHo]; [constructor|].
    apply andb_true_iff in H3 as [H3 H4]. constructor; [by apply Hw|by apply IHo].
Qed.

Definition typedb (fields : list (list jsstr)) (v : json) : bool :=
  isPlainObject v && cleanb v && bool_decide ((leaves v).*1 = fields) && forallb (λ pw, scalar pw.2) (leaves v).

Lemma typedb_typed fields v : typedb fields v = true → typed fields v.
Proof.
  unfold typedb. intros [[[H1 H2%cleanb_clean]%andb_true_iff H3%bool_decide_eq_true]%andb_true_iff H4]%andb_true_iff.
  split; [done..| |].
  - intros p. rewrite <- H3, list_elem_of_fmap. split.
    + intros [x Hx%leaf_Some]. exists (p, x). split; [done|]. by apply elem_of_leaves.
    + intros ([q x] & -> & Hin). apply elem_of_leaves in Hin; [|done]. exists x. by apply leaf_Some.
  - intros p x Hx%leaf_Some. apply elem_of_leaves in Hx; [|done]. rewrite forallb_forall in H4.
    by apply list_elem_of_In, H4 in Hx.
Qed.

(** *** The properties of the forms *)

(** A pass of the loop over options does not look at what the server made of
    the earlier ones. *)
Lemma onSubmit_answered request changed replies :
  (∀ r, r ∈ replies → r ≠ Threw) → length changed ≤ length replies →
  (onSubmit request changed replies).2 = true.
Proof.
  revert replies. induction changed as [|[k x] changed IH]; intros replies Hr Hl; [done|]. simpl in *.
  destruct (request k x); [|by apply IH; [|lia]].
  destruct replies as [|[b|] replies]; simpl in *; [lia| |destruct (Hr Threw); [by left|done]].
  specialize (IH replies). destruct (onSubmit request changed replies). simpl in *. apply IH; [|lia].
  intros r Hin. apply Hr. by right.
Qed.

Lemma settled_saves s :
  settled s true = match pending s with Some data => advance (set_pending s None) data | None => s end.
Proof. unfold settled. by destruct (pending s). Qed.

(** What is on the way is lost when the save ends: the form is reset to what
    was sent. *)
Lemma edits_lost_while_saving dirtyFields resolve s data v :
  pending s = Some data →
  values (run dirtyFields resolve s [Edit v; Settled true]) = data.
Proof. intros H. simpl. unfold settled. simpl. by rewrite H. Qed.

(** New default values from the server take the place of what was typed. *)
Lemma defaults_drop_edits dirtyFields resolve s v d :
  JSON_stringify (JObj (flat (expandDotPaths d))) ≠ serializedDefaultsRef s →
  values (run dirtyFields resolve s [Edit v; Defaults d]) = expandDotPaths d.
Proof. intros H. simpl. unfold defaults_effect. simpl. by rewrite bool_decide_eq_false_2. Qed.

(** And default values with the same text do not. *)
Lemma defaults_keep_edits dirtyFields resolve s v d :
  JSON_stringify (JObj (flat (expandDotPaths d))) = serializedDefaultsRef s →
  values (run dirtyFields resolve s [Edit v; Defaults d]) = v.
Proof. intros H. simpl. unfold defaults_effect. simpl. by rewrite bool_decide_eq_true_2. Qed.

Section Properties.
Context {fields : list (list jsstr)} {dirtyFields : json → json → json} {resolve : json → option json}.
Context {lib : Library fields dirtyFields resolve}.
Local Notation step := (step dirtyFields resolve).
Local Notation run := (run dirtyFields resolve).

Lemma reachable_coherent d es :
  typed fields (expandDotPaths d) → Forall (typed_event fields) es → coherent fields (run (mount d) es).
Proof. intros Hd Hes. by apply coherent_run; [apply coherent_mount|]. Qed.

Lemma saved_submits_nothing s data :
  coherent fields s → pending s = Some data →
  step (step s (Settled true)) Submit = step s (Settled true).
Proof.
  intros Hs Hp. pose proof (coherent_step s (Settled true) Hs I) as Hs'. apply submit_same; [done|].
  simpl. rewrite settled_saves, Hp. simpl. intros k x. apply (differs_irrefl (fields := fields)). by apply (coherent_pending _ _ Hs).
Qed.


(** The sections that save with [updateOption.mutateAsync] do not look at
    its answers: when the server refuses every option of a save, the form
    still takes what was sent as saved, shows it, does not count as edited,
    and saving again sends nothing. *)
Theorem refused_setting_forgotten d es s request replies :
  typed fields (expandDotPaths d) → Forall (typed_event fields) es →
  run (mount d) es = s → pending s = None → resolve (values s) ≠ None →
  (∃ k x, differs (form_defaults s) (values s) k x) →
  length (SettingsForm.changedFields dirtyFields s (values s)) ≤ length replies →
  (∀ r, r ∈ replies → r = Answered false) →
  let '(_, ok) := onSubmit request (SettingsForm.changedFields dirtyFields s (values s)) replies in
  let s' := run s [Submit; Settled ok] in
  values s' = values s ∧ form_defaults s' = values s ∧
  values (step s' Reset_) = values s ∧ step s' Submit = s'.
Proof.
  intros Hd Hes <- Hp Hr Hk Hl Hre. pose proof (reachable_coherent d es Hd Hes) as Hs.
  set (s := run (mount d) es) in *.
  pose proof (onSubmit_answered request (SettingsForm.changedFields dirtyFields s (values s)) replies) as Hok.
  destruct (onSubmit _ _ _) as [rs ok]. simpl in Hok. rewrite Hok; [|by intros r ->%Hre|done].
  pose proof (submit_sends_eq s Hs Hp Hr Hk) as E.
  change (run s [Submit; Settled true]) with (step (step s Submit) (Settled true)).
  split_and!; [by rewrite E..|]. eapply saved_submits_nothing; [by apply coherent_step|by rewrite E].
Qed.

End Properties.

(** *** Witnesses *)

Definition quota_sample (n : Z) (b : bool) : json :=
  JObj [(js "QuotaForNewUser", JNum (num_of_Z n)); (js "TopUpLink", JStr []);
        (js "quota_setting", JObj [(js "enable_free_model_pre_consume", JBool b)])].

Definition quota_fields : list (list jsstr) :=
  [[js "QuotaForNewUser"]; [js "TopUpLink"]; [js "quota_setting"; js "enable_free_model_pre_consume"]].

Definition edited_form : State := run mark Some (mount (quota_sample 100 true)) [Edit (quota_sample 100 false)].

Lemma edited_differs :
  differs (form_defaults edited_form) (values edited_form)
    (js "quota_setting.enable_free_model_pre_consume") (JBool false).
Proof. split; [by vm_compute|]. exists (JBool true). by vm_compute. Qed.


(** The one option of that save, refused. *)
Example refused_once :
  onSubmit performance_request (changedFields mark edited_form (values edited_form)) [Answered false]
  = ([(js "quota_setting.enable_free_model_pre_consume", Some (JBool false))], true).
Proof. vm_compute. reflexivity. Qed.

Lemma refused_setting_forgotten_witness :
  step mark Some (run mark Some edited_form [Submit; Settled true]) Submit =
  run mark Some edited_form [Submit; Settled true].
Proof.
  assert (Hl : length (changedFields mark edited_form (values edited_form)) = 1) by (vm_compute; reflexivity).
  assert (H := refused_setting_forgotten (fields := quota_fields) (dirtyFields := mark) (resolve := Some)
    (quota_sample 100 true) [Edit (quota_sample 100 false)] edited_form performance_request [Answered false]).
  rewrite refused_once in H. lazy beta iota zeta in H. apply H.
  - apply typedb_typed. vm_compute. reflexivity.
  - constructor; [|constructor]. apply typedb_typed. vm_compute. reflexivity.
  - reflexivity.
  - reflexivity.
  - discriminate.
  - do 2 eexists. apply edited_differs.
  - rewrite Hl. simpl. lia.
  - intros r [->|Hr]%elem_of_cons; [reflexivity|]. by apply not_elem_of_nil in Hr.
Defined.

End SettingsForm.
