(* ===== verification/OptionForms.v ===== *)
(** * Groups of options: reading them, editing them, saving them one by one

    [SystemOptions]: [features/system-settings/hooks/use-system-options.ts],
    the texts the server stores read as settings.  [GovernanceForm]: a section
    of the channel governance page, with [use-option-batch-save.ts],
    [use-reset-form.ts] and the six sections of
    [features/system-settings/channel-governance]. *)
From S2P Require Import Prelude JSString JSNumber JSON SettingsForm.
Import DotPaths.

(** ** Options as settings *)

Module SystemOptions.

(** The messages go to the console; the text of a parse error is the
    platform's. *)
Inductive ParseError :=
  | EmptyNumber
  | InvalidNumber (value : jsstr)
  | NotAnArray
  | ElementType (expected got : jsstr)
  | BadJson.

Inductive ParseResult :=
  | Parsed (value : json)
  | NotParsed (error : ParseError) (fallback : json).

Definition js_typeof (v : json) : jsstr :=
  match v with
  | JBool _ => js "boolean"
  | JNum _ => js "number"
  | JStr _ => js "string"
  | JNull | JArr _ | JObj _ => js "object"
  end.

(** A setting is a boolean, a number, a text or an array. *)
Definition parseOptionValueSafe (value : jsstr) (defaultValue : json) : ParseResult :=
  match defaultValue with
  | JBool _ => Parsed (JBool (bool_decide (value = js "true") || bool_decide (value = js "1")))
  | JNum _ =>
      let trimmed := trim value in
      if negb (nonempty trimmed) then NotParsed EmptyNumber defaultValue else
      let parsed := Number trimmed in
      if num_is_nan parsed then NotParsed (InvalidNumber value) defaultValue else Parsed (JNum parsed)
  | JArr defaults =>
      match JSON_parse value with
      | None => NotParsed BadJson defaultValue
      | Some (JArr parsed) =>
          match defaults with
          | [] => Parsed (JArr parsed)
          | first :: _ =>
              let expectedType := js_typeof first in
              match List.find (λ el, negb (bool_decide (js_typeof el = expectedType))) parsed with
              | Some el => NotParsed (ElementType expectedType (js_typeof el)) defaultValue
              | None => Parsed (JArr parsed)
              end
          end
      | Some _ => NotParsed NotAnArray defaultValue
      end
  | _ => Parsed (JStr value)
  end.

Definition outcome (r : ParseResult) : json :=
  match r with Parsed v => v | NotParsed _ d => d end.

Definition read_option (defaults result : obj json) (option_ : jsstr * jsstr) : obj json :=
  match obj_get option_.1 defaults with
  | Some d => obj_set option_.1 (outcome (parseOptionValueSafe option_.2 d)) result
  | None => result
  end.

Definition getOptionValue (options : option (list (jsstr * jsstr))) (defaults : obj json) : obj json :=
  match options with
  | None => defaults
  | Some options => foldl (read_option defaults) defaults options
  end.

Example options_1 :
  getOptionValue (Some [(js "a", js "1"); (js "n", js " 5 "); (js "x", js "?"); (js "m", js "many"); (js "l", js "[1]")])
    [(js "a", JBool false); (js "n", JNum (num_of_Z 3)); (js "m", JNum (num_of_Z 7)); (js "l", JArr [JStr []]); (js "s", JStr (js "t"))]
  = [(js "a", JBool true); (js "n", JNum (num_of_Z 5)); (js "m", JNum (num_of_Z 7)); (js "l", JArr [JStr []]); (js "s", JStr (js "t"))].
Proof. vm_compute. reflexivity. Qed.

(** The text the server holds for a key: the last one listed. *)
Fixpoint last_text (options : list (jsstr * jsstr)) (key : jsstr) : option jsstr :=
  match options with
  | [] => None
  | (k, t) :: options =>
      match last_text options key with Some t' => Some t' | None => if decide (key = k) then Some t else None end
  end.

Definition setting_of (defaults : obj json) (text : option jsstr) (key : jsstr) : option json :=
  d ← obj_get key defaults; Some match text with Some t => outcome (parseOptionValueSafe t d) | None => d end.

Lemma get_options_fold defaults options result key :
  obj_get key (foldl (read_option defaults) result options) =
  match last_text options key, obj_get key defaults with
  | Some t, Some d => Some (outcome (parseOptionValueSafe t d))
  | _, _ => obj_get key result
  end.
Proof.
  revert result. induction options as [|[k t] options IH]; intros result; simpl; [done|].
  rewrite IH. destruct (last_text options key) as [t'|]; unfold read_option; simpl.
  - destruct (obj_get key defaults) eqn:E; [done|]. destruct (obj_get k defaults) eqn:E'; [|done].
    rewrite obj_get_set_ne; [done|]. by intros ->; congruence.
  - destruct (obj_get k defaults) eqn:E'; [rewrite obj_get_set|]; destruct (decide (key = k)) as [->|]; try done; by rewrite E'.
Qed.

Lemma get_option_value defaults options key :
  obj_get key (getOptionValue (Some options) defaults) = setting_of defaults (last_text options key) key.
Proof.
  simpl. rewrite get_options_fold. unfold setting_of.
  destruct (last_text options key), (obj_get key defaults) eqn:E; simpl; rewrite ?E; done.
Qed.

(** A setting keeps the type of its default, whatever the server holds. *)
Lemma parse_keeps_type value d :
  d ≠ JNull → isPlainObject d = false → js_typeof (outcome (parseOptionValueSafe value d)) = js_typeof d.
Proof. destruct d; simpl; try done; intros _ _; by repeat case_match. Qed.

Lemma parse_no_object value d :
  isPlainObject d = false → isPlainObject (outcome (parseOptionValueSafe value d)) = false.
Proof. destruct d; simpl; try done; intros _; by repeat case_match. Qed.

End SystemOptions.

(** ** The fields of the sections *)

Module Sections.

(** A field of a section: its option key, the value the form opens with, the
    value sent for what the form holds, and the value the baseline starts
    from. *)
Record Field := mkField {
  key : jsstr;
  opened : json → json;
  sent : json → json;
  kept : json → json }.

Definition plain (k : string) : Field := mkField (js k) id id id.
Definition as_opened (k : string) (f : json → json) : Field := mkField (js k) f id id.

Definition is_text (v : json) (s : string) : bool := json_eqb v (JStr (js s)).

(** [v === a ? v : d] and [v === a || ... ? v : d] *)
Definition one_of (l : list string) (d : string) (v : json) : json :=
  if existsb (is_text v) l then v else JStr (js d).

(** [v || d] *)
Definition or_default (d : json) (v : json) : json := if json_truthy v then v else d.

(** *** [routing-section.tsx] *)

Definition num_min (a b : num) : num := if num_ltb b a then b else a.
Definition num_max (a b : num) : num := if num_ltb a b then b else a.

(** [Math.ceil(x)] *)
Definition num_ceil (x : num) : num :=
  match x with
  | SpecFloat.S754_finite neg m e =>
      if (0 <=? e)%Z then x else
      let d := (2 ^ (- e))%Z in
      if (Zpos m mod d =? 0)%Z then x
      else if neg then num_neg (num_of_Z (Zpos m / d)) else num_of_Z (Zpos m / d + 1)
  | _ => x
  end.

Definition normalizeCapacityWindow (raw : json) : json :=
  let clamped := num_min (num_of_Z 3600) (num_max (num_of_Z 60) (num_or (json_to_number raw) (num_of_Z 60))) in
  JNum (num_mul (num_ceil (num_div clamped (num_of_Z 60))) (num_of_Z 60)).

Definition RoutingSection : list Field :=
  [as_opened "channel_routing_setting.mode" (one_of ["capacity"%string] "probabilistic");
   mkField (js "channel_routing_setting.capacity_window_sec") normalizeCapacityWindow id normalizeCapacityWindow;
   as_opened "channel_routing_setting.full_strategy" (one_of ["reject"; "degraded"; "queue"]%string "fallback");
   as_opened "channel_routing_setting.fail_mode" (one_of ["fail_closed"%string] "fail_open");
   plain "channel_routing_setting.dry_run";
   plain "channel_routing_setting.dry_run_sample_rate";
   plain "channel_routing_setting.queue_max_wait_ms";
   plain "channel_routing_setting.queue_poll_interval_ms";
   plain "url_health_setting.fail_threshold";
   plain "url_health_setting.cooldown_seconds";
   plain "url_health_setting.ewma_alpha";
   plain "url_health_setting.hysteresis_ratio";
   plain "url_health_setting.hysteresis_min_ms";
   plain "url_health_setting.exploration_gap_seconds"].

(** *** [degradation-section.tsx] *)

Definition DegradationSection : list Field :=
  map plain
    ["channel_health_setting.enabled"; "channel_health_setting.countable_status_codes";
     "channel_health_setting.count_429_as_error"; "channel_health_setting.base_degrade_threshold";
     "channel_health_setting.level_step_threshold"; "channel_health_setting.max_degrade_level";
     "channel_health_setting.min_weight_factor"; "channel_health_setting.upgrade_threshold";
     "channel_health_setting.streak_window_sec"; "channel_health_setting.demote_cooldown_sec";
     "channel_health_setting.disable_threshold"; "channel_health_setting.max_ttft_ms";
     "channel_health_setting.latency_degrade_base"; "channel_health_setting.latency_degrade_step";
     "channel_health_setting.count_latency_as_error"; "channel_health_setting.rebounce_protection_minutes";
     "channel_health_setting.rebounce_protection_threshold"; "channel_health_setting.notify_on_degrade";
     "channel_health_setting.notify_on_upgrade"]%string.

(** *** [probes-section.tsx] *)

Definition trim_value (v : json) : json := match v with JStr s => JStr (trim s) | _ => v end.

Definition ScheduledProbesSection : list Field :=
  [mkField (js "ChannelDisableThreshold") id trim_value trim_value;
   plain "AutomaticDisableChannelEnabled";
   plain "AutomaticEnableChannelEnabled";
   plain "AutomaticDisableStatusCodes";
   plain "AutomaticDisableKeywords";
   plain "monitor_setting.auto_test_channel_enabled";
   plain "monitor_setting.auto_test_channel_minutes";
   plain "channel_health_setting.degrade_probe_enabled";
   plain "channel_health_setting.degrade_probe_min_level";
   plain "channel_health_setting.degrade_probe_minutes";
   plain "channel_health_setting.degrade_probe_count";
   as_opened "channel_health_setting.recovery_strategy" (one_of ["probe"; "manual"]%string "probe");
   plain "channel_health_setting.recovery_probe_minutes";
   plain "channel_verify_setting.auto_verify_enabled";
   plain "channel_verify_setting.global_interval_minutes";
   plain "channel_verify_setting.scheduler_tick_minutes";
   plain "channel_verify_setting.score_drop_threshold";
   plain "channel_verify_setting.notify_on_failure"].

(** *** [removal-section.tsx] *)

Definition normalizeCapAction (value : json) : json := one_of ["alert_only"; "disable_channel"]%string "alert_only" value.

Definition ModelRemovalSection : list Field :=
  [plain "ModelMissingRemovalEnabled"; plain "ModelMissingKeywords";
   plain "ModelMissingRemovalCooldownSeconds"; plain "ModelMissingRecheckIntervalSeconds";
   plain "ModelRateLimitRemovalEnabled"; plain "ModelRateLimitRecheckIntervalSeconds";
   plain "ModelForbiddenRemovalEnabled"; plain "ModelForbiddenStatusCodes";
   plain "ModelForbiddenKeywords"; plain "ModelForbiddenRecheckIntervalSeconds";
   plain "ModelRemovalMaxRemovedPerChannel"; plain "ModelRemovalConsecutiveThreshold";
   mkField (js "ModelRemovalCapAction") normalizeCapAction id normalizeCapAction;
   plain "ModelMissingRemovalCapEnabled"; plain "ModelRemovalNotifyEnabled"].

(** *** [response-quality-section.tsx] *)

(** [value.replace(/\r\n/g, '\n')] *)
Fixpoint normalizeLineEndings (value : jsstr) : jsstr :=
  match value with
  | 13%N :: (10%N :: _) as value' => normalizeLineEndings value'
  | c :: value' => c :: normalizeLineEndings value'
  | [] => []
  end.

Definition lines_value (v : json) : json :=
  match v with JStr s => JStr (normalizeLineEndings s) | _ => v end.

Definition qualityStatus (code : json) : json :=
  match code with
  | JNum n => if num_leb (num_of_Z 100) n && num_leb n (num_of_Z 599) then code else JNum (num_of_Z 503)
  | _ => JNum (num_of_Z 503)
  end.

Definition ResponseQualitySection : list Field :=
  [plain "response_quality_setting.block_apology_enabled";
   as_opened "response_quality_setting.apology_status_code" qualityStatus;
   as_opened "response_quality_setting.apology_message" (or_default (JStr (js "upstream apology reply blocked")));
   mkField (js "response_quality_setting.apology_keywords") lines_value lines_value lines_value;
   as_opened "response_quality_setting.apply_all_channels" (λ v, JBool (negb (json_eqb v (JBool false))));
   plain "response_quality_setting.block_low_token_enabled";
   as_opened "response_quality_setting.low_token_threshold" (or_default (JNum (num_of_Z 300)));
   as_opened "response_quality_setting.low_token_status_code" qualityStatus;
   as_opened "response_quality_setting.low_token_message"
     (or_default (JStr (js "upstream completion tokens {tokens} below {threshold}")));
   as_opened "response_quality_setting.retry_on_block" (λ v, JBool (json_eqb v (JBool true)))].

(** *** [retry-section.tsx] *)

Definition blank_as_empty (v : json) : json :=
  match v with JStr s => if nonempty (trim s) then v else JStr [] | _ => v end.

Definition RetrySection : list Field :=
  [plain "RetryTimes"; plain "AutomaticRetryStatusCodes";
   plain "relay_retry_setting.total_timeout_seconds"; plain "relay_retry_setting.backoff_base_ms";
   plain "relay_retry_setting.backoff_max_ms";
   mkField (js "relay_retry_setting.model_timeouts") id blank_as_empty blank_as_empty;
   plain "retry_short_circuit_setting.enabled"; plain "retry_short_circuit_setting.min_duration_seconds";
   plain "retry_short_circuit_setting.ttl_minutes"].

(** *** The defaults of the page: [channel-governance/index.tsx] *)

Definition defaultChannelGovernanceSettings : obj json :=
  [(js "monitor_setting.auto_test_channel_enabled", JBool false);
   (js "monitor_setting.auto_test_channel_minutes", JNum (num_of_Z 10));
   (js "channel_health_setting.enabled", JBool false);
   (js "channel_health_setting.base_degrade_threshold", JNum (num_of_Z 5));
   (js "channel_health_setting.level_step_threshold", JNum (num_of_Z 5));
   (js "channel_health_setting.max_degrade_level", JNum (num_of_Z 10));
   (js "channel_health_setting.min_weight_factor", JNum (Number (js "0.05")));
   (js "channel_health_setting.upgrade_threshold", JNum (num_of_Z 20));
   (js "channel_health_setting.streak_window_sec", JNum (num_of_Z 600));
   (js "channel_health_setting.demote_cooldown_sec", JNum (num_of_Z 60));
   (js "channel_health_setting.disable_threshold", JNum (num_of_Z 0));
   (js "channel_health_setting.max_ttft_ms", JNum (num_of_Z 0));
   (js "channel_health_setting.latency_degrade_base", JNum (num_of_Z 5));
   (js "channel_health_setting.latency_degrade_step", JNum (num_of_Z 5));
   (js "channel_health_setting.count_latency_as_error", JBool false);
   (js "channel_health_setting.rebounce_protection_minutes", JNum (num_of_Z 0));
   (js "channel_health_setting.rebounce_protection_threshold", JNum (num_of_Z 3));
   (js "channel_health_setting.notify_on_degrade", JBool false);
   (js "channel_health_setting.notify_on_upgrade", JBool false);
   (js "channel_health_setting.count_429_as_error", JBool true);
   (js "channel_health_setting.countable_status_codes", JStr []);
   (js "channel_health_setting.degrade_probe_enabled", JBool true);
   (js "channel_health_setting.degrade_probe_min_level", JNum (num_of_Z 1));
   (js "channel_health_setting.degrade_probe_minutes", JNum (num_of_Z 10));
   (js "channel_health_setting.degrade_probe_count", JNum (num_of_Z 5));
   (js "channel_health_setting.recovery_strategy", JStr (js "probe"));
   (js "channel_health_setting.recovery_probe_minutes", JNum (num_of_Z 30));
   (js "ChannelDisableThreshold", JStr []);
   (js "AutomaticDisableChannelEnabled", JBool false);
   (js "AutomaticEnableChannelEnabled", JBool false);
   (js "AutomaticDisableKeywords", JStr []);
   (js "AutomaticDisableStatusCodes", JStr (js "401"));
   (js "AutomaticRetryStatusCodes", JStr (js "100-199,300-399,401-407,409-499,500-503,505-523,525-599"));
   (js "ModelMissingKeywords", JStr []);
   (js "ModelMissingRemovalEnabled", JBool true);
   (js "ModelMissingRemovalCooldownSeconds", JNum (num_of_Z 60));
   (js "ModelMissingRecheckIntervalSeconds", JNum (num_of_Z 600));
   (js "ModelRateLimitRemovalEnabled", JBool false);
   (js "ModelRateLimitRecheckIntervalSeconds", JNum (num_of_Z 180));
   (js "ModelForbiddenKeywords", JStr (join [10%N] (map js ["Permission denied"; "does not have access to model"; "Operation not allowed"; "model not supported"; "unsupported model"]%string)));
   (js "ModelForbiddenStatusCodes", JStr (js "400,403"));
   (js "ModelForbiddenRemovalEnabled", JBool false);
   (js "ModelForbiddenRecheckIntervalSeconds", JNum (num_of_Z 1800));
   (js "ModelRemovalMaxRemovedPerChannel", JNum (num_of_Z 5));
   (js "ModelRemovalConsecutiveThreshold", JNum (num_of_Z 10));
   (js "ModelRemovalCapAction", JStr (js "alert_only"));
   (js "ModelMissingRemovalCapEnabled", JBool false);
   (js "ModelRemovalNotifyEnabled", JBool false);
   (js "channel_verify_setting.auto_verify_enabled", JBool false);
   (js "channel_verify_setting.global_interval_minutes", JNum (num_of_Z 360));
   (js "channel_verify_setting.score_drop_threshold", JNum (num_of_Z 5));
   (js "channel_verify_setting.notify_on_failure", JBool false);
   (js "channel_verify_setting.scheduler_tick_minutes", JNum (num_of_Z 30));
   (js "RetryTimes", JNum (num_of_Z 0));
   (js "relay_retry_setting.total_timeout_seconds", JNum (num_of_Z 0));
   (js "relay_retry_setting.backoff_base_ms", JNum (num_of_Z 0));
   (js "relay_retry_setting.backoff_max_ms", JNum (num_of_Z 2000));
   (js "relay_retry_setting.model_timeouts", JStr []);
   (js "retry_short_circuit_setting.enabled", JBool false);
   (js "retry_short_circuit_setting.min_duration_seconds", JNum (num_of_Z 300));
   (js "retry_short_circuit_setting.ttl_minutes", JNum (num_of_Z 15));
   (js "response_quality_setting.block_apology_enabled", JBool false);
   (js "response_quality_setting.apology_status_code", JNum (num_of_Z 503));
   (js "response_quality_setting.apology_message", JStr (js "upstream apology reply blocked"));
   (js "response_quality_setting.apology_keywords", JStr []);
   (js "response_quality_setting.apply_all_channels", JBool true);
   (js "response_quality_setting.block_low_token_enabled", JBool false);
   (js "response_quality_setting.low_token_threshold", JNum (num_of_Z 300));
   (js "response_quality_setting.low_token_status_code", JNum (num_of_Z 503));
   (js "response_quality_setting.low_token_message", JStr (js "upstream completion tokens {tokens} below {threshold}"));
   (js "response_quality_setting.retry_on_block", JBool false);
   (js "channel_routing_setting.mode", JStr (js "probabilistic"));
   (js "channel_routing_setting.capacity_window_sec", JNum (num_of_Z 60));
   (js "channel_routing_setting.full_strategy", JStr (js "fallback"));
   (js "channel_routing_setting.fail_mode", JStr (js "fail_open"));
   (js "channel_routing_setting.dry_run", JBool false);
   (js "channel_routing_setting.dry_run_sample_rate", JNum (Number (js "0.01")));
   (js "channel_routing_setting.queue_max_wait_ms", JNum (num_of_Z 30000));
   (js "channel_routing_setting.queue_poll_interval_ms", JNum (num_of_Z 500));
   (js "url_health_setting.fail_threshold", JNum (num_of_Z 3));
   (js "url_health_setting.cooldown_seconds", JNum (num_of_Z 60));
   (js "url_health_setting.ewma_alpha", JNum (Number (js "0.2")));
   (js "url_health_setting.hysteresis_ratio", JNum (Number (js "0.2")));
   (js "url_health_setting.hysteresis_min_ms", JNum (num_of_Z 50));
   (js "url_health_setting.exploration_gap_seconds", JNum (num_of_Z 30));
   (js "channel_affinity_setting.enabled", JBool false);
   (js "channel_affinity_setting.switch_on_success", JBool true);
   (js "channel_affinity_setting.max_entries", JNum (num_of_Z 100000));
   (js "channel_affinity_setting.default_ttl_seconds", JNum (num_of_Z 3600));
   (js "channel_affinity_setting.rules", JStr (js "[]"))].

Definition all_sections : list (list Field) :=
  [RoutingSection; DegradationSection; ScheduledProbesSection; ModelRemovalSection;
   ResponseQualitySection; RetrySection].

(** *** Opening and reading a form *)

Definition setting (d : obj json) (k : jsstr) : json := opt_or (obj_get k d) JNull.

(** The values the form opens with, nested by the part of the key before the
    dot. *)
Definition formDefaults (fields : list Field) (defaultValues : obj json) : json :=
  expandDotPaths (JObj (map (λ f, (key f, opened f (setting defaultValues (key f)))) fields)).

Definition flatten (fields : list Field) (values : json) : obj json :=
  map (λ f, (key f, sent f (opt_or (get_path values (split_on DOT (key f))) JNull))) fields.

Definition baseline (fields : list Field) (defaultValues : obj json) : obj json :=
  obj_assign defaultValues (map (λ f, (key f, kept f (setting defaultValues (key f)))) fields).

(** *** A form that was not edited *)

Lemma get_fields {V} (g : Field → V) fields f :
  NoDup (map key fields) → f ∈ fields → obj_get (key f) (map (λ f, (key f, g f)) fields) = Some (g f).
Proof.
  intros Hn Hf. apply obj_get_mem.
  - unfold obj_keys. by rewrite map_map.
  - apply list_elem_of_fmap. eauto.
Qed.

(** The keys of a section are paths, none on the way to another one. *)
Definition keys_apart (fields : list Field) : bool :=
  bool_decide (NoDup (map key fields)) &&
  forallb (λ k, forallb nonempty (split_on DOT k) &&
    forallb (λ k', bool_decide (k = k') || negb (bool_decide (split_on DOT k `prefix_of` split_on DOT k')))
      (map key fields)) (map key fields).

Lemma keys_nodup fields : keys_apart fields = true → NoDup (map key fields).
Proof. intros [H _]%andb_true_iff. by apply bool_decide_eq_true in H. Qed.

(** The values of a form are no objects if those of the settings are none. *)
Definition keeps_leaves (fields : list Field) : Prop :=
  Forall (λ f, ∀ v, isPlainObject v = false → isPlainObject (opened f v) = false) fields.

Lemma flat_fields fields (g : Field → json) :
  keys_apart fields = true → Forall (λ f, isPlainObject (g f) = false) fields →
  flat_settings (map (λ f, (key f, g f)) fields).
Proof.
  intros Hk Hg. pose proof (keys_nodup _ Hk) as Hn. apply andb_true_iff in Hk as [_ Hk].
  rewrite forallb_forall in Hk.
  assert (obj_keys (map (λ f, (key f, g f)) fields) = map key fields) as E by (unfold obj_keys; by rewrite map_map).
  split; rewrite ?E; [done| | |].
  - apply Forall_forall. intros kv (f & -> & Hf)%list_elem_of_fmap. simpl. by eapply (proj1 (Forall_forall _ _) Hg).
  - apply Forall_forall. intros k Hin. apply list_elem_of_In, Hk, andb_true_iff in Hin as [H _].
    rewrite forallb_forall in H. apply Forall_forall. intros w Hw%list_elem_of_In%H. by destruct w.
  - intros k k' Hin Hin' Hp. apply list_elem_of_In, Hk, andb_true_iff in Hin as [_ H].
    rewrite forallb_forall in H. apply list_elem_of_In, H, orb_true_iff in Hin' as [E'|E'].
    + by apply bool_decide_eq_true in E'.
    + apply negb_true_iff, bool_decide_eq_false in E'. done.
Qed.

Definition no_objects (d : obj json) : Prop := ∀ k, isPlainObject (setting d k) = false.

Lemma opened_get fields d f :
  keys_apart fields = true → keeps_leaves fields → no_objects d → f ∈ fields →
  get_path (formDefaults fields d) (split_on DOT (key f)) = Some (opened f (setting d (key f))).
Proof.
  intros Hk Hl Hd Hf. unfold formDefaults.
  assert (flat_settings (map (λ f, (key f, opened f (setting d (key f)))) fields)) as Hflat.
  { apply (flat_fields fields (λ f, opened f (setting d (key f)))); [done|].
    eapply Forall_impl; [exact Hl|]. intros f' H. apply H, Hd. }
  rewrite expand_obj by apply Hflat. apply (expand_leaf _ (key f)) in Hflat as E.
  rewrite (get_fields (λ f, opened f (setting d (key f)))) in E; [|by apply keys_nodup|done].
  by apply leaf_Some in E as [E _].
Qed.

Lemma baseline_field fields d f :
  NoDup (map key fields) → f ∈ fields → obj_get (key f) (baseline fields d) = Some (kept f (setting d (key f))).
Proof.
  intros Hn Hf. unfold baseline. rewrite obj_get_assign by (unfold obj_keys; by rewrite map_map).
  by rewrite (get_fields (λ f, kept f (setting d (key f)))).
Qed.

Lemma flatten_field fields values f :
  NoDup (map key fields) → f ∈ fields →
  obj_get (key f) (flatten fields values) = Some (sent f (opt_or (get_path values (split_on DOT (key f))) JNull)).
Proof. intros Hn Hf. by apply (get_fields (λ f, sent f (opt_or (get_path values (split_on DOT (key f))) JNull))). Qed.

Lemma one_of_leaf l d v : isPlainObject v = false → isPlainObject (one_of l d v) = false.
Proof. unfold one_of. by case_match. Qed.

Lemma qualityStatus_leaf v : isPlainObject v = false → isPlainObject (qualityStatus v) = false.
Proof. destruct v; try done. simpl. by case_match. Qed.

Lemma lines_leaf v : isPlainObject v = false → isPlainObject (lines_value v) = false.
Proof. by destruct v. Qed.

Lemma or_default_leaf d v : isPlainObject d = false → isPlainObject v = false → isPlainObject (or_default d v) = false.
Proof. unfold or_default. by case_match. Qed.

Lemma sections_fit sec : sec ∈ all_sections → keys_apart sec = true ∧ keeps_leaves sec.
Proof.
  intros H. repeat (apply elem_of_cons in H as [->|H]); [..|by apply not_elem_of_nil in H];
    (split; [vm_compute; reflexivity|]); unfold keeps_leaves; repeat apply Forall_cons_2; try apply Forall_nil_2;
    intros v Hv; try done; simpl; unfold normalizeCapAction;
    auto using one_of_leaf, qualityStatus_leaf, or_default_leaf, lines_leaf.
Qed.

Lemma no_objects_list d : forallb (λ kv, negb (isPlainObject kv.2)) d = true → no_objects d.
Proof.
  intros H k. unfold setting. destruct (obj_get k d) as [v|] eqn:E; [|done].
  apply obj_get_Some_mem, list_elem_of_In in E. rewrite forallb_forall in H.
  apply H in E. by apply negb_true_iff in E.
Qed.

(** Every field of a section has a default on the page. *)
Lemma defaults_cover sec f :
  sec ∈ all_sections → f ∈ sec → ∃ d, obj_get (key f) defaultChannelGovernanceSettings = Some d.
Proof.
  intros Hsec Hf.
  assert (forallb (forallb (λ f, obj_has (key f) defaultChannelGovernanceSettings)) all_sections = true) as H
    by (vm_compute; reflexivity).
  rewrite forallb_forall in H. apply list_elem_of_In, H in Hsec. rewrite forallb_forall in Hsec.
  apply list_elem_of_In, Hsec in Hf. unfold obj_has in Hf. destruct (obj_get _ _); [eauto|done].
Qed.

Lemma defaults_no_objects : no_objects defaultChannelGovernanceSettings.
Proof. apply no_objects_list. vm_compute. reflexivity. Qed.

Example windows :
  map (λ z, normalizeCapacityWindow (JNum (num_of_Z z))) [0; 60; 61; 90; 3601; -5]%Z =
  map (λ z, JNum (num_of_Z z)) [60; 60; 120; 120; 3600; 60]%Z.
Proof. vm_compute. reflexivity. Qed.

End Sections.

(** ** A section and the saving of its options *)

Module GovernanceForm.
Import SystemOptions Sections.
Import SettingsForm.SettingsForm (strict_eq).

(** An answer to [updateSystemOption]: saved, refused ([success: false], the
    option is left as it was), or no answer, with the option stored or not. *)
Inductive Reply := Accepted | Refused | Lost (stored : bool).

Inductive Toast :=
  | NoChanges
  | SettingsSaved
  | NothingSaved
  | SavedPartially (failed total : nat).

(** [save] between two requests: what is still to be sent, and its results. *)
Record Saving := mkSaving {
  normalized : obj json;
  todo : list jsstr;
  saved : obj json;
  failedKeys : list jsstr;
  attempted : nat }.

(** The options of the server, the values of the form with the text of the
    defaults it was last reset to, the baseline, a save under way. *)
Record State := mkState {
  server : obj jsstr;
  form : json;
  lastSerializedDefaults : jsstr;
  baselineRef : obj json;
  saving : option Saving;
  requests : list (jsstr * json);
  toasts : list Toast }.

Inductive Event :=
  | Type_ (v : json)                (** the user changes fields *)
  | Submit
  | Answer (r : Reply)              (** to the request under way *)
  | Fetch                           (** the options arrive and the page renders *)
  | Other (key text : jsstr).       (** somebody else saves an option *)

Definition changedKeys (normalized baseline : obj json) : list jsstr :=
  List.filter (λ k, negb (strict_eq (obj_get k normalized) (obj_get k baseline))) (obj_keys normalized).

Definition toast_of (s : Saving) : Toast :=
  match failedKeys s, saved s with
  | [], _ => SettingsSaved
  | _, [] => NothingSaved
  | failed, _ => SavedPartially (length failed) (attempted s)
  end.

Section Machine.
(** The default settings of the page, the fields of the section, the schema,
    and the text the server makes of a value. *)
Context (defaults : obj json) (fields : list Field) (resolve : json → option json) (encode : json → jsstr).

Definition settings_of (server : obj jsstr) : obj json := getOptionValue (Some server) defaults.

Definition mount (server : obj jsstr) : State :=
  let d := settings_of server in
  mkState server (formDefaults fields d) (JSON_stringify (formDefaults fields d)) (baseline fields d) None [] [].

(** [useResetForm] *)
Definition fetch (s : State) : State :=
  let values := formDefaults fields (settings_of (server s)) in
  let serializedDefaults := JSON_stringify values in
  if bool_decide (serializedDefaults = lastSerializedDefaults s) then s
  else mkState (server s) values serializedDefaults (baselineRef s) (saving s) (requests s) (toasts s).

(** [onSubmit] up to the first request. *)
Definition submit (s : State) : State :=
  match saving s, resolve (form s) with
  | None, Some values =>
      let normalized := flatten fields values in
      match changedKeys normalized (baselineRef s) with
      | [] => mkState (server s) (form s) (lastSerializedDefaults s) (baselineRef s) None
                (requests s) (toasts s ++ [NoChanges])
      | ks => mkState (server s) (form s) (lastSerializedDefaults s) (baselineRef s)
                (Some (mkSaving normalized ks [] [] (length ks))) (requests s) (toasts s)
      end
  | _, _ => s
  end.

Definition stores (r : Reply) : bool := match r with Accepted => true | Refused => false | Lost stored => stored end.
Definition confirmed (r : Reply) : bool := match r with Accepted => true | _ => false end.

(** One turn of the loop over [changedKeys]. *)
Definition record (sv : Saving) (k : jsstr) (rest : list jsstr) (r : Reply) : Saving :=
  if confirmed r
  then mkSaving (normalized sv) rest (obj_set k (setting (normalized sv) k) (saved sv)) (failedKeys sv) (attempted sv)
  else mkSaving (normalized sv) rest (saved sv) (failedKeys sv ++ [k]) (attempted sv).

(** The end of [save] and of [onSubmit]. *)
Definition finish (s : State) (sv : Saving) : State :=
  mkState (server s) (form s) (lastSerializedDefaults s) (obj_assign (baselineRef s) (saved sv)) None
    (requests s) (toasts s ++ [toast_of sv]).

Definition answer (s : State) (r : Reply) : State :=
  match saving s with
  | Some sv =>
      match todo sv with
      | k :: rest =>
          let v := setting (normalized sv) k in
          let sv' := record sv k rest r in
          let s' := mkState (if stores r then obj_set k (encode v) (server s) else server s)
            (form s) (lastSerializedDefaults s) (baselineRef s) (Some sv') (requests s ++ [(k, v)]) (toasts s) in
          match rest with [] => finish s' sv' | _ => s' end
      | [] => s
      end
  | None => s
  end.

Definition step (s : State) (e : Event) : State :=
  match e with
  | Type_ v => mkState (server s) v (lastSerializedDefaults s) (baselineRef s) (saving s) (requests s) (toasts s)
  | Submit => submit s
  | Answer r => answer s r
  | Fetch => fetch s
  | Other k t => mkState (obj_set k t (server s)) (form s) (lastSerializedDefaults s) (baselineRef s)
                   (saving s) (requests s) (toasts s)
  end.

Definition run (s : State) (es : list Event) : State := foldl step s es.

(** The value of an option at the server, as the page reads it. *)
Definition held (s : State) (k : jsstr) : json := setting (settings_of (server s)) k.

(** What the baseline says once the save under way has ended here. *)
Definition known (s : State) (k : jsstr) : option json :=
  match saving s with
  | Some sv => match obj_get k (saved sv) with Some v => Some v | None => obj_get k (baselineRef s) end
  | None => obj_get k (baselineRef s)
  end.

(** Nobody else saves, and no answer is lost after the option was stored. *)
Definition alone (e : Event) : bool :=
  match e with Other _ _ => false | Answer (Lost stored) => negb stored | _ => true end.

End Machine.

(** *** Lemmas *)

Lemma elem_of_changedKeys norm base k :
  k ∈ changedKeys norm base ↔ k ∈ obj_keys norm ∧ strict_eq (obj_get k norm) (obj_get k base) = false.
Proof. unfold changedKeys. by rewrite elem_of_bfilter, negb_true_iff. Qed.

Lemma flatten_keys fields values : obj_keys (flatten fields values) = map key fields.
Proof. unfold obj_keys, flatten. by rewrite map_map. Qed.

Lemma NoDup_changed fields values base :
  NoDup (map key fields) → NoDup (changedKeys (flatten fields values) base).
Proof. intros H. apply NoDup_bfilter. by rewrite flatten_keys. Qed.

Lemma last_text_get o k : NoDup (obj_keys o) → last_text o k = obj_get k o.
Proof.
  induction o as [|[k' t] o IH]; [done|]. intros [Hk Hn]%NoDup_cons. simpl in *. rewrite IH by done.
  destruct (decide (k = k')) as [->|]; [|by destruct (obj_get k o)].
  by apply obj_get_None in Hk as ->.
Qed.

Definition value_of (f : Field) (values : json) : json :=
  sent f (opt_or (get_path values (split_on DOT (key f))) JNull).

Lemma setting_flatten fields values f :
  NoDup (map key fields) → f ∈ fields → setting (flatten fields values) (key f) = value_of f values.
Proof. intros Hn Hf. unfold setting. by rewrite flatten_field. Qed.

(** What the page relies on: every option of the section has a default, and
    a value that passed the schema comes back from the server as it was sent,
    and as the sections keep it. *)
Class Fits (defaults : obj json) (fields : list Field) (resolve : json → option json) (encode : json → jsstr) : Prop := {
  fits_keys : keys_apart fields = true;
  fits_leaves : keeps_leaves fields;
  fits_scalars : no_objects defaults;
  fits_defaults f : f ∈ fields → ∃ d, obj_get (key f) defaults = Some d;
  fits_scalar v values f : resolve v = Some values → f ∈ fields → SettingsForm.SettingsForm.scalar (value_of f values) = true;
  fits_read v values f d : resolve v = Some values → f ∈ fields → obj_get (key f) defaults = Some d →
    outcome (parseOptionValueSafe (encode (value_of f values)) d) = value_of f values;
  fits_kept v values f : resolve v = Some values → f ∈ fields → kept f (value_of f values) = value_of f values }.

Section Laws.
Context {defaults : obj json} {fields : list Field} {resolve : json → option json} {encode : json → jsstr}.
Context {fits : Fits defaults fields resolve encode}.
Local Notation step := (step defaults fields resolve encode).
Local Notation run := (run defaults fields resolve encode).
Local Notation answer := (answer encode).
Local Notation held := (held defaults).

Lemma fields_nodup : NoDup (map key fields).
Proof. apply keys_nodup. by eapply fits_keys. Qed.

Lemma held_eq s k d :
  NoDup (obj_keys (server s)) → obj_get k defaults = Some d →
  held s k = match obj_get k (server s) with Some t => outcome (parseOptionValueSafe t d) | None => d end.
Proof.
  intros Hn Hd. unfold held, setting, settings_of. rewrite get_option_value. unfold setting_of.
  rewrite last_text_get, Hd by done. simpl. done.
Qed.

Lemma settings_no_objects options : no_objects (settings_of defaults options).
Proof.
  intros k. unfold setting, settings_of. rewrite get_option_value. unfold setting_of.
  pose proof (fits_scalars k) as H. unfold setting in H.
  destruct (obj_get k defaults) as [d|]; [|done]. simpl in *. destruct (last_text options k); [|done].
  by apply parse_no_object.
Qed.

(** A save under way works on what the schema let through. *)
Definition under_way (sv : Saving) : Prop :=
  ∃ v values, resolve v = Some values ∧ normalized sv = flatten fields values ∧
    NoDup (todo sv) ∧ (∀ k, k ∈ todo sv → ∃ f, f ∈ fields ∧ k = key f) ∧ NoDup (obj_keys (saved sv)).

(** The baseline is what the server holds. *)
Record in_step (s : State) : Prop := {
  in_step_server : NoDup (obj_keys (server s));
  in_step_known f : f ∈ fields → known s (key f) = Some (kept f (held s (key f)));
  in_step_saving sv : saving s = Some sv → under_way sv }.

Lemma in_step_mount server : NoDup (obj_keys server) → in_step (mount defaults fields server).
Proof.
  intros Hn. split; [done| |done]. intros f Hf. unfold known. simpl.
  rewrite baseline_field; [done|apply fields_nodup|done].
Qed.

(** A reply with no loss changes what is known as it changes what is held. *)
Lemma answer_parts s sv k rest r :
  saving s = Some sv → todo sv = k :: rest →
  server (answer s r) =
    (if stores r then obj_set k (encode (setting (normalized sv) k)) (server s) else server s) ∧
  saving (answer s r) = (match rest with [] => None | _ => Some (record sv k rest r) end) ∧
  (NoDup (obj_keys (saved sv)) → ∀ k', known (answer s r) k' = known
    (mkState (server s) (form s) (lastSerializedDefaults s) (baselineRef s) (Some (record sv k rest r)) (requests s) (toasts s)) k').
Proof.
  intros Hs Ht. unfold answer. rewrite Hs, Ht. destruct rest as [|k2 rest]; [|done].
  split_and!; [done..|]. intros Hn k'. unfold known, finish, record. simpl.
  rewrite obj_get_assign; [done|]. destruct (confirmed r); simpl; [by apply NoDup_keys_set|done].
Qed.

Lemma known_record s sv k rest r k' :
  saving s = Some sv →
  known (mkState (server s) (form s) (lastSerializedDefaults s) (baselineRef s) (Some (record sv k rest r)) (requests s) (toasts s)) k' =
  if confirmed r then (if decide (k' = k) then Some (setting (normalized sv) k) else known s k') else known s k'.
Proof.
  intros Hs. unfold known, record. rewrite Hs. destruct (confirmed r); simpl; [|done].
  rewrite obj_get_set. by destruct (decide (k' = k)).
Qed.

Lemma under_way_record sv k rest r : todo sv = k :: rest → under_way sv → under_way (record sv k rest r).
Proof.
  intros Ht (v & values & Hr & Hn & Hnd & Hk & Hs). exists v, values. rewrite Ht in Hnd, Hk.
  apply NoDup_cons in Hnd as [_ Hnd]. unfold record.
  destruct (confirmed r); simpl; (split_and!; [done..| |]); try done;
    try (intros k' Hin; apply Hk; by right); by apply NoDup_keys_set.
Qed.

Lemma in_step_answer s r : in_step s → alone (Answer r) = true → in_step (answer s r).
Proof.
  intros Hs Hr. destruct (saving s) as [sv|] eqn:Hsv; [|by unfold answer; rewrite Hsv].
  destruct (todo sv) as [|k rest] eqn:Ht; [by unfold answer; rewrite Hsv, Ht|].
  pose proof (in_step_saving _ Hs _ Hsv) as Hu. destruct (answer_parts s sv k rest r Hsv Ht) as (E1 & E2 & E3).
  destruct Hu as (v & values & Hres & Hn & Hnd & Hk & Hnk). specialize (E3 Hnk).
  pose proof (in_step_server _ Hs) as Hserver.
  assert (NoDup (obj_keys (server (answer s r)))) as Hserver'.
  { rewrite E1. destruct (stores r); [by apply NoDup_keys_set|done]. }
  split; [done| |].
  - intros f Hf. rewrite E3, known_record by done.
    destruct (fits_defaults f Hf) as [d Hd]. rewrite (held_eq (answer s r) _ d), E1 by done.
    pose proof (in_step_known _ Hs f Hf) as Hkn. rewrite (held_eq s _ d) in Hkn by done.
    destruct r as [| |[|]]; simpl in *; try done. rewrite obj_get_set.
    destruct (decide (key f = k)) as [<-|]; [|done]. rewrite Hn, setting_flatten by (apply fields_nodup || done).
    f_equal. erewrite fits_read by done. symmetry. by eapply fits_kept.
  - intros sv'. rewrite E2. destruct rest; [done|]. intros [= <-]. apply under_way_record; [done|]. by apply (in_step_saving _ Hs).
Qed.

Lemma submit_under_way s values :
  saving s = None → resolve (form s) = Some values →
  match changedKeys (flatten fields values) (baselineRef s) with
  | [] => submit fields resolve s =
      mkState (server s) (form s) (lastSerializedDefaults s) (baselineRef s) None (requests s) (toasts s ++ [NoChanges])
  | ks => ∃ sv, submit fields resolve s =
      mkState (server s) (form s) (lastSerializedDefaults s) (baselineRef s) (Some sv) (requests s) (toasts s) ∧
      sv = mkSaving (flatten fields values) ks [] [] (length ks) ∧ under_way sv
  end.
Proof.
  intros Hs Hr. unfold submit. rewrite Hs, Hr. destruct (changedKeys _ _) as [|k ks] eqn:E; [done|].
  eexists. split_and!; [done..|]. exists (form s), values. simpl. rewrite <- E. split_and!; try done.
  - apply NoDup_changed, fields_nodup.
  - intros k' [Hin _]%elem_of_changedKeys. rewrite flatten_keys in Hin.
    apply list_elem_of_fmap in Hin as (f & -> & Hf). eauto.
  - constructor.
Qed.

Lemma in_step_step s e : in_step s → alone e = true → in_step (step s e).
Proof.
  intros Hs He. destruct e as [v| |r| |k t]; try done; simpl.
  - destruct Hs. by split.
  - destruct (saving s) eqn:Hsv; [unfold submit; by rewrite Hsv|].
    destruct (resolve (form s)) as [values|] eqn:Hr; [|unfold submit; by rewrite Hsv, Hr].
    pose proof (submit_under_way s values Hsv Hr) as H.
    destruct Hs as [H1 H2 H3]. unfold known in H2. rewrite Hsv in H2.
    destruct (changedKeys _ _); [rewrite H; by split|].
    destruct H as (sv & -> & -> & Hu). split; [done|done|]. by intros sv [= <-].
  - by apply in_step_answer.
  - unfold fetch. case_bool_decide; [done|]. destruct Hs. by split.
Qed.

Lemma in_step_run s es : in_step s → forallb alone es = true → in_step (run s es).
Proof.
  revert s. induction es as [|e es IH]; intros s Hs He; [done|].
  apply andb_true_iff in He as [He Hes]. by apply IH; [apply in_step_step|].
Qed.

(** *** All the answers of a save *)

Lemma get_fold_set {V} (g : jsstr → V) (test : Reply → bool) (zs : list (jsstr * Reply)) (o : obj V) k :
  obj_get k (foldl (λ acc kr, if test kr.2 then obj_set kr.1 (g kr.1) acc else acc) o zs) =
  if decide (k ∈ map fst (List.filter (λ kr, test kr.2) zs)) then Some (g k) else obj_get k o.
Proof.
  revert o. induction zs as [|[k' r] zs IH]; intros o; [done|]. cbn [foldl List.filter fst snd]. rewrite IH.
  destruct (test r); [|done]. cbn [map fst]. rewrite obj_get_set.
  destruct (decide (k ∈ map fst _)) as [H|H]; [by rewrite decide_True by (by right)|].
  destruct (decide (k = k')) as [->|]; [by rewrite decide_True by (by left)|].
  rewrite decide_False; [done|]. by intros [?|?]%elem_of_cons.
Qed.

Definition keys_with (test : Reply → bool) (ks : list jsstr) (rs : list Reply) : list jsstr :=
  map fst (List.filter (λ kr, test kr.2) (zip ks rs)).

Definition saved_after (norm saved : obj json) (ks : list jsstr) (rs : list Reply) : obj json :=
  foldl (λ acc kr, if confirmed kr.2 then obj_set kr.1 (setting norm kr.1) acc else acc) saved (zip ks rs).

Definition server_after (norm : obj json) (server : obj jsstr) (ks : list jsstr) (rs : list Reply) : obj jsstr :=
  foldl (λ acc kr, if stores kr.2 then obj_set kr.1 (encode (setting norm kr.1)) acc else acc) server (zip ks rs).

Lemma answers_run s sv rs :
  saving s = Some sv → todo sv ≠ [] → length rs = length (todo sv) →
  foldl answer s rs =
  let saved := saved_after (normalized sv) (saved sv) (todo sv) rs in
  let failed := failedKeys sv ++ keys_with (λ r, negb (confirmed r)) (todo sv) rs in
  mkState (server_after (normalized sv) (server s) (todo sv) rs) (form s) (lastSerializedDefaults s)
    (obj_assign (baselineRef s) saved) None
    (requests s ++ map (λ k, (k, setting (normalized sv) k)) (todo sv))
    (toasts s ++ [toast_of (mkSaving (normalized sv) [] saved failed (attempted sv))]).
Proof.
  revert s sv. induction rs as [|r rs IH]; intros s sv Hs Ht Hl; [by destruct (todo sv)|].
  destruct (todo sv) as [|k rest] eqn:Hk; [done|]. injection Hl as Hl. cbn [foldl].
  destruct rest as [|k2 rest].
  - destruct rs; [|done]. cbn [foldl]. unfold answer, keys_with, saved_after, server_after. rewrite Hs, Hk.
    unfold finish, record. simpl. destruct r as [| |st]; simpl; by rewrite ?app_nil_r.
  - assert (saving (answer s r) = Some (record sv k (k2 :: rest) r)) as Hs'.
    { unfold answer. by rewrite Hs, Hk. }
    rewrite (IH _ _ Hs'); [|by unfold record; destruct (confirmed r)..].
    unfold answer, keys_with, saved_after, server_after. rewrite Hs, Hk. unfold record.
    destruct r as [| |st]; simpl; by rewrite <- ?app_assoc.
Qed.

Lemma run_answers s rs : run s (map Answer rs) = foldl answer s rs.
Proof. revert s. induction rs as [|r rs IH]; intros s; [done|]. apply IH. Qed.

Lemma NoDup_saved_after norm sv ks rs : NoDup (obj_keys sv) → NoDup (obj_keys (saved_after norm sv ks rs)).
Proof.
  unfold saved_after. generalize (zip ks rs). intros zs. revert sv. induction zs as [|[k r] zs IH]; intros sv H; [done|].
  simpl. apply IH. destruct (confirmed r); [by apply NoDup_keys_set|done].
Qed.

Lemma keys_with_cons test k ks r rs :
  keys_with test (k :: ks) (r :: rs) = if test r then k :: keys_with test ks rs else keys_with test ks rs.
Proof. unfold keys_with. simpl. by destruct (test r). Qed.

Lemma keys_with_sublist test ks rs : keys_with test ks rs `sublist_of` ks.
Proof.
  revert rs. induction ks as [|x ks IH]; intros [|r rs]; try apply sublist_nil_l.
  rewrite keys_with_cons. destruct (test r); [apply sublist_skip|apply sublist_cons]; apply IH.
Qed.

Lemma filter_ext_in (f g : jsstr → bool) ks : (∀ k, k ∈ ks → f k = g k) → List.filter f ks = List.filter g ks.
Proof.
  induction ks as [|x ks IH]; intros H; simpl; [done|]. rewrite (H x) by (by left).
  rewrite IH; [done|]. intros k Hk. apply H. by right.
Qed.

(** The keys without a confirmation are the others. *)
Lemma keys_with_filter ks rs :
  length rs = length ks → NoDup ks →
  List.filter (λ k, negb (bool_decide (k ∈ keys_with confirmed ks rs))) ks = keys_with (λ r, negb (confirmed r)) ks rs.
Proof.
  revert rs. induction ks as [|x ks IH]; intros [|r rs] Hl Hn; try done.
  apply NoDup_cons in Hn as [Hx Hn]. injection Hl as Hl. rewrite !keys_with_cons, <- IH by done.
  assert (x ∉ keys_with confirmed ks rs) as Hnot.
  { intros Hin. apply Hx. eapply elem_of_sublist; [done|apply keys_with_sublist]. }
  assert (∀ l : list jsstr, (∀ k, k ∈ ks → (k ∈ l ↔ k ∈ keys_with confirmed ks rs)) →
    List.filter (λ k, negb (bool_decide (k ∈ l))) ks = List.filter (λ k, negb (bool_decide (k ∈ keys_with confirmed ks rs))) ks) as Hf.
  { intros l H. apply filter_ext_in. intros k Hk. f_equal. by apply bool_decide_ext, H. }
  destruct (confirmed r); cbn [negb List.filter].
  - rewrite bool_decide_eq_true_2 by (by left). cbn [negb]. apply Hf. intros k Hk.
    rewrite elem_of_cons. split; [|by right]. by intros [->|?].
  - rewrite bool_decide_eq_false_2 by done. cbn [negb]. done.
Qed.

Lemma filter_and (f g : jsstr → bool) ks : List.filter (λ k, f k && g k) ks = List.filter g (List.filter f ks).
Proof. induction ks as [|x ks IH]; [done|]. simpl. destruct (f x); simpl; by rewrite IH. Qed.

(** The option keys a save has still to send. *)
Definition to_send (s : State) : list jsstr := match saving s with Some sv => todo sv | None => [] end.

Lemma to_send_submit s values :
  saving s = None → resolve (form s) = Some values →
  to_send (submit fields resolve s) = changedKeys (flatten fields values) (baselineRef s).
Proof.
  intros Hs Hr. pose proof (submit_under_way s values Hs Hr) as H. unfold to_send.
  destruct (changedKeys _ _); [by rewrite H|]. by destruct H as (sv & -> & -> & _).
Qed.


Lemma baseline_after s values rs k :
  obj_get k (obj_assign (baselineRef s)
    (saved_after (flatten fields values) [] (changedKeys (flatten fields values) (baselineRef s)) rs)) =
  if decide (k ∈ keys_with confirmed (changedKeys (flatten fields values) (baselineRef s)) rs)
  then Some (setting (flatten fields values) k) else obj_get k (baselineRef s).
Proof.
  rewrite obj_get_assign by (apply NoDup_saved_after; constructor).
  unfold saved_after. rewrite (get_fold_set (setting (flatten fields values)) confirmed). unfold keys_with.
  by destruct (decide _).
Qed.

(** C21: A save sends every changed option once, in the order of the form;
    with an answer to each it ends; the options that were not confirmed, and
    they alone, are sent again by the next save of the same values; the
    server holds the new value of the options it stored and its old one of
    the others; and the message counts the options that were not confirmed. *)
Theorem refused_sent_again s values rs :
  saving s = None → resolve (form s) = Some values →
  let norm := flatten fields values in
  let changed := changedKeys norm (baselineRef s) in
  changed ≠ [] → length rs = length changed →
  let s' := run s (Submit :: map Answer rs) in
  let failed := keys_with (λ r, negb (confirmed r)) changed rs in
  requests s' = requests s ++ map (λ k, (k, setting norm k)) changed ∧
  form s' = form s ∧ saving s' = None ∧
  to_send (step s' Submit) = failed ∧
  (∀ k, obj_get k (server s') =
     if decide (k ∈ keys_with stores changed rs) then Some (encode (setting norm k)) else obj_get k (server s)) ∧
  ∃ toast, toasts s' = toasts s ++ [toast] ∧
    (toast = SettingsSaved ↔ failed = []) ∧
    (∀ n t, toast = SavedPartially n t → n = length failed ∧ t = length changed).
Proof.
  intros Hs Hr norm changed Hne Hl s' failed.
  pose proof (submit_under_way s values Hs Hr) as H. fold norm changed in H.
  assert (∃ s1 sv, step s Submit = s1 ∧ saving s1 = Some sv ∧ sv = mkSaving norm changed [] [] (length changed) ∧
    requests s1 = requests s ∧ form s1 = form s ∧ server s1 = server s ∧ baselineRef s1 = baselineRef s ∧
    toasts s1 = toasts s) as (s1 & sv & E1 & Esv & -> & Ereq & Ef & Es & Eb & Et).
  { destruct changed; [done|]. destruct H as (sv & E & -> & _).
    change (step s Submit) with (submit fields resolve s). rewrite E. do 2 eexists. split_and!; reflexivity. }
  unfold s'. change (run s (Submit :: map Answer rs)) with (run (step s Submit) (map Answer rs)).
  rewrite run_answers, E1, (answers_run _ _ _ Esv) by done. cbn [normalized todo saved failedKeys attempted requests form saving server baselineRef toasts].
  rewrite Ereq, Ef, Es, Eb, Et. split_and!; [done..| | |].
  - change (step ?s Submit) with (submit fields resolve s).
    rewrite (to_send_submit _ values) by done. cbn [baselineRef].
    set (acc := keys_with confirmed changed rs).
    assert (failed = List.filter (λ k, negb (bool_decide (k ∈ acc))) (changedKeys norm (baselineRef s))) as ->.
    { unfold failed, acc. symmetry. apply keys_with_filter; [done|]. apply NoDup_changed, fields_nodup. }
    unfold changedKeys at 1 2. rewrite <- filter_and.
    apply filter_ext_in. intros k Hk. fold norm.
    pose proof (baseline_after s values rs k) as Hb. fold norm changed in Hb. rewrite Hb. clear Hb.
    fold acc. destruct (decide (k ∈ acc)) as [Hin|Hin].
    + rewrite bool_decide_eq_true_2, andb_false_r by done. apply negb_false_iff.
      unfold norm in Hk. rewrite flatten_keys in Hk. apply list_elem_of_fmap in Hk as (f & -> & Hf).
      unfold norm. rewrite flatten_field, setting_flatten by (apply fields_nodup || done).
      apply SettingsForm.SettingsForm.strict_eq_refl. by eapply fits_scalar.
    + by rewrite bool_decide_eq_false_2, andb_true_r by done.
  - intros k. unfold server_after. by rewrite (get_fold_set (λ k, encode (setting norm k)) stores).
  - eexists. split; [done|]. unfold toast_of. cbn [failedKeys saved attempted]. fold failed. simpl.
    destruct failed as [|x l]; [by split|]. split; [split; [by destruct (saved_after _ _ _ _)|done]|].
    intros n t E. destruct (saved_after _ _ _ _); [done|]. by injection E as <- <-.
Qed.

(** The baseline of a section does not follow the options that arrive.
    When somebody else has saved an option, the form shows the new value once
    it has arrived; a user who sets the field back to what the section opened
    with is told that there is nothing to save, no request is made, and the
    server keeps the other value. *)
Theorem edit_back_never_sent options f text d v values :
  NoDup (obj_keys options) → f ∈ fields → obj_get (key f) defaults = Some d →
  resolve v = Some values →
  (∀ g, g ∈ fields → value_of g values = kept g (setting (settings_of defaults options) (key g))) →
  let s := mount defaults fields options in
  let seen := run s [Other (key f) text; Fetch] in
  let s' := run seen [Type_ v; Submit] in
  JSON_stringify (formDefaults fields (settings_of defaults (obj_set (key f) text options))) ≠ lastSerializedDefaults s →
  get_path (form seen) (split_on DOT (key f)) = Some (opened f (outcome (parseOptionValueSafe text d))) ∧
  requests s' = [] ∧ toasts s' = [NoChanges] ∧ saving s' = None ∧
  held s' (key f) = outcome (parseOptionValueSafe text d).
Proof.
  intros Ho Hf Hd Hv Hg s seen s' Htext.
  pose proof (settings_no_objects (obj_set (key f) text options)) as Hob.
  assert (Hnd : NoDup (obj_keys (obj_set (key f) text options))) by by apply NoDup_keys_set.
  assert (Ehold : setting (settings_of defaults (obj_set (key f) text options)) (key f) = outcome (parseOptionValueSafe text d)).
  { unfold setting, settings_of. rewrite get_option_value, last_text_get by done. unfold setting_of.
    by rewrite obj_get_set_eq, Hd. }
  assert (Eseen : seen = mkState (obj_set (key f) text options)
    (formDefaults fields (settings_of defaults (obj_set (key f) text options)))
    (JSON_stringify (formDefaults fields (settings_of defaults (obj_set (key f) text options))))
    (baselineRef s) None [] []).
  { unfold seen. simpl. unfold fetch. cbn [server lastSerializedDefaults mount]. by rewrite bool_decide_eq_false_2. }
  split; [rewrite Eseen; cbn [form]; rewrite opened_get, Ehold by (eapply fits_keys || eapply fits_leaves || done); done|].
  assert (changedKeys (flatten fields values) (baselineRef s) = []) as Hc.
  { unfold changedKeys. apply bfilter_none. intros k Hk. rewrite flatten_keys in Hk.
    apply list_elem_of_fmap in Hk as (g & -> & Hgin). apply negb_false_iff.
    rewrite flatten_field by (apply fields_nodup || done). unfold s. simpl.
    rewrite baseline_field by (apply fields_nodup || done).
    fold (value_of g values). rewrite <- Hg by done. apply SettingsForm.SettingsForm.strict_eq_refl. by eapply fits_scalar. }
  assert (Es' : s' = mkState (obj_set (key f) text options) v (lastSerializedDefaults seen) (baselineRef s) None [] [NoChanges]).
  { unfold s'. rewrite Eseen. simpl. unfold submit. cbn [saving form baselineRef]. rewrite Hv.
    change (baselineRef s) with (baseline fields (settings_of defaults options)) in Hc.
    by rewrite Hc. }
  rewrite Es'. split_and!; [done..|]. unfold held. simpl. apply Ehold.
Qed.

End Laws.

(** A section that is opened and saved without an edit sends, of its
    options, those whose stored value is not one that the form shows: a mode,
    a strategy, a status code or a message of another form than the section
    expects; and nothing at all where every stored value is one of its own. *)
Lemma untouched_section_sends sec d :
  sec ∈ all_sections → no_objects d →
  changedKeys (flatten sec (formDefaults sec d)) (baseline sec d) =
  map key (List.filter (λ f,
    negb (strict_eq (Some (sent f (opened f (setting d (key f))))) (Some (kept f (setting d (key f)))))) sec).
Proof.
  intros Hsec Hd. destruct (sections_fit sec Hsec) as [Hk Hl]. pose proof (keys_nodup _ Hk) as Hn.
  unfold changedKeys. rewrite flatten_keys.
  assert (∀ l, l ⊆ sec → List.filter (λ k, negb (strict_eq (obj_get k (flatten sec (formDefaults sec d)))
      (obj_get k (baseline sec d)))) (map key l) =
    map key (List.filter (λ f,
      negb (strict_eq (Some (sent f (opened f (setting d (key f))))) (Some (kept f (setting d (key f)))))) l)) as H.
  { induction l as [|f l IH]; intros Hsub; [done|]. cbn [map List.filter].
    assert (f ∈ sec) as Hf by (apply Hsub; by left).
    rewrite flatten_field, baseline_field, opened_get by done. cbn [opt_or].
    rewrite IH by (intros g Hg; apply Hsub; by right). by case_match. }
  by apply H.
Qed.

Lemma untouched_section_sends_witness :
  changedKeys (flatten RoutingSection (formDefaults RoutingSection defaultChannelGovernanceSettings))
    (baseline RoutingSection defaultChannelGovernanceSettings) = [].
Proof.
  assert (H : RoutingSection ∈ all_sections) by (left; fail || constructor).
  rewrite (untouched_section_sends RoutingSection defaultChannelGovernanceSettings H defaults_no_objects).
  vm_compute. reflexivity.
Defined.

(** A stored window that is no multiple of sixty is shown as the next one;
    the baseline is the value shown, so it is not sent and the server keeps
    its own. *)
Example window_hidden :
  let d := obj_set (js "channel_routing_setting.capacity_window_sec") (JNum (num_of_Z 90)) defaultChannelGovernanceSettings in
  let form := formDefaults RoutingSection d in
  get_path form [js "channel_routing_setting"; js "capacity_window_sec"] = Some (JNum (num_of_Z 120)) ∧
  changedKeys (flatten RoutingSection form) (baseline RoutingSection d) = [].
Proof. vm_compute. done. Qed.

(** An unknown mode is shown as the first one, and sent. *)
Example mode_sent :
  let d := obj_set (js "channel_routing_setting.mode") (JStr (js "x")) defaultChannelGovernanceSettings in
  changedKeys (flatten RoutingSection (formDefaults RoutingSection d)) (baseline RoutingSection d)
  = [js "channel_routing_setting.mode"].
Proof. vm_compute. done. Qed.

(** *** A server and a schema that fit *)

(** The text of a value, and the forms whose values come back. *)
Definition comes_back (defaults : obj json) (encode : json → jsstr) (values : json) (f : Field) : bool :=
  let x := value_of f values in
  SettingsForm.SettingsForm.scalar x && json_eqb (kept f x) x &&
  match obj_get (key f) defaults with
  | Some d => json_eqb (outcome (parseOptionValueSafe (encode x) d)) x
  | None => false
  end.

Definition checked (defaults : obj json) (fields : list Field) (encode : json → jsstr) (v : json) : option json :=
  if forallb (comes_back defaults encode v) fields then Some v else None.

Lemma reference_fits sec encode :
  sec ∈ all_sections → Fits defaultChannelGovernanceSettings sec (checked defaultChannelGovernanceSettings sec encode) encode.
Proof.
  intros Hsec. destruct (sections_fit sec Hsec) as [Hk Hl].
  assert (∀ v values f, checked defaultChannelGovernanceSettings sec encode v = Some values → f ∈ sec →
    comes_back defaultChannelGovernanceSettings encode values f = true) as H.
  { intros v values f Hv Hf. unfold checked in Hv. destruct (forallb _ sec) eqn:E; [|done]. injection Hv as <-.
    rewrite forallb_forall in E. by apply E, list_elem_of_In. }
  unfold comes_back in H. split; [done|done|exact defaults_no_objects|by intros; eapply defaults_cover|..].
  - intros v values f Hv Hf. specialize (H v values f Hv Hf). by apply andb_true_iff in H as [[H _]%andb_true_iff _].
  - intros v values f d Hv Hf Hd. specialize (H v values f Hv Hf). rewrite Hd in H.
    apply andb_true_iff in H as [_ H]. by apply json_eqb_spec.
  - intros v values f Hv Hf. specialize (H v values f Hv Hf). apply andb_true_iff in H as [[_ H]%andb_true_iff _].
    by apply json_eqb_spec.
Qed.

Definition retry_form (times : Z) (codes : string) : json :=
  formDefaults RetrySection
    (obj_set (js "RetryTimes") (JNum (num_of_Z times))
      (obj_set (js "AutomaticRetryStatusCodes") (JStr (js codes)) defaultChannelGovernanceSettings)).

Definition retry_check : json → option json := checked defaultChannelGovernanceSettings RetrySection json_to_string.

Definition retry_opened : State :=
  mount defaultChannelGovernanceSettings RetrySection [(js "RetryTimes", js "2"); (js "AutomaticRetryStatusCodes", js "500")].

Definition retry_typed : State :=
  run defaultChannelGovernanceSettings RetrySection retry_check json_to_string retry_opened [Type_ (retry_form 3 "429")].

Lemma retry_member : RetrySection ∈ all_sections.
Proof. do 5 right. by left. Qed.

#[export] Instance retry_fits : Fits defaultChannelGovernanceSettings RetrySection retry_check json_to_string :=
  reference_fits RetrySection json_to_string retry_member.


Lemma refused_sent_again_witness :
  let s' := run defaultChannelGovernanceSettings RetrySection retry_check json_to_string retry_typed
    (Submit :: map Answer [Accepted; Refused]) in
  to_send (step defaultChannelGovernanceSettings RetrySection retry_check json_to_string s' Submit)
  = [js "AutomaticRetryStatusCodes"].
Proof.
  destruct (refused_sent_again (fits := retry_fits) retry_typed (retry_form 3 "429") [Accepted; Refused])
    as (_ & _ & _ & H & _).
  - reflexivity.
  - vm_compute. reflexivity.
  - vm_compute. discriminate.
  - vm_compute. reflexivity.
  - cbv zeta. rewrite H. vm_compute. reflexivity.
Defined.

(** Once the other option has been saved, the options are loaded again and
    the form goes back to what the server holds: the refused value is gone
    and there is nothing left to send. *)
Example refused_value_dropped :
  let s := run defaultChannelGovernanceSettings RetrySection retry_check json_to_string retry_typed
    [Submit; Answer Accepted; Answer Refused; Fetch] in
  get_path (form s) [js "AutomaticRetryStatusCodes"] = Some (JStr (js "500")) ∧
  toasts s = [SavedPartially 1 2] ∧
  to_send (step defaultChannelGovernanceSettings RetrySection retry_check json_to_string s Submit) = [].
Proof. vm_compute. done. Qed.

Lemma edit_back_never_sent_witness :
  let s := mount defaultChannelGovernanceSettings RetrySection
    [(js "RetryTimes", js "2"); (js "AutomaticRetryStatusCodes", js "500")] in
  let seen := run defaultChannelGovernanceSettings RetrySection retry_check json_to_string s
    [Other (key (plain "RetryTimes")) (js "7"); Fetch] in
  let s' := run defaultChannelGovernanceSettings RetrySection retry_check json_to_string seen
    [Type_ (retry_form 2 "500"); Submit] in
  toasts s' = [NoChanges] ∧
  held defaultChannelGovernanceSettings s' (key (plain "RetryTimes")) =
  outcome (parseOptionValueSafe (js "7") (JNum (num_of_Z 0))).
Proof.
  destruct (edit_back_never_sent (fits := retry_fits)
    [(js "RetryTimes", js "2"); (js "AutomaticRetryStatusCodes", js "500")] (plain "RetryTimes") (js "7")
    (JNum (num_of_Z 0)) (retry_form 2 "500") (retry_form 2 "500")) as (_ & _ & H1 & _ & H2).
  - apply (bool_decide_eq_true_1 _). vm_compute. reflexivity.
  - by left.
  - vm_compute. reflexivity.
  - vm_compute. reflexivity.
  - intros g Hg. repeat (apply elem_of_cons in Hg as [->|Hg]; [vm_compute; reflexivity|]). by apply not_elem_of_nil in Hg.
  - vm_compute. discriminate.
  - exact (conj H1 H2).
Defined.

End GovernanceForm.
