(* ===== verification/UsageLogs.v ===== *)
(** * The usage logs

    [features/usage-logs]: Module [LogQuery] follows the filters of the page
    from the bar above the table through the address to the request
    ([lib/filter.ts], [lib/chain-search.ts], [lib/utils.ts], the filter bars).

    Times are whole milliseconds.  The address is what the schema of the route
    lets through. *)
From S2P Require Import Prelude JSString JSNumber JSON TableUrl.
Local Open Scope Z_scope.

Module LogQuery.

(** The search part of the address ([usageLogsSearchSchema]). *)
Record Search := mkSearch {
  page : option num;
  pageSize : option num;
  type_ : option (list jsstr);
  filter_ : option jsstr;
  model : option jsstr;
  token : option jsstr;
  channel : option jsstr;
  group : option jsstr;
  username : option jsstr;
  requestId : option jsstr;
  order_asc : bool;
  startTime : option Z;
  endTime : option Z }.

Definition no_search : Search :=
  mkSearch None None None None None None None None None None false None None.

(** [x] when it is a text that is not empty *)
Definition some_text (s : option jsstr) : option jsstr :=
  match s with Some (_ :: _) => s | _ => None end.

(** ** [lib/filter.ts] *)

Inductive LogCategory := Common | Drawing | Task.

Record LogFilters := mkFilters {
  from_time : option Z;
  to_time : option Z;
  f_channel : option jsstr;
  f_model : option jsstr;
  f_token : option jsstr;
  f_group : option jsstr;
  f_username : option jsstr;
  f_requestId : option jsstr;
  mjId : option jsstr;
  taskId : option jsstr }.

Definition trimStr (v : option jsstr) : option jsstr :=
  match v with
  | Some v => let t := trim v in if nonempty t then Some t else None
  | None => None
  end.

Definition buildSearchParams (filters : LogFilters) (logCategory : LogCategory) : Search :=
  let base model token group username requestId filter :=
    mkSearch None None None filter model token (trimStr (f_channel filters)) group username requestId false
      (from_time filters) (to_time filters) in
  match logCategory with
  | Common => base (trimStr (f_model filters)) (trimStr (f_token filters)) (trimStr (f_group filters))
                (trimStr (f_username filters)) (trimStr (f_requestId filters)) None
  | Drawing => base None None None None None (trimStr (mjId filters))
  | Task => base None None None None None (trimStr (taskId filters))
  end.

(** ** [components/common-logs-filter-bar.tsx] *)

Definition logTypeValues : list jsstr := map js ["0"; "1"; "2"; "3"; "4"; "5"; "6"]%string.
Definition isLogTypeValue (v : jsstr) : bool := bool_decide (v ∈ logTypeValues).

(** The inputs of the bar; an empty type is none. *)
Record Bar := mkBar { filters : LogFilters; logType : option jsstr }.

(** [x ? new Date(x) : prev] *)
Definition time_or (t prev : option Z) : option Z :=
  match t with Some t => if t =? 0 then prev else Some t | None => prev end.

(** The effect that follows the address. *)
Definition read_address (prev : LogFilters) (s : Search) : Bar :=
  mkBar (mkFilters (time_or (startTime s) (from_time prev)) (time_or (endTime s) (to_time prev))
      (some_text (channel s)) (some_text (model s)) (some_text (token s)) (some_text (group s))
      (some_text (username s)) (some_text (requestId s)) None None)
    (match type_ s with Some [t] => if isLogTypeValue t then Some t else None | _ => None end).

Definition handleApply (b : Bar) (s : Search) : Search :=
  let f := buildSearchParams (filters b) Common in
  mkSearch (Some (num_of_Z 1)) None ((λ t, [t]) <$> logType b) (filter_ f) (model f) (token f) (channel f) (group f)
    (username f) (requestId f)
    (order_asc s && match trimStr (f_requestId (filters b)) with Some _ => true | None => false end)
    (startTime f) (endTime f).

Definition handleReset (start end_ : Z) : Search :=
  mkSearch (Some (num_of_Z 1)) None None None None None None None None None false (Some start) (Some end_).

(** ** [lib/chain-search.ts] *)

Definition CHAIN_LOOKBACK_MS : Z := 3 * 60 * 60 * 1000.

Record ChainLogSearchInput := mkChain {
  c_requestId : jsstr;
  createdAtSec : option Z;
  c_startTime : option Z;
  c_endTime : option Z;
  c_pageSize : option num;
  c_model : option jsstr;
  c_token : option jsstr;
  c_group : option jsstr;
  c_username : option jsstr }.

Definition present (value : option jsstr) : option jsstr :=
  match value with
  | Some value => let trimmed := trim value in if nonempty trimmed then Some trimmed else None
  | None => None
  end.

Definition clickedMs (now : Z) (input : ChainLogSearchInput) : Z :=
  match createdAtSec input with Some t => if 0 <? t then t * 1000 else now | None => now end.

Definition buildChainLogSearch (now : Z) (input : ChainLogSearchInput) : Search :=
  let clickedMs := clickedMs now input in
  let lookbackStart := clickedMs - CHAIN_LOOKBACK_MS in
  mkSearch (Some (num_of_Z 1))
    (match c_pageSize input with Some n => if num_truthy n then Some n else None | None => None end)
    None None (present (c_model input)) (present (c_token input)) None (present (c_group input))
    (present (c_username input)) (Some (trim (c_requestId input))) true
    (Some (match c_startTime input with Some t => Z.min t lookbackStart | None => lookbackStart end))
    (Some (match c_endTime input with Some t => Z.max t clickedMs | None => clickedMs end)).

(** ** [lib/utils.ts] *)

Definition timestampToSeconds (ms : Z) : Z := ms / 1000.

(** [s.replace(/^"|"$/g, '')] *)
Definition strip_quotes (s : jsstr) : jsstr :=
  let s := match s with c :: s' => if (c =? DQ)%N then s' else s | [] => [] end in
  match reverse s with c :: s' => if (c =? DQ)%N then reverse s' else s | [] => [] end.

Definition normalizeChannelId (raw : option json) : num :=
  match raw with
  | None | Some JNull | Some (JStr []) => num_zero
  | Some v =>
      let n := Number (trim (strip_quotes (json_to_string v))) in
      if num_is_finite n then n else num_zero
  end.

Definition trimText (raw : option jsstr) : jsstr := trim (opt_or raw []).

Definition text_opt (s : jsstr) : option jsstr := if nonempty s then Some s else None.

(** [!(startTime ?? endTime)] *)
Definition no_time_params (s : Search) : bool :=
  match (match startTime s with Some t => Some t | None => endTime s end) with
  | Some t => t =? 0
  | None => true
  end.

(** [range] is [getDefaultTimeRange()]. *)
Definition buildTimeRangeParams (range : Z * Z) (s : Search) (useMilliseconds : bool) : option Z * option Z :=
  let defaultTimeRange := if no_time_params s then Some range else None in
  let convertTimestamp t := if useMilliseconds then t else timestampToSeconds t in
  let getTimestamp paramTime defaultTime :=
    match time_or paramTime defaultTime with
    | Some time => if time =? 0 then None else Some (convertTimestamp time)
    | None => None
    end in
  (getTimestamp (startTime s) (fst <$> defaultTimeRange), getTimestamp (endTime s) (snd <$> defaultTimeRange)).

(** The midnight before [now], and the hour after. *)
Definition getDefaultTimeRange (midnight : Z → Z) (now : Z) : Z * Z := (midnight now, now + 3600 * 1000).

Record GetLogsParams := mkParams {
  p : num;
  page_size : num;
  p_type : option num;
  model_name : option jsstr;
  token_name : option jsstr;
  p_group : option jsstr;
  p_channel : option num;
  p_username : option jsstr;
  request_id : option jsstr;
  p_order : bool;
  start_timestamp : option Z;
  end_timestamp : option Z }.

Definition processType (value : json) : option num :=
  match value with JArr [v] => Some (json_to_number v) | _ => None end.

Definition baseApiParams (range : Z * Z) (page pageSize : num) (s : Search) (isAdmin : bool) : GetLogsParams :=
  let requestId := trimText (requestId s) in
  let times := buildTimeRangeParams range s false in
  mkParams page pageSize
    (match type_ s with Some l => processType (JArr (map JStr l)) | None => None end)
    (text_opt (trimText (model s))) (text_opt (trimText (token s))) (text_opt (trimText (group s)))
    (if isAdmin then (λ c, normalizeChannelId (Some (JStr c))) <$> some_text (channel s) else None)
    (if isAdmin then text_opt (trimText (username s)) else None)
    (text_opt requestId) (nonempty requestId && order_asc s) times.1 times.2.

Definition chain_view (s : Search) : bool := nonempty (trimText (requestId s)) && order_asc s.

(** [typeof value === 'string' ? value.trim() : value] *)
Definition trimmed_value (value : json) : json := match value with JStr t => JStr (trim t) | _ => value end.

(** The body of the loop over the filters of the columns. *)
Definition apply_filter (isAdmin chainView : bool) (params : GetLogsParams) (cf : TableUrl.ColumnFilter) : GetLogsParams :=
  let id := TableUrl.id cf in
  let value := TableUrl.value cf in
  match value with
  | JNull | JStr [] => params
  | _ =>
      let trimmed := trimmed_value value in
      if json_eqb trimmed (JStr []) then params else
      let text := Some (json_to_string trimmed) in
      let '(mkParams p n ty m tk g ch u r o st en) := params in
      if bool_decide (id = js "type")
      then mkParams p n (if chainView then ty else processType value) m tk g ch u r o st en
      else if bool_decide (id = js "model_name") then mkParams p n ty text tk g ch u r o st en
      else if bool_decide (id = js "token_name") then mkParams p n ty m text g ch u r o st en
      else if bool_decide (id = js "group") then mkParams p n ty m tk text ch u r o st en
      else if bool_decide (id = js "channel")
      then mkParams p n ty m tk g (if isAdmin && negb chainView then Some (normalizeChannelId (Some value)) else ch) u r o st en
      else if bool_decide (id = js "username")
      then mkParams p n ty m tk g ch (if isAdmin then text else u) r o st en
      else params
  end.

Definition buildApiParams (range : Z * Z) (page pageSize : num) (s : Search)
    (columnFilters : list TableUrl.ColumnFilter) (isAdmin : bool) : GetLogsParams :=
  foldl (apply_filter isAdmin (chain_view s)) (baseApiParams range page pageSize s isAdmin) columnFilters.

(** The requests for drawings and tasks. *)
Record TaskParams := mkTask {
  t_p : num;
  t_page_size : num;
  channel_id : option jsstr;
  t_start : option Z;
  t_end : option Z;
  mj_id : option jsstr;
  task_id : option jsstr }.

Definition buildBaseParams (range : Z * Z) (page pageSize : num) (s : Search) (useMilliseconds : bool) : TaskParams :=
  let times := buildTimeRangeParams range s useMilliseconds in
  mkTask page pageSize
    ((λ c, let n := normalizeChannelId (Some (JStr c)) in if num_truthy n then num_to_string n else []) <$> some_text (channel s))
    times.1 times.2 None None.

Inductive Request := CommonLogs (params : GetLogsParams) | DrawingLogs (params : TaskParams) | TaskLogs (params : TaskParams).

(** What is asked of the list for administrators or of that of the user. *)
Definition fetchLogsByCategory (range : Z * Z) (logCategory : LogCategory) (isAdmin : bool) (page pageSize : num)
    (s : Search) (columnFilters : list TableUrl.ColumnFilter) : bool * Request :=
  let filterText := text_opt (trimText (filter_ s)) in
  match logCategory with
  | Common => (isAdmin, CommonLogs (buildApiParams range page pageSize s columnFilters isAdmin))
  | Drawing =>
      let b := buildBaseParams range page pageSize s true in
      (isAdmin, DrawingLogs (mkTask (t_p b) (t_page_size b) (channel_id b) (t_start b) (t_end b) filterText None))
  | Task =>
      let b := buildBaseParams range page pageSize s false in
      (isAdmin, TaskLogs (mkTask (t_p b) (t_page_size b) (channel_id b) (t_start b) (t_end b) None filterText))
  end.

Example channels :
  map (λ s, normalizeChannelId (Some (JStr s))) [js "80"; jq "`80`"; js " 7 "; js "abc"; js ""; jq "`"] =
  map num_of_Z [80; 80; 7; 0; 0; 0].
Proof. vm_compute. reflexivity. Qed.

(** ** The table of the page: [components/usage-logs-table.tsx] *)

Definition text_column (columnId searchKey : string) : TableUrl.ColumnCfg :=
  TableUrl.mkCfg (js columnId) (js searchKey) (Some TableUrl.FString) None None.

Definition usage_columns (isAdmin : bool) : list TableUrl.ColumnCfg :=
  [TableUrl.mkCfg (js "created_at") (js "type") (Some TableUrl.FArray) None None;
   text_column "model_name" "model"; text_column "token_name" "token"; text_column "group" "group"] ++
  (if isAdmin then [text_column "channel" "channel"; text_column "username" "username"] else []).

Definition usage_table (isMobile isAdmin : bool) : TableUrl.Params :=
  TableUrl.mkParams None None (Some (num_of_Z 1)) (Some (num_of_Z (if isMobile then 20 else 100)))
    None (Some false) None (usage_columns isAdmin).

(** The address as the table reads it. *)
Definition search_record (s : Search) : TableUrl.SearchRecord :=
  [(js "page", JNum <$> page s); (js "pageSize", JNum <$> pageSize s);
   (js "type", (λ l, JArr (map JStr l)) <$> type_ s); (js "filter", JStr <$> filter_ s);
   (js "model", JStr <$> model s); (js "token", JStr <$> token s); (js "channel", JStr <$> channel s);
   (js "group", JStr <$> group s); (js "username", JStr <$> username s); (js "requestId", JStr <$> requestId s);
   (js "order", if order_asc s then Some (JStr (js "asc")) else None)].

(** The filters of the columns, once the table has followed the address. *)
Definition column_filters (isAdmin : bool) (s : Search) : list TableUrl.ColumnFilter :=
  omap (TableUrl.collect (search_record s)) (usage_columns isAdmin).

(** *** Lemmas *)

Lemma trimStr_present v : trimStr v = present v.
Proof. done. Qed.

Lemma text_opt_trim v : text_opt (trimText v) = trimStr v.
Proof. destruct v as [v|]; [|done]. unfold trimText, trimStr, text_opt. simpl. by destruct (nonempty (trim v)). Qed.

Lemma trimStr_idemp v : trimStr (trimStr v) = trimStr v.
Proof.
  destruct v as [v|]; [|done]. unfold trimStr. destruct (nonempty (trim v)) eqn:E; [|done].
  by rewrite trim_idemp, E.
Qed.

Lemma trimStr_some_text v : trimStr (some_text v) = trimStr v.
Proof. by destruct v as [[|c v]|]. Qed.

Lemma some_text_trimStr v : some_text (trimStr v) = trimStr v.
Proof. destruct v as [v|]; [|done]. unfold trimStr. by destruct (trim v). Qed.

Lemma nonempty_trim_cons v : nonempty (trim v) = true → ∃ c w, v = c :: w.
Proof. destruct v; [done|eauto]. Qed.

(** The filter that a column of texts has in the address. *)
Lemma collect_text s columnId searchKey v :
  TableUrl.param (js searchKey) (search_record s) = JStr <$> v →
  TableUrl.collect (search_record s) (text_column columnId searchKey) =
  if nonempty (trimText v) then Some (TableUrl.mkFilter (js columnId) (JStr (opt_or v []))) else None.
Proof. intros E. unfold TableUrl.collect, TableUrl.set_value. cbn [text_column TableUrl.searchKey TableUrl.deserialize TableUrl.ctype opt_or]. rewrite E. by destruct v. Qed.

(** One column: its filter writes what is there already. *)
Definition step_column (isAdmin : bool) (s : Search) (params : GetLogsParams) (c : TableUrl.ColumnCfg) : GetLogsParams :=
  match TableUrl.collect (search_record s) c with
  | Some cf => apply_filter isAdmin (chain_view s) params cf
  | None => params
  end.

Lemma fold_columns isAdmin s params cs :
  foldl (apply_filter isAdmin (chain_view s)) params (omap (TableUrl.collect (search_record s)) cs) =
  foldl (step_column isAdmin s) params cs.
Proof.
  revert params. induction cs as [|c cs IH]; intros params; [done|]. cbn [foldl omap list_omap].
  rewrite <- IH. unfold step_column. by destruct (TableUrl.collect (search_record s) c).
Qed.

Lemma apply_text isAdmin chainView params columnId v :
  nonempty (trimText v) = true →
  apply_filter isAdmin chainView params (TableUrl.mkFilter (js columnId) (JStr (opt_or v []))) =
  let text := Some (trimText v) in
  let '(mkParams p n ty m tk g ch u r o st en) := params in
  if bool_decide (js columnId = js "type") then mkParams p n (if chainView then ty else None) m tk g ch u r o st en
  else if bool_decide (js columnId = js "model_name") then mkParams p n ty text tk g ch u r o st en
  else if bool_decide (js columnId = js "token_name") then mkParams p n ty m text g ch u r o st en
  else if bool_decide (js columnId = js "group") then mkParams p n ty m tk text ch u r o st en
  else if bool_decide (js columnId = js "channel")
  then mkParams p n ty m tk g (if isAdmin && negb chainView then Some (normalizeChannelId (Some (JStr (opt_or v [])))) else ch) u r o st en
  else if bool_decide (js columnId = js "username")
  then mkParams p n ty m tk g ch (if isAdmin then text else u) r o st en
  else params.
Proof.
  intros H. unfold apply_filter. cbn [TableUrl.id TableUrl.value]. destruct v as [v|]; [|done]. cbn [opt_or] in *.
  unfold trimText in *. cbn [opt_or] in *. destruct (nonempty_trim_cons _ H) as (c & w & ->).
  cbn [trimmed_value json_to_string]. set (t := trim (c :: w)) in *.
  assert (json_eqb (JStr t) (JStr []) = false) as -> by (by destruct t).
  by destruct params.
Qed.

(** The type of a log has no filter that the request looks at. *)
Lemma created_idle isAdmin s params :
  step_column isAdmin s params (TableUrl.mkCfg (js "created_at") (js "type") (Some TableUrl.FArray) None None) = params.
Proof.
  unfold step_column, TableUrl.collect.
  change (TableUrl.param (TableUrl.searchKey (TableUrl.mkCfg (js "created_at") (js "type") (Some TableUrl.FArray) None None)) (search_record s))
    with ((λ l, JArr (map JStr l)) <$> type_ s).
  destruct (type_ s) as [[|x l]|]; [done| |done]. by destruct params.
Qed.

Lemma column_filters_idle_eq range page pageSize s isAdmin :
  buildApiParams range page pageSize s (column_filters isAdmin s) isAdmin =
  baseApiParams range page pageSize s isAdmin.
Proof.
  unfold buildApiParams, column_filters. rewrite fold_columns. unfold usage_columns. rewrite foldl_app.
  set (b := baseApiParams range page pageSize s isAdmin).
  assert (∀ columnId searchKey v, TableUrl.param (js searchKey) (search_record s) = JStr <$> v →
    (nonempty (trimText v) = true →
       apply_filter isAdmin (chain_view s) b (TableUrl.mkFilter (js columnId) (JStr (opt_or v []))) = b) →
    step_column isAdmin s b (text_column columnId searchKey) = b) as Hstep.
  { intros columnId searchKey v Hv H. unfold step_column. rewrite (collect_text _ _ _ v) by done.
    destruct (nonempty (trimText v)); [by apply H|done]. }
  cbn [foldl].
  rewrite created_idle.
  rewrite (Hstep _ _ (model s)) by (done || (intros H; rewrite apply_text by done; unfold b, baseApiParams, text_opt; by rewrite H)).
  rewrite (Hstep _ _ (token s)) by (done || (intros H; rewrite apply_text by done; unfold b, baseApiParams, text_opt; by rewrite H)).
  rewrite (Hstep _ _ (group s)) by (done || (intros H; rewrite apply_text by done; unfold b, baseApiParams, text_opt; by rewrite H)).
  destruct isAdmin; [|done]. cbn [foldl].
  rewrite (Hstep _ _ (channel s)).
  - apply (Hstep _ _ (username s)); [done|]. intros H. rewrite apply_text by done. unfold b, baseApiParams, text_opt. by rewrite H.
  - done.
  - intros H. rewrite apply_text by done. unfold b, baseApiParams.
    destruct (channel s) as [v|]; [|done]. destruct (nonempty_trim_cons v H) as (c & w & ->). by destruct (chain_view s).
Qed.

(** *** The bar and the address *)

(** The inputs of the bar as they are used: with both times, and a type of
    the list. *)
Definition bar_ok (b : Bar) (from to : Z) : Prop :=
  from_time (filters b) = Some from ∧ to_time (filters b) = Some to ∧ from ≠ 0 ∧ to ≠ 0 ∧
  (∀ t, logType b = Some t → isLogTypeValue t = true).

Lemma time_or_same t prev : t ≠ 0 → time_or (Some t) prev = Some t.
Proof. intros H. unfold time_or. by apply Z.eqb_neq in H as ->. Qed.

(** What the bar holds is what is asked for. *)
Lemma applied_params b s range page pageSize isAdmin from to :
  bar_ok b from to →
  let q := baseApiParams range page pageSize (handleApply b s) isAdmin in
  p_type q = Number <$> logType b ∧
  model_name q = trimStr (f_model (filters b)) ∧ token_name q = trimStr (f_token (filters b)) ∧
  p_group q = trimStr (f_group (filters b)) ∧ request_id q = trimStr (f_requestId (filters b)) ∧
  p_username q = (if isAdmin then trimStr (f_username (filters b)) else None) ∧
  p_channel q = (if isAdmin then (λ c, normalizeChannelId (Some (JStr c))) <$> trimStr (f_channel (filters b)) else None) ∧
  p_order q = order_asc s && (match trimStr (f_requestId (filters b)) with Some _ => true | None => false end) ∧
  start_timestamp q = Some (from / 1000) ∧ end_timestamp q = Some (to / 1000).
Proof.
  intros (Hf & Ht & Hf0 & Ht0 & _). simpl. unfold buildSearchParams. cbn [model token group requestId username channel startTime endTime].
  rewrite !text_opt_trim, !trimStr_idemp, some_text_trimStr. split_and!; try done.
  - by destruct (logType b).
  - unfold trimText. destruct (trimStr (f_requestId (filters b))) as [r|] eqn:E; [|by rewrite andb_false_r].
    assert (trimStr (Some r) = Some r) as E' by (rewrite <- E; apply trimStr_idemp). unfold trimStr in E'. cbn [opt_or].
    destruct (nonempty (trim r)); [|done]. by rewrite andb_true_r.
  - unfold buildTimeRangeParams, no_time_params. cbn [startTime endTime fst snd]. rewrite Hf, time_or_same by done.
    by rewrite (proj2 (Z.eqb_neq _ _) Hf0).
  - unfold buildTimeRangeParams, no_time_params. cbn [startTime endTime fst snd]. rewrite Ht, time_or_same by done.
    by rewrite (proj2 (Z.eqb_neq _ _) Ht0).
Qed.


(** The filters that the table keeps for its columns, once they have
    followed the address, change nothing: the request is the one of the
    address alone, for administrators and for users. *)
Theorem column_filters_idle range page pageSize s isAdmin :
  fetchLogsByCategory range Common isAdmin page pageSize s (column_filters isAdmin s) =
  fetchLogsByCategory range Common isAdmin page pageSize s [].
Proof. unfold fetchLogsByCategory. by rewrite column_filters_idle_eq. Qed.

(** *** The chain of a request *)

Lemma chain_fields isAdmin params cf :
  let q := apply_filter isAdmin true params cf in
  p_type q = p_type params ∧ p_channel q = p_channel params ∧ request_id q = request_id params ∧
  p_order q = p_order params ∧ start_timestamp q = start_timestamp params ∧ end_timestamp q = end_timestamp params.
Proof.
  unfold apply_filter. destruct params. rewrite andb_false_r.
  destruct (TableUrl.value cf) as [| | |[|c t]|l|o]; repeat case_bool_decide; repeat case_match; done.
Qed.

Lemma chain_fold isAdmin params cfs :
  let q := foldl (apply_filter isAdmin true) params cfs in
  p_type q = p_type params ∧ p_channel q = p_channel params ∧ request_id q = request_id params ∧
  p_order q = p_order params ∧ start_timestamp q = start_timestamp params ∧ end_timestamp q = end_timestamp params.
Proof.
  revert params. induction cfs as [|cf cfs IH]; intros params; [done|]. cbn [foldl].
  specialize (IH (apply_filter isAdmin true params cf)). destruct (chain_fields isAdmin params cf) as (H1 & H2 & H3 & H4 & H5 & H6).
  simpl in *. destruct IH as (I1 & I2 & I3 & I4 & I5 & I6). by rewrite I1, I2, I3, I4, I5, I6.
Qed.

(** The link to the chain of a log, whatever filters the table still has:
    the request asks for the id of the request, from the earliest record, of
    every type and channel; its window begins at least three hours before the
    log, does not end before it, and holds the window the page had. *)
Theorem chain_query_spec now input t range page pageSize isAdmin cfs :
  createdAtSec input = Some t → 10800 < t → trim (c_requestId input) ≠ [] →
  (∀ z, c_startTime input = Some z → 0 < z) →
  let q := buildApiParams range page pageSize (buildChainLogSearch now input) cfs isAdmin in
  request_id q = Some (trim (c_requestId input)) ∧ p_order q = true ∧ p_type q = None ∧ p_channel q = None ∧
  ∃ a b, start_timestamp q = Some a ∧ end_timestamp q = Some b ∧ a ≤ t - 10800 ∧ t ≤ b ∧
    (∀ z, c_startTime input = Some z → a ≤ z / 1000) ∧ (∀ z, c_endTime input = Some z → z / 1000 ≤ b).
Proof.
  intros Ht Hpos Hid Hstart. set (s := buildChainLogSearch now input).
  assert (clickedMs now input = t * 1000) as Hclick.
  { unfold clickedMs. rewrite Ht. by rewrite (proj2 (Z.ltb_lt 0 t)) by lia. }
  assert (nonempty (trim (c_requestId input)) = true) as Hne by by destruct (trim (c_requestId input)).
  assert (chain_view s = true) as Hc.
  { unfold chain_view, s, trimText. simpl. by rewrite trim_idemp, Hne. }
  intros q. unfold q, buildApiParams. rewrite Hc.
  destruct (chain_fold isAdmin (baseApiParams range page pageSize s isAdmin) cfs) as (-> & -> & -> & -> & -> & ->).
  assert (startTime s = Some (match c_startTime input with Some z => Z.min z (t * 1000 - CHAIN_LOOKBACK_MS) | None => t * 1000 - CHAIN_LOOKBACK_MS end)) as Hs
    by (unfold s, buildChainLogSearch; by rewrite Hclick).
  assert (endTime s = Some (match c_endTime input with Some z => Z.max z (t * 1000) | None => t * 1000 end)) as He
    by (unfold s, buildChainLogSearch; by rewrite Hclick).
  unfold CHAIN_LOOKBACK_MS in *. revert Hs He.
  set (a := match c_startTime input with Some z => _ | None => _ end).
  set (b := match c_endTime input with Some z => _ | None => _ end). intros Hs He.
  assert (0 < a ∧ a ≤ t * 1000 - 10800000) as [Ha Ha'].
  { unfold a. destruct (c_startTime input) as [z|] eqn:E; [pose proof (Hstart _ eq_refl)|]; lia. }
  assert (t * 1000 ≤ b) as Hb by (unfold b; destruct (c_endTime input); lia).
  unfold baseApiParams. cbn [request_id p_order p_type p_channel start_timestamp end_timestamp].
  unfold buildTimeRangeParams. cbn [fst snd]. rewrite Hs, He, !time_or_same by lia.
  rewrite !(proj2 (Z.eqb_neq _ _)) by lia.
  split_and!.
  - unfold s, trimText, text_opt. simpl. by rewrite trim_idemp, Hne.
  - exact Hc.
  - done.
  - by destruct isAdmin.
  - exists (timestampToSeconds a), (timestampToSeconds b). unfold timestampToSeconds. split_and!; [done|done| | | |].
    + transitivity ((t - 10800) * 1000 / 1000); [apply Z.div_le_mono; lia|]. by rewrite Z.div_mul.
    + transitivity (t * 1000 / 1000); [by rewrite Z.div_mul|]. apply Z.div_le_mono; lia.
    + intros z E. unfold a. rewrite E. apply Z.div_le_mono; lia.
    + intros z E. unfold b. rewrite E. apply Z.div_le_mono; lia.
Qed.

(** Without an end in the address the window ends with the log itself: what
    the same request logged later is not in it. *)
Lemma chain_later_cut now input t range page pageSize isAdmin :
  createdAtSec input = Some t → 0 < t → c_endTime input = None →
  end_timestamp (buildApiParams range page pageSize (buildChainLogSearch now input) [] isAdmin) = Some t.
Proof.
  intros Ht Hpos He. unfold buildApiParams, baseApiParams, buildTimeRangeParams. cbn [foldl end_timestamp snd].
  assert (endTime (buildChainLogSearch now input) = Some (t * 1000)) as ->.
  { unfold buildChainLogSearch, clickedMs. rewrite Ht, He, (proj2 (Z.ltb_lt 0 t)) by lia. done. }
  rewrite time_or_same by lia. rewrite (proj2 (Z.eqb_neq _ _)) by lia. unfold timestampToSeconds. by rewrite Z.div_mul.
Qed.

(** *** Witnesses *)

Definition sample_bar : Bar :=
  mkBar (mkFilters (Some 1700000000000) (Some 1700003600000) (Some (js " 80 ")) (Some (js " gpt ")) (Some []) None
    (Some (js "ann")) None None None) (Some (js "5")).


Definition sample_chain : ChainLogSearchInput :=
  mkChain (js " r1 ") (Some 1700000000) None None None (Some (js "gpt")) None None None.

Lemma chain_query_spec_witness :
  let q := buildApiParams (0, 0) num_zero num_zero (buildChainLogSearch 0 sample_chain)
    [TableUrl.mkFilter (js "channel") (JStr (js "80"))] true in
  request_id q = Some (js "r1") ∧ p_channel q = None.
Proof.
  destruct (chain_query_spec 0 sample_chain 1700000000 (0, 0) num_zero num_zero true
    [TableUrl.mkFilter (js "channel") (JStr (js "80"))]) as (H1 & _ & _ & H2 & _).
  - reflexivity.
  - lia.
  - vm_compute. discriminate.
  - discriminate.
  - exact (conj H1 H2).
Defined.

End LogQuery.
