(* ===== verification/LogPrices.v ===== *)
(** * What a usage log says of its price

    [features/usage-logs/lib/format.ts], the cell of details of
    [components/columns/common-logs-columns.tsx] and the billing rows of
    [components/dialogs/details-dialog.tsx].  A log keeps the expression it was
    billed by, in Base64, and the name of the tier that matched; the pages read
    the prices of that tier back from the expression.

    The field [other] of a log is the JSON value its text parses to.  Where
    the code computes with a number or prints a text without asking for its
    type, the model reads the field at the type that [LogOtherData] declares;
    of another type it counts as missing.  Lower case, the decoder of UTF-8,
    the formatting of amounts and the translation are parameters. *)
From Stdlib Require Import Reals.
From S2P Require Import Prelude JSString JSNumber JSON Base64 Regex BillingExpr TierExpr TierReading Currency PriceTable.
Import Base64 Vars Tiers TierReading.
Local Open Scope Z_scope.

Module LogPrices.

(** ** The payload of a log *)

Definition prop_of (other : json) (k : string) : option json := json_prop other (js k).
Definition number_of (other : json) (k : string) : option num :=
  match prop_of other k with Some (JNum n) => Some n | _ => None end.
Definition text_of (other : json) (k : string) : option jsstr :=
  match prop_of other k with Some (JStr s) => Some s | _ => None end.
Definition truthy_of (other : json) (k : string) : bool :=
  match prop_of other k with Some v => json_truthy v | None => false end.

Definition parseLogOther (other : jsstr) : option json :=
  match other with [] => None | _ => JSON_parse other end.

(** [other] where the code asks [!other] *)
Definition some_other (other : option json) : option json :=
  match other with Some v => if json_truthy v then Some v else None | None => None end.

Definition isViolationFeeLog (other : option json) : bool :=
  match some_other other with
  | None => false
  | Some other =>
      bool_decide (prop_of other "violation_fee" = Some (JBool true)) ||
      truthy_of other "violation_fee_code" || truthy_of other "violation_fee_marker"
  end.

(** The line up to its first space, and what follows. *)
Definition parseAuditLine (line : jsstr) : jsstr * jsstr :=
  match index_of_from (js " ") line 0 with
  | Some (S k) => (take (S k) line, drop (S (S k)) line)
  | _ => (line, line)
  end.

(** The channels that were tried, in order; [None] is [null]. *)
Definition formatChannelChain (useChannel : option (list json)) : option jsstr :=
  match useChannel with
  | None => None
  | Some l =>
      if (length l <? 2)%nat then None else
      let ids := List.filter nonempty (map (λ id, trim (json_to_string id)) l) in
      if (length ids <? 2)%nat then None else Some (join (js ">") ids)
  end.

Inductive Colour := Success | Warning | Danger.

Definition getTimeColor (seconds : num) : Colour :=
  if num_ltb seconds (num_of_Z 10) then Success else if num_ltb seconds (num_of_Z 30) then Warning else Danger.
Definition getFirstResponseTimeColor (seconds : num) : Colour :=
  if num_ltb seconds (num_of_Z 5) then Success else if num_ltb seconds (num_of_Z 10) then Warning else Danger.
Definition getThroughputColor (tokensPerSecond : num) : Colour :=
  if num_leb (num_of_Z 30) tokensPerSecond then Success
  else if num_leb (num_of_Z 15) tokensPerSecond then Warning else Danger.
Definition getResponseTimeColor (seconds completionTokens : num) : Colour :=
  if num_ltb completionTokens (num_of_Z 100) || num_leb seconds num_zero then getTimeColor seconds
  else getThroughputColor (num_div completionTokens seconds).

Record ModelName := mkName {
  name : jsstr;
  isMapped : bool;
  actualModel : option json;
  returnedModel : option json;
  mismatch : bool }.

(** [other] of a log whose text is [log_other]. *)
Definition formatModelName (model_name log_other : jsstr) : ModelName :=
  let other := some_other (parseLogOther log_other) in
  let response_model := other ≫= λ o, prop_of o "response_model" in
  let isMapped := match other with
    | Some o => truthy_of o "is_model_mapped" && truthy_of o "upstream_model_name"
    | None => false end in
  mkName model_name isMapped
    (if isMapped then other ≫= λ o, prop_of o "upstream_model_name" else None)
    (response_model ≫= λ r, prop_of r "returned_model")
    (match response_model with Some r => truthy_of r "mismatch" | None => false end).

(** Submission and end, in milliseconds unless the unit is the second; the
    flag says that it took more than a minute. *)
Definition formatDuration (submitTime finishTime : option num) (seconds : bool) : option (num * bool) :=
  match submitTime, finishTime with
  | Some submitTime, Some finishTime =>
      if num_truthy submitTime && num_truthy finishTime then
        let d := num_sub finishTime submitTime in
        let durationSec := if seconds then d else num_div d (num_of_Z 1000) in
        Some (durationSec, num_ltb (num_of_Z 60) durationSec)
      else None
  | _, _ => None
  end.

(** ** The tier of a log *)

Definition LESS : jschar := 60%N.
Definition MORE : jschar := 62%N.

(** [.replace(/<[=＝]?|≤|＜[=＝]?/g, '<')], with the signs of either. *)
Definition equals_sign (c : jschar) : bool := ((c =? 61) || (c =? 65309))%N.
Fixpoint one_sign (sign full both : jschar) (s : jsstr) : jsstr :=
  match s with
  | [] => []
  | c :: r =>
      if ((c =? sign) || (c =? full))%N
      then sign :: match r with e :: r' => if equals_sign e then one_sign sign full both r' else one_sign sign full both r | [] => [] end
      else (if (c =? both)%N then sign else c) :: one_sign sign full both r
  end.

Definition short_label (v : BillingVar) : jsstr :=
  opt_or (obj_get (key v) (map (λ kl, (js kl.1, js kl.2))
    [("p", "Input"); ("c", "Output"); ("len", "Length"); ("cr", "Cache Read"); ("cc", "Cache Write");
     ("cc1h", "Cache Write (1h)"); ("img", "Image In"); ("img_o", "Image Out"); ("ai", "Audio In");
     ("ao", "Audio Out")]%string)) [].

(** [v.group === 'cache'] *)
Definition is_cache (v : BillingVar) : bool := bool_decide (key v ∈ map js ["cr"; "cc"; "cc1h"]%string).

Record PriceEntry := mkEntry { e_field : jsstr; shortLabel : jsstr; price : num }.

Record TieredBillingSummary := mkSummary {
  tiers : list ParsedTier;
  tier : ParsedTier;
  priceEntries : list PriceEntry }.

(** [(other.k || 0) > 0] *)
Definition positive_of (other : json) (k : string) : bool :=
  match prop_of other k with
  | Some v => json_truthy v && num_ltb num_zero (json_to_number v)
  | None => false
  end.

Definition hasAnyCacheTokens (other : option json) : bool :=
  match some_other other with
  | None => false
  | Some other =>
      positive_of other "cache_tokens" || positive_of other "cache_creation_tokens" ||
      positive_of other "cache_creation_tokens_5m" || positive_of other "cache_creation_tokens_1h"
  end.

(** The entry of a variable, in the order of [BILLING_PRICING_VARS]. *)
Definition price_entry (cacheTokensPresent : bool) (tier : ParsedTier) (v : BillingVar) : option PriceEntry :=
  f ← field v;
  if negb (nonempty f) || (is_cache v && negb cacheTokensPresent) then None else
  let price := opt_or (obj_get f (prices tier)) S754_nan in
  if PriceTable.positive_price price then Some (mkEntry f (short_label v) price) else None.

Section Reading.
Context (toLowerCase : jsstr → jsstr) (TextDecoder : list N → jsstr).

Definition normalizeTierLabel (label : jsstr) : jsstr :=
  match label with
  | [] => []
  | _ =>
      let s := one_sign LESS 65308 8804 label in
      let s := one_sign MORE 65310 8805 s in
      toLowerCase (List.filter (λ c, negb (is_ws c)) s)
  end.

Definition decodeBillingExprB64 (exprB64 : option json) : jsstr :=
  match exprB64 with
  | Some v => if json_truthy v then match atob (json_to_string v) with Some bytes => TextDecoder bytes | None => [] end else []
  | None => []
  end.

Definition same_label (matchedLabel : jsstr) (tier : ParsedTier) : bool :=
  let l1 := normalizeTierLabel (parsed_label tier) in
  let l2 := normalizeTierLabel matchedLabel in
  bool_decide (l1 = l2) && nonempty l1.

(** The outer [None] is the exception of [label.replace] on what is no text. *)
Definition resolveMatchedTier (tiers : list ParsedTier) (matchedLabel : option json) : option (option ParsedTier) :=
  match tiers, matchedLabel with
  | [], _ | _, None => Some None
  | _, Some v =>
      if negb (json_truthy v) then Some None else
      match v with JStr matchedLabel => Some (List.find (same_label matchedLabel) tiers) | _ => None end
  end.

Definition getTieredBillingSummary (other : option json) : option (option TieredBillingSummary) :=
  match some_other other with
  | None => Some None
  | Some other =>
      if negb (bool_decide (prop_of other "billing_mode" = Some (JStr (js "tiered_expr")))) then Some None else
      let exprStr := decodeBillingExprB64 (prop_of other "expr_b64") in
      if negb (nonempty exprStr) then Some None else
      let tiers := parseTiersFromExpr exprStr in
      match resolveMatchedTier tiers (prop_of other "matched_tier") with
      | None => None
      | Some None => Some None
      | Some (Some tier) =>
          Some (Some (mkSummary tiers tier
            (omap (price_entry (hasAnyCacheTokens (Some other)) tier) BILLING_PRICING_VARS)))
      end
  end.

(** ** The cell of details *)

Record DetailSegment := mkSegment { text : jsstr; muted : bool; danger : bool }.

(** The texts that the pages show: amounts, and the words in a language. *)
Context (intl : option jsstr → nat → num → jsstr) (config : Currency.CurrencyConfig) (t : jsstr → jsstr).

Definition plain_segment (text : jsstr) : DetailSegment := mkSegment text false false.
Definition muted_segment (text : jsstr) : DetailSegment := mkSegment text true false.
Definition danger_segment (text : jsstr) : DetailSegment := mkSegment text false true.

(** [' · '] *)
Definition MIDDOT : jsstr := [32; 183; 32]%N.

(** [x.toFixed(4).replace(/\.?0+$/, '')] *)
Definition cut_zeros (s : jsstr) : jsstr :=
  match reverse s with
  | c :: r => if (c =? 48)%N then reverse (Currency.drop_dot (Currency.drop_zeros r)) else s
  | [] => s
  end.

Definition formatRatioCompact (ratio : option num) : jsstr :=
  match ratio with
  | Some ratio =>
      if negb (num_is_finite ratio) then js "-" else
      match num_integer ratio with
      | Some _ => num_to_string ratio
      | None => cut_zeros (Currency.toFixed ratio 4)
      end
  | None => js "-"
  end.

(** A ratio that is there and is not the number that stands for none. *)
Definition ratio_but (none : Z) (ratio : option num) : option num :=
  match ratio with
  | Some r => if negb (num_eqb r (num_of_Z none)) && num_is_finite r then Some r else None
  | None => None
  end.

Definition getGroupRatioText (other : option json) : option jsstr :=
  match other ≫= λ o, ratio_but (-1) (number_of o "user_group_ratio") with
  | Some r => Some (formatRatioCompact (Some r) ++ js "x")
  | None => (λ r, formatRatioCompact (Some r) ++ js "x") <$> (other ≫= λ o, ratio_but 1 (number_of o "group_ratio"))
  end.

Definition formatPriceCompact (price : num) : jsstr :=
  Currency.formatBillingCurrencyFromUSD intl config (Some price) (Some PriceTable.digits46).
Definition formatPrice (price : num) : jsstr := formatPriceCompact price ++ js "/M".
Definition formatPriceList (prices : list jsstr) (showUnit : bool) : jsstr :=
  let text := join (js " / ") prices in if showUnit then text ++ js "/M" else text.

Definition BASE_FIELDS : list jsstr := map js ["inputPrice"; "outputPrice"]%string.
Definition CACHE_FIELDS : list jsstr := map js ["cacheReadPrice"; "cacheCreatePrice"; "cacheCreate1hPrice"]%string.

Definition isPerCallBilling (modelPrice : option num) : bool := num_ltb num_zero (opt_or modelPrice num_zero).

(** A segment of what is in the list, if anything is. *)
Definition segment_of (l : list jsstr) (f : list jsstr → DetailSegment) : list DetailSegment :=
  match l with [] => [] | _ => [f l] end.

Definition tiered_segments (tieredSummary : option TieredBillingSummary) : list DetailSegment :=
  match tieredSummary with
  | None => [muted_segment (t (js "Dynamic Pricing") ++ MIDDOT ++ t (js "No matching results"))]
  | Some s =>
      let entries_in keep := List.filter (λ e, keep (e_field e)) (priceEntries s) in
      let among fields f := bool_decide (f ∈ fields) in
      segment_of (map (λ e, formatPriceCompact (price e)) (entries_in (among BASE_FIELDS)))
        (λ l, plain_segment (str_or (parsed_label (tier s)) (t (js "Default")) ++ MIDDOT ++ formatPriceList l true)) ++
      segment_of (map (λ e, formatPriceCompact (price e)) (entries_in (among CACHE_FIELDS)))
        (λ l, muted_segment (t (js "Cache") ++ js " " ++ formatPriceList l false)) ++
      segment_of (map (λ e, t (shortLabel e) ++ js " " ++ formatPrice (price e))
          (entries_in (λ f, negb (among (BASE_FIELDS ++ CACHE_FIELDS) f))))
        (λ l, muted_segment (join MIDDOT l))
  end.

(** The price of the cache at a ratio that is there and is not [none]. *)
Definition cache_price (inputPriceUSD : num) (none : Z) (ratio : option num) : option jsstr :=
  match ratio with
  | Some r => if num_eqb r (num_of_Z none) then None else Some (formatPriceCompact (num_mul inputPriceUSD r))
  | None => None
  end.

Definition standard_segments (other : json) : list DetailSegment :=
  let number := number_of other in
  if isPerCallBilling (number "model_price")
  then [plain_segment (t (js "Per-call") ++ MIDDOT ++ formatPriceCompact (opt_or (number "model_price") num_zero))]
  else match number "model_ratio" with
  | Some model_ratio =>
      let inputPriceUSD := num_mul model_ratio (num_of_Z 2) in
      let baseEntries := formatPriceCompact inputPriceUSD ::
        match number "completion_ratio" with Some r => [formatPriceCompact (num_mul inputPriceUSD r)] | None => [] end in
      plain_segment (t (js "Standard") ++ MIDDOT ++ formatPriceList baseEntries true) ::
      (if hasAnyCacheTokens (Some other) then
         segment_of (List.filter nonempty (omap (λ x, x)
             [cache_price inputPriceUSD 1 (number "cache_ratio"); cache_price inputPriceUSD 1 (number "cache_creation_ratio");
              cache_price inputPriceUSD 0 (number "cache_creation_ratio_1h")]))
           (λ l, muted_segment (t (js "Cache") ++ js " " ++ formatPriceList l false))
       else [])
  | None =>
      let userGroupRatio := ratio_but (-1) (number "user_group_ratio") in
      let isUserGroup := match userGroupRatio with Some _ => true | None => false end in
      let ratioLabel := t (js (if isUserGroup then "User Exclusive Ratio" else "Group Ratio")) in
      match (if isUserGroup then userGroupRatio else number "group_ratio") with
      | Some r => if num_is_finite r then [plain_segment (ratioLabel ++ js " " ++ formatRatioCompact (Some r) ++ js "x")] else []
      | None => []
      end
  end.

(** [None] when an exception leaves the cell. *)
Definition buildDetailSegments (type_ : Z) (quota : num) (other : option json) : option (list DetailSegment) :=
  if type_ =? 6 then Some [plain_segment (t (js "Async task refund"))] else
  if negb (type_ =? 2) then Some [] else
  if isViolationFeeLog other then
    let field k := match other with Some o => text_of o k | None => None end in
    Some (danger_segment (t (js "Violation Fee")) ::
      match field "violation_fee_code" with Some ((_ :: _) as code) => [muted_segment code] | _ => [] end ++
      [muted_segment (t (js "Fee") ++ js ": " ++
        Currency.formatLogQuota intl config (opt_or (other ≫= λ o, number_of o "fee_quota") quota))])
  else match some_other other with
  | None => Some []
  | Some other =>
      match getTieredBillingSummary (Some other) with
      | None => None
      | Some tieredSummary =>
          Some ((if bool_decide (prop_of other "billing_mode" = Some (JStr (js "tiered_expr")))
                 then tiered_segments tieredSummary else standard_segments other) ++
            (if truthy_of other "is_system_prompt_overwritten" then [danger_segment (t (js "System Prompt Override"))] else []))
      end
  end.

(** ** The billing rows of the dialog *)

(** A row: its label and its value. *)
Abbreviation Row := (jsstr * jsstr)%type.

(** [${other.model_ratio * 2.0 * ratio}/M], when the ratio is there and is not [none] *)
Definition ratio_row (label : string) (baseInputUSD : num) (none : Z) (ratio : option num) : list Row :=
  match ratio with
  | Some r => if num_eqb r (num_of_Z none) then [] else [(t (js label), formatPrice (num_mul baseInputUSD r))]
  | None => []
  end.

(** [count]x, with a price when there is one *)
Definition calls_row (label : string) (other : json) (flag count price : string) : list Row :=
  match number_of other count with
  | Some n =>
      if truthy_of other flag && num_truthy n then
        [(t (js label), num_to_string n ++ js "x" ++
           match number_of other price with
           | Some p => if num_truthy p then js " (" ++ formatPriceCompact p ++ js ")" else []
           | None => []
           end)]
      else []
  | None => []
  end.

Definition amount_row (label : string) (other : json) (flag price : string) : list Row :=
  match number_of other price with
  | Some p => if truthy_of other flag && num_truthy p then [(t (js label), formatPriceCompact p)] else []
  | None => []
  end.

(** The rows of what the model costs. *)
Definition mode_rows (other : json) (isTieredExpr : bool) (tieredSummary : option TieredBillingSummary) : list Row :=
  let number := number_of other in
  let mode s : Row := (t (js "Billing Mode"), t (js s)) in
  let baseInputUSD := num_mul (opt_or (number "model_ratio") num_zero) (num_of_Z 2) in
  let has_ratio := match number "model_ratio" with Some _ => true | None => false end in
  if isTieredExpr then
    mode "Dynamic Pricing" ::
    match tieredSummary with
    | Some s =>
        (match parsed_label (tier s) with [] => [] | l => [(t (js "Matched Tier"), l)] end) ++
        map (λ e, (t (shortLabel e), formatPrice (price e))) (priceEntries s)
    | None => [(t (js "Matched Tier"), t (js "No matching results"))]
    end
  else if isPerCallBilling (number "model_price") then
    mode "Per-call" :: match number "model_price" with Some p => [(t (js "Model Price"), formatPriceCompact p)] | None => [] end
  else
    mode "Per-token" ::
    (if has_ratio then (t (js "Input"), formatPrice baseInputUSD) ::
       match number "completion_ratio" with Some r => [(t (js "Output"), formatPrice (num_mul baseInputUSD r))] | None => [] end
     else []).

Definition billing_rows (quota : num) (other : json) (isAdmin : bool) : option (list Row) :=
  let number := number_of other in
  let isTieredExpr := bool_decide (prop_of other "billing_mode" = Some (JStr (js "tiered_expr"))) in
  let isClaude := bool_decide (prop_of other "claude" = Some (JBool true)) in
  match getTieredBillingSummary (Some other) with
  | None => None
  | Some tieredSummary =>
      let baseInputUSD := num_mul (opt_or (number "model_ratio") num_zero) (num_of_Z 2) in
      let userGR := ratio_but (-1) (number "user_group_ratio") in
      Some (mode_rows other isTieredExpr tieredSummary ++
        (match userGR with
         | Some r => [(t (js "User Exclusive Ratio"), Currency.toFixed r 4 ++ js "x")]
         | None =>
             match number "group_ratio" with
             | Some r => if num_is_finite r then [(t (js "Group Ratio"), Currency.toFixed r 4 ++ js "x")] else []
             | None => []
             end
         end) ++
        (if negb isTieredExpr && isClaude && hasAnyCacheTokens (Some other) then
           ratio_row "Cache Read" baseInputUSD 1 (number "cache_ratio") ++
           ratio_row "Cache Creation" baseInputUSD 1 (number "cache_creation_ratio") ++
           ratio_row "Cache Creation (5m)" baseInputUSD 0 (number "cache_creation_ratio_5m") ++
           ratio_row "Cache Creation (1h)" baseInputUSD 0 (number "cache_creation_ratio_1h")
         else []) ++
        (if negb isTieredExpr then
           ratio_row "Audio input" baseInputUSD 1 (number "audio_ratio") ++
           ratio_row "Audio output" baseInputUSD 1 (number "audio_completion_ratio") ++
           ratio_row "Image input" baseInputUSD 1 (number "image_ratio")
         else []) ++
        calls_row "Web Search" other "web_search" "web_search_call_count" "web_search_price" ++
        calls_row "File Search" other "file_search" "file_search_call_count" "file_search_price" ++
        amount_row "Image Generation" other "image_generation_call" "image_generation_call_price" ++
        amount_row "Audio Input Price" other "audio_input_seperate_price" "audio_input_price" ++
        (match prop_of other "admin_info" with
         | Some info =>
             if isAdmin && json_truthy info
             then [(t (js "Billing Source"), t (js (if truthy_of info "local_count_tokens" then "Local Billing" else "Upstream Response")))]
             else []
         | None => []
         end) ++
        [(t (js "Total Cost"), Currency.formatLogQuota intl config quota)])
  end.

(** ** The price of the tier that was edited *)

(** The tiers have names that the comparison tells apart. *)
Record labels_ok (tiers : VisualConfig) : Prop := {
  labels_some : ∀ i vt, tiers !! i = Some vt → normalizeTierLabel (name_at (length tiers) i vt) ≠ [];
  labels_apart : ∀ i j vt vt', tiers !! i = Some vt → tiers !! j = Some vt' →
    normalizeTierLabel (name_at (length tiers) i vt) = normalizeTierLabel (name_at (length tiers) j vt') → i = j;
}.

(** A log that the server billed by the [i]th of the tiers: the expression is
    there as the Base64 of its UTF-8. *)
Record billed_by (tiers : VisualConfig) (i : nat) (vt : VisualTier) (bytes : list N) (other : json) : Prop := {
  billed_tier : tiers !! i = Some vt;
  billed_bytes : bytes ≠ [] ∧ is_bytes bytes;
  billed_text : TextDecoder bytes = generateExprFromVisualConfig (Some tiers);
  billed_mode : prop_of other "billing_mode" = Some (JStr (js "tiered_expr"));
  billed_expr : prop_of other "expr_b64" = Some (JStr (encode bytes));
  billed_label : prop_of other "matched_tier" = Some (JStr (name_at (length tiers) i vt));
}.

(** The prices of a tier that are more than zero, those of the cache only
    with [cache]. *)
Definition positive_prices (cache : bool) (vt : VisualTier) : list PriceEntry :=
  omap (λ v,
    let price := tier_price vt (opt_or (tierField v) []) in
    if (is_cache v && negb cache) || negb (PriceTable.positive_price price) then None
    else Some (mkEntry (opt_or (field v) []) (short_label v) price)) BILLING_PRICING_VARS.

Lemma entries_positive cache n i vt :
  omap (price_entry cache (shown_at n i vt)) BILLING_PRICING_VARS = positive_prices cache vt.
Proof.
  assert (∀ v, v ∈ BILLING_PRICING_VARS → ∃ c f, field v = Some (c :: f) ∧
    obj_get (c :: f) (shown_prices vt) = Some (tier_price vt (opt_or (tierField v) []))) as H.
  { intros v Hv. each_of Hv; do 2 eexists; (split; [reflexivity|reflexivity]). }
  unfold positive_prices. revert H. induction BILLING_PRICING_VARS as [|v vs IH]; intros H; [done|].
  destruct (H v) as (c & f & Hf & Hp); [by left|]. cbn [omap list_omap]. rewrite IH by (intros; apply H; by right).
  unfold price_entry. rewrite Hf. cbn [mbind option_bind nonempty negb orb opt_or prices shown_at]. rewrite Hp. cbn [opt_or].
  by destruct (is_cache v && negb cache), (PriceTable.positive_price _).
Qed.

Lemma find_at {A B} (g : nat → A → B) (f : B → bool) (l : list A) i x :
  l !! i = Some x → f (g i x) = true → (∀ j y, l !! j = Some y → f (g j y) = true → j = i) →
  List.find f (imap g l) = Some (g i x).
Proof.
  revert g i. induction l as [|a l IH]; intros g i Hi Hf Hu; [done|].
  cbn [imap List.find]. destruct (f (g 0%nat a)) eqn:E.
  - assert (i = 0%nat) as -> by (symmetry; by apply (Hu 0%nat a)). by injection Hi as ->.
  - destruct i as [|i]; [injection Hi as ->; congruence|]. apply (IH (g ∘ S) i); [done|done|].
    intros j y Hj Hy. apply (Hu (S j) y) in Hy; [|done]. congruence.
Qed.

Lemma resolve_named tiers i vt :
  labels_ok tiers → tiers !! i = Some vt →
  resolveMatchedTier (imap (shown_at (length tiers)) tiers) (Some (JStr (name_at (length tiers) i vt))) =
  Some (Some (shown_at (length tiers) i vt)).
Proof.
  intros Hl Hi. set (n := length tiers). unfold resolveMatchedTier.
  pose proof (name_at_ne n i vt) as Hne. cbn [json_truthy].
  assert (nonempty (name_at n i vt) = true) as -> by by destruct (name_at n i vt).
  assert (List.find (same_label (name_at n i vt)) (imap (shown_at n) tiers) = Some (shown_at n i vt)) as ->.
  { apply find_at; [done| |].
    - unfold same_label, shown_at. cbn [parsed_label]. rewrite bool_decide_true by done.
      pose proof (labels_some _ Hl _ _ Hi). by destruct (normalizeTierLabel _).
    - intros j y Hj [Hs _]%andb_true_iff. apply bool_decide_eq_true_1 in Hs. by apply (labels_apart _ Hl j i y vt). }
  by destruct tiers.
Qed.

Lemma prop_some other k v : prop_of other k = Some v → some_other (Some other) = Some other.
Proof. by destruct other. Qed.

Lemma log_summary tiers i vt bytes other :
  Forall tier_ok tiers → labels_ok tiers → billed_by tiers i vt bytes other →
  getTieredBillingSummary (Some other) =
  Some (Some (mkSummary (imap (shown_at (length tiers)) tiers) (shown_at (length tiers) i vt)
    (positive_prices (hasAnyCacheTokens (Some other)) vt))).
Proof.
  intros Ht Hl [Hi [Hb Hb'] Hd Hm He Hn]. unfold getTieredBillingSummary.
  rewrite (prop_some _ _ _ Hm), Hm, bool_decide_true, He, Hn by done. cbn [negb].
  assert (tiers ≠ []) as Hne by by destruct tiers.
  pose proof (shown_tiers_eq tiers Hne Ht) as Hs.
  assert (nonempty (generateExprFromVisualConfig (Some tiers)) = true) as Hg.
  { destruct (generateExprFromVisualConfig (Some tiers)); [|done]. by destruct tiers. }
  assert (decodeBillingExprB64 (Some (JStr (encode bytes))) = generateExprFromVisualConfig (Some tiers)) as ->.
  { unfold decodeBillingExprB64. cbn [json_truthy json_to_string]. rewrite atob_encode by done. rewrite Hd.
    by destruct bytes as [|a [|b [|c l]]]. }
  rewrite Hg. cbn [negb]. rewrite Hs, resolve_named by done. by rewrite entries_positive.
Qed.


(** A log by expression whose tier is not named, or named as none of its
    tiers is, shows no price: not the one of another tier, nor one from the
    ratios that the log may hold as well. *)
Theorem unnamed_tier_unpriced other quota isAdmin :
  prop_of other "billing_mode" = Some (JStr (js "tiered_expr")) → isViolationFeeLog (Some other) = false →
  (∀ v, prop_of other "matched_tier" = Some v → json_truthy v = true →
     ∃ m, v = JStr m ∧ Forall (λ tier, same_label m tier = false) (parseTiersFromExpr (decodeBillingExprB64 (prop_of other "expr_b64")))) →
  getTieredBillingSummary (Some other) = Some None ∧
  buildDetailSegments 2 quota (Some other) =
    Some (muted_segment (t (js "Dynamic Pricing") ++ MIDDOT ++ t (js "No matching results")) ::
      if truthy_of other "is_system_prompt_overwritten" then [danger_segment (t (js "System Prompt Override"))] else []) ∧
  ∃ rows, billing_rows quota other isAdmin = Some rows ∧
    take 2 rows = [(t (js "Billing Mode"), t (js "Dynamic Pricing")); (t (js "Matched Tier"), t (js "No matching results"))].
Proof.
  intros Hm Hv Hn. assert (getTieredBillingSummary (Some other) = Some None) as E.
  { unfold getTieredBillingSummary. rewrite (prop_some _ _ _ Hm), Hm, bool_decide_true by done. cbn [negb].
    destruct (negb _); [done|]. unfold resolveMatchedTier.
    destruct (parseTiersFromExpr _) as [|p ps]; [done|].
    destruct (prop_of other "matched_tier") as [v|]; [|done]. destruct (json_truthy v) eqn:Ev; [|done]. cbn [negb].
    destruct (Hn v) as (m & -> & Hf); [done..|]. cbn [negb].
    assert (List.find (same_label m) (p :: ps) = None) as ->; [|done].
    clear Hn. revert Hf. generalize (p :: ps). induction l as [|a l IH]; intros Hf; [done|].
    apply Forall_cons in Hf as [Ha Hf]. simpl. by rewrite Ha, IH. }
  split_and!; [done| |].
  - unfold buildDetailSegments. cbn [Z.eqb negb Pos.eqb]. rewrite Hv, (prop_some _ _ _ Hm), E, Hm, bool_decide_true by done. done.
  - unfold billing_rows. rewrite E, Hm, bool_decide_true by done. eexists. split; [done|]. done.
Qed.

End Reading.

(** ** Logs to try the definitions on *)

Definition ascii_lower (s : jsstr) : jsstr := map (λ c, if is_upper c then (c + 32)%N else c) s.

(** An expression in ASCII is its own UTF-8. *)
Definition logged (tiers : VisualConfig) (label : string) : json :=
  JObj [(js "billing_mode", JStr (js "tiered_expr"));
    (js "expr_b64", JStr (encode (generateExprFromVisualConfig (Some tiers))));
    (js "matched_tier", JStr (js label)); (js "cache_tokens", JNum (num_of_Z 5))].

Definition shown_prices_of (other : json) : option (option (list (jsstr * jsstr))) :=
  option_map (option_map (λ s, map (λ e, (shortLabel e, num_to_string (price e))) (priceEntries s)))
    (getTieredBillingSummary ascii_lower (λ l, l) (Some other)).

Example short_prices :
  shown_prices_of (logged sample_tiers "short") =
  Some (Some [(js "Input", js "1.25"); (js "Output", js "10"); (js "Cache Read", js "0.125")]).
Proof. vm_compute. reflexivity. Qed.

Example no_such_tier : shown_prices_of (logged sample_tiers "long") = Some None.
Proof. vm_compute. reflexivity. Qed.

(** Names that differ in a sign or in a letter's case are one name to the
    comparison: a log of the second tier shows the price of the first. *)
Definition alike_tiers : VisualConfig :=
  [mkTier (js "<=200k") [mkCond (js "p") (js "<=") (CText (js "200000"))] (num_of_Z 1) (num_of_Z 2) Generic [];
   mkTier (js "<200K") [] (num_of_Z 7) (num_of_Z 8) Generic []].

Example other_tier_shown :
  shown_prices_of (logged alike_tiers "<200K") = Some (Some [(js "Input", js "1"); (js "Output", js "2")]).
Proof. vm_compute. reflexivity. Qed.

Example signs :
  map (normalizeTierLabel ascii_lower) [js "< 200K"; js "<=200k"; [8804; 50; 48; 48; 107]%N; [65308; 65309; 50; 48; 48; 107]%N; js " "] =
  [js "<200k"; js "<200k"; js "<200k"; js "<200k"; []].
Proof. vm_compute. reflexivity. Qed.

Example chains :
  map (λ l, formatChannelChain (Some l))
    [[JStr (js "1"); JNum (num_of_Z 3); JStr (js " 4 ")]; [JStr (js "1")]; [JStr (js "1"); JStr []]] =
  [Some (js "1>3>4"); None; None].
Proof. vm_compute. reflexivity. Qed.

Example audit_lines :
  map parseAuditLine [js "set temperature 1"; js "done"; js " x"] =
  [(js "set", js "temperature 1"); (js "done", js "done"); (js " x", js " x")].
Proof. vm_compute. reflexivity. Qed.

Definition sample_log : json := logged sample_tiers "short".

Lemma sample_labels : labels_ok ascii_lower sample_tiers.
Proof.
  split.
  - intros [|[|i]] vt; [| |done]; intros [= <-]; by vm_compute.
  - intros [|[|i]] [|[|j]] vt vt'; try done; intros [= <-] [= <-]; by vm_compute.
Qed.

Definition short_tier : VisualTier := List.hd (mkTier [] [] num_zero num_zero Generic []) sample_tiers.


Definition unnamed_log : json :=
  JObj [(js "billing_mode", JStr (js "tiered_expr")); (js "model_ratio", JNum (num_of_Z 3)); (js "matched_tier", JStr (js "long"));
    (js "expr_b64", JStr (encode (generateExprFromVisualConfig (Some sample_tiers))))].

Lemma unnamed_tier_unpriced_witness :
  getTieredBillingSummary ascii_lower (λ l, l) (Some unnamed_log) = Some None.
Proof.
  refine (proj1 (unnamed_tier_unpriced ascii_lower (λ l, l) (λ _ _, num_to_string) Currency.DEFAULT_CURRENCY_CONFIG (λ s, s) unnamed_log num_zero true _ _ _)).
  - reflexivity.
  - reflexivity.
  - intros v [= <-] _. exists (js "long"). split; [reflexivity|].
    apply (bool_decide_eq_true_1 _). by vm_compute.
Defined.

End LogPrices.
