(* ===== verification/Wallet.v ===== *)
(** * The wallet

    [features/wallet]: Module [Topup] is the configuration of top-ups as the
    page reads it ([hooks/use-topup-info.ts], [lib/payment.ts],
    [lib/format.ts]); Module [Checkout] what each way of paying does with the
    answer of the server ([hooks/use-*-payment.ts], [use-redemption.ts]); and
    Module [Page] the page itself ([index.tsx], [hooks/use-payment.ts],
    [components/recharge-form-card.tsx]): the amount, the method, the price
    that is asked for, and the orders.

    Amounts are doubles.  An answer is the JSON value of the body, or [None]
    when the request throws.  The parser of URLs is a parameter. *)
From S2P Require Import Prelude JSString JSNumber JSON Currency.
Local Open Scope Z_scope.

Module Topup.

(** ** [types.ts] *)

Record PaymentMethod := mkMethod {
  m_name : jsstr;
  m_type : jsstr;
  m_color : option jsstr;
  m_min : option num;
  m_icon : option jsstr }.

Record WaffoPayMethod := mkWaffo {
  w_name : jsstr;
  w_icon : option jsstr;
  payMethodType : option jsstr;
  payMethodName : option jsstr }.

Record AgouPayMethod := mkAgou { a_name : jsstr; a_type : jsstr; a_enabled : bool }.

Record PayProvider := mkProvider {
  p_id : jsstr;
  p_name : jsstr;
  p_min : num;
  p_max : num;
  blocked_by_group : bool;
  channels : list jsstr }.

Record CreemProduct := mkCreem {
  c_name : jsstr;
  productId : jsstr;
  c_price : num;
  c_quota : num;
  is_eur : bool }.

Record PresetAmount := mkPreset { value : num; discount : option num }.

(** What the server sends and the page keeps as it is. *)
Record Config := mkConfig {
  enable_online_topup : bool;
  enable_stripe_topup : bool;
  enable_waffo_topup : bool;
  enable_waffo_pancake_topup : bool;
  enable_bepusdt_topup : bool;
  enable_cryptomus_topup : bool;
  enable_sfpay_topup : bool;
  min_topup : num;
  stripe_min_topup : num;
  waffo_min_topup : option num;
  waffo_pancake_min_topup : option num;
  bepusdt_min_topup : option num;
  cryptomus_min_topup : option num;
  sfpay_min_topup : option num;
  group_blocked_methods : list jsstr;
  providers : list PayProvider }.

(** The answer, with the values that are parsed, and what is made of it. *)
Record RawInfo := mkRaw {
  raw_config : Config;
  raw_pay_methods : option json;
  raw_amount_options : option json;
  raw_discount : option json;
  raw_creem_products : option json;
  raw_waffo_pay_methods : option json }.

Record TopupInfo := mkInfo {
  config : Config;
  pay_methods : list PaymentMethod;
  amount_options : list num;
  discounts : obj num;
  creem_products : list CreemProduct;
  waffo_pay_methods : list WaffoPayMethod }.

(** ** [hooks/use-topup-info.ts] *)

Definition parseJsonArray (data : option json) : list json :=
  match data with
  | Some (JArr l) => l
  | Some (JStr s) => match JSON_parse s with Some (JArr l) => l | _ => [] end
  | _ => []
  end.

(** [!!item && typeof item === 'object'] *)
Definition is_record (item : json) : bool := match item with JObj _ | JArr _ => true | _ => false end.

(** [typeof item.k === 'string' ? item.k : ...] and [Number(item.k)] *)
Definition text_prop (item : json) (k : string) : option jsstr :=
  match json_prop item (js k) with Some (JStr s) => Some s | _ => None end.
Definition number_prop (item : json) (k : string) : num :=
  match json_prop item (js k) with Some v => json_to_number v | None => S754_nan end.

Definition STRIPE : jsstr := js "stripe".
Definition WAFFO : jsstr := js "waffo".
Definition WAFFO_PANCAKE : jsstr := js "waffo_pancake".
Definition CRYPTOMUS : jsstr := js "cryptomus".
Definition BEPUSDT : jsstr := js "bepusdt".
Definition AGOU : jsstr := js "sfpay".

Definition parse_method (stripeMinTopup : num) (item : json) : PaymentMethod :=
  let rawMinTopup := number_prop item "min_topup" in
  let normalizedMinTopup := if num_is_finite rawMinTopup then rawMinTopup else num_zero in
  let type := opt_or (text_prop item "type") [] in
  mkMethod (opt_or (text_prop item "name") []) type (text_prop item "color")
    (Some (if bool_decide (type = STRIPE) && num_leb normalizedMinTopup num_zero then stripeMinTopup else normalizedMinTopup))
    None.

Definition parsePaymentMethods (data : option json) (stripeMinTopup : num) : list PaymentMethod :=
  List.filter (λ m, nonempty (m_name m) && nonempty (m_type m) && negb (bool_decide (m_type m = WAFFO)))
    (map (parse_method stripeMinTopup) (List.filter is_record (parseJsonArray data))).

Definition parse_waffo (item : json) : WaffoPayMethod :=
  mkWaffo (opt_or (text_prop item "name") []) (text_prop item "icon")
    (text_prop item "payMethodType") (text_prop item "payMethodName").

Definition parseWaffoPayMethods (data : option json) : list WaffoPayMethod :=
  List.filter (λ m, nonempty (w_name m)) (map parse_waffo (List.filter is_record (parseJsonArray data))).

Definition parse_creem (item : json) : CreemProduct :=
  mkCreem (opt_or (text_prop item "name") []) (opt_or (text_prop item "productId") [])
    (num_or (number_prop item "price") num_zero) (num_or (number_prop item "quota") num_zero)
    (bool_decide (json_prop item (js "currency") = Some (JStr (js "EUR")))).

Definition parseCreemProducts (data : option json) : list CreemProduct :=
  List.filter (λ p, nonempty (c_name p) && nonempty (productId p))
    (map parse_creem (List.filter is_record (parseJsonArray data))).

Definition parseAmountOptions (data : option json) : list num :=
  List.filter (λ x, num_is_finite x && num_ltb num_zero x) (map json_to_number (parseJsonArray data)).

(** [None] is [undefined]. *)
Definition parseDiscountMap (data : option json) : obj num :=
  let parsedData := match data with
    | Some (JStr s) => JSON_parse s
    | _ => data end in
  match parsedData with
  | Some (JObj o) =>
      foldl (λ result kv,
        let numericKey := Number kv.1 in
        let numericValue := json_to_number kv.2 in
        if num_is_finite numericKey && num_is_finite numericValue
        then obj_set (num_to_string numericKey) numericValue result else result) [] o
  | _ => []
  end.

Definition process_info (raw : RawInfo) : TopupInfo :=
  mkInfo (raw_config raw)
    (parsePaymentMethods (raw_pay_methods raw) (stripe_min_topup (raw_config raw)))
    (parseAmountOptions (raw_amount_options raw)) (parseDiscountMap (raw_discount raw))
    (parseCreemProducts (raw_creem_products raw)) (parseWaffoPayMethods (raw_waffo_pay_methods raw)).

(** ** [lib/payment.ts] *)

Definition DEFAULT_PAYMENT_TYPE : jsstr := js "alipay".
Definition DEFAULT_MIN_TOPUP : num := num_of_Z 1.
Definition DEFAULT_DISCOUNT_RATE : num := num_of_Z 1.
Definition DEFAULT_PRESET_MULTIPLIERS : list Z := [1; 5; 10; 30; 50; 100; 300; 500].

Definition getDefaultPaymentType (topupInfo : option TopupInfo) : jsstr :=
  match topupInfo with
  | None => DEFAULT_PAYMENT_TYPE
  | Some i =>
      match pay_methods i with
      | m :: _ => m_type m
      | [] =>
          let c := config i in
          if enable_stripe_topup c then STRIPE else
          if enable_waffo_topup c then WAFFO else
          if enable_waffo_pancake_topup c then WAFFO_PANCAKE else
          if enable_bepusdt_topup c then BEPUSDT else
          if enable_cryptomus_topup c then CRYPTOMUS else
          if enable_sfpay_topup c then AGOU else DEFAULT_PAYMENT_TYPE
      end
  end.

(** [x || d] on a number that may be missing *)
Definition given_or (x : option num) (d : num) : num := num_or (opt_or x d) d.

(** The method that is selected in the second step. *)
Inductive SelectedPayMethod :=
  | Standard (method : PaymentMethod)
  | Waffo (method : WaffoPayMethod) (index : nat)
  | Sfpay (method : AgouPayMethod)
  | Provider (provider : PayProvider).

Definition getSelectedMethodMinTopup (sel : SelectedPayMethod) (waffoMinTopup agouMinTopup : option num) : num :=
  match sel with
  | Standard m => given_or (m_min m) num_zero
  | Sfpay _ => given_or agouMinTopup num_zero
  | Provider p => num_or (p_min p) num_zero
  | Waffo _ _ => given_or waffoMinTopup num_zero
  end.

Definition getMinTopupAmount (topupInfo : option TopupInfo) : num :=
  match topupInfo with
  | None => DEFAULT_MIN_TOPUP
  | Some i =>
      let c := config i in
      if enable_online_topup c then min_topup c else
      if enable_stripe_topup c then stripe_min_topup c else
      if enable_waffo_topup c then given_or (waffo_min_topup c) DEFAULT_MIN_TOPUP else
      if enable_waffo_pancake_topup c then given_or (waffo_pancake_min_topup c) DEFAULT_MIN_TOPUP else
      if enable_bepusdt_topup c then given_or (bepusdt_min_topup c) DEFAULT_MIN_TOPUP else
      if enable_cryptomus_topup c then given_or (cryptomus_min_topup c) DEFAULT_MIN_TOPUP else
      if enable_sfpay_topup c then given_or (sfpay_min_topup c) DEFAULT_MIN_TOPUP else DEFAULT_MIN_TOPUP
  end.

Definition generatePresetAmounts (minAmount : num) : list PresetAmount :=
  map (λ multiplier, mkPreset (num_mul minAmount (num_of_Z multiplier)) None) DEFAULT_PRESET_MULTIPLIERS.

Definition mergePresetAmounts (amountOptions : list num) (discounts : obj num) : list PresetAmount :=
  map (λ amount, mkPreset amount (Some (given_or (obj_get (num_to_string amount) discounts) (num_of_Z 1)))) amountOptions.

(** The presets of the page ([fetchTopupInfo]). *)
Definition presets_of (i : TopupInfo) : list PresetAmount :=
  match amount_options i with
  | [] => generatePresetAmounts (getMinTopupAmount (Some i))
  | l => mergePresetAmounts l (discounts i)
  end.

(** ** [lib/format.ts] *)

Definition formatQuotaShort (quota : num) : jsstr :=
  if num_leb (num_of_Z 1000000) quota then Currency.toFixed (num_div quota (num_of_Z 1000000)) 1 ++ js "M"
  else if num_leb (num_of_Z 1000) quota then Currency.toFixed (num_div quota (num_of_Z 1000)) 1 ++ js "K"
  else num_to_string quota.

Definition getDiscountLabel (discount : num) : jsstr :=
  if num_leb DEFAULT_DISCOUNT_RATE discount then [] else
  num_to_string (num_round (num_mul (num_sub (num_of_Z 1) discount) (num_of_Z 100))) ++ js "% OFF".

Record Pricing := mkPricing {
  displayValue : num;
  originalPrice : num;
  actualPrice : num;
  savedAmount : num;
  hasDiscount : bool }.

Definition calculatePresetPricing (presetValue priceRatio discount usdExchangeRate : num) : Pricing :=
  let originalPrice := num_mul presetValue priceRatio in
  let actualPrice := num_mul originalPrice discount in
  mkPricing (num_mul presetValue usdExchangeRate) originalPrice actualPrice (num_sub originalPrice actualPrice)
    (num_ltb discount (num_of_Z 1)).

(** ** The cards of the second step ([components/recharge-form-card.tsx]) *)

Record MethodEntry := mkEntry {
  sel : SelectedPayMethod;
  payType : jsstr;
  entry_name : jsstr;
  minRequired : num;
  groupBlocked : bool }.

Definition providerCovered : list jsstr := [WAFFO_PANCAKE; CRYPTOMUS; BEPUSDT; AGOU].

Definition methodEntries (i : TopupInfo) : list MethodEntry :=
  let c := config i in
  let blocked t := bool_decide (t ∈ group_blocked_methods c) in
  map (λ p, mkEntry (Provider p) (p_id p) (p_name p) (num_or (p_min p) num_zero) (blocked_by_group p)) (providers c) ++
  map (λ m, let sel := Standard m in
        mkEntry sel (m_type m) (m_name m) (getSelectedMethodMinTopup sel (waffo_min_topup c) None) (blocked (m_type m)))
    (List.filter (λ m, negb (bool_decide (m_type m ∈ providerCovered))) (pay_methods i)) ++
  (if enable_waffo_topup c then
     imap (λ index m, let sel := Waffo m index in
        mkEntry sel WAFFO (w_name m) (getSelectedMethodMinTopup sel (waffo_min_topup c) None) (blocked WAFFO))
       (waffo_pay_methods i)
   else []).

Definition entry_available (topupAmount : num) (e : MethodEntry) : bool :=
  negb (groupBlocked e) && num_leb (minRequired e) topupAmount.

Definition entry_short (topupAmount : num) (e : MethodEntry) : bool :=
  negb (groupBlocked e) && num_ltb topupAmount (minRequired e).

(** *** What the readers let through *)

Definition method_ok (stripeMinTopup : num) (m : PaymentMethod) : Prop :=
  m_name m ≠ [] ∧ m_type m ≠ [] ∧ m_type m ≠ WAFFO ∧
  ∃ x, m_min m = Some x ∧ (num_is_finite x = true ∨ m_type m = STRIPE ∧ x = stripeMinTopup).

Lemma nonempty_true (s : jsstr) : nonempty s = true ↔ s ≠ [].
Proof. by destruct s. Qed.

Lemma methods_ok data stripeMinTopup : Forall (method_ok stripeMinTopup) (parsePaymentMethods data stripeMinTopup).
Proof.
  apply Forall_forall. intros m (Hm & H)%list_elem_of_In%filter_In. bool_hyps.
  apply list_elem_of_In, list_elem_of_fmap in Hm as (item & -> & _).
  split_and!; [by apply nonempty_true..|done|]. unfold parse_method. cbn [m_min m_type]. eexists. split; [done|].
  destruct (bool_decide (opt_or (text_prop item "type") [] = STRIPE)) eqn:Et; cbn [andb].
  - apply bool_decide_eq_true in Et. destruct (num_leb _ num_zero); [by right|]. left.
    by destruct (num_is_finite (number_prop item "min_topup")) eqn:E.
  - left. by destruct (num_is_finite (number_prop item "min_topup")) eqn:E.
Qed.

Lemma amounts_ok data : Forall (λ x, num_is_finite x = true ∧ num_ltb num_zero x = true) (parseAmountOptions data).
Proof. apply Forall_forall. intros x (_ & H)%list_elem_of_In%filter_In. by bool_hyps. Qed.

Lemma discounts_ok data : Forall (λ kv, num_is_finite kv.2 = true) (parseDiscountMap data).
Proof.
  assert (∀ o r, Forall (λ kv, num_is_finite kv.2 = true) r →
    Forall (λ kv : jsstr * num, num_is_finite kv.2 = true) (foldl (λ result (kv : jsstr * json),
      if num_is_finite (Number kv.1) && num_is_finite (json_to_number kv.2)
      then obj_set (num_to_string (Number kv.1)) (json_to_number kv.2) result else result) r o)) as H.
  { induction o as [|[k v] o IH]; intros r Hr; [done|]. cbn [foldl fst snd]. apply IH.
    destruct (num_is_finite (Number k) && num_is_finite (json_to_number v)) eqn:E; [|done]. bool_hyps.
    by apply (Forall_obj_set (λ x, num_is_finite x = true)). }
  unfold parseDiscountMap. destruct data as [[| | |s| |o]|]; try constructor.
  - destruct (JSON_parse s) as [[| | | | |o]|]; try constructor. by apply H.
  - by apply H.
Qed.

End Topup.

Module Checkout.
Import Topup.

(** ** Orders and answers *)

(** [Math.floor(x)] *)
Definition num_floor (x : num) : num :=
  match x with
  | S754_finite neg m e => if 0 <=? e then x else num_of_Z ((if neg then - Zpos m else Zpos m) / 2 ^ (- e))
  | _ => x
  end.

(** What is asked of the server: the amount and what else the request holds. *)
Inductive Order :=
  | StripeOrder (amount : num)
  | EpayOrder (amount : num) (payment_method : jsstr)
  | PancakeOrder (amount : num)
  | CryptomusOrder (amount : num)
  | BepusdtOrder (amount : num)
  | AgouOrder (amount : num) (channel_key : jsstr)
  | WaffoOrder (amount : num) (pay_method_index : nat)
  | CreemOrder (product_id : jsstr).

(** What the user sees: a page opens in a tab or in place of this one, a form
    is sent, a message of success or of failure is shown. *)
Inductive Effect :=
  | Opened (url : jsstr)
  | Navigated (url : jsstr)
  | FormSent (url : jsstr) (params : json)
  | Done (message : jsstr)
  | Failed (message : jsstr).

Definition FAILED : jsstr := js "Payment request failed".
Definition REDIRECTING : jsstr := js "Redirecting to payment page...".

Definition is_true (response : json) (k : string) : bool := bool_decide (json_prop response (js k) = Some (JBool true)).

Definition isApiSuccess (response : json) : bool :=
  is_true response "success" || bool_decide (json_prop response (js "message") = Some (JStr (js "success"))).

(** [response.message || text] *)
Definition message_or (response : json) (text : jsstr) : jsstr :=
  match text_prop response "message" with Some ((_ :: _) as m) => m | _ => text end.

Definition getErrorMessage (response : json) : jsstr :=
  match json_prop response (js "data") with
  | Some (JStr data) => if nonempty (trim data) then data else message_or response FAILED
  | _ => message_or response FAILED
  end.

(** The link in the data of an answer ([getCheckoutUrl], [getPaymentUrl],
    [getRedirectUrl]); an empty one is none. *)
Definition link_of (k : string) (response : json) : option jsstr :=
  match json_prop response (js "data") with
  | Some data => match text_prop data k with Some ((_ :: _) as url) => Some url | _ => None end
  | None => None
  end.

Section Checkout.
(** [new URL(text).protocol]; [None] when it throws. *)
Context (protocol : jsstr → option jsstr).

Definition isSafeHttpUrl (value : jsstr) : bool :=
  let trimmed := trim value in
  if negb (nonempty trimmed) then false else
  match protocol trimmed with
  | Some p => bool_decide (p = js "http:") || bool_decide (p = js "https:")
  | None => false
  end.

(** The page of a payment platform: [k] is where its answer holds the link,
    [check] whether the link is checked, [go] how it is followed. *)
Definition hosted (k : string) (check : bool) (go : jsstr → list Effect) (reply : option json) : list Effect * bool :=
  match reply with
  | None => ([Failed FAILED], false)
  | Some response =>
      match (if isApiSuccess response then link_of k response else None) with
      | Some url =>
          if check && negb (isSafeHttpUrl url) then ([Failed (js "Invalid payment redirect URL")], false)
          else (go url, true)
      | None => ([Failed (getErrorMessage response)], false)
      end
  end.

Definition new_tab (url : jsstr) : list Effect := [Opened url; Done REDIRECTING].

(** [processPayment] *)
Definition epay (isStripe : bool) (reply : option json) : list Effect * bool :=
  match reply with
  | None => ([Failed FAILED], false)
  | Some response =>
      if negb (isApiSuccess response) then ([Failed (message_or response FAILED)], false) else
      match json_prop response (js "data") with
      | Some data =>
          if isStripe then
            match text_prop data "pay_link" with Some ((_ :: _) as url) => (new_tab url, true) | _ => ([], false) end
          else if json_truthy data then
            match text_prop response "url" with
            | Some ((_ :: _) as url) => ([FormSent url data; Done REDIRECTING], true)
            | _ => ([], false)
            end
          else ([], false)
      | None => ([], false)
      end
  end.

Definition creem (reply : option json) : list Effect * bool :=
  match reply with
  | None => ([Failed FAILED], false)
  | Some response =>
      match (if isApiSuccess response then link_of "checkout_url" response else None) with
      | Some url => ([Opened url; Done (js "Redirecting to Creem checkout...")], true)
      | None => ([Failed (message_or response FAILED)], false)
      end
  end.

Definition finish_order (o : Order) (reply : option json) : list Effect * bool :=
  match o with
  | StripeOrder _ => epay true reply
  | EpayOrder _ _ => epay false reply
  | PancakeOrder _ | CryptomusOrder _ | BepusdtOrder _ => hosted "checkout_url" true new_tab reply
  | AgouOrder _ _ => hosted "url" true (λ url, [Done REDIRECTING; Navigated url]) reply
  | WaffoOrder _ _ => hosted "payment_url" false new_tab reply
  | CreemOrder _ => creem reply
  end.

(** [redeemCode], then the page's [handleRedeem]: [self] says whether the
    user's data could be loaded afterwards. *)
Definition redeemCode (code : jsstr) (reply : option json) (self : bool) : list Effect * bool :=
  if negb (nonempty (trim code)) then ([Failed (js "Please enter a redemption code")], false) else
  match reply with
  | None => ([Failed (js "Redemption failed")], false)
  | Some response =>
      if (match json_prop response (js "success") with Some v => json_truthy v | None => false end) &&
         (match json_prop response (js "data") with Some v => json_truthy v | None => false end)
      then
        let done := Done (js "Redemption successful!") in
        if self then ([done], true) else ([done; Failed (js "Redemption failed")], false)
      else ([Failed (message_or response (js "Redemption failed"))], false)
  end.

(** *** What an answer leads to *)

Definition leaves (e : Effect) : option jsstr :=
  match e with Opened url | Navigated url | FormSent url _ => Some url | _ => None end.
Definition failure (e : Effect) : bool := match e with Failed _ => true | _ => false end.

(** The platforms whose links are checked. *)
Definition checked (o : Order) : bool :=
  match o with PancakeOrder _ | CryptomusOrder _ | BepusdtOrder _ | AgouOrder _ _ => true | _ => false end.
Definition by_form (o : Order) : bool := match o with StripeOrder _ | EpayOrder _ _ => true | _ => false end.

Lemma hosted_spec k check go reply :
  (∀ url, omap leaves (go url) = [url]) → (∀ url, List.filter failure (go url) = []) →
  let '(es, ok) := hosted k check go reply in
  (ok = true → ∃ url, omap leaves es = [url] ∧ (check = true → isSafeHttpUrl url = true) ∧ List.filter failure es = []) ∧
  (ok = false → omap leaves es = [] ∧ ∃ m, es = [Failed m]).
Proof.
  intros Hgo Hf. unfold hosted. destruct reply as [r|]; [|split; [done|eauto]].
  destruct (if isApiSuccess r then _ else _) as [url|]; [|split; [done|eauto]].
  destruct check; [|split; [|done]; intros _; exists url; split_and!; done].
  cbn [andb]. destruct (isSafeHttpUrl url) eqn:E; cbn [negb]; (split; [|try done; eauto]); [|done].
  intros _. exists url. by split_and!.
Qed.

Lemma epay_spec b reply :
  let '(es, ok) := epay b reply in
  (ok = true → ∃ url, omap leaves es = [url] ∧ List.filter failure es = []) ∧
  (ok = false → omap leaves es = [] ∧
     (es = [] ∧ (∃ r, reply = Some r ∧ isApiSuccess r = true) ∨ ∃ m, es = [Failed m])).
Proof.
  unfold epay. destruct reply as [r|]; [|split; [done|eauto]].
  destruct (isApiSuccess r) eqn:E; [|split; [done|eauto]]. cbn [negb].
  assert (∀ X : Prop, X → (false = true → ∃ url : jsstr, omap leaves [] = [url] ∧ List.filter failure [] = []) ∧
    (false = false → omap leaves [] = [] ∧
      (([] : list Effect) = [] ∧ (∃ r', Some r = Some r' ∧ isApiSuccess r' = true) ∨ ∃ m, [] = [Failed m]))) as Hsilent.
  { intros _ _. split; [done|]. intros _. split; [done|]. left. eauto. }
  destruct (json_prop r (js "data")) as [data|]; [|by apply (Hsilent True)].
  destruct b.
  - destruct (text_prop data "pay_link") as [[|c u]|]; [by apply (Hsilent True)| |by apply (Hsilent True)].
    split; [|done]. intros _. eexists. by split.
  - destruct (json_truthy data); [|by apply (Hsilent True)].
    destruct (text_prop r "url") as [[|c u]|]; [by apply (Hsilent True)| |by apply (Hsilent True)].
    split; [|done]. intros _. eexists. by split.
Qed.


End Checkout.

(** The other platforms are followed wherever the answer says. *)
Example waffo_unchecked :
  let reply := JObj [(js "success", JBool true); (js "data", JObj [(js "payment_url", JStr (js "javascript:alert(1)"))])] in
  finish_order (λ _, Some (js "javascript:")) (WaffoOrder (num_of_Z 10) 0) (Some reply) =
    (new_tab (js "javascript:alert(1)"), true) ∧
  (finish_order (λ _, Some (js "javascript:")) (PancakeOrder (num_of_Z 10)) (Some reply)).2 = false.
Proof. vm_compute. by split. Qed.

(** A code that was redeemed is reported as failed when the user's data cannot
    be loaded after it. *)
Example redeemed_reported_failed :
  redeemCode (js "code") (Some (JObj [(js "success", JBool true); (js "data", JNum (num_of_Z 500000))])) false =
  ([Done (js "Redemption successful!"); Failed (js "Redemption failed")], false).
Proof. vm_compute. reflexivity. Qed.

End Checkout.

Module Page.
Import Topup Checkout.

(** ** Prices *)

Inductive Endpoint := StripeAmount | PancakeAmount | CryptomusAmount | BepusdtAmount | AgouAmount | PlainAmount.

(** Which address is asked for the price of a type. *)
Definition endpoint_of (paymentType : jsstr) : Endpoint :=
  if bool_decide (paymentType = STRIPE) then StripeAmount else
  if bool_decide (paymentType = WAFFO_PANCAKE) then PancakeAmount else
  if bool_decide (paymentType = CRYPTOMUS) then CryptomusAmount else
  if bool_decide (paymentType = BEPUSDT) then BepusdtAmount else
  if bool_decide (paymentType = AGOU) then AgouAmount else PlainAmount.

(** The price in an answer; [None] is [null]. *)
Definition quote_value (reply : option json) : option num :=
  match reply with
  | None => None
  | Some response =>
      match json_prop response (js "data") with
      | Some data =>
          if isApiSuccess response && json_truthy data then
            let value := parseFloat (json_to_string data) in
            if num_is_finite value then Some value else None
          else None
      | None => None
      end
  end.

(** A request for a price: the amount and the type. *)
Definition Quote : Type := num * jsstr.

(** [usePayment].  [asked] are the requests under way, the oldest first;
    [quoted] is the last request that was answered and its answer, which the
    code does not keep. *)
Record Price := mkPrice {
  paymentAmount : num;
  calculating : bool;
  asked : list Quote;
  quoted : option (Quote * option json) }.

Definition calculatePaymentAmount (topupAmount : num) (paymentType : jsstr) (p : Price) : Price :=
  mkPrice (paymentAmount p) true (asked p ++ [(topupAmount, paymentType)]) (quoted p).

(** The answer to the [i]th request under way. *)
Definition quote_answered (i : nat) (reply : option json) (p : Price) : Price :=
  match asked p !! i with
  | Some q => mkPrice (opt_or (quote_value reply) num_zero) false (delete i (asked p)) (Some (q, reply))
  | None => p
  end.

(** ** The page *)

Record Form := mkForm {
  topupAmount : num;
  selectedPreset : option num;
  selectedMethod : option SelectedPayMethod }.

(** [inflight] are the orders without an answer, with a flag for those of the
    dialog; [sent] all orders, the latest first. *)
Record State := mkState {
  info : option TopupInfo;
  presets : list PresetAmount;
  form : Form;
  price : Price;
  confirmOpen : bool;
  inflight : list (Order * bool);
  sent : list Order }.

Definition init : State :=
  mkState None [] (mkForm num_zero None None) (mkPrice num_zero false [] None) false [] [].

Definition with_form (s : State) (f : Form) (p : Price) : State :=
  mkState (info s) (presets s) f p (confirmOpen s) (inflight s) (sent s).

Definition type_of (sel : SelectedPayMethod) : jsstr :=
  match sel with
  | Standard m => m_type m
  | Waffo _ _ => WAFFO
  | Sfpay _ => AGOU
  | Provider p => p_id p
  end.

Definition getCurrentPaymentType (s : State) : jsstr :=
  match selectedMethod (form s) with Some sel => type_of sel | None => getDefaultPaymentType (info s) end.

(** The least amount of a method, by the configuration of the page. *)
Definition min_of (info : option TopupInfo) (sel : SelectedPayMethod) : num :=
  getSelectedMethodMinTopup sel (info ≫= λ i, waffo_min_topup (config i)) (info ≫= λ i, sfpay_min_topup (config i)).

(** *** The effects *)

(** The first amount, when there is none. *)
Definition init_effect (changed : bool) (s : State) : Form * Price :=
  let f := form s in
  match info s with
  | Some i =>
      if changed && num_eqb (topupAmount f) num_zero then
        let firstPreset := value <$> head (presets s) in
        let initialAmount := match firstPreset with
          | Some v => num_or v (getMinTopupAmount (Some i)) | None => getMinTopupAmount (Some i) end in
        (mkForm initialAmount firstPreset (selectedMethod f),
         calculatePaymentAmount initialAmount (getDefaultPaymentType (Some i)) (price s))
      else (f, price s)
  | None => (f, price s)
  end.

(** A selected method that asks for more is selected no longer. *)
Definition min_effect (s : State) : option SelectedPayMethod :=
  match selectedMethod (form s) with
  | Some sel => if num_ltb (topupAmount (form s)) (min_of (info s) sel) then None else Some sel
  | None => None
  end.

(** The effects of one rendering; both read what was rendered.  [changed] says
    that the amount or the configuration did: the second effect depends on
    the method as well, and does nothing where it would not run. *)
Definition commit (changed : bool) (s : State) : State :=
  let '(f, p) := init_effect changed s in
  with_form s (mkForm (topupAmount f) (selectedPreset f) (min_effect s)) p.

(** [Object.is] on the amounts *)
Definition amount_changed (s s' : State) : bool := negb (bool_decide (topupAmount (form s) = topupAmount (form s'))).

(** So many renderings, one after the other. *)
Fixpoint commits (n : nat) (changed : bool) (s : State) : State :=
  match n with
  | O => s
  | S n => let s' := commit changed s in commits n (amount_changed s s') s'
  end.

(** The renderings after a callback; three are enough ([page_settles]). *)
Definition render (changed : bool) (s : State) : State := commits 3 changed s.

(** *** The callbacks *)

(** [parseInt(s)] *)
Definition parseInt (s : jsstr) : num :=
  let '(neg, r) := span_sign (trim_start s) in
  let '(base, r) := match r with
    | 48%N :: x :: r' => if ((x =? 120) || (x =? 88))%N then (16%N, r') else (10%N, r)
    | _ => (10%N, r) end in
  let fix digits (r : jsstr) : jsstr :=
    match r with c :: r' => if (radix_digit c <? base)%N then c :: digits r' else [] | [] => [] end in
  match digits r with
  | [] => S754_nan
  | d => let x := radix_value base d in if neg then num_neg x else x
  end.

Definition set_amount (s : State) (amount : num) (preset : option num) : State :=
  with_form s (mkForm amount preset (selectedMethod (form s)))
    (calculatePaymentAmount amount (getCurrentPaymentType s) (price s)).

Definition initiating (s : State) : bool := match inflight s with [] => false | _ => true end.

Definition selectionValid (s : State) : bool :=
  match selectedMethod (form s) with
  | Some sel => num_leb (min_of (info s) sel) (topupAmount (form s))
  | None => false
  end.

Definition payDisabled (s : State) : bool :=
  negb (selectionValid s) || calculating (price s) || initiating s || num_leb (paymentAmount (price s)) num_zero.

Definition send (s : State) (o : Order) (from_dialog : bool) : State :=
  mkState (info s) (presets s) (form s) (price s) (if from_dialog then false else confirmOpen s)
    (inflight s ++ [(o, from_dialog)]) (o :: sent s).

Definition open_dialog (s : State) : State :=
  mkState (info s) (presets s) (form s) (price s) true (inflight s) (sent s).

Definition close_dialog (s : State) : State :=
  mkState (info s) (presets s) (form s) (price s) false (inflight s) (sent s).

(** What the main button sends at once; a standard method is confirmed first. *)
Definition direct_order (amount : num) (sel : SelectedPayMethod) : option Order :=
  let amount := num_floor amount in
  match sel with
  | Provider p =>
      Some (if bool_decide (p_id p = CRYPTOMUS) then CryptomusOrder amount else
            if bool_decide (p_id p = BEPUSDT) then BepusdtOrder amount else
            if bool_decide (p_id p = AGOU) then AgouOrder amount (opt_or (head (channels p)) []) else PancakeOrder amount)
  | Waffo _ index => Some (WaffoOrder amount index)
  | Sfpay m => Some (AgouOrder amount (a_type m))
  | Standard _ => None
  end.

Definition handleInitiatePayment (s : State) : State :=
  match selectedMethod (form s) with
  | None => s
  | Some sel =>
      match direct_order (topupAmount (form s)) sel with
      | Some o => send s o false
      | None => open_dialog s
      end
  end.

Definition confirmed_order (amount : num) (paymentType : jsstr) : Order :=
  let amount := num_floor amount in
  if bool_decide (paymentType = WAFFO_PANCAKE) then PancakeOrder amount else
  if bool_decide (paymentType = CRYPTOMUS) then CryptomusOrder amount else
  if bool_decide (paymentType = BEPUSDT) then BepusdtOrder amount else
  if bool_decide (paymentType = STRIPE) then StripeOrder amount else EpayOrder amount paymentType.

(** The action of the dialog closes it. *)
Definition handlePaymentConfirm (s : State) : State :=
  match selectedMethod (form s) with
  | Some (Standard m) => send s (confirmed_order (topupAmount (form s)) (m_type m)) true
  | _ => close_dialog s
  end.

(** The orders that keep the dialog's action from being pressed. *)
Definition shown_processing (o : Order) : bool :=
  match o with AgouOrder _ _ | WaffoOrder _ _ | CreemOrder _ => false | _ => true end.

Inductive Event :=
  | InfoArrives (raw : RawInfo)
  | SelectPreset (k : nat)
  | TypeAmount (text : jsstr)
  | SelectMethod (k : nat)
  | Initiate
  | Confirm
  | Cancel
  | QuoteAnswer (i : nat) (reply : option json)
  | OrderEnds (i : nat) (success : bool).

Definition entries (s : State) : list MethodEntry := match info s with Some i => methodEntries i | None => [] end.

(** The three steps are there, and no dialog is over them. *)
Definition offered (s : State) : bool :=
  match info s with
  | Some i =>
      let c := config i in
      (enable_online_topup c || enable_stripe_topup c || enable_waffo_topup c || enable_waffo_pancake_topup c ||
       enable_cryptomus_topup c || enable_bepusdt_topup c || enable_sfpay_topup c) && negb (confirmOpen s)
  | None => false
  end.

(** An event changes the state; what the page does not offer changes nothing.
    The configuration is asked for once. *)
Definition handle (s : State) (e : Event) : State :=
  match e with
  | InfoArrives raw =>
      match info s with
      | Some _ => s
      | None =>
          let i := process_info raw in
          mkState (Some i) (presets_of i) (form s) (price s) (confirmOpen s) (inflight s) (sent s)
      end
  | SelectPreset k =>
      if negb (offered s) then s else
      match presets s !! k with Some p => set_amount s (value p) (Some (value p)) | None => s end
  | TypeAmount text =>
      if negb (offered s) then s else
      let numValue := num_or (parseInt text) num_zero in
      if num_leb num_zero numValue then set_amount s numValue None else s
  | SelectMethod k =>
      if negb (offered s) then s else
      match entries s !! k with
      | Some en =>
          if entry_available (topupAmount (form s)) en then
            with_form s (mkForm (topupAmount (form s)) (selectedPreset (form s)) (Some (sel en)))
              (calculatePaymentAmount (topupAmount (form s)) (type_of (sel en)) (price s))
          else s
      | None => s
      end
  | Initiate => if negb (offered s) || payDisabled s then s else handleInitiatePayment s
  | Confirm =>
      if confirmOpen s && negb (existsb (λ ob, shown_processing ob.1) (inflight s)) then handlePaymentConfirm s else s
  | Cancel => close_dialog s
  | QuoteAnswer i reply => with_form s (form s) (quote_answered i reply (price s))
  | OrderEnds i success =>
      match inflight s !! i with
      | Some (_, from_dialog) =>
          mkState (info s) (presets s) (form s) (price s) (if success && from_dialog then false else confirmOpen s)
            (delete i (inflight s)) (sent s)
      | None => s
      end
  end.

Definition is_some {A} (o : option A) : bool := match o with Some _ => true | None => false end.

Definition step (s : State) (e : Event) : State :=
  let s' := handle s e in
  render (amount_changed s s' || negb (Bool.eqb (is_some (info s)) (is_some (info s')))) s'.

Definition run (es : list Event) : State := foldl step init es.

(** *** The renderings end *)

Lemma amount_same s : amount_changed s s = false.
Proof. unfold amount_changed. by rewrite bool_decide_true. Qed.

Definition runs (changed : bool) (s : State) : bool :=
  is_some (info s) && changed && num_eqb (topupAmount (form s)) num_zero.

(** Where the first effect does not run, a rendering only looks at the method. *)
Lemma commit_still changed s : runs changed s = false →
  commit changed s = with_form s (mkForm (topupAmount (form s)) (selectedPreset (form s)) (min_effect s)) (price s).
Proof.
  unfold runs, commit, init_effect. destruct (info s); [|done]. cbn [is_some andb].
  by destruct (changed && num_eqb (topupAmount (form s)) num_zero).
Qed.

Lemma runs_false s : runs false s = false.
Proof. unfold runs. by rewrite andb_false_r. Qed.

Lemma still_again changed s : runs changed s = false → commit false (commit changed s) = commit changed s.
Proof.
  intros H. rewrite (commit_still changed s H), commit_still by apply runs_false.
  unfold with_form. cbn [info presets form price confirmOpen inflight sent topupAmount selectedPreset].
  do 2 f_equal. unfold min_effect. cbn [form selectedMethod topupAmount info].
  destruct (selectedMethod (form s)) as [sel|]; [|done]. destruct (num_ltb _ _) eqn:E; [done|]. by rewrite E.
Qed.

Lemma still_amount changed s : runs changed s = false → amount_changed s (commit changed s) = false.
Proof. intros H. rewrite commit_still by done. unfold amount_changed. by rewrite bool_decide_true. Qed.

Lemma commits_still n changed s : runs changed s = false → commits (S n) changed s = commit changed s.
Proof.
  intros H. cbn [commits]. rewrite still_amount by done. pose proof (still_again changed s H) as E.
  revert E. generalize (commit changed s). clear. intros s E.
  induction n as [|n IH]; [done|]. cbn [commits]. rewrite E, amount_same. apply IH.
Qed.

(** The amount that the first effect sets depends on the configuration alone. *)
Lemma run_amount changed s : runs changed s = true →
  ∃ i, info s = Some i ∧ info (commit changed s) = Some i ∧ presets (commit changed s) = presets s ∧
  topupAmount (form (commit changed s)) =
    match head (presets s) with Some p => num_or (value p) (getMinTopupAmount (Some i)) | None => getMinTopupAmount (Some i) end.
Proof.
  unfold runs, commit, init_effect. destruct (info s) as [i|] eqn:Ei; [|done]. cbn [is_some andb]. intros ->.
  exists i. cbn. rewrite Ei. split_and!; [done..|]. by destruct (head (presets s)).
Qed.

Lemma settled_at changed s n : commits (S (S (S n))) changed s = render changed s ∧ commit false (render changed s) = render changed s.
Proof.
  assert (∀ b s', runs b s' = false → commits (S (S n)) b s' = commits 2 b s' ∧ commit false (commits 2 b s') = commits 2 b s') as Hs.
  { intros b s' H. rewrite !commits_still by done. split; [done|by apply still_again]. }
  unfold render. change (commits (S (S (S n))) changed s) with
    (commits (S (S n)) (amount_changed s (commit changed s)) (commit changed s)).
  change (commits 3 changed s) with (commits 2 (amount_changed s (commit changed s)) (commit changed s)).
  destruct (runs changed s) eqn:E1.
  2:{ apply Hs. rewrite still_amount by done. apply runs_false. }
  set (s1 := commit changed s) in *. set (b := amount_changed s s1).
  destruct (runs b s1) eqn:E2; [|by apply Hs].
  destruct (run_amount _ _ E1) as (i & Hi & Hi1 & Hp & Ha). fold s1 in Hi1, Hp, Ha.
  destruct (run_amount _ _ E2) as (i' & Hi' & _ & _ & Ha'). rewrite Hp in Ha'.
  assert (amount_changed s1 (commit b s1) = false) as E3.
  { unfold amount_changed. rewrite Ha, Ha'. assert (i = i') as -> by congruence. by rewrite bool_decide_true. }
  change (commits (S (S n)) b s1) with (commits (S n) (amount_changed s1 (commit b s1)) (commit b s1)).
  change (commits 2 b s1) with (commits 1 (amount_changed s1 (commit b s1)) (commit b s1)).
  rewrite E3, !commits_still by apply runs_false. split; [done|]. apply still_again, runs_false.
Qed.

(** C12: After every callback the page comes to rest: its two effects, which
    set the state that they depend on, have nothing left to do after three
    renderings. *)
Theorem page_settles changed s n : (3 ≤ n)%nat → commits n changed s = render changed s.
Proof. intros H. destruct n as [|[|[|n]]]; try lia. apply settled_at. Qed.

(** *** Orders *)

(** The renderings leave alone what they do not set. *)
Lemma commit_rest changed s :
  info (commit changed s) = info s ∧ presets (commit changed s) = presets s ∧ confirmOpen (commit changed s) = confirmOpen s ∧
  inflight (commit changed s) = inflight s ∧ sent (commit changed s) = sent s.
Proof. unfold commit. by destruct (init_effect changed s). Qed.

Lemma render_rest changed s :
  info (render changed s) = info s ∧ confirmOpen (render changed s) = confirmOpen s ∧
  inflight (render changed s) = inflight s ∧ sent (render changed s) = sent s.
Proof.
  unfold render. cbn [commits]. set (s1 := commit _ s). set (s2 := commit _ s1).
  destruct (commit_rest (amount_changed s1 s2) s2) as (-> & _ & -> & -> & ->).
  subst s2. destruct (commit_rest (amount_changed s s1) s1) as (-> & _ & -> & -> & ->).
  subst s1. destruct (commit_rest changed s) as (-> & _ & -> & -> & ->). done.
Qed.

(** The selected method takes the amount. *)
Definition takes_amount (s : State) : Prop :=
  ∀ sel, selectedMethod (form s) = Some sel → num_ltb (topupAmount (form s)) (min_of (info s) sel) = false.

Lemma render_takes changed s : takes_amount (render changed s).
Proof.
  pose proof (proj2 (settled_at changed s 0)) as E. intros sel Hsel.
  rewrite <- E, commit_still in Hsel by apply runs_false. cbn [with_form form selectedMethod] in Hsel. unfold min_effect in Hsel.
  destruct (selectedMethod (form (render changed s))) as [sel'|]; [|done].
  destruct (num_ltb _ _) eqn:Em; [done|]. by injection Hsel as <-.
Qed.

Lemma delete_none {A} (l : list A) i : delete i l ≠ [] → l ≠ [].
Proof. by destruct l. Qed.

Lemma initiating_none s : initiating s = false → inflight s = [].
Proof. unfold initiating. by destruct (inflight s). Qed.

Lemma enabled_facts s : payDisabled s = false →
  inflight s = [] ∧ num_leb (paymentAmount (price s)) num_zero = false ∧ calculating (price s) = false.
Proof. unfold payDisabled. intros H. bool_hyps. split; [by apply initiating_none|done]. Qed.

(** What a callback sends, and the orders under way: one at most, and none
    while the dialog is open. *)
Definition sends (s s' : State) : Prop :=
  ∃ o sel, sent s' = o :: sent s ∧ selectedMethod (form s) = Some sel ∧ inflight s = [] ∧
    (direct_order (topupAmount (form s)) sel = Some o ∧ num_leb (paymentAmount (price s)) num_zero = false ∨
     ∃ m, sel = Standard m ∧ confirmOpen s = true ∧ o = confirmed_order (topupAmount (form s)) (m_type m)).

Definition dialog_inv (s : State) : Prop := (length (inflight s) ≤ 1)%nat ∧ (inflight s ≠ [] → confirmOpen s = false).

Lemma initiate_sends s : dialog_inv s → payDisabled s = false → offered s = true →
  dialog_inv (handleInitiatePayment s) ∧
  (sent (handleInitiatePayment s) = sent s ∨ sends s (handleInitiatePayment s)).
Proof.
  intros [H1 H2] Hp Ho. destruct (enabled_facts _ Hp) as (Hi & Hpay & _).
  assert (confirmOpen s = false) as Hc.
  { unfold offered in Ho. destruct (info s); [|done]. apply andb_true_iff in Ho as [_ Ho]. by apply negb_true_iff in Ho. }
  unfold handleInitiatePayment. destruct (selectedMethod (form s)) as [sel|] eqn:Es; [|split; [by split|by left]].
  destruct (direct_order _ sel) as [o|] eqn:Ed.
  - split; [split; cbn; rewrite Hi; [done|intros _; exact Hc]|]. right. exists o, sel. split_and!; [done..|]. by left.
  - split; [|by left]. split; cbn; rewrite Hi; done || (simpl; lia).
Qed.

Lemma confirm_sends s : dialog_inv s → confirmOpen s = true →
  dialog_inv (handlePaymentConfirm s) ∧ (sent (handlePaymentConfirm s) = sent s ∨ sends s (handlePaymentConfirm s)).
Proof.
  intros [H1 H2] Hc. assert (inflight s = []) as Hi.
  { destruct (inflight s); [done|]. rewrite H2 in Hc by done. done. }
  unfold handlePaymentConfirm. destruct (selectedMethod (form s)) as [[m| | |]|] eqn:Es;
    try (split; [split; cbn; rewrite Hi; done || (simpl; lia)|by left]).
  split; [split; cbn; rewrite Hi; done|]. right.
  exists (confirmed_order (topupAmount (form s)) (m_type m)), (Standard m). split_and!; [done..|]. right. by exists m.
Qed.

Lemma handle_sends s e : dialog_inv s → dialog_inv (handle s e) ∧ (sent (handle s e) = sent s ∨ sends s (handle s e)).
Proof.
  intros H. assert (dialog_inv s ∧ (sent s = sent s ∨ sends s s)) as Hid by (split; [done|by left]).
  destruct e as [raw|k|text|k| | | |i reply|i success]; cbn [handle].
  - destruct (info s); [done|]. split; [apply H|by left].
  - destruct (negb (offered s)); [done|]. destruct (presets s !! k); [|done]. split; [apply H|by left].
  - destruct (negb (offered s)); [done|]. destruct (num_leb _ _); [|done]. split; [apply H|by left].
  - destruct (negb (offered s)); [done|]. destruct (entries s !! k); [|done].
    destruct (entry_available _ _); [|done]. split; [apply H|by left].
  - destruct (offered s) eqn:Ho; [|done]. destruct (payDisabled s) eqn:Hp; [done|]. by apply initiate_sends.
  - destruct (confirmOpen s) eqn:Hc; [|done]. destruct (negb _); [|done]. by apply confirm_sends.
  - split; [split; [apply H|done]|by left].
  - split; [apply H|by left].
  - destruct (inflight s !! i) as [[o d]|] eqn:Ei; [|done]. split; [|by left]. destruct H as [H1 H2]. split; cbn.
    + pose proof (length_delete_le (inflight s) i). lia.
    + intros Hne%delete_none. rewrite H2 by done. by destruct (success && d).
Qed.

Lemma step_dialog s e : dialog_inv s → dialog_inv (step s e) ∧ (sent (step s e) = sent s ∨ sends s (step s e)).
Proof.
  intros H. destruct (handle_sends s e H) as [Hd Hs]. unfold step.
  match goal with |- context [render ?c ?x] => destruct (render_rest c x) as (_ & Hc & Hi & Hsent) end.
  split; [unfold dialog_inv; by rewrite Hc, Hi|]. rewrite Hsent. destruct Hs as [Hs|(o & sel & Ho & Hr)]; [by left|].
  right. exists o, sel. by rewrite Hsent.
Qed.

Lemma run_snoc es e : run (es ++ [e]) = step (run es) e.
Proof. unfold run. by rewrite foldl_app. Qed.

Lemma run_dialog es : dialog_inv (run es).
Proof.
  induction es as [|e es IH] using rev_ind; [split; [simpl; lia|done]|]. rewrite run_snoc. by apply step_dialog.
Qed.

Lemma run_takes es : takes_amount (run es).
Proof. induction es as [|e es _] using rev_ind; [done|]. rewrite run_snoc. apply render_takes. Qed.


(** *** The price that is shown *)

(** The answers of the prices come in the order of the requests. *)
Definition in_order (e : Event) : Prop := match e with QuoteAnswer i _ => i = 0%nat | _ => True end.

(** Every method of the configuration asks for something. *)
Definition positive_mins (e : Event) : Prop :=
  match e with
  | InfoArrives raw => Forall (λ en, num_ltb num_zero (minRequired en) = true) (methodEntries (process_info raw))
  | _ => True
  end.

Lemma entry_min i en : en ∈ methodEntries i → min_of (Some i) (sel en) = minRequired en ∧ type_of (sel en) = payType en.
Proof.
  unfold methodEntries. intros [H|[H|H]%elem_of_app]%elem_of_app.
  - by apply list_elem_of_fmap in H as (p & -> & _).
  - by apply list_elem_of_fmap in H as (m & -> & _).
  - destruct (enable_waffo_topup (config i)); [|by apply elem_of_nil in H].
    by apply elem_of_lookup_imap in H as (k & m & -> & _).
Qed.

(** The request that was made last. *)
Definition last_asked (p : Price) : option Quote :=
  match last (asked p) with Some q => Some q | None => fst <$> quoted p end.

Lemma last_of_asked amount type p : last_asked (calculatePaymentAmount amount type p) = Some (amount, type).
Proof. unfold last_asked, calculatePaymentAmount. cbn [asked]. by rewrite last_snoc. Qed.

Lemma answer_last reply p : last_asked (quote_answered 0 reply p) = last_asked p.
Proof.
  unfold quote_answered. destruct (asked p) as [|q [|q' l]] eqn:E; cbn [lookup list_lookup]; [done| |];
    unfold last_asked; rewrite E; [done|]. destruct (last (q' :: l)) eqn:El; [simpl in *; by rewrite El|].
  by apply last_None in El.
Qed.

Record price_inv (s : State) : Prop := {
  inv_entries : Forall (λ en, num_ltb num_zero (minRequired en) = true) (entries s);
  inv_asked : ∀ sel, selectedMethod (form s) = Some sel →
    last_asked (price s) = Some (topupAmount (form s), type_of sel) ∧ num_ltb num_zero (min_of (info s) sel) = true;
  inv_shown : ∀ q reply, quoted (price s) = Some (q, reply) → paymentAmount (price s) = opt_or (quote_value reply) num_zero;
}.

Lemma zero_below x m : num_eqb x num_zero = true → num_ltb num_zero m = true → num_ltb x m = true.
Proof. destruct x as [b|b| |b p e]; try done; destruct b; done. Qed.

(** A rendering that keeps a method changes nothing else. *)
Lemma commit_price changed s : price_inv s → price_inv (commit changed s).
Proof.
  intros [He Ha Hs]. destruct (commit_rest changed s) as (Hi & _).
  split; [by unfold entries; rewrite Hi| |].
  - intros sel Hsel. assert (selectedMethod (form (commit changed s)) = min_effect s) as Em
      by (unfold commit; by destruct (init_effect changed s)).
    rewrite Em in Hsel. unfold min_effect in Hsel. destruct (selectedMethod (form s)) as [sel'|]; [|done].
    destruct (num_ltb _ _) eqn:El; [done|]. injection Hsel as <-. destruct (Ha sel' eq_refl) as [H1 H2]. rewrite Hi.
    split; [|done]. rewrite commit_still; [done|]. unfold runs.
    destruct (num_eqb (topupAmount (form s)) num_zero) eqn:Ez; [|by rewrite andb_false_r].
    by rewrite (zero_below _ _ Ez H2) in El.
  - assert (quoted (price (commit changed s)) = quoted (price s) ∧ paymentAmount (price (commit changed s)) = paymentAmount (price s)) as [-> ->];
      [|done]. unfold commit, init_effect. destruct (info s); [|done]. by destruct (changed && _).
Qed.

Lemma set_amount_price s amount preset : price_inv s → price_inv (set_amount s amount preset).
Proof.
  intros [He Ha Hs]. split; [done| |done]. intros sel Hsel. cbn in Hsel. unfold set_amount. cbn [with_form price form topupAmount info].
  rewrite last_of_asked. unfold getCurrentPaymentType. rewrite Hsel. split; [done|]. by apply Ha.
Qed.

(** What changes neither the form nor the price keeps the invariant. *)
Lemma same_price s s' : info s' = info s → form s' = form s → price s' = price s → price_inv s → price_inv s'.
Proof. intros Hi Hf Hp [He Ha Hs]. split; [by unfold entries; rewrite Hi|by rewrite Hi, Hf, Hp|by rewrite Hp]. Qed.

Lemma handle_price s e : in_order e → positive_mins e → (info s = None → selectedMethod (form s) = None) →
  price_inv s → price_inv (handle s e).
Proof.
  intros Ho Hm Hnone H. destruct e as [raw|k|text|k| | | |i reply|i success]; cbn [handle].
  - destruct (info s) eqn:Ei; [done|]. split; [done| |apply H]. cbn. intros sel Hsel. by rewrite Hnone in Hsel.
  - destruct (negb (offered s)); [done|]. destruct (presets s !! k); [|done]. by apply set_amount_price.
  - destruct (negb (offered s)); [done|]. destruct (num_leb _ _); [|done]. by apply set_amount_price.
  - destruct (negb (offered s)); [done|]. destruct (entries s !! k) as [en|] eqn:Ek; [|done].
    destruct (entry_available _ _); [|done]. pose proof (list_elem_of_lookup_2 _ _ _ Ek) as Hen.
    pose proof (proj1 (Forall_forall _ _) (inv_entries _ H) _ Hen) as Hpos.
    unfold entries in Hen. destruct (info s) as [i|] eqn:Ei; [|by apply elem_of_nil in Hen].
    split; [exact (inv_entries _ H)| |apply H]. intros sel' Hsel. injection Hsel as <-.
    cbn [with_form price form topupAmount info]. rewrite last_of_asked. split; [done|].
    rewrite Ei. by rewrite (proj1 (entry_min _ _ Hen)).
  - destruct (negb (offered s) || payDisabled s); [done|]. unfold handleInitiatePayment.
    destruct (selectedMethod (form s)); [|done]. destruct (direct_order _ _); by apply (same_price s).
  - destruct (confirmOpen s && _); [|done]. unfold handlePaymentConfirm.
    destruct (selectedMethod (form s)) as [[]|]; by apply (same_price s).
  - by apply (same_price s).
  - cbn in Ho. subst i. destruct H as [He Ha Hs]. split; [done| |].
    + cbn [with_form form price info]. by rewrite answer_last.
    + cbn [with_form price]. unfold quote_answered. destruct (asked (price s) !! 0%nat) as [qt|]; [|done]. intros q r Hq. by injection Hq as <- <-.
  - destruct (inflight s !! i) as [[o d]|]; [|done]. by apply (same_price s).
Qed.

(** Before the configuration is there nothing is selected. *)
Lemma step_none s e : (info s = None → selectedMethod (form s) = None) → info (step s e) = None → selectedMethod (form (step s e)) = None.
Proof.
  intros H. unfold step. match goal with |- context [render ?c ?x] => set (b := c); set (s' := x) end.
  destruct (render_rest b s') as (-> & _). intros Hn.
  assert (selectedMethod (form s') = None) as Hs'.
  { subst s'. destruct e as [raw|k|text|k| | | |i reply|i success]; cbn [handle] in *; unfold offered in *;
      repeat case_match; try congruence; try (by apply H); cbn in *; unfold handleInitiatePayment, handlePaymentConfirm in *;
      repeat case_match; cbn in *; try congruence; specialize (H Hn); congruence. }
  unfold render. cbn [commits].
  assert (∀ c x, selectedMethod (form x) = None → selectedMethod (form (commit c x)) = None) as Hc.
  { intros c x Hx. unfold commit. destruct (init_effect c x). cbn. unfold min_effect. by rewrite Hx. }
  by repeat apply Hc.
Qed.

Lemma run_price es : Forall in_order es → Forall positive_mins es →
  price_inv (run es) ∧ (info (run es) = None → selectedMethod (form (run es)) = None).
Proof.
  induction es as [|e es IH] using rev_ind; [by repeat split|].
  intros [Ho Ho']%Forall_app [Hm Hm']%Forall_app. destruct (IH Ho Hm) as [H1 H2]. rewrite run_snoc.
  split; [|by apply step_none]. unfold step, render. cbn [commits]. do 3 apply commit_price.
  apply handle_price; [by inversion Ho'|by inversion Hm'|done..].
Qed.

(** C3: The price of the page: when every method asks for a least amount, the
    answers come in the order of the requests and none is missing, the price
    that is shown with a selected method is the one that the server answered
    for the present amount and that method, whatever was chosen, typed,
    cleared or paid before; zero if it could not tell. *)
Theorem shown_price_spec es sel :
  Forall in_order es → Forall positive_mins es →
  let s := run es in
  selectedMethod (form s) = Some sel → asked (price s) = [] →
  ∃ reply, quoted (price s) = Some ((topupAmount (form s), type_of sel), reply) ∧
    paymentAmount (price s) = opt_or (quote_value reply) num_zero.
Proof.
  intros Ho Hm s Hsel Hasked. destruct (run_price es Ho Hm) as [[_ Ha Hs] _].
  destruct (Ha sel Hsel) as [Hl _]. fold s in Hl. unfold last_asked in Hl. rewrite Hasked in Hl. simpl in Hl.
  destruct (quoted (price s)) as [[q reply]|] eqn:Eq; [|done]. injection Hl as ->.
  exists reply. split; [done|]. by apply (Hs _ _ Eq).
Qed.

(** *** A page to try the definitions on *)

Definition sample_config (waffo : bool) : Config :=
  mkConfig true false waffo false false false false (num_of_Z 1) (num_of_Z 1) None None None None None [] [].

Definition method_json (name type : string) (min : Z) : json :=
  JObj [(js "name", JStr (js name)); (js "type", JStr (js type)); (js "min_topup", JNum (num_of_Z min))].

(** Two methods, the second with the given least amount. *)
Definition sample_raw (min : Z) : RawInfo :=
  mkRaw (sample_config false) (Some (JArr [method_json "Alipay" "alipay" 1; method_json "Card" "card" min])) None None None None.

Definition price_json (text : string) : option json :=
  Some (JObj [(js "success", JBool true); (js "data", JStr (js text))]).

(** What a run ends with: the amount, the type, the price, and whether the
    button is enabled. *)
Definition shown (es : list Event) : jsstr * jsstr * jsstr * bool :=
  let s := run es in
  (num_to_string (topupAmount (form s)), getCurrentPaymentType s, num_to_string (paymentAmount (price s)), negb (payDisabled s)).

Example quoted_in_order :
  shown [InfoArrives (sample_raw 5); QuoteAnswer 0 (price_json "7.3"); TypeAmount (js "20"); QuoteAnswer 0 (price_json "146");
    SelectMethod 1; QuoteAnswer 0 (price_json "150")] = (js "20", js "card", js "150", true).
Proof. vm_compute. reflexivity. Qed.

(** Nothing ties an answer to its request: answered out of order, the price of
    another amount stays; and the first of two answers enables the button at
    the price of the earlier request. *)
Example stale_price_shown :
  let es := [InfoArrives (sample_raw 5); QuoteAnswer 0 (price_json "7.3"); SelectMethod 0; QuoteAnswer 0 (price_json "7.3");
    TypeAmount (js "1"); TypeAmount (js "100")] in
  shown (es ++ [QuoteAnswer 1 (price_json "730"); QuoteAnswer 0 (price_json "7.3")]) = (js "100", js "alipay", js "7.3", true) ∧
  shown (es ++ [QuoteAnswer 0 (price_json "7.3")]) = (js "100", js "alipay", js "7.3", true).
Proof. vm_compute. by split. Qed.

(** When the amount is cleared under a method without a least amount, the
    first preset comes back with the price of the default method. *)
Example cleared_amount_misquoted :
  shown [InfoArrives (sample_raw 0); QuoteAnswer 0 (price_json "7.3"); SelectMethod 1; QuoteAnswer 0 (price_json "9");
    TypeAmount []; QuoteAnswer 0 None; QuoteAnswer 0 (price_json "7.3")] = (js "1", js "card", js "7.3", true) ∧
  last_asked (price (run [InfoArrives (sample_raw 0); SelectMethod 1; TypeAmount []])) = Some (num_of_Z 1, js "alipay").
Proof. vm_compute. by split. Qed.

(** Methods without a name are left out before the others are numbered, but
    the number that is sent counts the methods of the server. *)
Example waffo_index_shifts :
  let raw := mkRaw (sample_config true) None None None None
    (Some (JArr [JObj [(js "payMethodType", JStr (js "CARD"))]; JObj [(js "name", JStr (js "Apple Pay"))]])) in
  sent (run [InfoArrives raw; SelectMethod 0; QuoteAnswer 0 (price_json "7"); QuoteAnswer 0 (price_json "7"); Initiate]) =
  [WaffoOrder (num_of_Z 1) 0].
Proof. vm_compute. reflexivity. Qed.

Definition sample_run : list Event :=
  [InfoArrives (sample_raw 5); TypeAmount (js "20"); SelectMethod 1; QuoteAnswer 0 None; QuoteAnswer 0 (price_json "146");
   QuoteAnswer 0 (price_json "150")].

Lemma shown_price_spec_witness :
  ∃ reply, quoted (price (run sample_run)) =
    Some ((topupAmount (form (run sample_run)), js "card"), reply) ∧
    paymentAmount (price (run sample_run)) = opt_or (quote_value reply) num_zero.
Proof.
  refine (shown_price_spec sample_run (Standard (mkMethod (js "Card") (js "card") None (Some (num_of_Z 5)) None)) _ _ _ _).
  - repeat constructor.
  - repeat constructor.
  - vm_compute. reflexivity.
  - vm_compute. reflexivity.
Defined.

Lemma page_settles_witness : commits 7 true init = render true init.
Proof. apply (page_settles true init 7). lia. Defined.

End Page.

(** ** The prices of the cards

    Both lists of cards show prices that an effect asks for: the presets for
    the method, the methods for the amount.  A rendering with other inputs
    cancels what the last one asked for; answers are kept by type and amount. *)
Module Preview.

(** [`${paymentType}:${amount}`] *)
Definition cacheKey (amount : num) (paymentType : jsstr) : jsstr := paymentType ++ js ":" ++ num_to_string amount.

(** A card, the key of its price, and the answer once it is there; [None] in
    it is [null]. *)
Record Item := mkItem { label : jsstr; ikey : jsstr; result : option (option num) }.
Record Batch := mkBatch { live : bool; items : list Item }.

(** [current] are the cards of the last rendering with their keys; [answered]
    all answers so far, which the code does not keep. *)
Record State := mkState {
  cache : gmap jsstr num;
  current : list (jsstr * jsstr);
  batches : list Batch;
  prices : obj num;
  ready : bool;
  answered : list (jsstr * option num) }.

Definition init : State := mkState ∅ [] [] [] false [].

Definition fill (cache : gmap jsstr num) (card : jsstr * jsstr) : Item :=
  mkItem card.1 card.2 (Some <$> cache !! card.2).

Definition resolved (it : Item) : bool := match result it with Some _ => true | None => false end.
Definition complete (b : Batch) : bool := forallb resolved (items b).

Definition entries_of (l : list Item) : obj num :=
  foldl (λ next it, match result it with Some (Some price) => obj_set (label it) price next | _ => next end) [] l.

Definition cancel (b : Batch) : Batch := mkBatch false (items b).

(** The end of [Promise.all], for a batch that is out of the list. *)
Definition settle (s : State) (b : Batch) : State :=
  if live b then mkState (cache s) (current s) (batches s) (entries_of (items b)) true (answered s) else s.

(** The effect, for new cards. *)
Definition effect (s : State) (cards : list (jsstr * jsstr)) : State :=
  let dead := map cancel (batches s) in
  match cards with
  | [] => mkState (cache s) [] dead [] true (answered s)
  | _ =>
      let b := mkBatch true (map (fill (cache s)) cards) in
      if complete b then settle (mkState (cache s) cards dead (prices s) false (answered s)) b
      else mkState (cache s) cards (b :: dead) (prices s) false (answered s)
  end.

Definition answer_item (v : option num) (it : Item) : Item := mkItem (label it) (ikey it) (Some v).

(** The answer to the [i]th request of the [j]th batch. *)
Definition answer (s : State) (j i : nat) (v : option num) : State :=
  match batches s !! j with
  | Some b =>
      match items b !! i with
      | Some it =>
          if resolved it then s else
          let b' := mkBatch (live b) (alter (answer_item v) i (items b)) in
          let cache' := match v with Some price => <[ikey it := price]> (cache s) | None => cache s end in
          let log := (ikey it, v) :: answered s in
          if complete b' then settle (mkState cache' (current s) (delete j (batches s)) (prices s) (ready s) log) b'
          else mkState cache' (current s) (<[j := b']> (batches s)) (prices s) (ready s) log
      | None => s
      end
  | None => s
  end.

Inductive Event := Cards (cards : list (jsstr * jsstr)) | Answer (j i : nat) (v : option num).

Definition step (s : State) (e : Event) : State :=
  match e with Cards cards => effect s cards | Answer j i v => answer s j i v end.

Definition run (es : list Event) : State := foldl step init es.

(** The cards of the presets, and those of the methods, of a state of the page. *)
Definition preset_cards (s : Page.State) : list (jsstr * jsstr) :=
  map (λ p, (num_to_string (Topup.value p), cacheKey (Topup.value p) (Page.getCurrentPaymentType s))) (Page.presets s).

Definition previewPayTypes (info : option Topup.TopupInfo) : list jsstr :=
  match info with
  | Some i => uniq (map Topup.m_type (Topup.pay_methods i) ++ map Topup.p_id (Topup.providers (Topup.config i)))
  | None => []
  end.

Definition method_cards (s : Page.State) : list (jsstr * jsstr) :=
  let amount := Page.topupAmount (Page.form s) in
  if num_truthy amount then map (λ type, (type, cacheKey amount type)) (previewPayTypes (Page.info s)) else [].

(** *** Lemmas *)

Definition card_of (it : Item) : jsstr * jsstr := (label it, ikey it).

(** The answers of the items are answers of the server. *)
Definition honest (log : list (jsstr * option num)) (it : Item) : Prop := ∀ v, result it = Some v → (ikey it, v) ∈ log.

(** The prices are those of the cards, and a card without one has an answer
    without one. *)
Definition covers (log : list (jsstr * option num)) (cards : list (jsstr * jsstr)) (prices : obj num) : Prop :=
  (∀ l p, obj_get l prices = Some p → ∃ k, (l, k) ∈ cards ∧ (k, Some p) ∈ log) ∧
  (∀ l k, (l, k) ∈ cards → (∃ p, obj_get l prices = Some p) ∨ (k, None) ∈ log).

Lemma entries_snoc l it : entries_of (l ++ [it]) =
  match result it with Some (Some price) => obj_set (label it) price (entries_of l) | _ => entries_of l end.
Proof. unfold entries_of. by rewrite foldl_app. Qed.

Lemma entries_cover log l : Forall (honest log) l → forallb resolved l = true → covers log (map card_of l) (entries_of l).
Proof.
  induction l as [|it l IH] using rev_ind; [intros _ _; split; [done|]; by intros ? ? ?%elem_of_nil|].
  rewrite Forall_app, Forall_singleton, forallb_app, map_app, entries_snoc. intros [Hl Hit] [Hr Hr']%andb_true_iff.
  destruct (IH Hl Hr) as [H1 H2]. simpl in Hr'. rewrite andb_true_r in Hr'. unfold resolved in Hr'.
  destruct (result it) as [v|] eqn:Ev; [|done]. pose proof (Hit _ Ev) as Hlog. split.
  - intros lb p Hp. destruct v as [price|].
    + destruct (decide (lb = label it)) as [->|Hne].
      * rewrite obj_get_set_eq in Hp. injection Hp as <-. exists (ikey it). split; [|done]. apply elem_of_app. right. by left.
      * rewrite obj_get_set_ne in Hp by done. destruct (H1 _ _ Hp) as (k & Hk & Hk'). exists k. split; [|done].
        apply elem_of_app. by left.
    + destruct (H1 _ _ Hp) as (k & Hk & Hk'). exists k. split; [|done]. apply elem_of_app. by left.
  - intros lb k [Hk|Hk%list_elem_of_singleton]%elem_of_app.
    + destruct (H2 _ _ Hk) as [[p Hp]|Hn]; [|by right]. left. destruct v as [price|]; [|by eexists].
      destruct (decide (lb = label it)) as [->|Hne]; [rewrite obj_get_set_eq|rewrite obj_get_set_ne by done]; by eexists.
    + injection Hk as -> ->. destruct v as [price|]; [|by right]. left. rewrite obj_get_set_eq. by eexists.
Qed.

Record preview_inv (s : State) : Prop := {
  inv_cache : ∀ k p, cache s !! k = Some p → (k, Some p) ∈ answered s;
  inv_honest : Forall (λ b, Forall (honest (answered s)) (items b)) (batches s);
  inv_live : ∀ b, b ∈ batches s → live b = true → map card_of (items b) = current s;
  inv_ready : ready s = true → covers (answered s) (current s) (prices s);
  inv_waiting : ready s = false → current s = [] ∧ batches s = [] ∨ ∃ b, b ∈ batches s ∧ live b = true;
}.

Lemma covers_more log q cards prices : covers log cards prices → covers (q :: log) cards prices.
Proof.
  intros [H1 H2]. split.
  - intros l p Hp. destruct (H1 _ _ Hp) as (k & Hk & Hk'). exists k. split; [done|]. by right.
  - intros l k Hk. destruct (H2 _ _ Hk) as [Hp|Hn]; [by left|]. right. by right.
Qed.

Lemma honest_more log q it : honest log it → honest (q :: log) it.
Proof. intros H v Hv. right. by apply H. Qed.

Lemma fill_honest s card : (∀ k p, cache s !! k = Some p → (k, Some p) ∈ answered s) → honest (answered s) (fill (cache s) card).
Proof.
  intros H v. unfold fill. cbn [result ikey]. destruct (cache s !! card.2) as [p|] eqn:E; [|done].
  intros [= <-]. by apply H.
Qed.

Lemma fill_cards c cards : map card_of (map (fill c) cards) = cards.
Proof. rewrite map_map. rewrite <- (map_id cards) at 2. apply map_ext. by intros []. Qed.

Lemma effect_inv s cards : preview_inv s → preview_inv (effect s cards).
Proof.
  intros [Hc Hh Hl Hr Hw].
  assert (Forall (λ b, Forall (honest (answered s)) (items b)) (map cancel (batches s))) as Hdead by (by apply Forall_map).
  assert (∀ b, b ∈ map cancel (batches s) → live b = false) as Hoff
    by (by intros b (b' & -> & _)%list_elem_of_fmap).
  assert (Forall (honest (answered s)) (map (fill (cache s)) cards)) as Hf.
  { apply Forall_map, Forall_true. intros card. by apply fill_honest. }
  unfold effect. destruct cards as [|c cards].
  - split; cbn; [done|done| | |done].
    + intros b Hb Hlive. by rewrite (Hoff _ Hb) in Hlive.
    + intros _. split; [done|]. by intros ? ? ?%elem_of_nil.
  - set (cards' := c :: cards) in *. destruct (complete _) eqn:E.
    + unfold settle. cbn [live]. split; cbn; [done|done| | |done].
      * intros b Hb Hlive. by rewrite (Hoff _ Hb) in Hlive.
      * intros _. rewrite <- (fill_cards (cache s) cards') at 1. by apply entries_cover.
    + split; cbn; [done|by constructor| |done|].
      * intros b [->|Hb]%elem_of_cons Hlive; [exact (fill_cards (cache s) cards')|]. by rewrite (Hoff _ Hb) in Hlive.
      * intros _. right. eexists. split; [by left|done].
Qed.

Section Middle.
Context {A : Type} (l : list A) (j : nat) (x : A).
Context (Hj : l !! j = Some x).

Lemma at_middle : l = take j l ++ x :: drop (S j) l.
Proof. symmetry. by apply take_drop_middle. Qed.

Lemma delete_at : delete j l = take j l ++ drop (S j) l.
Proof. apply delete_take_drop. Qed.

Lemma insert_at y : <[j := y]> l = take j l ++ y :: drop (S j) l.
Proof. apply insert_take_drop. by eapply lookup_lt_Some. Qed.

Ltac middle :=
  let E := fresh in pose proof at_middle as E; revert E;
  generalize (take j l), (drop (S j) l); intros ?? E; rewrite E; set_solver.

Lemma elem_delete_other y : y ∈ l → y ≠ x → y ∈ delete j l.
Proof. rewrite delete_at. middle. Qed.

Lemma elem_insert y z : z ∈ <[j := y]> l → z = y ∨ z ∈ l.
Proof. rewrite insert_at. middle. Qed.

Lemma elem_insert_other y z : z ∈ l → z ≠ x → z ∈ <[j := y]> l.
Proof. rewrite insert_at. middle. Qed.
End Middle.

Lemma answer_item_honest log v it : honest ((ikey it, v) :: log) (answer_item v it).
Proof. intros w [= <-]. by left. Qed.

Lemma alter_cards v i l : map card_of (alter (answer_item v) i l) = map card_of l.
Proof. revert i. induction l as [|it l IH]; intros [|i]; [done..|]. cbn. f_equal. apply IH. Qed.

Lemma alter_honest log v i l it : l !! i = Some it → Forall (honest log) l →
  Forall (honest ((ikey it, v) :: log)) (alter (answer_item v) i l).
Proof.
  intros Hi Hl. apply Forall_alter.
  - eapply Forall_impl; [exact Hl|]. intros it'. apply honest_more.
  - intros it' Hi' _. assert (it' = it) as -> by congruence. apply answer_item_honest.
Qed.

Lemma answer_inv s j i v : preview_inv s → preview_inv (answer s j i v).
Proof.
  intros Hs. unfold answer. destruct (batches s !! j) as [b|] eqn:Ej; [|done].
  destruct (items b !! i) as [it|] eqn:Ei; [|done]. destruct (resolved it); [done|].
  destruct Hs as [Hc Hh Hl Hr Hw]. pose proof (list_elem_of_lookup_2 _ _ _ Ej) as Hb.
  set (q := (ikey it, v)). set (log := q :: answered s).
  set (b' := mkBatch (live b) (alter (answer_item v) i (items b))).
  set (cache' := match v with Some price => <[ikey it := price]> (cache s) | None => cache s end).
  assert (∀ k p, cache' !! k = Some p → (k, Some p) ∈ log) as Hcache.
  { intros k p. unfold cache', log. destruct v as [price|]; [|intros H; right; by apply Hc].
    destruct (decide (k = ikey it)) as [->|Hne]; [rewrite lookup_insert_eq; intros [= ->]; by left|].
    rewrite lookup_insert_ne by done. intros H. right. by apply Hc. }
  assert (∀ c, c ∈ batches s → Forall (honest log) (items c)) as Hall.
  { intros c Hin. eapply Forall_impl; [exact (proj1 (Forall_forall _ _) Hh _ Hin)|]. intros it'. apply honest_more. }
  assert (Forall (honest log) (items b')) as Hb'.
  { apply alter_honest; [done|]. exact (proj1 (Forall_forall _ _) Hh _ Hb). }
  assert (map card_of (items b') = map card_of (items b)) as Hcards by apply alter_cards.
  assert (ready s = true → covers log (current s) (prices s)) as Hready by (intros H; apply covers_more, Hr, H).
  destruct (complete b') eqn:E.
  - assert (∀ c, c ∈ delete j (batches s) → live c = true → map card_of (items c) = current s) as Hlive
      by (intros c Hin%elem_of_delete; by apply Hl).
    assert (Forall (λ c, Forall (honest log) (items c)) (delete j (batches s))) as Hhon
      by (apply Forall_forall; intros c Hin%elem_of_delete; by apply Hall).
    unfold settle. destruct (live b') eqn:Eb; [split; cbn; try done|split; cbn; try done].
    + intros _. rewrite <- (Hl b Hb Eb), <- Hcards. by apply entries_cover.
    + intros Hn. destruct (Hw Hn) as [[_ H]|(c & Hin & Hon)]; [by rewrite H in Ej|].
      right. exists c. split; [|done]. apply (elem_delete_other _ _ _ Ej); [done|]. intros ->. cbn in Eb. congruence.
  - split; cbn; try done.
    + apply Forall_forall. intros c [->|Hin]%(elem_insert _ _ _ Ej); [done|by apply Hall].
    + intros c [->|Hin]%(elem_insert _ _ _ Ej) Hon; [|by apply Hl]. rewrite Hcards. by apply Hl.
    + intros Hn. destruct (Hw Hn) as [[_ H]|(c & Hin & Hon)]; [by rewrite H in Ej|]. right.
      destruct (live b) eqn:Eb.
      * exists b'. split; [|done]. eapply list_elem_of_lookup_2, list_lookup_insert_eq. by eapply lookup_lt_Some.
      * exists c. split; [|done]. apply (elem_insert_other _ _ _ Ej); [done|]. congruence.
Qed.

Lemma run_inv es : preview_inv (run es).
Proof.
  induction es as [|e es IH] using rev_ind.
  - split; [done|constructor|by intros b Hb%elem_of_nil|done|by left].
  - unfold run in *. rewrite foldl_app. destruct e as [cards|j i v]; [by apply effect_inv|by apply answer_inv].
Qed.

(** C20: Whatever the answers come in, and however often the cards change
    under way: when the prices count as loaded, each is one that the server
    gave for the key of a card with its label that is on the page now, and a
    card has none only if an answer for its key was none; answers for cards
    that were replaced are never shown; and while they do not count as loaded,
    once there were cards, requests for the cards of the page are under way. *)
Theorem preview_spec es :
  let s := run es in
  (ready s = true →
     (∀ l p, obj_get l (prices s) = Some p → ∃ k, (l, k) ∈ current s ∧ (k, Some p) ∈ answered s) ∧
     (∀ l k, (l, k) ∈ current s → (∃ p, obj_get l (prices s) = Some p) ∨ (k, None) ∈ answered s)) ∧
  (ready s = false → current s ≠ [] → ∃ b, b ∈ batches s ∧ live b = true ∧ map card_of (items b) = current s).
Proof.
  intros s. pose proof (run_inv es) as [Hc Hh Hl Hr Hw]. split; [exact Hr|].
  intros Hn Hne. destruct (Hw Hn) as [[H _]|(b & Hb & Hon)]; [done|]. exists b. split_and!; [done..|by apply Hl].
Qed.

(** The cards of the presets do not ask whether the prices are loaded: those
    of the last method stay until the new ones are there. *)
Example old_prices_stay :
  let es := [Page.InfoArrives (Page.sample_raw 5); Page.SelectPreset 3] in
  let before := preset_cards (Page.run es) in
  let after := preset_cards (Page.run (es ++ [Page.SelectMethod 1])) in
  let s := run (Cards before ::
    imap (λ i _, Answer 0 i (Some (num_of_Z (7 * (Z.of_nat i + 1))))) before ++ [Cards after]) in
  before ≠ after ∧ map fst before = map fst after ∧
  (obj_get (js "30") (prices s), ready s) = (Some (num_of_Z 28), false).
Proof. vm_compute. by split_and!. Qed.

Example overtaken :
  let s := run [Cards [(js "card", js "card:10")]; Cards [(js "card", js "card:20")];
    Answer 0 0 (Some (num_of_Z 20)); Answer 0 0 (Some (num_of_Z 10))] in
  obj_get (js "card") (prices s) = Some (num_of_Z 20).
Proof. vm_compute. reflexivity. Qed.

End Preview.
