(* ===== verification/SecureVerification.v ===== *)
(** * Verification before sensitive actions

    [features/auth/secure-verification]: Module [Verify] is one verification,
    by a code or by a passkey ([api.ts], [lib/secure-verification.ts]); Module
    [Flow] the hook that asks for it, with its dialog
    ([hooks/use-secure-verification.ts],
    [components/secure-verification-dialog.tsx]): an action is tried, refused
    by the server, verified and called again with the proof.

    An answer is the JSON value of its body or the text of the error it ends
    with.  The actions are of any type.  The texts of the dialog are left out,
    and so is the narrowing of the methods by the passkey card. *)
From S2P Require Import Prelude JSString JSNumber JSON Base64.
Local Open Scope Z_scope.

Module Verify.
Import Passkey.

Inductive VerificationMethod := TwoFA | ByPasskey.
Global Instance method_dec : EqDecision VerificationMethod.
Proof. solve_decision. Defined.

Record VerificationMethods := mkMethods { has2FA : bool; hasPasskey : bool; passkeySupported : bool }.

Definition defaultMethods : VerificationMethods := mkMethods false false false.

(** [x?.k] and its truth *)
Definition prop (v : option json) (k : string) : option json := v ≫= λ v, json_prop v (js k).
Definition truthy (v : option json) : bool := match v with Some v => json_truthy v | None => false end.

(** The three answers; one that fails counts as no method at all. *)
Definition checkVerificationMethods (answers : option (option json * option json * bool)) : VerificationMethods :=
  match answers with
  | Some (twoFAResponse, passkeyResponse, supported) =>
      let enabled r := truthy (prop r "success") && truthy (prop (prop r "data") "enabled") in
      mkMethods (enabled twoFAResponse) (enabled passkeyResponse) supported
  | None => defaultMethods
  end.

(** ** [api.ts] *)

(** What a request ends with: its body, or the message of an error. *)
Definition Reply : Type := json + jsstr.
(** A proof, or the message of an error. *)
Definition Outcome : Type := jsstr + jsstr.

Definition message_or (r : json) (text : string) : jsstr :=
  match json_prop r (js "message") with Some (JStr ((_ :: _) as m)) => m | _ => js text end.

Definition success (r : json) : bool := truthy (json_prop r (js "success")).

(** [data.proof] *)
Definition proof_of (r : json) (missing : string) : Outcome :=
  match prop (json_prop r (js "data")) "proof" with
  | Some (JStr ((_ :: _) as proof)) => inl proof
  | _ => inr (js missing)
  end.

(** [send] is [POST /api/verify], of the trimmed code and the scope. *)
Definition verifyTwoFA (send : jsstr → jsstr → Reply) (scope : jsstr) (code : option jsstr) : Outcome :=
  let trimmed := trim (opt_or code []) in
  if negb (nonempty trimmed) then inr (js "Please enter the verification code or backup code") else
  match send trimmed scope with
  | inr message => inr message
  | inl r =>
      if negb (success r) then inr (message_or r "Verification failed")
      else proof_of r "Verification proof was not returned"
  end.

(** What [navigator.credentials.get] ends with. *)
Inductive Asked :=
  | Got (credential : option (Credential Assertion))
  | NotAllowedError
  | InvalidStateError
  | OtherError (message : jsstr).

(** [prepare_failed] and [build_failed] are the messages of the errors of
    [lib/passkey.ts]. *)
Definition verifyPasskey (supported : bool) (begin : jsstr → Reply) (get : obj cred → Asked) (finish : json → json → Reply)
    (prepare_failed build_failed : jsstr) (scope : jsstr) : Outcome :=
  if negb supported then inr (js "Passkey verification is not supported in this environment") else
  match begin scope with
  | inr message => inr message
  | inl beginResponse =>
      if negb (success beginResponse) then inr (message_or beginResponse "Failed to start verification") else
      let data := json_prop beginResponse (js "data") in
      match prepareCredentialRequestOptions (or_else (prop data "options") data) with
      | None => inr prepare_failed
      | Some publicKey =>
          match get publicKey with
          | NotAllowedError => inr (js "Passkey verification was cancelled or timed out")
          | InvalidStateError => inr (js "Passkey verification is not available in the current state")
          | OtherError message => inr message
          | Got None => inr (js "Passkey verification was cancelled")
          | Got (Some credential) =>
              match buildAssertionResult (Some credential) with
              | None => inr build_failed
              | Some assertion =>
                  match prop data "flow_token" with
                  | Some flowToken =>
                      if negb (json_truthy flowToken) then inr (js "Passkey verification flow was not returned") else
                      match finish assertion flowToken with
                      | inr message => inr message
                      | inl finishResponse =>
                          if negb (success finishResponse)
                          then inr (message_or finishResponse "Passkey verification failed")
                          else proof_of finishResponse "Passkey verification proof was not returned"
                      end
                  | None => inr (js "Passkey verification flow was not returned")
                  end
              end
          end
      end
  end.

(** ** [lib/secure-verification.ts] *)

(** An error of a request: its status and body, if it has an answer at all. *)
Definition HttpError : Type := option (Z * json).

Definition verificationCodes : list jsstr :=
  map js ["SECURITY_PROOF_REQUIRED"; "SECURITY_PROOF_EXPIRED"; "SECURITY_PROOF_INVALID";
    "SECURITY_PROOF_SCOPE_MISMATCH"; "SECURITY_PROOF_METHOD_MISMATCH"]%string.

Definition isVerificationRequiredError (error : HttpError) : bool :=
  match error with
  | Some (status, data) =>
      (status =? 403) &&
      match json_prop data (js "code") with Some (JStr code) => bool_decide (code ∈ verificationCodes) | _ => false end
  | None => false
  end.

(** The scope that the server asks for. *)
Definition required_scope (error : HttpError) : option jsstr :=
  match error with
  | Some (_, data) => match json_prop data (js "scope") with Some (JStr scope) => Some scope | _ => None end
  | None => None
  end.

(** *** A proof comes from the server *)

Lemma proof_of_inl r missing p : proof_of r missing = inl p →
  p ≠ [] ∧ prop (json_prop r (js "data")) "proof" = Some (JStr p).
Proof.
  unfold proof_of. destruct (prop _ _) as [[| | |[|c s]| |]|]; try done. by intros [= <-].
Qed.

Lemma two_factor_proof send scope code p : verifyTwoFA send scope code = inl p →
  p ≠ [] ∧ trim (opt_or code []) ≠ [] ∧ ∃ r, send (trim (opt_or code [])) scope = inl r ∧ success r = true ∧
    prop (json_prop r (js "data")) "proof" = Some (JStr p).
Proof.
  unfold verifyTwoFA. destruct (trim (opt_or code [])) as [|c s] eqn:E; [done|]. cbn [nonempty negb].
  destruct (send _ _) as [r|] eqn:Er; [|done]. destruct (success r) eqn:Es; [|done]. cbn [negb].
  intros [Hp Hr]%proof_of_inl. split_and!; [done..|]. by exists r.
Qed.

Lemma passkey_proof supported begin get finish m1 m2 scope p :
  verifyPasskey supported begin get finish m1 m2 scope = inl p →
  p ≠ [] ∧ ∃ b publicKey credential assertion token r,
    begin scope = inl b ∧ success b = true ∧
    prepareCredentialRequestOptions (or_else (prop (json_prop b (js "data")) "options") (json_prop b (js "data"))) = Some publicKey ∧
    get publicKey = Got (Some credential) ∧ buildAssertionResult (Some credential) = Some assertion ∧
    prop (json_prop b (js "data")) "flow_token" = Some token ∧ finish assertion token = inl r ∧ success r = true ∧
    prop (json_prop r (js "data")) "proof" = Some (JStr p).
Proof.
  unfold verifyPasskey. destruct supported; [|done]. cbn [negb].
  destruct (begin scope) as [b|] eqn:Eb; [|done]. destruct (success b) eqn:Es; [|done]. cbn [negb].
  destruct (prepareCredentialRequestOptions _) as [publicKey|] eqn:Ep; [|done].
  destruct (get publicKey) as [[credential|]| | |] eqn:Eg; try done.
  destruct (buildAssertionResult _) as [assertion|] eqn:Ea; [|done].
  destruct (prop _ "flow_token") as [token|] eqn:Et; [|done]. destruct (json_truthy token); [|done]. cbn [negb].
  destruct (finish assertion token) as [r|] eqn:Ef; [|done]. destruct (success r) eqn:Er; [|done]. cbn [negb].
  intros [Hp Hr]%proof_of_inl. split; [done|]. by exists b, publicKey, credential, assertion, token, r.
Qed.

End Verify.

Module Flow.
Import Verify.

Section Flow.
(** The actions, and whether the hook resets itself after a success. *)
Context {A : Type} (autoReset : bool).

(** ** State *)

Record Config := mkConfig { preferredMethod : option VerificationMethod; c_scope : option jsstr }.

Record InternalState := mkInternal {
  method : option VerificationMethod;
  loading : bool;
  code : jsstr;
  scope : option jsstr;
  apiCall : option A }.

Definition initialState : InternalState := mkInternal None false [] None None.

(** A verification under way: what it was started with, and its proof once it
    is there and the action is being called. *)
Record Exec := mkExec {
  x_method : VerificationMethod;
  x_scope : jsstr;
  x_code : jsstr;
  x_call : A;
  x_proof : option jsstr }.

(** [trying] and [starting] are the actions whose first call, and whose check
    of the methods, have no answer yet; [calls] are all calls of actions, with
    the proof they had.  [opened] and [proved], which the code does not keep,
    are the actions the dialog was opened for, with their scopes, and the
    verifications that gave a proof. *)
Record State := mkState {
  methods : VerificationMethods;
  st : InternalState;
  open : bool;
  trying : list (A * Config);
  starting : list (A * Config);
  execs : list Exec;
  calls : list (A * option jsstr);
  opened : list (A * option jsstr);
  proved : list Exec }.

Definition init : State := mkState defaultMethods initialState false [] [] [] [] [] [].

Definition with_st (s : State) (m : VerificationMethods) (i : InternalState) (o : bool) : State :=
  mkState m i o (trying s) (starting s) (execs s) (calls s) (opened s) (proved s).
Definition with_waiting (s : State) (trying starting : list (A * Config)) : State :=
  mkState (methods s) (st s) (open s) trying starting (execs s) (calls s) (opened s) (proved s).
Definition with_execs (s : State) (i : InternalState) (o : bool) (execs : list Exec) : State :=
  mkState (methods s) i o (trying s) (starting s) execs (calls s) (opened s) (proved s).

Definition reset (s : State) : State := with_st s (methods s) initialState false.

Definition set_loading (i : InternalState) (b : bool) : InternalState :=
  mkInternal (method i) b (code i) (scope i) (apiCall i).

(** ** [startVerification], [withVerification] *)

Definition usable (m : VerificationMethods) (method : VerificationMethod) : bool :=
  match method with TwoFA => has2FA m | ByPasskey => hasPasskey m && passkeySupported m end.

Definition default_method (m : VerificationMethods) (preferred : option VerificationMethod) : option VerificationMethod :=
  match preferred with
  | Some method => Some method
  | None => if usable m ByPasskey then Some ByPasskey else if has2FA m then Some TwoFA else None
  end.

(** [startVerification], once the methods are there. *)
Definition started (s : State) (a : A) (config : Config) (m : VerificationMethods) : State :=
  if negb (has2FA m) && negb (hasPasskey m) then with_st s m (st s) (open s) else
  let i := st s in
  mkState m (mkInternal (default_method m (preferredMethod config)) (loading i) (code i) (c_scope config) (Some a)) true
    (trying s) (starting s) (execs s) (calls s) ((a, c_scope config) :: opened s) (proved s).

(** [config.scope || info.scope || ''] *)
Definition asked_scope (config : Config) (error : HttpError) : jsstr :=
  match c_scope config with
  | Some ((_ :: _) as scope) => scope
  | _ => opt_or (required_scope error) []
  end.

(** ** The dialog *)

Definition availableTabs (m : VerificationMethods) : list VerificationMethod :=
  (if has2FA m then [TwoFA] else []) ++ (if usable m ByPasskey then [ByPasskey] else []).

Definition activeMethod (s : State) : option VerificationMethod :=
  match method (st s) with Some m => Some m | None => head (availableTabs (methods s)) end.

Definition verifyDisabled (s : State) : bool :=
  loading (st s) ||
  (bool_decide (activeMethod s = Some TwoFA) && (negb (nonempty (trim (code (st s)))) || (length (code (st s)) <? 6)%nat)).

Definition can_verify (s : State) : bool :=
  open s && negb (bool_decide (availableTabs (methods s) = [])) && negb (verifyDisabled s).

(** [executeVerification] up to its first request. *)
Definition executeVerification (s : State) (actualMethod : VerificationMethod) : State :=
  match apiCall (st s) with
  | None => s
  | Some a =>
      match scope (st s) with
      | Some ((_ :: _) as scope) =>
          with_execs s (set_loading (st s) true) (open s)
            (execs s ++ [mkExec actualMethod scope (trim (code (st s))) a None])
      | _ => with_st s (methods s) (set_loading (st s) false) (open s)
      end
  end.

Definition handleVerify (s : State) : State :=
  match activeMethod s with Some m => executeVerification s m | None => s end.

Inductive Event :=
  | Fetched (m : VerificationMethods)
  | WithVerification (a : A) (config : Config)
  | Tried (i : nat) (error : option HttpError)
  | StartVerification (a : A) (config : Config)
  | Checked (i : nat) (m : VerificationMethods)
  | SetCode (c : jsstr)
  | SwitchMethod (m : VerificationMethod)
  | CancelButton
  | Cancel
  | Close
  | VerifyClicked
  | Verified (i : nat) (outcome : Outcome)
  | Called (i : nat) (success : bool).

(** [Cancel] is the key of escape or a click outside, for the channel drawer,
    which resets; [Close] the same for the passkey card, which only closes. *)
Definition step (s : State) (e : Event) : State :=
  match e with
  | Fetched m => with_st s m (st s) (open s)
  | WithVerification a config =>
      mkState (methods s) (st s) (open s) (trying s ++ [(a, config)]) (starting s) (execs s)
        (calls s ++ [(a, None)]) (opened s) (proved s)
  | Tried i error =>
      match trying s !! i with
      | Some (a, config) =>
          let rest := delete i (trying s) in
          match error with
          | Some error =>
              if isVerificationRequiredError error
              then with_waiting s rest (starting s ++ [(a, mkConfig (preferredMethod config) (Some (asked_scope config error)))])
              else with_waiting s rest (starting s)
          | None => with_waiting s rest (starting s)
          end
      | None => s
      end
  | StartVerification a config => with_waiting s (trying s) (starting s ++ [(a, config)])
  | Checked i m =>
      match starting s !! i with
      | Some (a, config) => started (with_waiting s (trying s) (delete i (starting s))) a config m
      | None => s
      end
  | SetCode c =>
      if open s && negb (loading (st s))
      then with_st s (methods s) (mkInternal (method (st s)) (loading (st s)) c (scope (st s)) (apiCall (st s))) (open s)
      else s
  | SwitchMethod m =>
      if open s && bool_decide (m ∈ availableTabs (methods s))
      then with_st s (methods s) (mkInternal (Some m) (loading (st s)) [] (scope (st s)) (apiCall (st s))) (open s)
      else s
  | CancelButton => if open s && negb (loading (st s)) then reset s else s
  | Cancel => if open s then reset s else s
  | Close => with_st s (methods s) (st s) false
  | VerifyClicked => if can_verify s then handleVerify s else s
  | Verified i outcome =>
      match execs s !! i with
      | Some x =>
          match x_proof x, outcome with
          | Some _, _ => s
          | None, inl proof =>
              let x' := mkExec (x_method x) (x_scope x) (x_code x) (x_call x) (Some proof) in
              mkState (methods s) (st s) (open s) (trying s) (starting s) (<[i := x']> (execs s))
                (calls s ++ [(x_call x, Some proof)]) (opened s) (proved s ++ [x'])
          | None, inr _ => with_execs s (set_loading (st s) false) (open s) (delete i (execs s))
          end
      | None => s
      end
  | Called i success =>
      match execs s !! i with
      | Some x =>
          match x_proof x with
          | None => s
          | Some _ =>
              if success && autoReset then with_execs s initialState false (delete i (execs s))
              else with_execs s (set_loading (st s) false) (open s) (delete i (execs s))
          end
      | None => s
      end
  end.

Definition run (es : list Event) : State := foldl step init es.

(** ** What the proofs are for *)

(** The calls that had a proof, in order. *)
Definition proof_calls (s : State) : list (A * jsstr) :=
  omap (λ c, pair c.1 <$> c.2) (calls s).

Definition exec_ok (s : State) (x : Exec) : Prop :=
  x_scope x ≠ [] ∧ (x_call x, Some (x_scope x)) ∈ opened s.

Record flow_inv (s : State) : Prop := {
  inv_st : ∀ a, apiCall (st s) = Some a → (a, scope (st s)) ∈ opened s;
  inv_execs : Forall (exec_ok s) (execs s);
  inv_proved : Forall (exec_ok s) (proved s);
  inv_calls : proof_calls s = omap (λ x, pair (x_call x) <$> x_proof x) (proved s);
}.

(** What leaves alone the calls and proofs keeps the invariant. *)
Lemma flow_same s s' :
  opened s' = opened s → proved s' = proved s → calls s' = calls s → (∀ x, x ∈ execs s' → x ∈ execs s) →
  (apiCall (st s') = None ∨ apiCall (st s') = apiCall (st s) ∧ scope (st s') = scope (st s)) →
  flow_inv s → flow_inv s'.
Proof.
  intros Ho Hp Hc Hx Hst [H1 H2 H3 H4]. split.
  - intros a Ha. rewrite Ho. destruct Hst as [H|[Hs1 Hs2]]; [congruence|]. rewrite Hs2. apply H1. congruence.
  - apply Forall_forall. intros x Hin. unfold exec_ok. rewrite Ho. exact (proj1 (Forall_forall _ _) H2 _ (Hx _ Hin)).
  - rewrite Hp. unfold exec_ok. by rewrite Ho.
  - unfold proof_calls in *. by rewrite Hc, Hp.
Qed.

Lemma started_inv s a config m : flow_inv s → flow_inv (started s a config m).
Proof.
  intros H. unfold started. destruct (negb (has2FA m) && negb (hasPasskey m)).
  - apply (flow_same s); try done. by right.
  - destruct H as [H1 H2 H3 H4]. split; cbn.
    + intros b [= <-]. by left.
    + eapply Forall_impl; [exact H2|]. intros x [Hs Hx]. split; [done|]. cbn. by right.
    + eapply Forall_impl; [exact H3|]. intros x [Hs Hx]. split; [done|]. cbn. by right.
    + done.
Qed.

Lemma execute_inv s m : flow_inv s → flow_inv (executeVerification s m).
Proof.
  intros H. unfold executeVerification. destruct (apiCall (st s)) as [a|] eqn:Ea; [|done].
  assert (flow_inv (with_st s (methods s) (set_loading (st s) false) (open s))) as Hoff
    by (apply (flow_same s); try done; by right).
  destruct (scope (st s)) as [[|c sc]|] eqn:Es; [exact Hoff| |exact Hoff].
  destruct H as [H1 H2 H3 H4]. split; cbn; [done| |done|done].
  apply Forall_app. split; [done|]. apply Forall_singleton. split; [done|]. cbn. rewrite <- Es. by apply H1.
Qed.

Lemma verified_inv s i x proof : execs s !! i = Some x → flow_inv s →
  let x' := mkExec (x_method x) (x_scope x) (x_code x) (x_call x) (Some proof) in
  flow_inv (mkState (methods s) (st s) (open s) (trying s) (starting s) (<[i := x']> (execs s))
    (calls s ++ [(x_call x, Some proof)]) (opened s) (proved s ++ [x'])).
Proof.
  intros Hi [H1 H2 H3 H4] x'. pose proof (proj1 (Forall_lookup _ _) H2 _ _ Hi) as [Hs Ho].
  assert (exec_ok s x') as Hx' by by split. split; cbn; [done| | |].
  - by apply Forall_insert.
  - by apply Forall_app_2; [|apply Forall_singleton].
  - unfold proof_calls in *. cbn [calls]. rewrite !omap_app, H4. done.
Qed.

Lemma step_inv s e : flow_inv s → flow_inv (step s e).
Proof.
  intros H. assert (∀ x, x ∈ execs s → x ∈ execs s) as Hid by done.
  destruct e as [m|a config|i error|a config|i m|c|m| | | | |i outcome|i success]; cbn [step].
  - apply (flow_same s); try done. by right.
  - destruct H as [H1 H2 H3 H4]. split; cbn; [done..|]. unfold proof_calls in *. cbn [calls].
    rewrite omap_app. simpl. by rewrite app_nil_r.
  - destruct (trying s !! i) as [[a config]|]; [|done].
    repeat case_match; apply (flow_same s); try done; by right.
  - apply (flow_same s); try done. by right.
  - destruct (starting s !! i) as [[a config]|]; [|done]. apply started_inv, (flow_same s); try done. by right.
  - destruct (open s && _); [|done]. apply (flow_same s); try done. by right.
  - destruct (open s && _); [|done]. apply (flow_same s); try done. by right.
  - destruct (open s && _); [|done]. apply (flow_same s); try done. by left.
  - destruct (open s); [|done]. apply (flow_same s); try done. by left.
  - apply (flow_same s); try done. by right.
  - destruct (can_verify s); [|done]. unfold handleVerify. destruct (activeMethod s); [|done]. by apply execute_inv.
  - destruct (execs s !! i) as [x|] eqn:Ei; [|done]. destruct (x_proof x); [done|]. destruct outcome as [proof|].
    + by apply verified_inv.
    + apply (flow_same s); try done; [by intros x'; apply elem_of_delete|by right].
  - destruct (execs s !! i) as [x|]; [|done]. destruct (x_proof x); [|done].
    destruct (success && autoReset); apply (flow_same s); try done;
      [by intros x'; apply elem_of_delete|by left|by intros x'; apply elem_of_delete|by right].
Qed.

(** C5: A proof is used for what it was given for, whatever is tried, started,
    cancelled and answered in between: the calls of actions with a proof are
    those of the verifications that gave one, each called once, in their
    order, with its own proof; and each was for the action, and for the scope
    that is not empty, that the dialog was opened for together. *)
Theorem proofs_bound es :
  let s := run es in
  proof_calls s = omap (λ x, pair (x_call x) <$> x_proof x) (proved s) ∧
  Forall (λ x, x_scope x ≠ [] ∧ (x_call x, Some (x_scope x)) ∈ opened s) (proved s).
Proof.
  intros s. assert (flow_inv s) as [_ _ H3 H4]; [|by split].
  subst s. unfold run. assert (flow_inv init) as H by (split; cbn; done || constructor).
  revert H. generalize init. induction es as [|e es IH]; intros s H; [done|]. apply IH. by apply step_inv.
Qed.

(** ** How a verification begins and ends *)

(** A method is chosen that the dialog offers, unless the caller prefers one
    that it does not. *)
Lemma default_offered m preferred :
  availableTabs m ≠ [] → (∀ p, preferred = Some p → usable m p = true) →
  ∃ d, default_method m preferred = Some d ∧ d ∈ availableTabs m.
Proof.
  intros Ht Hp. unfold availableTabs, default_method, usable in *. destruct m as [b1 b2 b3]. cbn in *.
  destruct preferred as [[]|]; [specialize (Hp _ eq_refl)|specialize (Hp _ eq_refl)|]; cbn in *;
    destruct b1, b2, b3; try done; eexists; (split; [reflexivity|set_solver]).
Qed.

(** The end of a call: after a success everything is forgotten; after a
    failure the dialog is as it was, to try again. *)
Lemma call_ends s i x proof ok : autoReset = true → execs s !! i = Some x → x_proof x = Some proof →
  let s' := step s (Called i ok) in
  if ok then st s' = initialState ∧ open s' = false
  else open s' = open s ∧ st s' = set_loading (st s) false.
Proof. intros Hr Hi Hp. cbn. rewrite Hi, Hp, Hr. by destruct ok. Qed.

End Flow.

(** ** Runs to try the definitions on *)

Definition key_config : Config := mkConfig (Some ByPasskey) (Some (js "channel.key.read")).

Definition refused : HttpError :=
  Some (403, JObj [(js "code", JStr (js "SECURITY_PROOF_REQUIRED"))]).

Example reveal_key :
  let s := run (A := jsstr) true [WithVerification (js "key") key_config; Tried 0 (Some refused);
    Checked 0 (mkMethods false true true); VerifyClicked; Verified 0 (inl (js "proof")); Called 0 true] in
  (calls s, open s, st s) = ([(js "key", None); (js "key", Some (js "proof"))], false, initialState).
Proof. vm_compute. reflexivity. Qed.

(** Cancelled while it is under way, a verification goes on: the action is
    called with the proof all the same. *)
Example cancelled_still_called :
  let s := run (A := jsstr) true [WithVerification (js "key") key_config; Tried 0 (Some refused);
    Checked 0 (mkMethods false true true); VerifyClicked; Cancel; Verified 0 (inl (js "proof"))] in
  (calls s, open s) = ([(js "key", None); (js "key", Some (js "proof"))], false).
Proof. vm_compute. reflexivity. Qed.

(** And its end closes the dialog of the action that was started after it. *)
Example other_dialog_closed :
  let es := [StartVerification (js "delete") (mkConfig None (Some (js "a"))); Checked 0 (mkMethods false true true); VerifyClicked;
    Cancel; StartVerification (js "key") key_config; Checked 0 (mkMethods false true true)] in
  (open (run (A := jsstr) true es), open (run (A := jsstr) true (es ++ [Verified 0 (inl (js "p")); Called 0 true]))) = (true, false).
Proof. vm_compute. reflexivity. Qed.

(** A preferred method that the user does not have is chosen: the dialog
    offers the other one, and its button starts the one that is not there. *)
Example preferred_unavailable :
  let s := run (A := jsstr) true [WithVerification (js "key") key_config; Tried 0 (Some refused);
    Checked 0 (mkMethods true false true); VerifyClicked] in
  (availableTabs (methods s), x_method <$> head (execs s)) = ([TwoFA], Some ByPasskey).
Proof. vm_compute. reflexivity. Qed.

(** Closed without a reset, the dialog opens again with the code of the last
    action in it. *)
Example code_kept :
  let m := mkMethods true false false in
  code (st (run (A := jsstr) true [StartVerification (js "a") (mkConfig None (Some (js "a"))); Checked 0 m; SetCode (js "123456");
    Close; StartVerification (js "b") (mkConfig None (Some (js "b"))); Checked 0 m])) = js "123456".
Proof. vm_compute. reflexivity. Qed.

End Flow.
