(* ===== verification/ModelDrawer.v ===== *)
(** * The drawer that edits a model

    [features/models/components/drawers/model-mutate-drawer.tsx], with the parts
    of [models/lib/model-utils.ts] and [system-settings/models/utils.ts] that
    it uses: the metadata of a model and its prices in one form.  A save sends
    the metadata first, then one option after another for the prices that
    changed, as [Pricing.ModelPricing] computes them.

    The answers of the two queries, the model and the options, arrive when they
    please, and each fills the form anew; what was answered for a model is kept
    and shown first the next time.  An event of the user between a click on the
    button and the first rendering of the save is left out, as are the texts of
    the notices and the list of vendors. *)
From S2P Require Import Prelude JSString JSNumber JSON JSONText ChannelModels Pricing RatioEditor.
Local Open Scope Z_scope.

Module ModelDrawer.
Import JsonParser ModelPricing.

(** ** Texts *)

Definition normalizeJsonString (value : jsstr) : jsstr :=
  let trimmed := trim value in
  if negb (nonempty trimmed) then [] else
  match JSON_parse trimmed with Some parsed => JSON_stringify parsed | None => trimmed end.

Definition parseModelTags (tags : option jsstr) : list jsstr :=
  match tags with Some ((_ :: _) as tags) => split_trim COMMA tags | _ => [] end.

Definition validateNumber (value : jsstr) : bool :=
  if negb (nonempty value) then true else negb (num_is_nan (parseFloat value)).

Definition ENDPOINT_TEMPLATES : obj json :=
  map (λ t, (js t.1, JObj [(js "path", JStr (js t.2)); (js "method", JStr (js "POST"))]))
    [("openai", "/v1/chat/completions"); ("openai-response", "/v1/responses"); ("anthropic", "/v1/messages");
     ("gemini", "/v1beta/models/{model}:generateContent"); ("jina-rerank", "/rerank");
     ("image-generation", "/v1/images/generations"); ("embeddings", "/v1/embeddings")]%string.

(** ** Data *)

(** A model as the server answers it; what it leaves out is [None]. *)
Record Model := mkModel {
  model_id : Z;
  model_name : jsstr;
  description : option jsstr;
  icon : option jsstr;
  tags : option jsstr;
  vendor_id : option Z;
  endpoints : option jsstr;
  status : Z;
  sync_official : Z;
  name_rule : Z;
}.

(** The fields of the form, but those of the prices. *)
Record Basics := mkBasics {
  b_model_name : jsstr;
  b_description : jsstr;
  b_icon : jsstr;
  b_tags : list jsstr;
  b_vendor_id : option Z;
  b_endpoints : jsstr;
  b_name_rule : Z;
  b_status : bool;
  b_sync_official : bool;
}.

(** What a save sends of the form. *)
Record Payload := mkPayload {
  p_id : option Z;
  p_model_name : jsstr;
  p_description : jsstr;
  p_icon : jsstr;
  p_tags : jsstr;
  p_vendor_id : option Z;
  p_endpoints : jsstr;
  p_name_rule : Z;
  p_status : Z;
  p_sync_official : Z;
}.

(** The fields that [form.reset] is given for a model. *)
Definition basics_of (model : Model) : Basics :=
  mkBasics (model_name model) (opt_or (description model) []) (opt_or (icon model) [])
    (parseModelTags (tags model)) (vendor_id model) (opt_or (endpoints model) [])
    (name_rule model) (status model =? 1) (sync_official model =? 1).

(** The fields of a new model. *)
Definition blank_basics (name : jsstr) : Basics := mkBasics name [] [] [] None [] 0 true true.

(** [submitData] without the prices. *)
Definition payload_of (id : option Z) (b : Basics) : Payload :=
  mkPayload id (b_model_name b) (b_description b) (b_icon b) (join [COMMA] (b_tags b)) (b_vendor_id b)
    (b_endpoints b) (b_name_rule b) (if b_status b then 1 else 0) (if b_sync_official b then 1 else 0).

(** ** Prices to send *)

Definition Update : Type := ModelPricingOptionKey * jsstr.

(** [Object.keys] of a map that is [null] throws. *)
Definition map_unchanged (left : obj json) (right : json) : option bool :=
  match right with JNull => None | _ => Some (modelPricingMapEquals left (spread right)) end.

(** One turn of the loop over the keys. *)
Definition key_update (settings : ModelPricingSettings) (maps : Maps) (key : ModelPricingOptionKey)
    : option (list Update) :=
  unchanged ← map_unchanged (maps key) (parseModelPricingMaps settings key);
  Some (if (unchanged : bool) then [] else
    let value := normalizeJsonString (JSON_stringify (JObj (maps key))) in
    if bool_decide (value = normalizeJsonString (settings key)) then [] else [(key, value)]).

(** The options that a save sends after the model. *)
Definition pricing_updates (settings : ModelPricingSettings) (mutation : ModelPricingMutation)
    : option (list Update) :=
  let maps := mutateModelPricingMaps (parseModelPricingMaps settings) mutation in
  @concat Update <$> mapM (key_update settings maps) MODEL_PRICING_OPTION_KEYS.

(** The options once the server took an update. *)
Definition apply_update (settings : ModelPricingSettings) (u : Update) : ModelPricingSettings :=
  λ key, if decide (key = u.1) then u.2 else settings key.

(** ** The drawer *)

Inductive PricingSubMode := SubRatio | SubPrice.
#[global] Instance PricingSubMode_eq_dec : EqDecision PricingSubMode.
Proof. solve_decision. Defined.

(** The form and the states next to it. *)
Record Panel := mkPanel {
  basics : Basics;
  prices : PricingFields;
  panel_mode : PricingMode;
  pricingSubMode : PricingSubMode;
  panel_promptPrice : jsstr;
  panel_completionPrice : jsstr;
  panel_advancedOpen : bool;
  panel_oldModelName : jsstr;
  panel_loadedPricingName : jsstr;
  pricingManagedExternally : bool;
}.

(** The row that was clicked: the id is missing where a model is to be made. *)
Record Row := mkRow { row_id : option Z; row_name : jsstr }.

(** The request that a save waits for. *)
Inductive Stage :=
  | SavingModel
  | SavingOption (rest : list Update).

(** A save under way, with what its closure holds. *)
Record Saving := mkSaving {
  saved_panel : Panel;
  saved_id : option Z;
  saved_settings : option ModelPricingSettings;
  stage : Stage;
}.

Inductive Request :=
  | SaveModel (p : Payload)
  | SaveOption (u : Update).

(** How a save ended: the notice, and whether the drawer was closed. *)
Inductive Notice := Saved | Failure.

Record State := mkState {
  isOpen : bool;
  currentRow : option Row;
  detail : gmap Z Model;
  modelSettings : option ModelPricingSettings;
  panel : Panel;
  saving : option Saving;
  sent : list Request;
  notices : list Notice;
}.

(** [currentRow.id] if it is an id. *)
Definition editing_id (row : option Row) : option Z :=
  match row with Some (mkRow (Some id) _) => if id =? 0 then None else Some id | _ => None end.

Definition is_editing (row : option Row) : bool := match editing_id row with Some _ => true | None => false end.

Definition set_panel (p : Panel) (s : State) : State :=
  mkState (isOpen s) (currentRow s) (detail s) (modelSettings s) p (saving s) (sent s) (notices s).

Definition filled (b : Basics) (old loaded : jsstr) (sub : PricingSubMode) (pricing : PricingConfig) : Panel :=
  mkPanel b (fields pricing) (mode pricing) sub (promptPrice pricing) (completionPrice pricing)
    (advancedOpen pricing) old loaded (managedExternally pricing).

(** The effect that fills the form; [None] is the error that [readPricingConfig]
    throws on a setting that is [null]. *)
Definition load (s : State) : option State :=
  if negb (isOpen s) then Some s else
  match editing_id (currentRow s) with
  | Some id =>
      match detail s !! id with
      | None => Some s
      | Some model =>
          let name := model_name model in
          pricing ← readPricingConfig (modelSettings s) name;
          Some (set_panel (filled (basics_of model) name name (pricingSubMode (panel s)) pricing) s)
      end
  | None =>
      let name := match currentRow s with Some row => row_name row | None => [] end in
      pricing ← readPricingConfig (modelSettings s) name;
      Some (set_panel (filled (blank_basics name) [] name SubRatio pricing) s)
  end.

(** ** Edits *)

Definition set_basics (b : Basics) (p : Panel) : Panel :=
  mkPanel b (prices p) (panel_mode p) (pricingSubMode p) (panel_promptPrice p) (panel_completionPrice p)
    (panel_advancedOpen p) (panel_oldModelName p) (panel_loadedPricingName p) (pricingManagedExternally p).

Definition set_endpoints (text : jsstr) (b : Basics) : Basics :=
  mkBasics (b_model_name b) (b_description b) (b_icon b) (b_tags b) (b_vendor_id b) text
    (b_name_rule b) (b_status b) (b_sync_official b).

(** The prices, as the texts of the ratios and the two prices next to them. *)
Definition set_prices (f : PricingFields) (prompt completion : jsstr) (p : Panel) : Panel :=
  mkPanel (basics p) f (panel_mode p) (pricingSubMode p) prompt completion
    (panel_advancedOpen p) (panel_oldModelName p) (panel_loadedPricingName p) (pricingManagedExternally p).

Definition set_modes (m : PricingMode) (sub : PricingSubMode) (advanced : bool) (p : Panel) : Panel :=
  mkPanel (basics p) (prices p) m sub (panel_promptPrice p) (panel_completionPrice p)
    advanced (panel_oldModelName p) (panel_loadedPricingName p) (pricingManagedExternally p).

(** [form.setValue] of one price. *)
Definition set_field (key : ModelPricingOptionKey) (text : jsstr) (f : PricingFields) : PricingFields :=
  let pick k old := if decide (key = k) then text else old in
  mkFields (pick ModelPrice (price f)) (pick ModelRatio (ratio f)) (pick CacheRatio (cacheRatio f))
    (pick CompletionRatio (completionRatio f)) (pick ImageRatio (imageRatio f))
    (pick AudioRatio (audioRatio f)) (pick AudioCompletionRatio (audioCompletionRatio f)).

Definition is_number (value : jsstr) : bool := nonempty value && negb (num_is_nan (parseFloat value)).

Definition two : num := num_of_Z 2.

Definition handlePromptPriceChange (value : jsstr) (p : Panel) : Panel :=
  let ratio := if is_number value then num_to_string (num_div (parseFloat value) two) else [] in
  set_prices (set_field ModelRatio ratio (prices p)) value (panel_completionPrice p) p.

Definition handleCompletionPriceChange (value : jsstr) (p : Panel) : Panel :=
  let prompt := panel_promptPrice p in
  let completionRatio :=
    if is_number value && is_number prompt && num_ltb num_zero (parseFloat prompt)
    then num_to_string (num_div (parseFloat value) (parseFloat prompt)) else [] in
  set_prices (set_field CompletionRatio completionRatio (prices p)) prompt value p.

(** [onChange] of the two ratios. *)
Definition changeRatio (value : jsstr) (p : Panel) : Panel :=
  if negb (validateNumber value) then p else
  set_prices (set_field ModelRatio value (prices p))
    (if nonempty value then num_to_string (num_mul (parseFloat value) two) else [])
    (panel_completionPrice p) p.

Definition changeCompletionRatio (value : jsstr) (p : Panel) : Panel :=
  if negb (validateNumber value) then p else
  let ratio := ratio (prices p) in
  set_prices (set_field CompletionRatio value (prices p)) (panel_promptPrice p)
    (if nonempty value && nonempty ratio
     then num_to_string (num_mul (num_mul (parseFloat ratio) two) (parseFloat value)) else []) p.

(** [onChange] of the other prices. *)
Definition changeField (key : ModelPricingOptionKey) (value : jsstr) (p : Panel) : Panel :=
  if negb (validateNumber value) then p else
  set_prices (set_field key value (prices p)) (panel_promptPrice p) (panel_completionPrice p) p.

Definition handleFillEndpointTemplate (templateKey : jsstr) (p : Panel) : Panel :=
  match obj_get templateKey ENDPOINT_TEMPLATES with
  | Some template =>
      set_basics (set_endpoints (JSON_stringify_2 (JObj [(templateKey, template)])) (basics p)) p
  | None => p
  end.

Inductive Edit :=
  | EditBasics (b : Basics)
  | FillTemplate (key : jsstr)
  | ChooseMode (m : PricingMode)
  | ChooseSubMode (m : PricingSubMode)
  | ToggleAdvanced
  | TypeField (key : ModelPricingOptionKey) (value : jsstr)
  | TypePromptPrice (value : jsstr)
  | TypeCompletionPrice (value : jsstr).

(** What the drawer renders: whether an edit can be made. *)
Definition offered (e : Edit) (p : Panel) : bool :=
  let token := bool_decide (panel_mode p = PerToken) in
  let ratios := bool_decide (pricingSubMode p = SubRatio) in
  match e with
  | EditBasics _ | FillTemplate _ => true
  | _ =>
    negb (pricingManagedExternally p) &&
    match e with
    | ChooseMode _ => true
    | ChooseSubMode _ | ToggleAdvanced => token
    | TypePromptPrice _ | TypeCompletionPrice _ => token && negb ratios
    | TypeField ModelPrice _ => negb token
    | TypeField (ModelRatio | CompletionRatio) _ => token && ratios
    | TypeField (CacheRatio | ImageRatio | AudioRatio | AudioCompletionRatio) _ => token && panel_advancedOpen p
    | _ => false
    end
  end.

Definition edit (e : Edit) (p : Panel) : Panel :=
  if negb (offered e p) then p else
  match e with
  | EditBasics b => set_basics b p
  | FillTemplate key => handleFillEndpointTemplate key p
  | ChooseMode m => set_modes m (pricingSubMode p) (panel_advancedOpen p) p
  | ChooseSubMode m => set_modes (panel_mode p) m (panel_advancedOpen p) p
  | ToggleAdvanced => set_modes (panel_mode p) (pricingSubMode p) (negb (panel_advancedOpen p)) p
  | TypeField ModelRatio value => changeRatio value p
  | TypeField CompletionRatio value => changeCompletionRatio value p
  | TypeField key value => changeField key value p
  | TypePromptPrice value => handlePromptPriceChange value p
  | TypeCompletionPrice value => handleCompletionPriceChange value p
  end.

(** ** A save *)

Inductive Answer := Success | Refused | Failed.

Definition set_saving (save : option Saving) (requests : list Request) (news : list Notice) (s : State) : State :=
  mkState (isOpen s) (currentRow s) (detail s) (modelSettings s) (panel s) save
    (sent s ++ requests) (notices s ++ news).

Definition close (s : State) : State :=
  mkState false (currentRow s) (detail s) (modelSettings s) (panel s) (saving s) (sent s) (notices s).

(** [handleSubmit]: the schema asks for a name only. *)
Definition submit (s : State) : State :=
  let id := editing_id (currentRow s) in
  let b := basics (panel s) in
  if negb (isOpen s) || (match saving s with Some _ => true | None => false end) || negb (nonempty (b_model_name b))
  then s else
  set_saving (Some (mkSaving (panel s) id (modelSettings s) SavingModel)) [SaveModel (payload_of id b)] [] s.

Definition mutation_of (id : option Z) (p : Panel) : ModelPricingMutation :=
  mkMutation (match id with Some _ => true | None => false end) (panel_oldModelName p)
    (b_model_name (basics p)) (panel_loadedPricingName p) (panel_mode p) (prices p).

(** The options that a save sends; [None] is an error of the loop. *)
Definition saved_updates (sv : Saving) : option (list Update) :=
  match saved_settings sv with
  | None => Some []
  | Some settings => pricing_updates settings (mutation_of (saved_id sv) (saved_panel sv))
  end.

Definition fail (s : State) : State := set_saving None [] [Failure] s.

(** The next option of the loop, or the end of the save. *)
Definition continue (sv : Saving) (rest : list Update) (s : State) : State :=
  match rest with
  | u :: rest =>
      set_saving (Some (mkSaving (saved_panel sv) (saved_id sv) (saved_settings sv) (SavingOption rest)))
        [SaveOption u] [] s
  | [] => close (set_saving None [] [Saved] s)
  end.

(** An answer to the request that a save waits for.  An option that is refused
    is no error of [mutateAsync]. *)
Definition answer (a : Answer) (s : State) : State :=
  match saving s with
  | None => s
  | Some sv =>
      match stage sv, a with
      | _, Failed => fail s
      | SavingModel, Refused => fail s
      | SavingModel, Success =>
          match saved_updates sv with Some updates => continue sv updates s | None => fail s end
      | SavingOption rest, _ => continue sv rest s
      end
  end.

(** ** Steps *)

Inductive Event :=
  | Open (row : option Row)
  | Close
  | ModelArrived (id : Z) (model : Model)
  | OptionsArrived (settings : ModelPricingSettings)
  | Edited (e : Edit)
  | Submit
  | Answered (a : Answer).

Definition set_props (o : bool) (row : option Row) (s : State) : State :=
  mkState o row (detail s) (modelSettings s) (panel s) (saving s) (sent s) (notices s).

Definition set_queries (d : gmap Z Model) (settings : option ModelPricingSettings) (s : State) : State :=
  mkState (isOpen s) (currentRow s) d settings (panel s) (saving s) (sent s) (notices s).

(** One event; where it changes what the effect depends on, the effect runs. *)
Definition step (s : State) (e : Event) : option State :=
  match e with
  | Open row => load (set_props true row s)
  | Close => load (set_props false (currentRow s) s)
  | ModelArrived id model =>
      let s' := set_queries (<[id := model]> (detail s)) (modelSettings s) s in
      if bool_decide (editing_id (currentRow s) = Some id) then load s' else Some s'
  | OptionsArrived settings => load (set_queries (detail s) (Some settings) s)
  | Edited e => if isOpen s then Some (set_panel (edit e (panel s)) s) else Some s
  | Submit => Some (submit s)
  | Answered a => Some (answer a s)
  end.

Definition run (s : State) (es : list Event) : option State :=
  foldl (λ s e, s ≫= λ s, step s e) (Some s) es.

Definition initial : State :=
  mkState false None ∅ None
    (mkPanel (blank_basics []) emptyPricingFields PerToken SubRatio [] [] false [] [] false)
    None [] [].

(** ** The texts of the options *)

Lemma object_normal o : json_wf (JObj o) → normalizeJsonString (JSON_stringify (JObj o)) = JSON_stringify (JObj o).
Proof. intros Hw. unfold normalizeJsonString. by rewrite object_trimmed, JSON_roundtrip by done. Qed.

Lemma object_reads o : json_wf (JObj o) → parseNumberMap (JSON_stringify (JObj o)) = JObj o.
Proof.
  intros Hw. unfold parseNumberMap, safeJsonParse, blank. cbn [opt_or]. rewrite object_trimmed.
  by rewrite JSON_roundtrip.
Qed.

(** A text that is normalised to that of an object is read as the object. *)
Lemma normal_object t m o :
  parseNumberMap t = JObj m → json_wf (JObj m) → json_wf (JObj o) →
  normalizeJsonString t = JSON_stringify (JObj o) → m = o.
Proof.
  unfold parseNumberMap, safeJsonParse, blank, normalizeJsonString. cbn [opt_or].
  intros Hp Hm Ho. destruct (nonempty (trim t)); cbn [negb] in *; [|by rewrite stringify_obj].
  destruct (JSON_parse (trim t)) as [v|] eqn:E; intros Hn.
  - subst v. apply (f_equal JSON_parse) in Hn. rewrite !JSON_roundtrip in Hn by done. congruence.
  - rewrite Hn, JSON_roundtrip in E by done. discriminate E.
Qed.

(** *** The maps after a mutation *)

(** Texts of a form whose numbers can be written. *)
Definition mutation_wf (mu : ModelPricingMutation) : Prop :=
  is_utf16 (finalModelName mu) ∧
  ∀ k, nonempty (field_of (pricingMode mu) (m_fields mu) k) = true →
    json_wf (JNum (parseFloat (field_of (pricingMode mu) (m_fields mu) k))).

Lemma for_keys_ind (P : obj json → Prop) keys f maps k :
  (∀ m, P m → P (f m)) → P (maps k) → P (for_keys keys f maps k).
Proof.
  intros Hf. unfold for_keys. revert maps. induction keys as [|key keys IH]; intros maps Hm; [done|].
  cbn [foldl]. apply IH. unfold update. case_decide; auto.
Qed.

Lemma write_fields_ind (P : obj json → Prop) final mode fields maps k :
  (∀ m, P m → P (setNumberIfPresent final (field_of mode fields k) m)) →
  P (maps k) → P (write_fields final mode fields maps k).
Proof.
  intros Hf Hm. unfold write_fields, update.
  destruct mode, k; cbn [field_of] in Hf; repeat (case_decide; try discriminate); try congruence; auto.
Qed.

Lemma moved_wf old final m : is_utf16 final → json_wf (JObj m) → json_wf (JObj (movePricingEntry old final m)).
Proof.
  intros Hu Hm. unfold movePricingEntry. destruct (obj_get old m) as [v|] eqn:E; [|done].
  apply wf_set; [done|by eapply wf_get|by apply wf_delete].
Qed.

Lemma mutated_wf maps mu k :
  json_wf (JObj (spread (maps k))) → mutation_wf mu → json_wf (JObj (mutateModelPricingMaps maps mu k)).
Proof.
  intros Hm [Hu Hf]. unfold mutateModelPricingMaps.
  set (loadedTiered := nonempty _ && bool_decide (obj_get _ (cloneModelPricingMaps maps BillingMode) = _)).
  set (isRename := isEditing mu && _ && _). pose proof (λ m, moved_wf (oldModelName mu) (finalModelName mu) m Hu) as Hmove.
  pose proof (λ n m, wf_delete n m) as Hdel.
  destruct (isRename && loadedTiered); [by apply (for_keys_ind (λ m, json_wf (JObj m)))|].
  set (m1 := if isRename then _ else _).
  assert (json_wf (JObj (m1 k))) as H1.
  { subst m1. destruct isRename; [|done]. by repeat apply (for_keys_ind (λ m, json_wf (JObj m))); auto. }
  clearbody m1. destruct loadedTiered; [done|].
  set (m2 := if _ || _ then for_keys _ _ _ else m1).
  assert (json_wf (JObj (m2 k))) as H2.
  { subst m2. destruct (_ || _); [|done]. apply (for_keys_ind (λ m, json_wf (JObj m))); auto. }
  clearbody m2. destruct (hasPricingConfig _ _); cbn [negb]; [|exact H2]. apply (write_fields_ind (λ m, json_wf (JObj m))); [|done].
  intros m Hw. unfold setNumberIfPresent. specialize (Hf k).
  destruct (field_of _ _ k); [done|]. apply wf_set; auto.
Qed.

(** *** What the loop over the keys sends *)

Abbreviation entry := RatioEditor.entry.
Abbreviation maps_of := RatioEditor.maps_of.

Lemma wf_NoDup o : json_wf (JObj o) → NoDup (obj_keys o).
Proof. intros Hw. by eapply JSON_parse_NoDup, JSON_roundtrip. Qed.

Lemma strict_eq_wf x y : json_wf x → json_wf y → strict_eq x y = true → x = y.
Proof.
  intros Hx Hy. destruct x, y; simpl; try done.
  - intros ?%Bool.eqb_prop. by subst.
  - intros H. f_equal. by apply num_eqb_wf.
  - intros ?%bool_decide_eq_true. by subst.
Qed.

Lemma unchanged_same left right :
  json_wf (JObj left) → json_wf (JObj right) → modelPricingMapEquals left right = true →
  ∀ n, obj_get n left = obj_get n right.
Proof.
  intros Hl Hr He n. pose proof (equals_sound left right (wf_NoDup _ Hl) (wf_NoDup _ Hr) He n) as H.
  destruct (obj_get n left) as [x|] eqn:Ex, (obj_get n right) as [y|] eqn:Ey; try done.
  f_equal. apply strict_eq_wf; [exact (wf_get _ _ _ Hl Ex)|exact (wf_get _ _ _ Hr Ey)|done].
Qed.

Lemma strict_eq_refl_wf v : json_wf v → (∀ l, v ≠ JArr l) → (∀ o, v ≠ JObj o) → strict_eq v v = true.
Proof.
  intros Hw Ha Ho. destruct v as [|b|n|t|l|o]; simpl; try done.
  - apply Bool.eqb_reflx.
  - by apply num_eqb_refl, wf_num_nonzero.
  - by apply bool_decide_eq_true.
  - by destruct (Ha l).
  - by destruct (Ho o).
Qed.

(** Maps of plain values with the same entries compare equal, in whatever order. *)
Definition plain (m : obj json) : Prop :=
  ∀ n v, obj_get n m = Some v → (∀ l, v ≠ JArr l) ∧ (∀ o, v ≠ JObj o).

Lemma same_unchanged left right :
  json_wf (JObj left) → json_wf (JObj right) → plain right → (∀ n, obj_get n left = obj_get n right) →
  modelPricingMapEquals left right = true.
Proof.
  intros Hl Hr Hp He. unfold modelPricingMapEquals.
  assert (∀ n, n ∈ obj_keys left ↔ n ∈ obj_keys right) as Hk.
  { intros n. rewrite <- !obj_has_true. unfold obj_has. by rewrite He. }
  assert (obj_keys left ≡ₚ obj_keys right) as Hperm by (apply NoDup_Permutation; [by apply wf_NoDup..|done]).
  rewrite (Permutation_length Hperm), Nat.eqb_refl. cbn [negb]. apply forallb_forall.
  intros n Hn%list_elem_of_In. apply Hk, obj_has_true in Hn. rewrite Hn, He. cbn [andb]. unfold obj_has in Hn.
  destruct (obj_get n right) as [v|] eqn:E; [|done]. destruct (Hp n v E).
  apply strict_eq_refl_wf; [exact (wf_get _ _ _ Hr E)|done..].
Qed.

Lemma plain_b m :
  forallb (λ kv, match kv.2 with JArr _ | JObj _ => false | _ => true end) m = true → plain m.
Proof.
  rewrite forallb_forall. intros H n v Hv%obj_get_Some_mem%list_elem_of_In. specialize (H _ Hv). by destruct v.
Qed.

Section Prices.
Context (settings : ModelPricingSettings) (current : Maps).
Context (Hmaps : maps_of settings = Some current) (Hwf : ∀ k, json_wf (JObj (current k))).

Lemma parsed_key k : parseModelPricingMaps settings k = JObj (current k).
Proof. unfold parseModelPricingMaps. by apply RatioEditor.maps_of_spec. Qed.

(** One key: nothing is sent and the entries are what they are, or the map is. *)
Lemma key_update_spec maps k :
  json_wf (JObj (maps k)) →
  ∃ us, key_update settings maps k = Some us ∧
    ((us = [] ∧ ∀ n, obj_get n (maps k) = obj_get n (current k)) ∨
     (us = [(k, JSON_stringify (JObj (maps k)))] ∧ modelPricingMapEquals (maps k) (current k) = false)).
Proof.
  intros Hm. unfold key_update, map_unchanged. rewrite parsed_key. cbn [mbind option_bind spread].
  eexists. split; [done|]. destruct (modelPricingMapEquals (maps k) (current k)) eqn:E.
  { left. split; [done|]. by apply unchanged_same. }
  rewrite object_normal by done. case_bool_decide as Ht; [left|by right]. split; [done|]. intros n.
  pose proof (parsed_key k) as Hp. unfold parseModelPricingMaps in Hp.
  by rewrite (normal_object _ _ _ Hp (Hwf k) Hm (eq_sym Ht)).
Qed.

Lemma apply_other us t k : k ∉ map fst us → foldl apply_update t us k = t k.
Proof.
  revert t. induction us as [|u us IH]; intros t Hk; [done|]. cbn [foldl map] in *.
  apply not_elem_of_cons in Hk as [Hne Hk]. rewrite IH by done. unfold apply_update. by rewrite decide_False.
Qed.

Definition sends (us : list Update) (maps : Maps) (k : ModelPricingOptionKey) : Prop :=
  (k ∉ map fst us ∧ ∀ n, obj_get n (maps k) = obj_get n (current k)) ∨
  (foldl apply_update settings us k = JSON_stringify (JObj (maps k)) ∧ modelPricingMapEquals (maps k) (current k) = false).

Lemma updates_spec maps keys :
  NoDup keys → (∀ k, json_wf (JObj (maps k))) →
  ∃ us, @concat Update <$> mapM (key_update settings maps) keys = Some us ∧
    (∀ k, k ∉ keys → k ∉ map fst us) ∧ ∀ k, k ∈ keys → sends us maps k.
Proof.
  intros Hnd Hm. unfold sends. generalize settings at 2 as t.
  induction Hnd as [|key keys Hk Hnd IH]; intros t; [exists []; by split_and!; [..|intros k ?%elem_of_nil]|].
  destruct (key_update_spec maps key (Hm key)) as (u & Hu & Hcase).
  destruct (IH (foldl apply_update t u)) as (us & Hus & Hout & Hin).
  exists (u ++ us). cbn [mapM]. rewrite Hu. cbn [mbind option_bind].
  destruct (mapM _ keys) as [uss|]; [|done]. injection Hus as <-. split; [done|].
  assert (∀ k, k ≠ key → k ∉ map fst u) as Hne by (destruct Hcase as [[-> _]|[-> _]]; set_solver).
  split; intros k; rewrite map_app.
  - rewrite not_elem_of_cons, not_elem_of_app. intros []. split; auto.
  - rewrite foldl_app, not_elem_of_app. intros [->|Hk']%elem_of_cons.
    + rewrite apply_other by auto. destruct Hcase as [[-> He]|[-> He]]; [left|right].
      { split_and!; [set_solver|auto|done]. }
      cbn. unfold apply_update. by rewrite decide_True.
    + destruct (Hin k Hk') as [[]|[]]; [left|right; done]. split; [|done].
      split; [|done]. apply Hne. by intros ->.
Qed.

(** After the updates the options hold what the mutation computed. *)
Lemma updates_entries mu :
  mutation_wf mu →
  ∃ us, pricing_updates settings mu = Some us ∧
    ∀ k n, entry (foldl apply_update settings us) k n = saved_value (parseModelPricingMaps settings) mu k n.
Proof.
  intros Hmu. unfold pricing_updates.
  assert (∀ k, json_wf (JObj (mutateModelPricingMaps (parseModelPricingMaps settings) mu k))) as Hw.
  { intros k. apply mutated_wf; [|done]. rewrite parsed_key. apply Hwf. }
  destruct (updates_spec _ _ (proj1 option_keys_NoDup) Hw) as (us & Hus & _ & Hin).
  exists us. split; [done|]. intros k n. rewrite <- mutated_entry.
  unfold entry, RatioEditor.entry. destruct (Hin k (all_keys_in k)) as [[Hk He]|[-> _]].
  - rewrite apply_other by done. rewrite He. fold (parseModelPricingMaps settings k). by rewrite parsed_key.
  - by rewrite object_reads.
Qed.

(** A mutation that changes no entry sends nothing. *)
Lemma unchanged_updates mu :
  mutation_wf mu → (∀ k, plain (current k)) →
  (∀ k n, saved_value (parseModelPricingMaps settings) mu k n = obj_get n (current k)) →
  pricing_updates settings mu = Some [].
Proof.
  intros Hmu Hp Hs. unfold pricing_updates.
  assert (∀ k, json_wf (JObj (mutateModelPricingMaps (parseModelPricingMaps settings) mu k))) as Hw.
  { intros k. apply mutated_wf; [|done]. rewrite parsed_key. apply Hwf. }
  set (maps := mutateModelPricingMaps _ _) in *.
  assert (∀ k, key_update settings maps k = Some []) as Hk.
  { intros k. destruct (key_update_spec maps k (Hw k)) as (us & -> & [[-> _]|[_ He]]); [done|].
    rewrite same_unchanged in He; [done|done|done|done|]. intros n. unfold maps. by rewrite mutated_entry. }
  induction MODEL_PRICING_OPTION_KEYS as [|k keys IH]; [done|]. cbn [mapM]. rewrite Hk. cbn [mbind option_bind].
  destruct (mapM _ keys) as [uss|]; [|done]. exact IH.
Qed.
End Prices.

(** ** A save, whatever else happens *)

(** What a list of answers makes of the options that are left: the requests, and
    the notice if the save ends. *)
Fixpoint options_sent (us : list Update) (answers : list Answer) : list Request * list Notice :=
  match us with
  | [] => ([], [Saved])
  | u :: us =>
      match answers with
      | [] => ([SaveOption u], [])
      | Failed :: _ => ([SaveOption u], [Failure])
      | _ :: answers => let '(requests, news) := options_sent us answers in (SaveOption u :: requests, news)
      end
  end.

(** The same for a whole save, of a payload and the options that follow. *)
Definition save_trace (p : Payload) (updates : option (list Update)) (answers : list Answer)
    : list Request * list Notice :=
  match answers, updates with
  | [], _ => ([SaveModel p], [])
  | Success :: answers, Some us => let '(requests, news) := options_sent us answers in (SaveModel p :: requests, news)
  | _, _ => ([SaveModel p], [Failure])
  end.

Definition answers_of (es : list Event) : list Answer :=
  omap (λ e, match e with Answered a => Some a | _ => None end) es.

Definition added (s : State) (t : list Request * list Notice) (s' : State) : Prop :=
  sent s' = sent s ++ t.1 ∧ notices s' = notices s ++ t.2.

Lemma added_nil s : added s ([], []) s.
Proof. split; by rewrite app_nil_r. Qed.

Lemma load_saving s s' : load s = Some s' → saving s' = saving s ∧ sent s' = sent s ∧ notices s' = notices s.
Proof.
  unfold load. destruct (negb (isOpen s)); [by intros [= <-]|].
  destruct (editing_id _); [destruct (detail s !! _); [|by intros [= <-]]|];
    (destruct (readPricingConfig _ _); [|done]); by intros [= <-].
Qed.

Lemma step_saving s e s' :
  step s e = Some s' → match e with Submit | Answered _ => False | _ => True end →
  saving s' = saving s ∧ sent s' = sent s ∧ notices s' = notices s.
Proof.
  destruct e; intros H Hne; try done; cbn [step] in H.
  - by apply load_saving in H.
  - by apply load_saving in H.
  - case_bool_decide; [by apply load_saving in H|by injection H as <-].
  - by apply load_saving in H.
  - destruct (isOpen s); by injection H as <-.
Qed.

Lemma drawer_run_cons s e es s' : run s (e :: es) = Some s' → ∃ s1, step s e = Some s1 ∧ run s1 es = Some s'.
Proof.
  unfold run. cbn [foldl mbind option_bind]. destruct (step s e) as [s1|]; [by eauto|].
  intros H. exfalso. induction es as [|e' es IH]; [done|]. by apply IH.
Qed.

Definition no_submit (es : list Event) : Prop := Forall (λ e, e ≠ Submit) es.

Lemma run_idle es s s' :
  no_submit es → run s es = Some s' → saving s = None → added s ([], []) s'.
Proof.
  intros Hes. revert s. induction Hes as [|e es He Hes IH]; intros s Hr Hs.
  { injection Hr as <-. apply added_nil. }
  apply drawer_run_cons in Hr as (s1 & H1 & Hr).
  assert (saving s1 = None ∧ sent s1 = sent s ∧ notices s1 = notices s) as (A & B & C).
  { destruct e; try done; try (apply step_saving in H1 as (-> & ? & ?); done).
    injection H1 as <-. unfold answer. by rewrite Hs. }
  destruct (IH s1 Hr A) as [D E]. rewrite B in D. rewrite C in E. by split.
Qed.

(** A save that waits for a stage, as the answers to come decide it. *)
Definition stage_trace (sv : Saving) (answers : list Answer) : list Request * list Notice :=
  match answers, stage sv with
  | [], _ => ([], [])
  | Failed :: _, _ => ([], [Failure])
  | Refused :: _, SavingModel => ([], [Failure])
  | Success :: answers, SavingModel =>
      match saved_updates sv with Some us => options_sent us answers | None => ([], [Failure]) end
  | _ :: answers, SavingOption rest => options_sent rest answers
  end.

Lemma added_fail s es s' : no_submit es → run (fail s) es = Some s' → added s ([], [Failure]) s'.
Proof.
  intros Hes Hr. destruct (run_idle es _ _ Hes Hr eq_refl) as [A B]. cbn [fst snd] in *.
  unfold fail, set_saving in A, B. cbn [sent notices] in A, B. rewrite !app_nil_r in A. rewrite app_nil_r in B.
  split; [by rewrite app_nil_r|done].
Qed.

Lemma run_saving es s s' sv :
  no_submit es → run s es = Some s' → saving s = Some sv → added s (stage_trace sv (answers_of es)) s'.
Proof.
  intros Hes. revert s sv. induction Hes as [|e es He Hes IH]; intros s sv Hr Hs.
  { injection Hr as <-. apply added_nil. }
  apply drawer_run_cons in Hr as (s1 & H1 & Hr).
  assert (∀ rest, run (continue sv rest s) es = Some s' → added s (options_sent rest (answers_of es)) s') as Hc.
  { intros rest Hr'. destruct rest as [|u rest]; cbn [continue options_sent] in *.
    - destruct (run_idle es _ _ Hes Hr' eq_refl) as [A B]. unfold close, set_saving in A, B.
      cbn [sent notices fst snd] in A, B. rewrite !app_nil_r in A. rewrite app_nil_r in B.
  split; [by rewrite app_nil_r|done].
    - destruct (IH _ _ Hr' eq_refl) as [A B]. unfold set_saving, stage_trace in A, B.
      cbn [sent notices stage] in A, B. rewrite app_nil_r in B. rewrite <- app_assoc in A.
      split; rewrite ?A, ?B; destruct (answers_of es) as [|[] as_]; try done; by destruct (options_sent rest _). }
  destruct e as [row| |id model|settings|ed| |a]; try done;
    try (apply step_saving in H1 as (A & B & C); [|done]; rewrite <- A in Hs; destruct (IH s1 sv Hr Hs) as [D E];
         split; [by rewrite <- B|by rewrite <- C]).
  cbn [step] in H1. injection H1 as <-. unfold answer in Hr. rewrite Hs in Hr.
  change (answers_of (Answered a :: es)) with (a :: answers_of es). unfold stage_trace.
  destruct (stage sv), a; try (by eapply added_fail); try (by apply Hc).
  destruct (saved_updates sv); [by apply Hc|by eapply added_fail].
Qed.

Lemma run_submit s es s' :
  isOpen s = true → saving s = None → nonempty (b_model_name (basics (panel s))) = true →
  no_submit es → run s (Submit :: es) = Some s' →
  let id := editing_id (currentRow s) in
  added s (save_trace (payload_of id (basics (panel s)))
    (saved_updates (mkSaving (panel s) id (modelSettings s) SavingModel)) (answers_of es)) s'.
Proof.
  intros Ho Hs Hn Hes Hr id. apply drawer_run_cons in Hr as (s1 & H1 & Hr). cbn [step] in H1.
  unfold submit in H1. rewrite Ho, Hs, Hn in H1. cbn [negb orb] in H1. injection H1 as <-.
  destruct (run_saving es _ _ _ Hes Hr eq_refl) as [A B]. unfold set_saving in A, B. cbn [sent notices] in A, B.
  rewrite app_nil_r in B. rewrite <- app_assoc in A.
  split; rewrite ?A, ?B; unfold stage_trace, save_trace; cbn [stage]; fold id;
    destruct (answers_of es) as [|[] as_]; try done; destruct (saved_updates _); try done; by destruct (options_sent _ _).
Qed.

(** The mutation that a save of the form computes. *)
Definition form_mutation (s : State) : ModelPricingMutation :=
  mutation_of (editing_id (currentRow s)) (panel s).

(** C7: a save sends what the form held when the button was pressed, whatever
    the user edits, opens or closes and whatever the queries answer meanwhile:
    the model, then, if the server took it, one option after another as long as
    none fails; the drawer reports a success when all of them were answered.
    Those options leave under every model and in every setting the value that
    the mutation of the prices computes. *)
Theorem drawer_save_spec s es s' settings current :
  isOpen s = true → saving s = None → nonempty (b_model_name (basics (panel s))) = true →
  modelSettings s = Some settings → maps_of settings = Some current → (∀ k, json_wf (JObj (current k))) →
  mutation_wf (form_mutation s) → no_submit es → run s (Submit :: es) = Some s' →
  ∃ us,
    (let trace := save_trace (payload_of (editing_id (currentRow s)) (basics (panel s))) (Some us) (answers_of es) in
     sent s' = sent s ++ trace.1 ∧ notices s' = notices s ++ trace.2) ∧
    ∀ k n, entry (foldl apply_update settings us) k n =
           saved_value (parseModelPricingMaps settings) (form_mutation s) k n.
Proof.
  intros Ho Hs Hn Hse Hmaps Hwf Hmu Hes Hr.
  destruct (updates_entries settings current Hmaps Hwf (form_mutation s) Hmu) as (us & Hus & He).
  exists us. split; [|done]. pose proof (run_submit s es s' Ho Hs Hn Hes Hr) as H.
  unfold saved_updates in H. cbn [saved_settings saved_id saved_panel] in H. rewrite Hse in H.
  fold (form_mutation s) in H. rewrite Hus in H. exact H.
Qed.

(** ** A model that is opened and saved *)

(** What the server answers for the fields it stores. *)
Record model_clean (model : Model) : Prop := {
  clean_name : model_name model ≠ [] ∧ is_utf16 (model_name model);
  clean_tags : ∃ l, opt_or (tags model) [] = join [COMMA] l ∧ Forall (λ w, trimmed w ∧ w ≠ [] ∧ COMMA ∉ w) l;
  clean_status : status model = 0 ∨ status model = 1;
  clean_sync : sync_official model = 0 ∨ sync_official model = 1;
}.

(** The fields of the server as a request. *)
Definition held (id : Z) (model : Model) : Payload :=
  mkPayload (Some id) (model_name model) (opt_or (description model) []) (opt_or (icon model) [])
    (opt_or (tags model) []) (vendor_id model) (opt_or (endpoints model) []) (name_rule model)
    (status model) (sync_official model).

Lemma payload_held id model : model_clean model → payload_of (Some id) (basics_of model) = held id model.
Proof.
  intros [_ (l & Ht & Hl) Hs Hy]. unfold payload_of, basics_of, held. cbn.
  assert (join [COMMA] (parseModelTags (tags model)) = opt_or (tags model) []) as ->.
  { rewrite Ht. unfold parseModelTags. destruct (tags model) as [[|c t]|]; cbn [opt_or] in Ht; rewrite <- Ht; try done.
    by rewrite Ht, split_trim_join. }
  by destruct Hs as [-> | ->], Hy as [-> | ->].
Qed.

Lemma empty_fields mode f : hasPricingConfig mode f = false → ∀ k, field_of mode f k = [].
Proof.
  destruct mode; cbn [hasPricingConfig]; intros H k; [rewrite !orb_false_iff in H; destruct H as [[[[[H1 H2] H3] H4] H5] H6]|];
    destruct k; cbn [field_of]; try done; match goal with |- ?t = [] => by destruct t end.
Qed.

Section Untouched.
Context (settings : ModelPricingSettings) (current : Maps) (n : jsstr).
Context (Hmaps : maps_of settings = Some current) (Hwf : ∀ k, json_wf (JObj (current k))).
Context (Hplain : ∀ k, plain (current k)) (Hn : n ≠ []) (Hu : is_utf16 n).
(** Numbers that are printed and read as they are, and a price or ratios. *)
Context (Hkept : ∀ k, editable k = true → RatioEditor.kept (obj_get n (current k))).
Context (Hone : obj_get n (current ModelPrice) = None ∨
  ∀ k, editable k = true → k ≠ ModelPrice → obj_get n (current k) = None).

Lemma text_empty k : editable k = true → text_of (obj_get n (current k)) = [] → obj_get n (current k) = None.
Proof.
  intros He Ht. destruct (Hkept k He) as [->|(x & Hx & _ & Hne & _)]; [done|].
  rewrite Hx in Ht. by destruct Hne.
Qed.

(** The form that is opened holds the texts of the entries. *)
Lemma opened_config :
  ∃ c, readPricingConfig (Some settings) n = Some c ∧
    ∀ k, editable k = true →
      field_of (mode c) (fields c) k = text_of (obj_get n (current k)) ∨
      (field_of (mode c) (fields c) k = [] ∧ obj_get n (current BillingMode) = Some (JStr (js "tiered_expr"))).
Proof.
  unfold readPricingConfig. destruct n as [|ch n']; [done|].
  unfold readPricingMaps. rewrite !(parsed_key settings current Hmaps). cbn [map_get json_prop mbind option_bind].
  eexists. split; [done|]. intros k He. case_bool_decide as Hm.
  { cbn [mode fields]. destruct (present _), k; cbn; auto; vm_compute in He; discriminate He. }
  destruct (present (obj_get (ch :: n') (current ModelPrice))) eqn:Hp; left; cbn [mode fields].
  - destruct Hone as [Hnone|Hother]; [by rewrite Hnone in Hp|].
    destruct (decide (k = ModelPrice)) as [->|Hk]; [done|]. rewrite (Hother k He Hk). by destruct k.
  - assert (obj_get (ch :: n') (current ModelPrice) = None) as Hnone.
    { destruct (Hkept ModelPrice eq_refl) as [|(x & Hx & _)]; [done|]. by rewrite Hx in Hp. }
    destruct k; try done; [by rewrite Hnone|vm_compute in He; discriminate He..].
Qed.

Lemma opened_mutation c :
  readPricingConfig (Some settings) n = Some c →
  let mu := mkMutation true n n n (mode c) (fields c) in
  mutation_wf mu ∧ ∀ k m, saved_value (parseModelPricingMaps settings) mu k m = obj_get m (current k).
Proof.
  intros Hc mu. destruct opened_config as (c' & Hc' & Hf). rewrite Hc in Hc'. injection Hc' as <-.
  split; [split; [exact Hu|]|]; cbn [finalModelName pricingMode m_fields mu].
  - intros k Hne. destruct (editable k) eqn:He; [|by rewrite field_of_preserved in Hne].
    destruct (Hf k He) as [Ht|[Ht _]]; rewrite Ht in *; [|done].
    destruct (Hkept k He) as [E|(x & E & _ & _ & Hx)]; rewrite E in *; [done|]. cbn [text_of json_to_string].
    rewrite Hx. by eapply wf_get.
  - intros k m. unfold saved_value. unfold renames. cbn [isEditing oldModelName finalModelName pricingMode m_fields loadedPricingName mu].
    rewrite bool_decide_true by done. rewrite andb_false_r. cbn [negb]. rewrite (parsed_key settings current Hmaps k). cbn [spread].
    unfold tiered. cbn [loadedPricingName mu]. rewrite (parsed_key settings current Hmaps). cbn [spread].
    destruct (editable k) eqn:He; [|by rewrite orb_true_r]. cbn [negb]. rewrite orb_false_r.
    assert (nonempty n = true) as -> by by destruct n. cbn [andb].
    case_bool_decide as Hm; [done|]. case_decide as Hmn; [subst m|done].
    assert (field_of (mode c) (fields c) k = text_of (obj_get n (current k))) as Ht by (by destruct (Hf k He) as [|[]]).
    destruct (hasPricingConfig _ _) eqn:Hh.
    + rewrite Ht. destruct (Hkept k He) as [->|(x & -> & _ & Hne & Hx)]; [done|]. cbn [text_of json_to_string].
      rewrite Hx. by destruct (num_to_string x).
    + rewrite (empty_fields _ _ Hh k) in Ht. by rewrite text_empty.
Qed.

End Untouched.


(** ** Samples *)

Definition texts (maps : Maps) : ModelPricingSettings := λ k, JSON_stringify (JObj (maps k)).

Lemma texts_maps maps :
  (∀ k, json_wf (JObj (maps k))) → ∃ current, maps_of (texts maps) = Some current ∧ ∀ k, current k = maps k.
Proof.
  intros Hw. unfold maps_of, RatioEditor.maps_of.
  assert (∀ k, parseModelPricingMaps (texts maps) k = JObj (maps k)) as H by (intros k; by apply object_reads).
  rewrite (proj2 (forallb_forall _ _)) by (intros k _; by rewrite H). eexists. split; [done|]. intros k. cbv beta. by rewrite H.
Qed.

Definition sample_maps : Maps := λ k,
  match k with ModelRatio => [(js "m", JNum (num_of_Z 2)); (js "n", JNum (num_of_Z 3))] | _ => [] end.

Lemma sample_maps_wf k : json_wf (JObj (sample_maps k)).
Proof. apply json_wfb_sound. by destruct k; vm_compute. Qed.

Definition sample_model : Model :=
  mkModel 5 (js "m") (Some (js "old")) None (Some (js "a,b")) None None 1 0 0.

Lemma sample_clean : model_clean sample_model.
Proof.
  split; [split; [discriminate|apply is_utf16_js]| |by right|by left].
  exists [js "a"; js "b"]. split; [by vm_compute|]. repeat constructor; try discriminate; try (by vm_compute);
    intros H; vm_compute in H; by repeat (apply elem_of_cons in H as [H|H]; [discriminate H|]); apply elem_of_nil in H.
Qed.

(** The drawer with the options there and the row of the sample. *)
Definition sample_open : State :=
  mkState true (Some (mkRow (Some 5) (js "m"))) ∅ (Some (texts sample_maps)) (panel initial) None [] [].


(** The sample with its price typed anew, saved while the options arrive again. *)
Definition sample_edited : State :=
  mkState true (Some (mkRow (Some 5) (js "m"))) {[5 := sample_model]} (Some (texts sample_maps))
    (mkPanel (basics_of sample_model) (mkFields [] (js "1.5") [] [] [] [] []) PerToken SubRatio (js "3") [] false (js "m") (js "m") false)
    None [] [].

Definition sample_events : list Event := [OptionsArrived (texts sample_maps); Answered Success; Answered Refused].

Lemma sample_run : notices <$> run sample_edited (Submit :: sample_events) = Some [Saved].
Proof. by vm_compute. Qed.

Theorem drawer_save_spec_witness :
  ∃ s' us, run sample_edited (Submit :: sample_events) = Some s' ∧
    sent s' = (save_trace (payload_of (Some 5) (basics_of sample_model)) (Some us) [Success; Refused]).1 ∧
    notices s' = [Saved] ∧
    entry (foldl apply_update (texts sample_maps) us) ModelRatio (js "m") = Some (JNum (parseFloat (js "1.5"))) ∧
    entry (foldl apply_update (texts sample_maps) us) ModelRatio (js "n") = Some (JNum (num_of_Z 3)).
Proof.
  destruct (texts_maps sample_maps sample_maps_wf) as (current & Hm & Hc).
  pose proof sample_run as Hnotice.
  destruct (run sample_edited (Submit :: sample_events)) as [s'|] eqn:Hr; [|discriminate Hnotice].
  destruct (drawer_save_spec sample_edited sample_events s' (texts sample_maps) current) as (us & [Hs Hn] & He).
  - reflexivity.
  - reflexivity.
  - reflexivity.
  - reflexivity.
  - exact Hm.
  - intros k. rewrite Hc. apply sample_maps_wf.
  - split; [apply is_utf16_js|]. intros k H. apply json_wfb_sound.
    destruct k; try (vm_compute in H; discriminate H). by vm_compute.
  - by repeat constructor.
  - exact Hr.
  - exists s', us. split; [reflexivity|]. rewrite !He. split; [exact Hs|]. split; [by injection Hnotice|].
    split; by vm_compute.
Defined.

(** ** Where the drawer misleads *)

Definition edits (es : list Edit) (p : Panel) : Panel := foldl (λ p e, edit e p) p es.

Definition price_panel : Panel := set_modes PerToken SubPrice false (panel initial).

(** A prompt price that is typed anew keeps the ratio of the completion, and the
    price shown for it: 8 dollars are shown, and 16 are saved. *)
Example completion_misquoted :
  let p := edits [TypePromptPrice (js "2"); TypeCompletionPrice (js "8"); TypePromptPrice (js "4")] price_panel in
  (panel_completionPrice p, ratio (prices p), completionRatio (prices p)) = (js "8", js "2", js "4") ∧
  num_mul (num_mul (parseFloat (js "2")) two) (parseFloat (js "4")) = num_of_Z 16.
Proof. split; by vm_compute. Qed.

(** Typed before the prompt price, the price of the completion is not saved,
    and is shown all the same. *)
Example completion_price_lost :
  let p := edits [TypeCompletionPrice (js "8"); TypePromptPrice (js "2")] price_panel in
  (panel_completionPrice p, ratio (prices p), completionRatio (prices p)) = (js "8", js "1", []).
Proof. by vm_compute. Qed.

(** In the mode of ratios the price of the completion does not follow the ratio. *)
Example completion_price_stale :
  let p := edits [TypeField ModelRatio (js "1"); TypeField CompletionRatio (js "4"); TypeField ModelRatio (js "2"); ChooseSubMode SubPrice]
             (panel initial) in
  (panel_promptPrice p, panel_completionPrice p) = (js "4", js "8").
Proof. by vm_compute. Qed.

(** An option that the server refuses counts as saved. *)
Lemma refused_option_saved us answers :
  length us = length answers → Forall (λ a, a ≠ Failed) answers → (options_sent us answers).2 = [Saved].
Proof.
  revert answers. induction us as [|u us IH]; intros [|a answers]; try done.
  intros [= Hl] Hf. inversion Hf; subst. cbn [options_sent]. specialize (IH answers Hl ltac:(done)).
  destruct (options_sent us answers). by destruct a.
Qed.

(** Options that arrive anew take back every edit of an open form. *)
Lemma arrived_options_discard s id model settings s' :
  isOpen s = true → editing_id (currentRow s) = Some id → detail s !! id = Some model →
  step s (OptionsArrived settings) = Some s' → basics (panel s') = basics_of model.
Proof.
  intros Ho Hid Hd H. cbn [step] in H. unfold load, set_queries in H. cbn [isOpen currentRow detail modelSettings] in H.
  rewrite Ho, Hid, Hd in H. cbn [negb] in H. by destruct (readPricingConfig _ _) as [c|]; [injection H as <-|].
Qed.

Definition payloads (s : State) : list Payload :=
  omap (λ r, match r with SaveModel p => Some p | _ => None end) (sent s).

Definition new_description : Basics :=
  mkBasics (js "m") (js "new") [] [js "a"; js "b"] None [] 0 true false.

(** What was answered for a model is kept after it was saved: opened again, it
    shows what it was before, and a save takes the edit back. *)
Example edit_reverted :
  (map p_description ∘ payloads) <$>
    run initial [Open (Some (mkRow (Some 5) (js "m"))); ModelArrived 5 sample_model;
      Edited (EditBasics new_description); Submit; Answered Success; Open (Some (mkRow (Some 5) (js "m"))); Submit]
  = Some [js "new"; js "old"].
Proof. by vm_compute. Qed.

(** Until the answer arrives, the drawer shows the model that was opened before,
    and a save writes its fields under the new id. *)
Example previous_model_sent :
  (map (λ p, (p_id p, p_model_name p)) ∘ payloads) <$>
    run initial [Open (Some (mkRow (Some 5) (js "m"))); ModelArrived 5 sample_model; Close;
      Open (Some (mkRow (Some 7) (js "n"))); Submit]
  = Some [(Some 7, js "m")].
Proof. by vm_compute. Qed.

End ModelDrawer.
