(* ===== verification/ChannelUpdates.v ===== *)
(** * Applying the updates of upstream models

    The models that an upstream of a channel gained and lost are offered in a
    dialog, and what is checked there is applied by the server:
    [features/channels/hooks/use-channel-upstream-updates.ts] and
    [components/dialogs/upstream-update-dialog.tsx] (Module [Updates]), and as
    the specification of what a confirmation does, the function of the server
    that takes it ([applyChannelUpstreamModelUpdates] of
    [controller/channel_upstream_update.go], Module [Server]).

    The dialog is mounted once, with the page; the hook hands it new lists.  A
    [Set] is a list without duplicates in the order of insertion.  Lower case
    and the trimming of the server are parameters. *)
From S2P Require Import Prelude JSString JSNumber JSON ChannelModels.
Local Open Scope Z_scope.

(** ** Sets of names *)

Section Sets.
Implicit Types (s : list jsstr) (x : jsstr).

Definition set_add s x : list jsstr := if decide (x ∈ s) then s else s ++ [x].
Definition set_delete s x : list jsstr := filter (λ y, y ≠ x) s.

Lemma elem_of_set_add s x y : y ∈ set_add s x ↔ y = x ∨ y ∈ s.
Proof. unfold set_add. case_decide; set_solver. Qed.

Lemma elem_of_set_delete s x y : y ∈ set_delete s x ↔ y ≠ x ∧ y ∈ s.
Proof. unfold set_delete. by rewrite list_elem_of_filter. Qed.

Lemma elem_of_adds l s y : y ∈ foldl set_add s l ↔ y ∈ s ∨ y ∈ l.
Proof. revert s. induction l as [|x l IH]; intros s; cbn [foldl]; [set_solver|]. rewrite IH, elem_of_set_add. set_solver. Qed.

Lemma elem_of_deletes l s y : y ∈ foldl set_delete s l ↔ y ∈ s ∧ y ∉ l.
Proof. revert s. induction l as [|x l IH]; intros s; cbn [foldl]; [set_solver|]. rewrite IH, elem_of_set_delete. set_solver. Qed.
End Sets.

Module Server.
Section Trim.
Context (TrimSpace : jsstr → jsstr).

Definition normalizeModelNames (models : list jsstr) : list jsstr := uniq (filter_bool (map TrimSpace models)).

Definition mergeModelNames (base appended : list jsstr) : list jsstr :=
  foldl set_add (normalizeModelNames base) (normalizeModelNames appended).

Definition subtractModelNames (base removed : list jsstr) : list jsstr :=
  filter (λ model, model ∉ normalizeModelNames removed) (normalizeModelNames base).

Definition intersectModelNames (base allowed : list jsstr) : list jsstr :=
  filter (λ model, model ∈ normalizeModelNames allowed) (normalizeModelNames base).

Definition applySelectedModelChanges (originModels addModels removeModels : list jsstr) : list jsstr :=
  let normalizedAdd := normalizeModelNames addModels in
  let normalizedRemove := subtractModelNames (normalizeModelNames removeModels) normalizedAdd in
  subtractModelNames (mergeModelNames originModels normalizedAdd) normalizedRemove.

(** What the server holds of a channel. *)
Record Channel := mkChannel {
  models : list jsstr;
  ignored : list jsstr;
  lastDetected : list jsstr;
  lastRemoved : list jsstr;
}.

Record Result := mkResult { addedModels : list jsstr; removedModels : list jsstr; after : Channel }.

(** Without the time of the check and the errors of the database. *)
Definition applyChannelUpstreamModelUpdates (c : Channel) (addInput ignoreInput removeInput : list jsstr) : Result :=
  let pendingAddModels := normalizeModelNames (lastDetected c) in
  let pendingRemoveModels := normalizeModelNames (lastRemoved c) in
  let addModels := intersectModelNames addInput pendingAddModels in
  let ignoreModels := intersectModelNames ignoreInput pendingAddModels in
  let removeModels := subtractModelNames (intersectModelNames removeInput pendingRemoveModels) addModels in
  let originModels := normalizeModelNames (models c) in
  let nextModels := applySelectedModelChanges originModels addModels removeModels in
  let merged := mergeModelNames (ignored c) ignoreModels in
  mkResult addModels removeModels (mkChannel
    (if decide (originModels = nextModels) then models c else nextModels)
    (if (0 <? length addModels)%nat then subtractModelNames merged addModels else merged)
    (subtractModelNames pendingAddModels (addModels ++ ignoreModels))
    (subtractModelNames pendingRemoveModels removeModels)).

(** Names that trimming leaves alone. *)
Definition clean (l : list jsstr) : Prop := Forall (λ x, TrimSpace x = x ∧ x ≠ []) l.

Lemma normalize_clean l x : clean l → x ∈ normalizeModelNames l ↔ x ∈ l.
Proof.
  intros Hl. unfold normalizeModelNames. rewrite elem_of_uniq, elem_of_filter_bool, list_elem_of_fmap.
  unfold clean in Hl. rewrite Forall_forall in Hl. split.
  - intros [(y & -> & Hy) _]. by destruct (Hl y Hy) as [-> _].
  - intros Hx. destruct (Hl x Hx) as [Ht Hne]. split; [|done]. by exists x.
Qed.

Lemma clean_sub l l' : (∀ x, x ∈ l' → x ∈ l) → clean l → clean l'.
Proof. unfold clean. rewrite !Forall_forall. auto. Qed.

Lemma clean_app l l' : clean l → clean l' → clean (l ++ l').
Proof. apply Forall_app_2. Qed.

Lemma elem_of_subtract l l' x : clean l → clean l' → x ∈ subtractModelNames l l' ↔ x ∈ l ∧ x ∉ l'.
Proof. intros. unfold subtractModelNames. rewrite list_elem_of_filter, !normalize_clean by done. tauto. Qed.

Lemma elem_of_intersect l l' x : clean l → clean l' → x ∈ intersectModelNames l l' ↔ x ∈ l ∧ x ∈ l'.
Proof. intros. unfold intersectModelNames. rewrite list_elem_of_filter, !normalize_clean by done. tauto. Qed.

Lemma elem_of_merge l l' x : clean l → clean l' → x ∈ mergeModelNames l l' ↔ x ∈ l ∨ x ∈ l'.
Proof. intros. unfold mergeModelNames. rewrite elem_of_adds, !normalize_clean by done. done. Qed.
Lemma clean_normalize l : clean l → clean (normalizeModelNames l).
Proof. intros Hl. apply (clean_sub l); [|done]. intros x. by rewrite normalize_clean. Qed.

Lemma clean_subtract l l' : clean l → clean l' → clean (subtractModelNames l l').
Proof. intros Hl Hl'. apply (clean_sub l); [|done]. intros x. rewrite elem_of_subtract by done. tauto. Qed.

Lemma clean_intersect l l' : clean l → clean l' → clean (intersectModelNames l l').
Proof. intros Hl Hl'. apply (clean_sub l); [|done]. intros x. rewrite elem_of_intersect by done. tauto. Qed.

Lemma clean_merge l l' : clean l → clean l' → clean (mergeModelNames l l').
Proof.
  intros Hl Hl'. apply (clean_sub (l ++ l')); [|by apply clean_app]. intros x. rewrite elem_of_merge, elem_of_app by done. tauto.
Qed.

Lemma elem_of_changes origin add remove x :
  clean origin → clean add → clean remove →
  x ∈ applySelectedModelChanges origin add remove ↔ (x ∈ origin ∨ x ∈ add) ∧ ¬ (x ∈ remove ∧ x ∉ add).
Proof.
  intros Ho Ha Hr. unfold applySelectedModelChanges.
  rewrite !elem_of_subtract, elem_of_merge, !normalize_clean by auto using clean_normalize, clean_subtract, clean_merge.
  tauto.
Qed.

(** The effect of a request whose ignored models are the listed ones that are
    not selected. *)
Lemma apply_effect c add remove selAdd selRemove :
  clean add → clean remove → clean selAdd → clean selRemove →
  clean (models c) → clean (ignored c) → clean (lastDetected c) → clean (lastRemoved c) →
  (∀ x, x ∈ lastDetected c ↔ x ∈ add) → (∀ x, x ∈ lastRemoved c ↔ x ∈ remove) →
  let result := applyChannelUpstreamModelUpdates c selAdd (filter (λ m, m ∉ selAdd) add) selRemove in
  let added x := x ∈ add ∧ x ∈ selAdd in
  let removed x := (x ∈ remove ∧ x ∈ selRemove) ∧ ¬ added x in
  ∀ x,
    (x ∈ addedModels result ↔ added x) ∧ (x ∈ removedModels result ↔ removed x) ∧
    (x ∈ models (after result) ↔ (x ∈ models c ∨ added x) ∧ ¬ removed x) ∧
    (x ∈ ignored (after result) ↔ (x ∈ ignored c ∨ x ∈ add) ∧ ¬ added x) ∧
    x ∉ lastDetected (after result) ∧
    (x ∈ lastRemoved (after result) ↔ x ∈ remove ∧ ¬ removed x).
Proof.
  intros Ha Hr Hsa Hsr Hm Hi Hd Hl Ed El result added removed x.
  assert (clean (filter (λ m, m ∉ selAdd) add)) as Hig by (apply (clean_sub add); [|done]; intros y [_ ?]%list_elem_of_filter; done).
  unfold result, applyChannelUpstreamModelUpdates. cbv zeta. cbn [addedModels removedModels after models ignored lastDetected lastRemoved].
  set (A := intersectModelNames selAdd _). set (I := intersectModelNames (filter _ _) _).
  set (R := subtractModelNames (intersectModelNames selRemove _) A). set (N := applySelectedModelChanges _ _ _).
  assert (clean A ∧ clean I) as [HA HI] by (split; apply clean_intersect; auto using clean_normalize).
  assert (clean R) as HR by (apply clean_subtract; auto using clean_intersect, clean_normalize).
  assert (∀ y, y ∈ A ↔ added y) as EA.
  { intros y. unfold A, added. rewrite elem_of_intersect, normalize_clean, Ed by auto using clean_normalize. tauto. }
  assert (∀ y, y ∈ I ↔ y ∈ add ∧ ¬ added y) as EI.
  { intros y. unfold I, added. rewrite elem_of_intersect, normalize_clean, Ed, list_elem_of_filter by auto using clean_normalize. tauto. }
  assert (∀ y, y ∈ R ↔ removed y) as ER.
  { intros y. unfold R, removed. rewrite elem_of_subtract, elem_of_intersect, normalize_clean, El, EA
      by auto using clean_intersect, clean_normalize. tauto. }
  assert (∀ y, y ∈ N ↔ (y ∈ models c ∨ added y) ∧ ¬ removed y) as EN.
  { intros y. unfold N. rewrite elem_of_changes, normalize_clean, EA, ER by auto using clean_normalize. unfold removed. tauto. }
  clearbody N R I A. split_and!; [apply EA|apply ER| | | |].
  - destruct (decide _) as [E|_]; [|apply EN]. rewrite <- EN, <- E. by rewrite normalize_clean.
  - assert (∀ y, y ∈ mergeModelNames (ignored c) I ↔ y ∈ ignored c ∨ y ∈ add ∧ ¬ added y) as EM
      by (intros y; by rewrite elem_of_merge, EI by done).
    destruct A as [|a A]; cbn [length Nat.ltb Nat.leb].
    + rewrite EM. specialize (EA x). rewrite elem_of_nil in EA. tauto.
    + rewrite elem_of_subtract, EM, EA by auto using clean_merge. tauto.
  - rewrite elem_of_subtract, normalize_clean, elem_of_app, EA, EI, Ed by auto using clean_normalize, clean_app.
    destruct (decide (x ∈ selAdd)); unfold added; tauto.
  - rewrite elem_of_subtract, normalize_clean, ER, El by auto using clean_normalize. tauto.
Qed.
End Trim.
End Server.

Module Updates.
Import UpstreamMeta.

(** A list of names through the reader of the settings. *)
Definition normalize (l : list jsstr) : list jsstr := opt_or (normalizeModelList (JArr (map JStr l))) [].

(** ** Counts of the notices *)

(** [v?.length || 0] of what the server answers; other values have no length. *)
Definition length_of (v : option json) : nat :=
  match v with Some (JArr l) => length l | Some (JStr s) => length s | _ => 0%nat end.

Definition data_prop (data : option json) (k : string) : option json := data ≫= λ d, json_prop d (js k).

(** [None] is the error of a list that is none. *)
Definition getManualIgnoredModelCount (settings : option json) : option nat :=
  match settings ≫= parsed_settings with
  | None => Some 0%nat
  | Some parsed => length <$> normalizeModelList (list_property (js "upstream_model_update_ignored_models") parsed)
  end.

(** ** The dialog *)

Inductive Tab := AddTab | RemoveTab.

Record Dialog := mkDialog {
  activeTab : Tab;
  searchAdd : jsstr;
  searchRemove : jsstr;
  selectedAdd : list jsstr;
  selectedRemove : list jsstr;
  partialConfirmOpen : bool;
}.

(** The initial values of the states, when the dialog is mounted. *)
Definition mount (addModels removeModels : list jsstr) (preferredTab : Tab) : Dialog :=
  mkDialog preferredTab [] [] (uniq addModels) (uniq removeModels) false.

Definition selected (tab : Tab) (d : Dialog) : list jsstr :=
  match tab with AddTab => selectedAdd d | RemoveTab => selectedRemove d end.

Definition search (tab : Tab) (d : Dialog) : jsstr :=
  match tab with AddTab => searchAdd d | RemoveTab => searchRemove d end.

Definition set_selected (tab : Tab) (l : list jsstr) (d : Dialog) : Dialog :=
  match tab with
  | AddTab => mkDialog (activeTab d) (searchAdd d) (searchRemove d) l (selectedRemove d) (partialConfirmOpen d)
  | RemoveTab => mkDialog (activeTab d) (searchAdd d) (searchRemove d) (selectedAdd d) l (partialConfirmOpen d)
  end.

Definition set_search (tab : Tab) (text : jsstr) (d : Dialog) : Dialog :=
  match tab with
  | AddTab => mkDialog (activeTab d) text (searchRemove d) (selectedAdd d) (selectedRemove d) (partialConfirmOpen d)
  | RemoveTab => mkDialog (activeTab d) (searchAdd d) text (selectedAdd d) (selectedRemove d) (partialConfirmOpen d)
  end.

Definition set_tab (tab : Tab) (d : Dialog) : Dialog :=
  mkDialog tab (searchAdd d) (searchRemove d) (selectedAdd d) (selectedRemove d) (partialConfirmOpen d).

Definition set_partial (open : bool) (d : Dialog) : Dialog :=
  mkDialog (activeTab d) (searchAdd d) (searchRemove d) (selectedAdd d) (selectedRemove d) open.

Definition toggleModel (model : jsstr) (set : list jsstr) : list jsstr :=
  if decide (model ∈ set) then set_delete set model else set_add set model.

Definition toggleAllVisible (models set : list jsstr) : list jsstr :=
  if forallb (λ m, bool_decide (m ∈ set)) models then foldl set_delete set models else foldl set_add set models.

(** ** The hook *)

(** What the server is asked to apply. *)
Record Apply := mkApply { id : Z; add_models : list jsstr; ignore_models : list jsstr; remove_models : list jsstr }.

Inductive Request :=
  | PostApply (r : Apply)
  | PostApplyAll
  | PostDetect (channel : Z)
  | PostDetectAll.

(** The four callbacks that a ref locks each. *)
Inductive Op := OpApply | OpApplyAll | OpDetect | OpDetectAll.
#[global] Instance Op_eq_dec : EqDecision Op.
Proof. solve_decision. Defined.

(** Where a callback is that has begun: the request, with the models that its
    closure counts as ignored, or the refresh after it. *)
Inductive Phase :=
  | Posted (ignoreModels : list jsstr)
  | Refreshing.

Inductive Toast :=
  | NothingToProcess
  | Applied (added removed ignored totalIgnored : nat)
  | Done (op : Op)
  | Failure.

Record State := mkState {
  showModal : bool;
  channel : option Z;
  addModels : list jsstr;
  removeModels : list jsstr;
  preferredTab : Tab;
  locks : Op → option Phase;
  dialog : Dialog;
  sent : list Request;
  toasts : list Toast;
}.

Definition locked (op : Op) (s : State) : bool := match locks s op with Some _ => true | None => false end.

Definition initial : State :=
  mkState false None [] [] AddTab (λ _, None) (mount [] [] AddTab) [] [].

Definition with_modal (show : bool) (ch : option Z) (add remove : list jsstr) (tab : Tab) (s : State) : State :=
  mkState show ch add remove tab (locks s) (dialog s) (sent s) (toasts s).

Definition with_dialog (f : Dialog → Dialog) (s : State) : State :=
  mkState (showModal s) (channel s) (addModels s) (removeModels s) (preferredTab s) (locks s) (f (dialog s)) (sent s) (toasts s).

Definition lock (op : Op) (phase : option Phase) (requests : list Request) (news : list Toast) (s : State) : State :=
  mkState (showModal s) (channel s) (addModels s) (removeModels s) (preferredTab s)
    (λ op', if decide (op' = op) then phase else locks s op') (dialog s) (sent s ++ requests) (toasts s ++ news).

Definition notify (news : Toast) (s : State) : State :=
  mkState (showModal s) (channel s) (addModels s) (removeModels s) (preferredTab s) (locks s) (dialog s) (sent s) (toasts s ++ [news]).

(** [record?.id]: the id of a row, 0 is none. *)
Definition record_id (record : option Z) : option Z :=
  match record with Some i => if i =? 0 then None else Some i | None => None end.

Definition openModal (record : option Z) (pendingAdd pendingRemove : list jsstr) (tab : Tab) (s : State) : State :=
  let normAdd := normalize pendingAdd in
  let normRemove := normalize pendingRemove in
  match record_id record with
  | Some i =>
      if (length normAdd =? 0)%nat && (length normRemove =? 0)%nat then notify NothingToProcess s
      else with_modal true (Some i) normAdd normRemove tab s
  | None => notify NothingToProcess s
  end.

Definition closeModal (s : State) : State := with_modal false None [] [] AddTab s.

(** [applyUpdates] up to its request. *)
Definition applyUpdates (selAdd selRemove : list jsstr) (s : State) : State :=
  if locked OpApply s then s else
  match channel s with
  | None => closeModal s
  | Some i =>
      let normSelectedAdd := normalize selAdd in
      let ignoreModels := filter (λ m, m ∉ normSelectedAdd) (addModels s) in
      lock OpApply (Some (Posted ignoreModels)) [PostApply (mkApply i normSelectedAdd ignoreModels (normalize selRemove))] [] s
  end.

Definition handleConfirm (s : State) : State :=
  let d := dialog s in
  let hasAdd := (0 <? length (addModels s))%nat in
  let hasRemove := (0 <? length (removeModels s))%nat in
  let anyAdd := (0 <? length (selectedAdd d))%nat in
  let anyRemove := (0 <? length (selectedRemove d))%nat in
  if hasAdd && hasRemove && (negb anyAdd || negb anyRemove) then with_dialog (set_partial true) s
  else applyUpdates (selectedAdd d) (selectedRemove d) s.

(** Whether the button of the dialog can be clicked. *)
Definition confirmEnabled (s : State) : bool :=
  showModal s && negb (locked OpApply s
    || ((length (selectedAdd (dialog s)) =? 0)%nat && (length (selectedRemove (dialog s)) =? 0)%nat)).

(** The other three callbacks up to their request. *)
Definition begin (op : Op) (request : Request) (s : State) : State :=
  if locked op s then s else lock op (Some (Posted [])) [request] [] s.

Definition detectChannelUpdates (record : option Z) (s : State) : State :=
  match record_id record with Some i => begin OpDetect (PostDetect i) s | None => s end.

Inductive Answer :=
  | Success (data : option json)
  | Refused
  | Failed.

(** The answer of a request.  Of the notices only that of [applyUpdates] can
    throw, after the server has applied. *)
Definition answered (op : Op) (a : Answer) (s : State) : State :=
  match locks s op with
  | Some (Posted ignoreModels) =>
      match a, op with
      | Success data, OpApply =>
          match getManualIgnoredModelCount (data_prop data "settings") with
          | Some total =>
              closeModal (lock op (Some Refreshing) [] [Applied (length_of (data_prop data "added_models"))
                (length_of (data_prop data "removed_models")) (length (normalize ignoreModels)) total] s)
          | None => lock op None [] [Failure] s
          end
      | Success _, _ => lock op (Some Refreshing) [] [Done op] s
      | _, _ => lock op None [] [Failure] s
      end
  | _ => s
  end.

(** The end of [await refresh()]. *)
Definition refreshed (op : Op) (ok : bool) (s : State) : State :=
  match locks s op with
  | Some Refreshing => lock op None [] (if ok then [] else [Failure]) s
  | _ => s
  end.

(** ** Steps *)

Inductive Event :=
  | OpenModal (record : option Z) (pendingAdd pendingRemove : list jsstr) (tab : Tab)
  | Cancel
  | ChooseTab (tab : Tab)
  | Search (tab : Tab) (text : jsstr)
  | Toggle (tab : Tab) (model : jsstr)
  | ToggleAll (tab : Tab)
  | Confirm
  | ConfirmPartial
  | DismissPartial
  | DetectOne (record : option Z)
  | DetectAll
  | ApplyAll
  | Answered (op : Op) (a : Answer)
  | Refreshed (op : Op) (ok : bool).

Section Steps.
Context (toLowerCase : jsstr → jsstr).

Definition listed (tab : Tab) (s : State) : list jsstr :=
  match tab with AddTab => addModels s | RemoveTab => removeModels s end.

(** [filteredAdd] and [filteredRemove] *)
Definition filtered (tab : Tab) (s : State) : list jsstr :=
  List.filter (λ m, includes (toLowerCase (search tab (dialog s))) (toLowerCase m)) (listed tab s).

(** What a click does; what is not shown cannot be clicked. *)
Definition step (s : State) (e : Event) : State :=
  match e with
  | OpenModal record pendingAdd pendingRemove tab => openModal record pendingAdd pendingRemove tab s
  | Cancel => closeModal s
  | ChooseTab tab => with_dialog (set_tab tab) s
  | Search tab text => with_dialog (set_search tab text) s
  | Toggle tab model =>
      if showModal s && bool_decide (model ∈ filtered tab s)
      then with_dialog (λ d, set_selected tab (toggleModel model (selected tab d)) d) s else s
  | ToggleAll tab =>
      if showModal s && (0 <? length (filtered tab s))%nat
      then with_dialog (λ d, set_selected tab (toggleAllVisible (filtered tab s) (selected tab d)) d) s else s
  | Confirm => if confirmEnabled s then handleConfirm s else s
  | ConfirmPartial =>
      if partialConfirmOpen (dialog s)
      then applyUpdates (selectedAdd (dialog s)) (selectedRemove (dialog s)) (with_dialog (set_partial false) s) else s
  | DismissPartial => with_dialog (set_partial false) s
  | DetectOne record => detectChannelUpdates record s
  | DetectAll => begin OpDetectAll PostDetectAll s
  | ApplyAll => begin OpApplyAll PostApplyAll s
  | Answered op a => answered op a s
  | Refreshed op ok => refreshed op ok s
  end.

Definition run (s : State) (es : list Event) : State := foldl step s es.

(** ** The lists and the selections are clean names *)

Lemma normalize_names l : clean_names (normalize l).
Proof.
  unfold normalize. destruct (normalizeModelList _) as [l'|] eqn:E; [by eapply normalizeModelList_clean|]. by split; constructor.
Qed.

Lemma normalize_id l : clean_names l → normalize l = l.
Proof.
  intros Hl. unfold normalize. by rewrite normalizeModelList_names.
Qed.

Lemma names_add l x : clean_names l → trimmed x ∧ x ≠ [] → clean_names (set_add l x).
Proof.
  intros [Hn Hl] Hx. unfold set_add. case_decide; [done|]. split; [apply NoDup_app; set_solver by apply NoDup_singleton|].
  by apply Forall_app_2; [|constructor].
Qed.

Lemma names_delete l x : clean_names l → clean_names (set_delete l x).
Proof.
  intros [Hn Hl]. split; [by apply NoDup_filter|]. unfold set_delete. rewrite Forall_forall in *.
  intros y [_ Hy]%list_elem_of_filter. auto.
Qed.

Lemma names_toggle_all models set :
  Forall (λ m, trimmed m ∧ m ≠ []) models → clean_names set → clean_names (toggleAllVisible models set).
Proof.
  intros Hm Hs. unfold toggleAllVisible. destruct (forallb _ _).
  - revert set Hs. induction Hm; intros set Hs; [done|]. cbn [foldl]. auto using names_delete.
  - revert set Hs. induction Hm; intros set Hs; [done|]. cbn [foldl]. auto using names_add.
Qed.

Record names_ok (s : State) : Prop := {
  ok_add : clean_names (addModels s);
  ok_remove : clean_names (removeModels s);
  ok_selected : ∀ tab, clean_names (selected tab (dialog s));
}.

Lemma names_listed tab s : names_ok s → Forall (λ m, trimmed m ∧ m ≠ []) (filtered tab s).
Proof.
  intros [Ha Hr _]. apply Forall_forall. intros m [Hm _]%list_elem_of_In%filter_In.
  apply list_elem_of_In in Hm. destruct tab; [destruct Ha as [_ Hl]|destruct Hr as [_ Hl]]; rewrite Forall_forall in Hl; auto.
Qed.

Lemma names_set tab l s :
  names_ok s → clean_names l → names_ok (with_dialog (set_selected tab l) s).
Proof. intros [Ha Hr Hs] Hl. split; [done|done|]. intros []; destruct tab; try done; apply (Hs AddTab) || apply (Hs RemoveTab). Qed.

Lemma names_modal show ch add remove tab s :
  names_ok s → clean_names add → clean_names remove → names_ok (with_modal show ch add remove tab s).
Proof. intros [_ _ Hs] ? ?. by split. Qed.

Lemma no_names : clean_names [].
Proof. split; constructor. Qed.
#[local] Hint Resolve no_names normalize_names names_modal names_set names_listed : updates.

Lemma names_close s : names_ok s → names_ok (closeModal s).
Proof. unfold closeModal. auto with updates. Qed.

Lemma names_lock op phase requests news s : names_ok s → names_ok (lock op phase requests news s).
Proof. intros [Ha Hr Hs]. by split. Qed.
#[local] Hint Resolve names_close names_lock : updates.

Lemma names_dialog f s :
  (∀ tab d, selected tab (f d) = selected tab d) → names_ok s → names_ok (with_dialog f s).
Proof. intros Hf [Ha Hr Hs]. split; [done|done|]. intros tab. cbn [with_dialog dialog]. by rewrite Hf. Qed.

Lemma names_apply a r s : names_ok s → names_ok (applyUpdates a r s).
Proof. intros Hs. unfold applyUpdates. destruct (locked _ _); [done|]. destruct (channel s); auto with updates. Qed.

Lemma names_step s e : names_ok s → names_ok (step s e).
Proof.
  intros Hs.
  assert (∀ open, names_ok (with_dialog (set_partial open) s)) as Hp by (intros; by apply names_dialog; [intros []|]).
  destruct e; cbn [step]; auto with updates.
  - unfold openModal. destruct (record_id _); [destruct (_ && _)|]; auto with updates; by destruct Hs.
  - by apply names_dialog; [intros []|].
  - by apply names_dialog; [intros [] []; destruct tab|].
  - case_match; [|done]. apply (names_set tab (toggleModel model (selected tab (dialog s)))); [done|].
    match goal with H : _ && _ = true |- _ => apply andb_true_iff in H as [_ H%bool_decide_eq_true] end.
    unfold toggleModel. case_decide; [apply names_delete|apply names_add]; try apply Hs.
    pose proof (names_listed tab s Hs) as Hl. rewrite Forall_forall in Hl. auto.
  - case_match; [|done]. apply (names_set tab (toggleAllVisible (filtered tab s) (selected tab (dialog s)))); [done|].
    apply names_toggle_all; [auto with updates|apply Hs].
  - destruct (confirmEnabled s); [|done]. unfold handleConfirm. case_match; [done|by apply names_apply].
  - case_match; [|done]. by apply names_apply.
  - unfold detectChannelUpdates, begin. destruct (record_id _); [|done]. destruct (locked _ _); auto with updates.
  - unfold begin. destruct (locked _ _); auto with updates.
  - unfold begin. destruct (locked _ _); auto with updates.
  - unfold answered. destruct (locks s op) as [[ig|]|]; [|done..]. destruct a, op; try (by auto with updates).
    destruct (getManualIgnoredModelCount _); auto with updates.
  - unfold refreshed. destruct (locks s op) as [[]|]; auto with updates.
Qed.

Lemma names_run es : names_ok (run initial es).
Proof.
  unfold run. assert (names_ok initial) as H by (split; try apply no_names; intros []; apply no_names).
  revert H. generalize initial. induction es as [|e es IH]; intros s Hs; [done|]. apply IH. by apply names_step.
Qed.

(** ** What is asked for *)

Definition checked (tab : Tab) (s : State) (x : jsstr) : Prop := x ∈ listed tab s ∧ x ∈ selected tab (dialog s).

Lemma sent_neq (l : list Request) r : l ≠ l ++ [r].
Proof. intros H. apply (f_equal length) in H. rewrite length_app in H. cbn in H. lia. Qed.

Lemma apply_posts s s0 r :
  names_ok s → sent (applyUpdates (selectedAdd (dialog s)) (selectedRemove (dialog s)) s0) = sent s ++ [PostApply r] →
  sent s0 = sent s → channel s0 = channel s → addModels s0 = addModels s →
  locked OpApply s0 = false ∧
  Some r = (i ← channel s; Some (mkApply i (selectedAdd (dialog s))
    (filter (λ m, m ∉ selectedAdd (dialog s)) (addModels s)) (selectedRemove (dialog s)))).
Proof.
  intros Hs Hsent H0 Hc Ha. unfold applyUpdates in Hsent. destruct (locked OpApply s0); [by rewrite H0 in Hsent; apply sent_neq in Hsent|].
  split; [done|]. rewrite Hc in Hsent. destruct (channel s) as [i|]; [|cbn in Hsent; rewrite H0 in Hsent; by apply sent_neq in Hsent].
  cbn [lock sent] in Hsent. rewrite H0, Ha in Hsent. apply (inj (app (sent s))) in Hsent.
  pose proof (normalize_id _ (ok_selected _ Hs AddTab)) as N1. pose proof (normalize_id _ (ok_selected _ Hs RemoveTab)) as N2.
  cbn [selected] in N1, N2. rewrite N1, N2 in Hsent.
  cbn [mbind option_bind]. congruence.
Qed.

Lemma step_posts s e r :
  names_ok s → sent (step s e) = sent s ++ [PostApply r] →
  locked OpApply s = false ∧
  Some r = (i ← channel s; Some (mkApply i (selectedAdd (dialog s))
    (filter (λ m, m ∉ selectedAdd (dialog s)) (addModels s)) (selectedRemove (dialog s)))).
Proof.
  intros Hs H. assert (∀ s', sent s' = sent s → sent s' ≠ sent s ++ [PostApply r]) as Hno.
  { intros s' -> He. by apply sent_neq in He. }
  assert (∀ q, q ≠ PostApply r → sent s ++ [q] ≠ sent s ++ [PostApply r]) as Hother by (intros q Hq He; apply (inj (app (sent s))) in He; congruence).
  destruct e; cbn [step] in H; try (by apply Hno in H).
  - unfold openModal in H. destruct (record_id _); [destruct (_ && _)|]; by apply Hno in H.
  - destruct (_ && _) in H; by apply Hno in H.
  - destruct (_ && _) in H; by apply Hno in H.
  - destruct (confirmEnabled s); [|by apply Hno in H]. unfold handleConfirm in H.
    destruct (_ && _) in H; [by apply Hno in H|]. by apply (apply_posts s s).
  - destruct (partialConfirmOpen _); [|by apply Hno in H].
    by apply (apply_posts s (with_dialog (set_partial false) s)).
  - unfold detectChannelUpdates, begin in H. destruct (record_id _); [|by apply Hno in H].
    destruct (locked _ _); [by apply Hno in H|]. by apply Hother in H.
  - unfold begin in H. destruct (locked _ _); [by apply Hno in H|]. by apply Hother in H.
  - unfold begin in H. destruct (locked _ _); [by apply Hno in H|]. by apply Hother in H.
  - exfalso. revert H. apply Hno. unfold answered. destruct (locks s op) as [[]|]; [|done..].
    destruct a, op; try (cbn; by rewrite app_nil_r). destruct (getManualIgnoredModelCount _); cbn; by rewrite app_nil_r.
  - exfalso. revert H. apply Hno. unfold refreshed. destruct (locks s op) as [[]|]; [done| |done]. cbn. by rewrite app_nil_r.
Qed.

(** ** Against the server *)

Definition same_names (l l' : list jsstr) : Prop := ∀ x, x ∈ l ↔ x ∈ l'.

(** C8: what a confirmation of the dialog does, whatever happened before, when
    the server still holds the lists that are shown: it adds the models that
    are listed and checked, remembers those that are listed and not checked as
    ignored and leaves none of them pending; it removes the checked ones of the
    other list, but for what it just added, keeps the unchecked ones pending,
    and touches no other model of the channel.  Names that were checked for
    another channel and are still selected have no effect. *)
Theorem confirmed_applied TrimSpace es e r c :
  let s := run initial es in
  let clean := Server.clean TrimSpace in
  sent (step s e) = sent s ++ [PostApply r] →
  clean (addModels s) → clean (removeModels s) → clean (selectedAdd (dialog s)) → clean (selectedRemove (dialog s)) →
  clean (Server.models c) → clean (Server.ignored c) → clean (Server.lastDetected c) → clean (Server.lastRemoved c) →
  same_names (Server.lastDetected c) (addModels s) → same_names (Server.lastRemoved c) (removeModels s) →
  channel s = Some (id r) ∧
  let result := Server.applyChannelUpstreamModelUpdates TrimSpace c (add_models r) (ignore_models r) (remove_models r) in
  let c' := Server.after result in
  let removed x := checked RemoveTab s x ∧ ¬ checked AddTab s x in
  ∀ x,
    (x ∈ Server.addedModels result ↔ checked AddTab s x) ∧
    (x ∈ Server.removedModels result ↔ removed x) ∧
    (x ∈ Server.models c' ↔ (x ∈ Server.models c ∨ checked AddTab s x) ∧ ¬ removed x) ∧
    (x ∈ Server.ignored c' ↔ (x ∈ Server.ignored c ∨ x ∈ addModels s) ∧ ¬ checked AddTab s x) ∧
    x ∉ Server.lastDetected c' ∧
    (x ∈ Server.lastRemoved c' ↔ x ∈ removeModels s ∧ ¬ removed x).
Proof.
  intros s clean Hsent Ha Hr Hsa Hsr Hm Hi Hd Hl Ed El. subst clean.
  destruct (step_posts s e r (names_run es) Hsent) as [_ Hreq].
  destruct (channel s) as [i|]; cbn [mbind option_bind] in Hreq; [|discriminate Hreq]. injection Hreq as ->. cbn [id add_models ignore_models remove_models].
  split; [done|]. unfold checked. cbn [listed selected]. by apply (Server.apply_effect TrimSpace).
Qed.

End Steps.
Definition sample_events : list Event :=
  [OpenModal (Some 5) [js "a"] [] AddTab; Toggle AddTab (js "a"); Cancel;
   OpenModal (Some 7) [js "b"; js "c"] [js "d"] AddTab; Toggle AddTab (js "b"); Toggle RemoveTab (js "d")].

Definition sample_channel : Server.Channel :=
  Server.mkChannel [js "d"; js "e"] [js "c0"] [js "b"; js "c"] [js "d"].

Lemma confirmed_applied_witness :
  let s := run (λ x, x) initial sample_events in
  ∃ r, sent (step (λ x, x) s Confirm) = sent s ++ [PostApply r] ∧ add_models r = [js "a"; js "b"] ∧
    let result := Server.applyChannelUpstreamModelUpdates trim sample_channel (add_models r) (ignore_models r) (remove_models r) in
    (js "b" ∈ Server.addedModels result ↔ checked AddTab s (js "b")) ∧
    Server.after result = Server.mkChannel [js "e"; js "b"] [js "c0"; js "c"] [] [].
Proof.
  intros s. exists (mkApply 7 [js "a"; js "b"] [js "c"] [js "d"]).
  assert (sent (step (λ x, x) s Confirm) = sent s ++ [PostApply (mkApply 7 [js "a"; js "b"] [js "c"] [js "d"])]) as H by (by vm_compute).
  destruct (confirmed_applied (λ x, x) trim sample_events Confirm _ sample_channel H) as [_ He].
  1-8: apply Forall_forall; intros x Hx; apply (bool_decide_unpack _); revert x Hx; apply Forall_forall, (bool_decide_unpack _); by vm_compute.
  1-2: intros x; reflexivity.
  split; [exact H|]. split; [reflexivity|]. split; [apply He|]. by vm_compute.
Defined.

(** ** Where the dialog misleads *)

(** The dialog is mounted before there is anything to select, and its states are
    not set again: no model is checked when it opens, where all of them are
    meant to be, and nothing can be confirmed. *)
Example opens_unchecked :
  let s := run (λ x, x) initial [OpenModal (Some 5) [js "a"; js "b"] [] AddTab] in
  selected AddTab (dialog s) = [] ∧ confirmEnabled s = false ∧
  selected AddTab (mount (addModels s) (removeModels s) AddTab) = [js "a"; js "b"].
Proof. by vm_compute. Qed.

(** It opens on the tab that was shown last, not on the preferred one. *)
Lemma preferred_tab_ignored record add remove tab s :
  activeTab (dialog (openModal record add remove tab s)) = activeTab (dialog s).
Proof. unfold openModal. destruct (record_id record); [destruct (_ && _)|]; done. Qed.

(** What was selected for another channel enables the button with nothing
    checked; the confirmation ignores every model of this one. *)
Example stale_selection_confirms :
  let s := run (λ x, x) initial [OpenModal (Some 5) [js "a"] [] AddTab; Toggle AddTab (js "a"); Cancel;
             OpenModal (Some 7) [js "b"] [] AddTab] in
  confirmEnabled s = true ∧ sent (step (λ x, x) s Confirm) = [PostApply (mkApply 7 [js "a"] [js "b"] [])].
Proof. by vm_compute. Qed.

(** And it silences the question whether only one kind is meant. *)
Example stale_selection_unasked :
  let s := run (λ x, x) initial [OpenModal (Some 5) [js "a"] [js "r"] AddTab; Toggle RemoveTab (js "r"); Cancel;
             OpenModal (Some 7) [js "b"] [js "q"] AddTab; Toggle AddTab (js "b")] in
  (selectedRemove (dialog s), removeModels s) = ([js "r"], [js "q"]) ∧
  partialConfirmOpen (dialog (step (λ x, x) s Confirm)) = false ∧ length (sent (step (λ x, x) s Confirm)) = 1%nat.
Proof. by vm_compute. Qed.

(** An answer closes the dialog, whichever channel it shows by then. *)
Example other_channel_closed :
  let s := run (λ x, x) initial [OpenModal (Some 5) [js "a"] [] AddTab; Toggle AddTab (js "a"); Confirm; Cancel;
             OpenModal (Some 7) [js "b"] [] AddTab] in
  (showModal s, channel s) = (true, Some 7) ∧ showModal (step (λ x, x) s (Answered OpApply (Success None))) = false.
Proof. by vm_compute. Qed.

End Updates.
