(* ===== verification/PlanForm.v ===== *)
(** * Forms of subscription plans

    [features/subscriptions/lib/plan-form.ts] and [format.ts] with the drawer
    that uses them (Module [PlanForm]), and as the specification of a save the
    handlers of the server that take it ([controller/subscription.go] and
    [model/subscription.go], Module [PlanServer]): a plan is answered, opened,
    sent and stored again.

    A number of the form is a double, a number of the server an integer of 64
    bits.  The groups that may buy a plan, a JSON text in the database, are the
    list that is read from it.  The trimming of Go is a parameter, as are the
    groups that exist; times and the error texts are left out. *)
From S2P Require Import Prelude JSString JSNumber NumInt JSON.
Local Open Scope Z_scope.

Module PlanForm.

(** ** Data *)

(** [SubscriptionPlan] as the client reads it; what may be missing is an option. *)
Record Plan := mkPlan {
  id : Z;
  title : jsstr;
  subtitle : option jsstr;
  description : option jsstr;
  cover_image_url : option jsstr;
  price_amount : num;
  duration_unit : jsstr;
  duration_value : num;
  custom_seconds : option num;
  quota_reset_period : jsstr;
  quota_reset_custom_seconds : option num;
  enabled : option bool;
  sort_order : num;
  max_purchase_per_user : num;
  stock_total : option num;
  total_amount : num;
  upgrade_group : option jsstr;
  bound_group : option jsstr;
  fallback_group : option jsstr;
  allowed_user_groups : option (list jsstr);
  stripe_price_id : option jsstr;
  creem_product_id : option jsstr;
}.

(** [PlanFormValues], and the payload, which has the same fields. *)
Record Values := mkValues {
  v_title : jsstr;
  v_subtitle : jsstr;
  v_description : jsstr;
  v_cover_image_url : jsstr;
  v_price_amount : num;
  v_duration_unit : jsstr;
  v_duration_value : num;
  v_custom_seconds : num;
  v_quota_reset_period : jsstr;
  v_quota_reset_custom_seconds : num;
  v_enabled : bool;
  v_sort_order : num;
  v_max_purchase_per_user : num;
  v_stock_total : num;
  v_total_amount : num;
  v_upgrade_group : jsstr;
  v_bound_group : jsstr;
  v_fallback_group : jsstr;
  v_allowed_user_groups : list jsstr;
  v_stripe_price_id : jsstr;
  v_creem_product_id : jsstr;
}.

Definition one : num := num_of_Z 1.
Definition minus_one : num := num_of_Z (-1).

Definition PLAN_FORM_DEFAULTS : Values :=
  mkValues [] [] [] [] num_zero (js "month") one num_zero (js "never") num_zero true num_zero num_zero minus_one
    num_zero [] [] [] [] [] [].

(** [x || d] on what may be missing. *)
Definition text_or (x : option jsstr) (d : jsstr) : jsstr := match x with Some ((_ :: _) as x) => x | _ => d end.
Definition number_or (x : option num) (d : num) : num := match x with Some x => num_or x d | None => d end.

Definition planToFormValues (plan : Plan) : Values :=
  mkValues (title plan) (text_or (subtitle plan) []) (text_or (description plan) []) (text_or (cover_image_url plan) [])
    (num_or (price_amount plan) num_zero) (text_or (Some (duration_unit plan)) (js "month"))
    (num_or (duration_value plan) one) (number_or (custom_seconds plan) num_zero)
    (text_or (Some (quota_reset_period plan)) (js "never"))
    (number_or (quota_reset_custom_seconds plan) num_zero)
    (match enabled plan with Some false => false | _ => true end)
    (num_or (sort_order plan) num_zero) (num_or (max_purchase_per_user plan) num_zero)
    (opt_or (stock_total plan) minus_one) (num_or (total_amount plan) num_zero)
    (text_or (upgrade_group plan) []) (text_or (bound_group plan) []) (text_or (fallback_group plan) [])
    (opt_or (allowed_user_groups plan) []) (text_or (stripe_price_id plan) []) (text_or (creem_product_id plan) []).

(** The payload; its currency is always the dollar. *)
Definition formValuesToPlanPayload (v : Values) : Values :=
  mkValues (v_title v) (v_subtitle v) (v_description v) (v_cover_image_url v)
    (num_or (v_price_amount v) num_zero) (v_duration_unit v) (num_or (v_duration_value v) num_zero)
    (num_or (v_custom_seconds v) num_zero) (text_or (Some (v_quota_reset_period v)) (js "never"))
    (if bool_decide (v_quota_reset_period v = js "custom") then num_or (v_quota_reset_custom_seconds v) num_zero else num_zero)
    (v_enabled v) (num_or (v_sort_order v) num_zero) (num_or (v_max_purchase_per_user v) num_zero)
    (v_stock_total v) (num_or (v_total_amount v) num_zero) (v_upgrade_group v) (v_bound_group v) (v_fallback_group v)
    (v_allowed_user_groups v) (v_stripe_price_id v) (v_creem_product_id v).

Definition DURATION_UNITS : list jsstr := map js ["year"; "month"; "day"; "hour"; "custom"]%string.
Definition RESET_PERIODS : list jsstr := map js ["never"; "daily"; "weekly"; "monthly"; "custom"]%string.

(** [getPlanFormSchema]: whether values can be submitted. *)
Definition plan_form_ok (v : Values) : bool :=
  let min x n := num_leb (num_of_Z n) x in
  nonempty (v_title v) && (length (v_description v) <=? 2000)%nat && (length (v_cover_image_url v) <=? 500)%nat
  && min (v_price_amount v) 0 && bool_decide (v_duration_unit v ∈ DURATION_UNITS) && min (v_duration_value v) 1
  && min (v_custom_seconds v) 0 && bool_decide (v_quota_reset_period v ∈ RESET_PERIODS)
  && min (v_quota_reset_custom_seconds v) 0 && negb (num_is_nan (v_sort_order v))
  && min (v_max_purchase_per_user v) 0 && min (v_stock_total v) (-1) && min (v_total_amount v) 0.

(** ** The drawer *)

Definition currentRow_id (row : option Plan) : option Z :=
  match row with Some plan => if id plan =? 0 then None else Some (id plan) | None => None end.

(** What the form opens with. *)
Definition opened (row : option Plan) : Values :=
  match row with Some plan => planToFormValues plan | None => PLAN_FORM_DEFAULTS end.

(** What [onSubmit] sends: an update of a plan or a new one; [None] where the
    schema does not let the form be submitted. *)
Definition submitted (row : option Plan) (v : Values) : option (option Z * Values) :=
  if plan_form_ok v then Some (currentRow_id row, formValuesToPlanPayload v) else None.

(** The inputs whose text is read by [parseFloat]; an empty one holds 0. *)
Definition typed_float (text : jsstr) : num := num_or (parseFloat text) num_zero.

(** What is left of a stock; -1 is no limit. *)
Definition remaining (stockTotal sold : num) : num :=
  if num_ltb stockTotal num_zero then minus_one else
  let rest := num_sub stockTotal sold in
  if num_is_nan rest then rest else if num_ltb num_zero rest then rest else num_zero.

End PlanForm.

(** ** The server *)

Module PlanServer.
Import PlanForm.

(** The columns of a plan. *)
Record Stored := mkStored {
  s_title : jsstr;
  s_subtitle : jsstr;
  s_description : jsstr;
  s_cover_image_url : jsstr;
  s_price_amount : num;
  s_duration_unit : jsstr;
  s_duration_value : Z;
  s_custom_seconds : Z;
  s_enabled : bool;
  s_sort_order : Z;
  s_stripe_price_id : jsstr;
  s_creem_product_id : jsstr;
  s_max_purchase_per_user : Z;
  s_stock_total : Z;
  s_upgrade_group : jsstr;
  s_bound_group : jsstr;
  s_fallback_group : jsstr;
  s_allowed_user_groups : list jsstr;
  s_total_amount : Z;
  s_quota_reset_period : jsstr;
  s_quota_reset_custom_seconds : Z;
}.

Section Server.
Context (TrimSpace : jsstr → jsstr) (groupRatios : list jsstr).

Definition optionalStringPtr (value : jsstr) : option jsstr :=
  match TrimSpace value with [] => None | trimmed => Some trimmed end.

(** The answer for a plan. *)
Definition subscriptionPlanPayloadFromModel (i : Z) (p : Stored) : Plan :=
  mkPlan i (s_title p) (Some (s_subtitle p)) (Some (s_description p)) (Some (s_cover_image_url p)) (s_price_amount p)
    (s_duration_unit p) (num_of_Z (s_duration_value p)) (Some (num_of_Z (s_custom_seconds p)))
    (s_quota_reset_period p) (Some (num_of_Z (s_quota_reset_custom_seconds p))) (Some (s_enabled p))
    (num_of_Z (s_sort_order p)) (num_of_Z (s_max_purchase_per_user p)) (Some (num_of_Z (s_stock_total p)))
    (num_of_Z (s_total_amount p)) (Some (s_upgrade_group p)) (optionalStringPtr (s_bound_group p))
    (optionalStringPtr (s_fallback_group p)) (Some (s_allowed_user_groups p)) (Some (s_stripe_price_id p))
    (Some (s_creem_product_id p)).

(** A JSON number read into an integer: [null], which [NaN] and the infinities
    print as, leaves the zero; a fraction is an error. *)
Definition go_int (x : num) : option Z :=
  if negb (num_is_finite x) then Some 0 else
  z ← num_integer x; if (- 2 ^ 63 <=? z) && (z <? 2 ^ 63) then Some z else None.

Definition SetAllowedUserGroups (groups : list jsstr) : list jsstr := filter_bool (map TrimSpace groups).

(** [ShouldBindJSON] and [ToModel]. *)
Definition ToModel (v : Values) : option Stored :=
  duration ← go_int (v_duration_value v); custom ← go_int (v_custom_seconds v);
  sort ← go_int (v_sort_order v); purchases ← go_int (v_max_purchase_per_user v);
  stock ← go_int (v_stock_total v); total ← go_int (v_total_amount v);
  reset ← go_int (v_quota_reset_custom_seconds v);
  Some (mkStored (v_title v) (v_subtitle v) (v_description v) (TrimSpace (v_cover_image_url v)) (v_price_amount v)
    (v_duration_unit v) duration custom (v_enabled v) sort (v_stripe_price_id v) (v_creem_product_id v) purchases stock
    (v_upgrade_group v) (TrimSpace (v_bound_group v)) (TrimSpace (v_fallback_group v))
    (SetAllowedUserGroups (v_allowed_user_groups v)) total (v_quota_reset_period v) reset).

Definition NormalizeResetPeriod (period : jsstr) : jsstr :=
  let p := TrimSpace period in
  if bool_decide (p ∈ map js ["daily"; "weekly"; "monthly"; "custom"]%string) then p else js "never".

(** The checks and repairs that [AdminUpdateSubscriptionPlan] and
    [AdminCreateSubscriptionPlan] share; [None] is an error. *)
Definition checked_plan (p : Stored) : option Stored :=
  if negb (nonempty (TrimSpace (s_title p))) then None else
  if num_ltb (s_price_amount p) num_zero || num_ltb (num_of_Z 9999) (s_price_amount p) then None else
  let unit := match s_duration_unit p with [] => js "month" | u => u end in
  let duration := if (s_duration_value p <=? 0) && negb (bool_decide (unit = js "custom")) then 1 else s_duration_value p in
  if (s_max_purchase_per_user p <? 0) || (s_total_amount p <? 0) || (s_stock_total p <? -1) then None else
  let upgrade := TrimSpace (s_upgrade_group p) in
  let bound := TrimSpace (s_bound_group p) in
  let fallback := TrimSpace (s_fallback_group p) in
  let exists_or_empty g := negb (nonempty g) || bool_decide (g ∈ groupRatios) in
  if negb (exists_or_empty upgrade && exists_or_empty fallback
           && forallb (λ g, bool_decide (g ∈ groupRatios)) (s_allowed_user_groups p)) then None else
  let period := NormalizeResetPeriod (s_quota_reset_period p) in
  if bool_decide (period = js "custom") && (s_quota_reset_custom_seconds p <=? 0) then None else
  Some (mkStored (s_title p) (s_subtitle p) (s_description p) (s_cover_image_url p) (s_price_amount p) unit duration
    (s_custom_seconds p) (s_enabled p) (s_sort_order p) (s_stripe_price_id p) (s_creem_product_id p)
    (s_max_purchase_per_user p) (s_stock_total p) upgrade bound fallback (s_allowed_user_groups p) (s_total_amount p)
    period (s_quota_reset_custom_seconds p)).

(** The columns after an update, all of which are written. *)
Definition AdminUpdateSubscriptionPlan (v : Values) : option Stored := ToModel v ≫= checked_plan.

(** Whether the end of a subscription can be computed when a plan is sold. *)
Definition calcPlanEndTime_ok (p : Stored) : bool :=
  if (s_duration_value p <=? 0) && negb (bool_decide (s_duration_unit p = js "custom")) then false else
  if bool_decide (s_duration_unit p = js "custom") then 0 <? s_custom_seconds p
  else bool_decide (s_duration_unit p ∈ DURATION_UNITS).

End Server.
End PlanServer.

Module PlanSaving.
Import PlanForm PlanServer.

(** ** A plan that is opened and saved *)

Lemma num_or_int z : small z → num_or (num_of_Z z) num_zero = num_of_Z z.
Proof.
  intros Hz. unfold num_or. destruct (decide (z = 0)) as [->|Hne]; [done|].
  by destruct (num_of_Z_signed z Hz Hne) as (s & p & -> & _).
Qed.

Lemma num_or_positive z d : small z → 0 < z → num_or (num_of_Z z) d = num_of_Z z.
Proof. intros Hz Hp. destruct (num_of_Z_signed z Hz ltac:(lia)) as (s & p & E & _). unfold num_or. by rewrite E. Qed.

Lemma text_or_id x : text_or (Some x) [] = x.
Proof. by destruct x. Qed.

(** An integer that a double holds is read as it was. *)
Lemma go_int_small z : small z → go_int (num_of_Z z) = Some z.
Proof.
  intros Hz. unfold go_int. rewrite num_finite_int, num_integer_int by done. cbn [negb mbind option_bind].
  unfold small in Hz. rewrite (proj2 (Z.leb_le _ _)), (proj2 (Z.ltb_lt _ _)) by lia. done.
Qed.

Section Saving.
Context (TrimSpace : jsstr → jsstr) (groupRatios : list jsstr).

(** A group of a plan: none, or one that exists. *)
Definition group_ok (g : jsstr) : Prop := TrimSpace g = g ∧ (g = [] ∨ g ∈ groupRatios).

(** A plan as the server stores it, of integers that doubles hold. *)
Record plan_held (p : Stored) : Prop := {
  held_title : s_title p ≠ [] ∧ TrimSpace (s_title p) ≠ [];
  held_texts : (length (s_description p) <= 2000)%nat ∧ (length (s_cover_image_url p) <= 500)%nat ∧
    TrimSpace (s_cover_image_url p) = s_cover_image_url p;
  held_price : num_leb (num_of_Z 0) (s_price_amount p) = true ∧ num_or (s_price_amount p) num_zero = s_price_amount p ∧
    num_ltb (s_price_amount p) num_zero = false ∧ num_ltb (num_of_Z 9999) (s_price_amount p) = false;
  held_unit : s_duration_unit p ∈ DURATION_UNITS;
  held_period : s_quota_reset_period p ∈ RESET_PERIODS ∧ TrimSpace (s_quota_reset_period p) = s_quota_reset_period p;
  held_small : Forall small [s_duration_value p; s_custom_seconds p; s_sort_order p; s_max_purchase_per_user p;
    s_stock_total p; s_total_amount p; s_quota_reset_custom_seconds p];
  held_numbers : 1 <= s_duration_value p ∧ 0 <= s_custom_seconds p ∧ 0 <= s_max_purchase_per_user p ∧
    -1 <= s_stock_total p ∧ 0 <= s_total_amount p ∧
    (if bool_decide (s_quota_reset_period p = js "custom") then 1 <= s_quota_reset_custom_seconds p
     else s_quota_reset_custom_seconds p = 0);
  held_groups : group_ok (s_upgrade_group p) ∧ TrimSpace (s_bound_group p) = s_bound_group p ∧ group_ok (s_fallback_group p) ∧
    Forall (λ g, TrimSpace g = g ∧ g ≠ [] ∧ g ∈ groupRatios) (s_allowed_user_groups p);
}.

(** The values of the form, and the payload, for a stored plan. *)
Definition values_of (p : Stored) : Values :=
  mkValues (s_title p) (s_subtitle p) (s_description p) (s_cover_image_url p) (s_price_amount p) (s_duration_unit p)
    (num_of_Z (s_duration_value p)) (num_of_Z (s_custom_seconds p)) (s_quota_reset_period p)
    (num_of_Z (s_quota_reset_custom_seconds p)) (s_enabled p) (num_of_Z (s_sort_order p))
    (num_of_Z (s_max_purchase_per_user p)) (num_of_Z (s_stock_total p)) (num_of_Z (s_total_amount p))
    (s_upgrade_group p) (s_bound_group p) (s_fallback_group p) (s_allowed_user_groups p) (s_stripe_price_id p)
    (s_creem_product_id p).

Lemma text_or_listed x l d : x ∈ map js l → Forall (λ w, js w ≠ []) l → text_or (Some x) d = x.
Proof.
  intros Hx Hl. destruct x; [|done]. apply list_elem_of_fmap in Hx as (w & Hw & Hin).
  rewrite Forall_forall in Hl. by destruct (Hl w Hin).
Qed.

Lemma ptr_text g : TrimSpace g = g → text_or (optionalStringPtr TrimSpace g) [] = g.
Proof. intros H. unfold optionalStringPtr. rewrite H. by destruct g. Qed.

Lemma unit_text p d : plan_held p → text_or (Some (s_duration_unit p)) d = s_duration_unit p.
Proof. intros Hp. eapply text_or_listed; [exact (held_unit p Hp)|]. by repeat constructor. Qed.

Lemma period_text p d : plan_held p → text_or (Some (s_quota_reset_period p)) d = s_quota_reset_period p.
Proof. intros Hp. eapply text_or_listed; [exact (proj1 (held_period p Hp))|]. by repeat constructor. Qed.

Lemma opened_values i p : plan_held p → opened (Some (subscriptionPlanPayloadFromModel TrimSpace i p)) = values_of p.
Proof.
  intros Hp. pose proof (held_small p Hp) as Hs. rewrite !Forall_cons in Hs. destruct Hs as (S1 & S2 & S3 & S4 & S5 & S6 & S7 & _).
  destruct (held_numbers p Hp) as (N1 & _). destruct (held_price p Hp) as (_ & Hprice & _).
  destruct (held_groups p Hp) as ([Hg _] & Hb & [Hf _] & _).
  unfold opened, planToFormValues, subscriptionPlanPayloadFromModel, values_of.
  cbn [id title subtitle description cover_image_url price_amount duration_unit duration_value custom_seconds quota_reset_period
    quota_reset_custom_seconds enabled sort_order max_purchase_per_user stock_total total_amount upgrade_group bound_group
    fallback_group allowed_user_groups stripe_price_id creem_product_id number_or opt_or].
  rewrite !text_or_id, (unit_text p _ Hp), (period_text p _ Hp), Hprice, !num_or_int, (num_or_positive (s_duration_value p))
    by (done || lia). rewrite !ptr_text by done. by destruct (s_enabled p).
Qed.

Lemma payload_values p : plan_held p → formValuesToPlanPayload (values_of p) = values_of p.
Proof.
  intros Hp. pose proof (held_small p Hp) as Hs. rewrite !Forall_cons in Hs. destruct Hs as (S1 & S2 & S3 & S4 & S5 & S6 & S7 & _).
  destruct (held_numbers p Hp) as (_ & _ & _ & _ & _ & Hr). destruct (held_price p Hp) as (_ & Hprice & _).
  unfold formValuesToPlanPayload, values_of.
  cbn [v_title v_subtitle v_description v_cover_image_url v_price_amount v_duration_unit v_duration_value v_custom_seconds
    v_quota_reset_period v_quota_reset_custom_seconds v_enabled v_sort_order v_max_purchase_per_user v_stock_total
    v_total_amount v_upgrade_group v_bound_group v_fallback_group v_allowed_user_groups v_stripe_price_id v_creem_product_id].
  rewrite (period_text p _ Hp), Hprice, !num_or_int by done. f_equal. case_bool_decide; [done|]. by rewrite Hr.
Qed.

Lemma values_ok p : plan_held p → plan_form_ok (values_of p) = true.
Proof.
  intros Hp. pose proof (held_small p Hp) as Hs. rewrite !Forall_cons in Hs. destruct Hs as (S1 & S2 & S3 & S4 & S5 & S6 & S7 & _).
  destruct (held_numbers p Hp) as (N1 & N2 & N3 & N4 & N5 & N6). destruct (held_price p Hp) as (Hprice & _).
  destruct (held_title p Hp) as [Ht _]. destruct (held_texts p Hp) as (Hd & Hc & _).
  unfold plan_form_ok, values_of.
  cbn [v_title v_description v_cover_image_url v_price_amount v_duration_unit v_duration_value v_custom_seconds
    v_quota_reset_period v_quota_reset_custom_seconds v_sort_order v_max_purchase_per_user v_stock_total v_total_amount].
  rewrite !num_leb_int by (done || (split; lia)). rewrite Hprice.
  assert (0 <= s_quota_reset_custom_seconds p) by (case_bool_decide; lia).
  assert (num_is_nan (num_of_Z (s_sort_order p)) = false) as ->.
  { destruct (decide (s_sort_order p = 0)) as [->|Hne]; [done|]. by destruct (num_of_Z_signed _ S3 Hne) as (? & ? & -> & _). }
  rewrite !bool_decide_true by apply Hp. cbn [negb].
  rewrite !andb_true_iff, !Nat.leb_le, !Z.leb_le. split_and!; try done; try lia. by destruct (s_title p).
Qed.

Lemma groups_kept p : plan_held p → SetAllowedUserGroups TrimSpace (s_allowed_user_groups p) = s_allowed_user_groups p.
Proof.
  intros Hp. destruct (held_groups p Hp) as (_ & _ & _ & Hg). unfold SetAllowedUserGroups.
  assert (map TrimSpace (s_allowed_user_groups p) = s_allowed_user_groups p) as ->.
  { rewrite <- (map_id (s_allowed_user_groups p)) at 2. apply map_ext_in. intros g Hin%list_elem_of_In.
    rewrite Forall_forall in Hg. by destruct (Hg g Hin). }
  apply filter_bool_id. eapply Forall_impl; [exact Hg|]. by intros g (_ & ? & _).
Qed.

Lemma model_held p : plan_held p → ToModel TrimSpace (values_of p) = Some p.
Proof.
  intros Hp. pose proof (held_small p Hp) as Hs. rewrite !Forall_cons in Hs. destruct Hs as (S1 & S2 & S3 & S4 & S5 & S6 & S7 & _).
  destruct (held_groups p Hp) as ([Hg _] & Hb & [Hf _] & _). destruct (held_texts p Hp) as (_ & _ & Hc).
  unfold ToModel, values_of.
  cbn [v_title v_subtitle v_description v_cover_image_url v_price_amount v_duration_unit v_duration_value v_custom_seconds
    v_quota_reset_period v_quota_reset_custom_seconds v_enabled v_sort_order v_max_purchase_per_user v_stock_total
    v_total_amount v_upgrade_group v_bound_group v_fallback_group v_allowed_user_groups v_stripe_price_id v_creem_product_id].
  rewrite !go_int_small by done. cbn [mbind option_bind]. rewrite Hc, Hb, Hf, groups_kept by done. by destruct p.
Qed.

Lemma checked_held p : plan_held p → checked_plan TrimSpace groupRatios p = Some p.
Proof.
  intros Hp. destruct (held_numbers p Hp) as (N1 & N2 & N3 & N4 & N5 & N6). destruct (held_title p Hp) as [_ Ht].
  destruct (held_price p Hp) as (_ & _ & P1 & P2). destruct (held_period p Hp) as [Hper Htp].
  destruct (held_groups p Hp) as ([Hg Hge] & Hb & [Hf Hfe] & Ha).
  unfold checked_plan. assert (nonempty (TrimSpace (s_title p)) = true) as -> by (destruct (TrimSpace (s_title p)); [by destruct Ht|done]).
  rewrite P1, P2. cbn [negb orb].
  assert (match s_duration_unit p with [] => js "month" | u => u end = s_duration_unit p) as ->.
  { pose proof (unit_text p (js "month") Hp) as Hu. by destruct (s_duration_unit p). }
  assert ((s_duration_value p <=? 0) = false) as -> by lia. cbn [andb].
  assert ((s_max_purchase_per_user p <? 0) || (s_total_amount p <? 0) || (s_stock_total p <? -1) = false) as -> by lia.
  rewrite Hg, Hb, Hf.
  assert (∀ g, g = [] ∨ g ∈ groupRatios → negb (nonempty g) || bool_decide (g ∈ groupRatios) = true) as Hex.
  { intros g [->|Hin]; [done|]. by rewrite bool_decide_true, orb_true_r. }
  rewrite (Hex _ Hge), (Hex _ Hfe). cbn [andb].
  assert (forallb (λ g, bool_decide (g ∈ groupRatios)) (s_allowed_user_groups p) = true) as ->.
  { apply forallb_forall. intros g Hin%list_elem_of_In. rewrite Forall_forall in Ha. apply bool_decide_true, (Ha g Hin). }
  cbn [negb]. assert (NormalizeResetPeriod TrimSpace (s_quota_reset_period p) = s_quota_reset_period p) as ->.
  { unfold NormalizeResetPeriod. rewrite Htp. unfold RESET_PERIODS in Hper. cbn [map] in *.
    apply elem_of_cons in Hper as [->|Hin]; [done|]. by rewrite bool_decide_true. }
  assert (bool_decide (s_quota_reset_period p = js "custom") && (s_quota_reset_custom_seconds p <=? 0) = false) as ->.
  { case_bool_decide; [|done]. cbn [andb]. lia. }
  by destruct p.
Qed.


End Saving.
Definition sample_plan : Stored :=
  mkStored (js "Pro") [] [] (js "https://a/b.png") (Number (js "9.9")) (js "month") 1 0 true 3 [] [] 0 (-1)
    (js "vip") [] [] [js "vip"] 500000 (js "daily") 0.

Lemma sample_held : plan_held trim [js "vip"] sample_plan.
Proof.
  split.
  - by split; vm_compute.
  - split_and!; [vm_compute; lia..|by vm_compute].
  - by split_and!; vm_compute.
  - apply (bool_decide_unpack _). by vm_compute.
  - split; [apply (bool_decide_unpack _)|]; by vm_compute.
  - repeat constructor; by vm_compute.
  - split_and!; by vm_compute.
  - split; [split; [by vm_compute|right; by left]|]. split; [by vm_compute|].
    split; [split; [by vm_compute|by left]|]. constructor; [|constructor]. split; [by vm_compute|split; [discriminate|by left]].
Qed.


(** ** Where the form and the server disagree *)

(** A plan whose image has a long address, which the server stores, cannot be
    saved any more. *)
Lemma long_cover_blocked row v : (500 < length (v_cover_image_url v))%nat → submitted row v = None.
Proof.
  intros H. unfold submitted, plan_form_ok. rewrite (proj2 (Nat.leb_gt _ _) H).
  by rewrite andb_false_r.
Qed.

Definition with_numbers (unit : jsstr) (duration custom total : num) : Values :=
  mkValues (js "Pro") [] [] [] num_zero unit duration custom (js "never") num_zero true num_zero num_zero minus_one
    total [] [] [] [] [] [].

(** The total quota is read as a decimal number: a fraction passes the form and
    is an error of the server, which wants an integer. *)
Example fraction_refused :
  let v := with_numbers (js "month") one num_zero (typed_float (js "1.5")) in
  is_Some (submitted None v) ∧ AdminUpdateSubscriptionPlan trim [] (formValuesToPlanPayload v) = None.
Proof. split; [|by vm_compute]. by eexists. Qed.

(** A plan of zero custom seconds is accepted by both, and cannot be sold. *)
Example zero_seconds_accepted :
  let v := with_numbers (js "custom") one num_zero num_zero in
  is_Some (submitted None v) ∧
  calcPlanEndTime_ok <$> AdminUpdateSubscriptionPlan trim [] (formValuesToPlanPayload v) = Some false.
Proof. split; [|by vm_compute]. by eexists. Qed.

(** A duration that was emptied before the unit was set to seconds is no longer
    shown, and keeps the form from being submitted. *)
Example hidden_duration_blocks :
  submitted None (with_numbers (js "custom") num_zero (num_of_Z 3600) num_zero) = None.
Proof. by vm_compute. Qed.

End PlanSaving.
