(* ===== verification/Login.v ===== *)
(** * Signing in

    [features/auth] without its pages for registration and passwords: Module
    [Codes] checks and formats the codes of the second factor
    ([lib/validation.ts]); Module [LoginServer] is the part of the server that
    takes them ([common/totp.go], [model/twofa.go], [service/auth_flow.go],
    [controller/twofa.go]), the specification; Module [Login] is one browser
    tab over the sign-in page, the page of the second factor and the requests
    under way ([api.ts], [user-auth-form.tsx], [otp-form.tsx],
    [use-auth-redirect.ts], [routes/(auth)/sign-in.tsx]); Module [Callback] is
    the way back from a provider of OAuth ([routes/oauth/$provider.tsx],
    [routes/(auth)/oauth.tsx], [lib/oauth.ts]). *)
From S2P Require Import Prelude JSString JSNumber JSON Regex Base64 ChatLinks DashboardAuth SecureVerification.
Local Open Scope Z_scope.

Module Codes.
Local Open Scope nat_scope.
Local Open Scope re_scope.

Definition OTP_LENGTH : nat := 6.
Definition BACKUP_CODE_LENGTH : nat := 9.

Definition HYPHEN : jschar := 45%N.

(** [r] after [n] characters of a class *)
Fixpoint times (n : nat) (q : jschar → bool) (r : regex) : regex :=
  match n with O => r | S n => RChar q · times n q r end.

(** [A-Z0-9], and the same with the flag i: without the flag u it takes no
    character beyond ASCII. *)
Definition is_code_char (c : jschar) : bool := is_upper c || is_digit c.
Definition is_code_char_i (c : jschar) : bool := is_upper c || is_lower c || is_digit c.

Definition OTP_REGEX : regex := RStart · times 6 is_digit REnd.
Definition BACKUP_CODE_REGEX : regex :=
  RStart · times 4 is_code_char_i (RChar (λ c, c =? HYPHEN)%N · times 4 is_code_char_i REnd).

Definition isValidOTP (code : jsstr) : bool := re_test OTP_REGEX code.
Definition isValidBackupCode (code : jsstr) : bool := re_test BACKUP_CODE_REGEX code.

(** What [toUpperCase] makes of a character, without what is neither one of
    A-Z nor a digit.  Beyond ASCII these are the characters the upper case of
    which holds such a letter. *)
Definition upper_letters (c : jschar) : jsstr :=
  if is_code_char c then [c]
  else if is_lower c then [(c - 32)%N]
  else match c with
  | 223 => js "SS"     (* sharp s *)
  | 305 => js "I"      (* dotless i *)
  | 329 => js "N"
  | 383 => js "S"      (* long s *)
  | 496 => js "J"
  | 7830 => js "H" | 7831 => js "T" | 7832 => js "W" | 7833 => js "Y" | 7834 => js "A"
  | 64256 => js "FF" | 64257 => js "FI" | 64258 => js "FL" | 64259 => js "FFI" | 64260 => js "FFL"
  | 64261 => js "ST" | 64262 => js "ST"
  | _ => []
  end%N.

(** [value.toUpperCase().replace(/[^A-Z0-9]/g, '')] *)
Definition letters (value : jsstr) : jsstr := concat (map upper_letters value).

Definition formatBackupCode (value : jsstr) : jsstr :=
  let cleaned := letters value in
  let cleaned := if 8 <? length cleaned then slice 0 8 cleaned else cleaned in
  if 4 <? length cleaned then slice 0 4 cleaned ++ [HYPHEN] ++ drop 4 cleaned else cleaned.

Definition cleanBackupCode (code : jsstr) : jsstr := List.filter (λ c, negb (c =? HYPHEN)%N) code.

(** A code as the server gives it out. *)
Definition issued (code : jsstr) : Prop :=
  ∃ a b, code = a ++ HYPHEN :: b ∧ length a = 4 ∧ length b = 4 ∧
    Forall (λ c, is_code_char c = true) (a ++ b).

(** ** What the checks accept *)

Lemma in_times n q r p s m x :
  x ∈ matches (times n q r) (mkSt p s m) ↔
  ∃ w t, s = w ++ t ∧ length w = n ∧ Forall (λ c, q c = true) w ∧ x ∈ matches r (mkSt (reverse w ++ p) t m).
Proof.
  revert p s. induction n as [|n IH]; intros p s; cbn [times].
  - split; [intros H; exists [], s; by rewrite reverse_nil|].
    by intros ([|] & t & -> & Hn & _ & H); [rewrite reverse_nil in H|].
  - rewrite elem_of_seq. split.
    + intros (y & (c & t & -> & Hc & ->)%in_char & (w & t' & -> & Hn & Hw & H)%IH).
      exists (c :: w), t'. split_and!; [done|simpl; lia|by constructor|].
      by rewrite reverse_cons, <- app_assoc.
    + intros ([|c w] & t & -> & Hn & Hw & H); [done|]. apply Forall_cons in Hw as [Hc Hw].
      exists (mkSt (c :: p) (w ++ t) m). split; [apply in_char; by exists c, (w ++ t)|].
      apply IH. exists w, t. split_and!; [done|simpl in Hn; lia|done|].
      by rewrite reverse_cons, <- app_assoc in H.
Qed.

Lemma test_start r s : re_test (RStart · r) s = true ↔ ∃ x, x ∈ matches r (mkSt [] s ∅).
Proof.
  rewrite re_test_anchored, matches_start; [done|]. intros p t Hp. cbn. by destruct p.
Qed.

Lemma isValidOTP_spec code :
  isValidOTP code = true ↔ length code = 6 ∧ Forall (λ c, is_digit c = true) code.
Proof.
  unfold isValidOTP, OTP_REGEX. rewrite test_start. split.
  - intros (x & (w & t & -> & Hn & Hw & [-> _]%in_end)%in_times). by rewrite app_nil_r.
  - intros [Hn Hw]. eexists. apply in_times. exists code, []. rewrite app_nil_r.
    split_and!; [done..|]. by apply in_end.
Qed.

Lemma isValidBackupCode_spec code :
  isValidBackupCode code = true ↔
  ∃ a b, code = a ++ HYPHEN :: b ∧ length a = 4 ∧ length b = 4 ∧
    Forall (λ c, is_code_char_i c = true) (a ++ b).
Proof.
  unfold isValidBackupCode, BACKUP_CODE_REGEX. rewrite test_start. setoid_rewrite Forall_app. split.
  - intros (x & (a & t & -> & Ha & Fa & H)%in_times).
    apply elem_of_seq in H as (y & (c & t' & -> & Hc%N.eqb_eq & ->)%in_char & H). subst c.
    apply in_times in H as (b & t & -> & Hb & Fb & [-> _]%in_end). exists a, b. by rewrite app_nil_r.
  - intros (a & b & -> & Ha & Hb & Fa & Fb). eexists. apply in_times. exists a, (HYPHEN :: b).
    split_and!; [done..|]. apply elem_of_seq. eexists. split; [apply in_char; by exists HYPHEN, b|].
    apply in_times. exists b, []. rewrite app_nil_r. split_and!; [done..|]. by apply in_end.
Qed.

(** ** What is typed and what is sent *)

Lemma letters_app v w : letters (v ++ w) = letters v ++ letters w.
Proof. unfold letters. by rewrite map_app, concat_app. Qed.

Lemma letters_id w : Forall (λ c, is_code_char c = true) w → letters w = w.
Proof.
  induction 1 as [|c w Hc _ IH]; [done|]. change (letters (c :: w)) with (upper_letters c ++ letters w).
  unfold upper_letters. by rewrite Hc, IH.
Qed.

Lemma letters_hyphen w : letters (HYPHEN :: w) = letters w.
Proof. done. Qed.

Lemma upper_letters_chars c : Forall (λ c, is_code_char c = true) (upper_letters c).
Proof.
  unfold upper_letters. destruct (is_code_char c) eqn:E; [by repeat constructor|].
  destruct (is_lower c) eqn:El.
  - apply Forall_singleton. unfold is_code_char, is_upper, is_digit, is_lower in *. lia.
  - repeat case_match; repeat constructor.
Qed.

Lemma letters_chars v : Forall (λ c, is_code_char c = true) (letters v).
Proof. apply Forall_concat, Forall_map, Forall_true. intros c. apply upper_letters_chars. Qed.

(** The first eight letters, with a hyphen in front of the fifth. *)
Definition hyphenated (w : jsstr) : jsstr := if 4 <? length w then take 4 w ++ HYPHEN :: drop 4 w else w.

Lemma formatBackupCode_eq v : formatBackupCode v = hyphenated (take 8 (letters v)).
Proof.
  unfold formatBackupCode. replace (if 8 <? length (letters v) then slice 0 8 (letters v) else letters v) with (take 8 (letters v)).
  { unfold hyphenated, slice. by rewrite drop_0. }
  unfold slice. rewrite drop_0. destruct (Nat.ltb_spec 8 (length (letters v))); [done|]. by rewrite take_ge.
Qed.

Lemma letters_hyphenated w : Forall (λ c, is_code_char c = true) w → letters (hyphenated w) = w.
Proof.
  intros Hw. unfold hyphenated. destruct (4 <? length w); [|by apply letters_id].
  rewrite letters_app, letters_hyphen, !letters_id by (apply Forall_take || apply Forall_drop; done).
  apply take_drop.
Qed.

Lemma letters_format v : letters (formatBackupCode v) = take 8 (letters v).
Proof. rewrite formatBackupCode_eq. apply letters_hyphenated, Forall_take, letters_chars. Qed.

(** Typing goes on where it was: what is added to a formatted text is
    formatted as if it had been added to the text itself, so that a code that
    is typed one character at a time is the code that is pasted. *)
Lemma format_step v w : formatBackupCode (formatBackupCode v ++ w) = formatBackupCode (v ++ w).
Proof.
  rewrite !formatBackupCode_eq, !letters_app, <- formatBackupCode_eq, letters_format. f_equal.
  destruct (decide (8 ≤ length (letters v))) as [H|H].
  - rewrite !take_app_le by (rewrite ?length_take; lia). by rewrite take_take, Nat.min_id.
  - by rewrite (take_ge (letters v)) by lia.
Qed.

Lemma format_length v : length (formatBackupCode v) ≤ BACKUP_CODE_LENGTH.
Proof.
  rewrite formatBackupCode_eq. unfold hyphenated. pose proof (length_take_le (letters v) 8).
  destruct (Nat.ltb_spec 4 (length (take 8 (letters v)))); [|unfold BACKUP_CODE_LENGTH].
  - rewrite length_app, length_cons, length_take, length_drop, length_take. unfold BACKUP_CODE_LENGTH. lia.
  - rewrite length_take in *. lia.
Qed.

Lemma no_hyphen w : Forall (λ c, is_code_char_i c = true) w → cleanBackupCode w = w.
Proof.
  induction 1 as [|c w Hc _ IH]; [done|]. unfold cleanBackupCode in *. cbn [List.filter].
  destruct (N.eqb_spec c HYPHEN) as [->|]; [by vm_compute in Hc|]. cbn [negb]. by rewrite IH.
Qed.

Lemma code_char_i c : is_code_char c = true → is_code_char_i c = true.
Proof. unfold is_code_char, is_code_char_i. destruct (is_upper c), (is_lower c), (is_digit c); done. Qed.

Lemma cleaned_parts a b : Forall (λ c, is_code_char_i c = true) (a ++ b) → cleanBackupCode (a ++ HYPHEN :: b) = a ++ b.
Proof.
  intros [Ha Hb]%Forall_app. unfold cleanBackupCode. rewrite List.filter_app. cbn [List.filter].
  change (negb (HYPHEN =? HYPHEN)%N) with false. fold (cleanBackupCode a) (cleanBackupCode b).
  by rewrite !no_hyphen.
Qed.

(** What is sent as a backup code that passed the check: eight characters. *)
Lemma cleaned_valid code :
  isValidBackupCode code = true →
  length (cleanBackupCode code) = 8 ∧ Forall (λ c, is_code_char_i c = true) (cleanBackupCode code).
Proof.
  intros (a & b & -> & Ha & Hb & F)%isValidBackupCode_spec. rewrite cleaned_parts by done.
  rewrite length_app. split; [lia|done].
Qed.

(** A code that the server gave out is recognised however it is typed: in
    small letters, with spaces or other marks, with or without the hyphen. *)
Lemma issued_typed code v :
  issued code → letters v = letters code →
  formatBackupCode v = code ∧ isValidBackupCode code = true ∧ hyphenated (cleanBackupCode code) = code.
Proof.
  intros (a & b & -> & Ha & Hb & F) E.
  assert (letters (a ++ HYPHEN :: b) = a ++ b) as El.
  { apply Forall_app in F as [Fa Fb]. by rewrite letters_app, letters_hyphen, !letters_id. }
  assert (hyphenated (a ++ b) = a ++ HYPHEN :: b) as Eh.
  { unfold hyphenated. rewrite length_app, Ha, Hb. simpl. by rewrite take_app_length', drop_app_length'. }
  rewrite formatBackupCode_eq, E, El, take_ge, Eh by (rewrite length_app; lia). split_and!; [done| |].
  - apply isValidBackupCode_spec. exists a, b. split_and!; [done..|].
    eapply Forall_impl; [exact F|]. intros c. apply code_char_i.
  - rewrite cleaned_parts; [done|]. eapply Forall_impl; [exact F|]. intros c. apply code_char_i.
Qed.

Example typed_code : map formatBackupCode [js "cawd oqdv"; js "cawd"; js "CAWD-"; js "cawd-o"; js "cawdoqdvx"] =
  [js "CAWD-OQDV"; js "CAWD"; js "CAWD"; js "CAWD-O"; js "CAWD-OQDV"].
Proof. reflexivity. Qed.

(** The sharp s is two letters. *)
Example typed_sharp_s : formatBackupCode [223; 97]%N = js "SSA".
Proof. reflexivity. Qed.

End Codes.

(** ** The server

    [now] is in seconds.  The database answers, the tokens of flows are
    unguessable and without blanks, and the flows are those of a login by
    password: of another purpose none is found, as their tokens differ. *)
Module LoginServer.
Import Codes.

Definition AuthFlowTTL : Z := 600.
Definition MaxFailAttempts : Z := 5.
Definition LockoutDuration : Z := 300.

Record Flow := mkFlow { f_user : Z; consumed : bool; expires : Z }.

(** [TwoFA] with the rows of its backup codes: the hash, and whether it is used. *)
Record TwoFA {H : Type} := mkTwoFA {
  secret : jsstr;
  isEnabled : bool;
  failedAttempts : Z;
  lockedUntil : option Z;
  backupCodes : list (H * bool);
}.
Arguments TwoFA : clear implicits.
Arguments mkTwoFA {H}.

Record Server {H : Type} := mkServer { flows : gmap jsstr Flow; twofa : gmap Z (TwoFA H) }.
Arguments Server : clear implicits.
Arguments mkServer {H}.

(** [strings.ToUpper] of a text in ASCII, [strings.ReplaceAll] of a character. *)
Definition go_upper (s : jsstr) : jsstr := map (λ c, if is_lower c then (c - 32)%N else c) s.
Definition without (d : jschar) (s : jsstr) : jsstr := List.filter (λ c, negb (c =? d)%N) s.

Definition ValidateBackupCode_format (code : jsstr) : bool :=
  let cleanCode := go_upper (without HYPHEN code) in
  (length cleanCode =? 8)%nat && forallb is_code_char cleanCode.

Definition NormalizeBackupCode (code : jsstr) : jsstr :=
  let cleanCode := go_upper (without HYPHEN code) in
  if (length cleanCode =? 8)%nat then take 4 cleanCode ++ HYPHEN :: drop 4 cleanCode else code.

(** [strconv.Atoi] takes a sign. *)
Definition atoi_ok (s : jsstr) : bool :=
  let digits := match s with c :: t => if (c =? 43)%N || (c =? 45)%N then t else s | [] => [] end in
  nonempty digits && forallb is_digit digits.

Definition ValidateNumericCode (code : jsstr) : option jsstr :=
  let code := without 32%N code in
  if negb (length code =? 6)%nat then None else if atoi_ok code then Some code else None.

Inductive Refusal := BadRequest | FlowOver | NoUser | NoTwoFA | AccountLocked | BadFormat | BadCode | NoSession.

Section Server.
Context {H : Type}.
(** bcrypt, the one-time passwords of a secret, the users with what a login
    answers for them, if it is not refused, and the texts of the errors. *)
Context (checks : jsstr → H → bool) (totp_Validate : jsstr → jsstr → Z → bool).
Context (user_exists : Z → bool) (CreateLoginSession : Z → option (obj json)).
Context (text : Refusal → jsstr).

Implicit Types (t : TwoFA H) (srv : Server H).

Definition IsLocked (now : Z) t : bool := match lockedUntil t with Some u => now <? u | None => false end.

Definition IncrementFailedAttempts (now : Z) t : TwoFA H :=
  let n := failedAttempts t + 1 in
  mkTwoFA (secret t) (isEnabled t) n (if MaxFailAttempts <=? n then Some (now + LockoutDuration) else lockedUntil t)
    (backupCodes t).

Definition usage_reset t : TwoFA H := mkTwoFA (secret t) (isEnabled t) 0 None (backupCodes t).

Definition ValidateTOTPCode (now : Z) (secret code : jsstr) : bool :=
  let cleanCode := without 32%N code in
  (length cleanCode =? 6)%nat && totp_Validate secret cleanCode now.

Definition ValidateTOTPAndUpdateUsage (now : Z) (code : jsstr) t : TwoFA H * bool :=
  if IsLocked now t then (t, false)
  else if ValidateTOTPCode now (secret t) code then (usage_reset t, true)
  else (IncrementFailedAttempts now t, false).

(** The first row that is not used and fits is used up. *)
Fixpoint use_code (code : jsstr) (rows : list (H * bool)) : option (list (H * bool)) :=
  match rows with
  | [] => None
  | (h, used) :: rows =>
      if negb used && checks code h then Some ((h, true) :: rows) else ((h, used) ::.) <$> use_code code rows
  end.

Definition set_rows (rows : list (H * bool)) t : TwoFA H :=
  mkTwoFA (secret t) (isEnabled t) (failedAttempts t) (lockedUntil t) rows.

(** A refusal, or whether the code was right. *)
Definition ValidateBackupCodeAndUpdateUsage (now : Z) (code : jsstr) t : TwoFA H * (Refusal + bool) :=
  if IsLocked now t then (t, inl AccountLocked)
  else if negb (ValidateBackupCode_format code) then (t, inl BadFormat)
  else match use_code (NormalizeBackupCode code) (backupCodes t) with
       | Some rows => (usage_reset (set_rows rows t), inr true)
       | None => (IncrementFailedAttempts now t, inr false)
       end.

(** Both ways to check the second factor, in their order. *)
Definition second_factor (now : Z) (code : jsstr) t : TwoFA H * option Refusal :=
  let '(t, isValidTOTP) := match ValidateNumericCode code with
                           | Some cleanCode => ValidateTOTPAndUpdateUsage now cleanCode t
                           | None => (t, false)
                           end in
  if isValidTOTP then (t, None) else
  match ValidateBackupCodeAndUpdateUsage now code t with
  | (t, inl r) => (t, Some r)
  | (t, inr true) => (t, None)
  | (t, inr false) => (t, Some BadCode)
  end.

Definition refuse (r : Refusal) : obj json := [(js "success", JBool false); (js "message", JStr (text r))].
Definition accept (data : obj json) : obj json :=
  [(js "message", JStr []); (js "success", JBool true); (js "data", JObj data)].

Definition InspectAuthFlow (now : Z) (token : jsstr) srv : option Flow :=
  match flows srv !! token with
  | Some f => if consumed f || negb (now <? expires f) then None else Some f
  | None => None
  end.

Definition ConsumeAuthFlow (token : jsstr) (f : Flow) srv : Server H :=
  mkServer (<[token := mkFlow (f_user f) true (expires f)]> (flows srv)) (twofa srv).

Definition set_twofa (u : Z) t srv : Server H := mkServer (flows srv) (<[u := t]> (twofa srv)).

Definition Verify2FALogin (now : Z) (code token : jsstr) srv : Server H * obj json :=
  if negb (nonempty code && nonempty token) then (srv, refuse BadRequest) else
  match InspectAuthFlow now token srv with
  | None => (srv, refuse FlowOver)
  | Some f =>
      let u := f_user f in
      if negb (user_exists u) then (srv, refuse NoUser) else
      match twofa srv !! u with
      | None => (srv, refuse NoTwoFA)
      | Some t =>
          if negb (isEnabled t) then (srv, refuse NoTwoFA) else
          match second_factor now code t with
          | (t, Some r) => (set_twofa u t srv, refuse r)
          | (t, None) =>
              let srv := ConsumeAuthFlow token f (set_twofa u t srv) in
              match CreateLoginSession u with
              | Some data => (srv, accept data)
              | None => (srv, refuse NoSession)
              end
          end
      end
  end.

(** The password of a user with a second factor was right; [token] is fresh. *)
Definition Login (now : Z) (u : Z) (token : jsstr) srv : Server H * obj json :=
  (mkServer (<[token := mkFlow u false (now + AuthFlowTTL)]> (flows srv)) (twofa srv),
   accept [(js "require_2fa", JBool true); (js "flow_token", JStr token)]).

(** ** Codes of the client *)

Lemma go_upper_id w : Forall (λ c, is_code_char c = true) w → go_upper w = w.
Proof.
  induction 1 as [|c w Hc _ IH]; [done|]. cbn [go_upper map]. fold (go_upper w). rewrite IH.
  destruct (is_lower c) eqn:E; [|done]. unfold is_code_char, is_upper, is_lower, is_digit in *. lia.
Qed.

(** A code that was given out arrives as it was, without its hyphen. *)
Lemma issued_arrives code :
  issued code →
  ValidateBackupCode_format (cleanBackupCode code) = true ∧
  NormalizeBackupCode (cleanBackupCode code) = code ∧
  ValidateNumericCode (cleanBackupCode code) = None ∧ cleanBackupCode code ≠ [].
Proof.
  intros (a & b & -> & Ha & Hb & F).
  assert (Forall (λ c, is_code_char_i c = true) (a ++ b)) as Fi
    by (eapply Forall_impl; [exact F|]; intros c; apply code_char_i).
  rewrite cleaned_parts by done.
  assert (without HYPHEN (a ++ b) = a ++ b) as Ew by (change (without HYPHEN) with cleanBackupCode; by apply no_hyphen).
  assert (length (a ++ b) = 8%nat) as Hl by (rewrite length_app; lia).
  assert (∀ w, Forall (λ c, is_code_char c = true) w → without 32%N w = w) as Hs.
  { induction 1 as [|c w Hc _ IH]; [done|]. unfold without in *. cbn [List.filter].
    destruct (N.eqb_spec c 32) as [->|]; [by vm_compute in Hc|]. cbn [negb]. by rewrite IH. }
  unfold ValidateBackupCode_format, NormalizeBackupCode, ValidateNumericCode.
  rewrite Ew, go_upper_id, Hs, Hl by done. cbn [Nat.eqb negb andb]. split_and!; [by apply forallb_Forall| |done|].
  - by rewrite take_app_length', drop_app_length' by done.
  - by intros E%(f_equal length); rewrite Hl in E.
Qed.

(** The row that is used up. *)
Lemma use_code_spec code rows h :
  (h, false) ∈ rows → checks code h = true →
  ∃ i h', rows !! i = Some (h', false) ∧ checks code h' = true ∧ use_code code rows = Some (<[i := (h', true)]> rows).
Proof.
  induction rows as [|[h0 used] rows IH]; [by intros ?%not_elem_of_nil|]. intros Hin Hc. cbn [use_code].
  destruct (negb used && checks code h0) eqn:E.
  - apply andb_true_iff in E as [Eu E]. destruct used; [done|]. by exists 0%nat, h0.
  - apply elem_of_cons in Hin as [[= -> <-]|Hin]; [by rewrite Hc in E|].
    destruct (IH Hin Hc) as (i & h' & Hi & Hc' & ->). exists (S i), h'. by split_and!.
Qed.

(** The server would take a code with this token: the flow is open, its user
    has the second factor, is not locked out and may sign in, and one of the
    rows that are not used fits. *)
Record accepts_code (now : Z) (code token : jsstr) (f : Flow) (t : TwoFA H) (data : obj json) srv : Prop := {
  ac_issued : issued code;
  ac_token : token ≠ [];
  ac_flow : flows srv !! token = Some f;
  ac_open : consumed f = false;
  ac_time : now < expires f;
  ac_user : user_exists (f_user f) = true;
  ac_twofa : twofa srv !! f_user f = Some t;
  ac_enabled : isEnabled t = true;
  ac_unlocked : IsLocked now t = false;
  ac_row : ∃ h, (h, false) ∈ backupCodes t ∧ checks code h = true;
  ac_session : CreateLoginSession (f_user f) = Some data;
}.

(** With a backup code that is right, the user of the flow is signed in; the
    flow and one row are used up. *)
Lemma backup_code_accepted now code token f t data srv :
  accepts_code now code token f t data srv →
  ∃ i h', backupCodes t !! i = Some (h', false) ∧ checks code h' = true ∧
    Verify2FALogin now (cleanBackupCode code) token srv =
      (ConsumeAuthFlow token f (set_twofa (f_user f) (usage_reset (set_rows (<[i := (h', true)]> (backupCodes t)) t)) srv),
       accept data).
Proof.
  intros [(Hf & Hn & Hv & Hne)%issued_arrives Ht Hflow Hcons Hexp Hu Htw Hen Hlock (h & Hin & Hc) Hs].
  destruct (use_code_spec _ _ _ Hin Hc) as (i & h' & Hi & Hc' & Huse). exists i, h'. split_and!; [done..|].
  assert (InspectAuthFlow now token srv = Some f) as Hins.
  { unfold InspectAuthFlow. rewrite Hflow, Hcons. by apply Z.ltb_lt in Hexp as ->. }
  assert (second_factor now (cleanBackupCode code) t = (usage_reset (set_rows (<[i := (h', true)]> (backupCodes t)) t), None)) as Hsf.
  { unfold second_factor, ValidateBackupCodeAndUpdateUsage. by rewrite Hv, Hlock, Hf, Hn, Huse. }
  unfold Verify2FALogin. replace (nonempty (cleanBackupCode code) && nonempty token) with true
    by (by destruct (cleanBackupCode code), token).
  cbn [negb]. rewrite Hins. cbv zeta. by rewrite Hu, Htw, Hen, Hsf, Hs.
Qed.

(** An answer that refuses the code leaves the flow as it was: the same token
    can be tried again. *)
Lemma refused_keeps_flow now code token srv :
  (∀ u, CreateLoginSession u ≠ None) →
  obj_get (js "success") (Verify2FALogin now code token srv).2 = Some (JBool false) →
  flows (Verify2FALogin now code token srv).1 = flows srv.
Proof.
  intros Hs. unfold Verify2FALogin. repeat case_match; try done. by destruct (Hs (f_user f)).
Qed.

End Server.
End LoginServer.

(** ** One tab *)

Module Login.
Import Codes.

Abbreviation prop := Verify.prop.
Abbreviation truthy := Verify.truthy.

Inductive Toast := TError (message : jsstr) | TInfo (message : jsstr) | TSuccess (message : jsstr).

(** What a request ends with: its body, or the message of an error. *)
Inductive Answer := Body (o : obj json) | Failed (message : jsstr).

Definition data_of (o : obj json) : option json := obj_get (js "data") o.
Definition success (o : obj json) : bool := truthy (obj_get (js "success") o).
Definition message_or (o : obj json) (text : string) : jsstr := Verify.message_or (JObj o) text.

(** *** The steps of a login with a passkey *)

Inductive Asked :=
  | Got (credential : option (Passkey.Credential Passkey.Assertion))
  | NotAllowedError
  | OtherError (message : jsstr).

Inductive PasskeyEnd := Finished (data : json) | Ended (toast : Toast).

(** [prepare_failed] and [build_failed] are the messages of the errors of
    [lib/passkey.ts]. *)
Definition passkeyLogin (begin_ : Answer) (get : obj Passkey.cred → Asked) (finish : json → json → Answer)
    (prepare_failed build_failed : jsstr) : PasskeyEnd :=
  match begin_ with
  | Failed message => Ended (TError message)
  | Body begin_ =>
      if negb (success begin_) then Ended (TError (message_or begin_ "Failed to start Passkey login")) else
      let data := data_of begin_ in
      match Passkey.prepareCredentialRequestOptions (Passkey.or_else (prop data "options") data) with
      | None => Ended (TError prepare_failed)
      | Some publicKey =>
          match get publicKey with
          | NotAllowedError => Ended (TInfo (js "Passkey login was cancelled or timed out"))
          | OtherError message => Ended (TError message)
          | Got None => Ended (TInfo (js "Passkey login was cancelled"))
          | Got (Some credential) =>
              match Passkey.buildAssertionResult (Some credential) with
              | None => Ended (TError build_failed)
              | Some assertion =>
                  if negb (json_truthy assertion) then Ended (TError (js "Invalid Passkey response")) else
                  match prop data "flow_token" with
                  | Some flowToken =>
                      if negb (json_truthy flowToken) then Ended (TError (js "Invalid Passkey login flow")) else
                      match finish assertion flowToken with
                      | Failed message => Ended (TError message)
                      | Body finish =>
                          if negb (success finish)
                          then Ended (TError (message_or finish "Failed to complete Passkey login"))
                          else match data_of finish with
                               | Some data =>
                                   if json_truthy data then Finished data
                                   else Ended (TError (js "Missing user data from Passkey login response"))
                               | None => Ended (TError (js "Missing user data from Passkey login response"))
                               end
                      end
                  | None => Ended (TError (js "Invalid Passkey login flow"))
                  end
              end
          end
      end
  end.

(** *** The state *)

(** The page that is shown: signing in, on the way to a page, the second
    factor, or any other page. *)
Inductive Page := SignIn (redirect : option jsstr) | Otp | Elsewhere (to : jsstr).

Record SignInForm := mkSignIn {
  agreedToLegal : bool; isLoading : bool; turnstileToken : jsstr;
  passkeySupported : bool; isPasskeyLoading : bool;
  isWeChatDialogOpen : bool; wechatCode : jsstr; isWeChatSubmitting : bool;
}.

Record OtpForm := mkOtp { otpLoading : bool; useBackupCode : bool; otp : jsstr }.

(** [mounted] counts the pages shown, as a form that is gone is not set any
    more. *)
Record View := mkView { page : Page; mounted : nat; signIn : SignInForm; otpForm : OtpForm }.

(** The store of the session, the text kept as [uid] (as the value it is made
    of), the token of [api.ts], the language, and what was announced. *)
Record World := mkWorld {
  store : AuthStore.Store; uid : option json; pendingTwoFAFlowToken : option jsstr;
  language : jsstr; toasts : list Toast;
}.

Inductive Way := ByPassword | ByWeChat | ByPasskey.

(** A request under way, with the form that waits for it: a login, with what
    it sends; the user that is loaded after a login; a second factor, with its
    code and token. *)
Inductive Pending :=
  | PPassword (form : nat) (username password turnstile : jsstr) (redirectTo : option jsstr)
  | PWeChat (form : nat) (code : jsstr) (redirectTo : option jsstr)
  | PPasskey (form : nat) (redirectTo : option jsstr)
  | PSelf (form : nat) (way : Way) (redirectTo : option jsstr)
  | PTwoFA (form : nat) (code token : jsstr).

(** What was answered, and the codes sent with their tokens. *)
Record Log := mkLog { sent : list (jsstr * jsstr); answers : list (Pending * (Answer + PasskeyEnd)) }.

Record State := mkState { world : World; view : View; pending : list Pending; log : Log }.

Definition set_world (f : World → World) (s : State) : State := mkState (f (world s)) (view s) (pending s) (log s).
Definition set_view (f : View → View) (s : State) : State := mkState (world s) (f (view s)) (pending s) (log s).
Definition push (p : Pending) (s : State) : State := mkState (world s) (view s) (pending s ++ [p]) (log s).
Definition pop (i : nat) (p : Pending) (a : Answer + PasskeyEnd) (s : State) : State :=
  mkState (world s) (view s) (delete i (pending s)) (mkLog (sent (log s)) (answers (log s) ++ [(p, a)])).
Definition set_log (f : Log → Log) (s : State) : State := mkState (world s) (view s) (pending s) (f (log s)).

Definition notify (t : Toast) : State → State :=
  set_world (λ w, mkWorld (store w) (uid w) (pendingTwoFAFlowToken w) (language w) (toasts w ++ [t])).
Definition saveUserId (id : json) : State → State :=
  set_world (λ w, mkWorld (store w) (Some id) (pendingTwoFAFlowToken w) (language w) (toasts w)).
Definition setPendingTwoFAFlowToken (t : option jsstr) : State → State :=
  set_world (λ w, mkWorld (store w) (uid w) t (language w) (toasts w)).
Definition changeLanguage (l : jsstr) : State → State :=
  set_world (λ w, mkWorld (store w) (uid w) (pendingTwoFAFlowToken w) l (toasts w)).
Definition set_store (st : AuthStore.Store) : State → State :=
  set_world (λ w, mkWorld st (uid w) (pendingTwoFAFlowToken w) (language w) (toasts w)).

(** [auth.setUser] on what an answer holds *)
Definition setUser (u : json) : State → State := set_store (AuthStore.setUser u).

Definition if_id (data : option json) (s : State) : State :=
  match prop data "id" with Some id => if json_truthy id then saveUserId id s else s | None => s end.

Section Tab.
Context (requiresLegalConsent isTurnstileEnabled credentials : bool).

Definition fresh_signIn : SignInForm := mkSignIn (negb requiresLegalConsent) false [] false false false [] false.
Definition fresh_otp : OtpForm := mkOtp false false [].

Definition set_signIn (f : SignInForm → SignInForm) : State → State :=
  set_view (λ v, mkView (page v) (mounted v) (f (signIn v)) (otpForm v)).
Definition set_otp (f : OtpForm → OtpForm) : State → State :=
  set_view (λ v, mkView (page v) (mounted v) (signIn v) (f (otpForm v))).

Definition set_loading (b : bool) (f : SignInForm) : SignInForm :=
  mkSignIn (agreedToLegal f) b (turnstileToken f) (passkeySupported f) (isPasskeyLoading f)
    (isWeChatDialogOpen f) (wechatCode f) (isWeChatSubmitting f).
Definition set_passkey (supported loading : bool) (f : SignInForm) : SignInForm :=
  mkSignIn (agreedToLegal f) (isLoading f) (turnstileToken f) supported loading
    (isWeChatDialogOpen f) (wechatCode f) (isWeChatSubmitting f).
Definition set_wechat (open : bool) (code : jsstr) (submitting : bool) (f : SignInForm) : SignInForm :=
  mkSignIn (agreedToLegal f) (isLoading f) (turnstileToken f) (passkeySupported f) (isPasskeyLoading f)
    open code submitting.
Definition set_consent (agreed : bool) (turnstile : jsstr) (f : SignInForm) : SignInForm :=
  mkSignIn agreed (isLoading f) turnstile (passkeySupported f) (isPasskeyLoading f)
    (isWeChatDialogOpen f) (wechatCode f) (isWeChatSubmitting f).

(** A form that waited, if it is still there. *)
Definition on_form (form : nat) (f : State → State) (s : State) : State :=
  if bool_decide (mounted (view s) = form) then f s else s.

(** *** Navigation *)

Definition DASHBOARD : jsstr := js "/dashboard".
Definition SIGN_IN : jsstr := js "/sign-in".
Definition OTP : jsstr := js "/otp".

Definition target_or (redirect : option jsstr) : jsstr := match redirect with Some ((_ :: _) as to) => to | _ => DASHBOARD end.

Definition page_of (to : jsstr) : Page :=
  if bool_decide (to = SIGN_IN) then SignIn None else if bool_decide (to = OTP) then Otp else Elsewhere to.

(** [beforeLoad] of the sign-in page: who is signed in goes on at once. *)
Definition beforeLoad (signed_in : bool) (p : Page) : Page :=
  match p with
  | SignIn redirect =>
      if signed_in then
        match page_of (target_or redirect) with SignIn _ => Elsewhere DASHBOARD | p => p end
      else p
  | p => p
  end.

Definition same_route (p q : Page) : bool :=
  match p, q with SignIn _, SignIn _ | Otp, Otp => true | _, _ => false end.

Definition signed_in (s : State) : bool := bool_decide (is_Some (AuthStore.user (store (world s)))).

Definition arrive (p : Page) (s : State) : State :=
  let p := beforeLoad (signed_in s) p in
  set_view (λ v, if same_route p (page v) then mkView p (mounted v) (signIn v) (otpForm v)
                 else mkView p (S (mounted v)) fresh_signIn fresh_otp) s.

Definition navigate (to : jsstr) : State → State := arrive (page_of to).

(** *** [use-auth-redirect.ts] *)

Definition getSavedLanguage (user : json) : option jsstr :=
  match json_prop user (js "language") with
  | Some (JStr l) => Some l
  | _ => match json_prop user (js "setting") with
         | Some (JStr text) => setting ← JSON_parse text; v ← json_prop setting (js "language"); as_string v
         | _ => None
         end
  end.

Definition welcome (way : Way) : jsstr :=
  match way with
  | ByPassword => js "Welcome back!"
  | ByWeChat => js "Signed in via WeChat"
  | ByPasskey => js "Signed in with Passkey"
  end.

(** The [finally] of the three ways. *)
Definition finish (form : nat) (way : Way) : State → State :=
  on_form form (set_signIn (λ f, match way with
    | ByPassword => set_loading false f
    | ByWeChat => set_wechat (isWeChatDialogOpen f) (wechatCode f) false f
    | ByPasskey => set_passkey (passkeySupported f) false f
    end)).

(** [handleLoginSuccess] up to its request. *)
Definition handleLoginSuccess (form : nat) (way : Way) (data : option json) (redirectTo : option jsstr) (s : State) : State :=
  push (PSelf form way redirectTo) (if_id data s).

Definition restore_language (user : json) (s : State) : State :=
  match getSavedLanguage user with
  | Some ((_ :: _) as l) => if bool_decide (l = language (world s)) then s else changeLanguage l s
  | _ => s
  end.

(** The answer with the user, and what comes after it. *)
Definition loaded (a : Answer) (s : State) : State :=
  match a with
  | Body o =>
      match data_of o with
      | Some user =>
          if success o && json_truthy user
          then restore_language user (if_id (Some user) (setUser user s))
          else s
      | None => s
      end
  | Failed _ => s
  end.

Definition on_self (form : nat) (way : Way) (redirectTo : option jsstr) (a : Answer) (s : State) : State :=
  let s := notify (TSuccess (welcome way)) (navigate (target_or redirectTo) (loaded a s)) in
  let s := match way with ByWeChat => on_form form (set_signIn (set_wechat false [] false)) s | _ => s end in
  finish form way s.

(** *** The form of the sign-in page *)

Definition consent_missing (s : State) : bool := requiresLegalConsent && negb (agreedToLegal (signIn (view s))).
Definition legalConsentError : Toast := TError (js "Please agree to the legal terms first").

Definition redirect_of (s : State) : option jsstr := match page (view s) with SignIn r => r | _ => None end.

(** [loginFormSchema] *)
Definition login_form_ok (username password : jsstr) : bool := nonempty username && (8 <=? length password)%nat.

Definition onSubmit_login (username password : jsstr) (s : State) : State :=
  if consent_missing s then notify legalConsentError s
  else if isTurnstileEnabled && negb (nonempty (turnstileToken (signIn (view s))))
  then notify (TInfo (js "Please wait a moment, human check is initializing...")) s
  else push (PPassword (mounted (view s)) username password (turnstileToken (signIn (view s))) (redirect_of s))
         (set_signIn (set_loading true) s).

Definition flow_token (data : option json) : option jsstr := v ← prop data "flow_token"; as_string v.

(** The answer of the password login. *)
Definition on_login (form : nat) (redirectTo : option jsstr) (a : Answer) (s : State) : State :=
  match a with
  | Body o =>
      if success o then
        if truthy (prop (data_of o) "require_2fa") then
          finish form ByPassword (navigate OTP (setPendingTwoFAFlowToken (flow_token (data_of o)) s))
        else handleLoginSuccess form ByPassword (data_of o) redirectTo s
      else finish form ByPassword s
  | Failed _ => finish form ByPassword s
  end.

Definition handleOpenWeChatDialog (s : State) : State :=
  if consent_missing s then notify legalConsentError s
  else set_signIn (λ f, set_wechat true (wechatCode f) (isWeChatSubmitting f) f) s.

Definition handleWeChatDialogChange (open : bool) : State → State :=
  set_signIn (λ f, if open then set_wechat true (wechatCode f) (isWeChatSubmitting f) f else set_wechat false [] false f).

Definition handleWeChatLogin (s : State) : State :=
  let f := signIn (view s) in
  if negb (nonempty (trim (wechatCode f))) then notify (TError (js "Please enter the verification code")) s
  else push (PWeChat (mounted (view s)) (wechatCode f) (redirect_of s))
         (set_signIn (λ f, set_wechat (isWeChatDialogOpen f) (wechatCode f) true f) s).

Definition on_wechat (form : nat) (redirectTo : option jsstr) (a : Answer) (s : State) : State :=
  match a with
  | Body o =>
      if success o then handleLoginSuccess form ByWeChat (data_of o) redirectTo s
      else finish form ByWeChat (notify (TError (message_or o "Login failed")) s)
  | Failed _ => finish form ByWeChat (notify (TError (js "Login failed")) s)
  end.

Definition handlePasskeyLogin (s : State) : State :=
  if consent_missing s then notify legalConsentError s
  else if negb (passkeySupported (signIn (view s))) then notify (TError (js "Passkey is not supported on this device")) s
  else if negb credentials then notify (TError (js "Passkey is not available in this browser")) s
  else push (PPasskey (mounted (view s)) (redirect_of s))
         (set_signIn (λ f, set_passkey (passkeySupported f) true f) s).

Definition on_passkey (form : nat) (redirectTo : option jsstr) (e : PasskeyEnd) (s : State) : State :=
  match e with
  | Finished data => handleLoginSuccess form ByPasskey (Some data) redirectTo s
  | Ended t => finish form ByPasskey (notify t s)
  end.

(** *** The form of the second factor *)

Definition isFormValid (f : OtpForm) : bool :=
  if useBackupCode f then (BACKUP_CODE_LENGTH <=? length (otp f))%nat else (OTP_LENGTH <=? length (otp f))%nat.

(** [value] is what the input holds after the key or the paste, which it cuts
    at its greatest length. *)
Definition otp_typed (value : jsstr) (f : OtpForm) : OtpForm :=
  let max := if useBackupCode f then BACKUP_CODE_LENGTH else OTP_LENGTH in
  if (length value <=? max)%nat
  then mkOtp (otpLoading f) (useBackupCode f) (if useBackupCode f then formatBackupCode value else value)
  else f.

Definition handleToggleMode (f : OtpForm) : OtpForm := mkOtp (otpLoading f) (negb (useBackupCode f)) [].

Definition set_otp_loading (b : bool) (f : OtpForm) : OtpForm := mkOtp b (useBackupCode f) (otp f).

Definition finish_otp (form : nat) : State → State := on_form form (set_otp (set_otp_loading false)).

(** [login2fa] up to its request. *)
Definition login2fa (form : nat) (code : jsstr) (s : State) : State :=
  match pendingTwoFAFlowToken (world s) with
  | Some ((_ :: _) as token) =>
      push (PTwoFA form code token) (set_log (λ l, mkLog (sent l ++ [(code, token)]) (answers l)) s)
  | _ => finish_otp form (notify (TError (js "Missing 2FA login flow")) s)
  end.

Definition onSubmit_otp (s : State) : State :=
  let f := otpForm (view s) in
  if negb (isFormValid f) then s
  else if useBackupCode f && negb (isValidBackupCode (otp f))
  then notify (TError (js "Backup code must be in format XXXX-XXXX")) s
  else if negb (useBackupCode f) && negb (isValidOTP (otp f))
  then notify (TError (js "Verification code must be 6 digits")) s
  else login2fa (mounted (view s)) (if useBackupCode f then cleanBackupCode (otp f) else otp f)
         (set_otp (set_otp_loading true) s).

Definition on_2fa (form : nat) (a : Answer) (s : State) : State :=
  finish_otp form
    match a with
    | Failed message => notify (TError message) s
    | Body o =>
        let s := setPendingTwoFAFlowToken None s in
        if negb (success o) then notify (TError (message_or o "Invalid code")) s else
        match data_of o with
        | Some userData =>
            if json_truthy userData
            then navigate SIGN_IN (notify (TSuccess (js "Signed in")) (if_id (Some userData) (setUser userData s)))
            else notify (TError (js "No user data received from login")) s
        | None => notify (TError (js "No user data received from login")) s
        end
    end.

(** *** The events, in any order *)

Inductive Event :=
  | Visit (p : Page)
  | SignedOut
  | Consent (agreed : bool) (turnstile : jsstr)
  | PasskeyDetected (supported : bool)
  | SubmitLogin (username password : jsstr)
  | OpenWeChat
  | WeChatDialog (open : bool)
  | WeChatTyped (code : jsstr)
  | SubmitWeChat
  | ClickPasskey
  | OtpTyped (value : jsstr)
  | ToggleMode
  | SubmitOtp
  | Answered (i : nat) (a : Answer)
  | PasskeyEnded (i : nat) (e : PasskeyEnd).

Definition on_signIn (s s' : State) : State := match page (view s) with SignIn _ => s' | _ => s end.
Definition on_otp (s s' : State) : State := match page (view s) with Otp => s' | _ => s end.

(** A button that is disabled while its form loads may still be pressed twice,
    as the form library waits before it calls [onSubmit]. *)
Definition step (s : State) (e : Event) : State :=
  match e with
  | Visit p => arrive p s
  | SignedOut => set_store (AuthStore.reset (store (world s))) s
  | Consent agreed turnstile => on_signIn s (set_signIn (set_consent agreed turnstile) s)
  | PasskeyDetected supported => on_signIn s (set_signIn (λ f, set_passkey supported (isPasskeyLoading f) f) s)
  | SubmitLogin username password => on_signIn s (if login_form_ok username password then onSubmit_login username password s else s)
  | OpenWeChat => on_signIn s (handleOpenWeChatDialog s)
  | WeChatDialog open => on_signIn s (handleWeChatDialogChange open s)
  | WeChatTyped code => on_signIn s (set_signIn (λ f, set_wechat (isWeChatDialogOpen f) code (isWeChatSubmitting f) f) s)
  | SubmitWeChat => on_signIn s (if consent_missing s then s else handleWeChatLogin s)
  | ClickPasskey => on_signIn s (handlePasskeyLogin s)
  | OtpTyped value => on_otp s (set_otp (otp_typed value) s)
  | ToggleMode => on_otp s (set_otp handleToggleMode s)
  | SubmitOtp => on_otp s (onSubmit_otp s)
  | Answered i a =>
      match pending s !! i with
      | Some (PPassword form _ _ _ redirectTo as p) => on_login form redirectTo a (pop i p (inl a) s)
      | Some (PWeChat form _ redirectTo as p) => on_wechat form redirectTo a (pop i p (inl a) s)
      | Some (PSelf form way redirectTo as p) => on_self form way redirectTo a (pop i p (inl a) s)
      | Some (PTwoFA form _ _ as p) => on_2fa form a (pop i p (inl a) s)
      | _ => s
      end
  | PasskeyEnded i e =>
      match pending s !! i with
      | Some (PPasskey form redirectTo as p) => on_passkey form redirectTo e (pop i p (inr e) s)
      | _ => s
      end
  end.

(** The browser opens the tab with what is stored. *)
Definition initial (saved : option jsstr) (uid : option json) (language : jsstr) (p : Page) : State :=
  let store := AuthStore.initUser saved in
  mkState (mkWorld store uid None language [])
    (mkView (beforeLoad (bool_decide (is_Some (AuthStore.user store))) p) 0 fresh_signIn fresh_otp) [] (mkLog [] []).

Definition run (s : State) (es : list Event) : State := foldl step s es.

(** *** What is allowed *)

(** The protocol, without pages and forms: the session, the token, what is
    under way and what was sent and answered. *)
Record Core := mkCore {
  c_store : AuthStore.Store; c_flow : option jsstr; c_pending : list Pending; c_log : Log;
}.

Definition core (s : State) : Core :=
  mkCore (store (world s)) (pendingTwoFAFlowToken (world s)) (pending s) (log s).

(** An answer to a password that asks for the second factor. *)
Definition asks_2fa (p : Pending) (a : Answer + PasskeyEnd) : bool :=
  match p, a with
  | PPassword _ _ _ _ _, inl (Body o) => success o && truthy (prop (data_of o) "require_2fa")
  | _, _ => false
  end.

(** An answer that lets a login through. *)
Definition passes (p : Pending) (a : Answer + PasskeyEnd) : bool :=
  match p, a with
  | PPassword _ _ _ _ _, inl (Body o) => success o && negb (truthy (prop (data_of o) "require_2fa"))
  | PWeChat _ _ _, inl (Body o) => success o
  | PPasskey _ _, inr (Finished _) => true
  | _, _ => false
  end.

(** The user that an answer names. *)
Definition names (p : Pending) (a : Answer + PasskeyEnd) : option json :=
  match p, a with
  | PSelf _ _ _, inl (Body o) | PTwoFA _ _ _, inl (Body o) =>
      match data_of o with Some u => if success o && json_truthy u then Some u else None | None => None end
  | _, _ => None
  end.

Definition self_of (p : Pending) : list Pending :=
  match p with
  | PPassword form _ _ _ r => [PSelf form ByPassword r]
  | PWeChat form _ r => [PSelf form ByWeChat r]
  | PPasskey form r => [PSelf form ByPasskey r]
  | _ => []
  end.

Definition flow_after (p : Pending) (a : Answer + PasskeyEnd) (flow : option jsstr) : option jsstr :=
  match p, a with
  | PPassword _ _ _ _ _, inl (Body o) => if asks_2fa p a then flow_token (data_of o) else flow
  | PTwoFA _ _ _, inl (Body _) => None
  | _, _ => flow
  end.

Definition after (i : nat) (p : Pending) (a : Answer + PasskeyEnd) (c : Core) : Core :=
  mkCore (match names p a with Some u => AuthStore.setUser u | None => c_store c end)
    (flow_after p a (c_flow c))
    (delete i (c_pending c) ++ if passes p a then self_of p else [])
    (mkLog (sent (c_log c)) (answers (c_log c) ++ [(p, a)])).

Definition is_login (p : Pending) : bool :=
  match p with PPassword _ _ _ _ _ | PWeChat _ _ _ | PPasskey _ _ => true | _ => false end.

(** Six digits, or the eight characters of a backup code. *)
Definition code_ok (code : jsstr) : Prop :=
  (length code = 6%nat ∧ Forall (λ c, is_digit c = true) code) ∨
  (length code = 8%nat ∧ Forall (λ c, is_code_char_i c = true) code).

Inductive protocol : Core → Core → Prop :=
  | Asks c p : is_login p = true →
      protocol c (mkCore (c_store c) (c_flow c) (c_pending c ++ [p]) (c_log c))
  | Sends c form code token : c_flow c = Some token → token ≠ [] → code_ok code →
      protocol c (mkCore (c_store c) (c_flow c) (c_pending c ++ [PTwoFA form code token])
        (mkLog (sent (c_log c) ++ [(code, token)]) (answers (c_log c))))
  | Hears c i p a : c_pending c !! i = Some p → protocol c (after i p a c)
  | Forgets c : protocol c (mkCore (AuthStore.reset (c_store c)) (c_flow c) (c_pending c) (c_log c)).

Lemma core_on_form form f s : (∀ s, core (f s) = core s) → core (on_form form f s) = core s.
Proof. intros Hf. unfold on_form. by case_bool_decide. Qed.

Lemma core_finish form way s : core (finish form way s) = core s.
Proof. by apply core_on_form. Qed.

Lemma core_finish_otp form s : core (finish_otp form s) = core s.
Proof. by apply core_on_form. Qed.

Lemma core_if_id data s : core (if_id data s) = core s.
Proof. unfold if_id. by repeat case_match. Qed.

Lemma core_navigate to s : core (navigate to s) = core s.
Proof. done. Qed.

Lemma core_notify t s : core (notify t s) = core s.
Proof. done. Qed.

Lemma core_restore u s : core (restore_language u s) = core s.
Proof. unfold restore_language. by repeat case_match. Qed.

Lemma core_self form way r a s :
  core (on_self form way r a s) =
  mkCore (match names (PSelf form way r) (inl a) with Some u => AuthStore.setUser u | None => store (world s) end)
    (pendingTwoFAFlowToken (world s)) (pending s) (log s).
Proof.
  unfold on_self. rewrite core_finish.
  transitivity (core (loaded a s)); [destruct way; [done|by rewrite core_on_form|done]|].
  destruct a as [o|m]; [|done]. cbn [loaded names]. destruct (data_of o) as [u|]; [|done].
  destruct (success o && json_truthy u); [|done]. by rewrite core_restore, core_if_id.
Qed.

Lemma core_2fa form code token a s :
  core (on_2fa form a s) =
  mkCore (match names (PTwoFA form code token) (inl a) with Some u => AuthStore.setUser u | None => store (world s) end)
    (flow_after (PTwoFA form code token) (inl a) (pendingTwoFAFlowToken (world s))) (pending s) (log s).
Proof.
  unfold on_2fa. rewrite core_finish_otp. destruct a as [o|m]; [|done]. cbn [names flow_after].
  destruct (success o); cbn [negb andb]; [|by destruct (data_of o)].
  destruct (data_of o) as [u|]; [|done]. destruct (json_truthy u); [|done].
  by rewrite core_navigate, core_notify, core_if_id.
Qed.


(** What an answer to a login changes. *)
Definition after_login (p : Pending) (a : Answer + PasskeyEnd) (s : State) : Core :=
  mkCore (store (world s)) (flow_after p a (pendingTwoFAFlowToken (world s)))
    (pending s ++ if passes p a then self_of p else []) (log s).

Lemma after_login_none s : mkCore (store (world s)) (pendingTwoFAFlowToken (world s)) (pending s ++ []) (log s) = core s.
Proof. by rewrite app_nil_r. Qed.

Lemma core_handle form way data r s :
  core (handleLoginSuccess form way data r s) =
  mkCore (store (world s)) (pendingTwoFAFlowToken (world s)) (pending s ++ [PSelf form way r]) (log s).
Proof.
  pose proof (core_if_id data s) as [= H1 H2 H3 H4]. unfold handleLoginSuccess, core, push. cbn.
  by rewrite H1, H2, H3, H4.
Qed.

Lemma core_login form u w t r a s : core (on_login form r a s) = after_login (PPassword form u w t r) (inl a) s.
Proof.
  unfold after_login, passes, flow_after, asks_2fa.
  destruct a as [o|m]; cbn [on_login]; [|by rewrite core_finish, after_login_none].
  destruct (success o); cbn [andb]; [|by rewrite core_finish, after_login_none].
  destruct (truthy _); cbn [negb]; [|by rewrite core_handle].
  rewrite core_finish, app_nil_r. done.
Qed.

Lemma core_wechat form c r a s : core (on_wechat form r a s) = after_login (PWeChat form c r) (inl a) s.
Proof.
  unfold after_login, passes, flow_after. destruct a as [o|m]; cbn [on_wechat];
    [|by rewrite core_finish, core_notify, after_login_none].
  destruct (success o); [by rewrite core_handle|]. by rewrite core_finish, core_notify, after_login_none.
Qed.

Lemma core_passkey form r e s : core (on_passkey form r e s) = after_login (PPasskey form r) (inr e) s.
Proof.
  unfold after_login, passes, flow_after. destruct e as [data|t]; cbn [on_passkey]; [by rewrite core_handle|].
  by rewrite core_finish, core_notify, after_login_none.
Qed.

Lemma code_sent_ok f :
  isFormValid f = true → useBackupCode f && negb (isValidBackupCode (otp f)) = false →
  negb (useBackupCode f) && negb (isValidOTP (otp f)) = false →
  code_ok (if useBackupCode f then cleanBackupCode (otp f) else otp f).
Proof.
  intros _. unfold code_ok. destruct (useBackupCode f); cbn [negb andb].
  - intros H%negb_false_iff _. right. by apply cleaned_valid.
  - intros _ H%negb_false_iff. left. by apply isValidOTP_spec.
Qed.

Lemma step_submit s : core (onSubmit_otp s) = core s ∨ protocol (core s) (core (onSubmit_otp s)).
Proof.
  unfold onSubmit_otp. destruct (isFormValid _) eqn:Hf; cbn [negb]; [|by left].
  destruct (_ && negb (isValidBackupCode _)) eqn:Hb; [by left|].
  destruct (_ && negb (isValidOTP _)) eqn:Ho; [by left|].
  pose proof (code_sent_ok _ Hf Hb Ho) as Hok. unfold login2fa. cbn [world set_otp set_view].
  destruct (pendingTwoFAFlowToken (world s)) as [[|c token]|] eqn:Ht;
    [left; by rewrite core_finish_otp, core_notify| |left; by rewrite core_finish_otp, core_notify].
  right. apply (Sends (core s)); done.
Qed.

Lemma step_answer s e : (∃ i a, e = Answered i a) ∨ (∃ i x, e = PasskeyEnded i x) →
  core (step s e) = core s ∨ protocol (core s) (core (step s e)).
Proof.
  intros [(i & a & ->)|(i & x & ->)]; cbn [step]; (destruct (pending s !! i) as [p|] eqn:Hi; [|by left]);
    pose proof (λ a, Hears (core s) i p a Hi) as H.
  - destruct p as [f u w t r|f c r|f r|f way r|f c t]; [| |by left| |]; right.
    + rewrite (core_login f u w t). apply H.
    + rewrite (core_wechat f c). apply H.
    + rewrite core_self. specialize (H (inl a)). unfold after in H. rewrite app_nil_r in H. exact H.
    + rewrite (core_2fa f c t). specialize (H (inl a)). unfold after in H. rewrite app_nil_r in H. exact H.
  - destruct p as [f u w t r|f c r|f r|f way r|f c t]; [by left..| |by left|by left]. right.
    rewrite core_passkey. apply H.
Qed.

(** Whatever happens in the tab is nothing to the protocol, or one of its
    steps. *)
Lemma step_protocol s e : core (step s e) = core s ∨ protocol (core s) (core (step s e)).
Proof.
  destruct e as [p| |ag t|b|u p| |o|c| | |v| | |i a|i e]; try (apply step_answer; by eauto);
    cbn [step]; unfold on_signIn, on_otp; try (left; by destruct (page (view s))).
  - right. by constructor.
  - destruct (page (view s)); [|by left..]. destruct (login_form_ok u p); [|by left]. unfold onSubmit_login.
    repeat case_match; [by left..|]. right. by apply (Asks (core s)).
  - destruct (page (view s)); [|by left..]. unfold handleOpenWeChatDialog. case_match; by left.
  - destruct (page (view s)); [|by left..]. case_match; [by left|]. unfold handleWeChatLogin.
    case_match; [by left|]. right. by apply (Asks (core s)).
  - destruct (page (view s)); [|by left..]. unfold handlePasskeyLogin.
    repeat case_match; [by left..|]. right. by apply (Asks (core s)).
  - destruct (page (view s)); [by left| |by left]. apply step_submit.
Qed.

Lemma run_protocol s es : rtc protocol (core s) (core (run s es)).
Proof.
  revert s. induction es as [|e es IH]; intros s; [done|].
  destruct (step_protocol s e) as [E|H].
  - rewrite <- E. apply IH.
  - eapply rtc_l; [exact H|apply IH].
Qed.

(** *** What the protocol keeps *)

Definition is_self (p : Pending) : bool := match p with PSelf _ _ _ => true | _ => false end.
Definition is_pass (x : Pending * (Answer + PasskeyEnd)) : bool := passes x.1 x.2.

(** The loads of a user that were answered or are under way. *)
Definition loads (c : Core) : nat :=
  length (List.filter (is_self ∘ fst) (answers (c_log c))) + length (List.filter is_self (c_pending c)).

(** A password was answered with this token, for the second factor. *)
Definition was_granted (c : Core) (token : jsstr) : Prop :=
  ∃ p o, (p, inl (Body o)) ∈ answers (c_log c) ∧ asks_2fa p (inl (Body o)) = true ∧ flow_token (data_of o) = Some token.

(** The user comes from the tab before, or from an answer. *)
Definition user_explained (u0 : option (obj json)) (c : Core) : Prop :=
  AuthStore.user (c_store c) = None ∨ AuthStore.user (c_store c) = u0 ∨
  ∃ p a u, (p, a) ∈ answers (c_log c) ∧ names p a = Some u ∧ c_store c = AuthStore.setUser u.

Record login_inv (u0 : option (obj json)) (c : Core) : Prop := {
  li_clean : AuthStore.clean_store (c_store c);
  li_user : user_explained u0 c;
  li_flow : ∀ token, c_flow c = Some token → was_granted c token;
  li_sent : ∀ code token, (code, token) ∈ sent (c_log c) → token ≠ [] ∧ code_ok code ∧ was_granted c token;
  li_waits : ∀ f code token, PTwoFA f code token ∈ c_pending c → (code, token) ∈ sent (c_log c);
  li_heard : ∀ f code token a, (PTwoFA f code token, a) ∈ answers (c_log c) → (code, token) ∈ sent (c_log c);
  li_loads : loads c = length (List.filter is_pass (answers (c_log c)));
}.

Lemma granted_mono c c' token :
  (∀ x, x ∈ answers (c_log c) → x ∈ answers (c_log c')) → was_granted c token → was_granted c' token.
Proof. intros Hx (p & o & Hin & H). exists p, o. split; [by apply Hx|done]. Qed.

Lemma filter_delete (l : list Pending) i p :
  l !! i = Some p → length (List.filter is_self l) = (length (List.filter is_self (delete i l)) + if is_self p then 1 else 0)%nat.
Proof.
  revert i. induction l as [|q l IH]; intros [|i] Hi; [done..| |].
  - injection Hi as ->. cbn [delete list_delete List.filter]. destruct (is_self p); cbn [length]; lia.
  - specialize (IH i Hi). change (delete (S i) (q :: l)) with (q :: delete i l). cbn [List.filter].
    destruct (is_self q); cbn [length]; lia.
Qed.

Lemma pass_starts_load p a : is_pass (p, a) = true → ∃ f w r, self_of p = [PSelf f w r].
Proof. unfold is_pass, passes. destruct p; cbn [fst snd]; try done; eauto. Qed.

Lemma hears_loads c i p a : c_pending c !! i = Some p → loads c = length (List.filter is_pass (answers (c_log c))) →
  loads (after i p a c) = length (List.filter is_pass (answers (c_log (after i p a c)))).
Proof.
  intros Hi. unfold loads, after. cbn [c_log c_pending answers]. rewrite (filter_delete _ _ _ Hi).
  rewrite !List.filter_app, !length_app. cbn [List.filter]. unfold compose at 3. cbn [fst].
  change (passes p a) with (is_pass (p, a)). destruct (is_pass (p, a)) eqn:Hp.
  - destruct (pass_starts_load _ _ Hp) as (f & w & r & ->). destruct p; try done; cbn; lia.
  - destruct (is_self p); cbn; lia.
Qed.

Lemma hears_inv u0 c i p a : c_pending c !! i = Some p → login_inv u0 c → login_inv u0 (after i p a c).
Proof.
  intros Hi [H1 H2 H3 H4 H5 H6 H7].
  assert (∀ x, x ∈ answers (c_log c) → x ∈ answers (c_log (after i p a c))) as Hm
    by (intros x Hx; apply elem_of_app; by left).
  assert ((p, a) ∈ answers (c_log (after i p a c))) as Hpa by (apply elem_of_app; right; by left).
  assert (∀ token, was_granted c token → was_granted (after i p a c) token) as Hg
    by (intros token; by apply granted_mono).
  split.
  - unfold after. cbn [c_store]. destruct (names p a) as [u|]; [|done].
    intros o. unfold AuthStore.setUser. destruct (AuthStore.sanitizeUser u) as [o'|] eqn:E; [|done].
    intros [= <-]. split; [by eapply AuthStore.sanitizeUser_no_tokens|done].
  - unfold user_explained. destruct (names p a) as [u|] eqn:E.
    + right. right. exists p, a, u. split_and!; [done..|]. unfold after. cbn [c_store]. by rewrite E.
    + replace (c_store (after i p a c)) with (c_store c) by (unfold after; cbn [c_store]; by rewrite E).
      destruct H2 as [H|[H|(q & b & u & Hq & H)]]; [by left|by right; left|].
      right. right. exists q, b, u. split; [by apply Hm|done].
  - intros token. change (c_flow (after i p a c)) with (flow_after p a (c_flow c)). unfold flow_after.
    destruct p, a as [[o|m]|x]; try (by intros H%H3%Hg); [|done].
    destruct (asks_2fa _ _) eqn:Ea; [|by intros H%H3%Hg]. intros Ht. eexists _, o. by split_and!.
  - intros code token (Ht & Hc & H)%H4. split_and!; [done..|]. by apply Hg.
  - intros f code token Hin. apply elem_of_app in Hin as [Hin|Hin].
    + apply elem_of_delete in Hin. by eapply H5.
    + destruct (passes p a); [|by apply not_elem_of_nil in Hin]. destruct p; cbn in Hin; set_solver.
  - intros f code token b Hin. apply elem_of_app in Hin as [Hin|Hin]; [by eapply H6|].
    apply list_elem_of_singleton in Hin as [= <- <-]. apply (H5 f). by eapply list_elem_of_lookup_2.
  - by apply hears_loads.
Qed.

Lemma protocol_inv u0 c c' : protocol c c' → login_inv u0 c → login_inv u0 c'.
Proof.
  destruct 1 as [c p Hp|c form code token Hf Ht Hc|c i p a Hi|c]; [| |by apply hears_inv|];
    intros [H1 H2 H3 H4 H5 H6 H7].
  - split; try done.
    + intros f code token Hin. apply elem_of_app in Hin as [Hin|Hin%list_elem_of_singleton]; [by eapply H5|by subst p].
    + unfold loads. cbn [c_pending c_log]. rewrite List.filter_app, length_app. unfold loads in H7. destruct p; cbn; lia || done.
  - split; try done.
    + intros code' token' [Hin|Hin%list_elem_of_singleton]%elem_of_app; [by apply H4|].
      injection Hin as -> ->. split_and!; [done..|]. by apply H3.
    + intros f code' token' [Hin|Hin%list_elem_of_singleton]%elem_of_app; apply elem_of_app;
        [left; by eapply H5|right]. injection Hin as -> -> ->. by left.
    + intros f code' token' a Hin. apply elem_of_app. left. by eapply H6.
    + unfold loads in *. cbn [c_pending c_log answers]. rewrite List.filter_app, length_app. cbn. lia.
  - split; try done. by left.
Qed.

Lemma initial_inv saved uid language p :
  login_inv (AuthStore.user (AuthStore.initUser saved)) (core (initial saved uid language p)).
Proof.
  split; cbn; try (by intros; set_solver); try done.
  - apply (AuthStore.store_clean JNull saved (AuthStore.initUser saved)).
  - by right; left.
Qed.

Lemma tab_inv saved uid language p es :
  login_inv (AuthStore.user (AuthStore.initUser saved)) (core (run (initial saved uid language p) es)).
Proof.
  pose proof (initial_inv saved uid language p) as H. pose proof (run_protocol (initial saved uid language p) es) as Hr.
  revert H. induction Hr as [c|c c' c'' Hc _ IH]; [done|]. intros H. by eapply IH, protocol_inv.
Qed.


(** *** Signing in with a backup code *)

(** The form of the second factor takes a code however it is typed. *)
Lemma otp_typed_code code v f :
  issued code → letters v = letters code → (length v <= BACKUP_CODE_LENGTH)%nat → useBackupCode f = true →
  otp_typed v f = mkOtp (otpLoading f) true code.
Proof.
  intros Hc Hv Hl Hf. destruct (issued_typed _ _ Hc Hv) as (E & _). unfold otp_typed. rewrite Hf, E.
  by apply Nat.leb_le in Hl as ->.
Qed.

Lemma submit_code code token s :
  issued code → page (view s) = Otp → otpForm (view s) = mkOtp (otpLoading (otpForm (view s))) true code →
  pendingTwoFAFlowToken (world s) = Some token → token ≠ [] →
  step s SubmitOtp =
    push (PTwoFA (mounted (view s)) (cleanBackupCode code) token)
      (set_log (λ l, mkLog (sent l ++ [(cleanBackupCode code, token)]) (answers l)) (set_otp (set_otp_loading true) s)).
Proof.
  intros Hc Hp Hf Ht Hne. destruct (issued_typed code code Hc eq_refl) as (_ & Hv & _).
  assert ((9 <=? length code)%nat = true) as Hl.
  { destruct Hc as (a & b & -> & Ha & Hb & _). rewrite length_app, length_cons. apply Nat.leb_le. lia. }
  cbn [step]. unfold on_otp, onSubmit_otp. rewrite Hp, Hf. unfold isFormValid, BACKUP_CODE_LENGTH.
  cbn [useBackupCode otp]. rewrite Hl, Hv. cbn [negb andb]. unfold login2fa. cbn [world set_otp set_view].
  rewrite Ht. by destruct token.
Qed.

Lemma page_finish_otp form s : page (view (finish_otp form s)) = page (view s).
Proof. unfold finish_otp, on_form. by case_bool_decide. Qed.

(** The sign-in page sends on who is signed in. *)
Lemma navigate_signed_in s :
  is_Some (AuthStore.user (c_store (core s))) → page (view (navigate SIGN_IN s)) = Elsewhere DASHBOARD.
Proof.
  intros H. unfold navigate, arrive. change (signed_in s) with (bool_decide (is_Some (AuthStore.user (c_store (core s))))).
  by rewrite bool_decide_eq_true_2.
Qed.

(** The answer to a second factor that was accepted. *)
Lemma accepted_signs_in form code token data i s :
  pending s !! i = Some (PTwoFA form code token) → page (view s) = Otp →
  let s' := step s (Answered i (Body (LoginServer.accept data))) in
  AuthStore.user (store (world s')) = Some (AuthStore.strip_tokens data) ∧
  page (view s') = Elsewhere DASHBOARD ∧ pendingTwoFAFlowToken (world s') = None ∧ pending s' = delete i (pending s).
Proof.
  intros Hi Hp. cbn [step]. rewrite Hi.
  set (a := Body (LoginServer.accept data)). set (s0 := pop i (PTwoFA form code token) (inl a) s).
  pose proof (core_2fa form code token a s0) as E.
  set (s' := on_2fa form a s0) in *. cbv zeta. split_and!.
  - by rewrite (f_equal c_store E : store (world s') = _).
  - subst s'. unfold on_2fa. rewrite page_finish_otp. apply navigate_signed_in.
    rewrite core_notify, core_if_id. by eexists.
  - exact (f_equal c_flow E).
  - exact (f_equal c_pending E).
Qed.

(** *** A code that was refused *)

Definition typing (e : Event) : Prop := match e with OtpTyped _ | ToggleMode | SubmitOtp => True | _ => False end.

Lemma typing_without_token s e : pendingTwoFAFlowToken (world s) = None → typing e → core (step s e) = core s.
Proof.
  intros Ht He. destruct e; try done; cbn [step]; unfold on_otp; (destruct (page (view s)); [done| |done]); [done..|].
  unfold onSubmit_otp, login2fa. cbn [world set_otp set_view]. rewrite Ht.
  repeat case_match; rewrite ?core_finish_otp; done.
Qed.

(** A code that the server refuses is the last one: its token is forgotten,
    and whatever is typed and submitted then, nothing is sent any more, until
    the user signs in again.  The server keeps the flow open for another try
    ([LoginServer.refused_keeps_flow]). *)
Theorem refused_code_ends_flow form code token o i s es :
  pending s !! i = Some (PTwoFA form code token) → success o = false → Forall typing es →
  let s' := run (step s (Answered i (Body o))) es in
  sent (log s') = sent (log s) ∧ pending s' = delete i (pending s) ∧ store (world s') = store (world s).
Proof.
  intros Hi Ho Hes. cbn [step]. rewrite Hi.
  set (s0 := pop i (PTwoFA form code token) (inl (Body o)) s).
  assert (core (on_2fa form (Body o) s0) = mkCore (store (world s)) None (delete i (pending s)) (log s0)) as E.
  { rewrite (core_2fa form code token). cbn [names]. rewrite Ho. by destruct (data_of o). }
  assert (core (run (on_2fa form (Body o) s0) es) = core (on_2fa form (Body o) s0)) as Er.
  { revert E. generalize (on_2fa form (Body o) s0). induction Hes as [|e es He _ IH]; intros s1 E; [done|].
    assert (core (step s1 e) = core s1) as Es by (apply typing_without_token; [exact (f_equal c_flow E)|done]).
    cbn. rewrite <- Es. apply IH. by rewrite Es. }
  cbv zeta. rewrite E in Er. split_and!; [exact (f_equal (sent ∘ c_log) Er)|exact (f_equal c_pending Er)|exact (f_equal c_store Er)].
Qed.

End Tab.

(** *** With the server *)

Section SignedIn.
Context {H : Type} (checks : jsstr → H → bool) (totp_Validate : jsstr → jsstr → Z → bool).
Context (user_exists : Z → bool) (CreateLoginSession : Z → option (obj json)) (text : LoginServer.Refusal → jsstr).
Context (requiresLegalConsent isTurnstileEnabled credentials : bool).

Abbreviation verify := (LoginServer.Verify2FALogin checks totp_Validate user_exists CreateLoginSession text).
Abbreviation step := (step requiresLegalConsent isTurnstileEnabled credentials).
Abbreviation run := (run requiresLegalConsent isTurnstileEnabled credentials).

(** C9: A backup code signs its user in.  However it is typed, in small
    letters, with spaces or without the hyphen, the page of the second factor
    sends it with the token of the login; the server, if it holds the code
    unused, accepts it, and its answer, whatever else is under way, stores the
    user without tokens and leads to the dashboard.  The token, the flow and
    the code are then used up. *)
Theorem backup_code_signs_in now code v token f t data srv s :
  LoginServer.accepts_code checks user_exists CreateLoginSession now code token f t data srv →
  letters v = letters code → (length v <= BACKUP_CODE_LENGTH)%nat →
  page (view s) = Otp → useBackupCode (otpForm (view s)) = true → pendingTwoFAFlowToken (world s) = Some token →
  let s1 := run s [OtpTyped v; SubmitOtp] in
  let answer := verify now (cleanBackupCode code) token srv in
  let s2 := step s1 (Answered (length (pending s)) (Body answer.2)) in
  sent (log s1) = sent (log s) ++ [(cleanBackupCode code, token)] ∧
  AuthStore.user (store (world s2)) = Some (AuthStore.strip_tokens data) ∧
  page (view s2) = Elsewhere DASHBOARD ∧ pendingTwoFAFlowToken (world s2) = None ∧ pending s2 = pending s ∧
  LoginServer.InspectAuthFlow now token answer.1 = None ∧
  ∃ i h, LoginServer.backupCodes t !! i = Some (h, false) ∧ checks code h = true ∧
    LoginServer.backupCodes <$> LoginServer.twofa answer.1 !! LoginServer.f_user f =
      Some (<[i := (h, true)]> (LoginServer.backupCodes t)).
Proof.
  intros Ha Hv Hl Hp Hb Ht s1 answer s2. pose proof (LoginServer.ac_issued _ _ _ _ _ _ _ _ _ _ Ha) as Hc.
  pose proof (LoginServer.ac_token _ _ _ _ _ _ _ _ _ _ Ha) as Hne.
  destruct (LoginServer.backup_code_accepted _ totp_Validate _ _ text _ _ _ _ _ _ _ Ha) as (i & h & Hi & Hch & Ev).
  set (s0 := step s (OtpTyped v)).
  assert (s0 = set_otp (λ _, mkOtp (otpLoading (otpForm (view s))) true code) s) as E0.
  { subst s0. cbn. unfold on_otp, set_otp, set_view. rewrite Hp. by rewrite (otp_typed_code code). }
  assert (s1 = step s0 SubmitOtp) as -> by done. subst s2.
  rewrite (submit_code _ _ _ code token s0) by (rewrite ?E0; done). rewrite E0. unfold answer. rewrite Ev. cbn [fst snd].
  split; [done|]. set (s3 := push _ _).
  destruct (accepted_signs_in requiresLegalConsent isTurnstileEnabled credentials (mounted (view s)) (cleanBackupCode code)
    token data (length (pending s)) s3) as (H1 & H2 & H3 & H4).
  - apply list_lookup_middle. done.
  - exact Hp.
  - split_and!; [exact H1|exact H2|exact H3| | |].
    + etransitivity; [exact H4|]. subst s3. cbn. rewrite delete_middle. by rewrite app_nil_r.
    + unfold LoginServer.InspectAuthFlow. cbn. by rewrite lookup_insert_eq.
    + exists i, h. split_and!; [done..|]. cbn. by rewrite lookup_insert_eq.
Qed.

End SignedIn.

(** *** A server to try the definitions on *)

Definition demo_checks (code h : jsstr) : bool := bool_decide (code = h).
Definition demo_totp (secret code : jsstr) (now : Z) : bool := bool_decide (code = js "123456").
Definition demo_user : obj json :=
  [(js "id", JNum (num_of_Z 7)); (js "username", JStr (js "ann")); (js "access_token", JStr (js "secret"))].
Definition demo_session (u : Z) : option (obj json) := if u =? 7 then Some demo_user else None.
Definition demo_twofa : LoginServer.TwoFA jsstr :=
  LoginServer.mkTwoFA (js "s") true 0 None [(js "AAAA-1111", true); (js "CAWD-OQDV", false)].
Definition demo_server : LoginServer.Server jsstr := LoginServer.mkServer ∅ {[7 := demo_twofa]}.
Definition demo_verify (now : Z) := LoginServer.Verify2FALogin demo_checks demo_totp (λ u, u =? 7) demo_session (λ _, []) now.
Definition demo_login := LoginServer.Login 1000 7 (js "token") demo_server.

Definition demo_run := run true false true.
Definition demo_start : State := initial true None None (js "en") (SignIn (Some (js "/wallet"))).

(** The password is right, the second factor is asked for. *)
Definition demo_otp : State :=
  demo_run demo_start [Consent true []; SubmitLogin (js "ann") (js "password"); Answered 0 (Body demo_login.2); ToggleMode].

Lemma demo_accepts :
  LoginServer.accepts_code demo_checks (λ u, u =? 7) demo_session 1100 (js "CAWD-OQDV") (js "token")
    (LoginServer.mkFlow 7 false 1600) demo_twofa demo_user demo_login.1.
Proof.
  split; try (vm_compute; reflexivity).
  - exists (js "CAWD"), (js "OQDV"). split_and!; [reflexivity..|]. by repeat constructor.
  - done.
  - exists (js "CAWD-OQDV"). split; [by right; left|reflexivity].
Defined.

Lemma backup_code_signs_in_witness :
  let s1 := demo_run demo_otp [OtpTyped (js "cawd oqdv"); SubmitOtp] in
  let answer := demo_verify 1100 (js "CAWDOQDV") (js "token") demo_login.1 in
  let s2 := step true false true s1 (Answered 0 (Body answer.2)) in
  sent (log s1) = [(js "CAWDOQDV", js "token")] ∧ page (view s2) = Elsewhere DASHBOARD ∧
  AuthStore.user (store (world s2)) = Some [(js "id", JNum (num_of_Z 7)); (js "username", JStr (js "ann"))].
Proof.
  destruct (backup_code_signs_in demo_checks demo_totp (λ u, u =? 7) demo_session (λ _, []) true false true
    1100 (js "CAWD-OQDV") (js "cawd oqdv") (js "token") (LoginServer.mkFlow 7 false 1600) demo_twofa demo_user demo_login.1
    demo_otp demo_accepts) as (H1 & H2 & H3 & _); [reflexivity|by apply Nat.leb_le|reflexivity..|].
  split_and!; [exact H1|exact H3|exact H2].
Defined.

Definition demo_refused := demo_verify 1100 (js "111111") (js "token") demo_login.1.
Definition demo_mistyped : State := demo_run demo_otp [ToggleMode; OtpTyped (js "111111"); SubmitOtp].

Lemma refused_code_ends_flow_witness :
  let s' := run true false true (step true false true demo_mistyped (Answered 0 (Body demo_refused.2))) [OtpTyped (js "123456"); SubmitOtp] in
  sent (log s') = sent (log demo_mistyped).
Proof.
  destruct (refused_code_ends_flow true false true 1 (js "111111") (js "token") demo_refused.2 0 demo_mistyped
    [OtpTyped (js "123456"); SubmitOtp]) as (H & _); [vm_compute; reflexivity|vm_compute; reflexivity|by repeat constructor|exact H].
Defined.

(** A mistyped code: the next one is not sent, although the server would take
    it with the same token. *)
Example retry_not_sent :
  let refused := demo_verify 1100 (js "111111") (js "token") demo_login.1 in
  let s := demo_run demo_otp [ToggleMode; OtpTyped (js "111111"); SubmitOtp; Answered 0 (Body refused.2);
    OtpTyped (js "123456"); SubmitOtp] in
  (last (toasts (world s)), sent (log s), success (demo_verify 1110 (js "123456") (js "token") refused.1).2) =
  (Some (TError (js "Missing 2FA login flow")), [(js "111111", js "token")], true).
Proof. vm_compute. reflexivity. Qed.

(** The page that the user wanted is forgotten on the way through the second
    factor: without it the login leads to the wallet. *)
Example redirect_forgotten :
  let es := [Consent true []; SubmitLogin (js "ann") (js "password")] in
  let user := [(js "success", JBool true); (js "data", JObj demo_user)] in
  (page (view (demo_run demo_start (es ++ [Answered 0 (Body user); Answered 0 (Body user)]))),
   page (view (demo_run demo_otp [OtpTyped (js "CAWD-OQDV"); SubmitOtp;
     Answered 0 (Body (demo_verify 1100 (js "CAWDOQDV") (js "token") demo_login.1).2)]))) =
  (Elsewhere (js "/wallet"), Elsewhere DASHBOARD).
Proof. vm_compute. reflexivity. Qed.

(** Signed in again while the first code is checked, the user loses the token
    of the second login to the answer of the first. *)
Example token_of_next_login_lost :
  let refused := demo_verify 1100 (js "111111") (js "token") demo_login.1 in
  let s := demo_run demo_otp [ToggleMode; OtpTyped (js "111111"); SubmitOtp; Visit (SignIn None); Consent true [];
    SubmitLogin (js "ann") (js "password"); Answered 1 (Body (LoginServer.Login 1101 7 (js "token2") refused.1).2)] in
  let s' := demo_run s [Answered 0 (Body refused.2)] in
  (pendingTwoFAFlowToken (world s), pendingTwoFAFlowToken (world s')) = (Some (js "token2"), None).
Proof. vm_compute. reflexivity. Qed.

(** The user is welcomed even when nobody was loaded. *)
Example welcome_without_user :
  let s := demo_run demo_start [Consent true []; SubmitLogin (js "ann") (js "password");
    Answered 0 (Body [(js "success", JBool true); (js "data", JObj demo_user)]); Answered 0 (Failed (js "Network Error"))] in
  (AuthStore.user (store (world s)), toasts (world s)) = (None, [TSuccess (js "Welcome back!")]).
Proof. vm_compute. reflexivity. Qed.

End Login.

(** ** The way back from a provider *)

Module Callback.
Import Login.

(** What the page does, in order.  [Later] is the check a tenth of a second
    after a navigation. *)
Inductive Effect :=
  | SetUser (u : json)
  | SetUid (id : json)
  | Navigate (to : jsstr)
  | Later (to : jsstr)
  | ErrorToast (message : option jsstr)    (* [None] is [toast.error(false)] *)
  | SuccessToast (message : jsstr)
  | NotifyBinding (provider : jsstr) (success : bool)
  | CloseWindow.

(** An error that was thrown: [response.data.message], if there is a response
    at all, and its own message. *)
Record Thrown := mkThrown { response : option (option jsstr); message : option jsstr }.

Inductive Reply := Got (o : obj json) | Threw (e : Thrown).

Definition PROFILE : jsstr := js "/_authenticated/profile/".

(** [safeNavigate]: where the address differs from the target after a while,
    the browser is sent there. *)
Definition normalizedTarget (target : jsstr) : jsstr := if starts_with (js "/") target then target else js "/" ++ target.
Definition replaced (currentPath target : jsstr) : option jsstr :=
  let t := normalizedTarget target in
  if bool_decide (currentPath = t) || bool_decide (currentPath = t ++ js "/") then None else Some target.
Definition safeNavigate (target : jsstr) : list Effect := [Navigate target; Later target].

(** The user of a load, if it is one. *)
Definition self_user (self : Reply) : option json :=
  match self with
  | Got o => match data_of o with Some u => if success o && json_truthy u then Some u else None | None => None end
  | Threw _ => None
  end.

(** [id != null] *)
Definition store_user (u : json) : list Effect :=
  SetUser u :: match json_prop u (js "id") with Some JNull | None => [] | Some id => [SetUid id] end.

Definition finalizeLogin (self : Reply) : option (list Effect) := store_user <$> self_user self.

Definition signedIn : Effect := SuccessToast (js "Signed in successfully!").

Definition redirectAfterLogin (redirect : option jsstr) : list Effect := safeNavigate (target_or redirect) ++ [signedIn].

Definition handleBindingFailure (provider : jsstr) (message : option jsstr) : list Effect :=
  [NotifyBinding provider false; ErrorToast message].

Definition handleLoginFailure (redirect : option jsstr) (self : Reply) (message : option jsstr) : list Effect :=
  match finalizeLogin self with
  | Some es => es ++ redirectAfterLogin redirect
  | None => ErrorToast message :: safeNavigate SIGN_IN
  end.

(** The message of a GitHub account that is bound already. *)
Definition BOUND : jsstr := [35813; 32; 71; 105; 116; 72; 117; 98; 32; 36134; 25143; 24050; 34987; 32465; 23450]%N.

Definition text_of (v : option json) : option jsstr := match v with Some (JStr ((_ :: _) as m)) => Some m | _ => None end.

(** [(error && ... && 'response' in error && error.response?.data?.message) ??
    error.message ?? 'OAuth failed'] *)
Definition thrown_message (e : Thrown) : option jsstr :=
  match response e with
  | None => None
  | Some (Some m) => Some m
  | Some None => Some (opt_or (message e) (js "OAuth failed"))
  end.

(** [opener] is whether the window was opened by another one, [answer] what
    [/api/oauth/:provider] ends with; [self] are the loads of the user, which
    are asked for at most twice. *)
Definition callback (opener : bool) (provider : jsstr) (code redirect : option jsstr) (answer : Reply) (self : nat → Reply)
    : list Effect :=
  if negb (nonempty (opt_or code [])) then ErrorToast (Some (js "Missing code")) :: safeNavigate SIGN_IN else
  match answer with
  | Got o =>
      if success o then
        if bool_decide (prop (data_of o) "action" = Some (JStr (js "bind"))) then
          [SuccessToast (js "Binding successful!"); NotifyBinding provider true] ++
          (if opener then [CloseWindow] else safeNavigate PROFILE)
        else
          let failed := ErrorToast (Some (opt_or (text_of (obj_get (js "message") o)) (js "OAuth failed"))) :: safeNavigate SIGN_IN in
          match data_of o with
          | Some loginUser =>
              if json_truthy loginUser then store_user loginUser ++ redirectAfterLogin redirect
              else match finalizeLogin (self 0%nat) with Some es => es ++ redirectAfterLogin redirect | None => failed end
          | None => match finalizeLogin (self 0%nat) with Some es => es ++ redirectAfterLogin redirect | None => failed end
          end
      else
        let m := opt_or (text_of (obj_get (js "message") o)) (js "OAuth failed") in
        if opener then handleBindingFailure provider (Some m)
        else if bool_decide (m = BOUND) then
          match finalizeLogin (self 0%nat) with
          | Some es => es ++ redirectAfterLogin redirect
          | None => handleLoginFailure redirect (self 1%nat) (Some m)
          end
        else handleLoginFailure redirect (self 0%nat) (Some m)
  | Threw e =>
      if opener then handleBindingFailure provider (thrown_message e)
      else handleLoginFailure redirect (self 0%nat) (thrown_message e)
  end.

(** [routes/(auth)/oauth.tsx]: the answer to the code of WeChat is not looked
    at, unless it is an error. *)
Definition oauthPage (isWeChat : bool) (code redirect : option jsstr) (wechat self : Reply) : list Effect :=
  let failed := [ErrorToast (Some (js "OAuth failed")); Navigate SIGN_IN] in
  let load := match self with
              | Got o => if success o then [SetUser (opt_or (data_of o) JNull); Navigate (target_or redirect)] else failed
              | Threw _ => failed
              end in
  if isWeChat && nonempty (opt_or code []) then match wechat with Threw _ => failed | Got _ => load end else load.

(** ** What comes of it *)

Definition users (es : list Effect) : list json := omap (λ e, match e with SetUser u => Some u | _ => None end) es.
Definition navigations (es : list Effect) : list jsstr := omap (λ e, match e with Navigate to => Some to | _ => None end) es.

(** The user that the provider's answer, or a load, gives. *)
Definition given (answer : Reply) (self : nat → Reply) (u : json) : Prop :=
  (∃ o, answer = Got o ∧ success o = true ∧ data_of o = Some u ∧ json_truthy u = true ∧
        prop (data_of o) "action" ≠ Some (JStr (js "bind"))) ∨
  ∃ n, self_user (self n) = Some u.

(** A way back ends in one of four ways. *)
Inductive outcome (opener : bool) (redirect : option jsstr) (answer : Reply) (self : nat → Reply) (es : list Effect) : Prop :=
  | SignedIn u : given answer self u → users es = [u] → navigations es = [target_or redirect] → signedIn ∈ es →
      (∀ m, ErrorToast m ∉ es) → outcome opener redirect answer self es
  | SentBack m : users es = [] → navigations es = [SIGN_IN] → signedIn ∉ es → ErrorToast m ∈ es → outcome opener redirect answer self es
  | Bound : (∃ o, answer = Got o ∧ success o = true) → users es = [] →
      navigations es = (if opener then [] else [PROFILE]) → signedIn ∉ es → outcome opener redirect answer self es
  | BindingRefused m : opener = true → users es = [] → navigations es = [] → signedIn ∉ es → ErrorToast m ∈ es →
      outcome opener redirect answer self es.

Lemma store_user_signs_in opener redirect answer self u :
  given answer self u → outcome opener redirect answer self (store_user u ++ redirectAfterLogin redirect).
Proof.
  intros H. unfold store_user. destruct (json_prop u (js "id")) as [[]|];
    (eapply SignedIn; [exact H|reflexivity|reflexivity|set_solver|set_solver]).
Qed.

Lemma finalize_given (self : nat → Reply) n es : finalizeLogin (self n) = Some es → ∃ u, es = store_user u ∧ self_user (self n) = Some u.
Proof. unfold finalizeLogin. intros (u & -> & ->)%fmap_Some. eauto. Qed.

Lemma sent_back opener redirect answer self m : outcome opener redirect answer self (ErrorToast m :: safeNavigate SIGN_IN).
Proof. eapply SentBack; [done|done|set_solver|by left]. Qed.

Lemma finalize_or opener redirect answer self n rest :
  outcome opener redirect answer self rest →
  outcome opener redirect answer self (match finalizeLogin (self n) with Some es => es ++ redirectAfterLogin redirect | None => rest end).
Proof.
  intros H. destruct (finalizeLogin (self n)) as [es|] eqn:E; [|done].
  apply finalize_given in E as (u & -> & E). apply store_user_signs_in. right. by exists n.
Qed.

(** Whatever the provider, the server and the loads of the user answer, the
    page ends in one of four ways: one user is stored, one that the answer or
    a load gave, and the page goes where it was asked to; nobody is, and it
    goes back to the sign-in page with an error; an account was bound; or a
    window opened for that was refused and stays. *)
Theorem callback_outcome opener provider code redirect answer self :
  outcome opener redirect answer self (callback opener provider code redirect answer self).
Proof.
  unfold callback. destruct (negb _); [apply sent_back|]. destruct answer as [o|e].
  - destruct (success o) eqn:Hs.
    + case_bool_decide as Hb.
      { apply Bound; [by eexists|by destruct opener..|]. destruct opener; set_solver. }
      destruct (data_of o) as [u|] eqn:Hd; [|apply finalize_or, sent_back].
      destruct (json_truthy u) eqn:Hu; [|apply finalize_or, sent_back].
      apply store_user_signs_in. left. exists o. rewrite Hd. by split_and!.
    + destruct opener; [by eapply BindingRefused; [..|set_solver|right; left]|].
      case_bool_decide; [|apply finalize_or, sent_back]. apply finalize_or, finalize_or, sent_back.
  - destruct opener; [by eapply BindingRefused; [..|set_solver|right; left]|]. apply finalize_or, sent_back.
Qed.

(** ** Links to the providers ([lib/oauth.ts]) *)

(** The characters of a text; half a pair becomes the replacement character. *)
Fixpoint usv_points (s : jsstr) : list N :=
  match s with
  | [] => []
  | hi :: t =>
      if (55296 <=? hi)%N && (hi <=? 57343)%N then
        match t with
        | lo :: t' =>
            if (hi <=? 56319)%N && (56320 <=? lo)%N && (lo <=? 57343)%N
            then surrogate_pair hi lo :: usv_points t' else 65533%N :: usv_points t
        | [] => [65533%N]
        end
      else hi :: usv_points t
  end.

(** The serializer of [URLSearchParams]. *)
Definition form_plain (c : N) : bool :=
  is_upper c || is_lower c || is_digit c || (c =? 42)%N || (c =? 45)%N || (c =? 46)%N || (c =? 95)%N.
Definition form_point (c : N) : jsstr :=
  if (c =? 32)%N then js "+" else if form_plain c then [c] else concat (map pct (utf8_bytes c)).
Definition form_encode (s : jsstr) : jsstr := concat (map form_point (usv_points s)).
Definition query (ps : list (jsstr * jsstr)) : jsstr := join (js "&") (map (λ '(k, v), form_encode k ++ js "=" ++ form_encode v) ps).

Definition buildGitHubOAuthUrl (clientId state : jsstr) : jsstr :=
  js "https://github.com/login/oauth/authorize?client_id=" ++ clientId ++ js "&state=" ++ state ++ js "&scope=user:email".

Definition buildLinuxDOOAuthUrl (clientId state : jsstr) : jsstr :=
  js "https://connect.linux.do/oauth2/authorize?response_type=code&client_id=" ++ clientId ++ js "&state=" ++ state.

Definition buildDiscordOAuthUrl (origin clientId state : jsstr) : jsstr :=
  js "https://discord.com/oauth2/authorize?" ++
  query [(js "client_id", clientId); (js "redirect_uri", origin ++ js "/oauth/discord"); (js "response_type", js "code");
         (js "scope", js "identify+openid"); (js "state", state)].

(** ** Runs *)

Definition loaded_ann : Reply := Got [(js "success", JBool true); (js "data", JObj demo_user)].

(** The plus between the scopes of Discord is encoded, and no longer separates
    two. *)
Example discord_scope :
  includes (js "&scope=identify%2Bopenid&") (buildDiscordOAuthUrl (js "https://a.example") (js "id") (js "s")) = true.
Proof. reflexivity. Qed.

(** A link to the way back with any code leads a signed-in user to any site:
    the login fails, the session that is there counts as signed in, and the
    browser follows the link's own target. *)
Example any_site_followed :
  let es := callback false (js "github") (Some (js "x")) (Some (js "https://evil.example/")) (Threw (mkThrown (Some (Some (js "bad state"))) None))
              (λ _, loaded_ann) in
  (last es, navigations es, replaced (js "/oauth/https:/evil.example/") (js "https://evil.example/")) =
  (Some signedIn, [js "https://evil.example/"], Some (js "https://evil.example/")).
Proof. reflexivity. Qed.

(** A binding that was refused, in a window that lost its opener, is reported
    as a sign-in. *)
Example refused_binding_signs_in :
  let answer := Got [(js "success", JBool false); (js "message", JStr (js "taken"))] in
  last (callback false (js "discord") (Some (js "x")) None answer (λ _, loaded_ann)) = Some signedIn.
Proof. reflexivity. Qed.

(** Without a network the message is no text. *)
Example no_network :
  head (callback false (js "github") (Some (js "x")) None (Threw (mkThrown None (Some (js "Network Error"))))
    (λ _, Threw (mkThrown None None))) = Some (ErrorToast None).
Proof. reflexivity. Qed.

(** The answer to the code of WeChat may refuse it. *)
Example refused_wechat_signs_in :
  oauthPage true (Some (js "x")) None (Got [(js "success", JBool false)]) loaded_ann = [SetUser (JObj demo_user); Navigate DASHBOARD].
Proof. reflexivity. Qed.

End Callback.
