(* ===== verification/Registration.v ===== *)
(** * Registration and forgotten passwords

    The pages before a login: Module [Countdown] is the hook that holds back a
    second request ([hooks/use-countdown.ts]); Module [SignUp] the page that
    creates an account, with the codes it has sent by mail
    ([features/auth/sign-up], [hooks/use-email-verification.ts],
    [hooks/use-turnstile.ts]) and, as its specification, the checks that the
    server makes first ([middleware/turnstile-check.go], [controller/user.go]);
    Module [Reset] the two pages for a password that was forgotten
    ([features/auth/forgot-password], [features/auth/reset-password-confirm]). *)
From S2P Require Import Prelude JSString JSNumber JSON Login.
Local Open Scope Z_scope.

Module Countdown.

(** The state of the hook, and of the browser the intervals that run; ids of
    intervals are never used twice. *)
Record State := mkState {
  secondsLeft : Z; isActive : bool; timerRef : option nat; next : nat; intervals : list nat;
}.

Section Hook.
Context (initialSeconds : Z).

(** [autoStart] is used nowhere. *)
Definition initial : State := mkState initialSeconds false None 1 [].

Definition clearTimer (s : State) : State :=
  match timerRef s with
  | Some id => mkState (secondsLeft s) (isActive s) None (next s) (filter (λ i, i ≠ id) (intervals s))
  | None => s
  end.

Definition set_active (b : bool) (s : State) : State := mkState (secondsLeft s) b (timerRef s) (next s) (intervals s).
Definition set_seconds (n : Z) (s : State) : State := mkState n (isActive s) (timerRef s) (next s) (intervals s).

Definition stop (s : State) : State := set_active false (clearTimer s).

Definition start (seconds : option Z) (s : State) : State :=
  let s := clearTimer (set_active true (set_seconds (opt_or seconds initialSeconds) s)) in
  mkState (secondsLeft s) (isActive s) (Some (next s)) (S (next s)) (intervals s ++ [next s]).

Definition reset (s : State) : State := set_seconds initialSeconds (stop s).

(** The callback of an interval. *)
Definition tick (id : nat) (s : State) : State :=
  if bool_decide (id ∈ intervals s) then
    if secondsLeft s <=? 1 then set_seconds initialSeconds (set_active false (clearTimer s))
    else set_seconds (secondsLeft s - 1) s
  else s.

Inductive Event := Start (seconds : option Z) | Stop | Reset | Tick (id : nat) | Unmount.

Definition step (s : State) (e : Event) : State :=
  match e with
  | Start seconds => start seconds s
  | Stop => stop s
  | Reset => reset s
  | Tick id => tick id s
  | Unmount => clearTimer s
  end.

(** One interval at most, the one that the hook can clear. *)
Record inv (s : State) : Prop := {
  inv_one : intervals s = option_list (timerRef s);
  inv_active : is_Some (timerRef s) → isActive s = true;
}.

Lemma clear_inv s : intervals s = option_list (timerRef s) → intervals (clearTimer s) = [] ∧ timerRef (clearTimer s) = None.
Proof.
  intros H. unfold clearTimer. destruct (timerRef s) as [id|] eqn:E; [|by rewrite H].
  cbn [intervals timerRef]. rewrite H. split; [|done].
  by apply (filter_cons_False (λ i, i ≠ id) id []); intros ?.
Qed.

Lemma countdown_step_inv s e : inv s → inv (step s e).
Proof.
  intros [H1 H2]. destruct (clear_inv s H1) as [Hc Hn]. destruct e as [seconds| | |id|]; cbn [step].
  - destruct (clear_inv (set_active true (set_seconds (opt_or seconds initialSeconds) s)) H1) as [Hc' _].
    split; cbn; [|intros _]; [by rewrite Hc'|]. unfold clearTimer. cbn. by destruct (timerRef s).
  - split; cbn; rewrite ?Hc, ?Hn; [done|by intros [? ?]].
  - split; cbn; rewrite ?Hc, ?Hn; [done|by intros [? ?]].
  - unfold tick. case_bool_decide; [|done]. destruct (secondsLeft s <=? 1); [|done].
    split; cbn; rewrite ?Hc, ?Hn; [done|by intros [? ?]].
  - split; rewrite ?Hc, ?Hn; [done|by intros [? ?]].
Qed.

Lemma run_countdown_inv es : inv (foldl step initial es).
Proof.
  assert (inv initial) as H by (split; cbn; [done|by intros [? ?]]).
  revert H. generalize initial. induction es as [|e es IH]; intros s H; [done|]. by apply IH, countdown_step_inv.
Qed.

(** A countdown that is left alone counts down by one with every tick of its
    interval, and the last one ends it: the button is free and no interval is
    left. *)
Lemma countdown_runs n k s :
  inv s → (k < n)%nat →
  let s0 := start (Some (Z.of_nat n)) s in
  let ticks k := foldl (λ s _, tick (next s0 - 1) s) s0 (seq 0 k) in
  secondsLeft (ticks k) = Z.of_nat n - Z.of_nat k ∧ isActive (ticks k) = true ∧
  (isActive (ticks n) = false ∧ secondsLeft (ticks n) = initialSeconds ∧ intervals (ticks n) = []).
Proof.
  intros Hi Hk s0 ticks. pose proof (countdown_step_inv s (Start (Some (Z.of_nat n))) Hi) as [H1 _]. cbn [step] in H1. fold s0 in H1.
  assert (isActive s0 = true) as Ha by (subst s0; unfold start, clearTimer; cbn; by destruct (timerRef s)).
  assert (secondsLeft s0 = Z.of_nat n) as Hl by (subst s0; unfold start, clearTimer; cbn; by destruct (timerRef s)).
  assert (timerRef s0 = Some (next s0 - 1)%nat) as Ht by (subst s0; cbn; f_equal; lia).
  clearbody s0.
  assert (∀ j, (j < n)%nat → ticks j = set_seconds (Z.of_nat n - Z.of_nat j) s0) as Hj.
  { induction j as [|j IH]; intros Hlt.
    - subst ticks. cbn. destruct s0; cbn in *. subst. by rewrite Z.sub_0_r.
    - unfold ticks. rewrite seq_S, foldl_app. change (foldl _ s0 (seq 0 j)) with (ticks j). rewrite IH by lia. cbn.
      unfold tick. rewrite bool_decide_eq_true_2 by (cbn; rewrite H1, Ht; cbn; by left). cbn [secondsLeft set_seconds].
      destruct (Z.leb_spec (Z.of_nat n - Z.of_nat j) 1); [lia|]. unfold set_seconds. cbn. f_equal. lia. }
  rewrite (Hj k Hk). cbn. split_and!; [done|done|..].
  all: destruct n as [|n]; [lia|]; unfold ticks; rewrite seq_S, foldl_app; change (foldl _ s0 (seq 0 n)) with (ticks n);
    rewrite (Hj n) by lia; cbn; unfold tick; rewrite bool_decide_eq_true_2 by (cbn; rewrite H1, Ht; cbn; by left);
    cbn [secondsLeft set_seconds]; replace (Z.of_nat (S n) - Z.of_nat n <=? 1) with true by (symmetry; apply Z.leb_le; lia).
  - done.
  - done.
  - by apply (clear_inv (set_seconds (Z.of_nat (S n) - Z.of_nat n) s0)).
Qed.

End Hook.
End Countdown.

Module SignUp.
Import Login.

Definition EMAIL_VERIFICATION_COUNTDOWN : Z := 30.

Record Form := mkForm {
  username : jsstr; email : jsstr; password : jsstr; confirmPassword : jsstr; verificationCode : jsstr;
  agreedToLegal : bool; turnstileToken : jsstr; isLoading : bool; isSending : bool;
}.

(** [RegisterPayload]; what is [undefined] is missing from the body. *)
Record Payload := mkPayload {
  p_username : jsstr; p_password : jsstr; p_email : option jsstr; p_code : option jsstr; p_aff : jsstr; p_turnstile : jsstr;
}.

Inductive Pending := PSend | PRegister.

(** [sent] and [registered] are the requests, [refused] and [ended] count the
    codes that were not sent and the countdowns that are over; [gone] is set
    when the page gives way to the sign-in page. *)
Record State := mkState {
  form : Form; countdown : Countdown.State; pending : list Pending;
  sent : list (jsstr * jsstr); registered : list Payload; refused : nat; ended : nat;
  toasts : list Toast; gone : bool;
}.

Section Page.
Context (requiresLegalConsent emailVerificationRequired isTurnstileEnabled : bool) (affiliate : jsstr).

Definition fresh : Form := mkForm [] [] [] [] [] (negb requiresLegalConsent) [] false false.
Definition initial : State :=
  mkState fresh (Countdown.initial EMAIL_VERIFICATION_COUNTDOWN) [] [] [] 0 0 [] false.

Definition set_form (f : Form → Form) (s : State) : State :=
  mkState (f (form s)) (countdown s) (pending s) (sent s) (registered s) (refused s) (ended s) (toasts s) (gone s).
Definition notify (t : Toast) (s : State) : State :=
  mkState (form s) (countdown s) (pending s) (sent s) (registered s) (refused s) (ended s) (toasts s ++ [t]) (gone s).
Definition pop (i : nat) (s : State) : State :=
  mkState (form s) (countdown s) (delete i (pending s)) (sent s) (registered s) (refused s) (ended s) (toasts s) (gone s).

Definition set_loading (b : bool) (f : Form) : Form :=
  mkForm (username f) (email f) (password f) (confirmPassword f) (verificationCode f) (agreedToLegal f) (turnstileToken f) b (isSending f).
Definition set_sending (b : bool) (f : Form) : Form :=
  mkForm (username f) (email f) (password f) (confirmPassword f) (verificationCode f) (agreedToLegal f) (turnstileToken f) (isLoading f) b.

Definition isActive (s : State) : bool := Countdown.isActive (countdown s).

(** [validateTurnstile] *)
Definition turnstile_ready (f : Form) : bool := negb isTurnstileEnabled || nonempty (turnstileToken f).

Definition sendDisabled (s : State) : bool :=
  isLoading (form s) || isSending (form s) || isActive s || negb (nonempty (email (form s))).

(** [sendCode] up to its request, and its answer. *)
Definition sendCode (s : State) : State :=
  let f := form s in
  if negb (nonempty (email f)) then notify (TError (js "Please enter your email first")) s
  else if negb (turnstile_ready f) then notify (TInfo (js "Please wait a moment, human check is initializing...")) s
  else mkState (set_sending true f) (countdown s) (pending s ++ [PSend]) (sent s ++ [(email f, turnstileToken f)])
         (registered s) (refused s) (ended s) (toasts s) (gone s).

Definition onSent (a : Answer) (s : State) : State :=
  let ok := match a with Body o => success o | Failed _ => false end in
  set_form (set_sending false)
    (if ok then
       mkState (form s) (Countdown.start EMAIL_VERIFICATION_COUNTDOWN None (countdown s)) (pending s) (sent s) (registered s)
         (refused s) (ended s) (toasts s ++ [TSuccess (js "Verification email sent")]) (gone s)
     else mkState (form s) (countdown s) (pending s) (sent s) (registered s) (S (refused s)) (ended s) (toasts s) (gone s)).

(** [registerFormSchema] *)
Definition register_form_ok (f : Form) : bool :=
  nonempty (username f) && (8 <=? length (password f))%nat && (length (password f) <=? 20)%nat &&
  nonempty (confirmPassword f) && bool_decide (password f = confirmPassword f).

(** [x || undefined] *)
Definition or_undefined (s : jsstr) : option jsstr := if nonempty s then Some s else None.

Definition onSubmit (s : State) : State :=
  let f := form s in
  if requiresLegalConsent && negb (agreedToLegal f) then notify legalConsentError s
  else if emailVerificationRequired && negb (nonempty (email f)) then notify (TError (js "Please enter your email")) s
  else if emailVerificationRequired && negb (nonempty (verificationCode f))
  then notify (TError (js "Please enter the verification code")) s
  else mkState (set_loading true f) (countdown s) (pending s ++ [PRegister]) (sent s)
         (registered s ++ [mkPayload (username f) (password f) (or_undefined (email f)) (or_undefined (verificationCode f))
            affiliate (turnstileToken f)])
         (refused s) (ended s) (toasts s) (gone s).

Definition onRegistered (a : Answer) (s : State) : State :=
  let ok := match a with Body o => success o | Failed _ => false end in
  let s := set_form (set_loading false) s in
  if ok then
    mkState (form s) (Countdown.clearTimer (countdown s)) (pending s) (sent s) (registered s) (refused s) (ended s)
      (toasts s ++ [TSuccess (js "Account created! Please sign in")]) true
  else s.

(** The tick of an interval; the last one is counted. *)
Definition onTick (id : nat) (s : State) : State :=
  let c := Countdown.tick EMAIL_VERIFICATION_COUNTDOWN id (countdown s) in
  let over := isActive s && negb (Countdown.isActive c) in
  mkState (form s) c (pending s) (sent s) (registered s) (refused s) (if over then S (ended s) else ended s) (toasts s) (gone s).

Inductive Event :=
  | Typed (username password confirmPassword : jsstr)
  | EmailTyped (email : jsstr)
  | CodeTyped (code : jsstr)
  | Agreed (b : bool)
  | TurnstileVerified (token : jsstr)
  | SendClicked
  | Submitted
  | Answered (i : nat) (a : Answer)
  | Ticked (id : nat).

(** The fields of the mail, and with them the check against robots, are drawn
    only where a verification is required; the consent only where it is. *)
Definition step (s : State) (e : Event) : State :=
  if gone s then s else
  match e with
  | Typed u p c => set_form (λ f, mkForm u (email f) p c (verificationCode f) (agreedToLegal f) (turnstileToken f) (isLoading f) (isSending f)) s
  | EmailTyped v =>
      if emailVerificationRequired
      then set_form (λ f, mkForm (username f) v (password f) (confirmPassword f) (verificationCode f) (agreedToLegal f) (turnstileToken f) (isLoading f) (isSending f)) s
      else s
  | CodeTyped v =>
      if emailVerificationRequired
      then set_form (λ f, mkForm (username f) (email f) (password f) (confirmPassword f) v (agreedToLegal f) (turnstileToken f) (isLoading f) (isSending f)) s
      else s
  | Agreed b =>
      if requiresLegalConsent
      then set_form (λ f, mkForm (username f) (email f) (password f) (confirmPassword f) (verificationCode f) b (turnstileToken f) (isLoading f) (isSending f)) s
      else s
  | TurnstileVerified t =>
      if emailVerificationRequired && isTurnstileEnabled
      then set_form (λ f, mkForm (username f) (email f) (password f) (confirmPassword f) (verificationCode f) (agreedToLegal f) t (isLoading f) (isSending f)) s
      else s
  | SendClicked => if emailVerificationRequired && negb (sendDisabled s) then sendCode s else s
  | Submitted => if register_form_ok (form s) then onSubmit s else s
  | Answered i a =>
      match pending s !! i with
      | Some PSend => onSent a (pop i s)
      | Some PRegister => onRegistered a (pop i s)
      | None => s
      end
  | Ticked id => onTick id s
  end.

Definition run (es : list Event) : State := foldl step initial es.

(** ** The checks of the server *)

(** [TurnstileCheck]: [passed] is what the session remembers. *)
Definition TurnstileCheck (enabled passed : bool) (verify : jsstr → bool) (token : jsstr) : bool :=
  negb enabled || passed || (nonempty token && verify token).

Definition runes (s : jsstr) : nat := length (Callback.usv_points s).

(** The first checks of [Register]: the lengths of [model.User] and, where it
    is required, an address with a code. *)
Definition Register_checks (p : Payload) : bool :=
  (runes (p_username p) <=? 20)%nat && (8 <=? runes (p_password p))%nat && (runes (p_password p) <=? 20)%nat &&
  (runes (opt_or (p_email p) []) <=? 50)%nat &&
  (negb emailVerificationRequired || nonempty (opt_or (p_email p) []) && nonempty (opt_or (p_code p) [])).

(** ** What holds on the page *)

Definition count_bool (b : bool) : nat := if b then 1 else 0.
Definition sends_waiting (s : State) : nat := length (List.filter (λ p, match p with PSend => true | _ => false end) (pending s)).

Definition payload_ok (p : Payload) : Prop :=
  p_username p ≠ [] ∧ (8 <= length (p_password p) <= 20)%nat ∧ p_aff p = affiliate ∧
  (emailVerificationRequired = true → ∃ e c, p_email p = Some e ∧ e ≠ [] ∧ p_code p = Some c ∧ c ≠ []).

Record page_inv (s : State) : Prop := {
  pi_countdown : Countdown.inv (countdown s);
  pi_waits : sends_waiting s = count_bool (isSending (form s));
  pi_one : gone s = false → isSending (form s) = true → isActive s = false;
  pi_sent : gone s = false → length (sent s) = (refused s + ended s + sends_waiting s + count_bool (isActive s))%nat;
  pi_payloads : Forall payload_ok (registered s);
  pi_token : emailVerificationRequired && isTurnstileEnabled = false → turnstileToken (form s) = [] ∧ Forall (λ p, p_turnstile p = []) (registered s);
}.

(** What leaves the requests, the countdown and the token alone. *)
Lemma form_inv s f :
  isSending (f (form s)) = isSending (form s) →
  (emailVerificationRequired && isTurnstileEnabled = false → turnstileToken (f (form s)) = turnstileToken (form s)) →
  page_inv s → page_inv (set_form f s).
Proof.
  intros Hs Ht [H1 H2 H3 H4 H5 H6]. split; cbn; try done.
  - by rewrite Hs.
  - by rewrite Hs.
  - intros Hr. rewrite Ht by done. by apply H6.
Qed.

Lemma notify_inv t s : page_inv s → page_inv (notify t s).
Proof. by intros [H1 H2 H3 H4 H5 H6]. Qed.

Lemma send_inv s : sendDisabled s = false → page_inv s → page_inv (sendCode s).
Proof.
  intros Hd Hi. unfold sendCode. destruct (negb (nonempty _)); [by apply notify_inv|].
  destruct (negb (turnstile_ready _)); [by apply notify_inv|].
  destruct Hi as [H1 H2 H3 H4 H5 H6]. unfold sendDisabled in Hd.
  apply orb_false_iff in Hd as [Hd _]. apply orb_false_iff in Hd as [Hd Ha]. apply orb_false_iff in Hd as [_ Hs].
  unfold sends_waiting, isActive in *. rewrite Hs in H2.
  split; try done; unfold sends_waiting, isActive; cbn; rewrite ?List.filter_app, ?length_app, ?H2; cbn; try done.
  intros Hg. specialize (H4 Hg). rewrite H4, H2, Ha. cbn. lia.
Qed.

Lemma submit_inv s : register_form_ok (form s) = true → page_inv s → page_inv (onSubmit s).
Proof.
  intros Hf Hi. unfold onSubmit. destruct (requiresLegalConsent && _); [by apply notify_inv|].
  destruct (emailVerificationRequired && negb (nonempty (email (form s)))) eqn:He; [by apply notify_inv|].
  destruct (emailVerificationRequired && negb (nonempty (verificationCode (form s)))) eqn:Hc; [by apply notify_inv|].
  destruct Hi as [H1 H2 H3 H4 H5 H6]. unfold sends_waiting, isActive in *.
  split; try done; unfold sends_waiting, isActive; cbn; rewrite ?List.filter_app, ?length_app, ?app_nil_r; cbn; rewrite ?Nat.add_0_r; try done.
  - apply Forall_app. split; [done|]. apply Forall_singleton. unfold register_form_ok in Hf.
    apply andb_true_iff in Hf as [Hf _]. apply andb_true_iff in Hf as [Hf _]. apply andb_true_iff in Hf as [Hf H20].
    apply andb_true_iff in Hf as [Hu H8]. split_and!; cbn; [by destruct (username (form s))|by apply Nat.leb_le|by apply Nat.leb_le|done|].
    intros Hr. rewrite Hr in He, Hc. cbn in He, Hc. unfold or_undefined.
    destruct (email (form s)) as [|x e], (verificationCode (form s)) as [|y c]; try done. cbn. by eexists _, _.
  - intros Hr. specialize (H6 Hr) as [H6 H7]. split; [done|]. apply Forall_app. split; [done|]. by apply Forall_singleton.
Qed.

Lemma pop_waiting (l : list Pending) i p :
  l !! i = Some p →
  length (List.filter (λ p, match p with PSend => true | _ => false end) l) =
  (length (List.filter (λ p, match p with PSend => true | _ => false end) (delete i l)) + match p with PSend => 1 | PRegister => 0 end)%nat.
Proof.
  revert i. induction l as [|q l IH]; intros [|i] Hi; [done..| |].
  - injection Hi as ->. cbn. destruct p; cbn; lia.
  - specialize (IH i Hi). change (delete (S i) (q :: l)) with (q :: delete i l). cbn [List.filter]. destruct q; cbn [length]; lia.
Qed.

Lemma sent_inv a i s : gone s = false → pending s !! i = Some PSend → page_inv s → page_inv (onSent a (pop i s)).
Proof.
  intros Hg Hi [H1 H2 H3 H4 H5 H6]. unfold sends_waiting in *. rewrite (pop_waiting _ _ _ Hi) in H2, H4.
  destruct (isSending (form s)) eqn:Hs; cbn in H2; [|lia]. specialize (H3 Hg eq_refl). specialize (H4 Hg). rewrite H3 in H4. cbn in H4.
  assert (Hw : length (List.filter (λ p, match p with PSend => true | _ => false end) (delete i (pending s))) = 0%nat) by lia.
  unfold onSent. destruct (match a with Body o => success o | Failed _ => false end);
    split; unfold sends_waiting, isActive in *; cbn; rewrite ?Hw, ?H3; try done; try lia.
  - by apply (Countdown.countdown_step_inv EMAIL_VERIFICATION_COUNTDOWN _ (Countdown.Start None)).
  - intros _. unfold Countdown.clearTimer. cbn. destruct (Countdown.timerRef (countdown s)); cbn; lia.
  - intros _. cbn. lia.
Qed.

Lemma registered_inv a i s : pending s !! i = Some PRegister → page_inv s → page_inv (onRegistered a (pop i s)).
Proof.
  intros Hi [H1 H2 H3 H4 H5 H6]. unfold sends_waiting in *. rewrite (pop_waiting _ _ _ Hi), Nat.add_0_r in H2, H4.
  unfold onRegistered. destruct (match a with Body o => success o | Failed _ => false end); [|by split].
  split; try done. by apply (Countdown.countdown_step_inv EMAIL_VERIFICATION_COUNTDOWN _ Countdown.Unmount).
Qed.

Lemma tick_inv id s : page_inv s → page_inv (onTick id s).
Proof.
  intros [H1 H2 H3 H4 H5 H6]. pose proof (Countdown.countdown_step_inv EMAIL_VERIFICATION_COUNTDOWN _ (Countdown.Tick id) H1) as H1'.
  cbn [Countdown.step] in H1'. unfold onTick. split; unfold sends_waiting, isActive in *; cbn; try done.
  - intros Hg Hs. specialize (H3 Hg Hs). unfold Countdown.tick, Countdown.clearTimer. by repeat case_match.
  - intros Hg. specialize (H4 Hg). rewrite H4. unfold Countdown.tick. case_bool_decide as Hin.
    + assert (Countdown.isActive (countdown s) = true) as Ha.
      { apply (Countdown.inv_active _ H1). rewrite (Countdown.inv_one _ H1) in Hin.
        destruct (Countdown.timerRef (countdown s)); [by eexists|by apply not_elem_of_nil in Hin]. }
      destruct (Countdown.secondsLeft (countdown s) <=? 1); cbn; rewrite Ha; cbn; lia.
    + destruct (Countdown.isActive (countdown s)); cbn; lia.
Qed.

Lemma step_page_inv s e : page_inv s → page_inv (step s e).
Proof.
  intros H. unfold step. destruct (gone s) eqn:Hg; [done|].
  destruct e as [u p c|v|v|b|t| | |i a|id]; [by apply form_inv| | | | | | | |by apply tick_inv].
  1, 2, 3: case_match; [by apply form_inv|done].
  - destruct (emailVerificationRequired && isTurnstileEnabled) eqn:Hr; [|done]. apply form_inv; [done| |done]. by rewrite Hr.
  - destruct emailVerificationRequired; [|done]. cbn [andb]. destruct (sendDisabled s) eqn:Hd; [done|]. by apply send_inv.
  - destruct (register_form_ok (form s)) eqn:Hf; [|done]. by apply submit_inv.
  - destruct (pending s !! i) as [[]|] eqn:Hi; [by apply sent_inv|by apply registered_inv|done].
Qed.

Lemma run_page_inv es : page_inv (run es).
Proof.
  unfold run. assert (page_inv initial) as H.
  { split; cbn; try done. split; cbn; [done|by intros [? ?]]. }
  revert H. generalize initial. induction es as [|e es IH]; intros s H; [done|]. by apply IH, step_page_inv.
Qed.

(** A code is asked for again only when the last one could not be sent or its
    countdown is over: up to one that is under way or counted down, there are
    as many requests as refusals and ended countdowns.  What is registered is
    complete: a name, a password of 8 to 20 characters that was typed twice,
    the code of the affiliate and, where it is required, an address with a
    code. *)
Theorem signup_spec es :
  let s := run es in
  (gone s = false → length (sent s) = (refused s + ended s + count_bool (isSending (form s)) + count_bool (isActive s))%nat ∧
                    isSending (form s) && isActive s = false) ∧
  Forall payload_ok (registered s).
Proof.
  intros s. pose proof (run_page_inv es) as [H1 H2 H3 H4 H5 H6]. split; [|done]. intros Hg. split.
  - specialize (H4 Hg). rewrite H2 in H4. exact H4.
  - destruct (isSending (form s)) eqn:Hs; [|done]. by apply H3.
Qed.

(** With the check against robots, but without the verification of addresses,
    nobody can register: the check is not drawn, so that every request has an
    empty token, and the server refuses it unless the session passed the check
    elsewhere. *)
Theorem robots_check_missing verify es :
  emailVerificationRequired = false → isTurnstileEnabled = true →
  Forall (λ p, TurnstileCheck isTurnstileEnabled false verify (p_turnstile p) = false) (registered (run es)).
Proof.
  intros He Ht. pose proof (run_page_inv es) as [_ _ _ _ _ H]. rewrite He in H. destruct (H eq_refl) as [_ Hp].
  eapply Forall_impl; [exact Hp|]. intros p E. unfold TurnstileCheck. by rewrite Ht, E.
Qed.

End Page.
(** A password of four characters beyond the basic plane passes the form, which
    counts halves, and not the server, which counts characters. *)
Example short_password_sent :
  let pw := [55357; 56832; 55357; 56832; 55357; 56832; 55357; 56832]%N in
  let s := run false false false [] [Typed (js "ann") pw pw; Submitted] in
  map (Register_checks false) (registered s) = [false].
Proof. vm_compute. reflexivity. Qed.

(** The form takes any length of a name, the server twenty. *)
Example long_name_sent :
  let s := run false false false [] [Typed (js "a-name-of-more-than-twenty") (js "password") (js "password"); Submitted] in
  (length (registered s), map (Register_checks false) (registered s)) = (1%nat, [false]).
Proof. vm_compute. reflexivity. Qed.

(** An answer after the page is gone starts an interval that nothing clears. *)
Example interval_left :
  Countdown.intervals (foldl (Countdown.step 30) (Countdown.initial 30) [Countdown.Unmount; Countdown.Start None]) = [1%nat].
Proof. reflexivity. Qed.

End SignUp.

(** ** Forgotten passwords *)

Module Reset.
Import Login.

Definition PASSWORD_RESET_COUNTDOWN : Z := 30.

(** The page that asks for a mail: whether it loads, the address, the
    countdown and what was sent. *)
Record Ask := mkAsk { isLoading : bool; countdown : Countdown.State; sent : list (jsstr * jsstr); toasts : list Toast }.

Definition onSubmit (isTurnstileEnabled : bool) (token email : jsstr) (s : Ask) : Ask :=
  if isTurnstileEnabled && negb (nonempty token)
  then mkAsk (isLoading s) (countdown s) (sent s) (toasts s ++ [TInfo (js "Please wait a moment, human check is initializing...")])
  else mkAsk true (countdown s) (sent s ++ [(email, token)]) (toasts s).

Definition onAsked (a : Answer) (s : Ask) : Ask :=
  match a with
  | Body o =>
      if success o
      then mkAsk false (Countdown.start PASSWORD_RESET_COUNTDOWN None (countdown s)) (sent s)
             (toasts s ++ [TSuccess (js "Reset email sent, please check your inbox")])
      else mkAsk false (countdown s) (sent s) (toasts s)
  | Failed _ => mkAsk false (countdown s) (sent s) (toasts s)
  end.

(** The page that the mail leads to. *)
Record Confirm := mkConfirm {
  newPassword : jsstr; loading : bool; c_countdown : Countdown.State; c_toasts : list Toast; requests : nat;
}.

Definition isValidResetLink (email token : option jsstr) : bool := nonempty (opt_or email []) && nonempty (opt_or token []).

Definition confirmDisabled (email token : option jsstr) (s : Confirm) : bool :=
  loading s || Countdown.isActive (c_countdown s) || negb (isValidResetLink email token).

Definition handleSubmit (email token : option jsstr) (s : Confirm) : Confirm :=
  if negb (isValidResetLink email token)
  then mkConfirm (newPassword s) (loading s) (c_countdown s)
         (c_toasts s ++ [TError (js "Invalid reset link, please request a new password reset")]) (requests s)
  else mkConfirm (newPassword s) true (Countdown.start 30 None (c_countdown s)) (c_toasts s) (S (requests s)).

(** [copied] is whether the clipboard took the password. *)
Definition onConfirmed (copied : bool) (a : Answer) (s : Confirm) : Confirm :=
  match a with
  | Body o =>
      if success o then
        let password := match data_of o with Some v => json_to_string v | None => js "undefined" end in
        mkConfirm (match data_of o with Some (JStr p) => p | _ => [] end) false (c_countdown s)
          (c_toasts s ++ [TSuccess ((if copied then js "Password reset and copied to clipboard: " else js "Password reset: ") ++ password)])
          (requests s)
      else mkConfirm (newPassword s) false (c_countdown s) (c_toasts s) (requests s)
  | Failed _ => mkConfirm (newPassword s) false (c_countdown s) (c_toasts s) (requests s)
  end.

(** The note under the new password is there whether it was copied or not. *)
Definition copied_note (s : Confirm) : bool := nonempty (newPassword s).

(** A reset that the server refuses says nothing at all: the request asks for
    no toast, and the page has none of its own. *)
Lemma refused_reset_silent copied o s : success o = false → c_toasts (onConfirmed copied (Body o) s) = c_toasts s.
Proof. intros H. cbn. by rewrite H. Qed.

Example copied_note_wrong :
  copied_note (onConfirmed false (Body [(js "success", JBool true); (js "data", JStr (js "secret"))])
    (mkConfirm [] true (Countdown.initial 30) [] 1)) = true.
Proof. reflexivity. Qed.

End Reset.
